(* ===== verification/_CoqProject ===== *)
-Q . S2P
Prelude.v
Base.v
ByteQueue.v
RingBuffer.v
Pipe.v
Signal.v
Pty.v
Process.v
SnapshotArena.v
Path.v
Arena.v
Timing.v
Ethernet.v
Interface.v
Socket.v
SocketStream.v
SocketInvariant.v
Tcp.v
Stack.v
StackWire.v
StackSend.v
TcpTable.v
Filesystem.v
SectorReader.v
Ext4.v
Ext4Image.v
Ext4Laws.v
Ext4Mount.v
Ext4Map.v
Ext4Read.v
Ext4Extent.v
Fat32Name.v
Fat32NameLaws.v
Fat32.v
Fat32Image.v
Fat32Laws.v
Fat32Mount.v
Fat32Read.v
Fat32Table.v
Fat32Alloc.v
Fat32Chain.v
Fat32File.v
Fat32Truncate.v
Fat32Resize.v
Fat32TruncateSpec.v
Fat32Write.v
Abi.v
PseudoFs.v
Root.v
Memory.v
Runtime.v
Counts.v
Descriptor.v
DescriptorLaws.v
FileCalls.v
DescriptorCounts.v
Context.v
ContextLaws.v
ContextSpec.v
SignalCalls.v
Loader.v
LoaderLaws.v
LoaderStack.v
PathCalls.v
DataCalls.v
ProcessCalls.v
ProcessLaws.v
WaitCalls.v
Dispatch.v
Examples.v
DataLaws.v
Confined.v
ExecLaws.v
Timer.v
