(* ===== verification/Prelude.v ===== *)
(** * mikOS in Rocq

    A model of the core of mikOS, a freestanding C++ kernel for RV32, and the
    theorems that make it correct.  Paths are relative to src/.

    ** The program and the files of this development

    The kernel is a set of header-only components with explicit state, which
    kernel/syscall.cpp, kernel/main.cpp and network/stack.cpp own as globals.
    The components call each other only through the operations modelled here.

    - Byte queues.  [RingBuffer] (include/mikos/io/ring_buffer.hpp) implements
      the interface of [ByteQueue]; pipes and pseudo-terminals are its clients
      and are proved against the interface.
    - Processes.  [Process] (process/model.hpp): the table of lineages, states,
      groups and sessions; [Signal] (process/signal.hpp): one process's actions
      and masks; [Pipe] (process/pipe.hpp) and [Pty] (process/pty.hpp): tables of
      reference-counted objects behind generation-checked handles;
      [SnapshotArena] (process/snapshot_arena.hpp): the memory of forked images.
    - Memory and ranges.  [Arena] (memory/arena.hpp, memory/allocator.hpp): the
      free-list allocator and the checked allocation built on it; [Base]
      (base.hpp): user ranges and alignment.
    - Paths.  [Path] (kernel/path.hpp).
    - Network.  [Ethernet], [Interface], [Timing], [Tcp], [TcpTable] and
      [Socket] (the headers of include/mikos/net/ of those names); [Stack]
      (network/stack.cpp) composes them: a frame goes from the driver through
      [handle_frame] and [handle_tcp] to the socket table, and the socket calls
      go through [send_segment] to the driver.
    - Storage.  [Filesystem] (drivers/fs/filesystem.hpp) states what a byte
      device is; [SectorReader] (drivers/storage/sector_reader.hpp) makes one of
      a sector device; [Ext4] (drivers/fs/ext4/ext4.hpp) is a volume on any byte
      device, with its lemmas in the files whose names begin so; [Fat32]
      (drivers/fs/fat32/fat32.hpp) is another, its names in [Fat32Name], its
      reading side in [Fat32Mount] and [Fat32Read], its writing side in
      [Fat32Table], [Fat32Alloc], [Fat32Chain], [Fat32File] and the files of
      truncation and writing; [Root] (drivers/fs/root.cpp) owns the mounted ext4
      volume and [PseudoFs] (kernel/pseudo_filesystem.cpp) is /proc and /sys.
    - System calls (kernel/syscall.cpp).  [Abi] has the numbers, the errors and
      the trap frame, [Memory] the memory of the running process; [Descriptor]
      the descriptor tables of the running, the suspended and the parked
      processes with the references they hold; [FileCalls] the calls on
      descriptors, pipes, terminals and sockets.  [Counts] and [DescriptorLaws]
      have what the tables of pipes and terminals promise the descriptors, and
      [DescriptorCounts] the theorems on all of them together.  [Context] is the
      kernel with its suspended and parked processes: clone, exit, and the
      switches between them; its lemmas are in [ContextLaws] and [ContextSpec].
      [SignalCalls] delivers signals and returns from handlers.  [PathCalls] has
      the calls on paths and directories, [DataCalls] those that move data,
      [ProcessCalls] those on processes, time and memory and execve, [WaitCalls]
      accept, ppoll and pselect6.  [Dispatch] has the switch over all of them
      and the trap handler (kernel/main.cpp) with the atomic instructions it
      carries out, and the bootstrap [Scheduler] (scheduler.hpp).
    - Programs (kernel/main.cpp).  [Loader] takes an executable from the root
      file system into memory and lays out its stack; [LoaderLaws] and
      [LoaderStack] have the theorems.  [Runtime] (kernel/runtime.cpp) has the
      memory routines and the 64-bit division, [Timer]
      (kernel/arch/riscv32/timer.cpp) the counter and its compare register.
    - [DataLaws], [ProcessLaws], [Confined] and [ExecLaws] have the theorems on
      system calls; their witnesses run on the machine of [Examples], with a
      terminal and a small root volume.

    Each operation has the name it has in the source, in a Module per
    component; a method that the source overloads, or whose name is a keyword,
    has a longer name, and a loop body or a lambda has a name of its own.

    ** How the code is represented

    - A [w]-bit unsigned integer is a [Z]; every operation that may leave its
      range is written with [u8], [u16], [u32] or [u64].
    - A struct is a record, an enum an inductive type, a fixed array a list of
      its capacity, a pointer into a table the index it points to.  Records are
      updated with [r <| field := value |>].
    - A method that mutates [*this] takes and returns the record.  The file
      systems, whose methods may fail in the middle, are written in the
      state-and-error monad [Fs.io], in which the state survives an error.
    - A loop without a structural bound has fuel.  Where it has, a theorem or
      lemma shows that the fuel the definition passes is enough:
      [stack_write_terminates] for [socket_write]; the length of the input for
      [Ext4.read_loop] and [SectorReader.read_loop] (each round consumes a byte
      at least); the depth in the header of an extent tree for
      [Ext4.map_extents_loop]; the list of blocks for [Arena].  The loops in
      which a call waits for the outside world, and in which a driver reads a
      register until it settles, go round as often as their argument [spins]
      says: [None] is a call that still waits, no result of it.
    - Code that is not the program's is a parameter with laws: sector devices
      ([SectorDevice], [SectorLaws]), byte devices ([Fs.Device],
      [Fs.DeviceLaws]) and the driver, clock and console of the stack
      ([Stack.Machine]).  A device may fail at any transfer and a failed write
      may leave anything behind; the laws are discharged by concrete devices in
      memory, which the witnesses use.

    ** What is proved

    - Refinement: [pipe_table_refines] (handles over byte streams),
      [arena_client_safe] and [snapshot_client_safe] (disjoint live blocks, no
      byte lost), [stream_session] (the reader gets the
      peer's stream in order and once, whatever the network reorders, repeats or
      splits), [stack_acknowledge_spec] (the retransmission queue is what was
      written and not acknowledged), [sector_reader_refines] (a cached sector
      device is a flat array of bytes).
    - Composition: [descriptor_reference_counts] and [pipe_hang_up_spec] (over
      any sequence of descriptor calls, forks, exits and suspensions the pipes
      and terminals are referenced exactly as often as descriptors name them);
      [fork_exit_round_trip] (whatever a child does, its exit brings the parent
      back); [signal_round_trip] and [group_signal_spec]; [elf_load_spec] (from
      the extent tree on the device to the segments in memory);
      [exec_arguments] (a program that hands on its arguments starts the next
      one with exactly these); [system_call_confined] (no system call writes
      outside user memory).
    - Invariants of the tables: [process_table_invariant],
      [pty_table_invariant], [socket_table_invariant]; [ext4_mount_sound] and
      [fat_mount_sound] (a volume that mounts is well formed, whatever the device
      holds).
    - Functional behaviour: [ext4_read_spec], [ext4_map_extents_spec],
      [ext4_map_legacy_spec], [ext4_append_extent_spec], [fat_read_spec],
      [fat_write_spec], [fat_truncate_spec], [fat_allocate_chain_spec],
      [fat_free_chain_spec], [pseudo_tree], [bad_descriptor_error],
      [path_canonicalize_spec], [exit_wait_roundtrip],
      [next_runnable_fair], [signal_next_spec], the line discipline of
      [Pty], [socket_bind_spec], [socket_accept_spec], [socket_begin_spec],
      [stack_write_spec], the ARP and ICMP replies, the interface ioctls,
      [initial_stack_spec], [writev_terminal_spec], [ticks_to_time_spec],
      [rearm_spec], the memory routines and the division of [Runtime].
    - Round trips and parsers: [segment_round_trip], [tcp_options_spec],
      [fat_long_name_round_trip],
      [interface_set_get], [tcp_table_spec].
    - Safety and bounds: [ext4_map_block_safe], [resource_reservation],
      [arena_allocate_complete], [pipe_write_atomic].

    ** What is not modelled, and why

    - The boot order of kernel/main.cpp, drivers/uart, drivers/net and the
      device halves of drivers/storage: register and memory mapped I/O.  Their
      effect on the components above is the behaviour of the interfaces
      [Machine], [Uart] and [SectorDevice].
    - The messages the kernel prints for its developer, where no program and no
      later decision sees them.
    - The C++ runtime and container aliases (kernel/cxx_*.cpp,
      include/mikos/container): they forward to the standard library, which the
      model writes with lists.
    - Undefined behaviour the code excludes by construction (null buffers from
      its own arrays, indices below a table's capacity) is not represented; a
      place where the code relies on its caller has the condition as a
      hypothesis. *)

From Corelib Require Export ssreflect.
From Stdlib Require Export Lia ZArith.
From stdpp Require Export prelude numbers list_numbers list.

#[export] Set Default Goal Selector "!".
Global Open Scope general_if_scope.
Local Open Scope Z_scope.

(** ** Machine integers

    A [w]-bit unsigned C++ integer is a [Z] in [0, 2^w); every operation of
    the source that may leave that range is written with the wrap-around the
    language gives it. *)

Definition wrap (w z : Z) : Z := z mod 2 ^ w.

Abbreviation u8 := (wrap 8).
Abbreviation u16 := (wrap 16).
Abbreviation u32 := (wrap 32).
Abbreviation u64 := (wrap 64).

(** [static_cast<i32>] of a 32-bit pattern: two's complement. *)
Definition i32 (z : Z) : Z := (z + 2 ^ 31) mod 2 ^ 32 - 2 ^ 31.

Definition in_u (w z : Z) : Prop := 0 <= z < 2 ^ w.

#[export] Instance in_u_dec w z : Decision (in_u w z).
Proof. unfold in_u. apply _. Defined.

(** ** Arithmetic automation

    [word] unfolds the wrap-arounds and hands division and remainder by
    constants to [lia]. *)

Ltac word :=
  unfold in_u, i32, wrap in *;
  repeat match goal with
         | |- context [2 ^ ?n] => let c := eval compute in (2 ^ n) in
             progress change (2 ^ n) with c
         | H : context [2 ^ ?n] |- _ => let c := eval compute in (2 ^ n) in
             progress change (2 ^ n) with c in H
         end;
  Z.to_euclidean_division_equations; lia.

(** Case analysis on the boolean tests of the code. *)
Ltac branches :=
  repeat first
    [ progress simplify_eq/=
    | case_match; try done ].

Create HintDb mikos.
Create Rewrite HintDb wrap.

Lemma wrap_small w z : in_u w z -> wrap w z = z.
Proof. intros H. by apply Z.mod_small. Qed.

Lemma wrap_in_u w z : 0 <= w -> in_u w (wrap w z).
Proof. intros Hw. apply Z.mod_pos_bound. by apply Z.pow_pos_nonneg. Qed.

Lemma wrap_wrap w z : wrap w (wrap w z) = wrap w z.
Proof. unfold wrap. by rw Zmod_mod. Qed.

Lemma wrap_add_l w a b : wrap w (wrap w a + b) = wrap w (a + b).
Proof. apply Zplus_mod_idemp_l. Qed.

Lemma wrap_add_r w a b : wrap w (a + wrap w b) = wrap w (a + b).
Proof. apply Zplus_mod_idemp_r. Qed.

Lemma wrap_sub_l w a b : wrap w (wrap w a - b) = wrap w (a - b).
Proof. apply Zminus_mod_idemp_l. Qed.

Lemma wrap_sub_r w a b : wrap w (a - wrap w b) = wrap w (a - b).
Proof. apply Zminus_mod_idemp_r. Qed.

#[export] Hint Rewrite wrap_wrap wrap_add_l wrap_add_r wrap_sub_l wrap_sub_r : wrap.
#[export] Hint Resolve wrap_in_u : mikos.

(** Congruent numbers closer than the modulus are equal. *)
Lemma mod_eq_near a b n : a mod n = b mod n -> Z.abs (a - b) < n -> a = b.
Proof.
  intros E Hn.
  assert (Hd : (a - b) mod n = 0) by (rw Zminus_mod E Z.sub_diag; apply Z.mod_0_l; lia).
  apply Z.mod_divide in Hd as [q Hq]; last lia.
  assert (q = 0) by nia. nia.
Qed.

Lemma seqZ_snoc n : 0 <= n -> seqZ 0 (n + 1) = seqZ 0 n ++ [n].
Proof.
  intros Hn. replace (n + 1) with (Z.of_nat (S (Z.to_nat n))) by lia.
  rw seqZ_S Z2Nat.id; [lia | done].
Qed.

(** Induction over the iterations of a counting loop. *)
Lemma Z_count_ind (P : Z -> Prop) :
  P 0 -> (forall n, 0 <= n -> P n -> P (n + 1)) -> forall n, 0 <= n -> P n.
Proof. intros H0 HS n Hn. by apply natlike_ind. Qed.

(** ** Functional record update

    [r <| f := v |>] is [r] with field [f] replaced, [r <| f ::= g |>] with
    [g] applied to it: the assignments [r.f = v] of the source.  A record
    opts in by an [Eta] instance that lists its fields once; the setter of a
    field is then found by the hint below. *)

Class Eta (R : Type) := eta : R -> R.
Class Setter {R T : Type} (proj : R -> T) := set : (T -> T) -> R -> R.
#[global] Arguments set {R T} proj {_} g r / : assert.

Ltac solve_setter :=
  match goal with
  | |- @Setter ?R ?T ?proj =>
      let i := constr:(_ : Eta R) in
      let g := fresh "g" in let r := fresh "r" in
      intros g r;
      let b := eval hnf in (i r) in
      match eval pattern (proj r) in b with
      | ?F _ => let t := eval cbv beta in (F (g (proj r))) in exact t
      end
  end.
#[export] Hint Extern 1 (Setter _) => solve_setter : typeclass_instances.

Declare Scope mikos_scope.
Delimit Scope mikos_scope with mikos.
Notation "r <| f := v |>" := (set f (fun _ => v) r)
  (at level 12, f at next level, left associativity, format "r  <| f  :=  v |>") : mikos_scope.
Notation "r <| f ::= g |>" := (set f g r)
  (at level 12, f at next level, left associativity, format "r  <| f  ::=  g |>") : mikos_scope.
Global Open Scope mikos_scope.

(** ** Linear scans of fixed tables

    [for (auto& e : table) if (p(e)) return &e;] yields the index of the
    first entry that satisfies [p]; a pointer into a table is its index. *)

Definition first_slot {A} (p : A -> bool) (l : list A) : option nat :=
  fst <$> list_find (fun x => p x = true) l.

Lemma first_slot_Some {A} (p : A -> bool) (l : list A) i :
  first_slot p l = Some i <->
  exists x, l !! i = Some x /\ p x = true /\
            forall j y, l !! j = Some y -> (j < i)%nat -> p y = false.
Proof.
  unfold first_slot. rw fmap_Some. split.
  - intros ([j x] & Hf & ->). apply list_find_Some in Hf as (Hl & Hp & Hlt).
    exists x. split_and!; [done..|]. intros k y Hk Hlt'.
    apply not_true_is_false. by eapply Hlt.
  - intros (x & Hl & Hp & Hlt). exists (i, x). split; [|done].
    apply list_find_Some. split_and!; [done..|].
    intros k y Hk Hk' Hy. by rw (Hlt k y Hk Hk') in Hy.
Qed.

Lemma first_slot_None {A} (p : A -> bool) (l : list A) :
  first_slot p l = None <-> forall i x, l !! i = Some x -> p x = false.
Proof.
  unfold first_slot. rw fmap_None list_find_None Forall_lookup. split.
  - intros H i x Hi. apply not_true_is_false. by eapply H.
  - intros H i x Hi Hp. by rw (H i x Hi) in Hp.
Qed.

Lemma first_slot_ext {A} (p q : A -> bool) (l : list A) :
  (forall x, p x = q x) -> first_slot p l = first_slot q l.
Proof.
  intros H. destruct (first_slot q l) as [i|] eqn:E.
  - apply first_slot_Some in E as (x & ? & ? & Hf). apply first_slot_Some. exists x.
    rw H. split_and!; [done..|]. intros j y ??. rw H. by eapply Hf.
  - rewrite first_slot_None in E. apply first_slot_None. intros i x Hx. rw H. by eapply E.
Qed.

(** Writing the entry of an array that follows a prefix. *)
Lemma insert_middle {A} (l1 l2 : list A) x y n :
  n = length l1 -> <[n := y]> (l1 ++ x :: l2) = l1 ++ y :: l2.
Proof. intros ->. by rw insert_app_r_alt // Nat.sub_diag. Qed.

Lemma alter_middle {A} (f : A -> A) (l1 l2 : list A) x n :
  n = length l1 -> alter f n (l1 ++ x :: l2) = l1 ++ f x :: l2.
Proof. intros ->. by rw alter_app_r_alt // Nat.sub_diag. Qed.

(** ** Bytes and buffers *)

Definition bytes_ok (l : list Z) : Prop := Forall (in_u 8) l.

(** [l[off .. off + n)] and [l] with [s] written at [off]. *)
Definition slice (l : list Z) (off n : nat) : list Z := take n (drop off l).
Definition patch (l : list Z) (off : nat) (s : list Z) : list Z := take off l ++ s ++ drop (off + length s) l.

Lemma length_slice l off n : (off + n <= length l)%nat -> length (slice l off n) = n.
Proof. intros H. unfold slice. rw length_take length_drop. lia. Qed.

Lemma length_patch l off s : (off + length s <= length l)%nat -> length (patch l off s) = length l.
Proof. intros H. unfold patch. rw !length_app length_take length_drop. lia. Qed.

Lemma bytes_ok_slice l off n : bytes_ok l -> bytes_ok (slice l off n).
Proof. intros H. by apply Forall_take, Forall_drop. Qed.

Lemma bytes_ok_patch l off s : bytes_ok l -> bytes_ok s -> bytes_ok (patch l off s).
Proof.
  intros Hl Hs. unfold patch. apply Forall_app. split; [by apply Forall_take|].
  apply Forall_app. split; [done|by apply Forall_drop].
Qed.

Lemma slice_app_mid a b c n m : n = length a -> m = length b -> slice (a ++ b ++ c) n m = b.
Proof. intros -> ->. unfold slice. by rw drop_app_length take_app_length. Qed.

(** Cutting a buffer into consecutive pieces. *)
Lemma slice_split l off n m : slice l off (n + m) = slice l off n ++ slice l (off + n) m.
Proof. unfold slice. by rw -drop_drop take_take_drop. Qed.

Lemma land_ones_small z k : 0 <= k -> 0 <= z < 2 ^ k -> Z.land z (2 ^ k - 1) = z.
Proof.
  intros Hk Hz. replace (2 ^ k - 1) with (Z.ones k) by (rw Z.ones_equiv; lia).
  rewrite -> Z.land_ones by lia. by apply Z.mod_small.
Qed.

(** Disjoint bit fields add: [(a << 8) | b] and the like. *)
Lemma lor_shiftl a b k : 0 <= k -> 0 <= b < 2 ^ k -> Z.lor (Z.shiftl a k) b = a * 2 ^ k + b.
Proof.
  intros Hk Hb. rw -Z.add_nocarry_lor; [|by rewrite -> Z.shiftl_mul_pow2 by done].
  apply Z.bits_inj'. intros n Hn. rw Z.land_spec Z.bits_0. destruct (decide (n < k)) as [Hlt|Hge].
  - by rewrite -> Z.shiftl_spec_low by done.
  - apply andb_false_iff. right. destruct (decide (b = 0)) as [->|]; [apply Z.bits_0|].
    apply Z.bits_above_log2; [lia|]. apply Z.log2_lt_pow2; [lia|].
    eapply Z.lt_le_trans; [apply Hb|]. apply Z.pow_le_mono_r; lia.
Qed.
