(* ===== verification/Base.v ===== *)
(** * [include/mikos/base.hpp]: user ranges and alignment *)

From S2P Require Import Prelude.
Local Open Scope Z_scope.

Module Base.

Record UserRange := mkRange { begin : Z; end_ : Z }.

Definition contains (r : UserRange) (address size : Z) : bool :=
  (begin r <=? address) && (address <=? end_ r) && (size <=? u32 (end_ r - address)).

Definition aligned (r : UserRange) (address alignment : Z) : bool :=
  negb (alignment =? 0) &&
  (Z.land alignment (u32 (alignment - 1)) =? 0) &&
  (Z.land address (u32 (alignment - 1)) =? 0).

(** The templates over an unsigned type of [w] bits ([u32] or [usize]). *)
Definition align_up (w value alignment : Z) : Z :=
  wrap w (Z.land (wrap w (value + alignment - 1)) (wrap w (Z.lnot (wrap w (alignment - 1))))).

Definition align_down (w value alignment : Z) : Z :=
  wrap w (Z.land value (wrap w (Z.lnot (wrap w (alignment - 1))))).

(** ** Lemmas *)

Lemma land_mask w k v :
  0 <= k < w -> in_u w v ->
  Z.land v (wrap w (Z.lnot (wrap w (2 ^ k - 1)))) = v - v mod 2 ^ k.
Proof.
  intros Hk Hv. unfold wrap, in_u in *.
  pose proof (Z.pow_lt_mono_r 2 k w). pose proof (Z.pow_pos_nonneg 2 k).
  rewrite -> (Z.mod_small (2 ^ k - 1)) by lia.
  rewrite <- (Z.land_ones (Z.lnot _)) by lia.
  rw Z.land_comm -Z.land_assoc (Z.land_comm _ v).
  rewrite -> (Z.land_ones v), (Z.mod_small v) by lia.
  rw Z.land_comm. change (Z.land v (Z.lnot ?m)) with (Z.land v (Z.lnot m)).
  rw -Z.ldiff_land. replace (2 ^ k - 1) with (Z.ones k) by (rw Z.ones_equiv; lia).
  rewrite -> Z.ldiff_ones_r, Z.shiftl_mul_pow2, Z.shiftr_div_pow2 by lia.
  pose proof (Z.div_mod v (2 ^ k)). lia.
Qed.

Lemma align_down_spec w k v :
  0 <= k < w -> in_u w v -> align_down w v (2 ^ k) = v - v mod 2 ^ k.
Proof.
  intros Hk Hv. unfold align_down. rw land_mask //. apply wrap_small.
  pose proof (Z.mod_pos_bound v (2 ^ k)). pose proof (Z.pow_pos_nonneg 2 k).
  pose proof (Z.mod_le v (2 ^ k)). unfold in_u in *. lia.
Qed.

(** Without overflow, rounding up gives the least multiple not below. *)
Lemma align_up_spec w k v :
  0 <= k < w -> in_u w v -> in_u w (v + 2 ^ k - 1) ->
  let r := align_up w v (2 ^ k) in
  v <= r < v + 2 ^ k /\ r mod 2 ^ k = 0.
Proof.
  intros Hk Hv Hs r. subst r. unfold align_up.
  rewrite -> (wrap_small w (v + 2 ^ k - 1)) by done. rw land_mask //.
  pose proof (Z.pow_pos_nonneg 2 k).
  pose proof (Z.mod_pos_bound (v + 2 ^ k - 1) (2 ^ k)).
  pose proof (Z.mod_le (v + 2 ^ k - 1) (2 ^ k)).
  unfold in_u in *. rewrite -> wrap_small by (unfold in_u; lia). split; [lia|].
  rw Zminus_mod Zmod_mod Z.sub_diag. by apply Z.mod_0_l; lia.
Qed.

(** [UserRange::contains] accepts exactly the blocks of bytes that lie in
    the range; the test itself cannot overflow. *)
Theorem contains_spec r address size :
  in_u 32 (begin r) -> in_u 32 (end_ r) -> in_u 32 address -> in_u 32 size ->
  contains r address size = true <->
  begin r <= address /\ address + size <= end_ r.
Proof. intros Hb He Ha Hs. unfold contains. word. Qed.

Lemma contains_spec_witness :
  contains (mkRange 0x81000000 0x82000000) 0x81fffff0 16 = true <->
  0x81000000 <= 0x81fffff0 /\ 0x81fffff0 + 16 <= 0x82000000.
Proof. apply (contains_spec (mkRange 0x81000000 0x82000000) 0x81fffff0 16); simpl; word. Defined.

End Base.
