(* ===== verification/ByteQueue.v ===== *)
(** * The bounded byte queue interface

    What [io::RingBuffer] promises to its clients, the pipe table and the
    pseudo-terminal table: the operations they call and the laws they rely
    on.  The clients are developed against these classes;
    [RingBuffer.ring_queue_laws] discharges them. *)

From S2P Require Import Prelude.
Local Open Scope Z_scope.

Class ByteQueue (Q : Type) := {
  bq_fresh : Q;
  bq_free_space : Q -> Z;
  bq_empty : Q -> bool;
  bq_full : Q -> bool;
  bq_write : Q -> list Z -> Z -> Q * Z;
  bq_read : Q -> Z -> Q * list Z;
  bq_clear : Q -> Q;
}.

Class ByteQueueLaws (Q : Type) `{ByteQueue Q} (capacity : Z) := {
  bq_wf : Q -> Prop;
  bq_contents : Q -> list Z;
  bq_capacity_pos : 0 < capacity < 2 ^ 32;
  bq_fresh_wf : bq_wf bq_fresh;
  bq_fresh_contents : bq_contents bq_fresh = [];
  bq_bounded q : bq_wf q -> Z.of_nat (length (bq_contents q)) <= capacity;
  bq_free_space_spec q :
    bq_wf q -> bq_free_space q = capacity - Z.of_nat (length (bq_contents q));
  bq_empty_spec q : bq_wf q -> bq_empty q = bool_decide (bq_contents q = []);
  bq_full_spec q :
    bq_wf q -> bq_full q = bool_decide (Z.of_nat (length (bq_contents q)) = capacity);
  bq_write_spec q input count q' amount :
    bq_wf q -> 0 <= count <= Z.of_nat (length input) ->
    bq_write q input count = (q', amount) ->
    bq_wf q' /\
    amount = Z.min count (capacity - Z.of_nat (length (bq_contents q))) /\
    bq_contents q' = bq_contents q ++ take (Z.to_nat amount) input;
  bq_read_spec q count q' output :
    bq_wf q -> 0 <= count -> bq_read q count = (q', output) ->
    bq_wf q' /\ bq_contents q = output ++ bq_contents q' /\
    Z.of_nat (length output) = Z.min count (Z.of_nat (length (bq_contents q)));
  bq_clear_spec q : bq_wf q -> bq_wf (bq_clear q) /\ bq_contents (bq_clear q) = [];
}.
