(* ===== verification/RingBuffer.v ===== *)
(** * [include/mikos/io/ring_buffer.hpp]: the bounded byte ring *)

From S2P Require Import Prelude ByteQueue.
Local Open Scope Z_scope.

Module Ring.
Section ring.
Context (Capacity : Z).

Record RingBuffer := mkRing { data_ : list Z; head_ : Z; size_ : Z }.

Definition fresh : RingBuffer :=
  {| data_ := replicate (Z.to_nat Capacity) 0; head_ := 0; size_ := 0 |}.

Definition size (rb : RingBuffer) : Z := size_ rb.
Definition free_space (rb : RingBuffer) : Z := u32 (Capacity - size_ rb).
Definition empty (rb : RingBuffer) : bool := size_ rb =? 0.
Definition full (rb : RingBuffer) : bool := size_ rb =? Capacity.

Definition write (rb : RingBuffer) (input : list Z) (count : Z) : RingBuffer * Z :=
  let amount := if count <? free_space rb then count else free_space rb in
  let data := fold_left
    (fun d i =>
       <[Z.to_nat (u32 (head_ rb + size_ rb + i) mod Capacity) :=
           input !!! Z.to_nat i]> d)
    (seqZ 0 amount) (data_ rb) in
  ({| data_ := data; head_ := head_ rb; size_ := u32 (size_ rb + amount) |},
   amount).

Definition read (rb : RingBuffer) (count : Z) : RingBuffer * list Z :=
  let amount := if count <? size_ rb then count else size_ rb in
  let output := (fun i =>
    data_ rb !!! Z.to_nat (u32 (head_ rb + i) mod Capacity)) <$> seqZ 0 amount in
  ({| data_ := data_ rb;
      head_ := u32 (head_ rb + amount) mod Capacity;
      size_ := u32 (size_ rb - amount) |},
   output).

Definition clear (rb : RingBuffer) : RingBuffer :=
  {| data_ := data_ rb; head_ := 0; size_ := 0 |}.

(** ** Representation invariant and abstraction *)

Record wf (rb : RingBuffer) : Prop := {
  wf_length : length (data_ rb) = Z.to_nat Capacity;
  wf_head : 0 <= head_ rb < Capacity;
  wf_size : 0 <= size_ rb <= Capacity;
}.

Definition contents (rb : RingBuffer) : list Z :=
  (fun i => data_ rb !!! Z.to_nat ((head_ rb + i) mod Capacity)) <$> seqZ 0 (size_ rb).

Context (Hcap : 0 < Capacity <= 2 ^ 31).

Lemma fresh_wf : wf fresh.
Proof. split; rw /= ?length_replicate; lia. Qed.

Lemma contents_length rb : length (contents rb) = Z.to_nat (size_ rb).
Proof. by rw length_fmap length_seqZ. Qed.

Lemma contents_lookup rb i :
  0 <= i < size_ rb ->
  contents rb !! Z.to_nat i = Some (data_ rb !!! Z.to_nat ((head_ rb + i) mod Capacity)).
Proof.
  intros Hi. rw list_lookup_fmap lookup_seqZ_lt; first lia.
  rw /= Z2Nat.id; [lia|done].
Qed.

(** One byte stored behind the last one appends it to the contents. *)
Lemma contents_store d h s b :
  length d = Z.to_nat Capacity -> 0 <= h < Capacity -> 0 <= s < Capacity ->
  contents {| data_ := <[Z.to_nat ((h + s) mod Capacity) := b]> d;
              head_ := h; size_ := s + 1 |} =
  contents {| data_ := d; head_ := h; size_ := s |} ++ [b].
Proof.
  intros Hd Hh Hs. unfold contents; simpl.
  rw seqZ_snoc; first lia. rw fmap_app. f_equal.
  - apply list_fmap_ext. intros j i [-> Hi]%lookup_seqZ.
    apply list_lookup_total_insert_ne. intros E%(f_equal Z.of_nat).
    rewrite -> !Z2Nat.id in E by (apply Z.mod_pos_bound; lia).
    apply mod_eq_near in E; lia.
  - simpl. f_equal. rw list_lookup_total_insert_eq; [|done].
    rw Hd. pose proof (Z.mod_pos_bound (h + s) Capacity). lia.
Qed.

Lemma contents_store_loop d h s input n :
  length d = Z.to_nat Capacity -> 0 <= h < Capacity -> 0 <= s ->
  0 <= n -> s + n <= Capacity -> n <= Z.of_nat (length input) ->
  let d' := fold_left
    (fun d i => <[Z.to_nat (u32 (h + s + i) mod Capacity) := input !!! Z.to_nat i]> d)
    (seqZ 0 n) d in
  length d' = Z.to_nat Capacity /\
  contents {| data_ := d'; head_ := h; size_ := s + n |} =
  contents {| data_ := d; head_ := h; size_ := s |} ++ take (Z.to_nat n) input.
Proof.
  intros Hd Hh Hs Hn. revert n Hn. apply (Z_count_ind (fun n => _ -> _ -> _)).
  { intros _ _. by rw /= app_nil_r Z.add_0_r. }
  intros n Hn IH Hsn Hin. destruct IH as [IHl IHc]; [lia..|].
  rw seqZ_snoc; first lia. rw fold_left_app /=. split.
  { by rw length_insert. }
  rewrite -> (wrap_small 32 (h + s + n)) by word.
  rw -(Z.add_assoc h s n) (Z.add_assoc s n 1) contents_store; [done|lia|lia|].
  rw IHc -app_assoc. f_equal.
  rewrite -> (Z2Nat.inj_add n 1), Nat.add_1_r by lia.
  symmetry. apply take_S_r. apply list_lookup_lookup_total_lt. lia.
Qed.

(** ** The ring refines a bounded FIFO of bytes *)

Lemma free_space_eq rb : wf rb -> free_space rb = Capacity - Z.of_nat (length (contents rb)).
Proof. intros [_ _ Hs]. rw contents_length /free_space wrap_small; word. Qed.

Lemma empty_spec rb : wf rb -> empty rb = bool_decide (contents rb = []).
Proof.
  intros [_ _ Hs]. unfold empty.
  rw (bool_decide_ext _ (length (contents rb) = 0%nat)).
  { by rw -length_zero_iff_nil. }
  rw contents_length. case_bool_decide; lia.
Qed.

Lemma full_spec rb :
  wf rb -> full rb = bool_decide (Z.of_nat (length (contents rb)) = Capacity).
Proof. intros [_ _ Hs]. unfold full. rw contents_length. case_bool_decide; lia. Qed.

Lemma write_spec rb input count rb' amount :
  wf rb -> 0 <= count <= Z.of_nat (length input) ->
  write rb input count = (rb', amount) ->
  wf rb' /\
  amount = Z.min count (Capacity - Z.of_nat (length (contents rb))) /\
  contents rb' = contents rb ++ take (Z.to_nat amount) input.
Proof.
  intros Hwf Hcount Hw. pose proof (free_space_eq rb Hwf) as Hfree.
  destruct Hwf as [Hl Hh Hs]. rw contents_length in Hfree.
  unfold write in Hw. injection Hw as <- <-.
  set (amount := if _ <? _ then _ else _).
  assert (Ha : amount = Z.min count (Capacity - size_ rb)).
  { subst amount. case_match; lia. }
  destruct (contents_store_loop (data_ rb) (head_ rb) (size_ rb) input amount)
    as [Hl' Hc]; [done|lia..|].
  rewrite -> (wrap_small 32 (size_ rb + amount)) by word.
  rw contents_length. split; [split; simpl; [done|lia..]|]. split; [lia|].
  rw Hc. by destruct rb.
Qed.

Lemma read_spec rb count rb' output :
  wf rb -> 0 <= count ->
  read rb count = (rb', output) ->
  wf rb' /\ contents rb = output ++ contents rb' /\
  Z.of_nat (length output) = Z.min count (Z.of_nat (length (contents rb))).
Proof.
  intros [Hl Hh Hs] Hcount Hr. unfold read in Hr. injection Hr as <- <-.
  set (amount := if _ <? _ then _ else _).
  assert (Ha : amount = Z.min count (size_ rb)) by (subst amount; case_match; lia).
  rewrite -> !(wrap_small 32) by word.
  pose proof (Z.mod_pos_bound (head_ rb + amount) Capacity).
  split; [split; simpl; [done|lia..]|].
  rw contents_length length_fmap length_seqZ. split; last lia.
  unfold contents at 1.
  replace (size_ rb) with (amount + (size_ rb - amount)) at 1 by lia.
  rewrite -> seqZ_app by lia. rw fmap_app. f_equal.
  { apply list_fmap_ext. intros j i [-> Hi]%lookup_seqZ.
    rewrite -> wrap_small; [done | word]. }
  unfold contents; simpl. rw -(Z.add_0_r (0 + amount)) -fmap_add_seqZ -list_fmap_compose.
  apply list_fmap_ext. intros j i _. simpl.
  rw Zplus_mod_idemp_l. do 2 f_equal. f_equal. lia.
Qed.

Lemma clear_spec rb : wf rb -> wf (clear rb) /\ contents (clear rb) = [].
Proof. intros [Hl Hh Hs]. split; [split; simpl; [done|lia..]|done]. Qed.

Lemma fresh_contents : contents fresh = [].
Proof. done. Qed.

(** ** Discharging the queue interface *)

#[global] Instance ring_queue : ByteQueue RingBuffer := {
  bq_fresh := fresh;
  bq_free_space := free_space;
  bq_empty := empty;
  bq_full := full;
  bq_write := write;
  bq_read := read;
  bq_clear := clear;
}.

#[global] Instance ring_queue_laws : ByteQueueLaws RingBuffer Capacity.
Proof using Hcap.
  refine {| bq_wf := wf; bq_contents := contents |}.
  - lia.
  - apply fresh_wf.
  - apply fresh_contents.
  - intros rb [_ _ Hs]. rw contents_length. lia.
  - apply free_space_eq.
  - apply empty_spec.
  - apply full_spec.
  - apply write_spec.
  - apply read_spec.
  - apply clear_spec.
Defined.
End ring.
End Ring.
