(* ===== verification/Pipe.v ===== *)
(** * [include/mikos/process/pipe.hpp]: the table of anonymous pipes

    [PipeTable] models [PipeTable<TableCapacity, BufferCapacity,
    AtomicCapacity>] over any implementation of the byte queue interface (the
    source uses [io::RingBuffer<BufferCapacity>]). *)

From S2P Require Import Prelude ByteQueue RingBuffer.
Local Open Scope Z_scope.

Module PipeTable.

Inductive PipeEnd := end_read | end_write.

Record PipeHandle := mkHandle { generation : Z; slot : Z }.

Inductive PipeStatus :=
  success | would_block | end_of_file | broken_pipe | bad_handle | no_space.

Record PipeIoResult := io_result { io_status : PipeStatus; io_size : Z }.
Record CreateResult := create_result { cr_status : PipeStatus; cr_handle : PipeHandle }.

#[global] Instance pipe_end_eq_dec : EqDecision PipeEnd.
Proof. solve_decision. Defined.
#[global] Instance pipe_handle_eq_dec : EqDecision PipeHandle.
Proof. solve_decision. Defined.
#[global] Instance pipe_status_eq_dec : EqDecision PipeStatus.
Proof. solve_decision. Defined.

(** [PipeHandle{}] and [PipeIoResult{}]. *)
Definition no_handle : PipeHandle := mkHandle 0 255.
Definition io_default : PipeIoResult := io_result bad_handle 0.

Section table.
Context {Q : Type} `{!ByteQueue Q}.
Context (TableCapacity BufferCapacity AtomicCapacity : Z).

Record Pipe := mkPipe {
  data : Q;
  pgeneration : Z;
  readers : Z;
  writers : Z;
  used : bool;
}.
#[global] Instance pipe_eta : Eta Pipe := fun p =>
  mkPipe (data p) (pgeneration p) (readers p) (writers p) (used p).
#[global] Instance pipe_inhabited : Inhabited Pipe := populate (mkPipe bq_fresh 0 0 0 false).

(** [Pipe{}]. *)
Definition pipe_default : Pipe := mkPipe bq_fresh 0 0 0 false.

(** The member [pipes_]. *)
Abbreviation pipes := (list Pipe).

Definition initial : pipes := replicate (Z.to_nat TableCapacity) pipe_default.

Definition find (t : pipes) (h : PipeHandle) : option nat :=
  if TableCapacity <=? slot h then None else
  let pipe := t !!! Z.to_nat (slot h) in
  if used pipe && (pgeneration pipe =? generation h) then Some (Z.to_nat (slot h)) else None.

Definition create (t : pipes) : pipes * CreateResult :=
  match first_slot (fun pipe => negb (used pipe)) t with
  | None => (t, create_result no_space no_handle)
  | Some i =>
      let pipe := t !!! i in
      let g := u16 (pgeneration pipe + 1) in
      let g := if g =? 0 then 1 else g in
      (<[i := pipe_default <| used := true |> <| pgeneration := g |>
                           <| readers := 1 |> <| writers := 1 |>]> t,
       create_result success (mkHandle g (u8 (Z.of_nat i))))
  end.

Definition refs (p : Pipe) (e : PipeEnd) : Z :=
  match e with end_read => readers p | end_write => writers p end.
Definition set_refs (p : Pipe) (e : PipeEnd) (n : Z) : Pipe :=
  match e with end_read => p <| readers := n |> | end_write => p <| writers := n |> end.

Definition retain (t : pipes) (h : PipeHandle) (e : PipeEnd) : pipes * PipeStatus :=
  match find t h with
  | None => (t, bad_handle)
  | Some i =>
      let pipe := t !!! i in
      if refs pipe e =? 65535 then (t, no_space)
      else (<[i := set_refs pipe e (u16 (refs pipe e + 1))]> t, success)
  end.

Definition release (t : pipes) (h : PipeHandle) (e : PipeEnd) : pipes * PipeStatus :=
  match find t h with
  | None => (t, bad_handle)
  | Some i =>
      let pipe := t !!! i in
      if refs pipe e =? 0 then (t, bad_handle)
      else
        let pipe := set_refs pipe e (u16 (refs pipe e - 1)) in
        let pipe := if (readers pipe =? 0) && (writers pipe =? 0)
                    then pipe_default <| pgeneration := pgeneration pipe |>
                    else pipe in
        (<[i := pipe]> t, success)
  end.

(** Returns the bytes stored through [output]. *)
Definition read (t : pipes) (h : PipeHandle) (count : Z) : pipes * PipeIoResult * list Z :=
  match find t h with
  | None => (t, io_default, [])
  | Some i =>
      let pipe := t !!! i in
      if readers pipe =? 0 then (t, io_default, [])
      else if count =? 0 then (t, io_result success 0, [])
      else if negb (bq_empty (data pipe)) then
        let '(d, out) := bq_read (data pipe) count in
        (<[i := pipe <| data := d |>]> t, io_result success (Z.of_nat (length out)), out)
      else if writers pipe =? 0 then (t, io_result end_of_file 0, [])
      else (t, io_result would_block 0, [])
  end.

Definition write (t : pipes) (h : PipeHandle) (input : list Z) (count : Z)
    : pipes * PipeIoResult :=
  match find t h with
  | None => (t, io_default)
  | Some i =>
      let pipe := t !!! i in
      if writers pipe =? 0 then (t, io_default)
      else if count =? 0 then (t, io_result success 0)
      else if readers pipe =? 0 then (t, io_result broken_pipe 0)
      else if (count <=? AtomicCapacity) && (bq_free_space (data pipe) <? count) then
        (t, io_result would_block 0)
      else
        let '(d, amount) := bq_write (data pipe) input count in
        (<[i := pipe <| data := d |>]> t,
         if amount =? 0 then io_result would_block 0 else io_result success amount)
  end.

Definition readable (t : pipes) (h : PipeHandle) : bool :=
  match find t h with
  | None => false
  | Some i => let pipe := t !!! i in
      negb (readers pipe =? 0) && (negb (bq_empty (data pipe)) || (writers pipe =? 0))
  end.

Definition writable (t : pipes) (h : PipeHandle) : bool :=
  match find t h with
  | None => false
  | Some i => let pipe := t !!! i in
      negb (writers pipe =? 0) && negb (readers pipe =? 0) && negb (bq_full (data pipe))
  end.

Definition hung_up (t : pipes) (h : PipeHandle) (e : PipeEnd) : bool :=
  match find t h with
  | None => false
  | Some i => let pipe := t !!! i in
      match e with end_read => writers pipe =? 0 | end_write => readers pipe =? 0 end
  end.

Definition references (t : pipes) (h : PipeHandle) (e : PipeEnd) : Z :=
  match find t h with None => 0 | Some i => refs (t !!! i) e end.

Definition used_count (t : pipes) : Z :=
  foldr (fun p n => (if used p then 1 else 0) + n) 0 t.


(** ** Invariant *)

Context `{!ByteQueueLaws Q BufferCapacity}.
Context (Htable : 0 < TableCapacity <= 255).
Context (Hatomic : 0 <= AtomicCapacity <= BufferCapacity).

Record pipe_ok (p : Pipe) : Prop := {
  ok_data : bq_wf (data p);
  ok_generation : in_u 16 (pgeneration p);
  ok_readers : in_u 16 (readers p);
  ok_writers : in_u 16 (writers p);
  ok_used : used p = true -> pgeneration p <> 0 /\ 0 < readers p + writers p;
  ok_free : used p = false -> readers p = 0 /\ writers p = 0 /\ bq_contents (data p) = [];
}.

Record inv (t : pipes) : Prop := {
  inv_length : length t = Z.to_nat TableCapacity;
  inv_pipes i p : t !! i = Some p -> pipe_ok p;
}.

Definition handle_ok (h : PipeHandle) : Prop := in_u 16 (generation h) /\ in_u 8 (slot h).
#[global] Instance handle_ok_dec h : Decision (handle_ok h).
Proof. unfold handle_ok. apply _. Defined.

(** ** Abstract table: live handles to byte streams *)

Record APipe := mkAPipe { a_queue : list Z; a_readers : Z; a_writers : Z }.

Definition view (p : Pipe) : APipe := mkAPipe (bq_contents (data p)) (readers p) (writers p).

Definition abs (t : pipes) (h : PipeHandle) : option APipe :=
  if decide (handle_ok h) then (fun i => view (t !!! i)) <$> find t h else None.

Inductive op :=
| OCreate
| ORetain (h : PipeHandle) (e : PipeEnd)
| ORelease (h : PipeHandle) (e : PipeEnd)
| ORead (h : PipeHandle) (count : Z)
| OWrite (h : PipeHandle) (input : list Z).

#[global] Instance op_eq_dec : EqDecision op.
Proof. solve_decision. Defined.

Inductive res :=
| RCreate (r : CreateResult)
| RStatus (s : PipeStatus)
| RRead (r : PipeIoResult) (output : list Z)
| RWrite (r : PipeIoResult).

Definition step (t : pipes) (o : op) : pipes * res :=
  match o with
  | OCreate => let '(t', r) := create t in (t', RCreate r)
  | ORetain h e => let '(t', r) := retain t h e in (t', RStatus r)
  | ORelease h e => let '(t', r) := release t h e in (t', RStatus r)
  | ORead h count => let '(t', r, out) := read t h count in (t', RRead r out)
  | OWrite h input => let '(t', r) := write t h input (Z.of_nat (length input)) in (t', RWrite r)
  end.

Definition target (o : op) : option PipeHandle :=
  match o with
  | OCreate => None
  | ORetain h _ | ORelease h _ | ORead h _ | OWrite h _ => Some h
  end.

Definition op_ok (o : op) : Prop :=
  (forall h, target o = Some h -> handle_ok h) /\
  match o with
  | ORead _ n => in_u 32 n
  | OWrite _ input => Z.of_nat (length input) < 2 ^ 32
  | _ => True
  end.

(** The specification of one live pipe: POSIX pipe semantics on a list. *)

Definition a_refs (ap : APipe) (e : PipeEnd) : Z :=
  match e with end_read => a_readers ap | end_write => a_writers ap end.
Definition a_set_refs (ap : APipe) (e : PipeEnd) (n : Z) : APipe :=
  match e with
  | end_read => mkAPipe (a_queue ap) n (a_writers ap)
  | end_write => mkAPipe (a_queue ap) (a_readers ap) n
  end.

Definition spec_retain (ap : APipe) (e : PipeEnd) : option APipe * PipeStatus :=
  if decide (a_refs ap e = 65535) then (Some ap, no_space)
  else (Some (a_set_refs ap e (a_refs ap e + 1)), success).

Definition spec_release (ap : APipe) (e : PipeEnd) : option APipe * PipeStatus :=
  if decide (a_refs ap e = 0) then (Some ap, bad_handle)
  else let ap' := a_set_refs ap e (a_refs ap e - 1) in
       (if decide (a_readers ap' = 0 /\ a_writers ap' = 0) then None else Some ap', success).

Definition spec_read (ap : APipe) (count : Z) : option APipe * PipeIoResult * list Z :=
  if decide (a_readers ap = 0) then (Some ap, io_default, [])
  else if decide (count = 0) then (Some ap, io_result success 0, [])
  else match a_queue ap with
       | [] => (Some ap, io_result (if decide (a_writers ap = 0) then end_of_file else would_block) 0, [])
       | q => let out := take (Z.to_nat count) q in
              (Some (mkAPipe (drop (Z.to_nat count) q) (a_readers ap) (a_writers ap)),
               io_result success (Z.of_nat (length out)), out)
       end.

Definition spec_write (ap : APipe) (input : list Z) : option APipe * PipeIoResult :=
  let count := Z.of_nat (length input) in
  let room := BufferCapacity - Z.of_nat (length (a_queue ap)) in
  if decide (a_writers ap = 0) then (Some ap, io_default)
  else if decide (count = 0) then (Some ap, io_result success 0)
  else if decide (a_readers ap = 0) then (Some ap, io_result broken_pipe 0)
  else if decide (room = 0 \/ count <= AtomicCapacity /\ room < count)
       then (Some ap, io_result would_block 0)
  else let n := Z.min count room in
       (Some (mkAPipe (a_queue ap ++ take (Z.to_nat n) input) (a_readers ap) (a_writers ap)),
        io_result success n).

Definition spec_op (ap : APipe) (o : op) : option APipe * res :=
  match o with
  | OCreate => (Some ap, RStatus bad_handle)
  | ORetain _ e => let '(ap', r) := spec_retain ap e in (ap', RStatus r)
  | ORelease _ e => let '(ap', r) := spec_release ap e in (ap', RStatus r)
  | ORead _ n => let '(ap', r, out) := spec_read ap n in (ap', RRead r out)
  | OWrite _ input => let '(ap', r) := spec_write ap input in (ap', RWrite r)
  end.

Definition spec_dead (o : op) : res :=
  match o with
  | ORead _ _ => RRead io_default []
  | OWrite _ _ => RWrite io_default
  | _ => RStatus bad_handle
  end.

Inductive spec_step (A : PipeHandle -> option APipe) : op -> res -> (PipeHandle -> option APipe) -> Prop :=
| spec_create A' h :
    handle_ok h -> A h = None ->
    (forall h', A' h' = if decide (h' = h) then Some (mkAPipe [] 1 1) else A h') ->
    spec_step A OCreate (RCreate (create_result success h)) A'
| spec_create_full A' :
    (forall s, 0 <= s < TableCapacity -> exists g, is_Some (A (mkHandle g s))) ->
    (forall h', A' h' = A h') ->
    spec_step A OCreate (RCreate (create_result no_space no_handle)) A'
| spec_live A' o h ap :
    target o = Some h -> A h = Some ap ->
    (forall h', A' h' = if decide (h' = h) then (spec_op ap o).1 else A h') ->
    spec_step A o (spec_op ap o).2 A'
| spec_missing A' o h :
    target o = Some h -> A h = None -> (forall h', A' h' = A h') ->
    spec_step A o (spec_dead o) A'.

(** ** Lemmas on the table *)

Lemma pipe_default_ok g : in_u 16 g -> pipe_ok (pipe_default <| pgeneration := g |>).
Proof.
  intros Hg. split; simpl; try done; try word.
  - apply bq_fresh_wf.
  - intros _. split_and!; [done..|apply bq_fresh_contents].
Qed.

Lemma pipe_initial_inv : inv initial.
Proof.
  split.
  - apply length_replicate.
  - intros i p [-> _]%lookup_replicate. by apply (pipe_default_ok 0).
Qed.

Lemma pipe_inv_insert t i p : inv t -> pipe_ok p -> inv (<[i := p]> t).
Proof.
  intros [Hl Hp] Hok. split; [by rw length_insert|].
  intros j q Hj. destruct (decide (i = j)) as [->|Hne].
  - rw list_lookup_insert in Hj. case_decide; naive_solver.
  - rewrite -> list_lookup_insert_ne in Hj by done. eauto.
Qed.

Lemma find_Some t h i :
  inv t -> handle_ok h ->
  find t h = Some i <->
  i = Z.to_nat (slot h) /\ exists p, t !! i = Some p /\ used p = true /\ pgeneration p = generation h.
Proof.
  intros [Hl Hp] [_ Hs]. unfold find. case_match eqn:Hc.
  - split; [done|]. intros (-> & p & Hi%lookup_lt_Some & _). word.
  - destruct (lookup_lt_is_Some_2 t (Z.to_nat (slot h))) as [p Hi]; [word|].
    rw (list_lookup_total_correct _ _ _ Hi).
    destruct (used p) eqn:Hu; destruct (Z.eqb_spec (pgeneration p) (generation h)); simpl;
      (split; [intros [= <-]; eauto | intros (-> & q & Hq & ? & ?); simplify_eq; congruence]).
Qed.

Lemma abs_Some t h ap :
  inv t ->
  abs t h = Some ap <->
  handle_ok h /\ exists p, t !! Z.to_nat (slot h) = Some p /\ used p = true /\
    pgeneration p = generation h /\ ap = view p.
Proof.
  intros Hinv. unfold abs. case_decide as Hh; [|naive_solver].
  rw fmap_Some. split.
  - intros (i & Hf & ->). apply find_Some in Hf as (-> & p & Hi & Hu & Hg); [|done..].
    split; [done|]. exists p. by rw (list_lookup_total_correct _ _ _ Hi).
  - intros (_ & p & Hi & Hu & Hg & ->). exists (Z.to_nat (slot h)).
    rw (list_lookup_total_correct _ _ _ Hi). split; [|done].
    apply find_Some; naive_solver.
Qed.

(** Replacing the entry of one slot changes the handle it is live for, and no
    other. *)
Lemma abs_insert t h p p' h' :
  inv t -> handle_ok h -> t !! Z.to_nat (slot h) = Some p ->
  (used p = true -> pgeneration p = generation h) ->
  (used p' = true -> pgeneration p' = generation h) ->
  abs (<[Z.to_nat (slot h) := p']> t) h' =
  if decide (h' = h)
  then (if used p' && (pgeneration p' =? generation h) then Some (view p') else None)
  else abs t h'.
Proof.
  intros Hinv Hh Hi Hp Hp'. unfold abs.
  destruct (decide (handle_ok h')) as [Hh'|Hh']; last first.
  { case_decide; [by subst|done]. }
  pose proof (lookup_lt_Some _ _ _ Hi) as Hlt. pose proof (inv_length t Hinv) as Hlen.
  destruct Hh as [_ Hs], Hh' as [_ Hs'].
  unfold find. destruct (decide (slot h' = slot h)) as [E|E].
  - rw E. case_match; [word|].
    rw !list_lookup_total_insert_eq // !(list_lookup_total_correct _ _ _ Hi).
    case_decide as Heq; [subst h'; case_match; simpl; [by rw list_lookup_total_insert_eq|done]|].
    assert (generation h' <> generation h) by (destruct h, h'; simpl in *; congruence).
    destruct (used p') eqn:Hu'; destruct (used p) eqn:Hu; simpl;
      repeat match goal with |- context [?a =? ?b] => destruct (Z.eqb_spec a b) end;
      naive_solver lia.
  - rw decide_False; [by intros ->|]. case_match; [done|].
    rw !list_lookup_total_insert_ne; [word..|]. simpl.
    case_match; simpl; [rw list_lookup_total_insert_ne //; word|done].
Qed.

(** [p] is the entry, at index [i], that the live handle [h] designates. *)
Record live (t : pipes) (h : PipeHandle) (i : nat) (p : Pipe) : Prop := {
  live_inv : inv t;
  live_handle : handle_ok h;
  live_index : i = Z.to_nat (slot h);
  live_lookup : t !! i = Some p;
  live_used : used p = true;
  live_generation : pgeneration p = generation h;
}.

Lemma pipe_find_live t h i :
  inv t -> handle_ok h -> find t h = Some i -> exists p, live t h i p /\ t !!! i = p /\ pipe_ok p.
Proof.
  intros Hinv Hh (-> & p & Hi & Hu & Hg)%find_Some; [|done..].
  exists p. split_and!; [done|by apply list_lookup_total_correct|by eapply inv_pipes].
Qed.

Lemma find_dead t h o :
  handle_ok h -> find t h = None -> target o = Some h -> spec_step (abs t) o (spec_dead o) (abs t).
Proof.
  intros Hh Hf Ho. eapply spec_missing; [done| |done].
  unfold abs. by rw decide_True // Hf.
Qed.

(** An operation on a live handle refines its specification when the new
    entry is the specified one. *)
Lemma refine_live t h i o p p' r :
  live t h i p -> target o = Some h -> pipe_ok p' -> pgeneration p' = generation h ->
  spec_op (view p) o = (if used p' then Some (view p') else None, r) ->
  inv (<[i := p']> t) /\ spec_step (abs t) o r (abs (<[i := p']> t)).
Proof.
  intros [Hinv Hh -> Hi Hu Hg] Ho Hok Hg' Hspec. split; [by apply pipe_inv_insert|].
  replace r with (spec_op (view p) o).2 by by rw Hspec.
  apply spec_live with (h := h); [done| |].
  - apply abs_Some; [done|]. eauto 10.
  - intros h'. rw (abs_insert t h p) // Hspec /= Hg' Z.eqb_refl andb_true_r. done.
Qed.

(** The same when the code leaves the table as it is. *)
Lemma refine_live_same t h i o p r :
  live t h i p -> target o = Some h -> spec_op (view p) o = (Some (view p), r) ->
  inv t /\ spec_step (abs t) o r (abs t).
Proof.
  intros Hl Ho Hspec. pose proof Hl as [Hinv _ _ Hi Hu Hg].
  pose proof (refine_live t h i o p p r Hl Ho) as Href.
  rewrite (list_insert_id t i p Hi) in Href.
  apply Href; [by eapply inv_pipes|done|by rw Hu].
Qed.

(** ** Simulation, operation by operation *)

Lemma pipe_set_refs_ok p e n :
  pipe_ok p -> used p = true -> in_u 16 n -> 0 < readers (set_refs p e n) + writers (set_refs p e n) ->
  pipe_ok (set_refs p e n).
Proof. intros [] Hu Hn Hpos. by destruct e; split; simpl in *; try congruence; naive_solver. Qed.

Lemma set_data_ok p d :
  pipe_ok p -> used p = true -> bq_wf d -> pipe_ok (p <| data := d |>).
Proof. intros [] Hu Hd. split; simpl; naive_solver congruence. Qed.

Lemma pipe_refs_in_u p e : pipe_ok p -> in_u 16 (refs p e).
Proof. intros []. by destruct e. Qed.

Ltac start_op :=
  match goal with
  | |- context [find ?t ?h] =>
      let i := fresh "i" in let Hf := fresh "Hf" in
      let p := fresh "p" in let Hl := fresh "Hl" in let Hok := fresh "Hok" in
      destruct (find t h) as [i|] eqn:Hf;
      [ destruct (pipe_find_live t h i) as (p & Hl & -> & Hok); [done..|];
        pose proof (live_used _ _ _ _ Hl) as Hu; pose proof (live_generation _ _ _ _ Hl) as Hg
      | intros; simplify_eq; split; [done|by eapply find_dead] ]
  end.

Ltac spec_cases := repeat (case_decide || case_match); try lia; try naive_solver.

Lemma retain_refines t h e t' r :
  inv t -> handle_ok h -> retain t h e = (t', r) ->
  inv t' /\ spec_step (abs t) (ORetain h e) (RStatus r) (abs t').
Proof.
  intros Hinv Hh. unfold retain. start_op.
  pose proof (pipe_refs_in_u p e Hok) as Hr. pose proof (ok_used p Hok) as Hpos.
  case_match eqn:Hc; intros [= <- <-].
  - eapply refine_live_same; [done..|]. rw /= /spec_retain.
    case_decide; [done|destruct e; simpl in *; lia].
  - eapply refine_live; [done..| |by destruct e|].
    + apply pipe_set_refs_ok; [done..|word|]. destruct Hok, e; simpl in *; word.
    + rw /= /spec_retain. case_decide; [destruct e; simpl in *; lia|].
      rewrite -> wrap_small by word. destruct e; simpl in *; by rw Hu.
Qed.

Lemma release_refines t h e t' r :
  inv t -> handle_ok h -> release t h e = (t', r) ->
  inv t' /\ spec_step (abs t) (ORelease h e) (RStatus r) (abs t').
Proof.
  intros Hinv Hh. unfold release. start_op.
  pose proof (pipe_refs_in_u p e Hok) as Hr.
  case_match eqn:Hc; intros [= <- <-].
  - eapply refine_live_same; [done..|]. rw /= /spec_release.
    case_decide; [done|destruct e; simpl in *; lia].
  - rewrite -> wrap_small by word.
    set (p1 := set_refs p e (refs p e - 1)).
    assert (Hg1 : pgeneration p1 = generation h) by by destruct e.
    assert (Hu1 : used p1 = true) by by destruct e.
    assert (Hspec : (spec_op (view p) (ORelease h e)) =
      (if decide (readers p1 = 0 /\ writers p1 = 0) then None else Some (view p1), RStatus success)).
    { rw /= /spec_release. case_decide; [destruct e; simpl in *; lia|]. by destruct e. }
    destruct ((readers p1 =? 0) && (writers p1 =? 0)) eqn:Hz; (eapply refine_live; [done..| | |rw Hspec]).
    + apply (pipe_default_ok (pgeneration p1)). destruct Hok. by destruct e.
    + done.
    + by rewrite -> decide_True by lia.
    + apply pipe_set_refs_ok; [done..|word|fold p1]. destruct Hok, e; simpl in *; word.
    + done.
    + rewrite -> decide_False by lia. by rw Hu1.
Qed.

Lemma read_refines t h count t' r out :
  inv t -> handle_ok h -> in_u 32 count -> read t h count = (t', r, out) ->
  inv t' /\ spec_step (abs t) (ORead h count) (RRead r out) (abs t').
Proof.
  intros Hinv Hh Hcount. unfold read. start_op.
  pose proof (ok_data p Hok) as Hwf. rw (bq_empty_spec _ Hwf).
  case_match eqn:Hr; [|case_match eqn:Hn; [|case_match eqn:He]].
  1,2: intros [= <- <- <-]; eapply refine_live_same; [done..|];
    rw /= /spec_read /=; spec_cases.
  - destruct (bq_read (data p) count) as [d o] eqn:Hread. intros [= <- <- <-].
    apply bq_read_spec in Hread as (Hwf' & Hc & Hlen); [|done|word].
    eapply refine_live; [done..|by apply set_data_ok|done|].
    rw /= /spec_read /=. do 2 (rewrite -> decide_False by lia).
    destruct (bq_contents (data p)) as [|b q] eqn:Hq.
    { by rewrite bool_decide_true in He. }
    rw {}Hc in Hlen |- *. rewrite -> length_app in Hlen.
    assert (Z.to_nat count = length o \/ bq_contents d = [] /\ length o <= Z.to_nat count)%nat as [->|[Hd Hle]].
    { destruct (bq_contents d); [right; split; [done|]; simpl in *; lia|left; simpl in *; lia]. }
    + by rw take_app_length drop_app_length Hu.
    + rw Hd app_nil_r (take_ge o) // (drop_ge o) // Hu /= /view /= Hd. done.
  - assert (Hq : bq_contents (data p) = []) by (case_bool_decide; done).
    intros Hres.
    assert (t' = t /\ out = [] /\
      r = io_result (if decide (writers p = 0) then end_of_file else would_block) 0)
      as (-> & -> & ->) by (case_decide; case_match; simplify_eq; lia || done).
    eapply refine_live_same; [done..|]. rw /= /spec_read /= Hq.
    by do 2 (rewrite -> decide_False by lia).
Qed.

Lemma write_refines t h input t' r :
  inv t -> handle_ok h -> Z.of_nat (length input) < 2 ^ 32 ->
  write t h input (Z.of_nat (length input)) = (t', r) ->
  inv t' /\ spec_step (abs t) (OWrite h input) (RWrite r) (abs t').
Proof.
  intros Hinv Hh Hcount. unfold write. start_op.
  pose proof (ok_data p Hok) as Hwf. rw (bq_free_space_spec _ Hwf).
  pose proof (bq_bounded _ Hwf) as Hb.
  case_match eqn:Hw; [|case_match eqn:Hn; [|case_match eqn:Hr; [|case_match eqn:Hroom]]].
  1-4: intros [= <- <-]; eapply refine_live_same; [done..|];
    rw /= /spec_write /=; spec_cases.
  destruct (bq_write (data p) input _) as [d amount] eqn:Hwr. intros [= <- <-].
  apply bq_write_spec in Hwr as (Hwf' & Ha & Hc); [|done|lia].
  eapply refine_live; [done..|by apply set_data_ok|done|].
  rw /= /spec_write /= Hu /view /=.
  do 3 (rewrite -> decide_False by lia).
  destruct (decide (BufferCapacity - Z.of_nat (length (bq_contents (data p))) = 0)) as [E|E].
  - rewrite -> decide_True by lia.
    rw Hc. assert (amount = 0) as -> by lia. by rw /= app_nil_r.
  - rewrite -> decide_False by lia. rewrite -> (proj2 (Z.eqb_neq amount 0)) by lia.
    rw -Ha -Hc. done.
Qed.

Lemma create_refines t t' r :
  inv t -> create t = (t', r) ->
  inv t' /\ spec_step (abs t) OCreate (RCreate r) (abs t').
Proof.
  intros Hinv. pose proof (inv_length t Hinv) as Hlen. unfold create.
  destruct (first_slot _ t) as [i|] eqn:Hf; intros [= <- <-].
  - apply first_slot_Some in Hf as (p & Hi & Hu%negb_true_iff & _).
    rw (list_lookup_total_correct _ _ _ Hi).
    pose proof (lookup_lt_Some _ _ _ Hi) as Hlt.
    pose proof (inv_pipes t Hinv i p Hi) as Hok. pose proof (ok_generation p Hok).
    rewrite -> (wrap_small 8) by word.
    set (g := if u16 (pgeneration p + 1) =? 0 then 1 else u16 (pgeneration p + 1)).
    assert (in_u 16 g /\ g <> 0) as [Hg Hg0].
    { subst g. case_match; word. }
    set (p' := pipe_default <| used := true |> <| pgeneration := g |> <| readers := 1 |> <| writers := 1 |>).
    assert (pipe_ok p').
    { split; simpl; try done. apply bq_fresh_wf. }
    assert (Hh : handle_ok (mkHandle g (Z.of_nat i))) by (split; simpl; [done|word]).
    split; [by apply pipe_inv_insert|]. apply spec_create; [done| |].
    + apply eq_None_not_Some. intros [ap (_ & q & Hq & Hu' & _)%abs_Some]; [|done].
      simpl in Hq. rw Nat2Z.id in Hq. congruence.
    + intros h'. rewrite <- (Nat2Z.id i) at 1.
      rw (abs_insert t (mkHandle g (Z.of_nat i)) p); try done.
      * by rw /= Nat2Z.id.
      * congruence.
      * by rw /= Z.eqb_refl /view /= bq_fresh_contents.
  - split; [done|]. apply spec_create_full; [|done]. intros s Hs.
    destruct (lookup_lt_is_Some_2 t (Z.to_nat s)) as [p Hp]; [lia|].
    rewrite first_slot_None in Hf. apply Hf in Hp as Hu. apply negb_false_iff in Hu.
    pose proof (inv_pipes t Hinv _ p Hp) as Hok. pose proof (ok_generation p Hok).
    exists (pgeneration p), (view p). apply abs_Some; [done|].
    split; [split; simpl; word|]. eauto.
Qed.

(** The combined simulation, one operation at a time. *)
Lemma step_refines t o t' r :
  inv t -> op_ok o -> step t o = (t', r) -> inv t' /\ spec_step (abs t) o r (abs t').
Proof.
  intros Hinv [Ht Ho]. destruct o as [|h e|h e|h n|h input]; simpl in *.
  - destruct (create t) eqn:E. intros [= <- <-]. by apply create_refines.
  - destruct (retain t h e) eqn:E. intros [= <- <-]. apply retain_refines; auto.
  - destruct (release t h e) eqn:E. intros [= <- <-]. apply release_refines; auto.
  - destruct (read t h n) as [[]] eqn:E. intros [= <- <-]. apply read_refines; auto.
  - destruct (write t h input _) eqn:E. intros [= <- <-]. apply write_refines; auto.
Qed.

(** ** Executions *)

Fixpoint run (t : pipes) (ops : list op) : pipes * list res :=
  match ops with
  | [] => (t, [])
  | o :: ops => let '(t1, r) := step t o in let '(t2, rs) := run t1 ops in (t2, r :: rs)
  end.

Inductive spec_run (A : PipeHandle -> option APipe) :
    list op -> list res -> (PipeHandle -> option APipe) -> Prop :=
| spec_run_nil : spec_run A [] [] A
| spec_run_cons o r A1 ops rs A2 :
    spec_step A o r A1 -> spec_run A1 ops rs A2 -> spec_run A (o :: ops) (r :: rs) A2.

Lemma run_refines ops t t' rs :
  inv t -> Forall op_ok ops -> run t ops = (t', rs) -> inv t' /\ spec_run (abs t) ops rs (abs t').
Proof.
  intros Hinv Hops. revert t t' rs Hinv.
  induction Hops as [|o ops Ho Hops IH]; intros t t' rs Hinv; simpl.
  - intros [= <- <-]. split; [done|constructor].
  - destruct (step t o) as [t1 r] eqn:Hs, (run t1 ops) as [t2 rs'] eqn:Hr. intros [= <- <-].
    apply step_refines in Hs as [Hinv1 Hs]; [|done..].
    apply IH in Hr as [Hinv2 Hr]; [|done]. split; [done|by econstructor].
Qed.

Lemma abs_initial h : abs initial h = None.
Proof.
  apply eq_None_not_Some. intros [ap (_ & p & [-> _]%lookup_replicate & Hu & _)%abs_Some];
    [done|apply pipe_initial_inv].
Qed.

(** ** Handle generations

    [create] gives a slot the successor of its last generation, skipping 0. *)

Definition next_generation (g : Z) : Z := if u16 (g + 1) =? 0 then 1 else u16 (g + 1).

Lemma next_generation_iter g k :
  1 <= g <= 65535 -> 0 <= k ->
  next_generation ((g - 1 + k) mod 65535 + 1) = (g - 1 + (k + 1)) mod 65535 + 1.
Proof. intros Hg Hk. unfold next_generation. case_match; word. Qed.

Lemma create_slot t t' r i p :
  create t = (t', r) -> t !! i = Some p ->
  exists p', t' !! i = Some p' /\
    (p' = p \/ used p = false /\ pgeneration p' = next_generation (pgeneration p)).
Proof.
  intros Hc Hi. unfold create in Hc.
  destruct (first_slot _ t) as [j|] eqn:Hf; simplify_eq; [|by eauto].
  apply first_slot_Some in Hf as (q & Hj & Hu%negb_true_iff & _).
  destruct (decide (j = i)) as [->|Hne].
  - rw list_lookup_insert_eq; [by eapply lookup_lt_Some|].
    assert (q = p) as -> by congruence.
    rw (list_lookup_total_correct _ _ _ Hi). by eauto.
  - rw list_lookup_insert_ne //. by eauto.
Qed.

(** Every other operation keeps the generations, and revives no slot. *)
Lemma step_slot t o i p :
  inv t -> op_ok o -> t !! i = Some p ->
  exists p', (step t o).1 !! i = Some p' /\
    (pgeneration p' = pgeneration p /\ (used p' = true -> used p = true) \/
     o = OCreate /\ used p = false /\ pgeneration p' = next_generation (pgeneration p)).
Proof.
  intros Hinv [Hh _] Hi.
  pose (keeps := fun t' : pipes => exists p', t' !! i = Some p' /\
      pgeneration p' = pgeneration p /\ (used p' = true -> used p = true)).
  assert (Hsame : keeps t) by (exists p; done).
  assert (Hkeep : forall j q', pgeneration q' = pgeneration (t !!! j) ->
    (used q' = true -> used (t !!! j) = true) -> keeps (<[j := q']> t)).
  { intros j q' Hg Hu. unfold keeps. rw list_lookup_insert. case_decide as Hc; [|by eauto].
    destruct Hc as [-> _]. rw (list_lookup_total_correct _ _ _ Hi) in Hg Hu. by eauto. }
  destruct (decide (o = OCreate)) as [->|Hne].
  { simpl. destruct (create t) as [t' r] eqn:Hc.
    destruct (create_slot t t' r i p Hc Hi) as (p' & Hp' & [->|[? ?]]); eauto 10. }
  enough (keeps (step t o).1) as (p' & Hp' & ? & ?) by (exists p'; auto).
  destruct o as [|h e|h e|h n|h input]; simpl in *; [done|..];
    unfold retain, release, read, write; destruct (find t h) as [j|] eqn:Hf; try exact Hsame;
    repeat case_match; simpl in *; simplify_eq; try exact Hsame.
  all: apply Hkeep; by try destruct e.
Qed.

Definition creates (ops : list op) : Z := Z.of_nat (length (filter (fun o => o = OCreate) ops)).

Lemma creates_cons o ops :
  creates (o :: ops) = (if decide (o = OCreate) then 1 else 0) + creates ops.
Proof. unfold creates. rw filter_cons. case_decide; simpl; lia. Qed.

(** A freed slot needs 65535 further creations before its last handle is
    issued again. *)
Lemma run_stale ops t h k :
  inv t -> handle_ok h -> generation h <> 0 -> Forall op_ok ops ->
  0 <= k -> k + creates ops <= 65534 ->
  (exists p, t !! Z.to_nat (slot h) = Some p /\
     exists j, 0 <= j <= k /\ pgeneration p = (generation h - 1 + j) mod 65535 + 1 /\
               (used p = true -> 0 < j)) ->
  abs (run t ops).1 h = None.
Proof.
  intros Hinv Hh Hg Hops. revert t k Hinv.
  assert (1 <= generation h <= 65535) by (destruct Hh; word).
  induction Hops as [|o ops Ho Hops IH]; intros t k Hinv Hk Hc (p & Hp & j & Hj & Hgen & Hused); simpl.
  - apply eq_None_not_Some. intros [ap (_ & q & Hq & Hu & Hgq & _)%abs_Some]; [|done].
    simplify_eq. specialize (Hused Hu). rw Hgq in Hgen.
    unfold creates in Hc. simpl in Hc. word.
  - destruct (step t o) as [t1 r] eqn:Hs, (run t1 ops) as [t2 rs] eqn:Hr. simpl.
    replace t2 with (run t1 ops).1 by by rw Hr.
    destruct (step_slot t o _ p Hinv Ho Hp) as (p' & Hp' & Hstep). rw Hs /= in Hp'.
    apply step_refines in Hs as [Hinv1 _]; [|done..].
    rw creates_cons in Hc.
    destruct Hstep as [[Hg' Hu']|(-> & Hu & Hg')].
    + apply (IH t1 k); [done..|case_decide; lia|].
      exists p'. split; [done|]. exists j. rw Hg'. auto.
    + case_decide; [|done].
      apply (IH t1 (k + 1)); [done|lia|lia|].
      exists p'. split; [done|]. exists (j + 1). rw Hg' Hgen. split; [lia|].
      split; [apply next_generation_iter; lia|lia].
Qed.

Lemma release_last t h e ap :
  inv t -> abs t h = Some ap -> a_readers ap + a_writers ap = 1 -> a_refs ap e = 1 ->
  exists p, (release t h e).1 !! Z.to_nat (slot h) = Some p /\
    used p = false /\ pgeneration p = generation h.
Proof.
  intros Hinv (Hh & p & Hi & Hu & Hg & ->)%abs_Some Hsum Hr; [|done].
  assert (Hf : find t h = Some (Z.to_nat (slot h))) by (apply find_Some; eauto).
  unfold release. rw Hf (list_lookup_total_correct _ _ _ Hi).
  assert (refs p e = 1) as -> by by destruct e.
  rw /= (_ : (readers _ =? 0) && (writers _ =? 0) = true) /=.
  { destruct e; simpl in *; lia. }
  rw list_lookup_insert_eq; [by eapply lookup_lt_Some|]. eexists. split_and!; [done..|].
  by destruct e.
Qed.

(** C6: Every sequence of pipe operations on a fresh table is an execution of
    the abstract specification in which each live handle owns a byte stream
    with its reader and writer counts; the table invariant holds throughout. *)
Theorem pipe_table_refines ops t' rs :
  Forall op_ok ops -> run initial ops = (t', rs) ->
  inv t' /\ (forall h, abs initial h = None) /\ spec_run (abs initial) ops rs (abs t').
Proof.
  intros Hops Hrun. destruct (run_refines ops initial t' rs pipe_initial_inv Hops Hrun).
  split_and!; [done|apply abs_initial|done].
Qed.

(** Dropping the last reference of a pipe kills its handle: no later
    sequence of operations with fewer than 65535 creations makes the stale
    handle designate a pipe again, whatever the slot is reused for. *)
Theorem pipe_stale_handle t h e ap ops :
  inv t -> abs t h = Some ap -> a_readers ap + a_writers ap = 1 -> a_refs ap e = 1 ->
  Forall op_ok ops -> creates ops <= 65534 ->
  abs (run (release t h e).1 ops).1 h = None.
Proof.
  intros Hinv Habs Hsum Hr Hops Hc. pose proof Habs as (Hh & q & Hq & Huq & Hgq & _)%abs_Some; [|done].
  pose proof (ok_used q (inv_pipes t Hinv _ q Hq) Huq) as [Hg0 _].
  destruct (release_last t h e ap) as (p & Hp & Hu & Hg); [done..|].
  destruct (release t h e) as [t1 r] eqn:Hrel.
  apply release_refines in Hrel as [Hinv1 _]; [|done..].
  apply (run_stale ops t1 h 0); [done..|congruence|done|lia|lia|].
  exists p. split; [done|]. exists 0. destruct Hh as [Hh _]. split; [lia|]. split; [word|congruence].
Qed.

(** A write of at most [AtomicCapacity] bytes is atomic: either it stores
    all its bytes behind those already queued or it stores none. *)
Theorem pipe_write_atomic t h input t' r :
  inv t -> handle_ok h -> Z.of_nat (length input) <= AtomicCapacity ->
  write t h input (Z.of_nat (length input)) = (t', r) ->
  (io_status r = success /\ io_size r = Z.of_nat (length input) /\
   exists ap ap', abs t h = Some ap /\ abs t' h = Some ap' /\ a_queue ap' = a_queue ap ++ input) \/
  (io_status r <> success /\ io_size r = 0 /\ forall h', abs t' h' = abs t h').
Proof.
  intros Hinv Hh Hlen Hw. pose proof (bq_capacity_pos (capacity := BufferCapacity)).
  apply write_refines in Hw as [_ Hs]; [|done|done|lia].
  inversion Hs as [| |A' o h0 ap Ht Ha Hall Ho Hr|A' o h0 Ht Ha Hall Ho Hr];
    simpl in *; simplify_eq; last by right.
  pose proof (Hall h0) as Hsame. rw decide_True // in Hsame.
  assert (Hid : forall r0, spec_write ap input = (Some ap, r0) ->
    forall h', abs t' h' = abs t h').
  { intros r0 E h'. rw Hall E /=. case_decide; [by subst|done]. }
  unfold spec_write in *. repeat case_decide; simpl in *; simplify_eq; try by right; eauto.
  - left. split_and!; [done|done|]. exists ap, ap. split_and!; [done..|].
    destruct input; [by rw app_nil_r|done].
  - left. split_and!; [done|simpl; lia|]. eexists _, _. split_and!; [done..|].
    simpl. rw take_ge //. lia.
Qed.
End table.

(** ** The kernel's table, [PipeTable<8>], on concrete runs *)

#[local] Instance kernel_ring : ByteQueue Ring.RingBuffer := Ring.ring_queue 4096.
#[local] Instance kernel_ring_laws : ByteQueueLaws Ring.RingBuffer 4096.
Proof. apply Ring.ring_queue_laws. lia. Defined.

Ltac ops_ok :=
  repeat (apply Forall_cons_2 || apply Forall_nil_2);
  (split; [simpl; intros ? ?; simplify_eq; repeat split; vm_compute; congruence
          |simpl; try done; word]).

Definition sample_ops : list op :=
  let h := mkHandle 1 0 in
  [OCreate; OWrite h [10; 20; 30]; ORead h 2; ORelease h end_write; ORead h 5; ORead h 5].

Definition sample_state : list Pipe := (run 8 4096 (initial 8) [OCreate; ORelease (mkHandle 1 0) end_read]).1.

Lemma pipe_sample_state_inv : inv 8 4096 sample_state.
Proof.
  apply (run_refines 8 4096 4096 ltac:(lia) ltac:(lia) [OCreate; ORelease (mkHandle 1 0) end_read]
    (initial 8) _ (run 8 4096 (initial 8) [OCreate; ORelease (mkHandle 1 0) end_read]).2).
  - apply pipe_initial_inv.
  - ops_ok.
  - unfold sample_state. apply surjective_pairing.
Qed.

Lemma pipe_table_refines_witness :
  let out := run 8 4096 (initial 8) sample_ops in
  out.2 = [RCreate (create_result success (mkHandle 1 0)); RWrite (io_result success 3);
           RRead (io_result success 2) [10; 20]; RStatus success;
           RRead (io_result success 1) [30]; RRead (io_result end_of_file 0) []] /\
  spec_run 8 4096 4096 (abs 8 4096 (initial 8)) sample_ops out.2 (abs 8 4096 out.1).
Proof.
  intros out. split; [vm_compute; reflexivity|].
  apply (pipe_table_refines 8 4096 4096 ltac:(lia) ltac:(lia) sample_ops out.1 out.2).
  - ops_ok.
  - apply surjective_pairing.
Defined.

Lemma pipe_stale_handle_witness :
  abs 8 4096 (run 8 4096 (release 8 sample_state (mkHandle 1 0) end_write).1 [OCreate; OCreate]).1
    (mkHandle 1 0) = None.
Proof.
  apply (pipe_stale_handle 8 4096 4096 ltac:(lia) ltac:(lia) sample_state (mkHandle 1 0) end_write
    (mkAPipe [] 0 1) [OCreate; OCreate]).
  - apply pipe_sample_state_inv.
  - vm_compute. reflexivity.
  - reflexivity.
  - reflexivity.
  - ops_ok.
  - vm_compute. congruence.
Defined.

Lemma pipe_write_atomic_witness :
  let out := write 8 4096 (run 8 4096 (initial 8) [OCreate]).1 (mkHandle 1 0) [7; 8] 2 in
  out.2 = io_result success 2 /\
  exists ap ap', abs 8 4096 (run 8 4096 (initial 8) [OCreate]).1 (mkHandle 1 0) = Some ap /\
    abs 8 4096 out.1 (mkHandle 1 0) = Some ap' /\ a_queue ap' = a_queue ap ++ [7; 8].
Proof.
  intros out. split; [vm_compute; reflexivity|].
  destruct (pipe_write_atomic 8 4096 4096 ltac:(lia) ltac:(lia)
    (run 8 4096 (initial 8) [OCreate]).1 (mkHandle 1 0) [7; 8] out.1 out.2) as [(_ & _ & H)|(H & _)].
  - apply (run_refines 8 4096 4096 ltac:(lia) ltac:(lia) [OCreate] (initial 8) _
      (run 8 4096 (initial 8) [OCreate]).2); [apply pipe_initial_inv|ops_ok|apply surjective_pairing].
  - split; simpl; word.
  - simpl. lia.
  - apply surjective_pairing.
  - exact H.
  - exfalso. apply H. vm_compute. reflexivity.
Defined.
End PipeTable.
