(* ===== verification/Signal.v ===== *)
(** * [include/mikos/process/signal.hpp]: signal actions, masks and delivery *)

From S2P Require Import Prelude.
Local Open Scope Z_scope.

Module Signal.

Definition signal_max := 64.
Definition signal_interrupt := 2.
Definition signal_quit := 3.
Definition signal_kill := 9.
Definition signal_child := 17.
Definition signal_continue := 18.
Definition signal_stop := 19.
Definition signal_tty_stop := 20.
Definition signal_tty_input := 21.
Definition signal_tty_output := 22.
Definition signal_urgent := 23.
Definition signal_window_change := 28.

Inductive SignalStatus := success | invalid_signal | uncatchable | invalid_operation.

(** The three enumerators, and any other value a [u8] cast may produce. *)
Inductive SignalMaskOperation := op_block | op_unblock | op_set | op_other (raw : Z).

Inductive SignalDefault := ignore | terminate | stop | resume.

Record SignalAction := mkAction { handler : Z; flags : Z; mask : Z }.
#[global] Instance action_eta : Eta SignalAction := fun a => mkAction (handler a) (flags a) (mask a).
#[global] Instance action_eq_dec : EqDecision SignalAction.
Proof. solve_decision. Defined.

(** [SignalAction{}]. *)
Definition action_default : SignalAction := mkAction 0 0 0.
#[global] Instance action_inhabited : Inhabited SignalAction := populate action_default.

Record SignalState := mkSignals {
  actions_ : list SignalAction;
  blocked_ : Z;
  pending_ : Z;
}.
#[global] Instance signals_eta : Eta SignalState := fun s =>
  mkSignals (actions_ s) (blocked_ s) (pending_ s).

Definition initial : SignalState := mkSignals (replicate 65 action_default) 0 0.

Definition valid (signal : Z) : bool := negb (signal =? 0) && (signal <=? signal_max).

Definition bit (signal : Z) : Z :=
  if valid signal then u64 (Z.shiftl 1 (signal - 1)) else 0.

Definition uncatchable_mask : Z := Z.lor (bit signal_kill) (bit signal_stop).

(** [~x] on [u64]. *)
Definition not64 (x : Z) : Z := u64 (Z.lnot x).

(** The third component is what is stored through a non-null [old]. *)
Definition set_action (s : SignalState) (signal : Z) (action : SignalAction)
    : SignalState * SignalStatus * option SignalAction :=
  if negb (valid signal) then (s, invalid_signal, None) else
  let old := actions_ s !!! Z.to_nat signal in
  if (signal =? signal_kill) || (signal =? signal_stop) then (s, uncatchable, Some old) else
  let action := action <| mask ::= fun m => Z.land m (not64 uncatchable_mask) |> in
  (s <| actions_ ::= <[Z.to_nat signal := action]> |>, success, Some old).

Definition action_of (s : SignalState) (signal : Z) : SignalAction :=
  if valid signal then actions_ s !!! Z.to_nat signal else action_default.

(** The third component is what is stored through a non-null [old]. *)
Definition change_mask (s : SignalState) (o : SignalMaskOperation) (value : Z)
    : SignalState * SignalStatus * Z :=
  let old := blocked_ s in
  let value := Z.land value (not64 uncatchable_mask) in
  let finish b := (s <| blocked_ := Z.land b (not64 uncatchable_mask) |>, success, old) in
  match o with
  | op_block => finish (Z.lor (blocked_ s) value)
  | op_unblock => finish (Z.land (blocked_ s) (not64 value))
  | op_set => finish value
  | op_other _ => (s, invalid_operation, old)
  end.

Definition queue (s : SignalState) (signal : Z) : SignalState * SignalStatus :=
  if negb (valid signal) then (s, invalid_signal)
  else (s <| pending_ ::= fun p => Z.lor p (bit signal) |>, success).

(** The loop over the signals 1..64 stops at the first deliverable one. *)
Definition next (s : SignalState) : SignalState * Z :=
  let deliverable := Z.land (pending_ s) (not64 (blocked_ s)) in
  match first_slot (fun signal => negb (Z.land deliverable (bit signal) =? 0)) (seqZ 1 signal_max) with
  | Some i =>
      let signal := 1 + Z.of_nat i in
      (s <| pending_ ::= fun p => Z.land p (not64 (bit signal)) |>, signal)
  | None => (s, 0)
  end.

Definition has_deliverable (s : SignalState) : bool :=
  negb (Z.land (pending_ s) (not64 (blocked_ s)) =? 0).

Definition default_for (signal : Z) : SignalDefault :=
  if (signal =? signal_child) || (signal =? signal_urgent) || (signal =? signal_window_change)
  then ignore
  else if signal =? signal_continue then resume
  else if (signal =? signal_stop) || (signal =? signal_tty_stop) ||
          (signal =? signal_tty_input) || (signal =? signal_tty_output)
  then stop
  else terminate.

(** ** Signal sets

    A mask is the set of the signals [x] whose bit [x - 1] is set. *)

Definition mem (m x : Z) : bool := Z.testbit m (x - 1).

Lemma valid_spec x : valid x = true <-> x <> 0 /\ x <= 64.
Proof. unfold valid, signal_max. lia. Qed.

Lemma bit_pow x : 1 <= x <= 64 -> bit x = 2 ^ (x - 1).
Proof.
  intros Hx. unfold bit. rewrite -> (proj2 (valid_spec x)) by lia.
  rw Z.shiftl_1_l wrap_small //. split; [lia|]. apply Z.pow_lt_mono_r; lia.
Qed.

Lemma mem_bit x y : 1 <= x <= 64 -> 1 <= y <= 64 -> mem (bit x) y = (y =? x).
Proof.
  intros Hx Hy. unfold mem. rw bit_pow // Z.pow2_bits_eqb; lia.
Qed.

Lemma mem_not64 m x : 1 <= x <= 64 -> mem (not64 m) x = negb (mem m x).
Proof.
  intros Hx. unfold mem, not64, wrap. rewrite -> Z.mod_pow2_bits_low by lia.
  apply Z.lnot_spec. lia.
Qed.

Lemma mem_land m n x : mem (Z.land m n) x = mem m x && mem n x.
Proof. apply Z.land_spec. Qed.
Lemma mem_lor m n x : mem (Z.lor m n) x = mem m x || mem n x.
Proof. apply Z.lor_spec. Qed.

#[export] Hint Rewrite mem_land mem_lor : mem.

Lemma mem_uncatchable x :
  1 <= x <= 64 -> mem uncatchable_mask x = (x =? signal_kill) || (x =? signal_stop).
Proof. intros Hx. unfold uncatchable_mask. rw mem_lor !mem_bit //. Qed.

Lemma land_bit_zero m x : 1 <= x <= 64 -> (Z.land m (bit x) =? 0) = negb (mem m x).
Proof.
  intros Hx. rw bit_pow //. destruct (mem m x) eqn:E; unfold mem in E; simpl.
  - apply Z.eqb_neq. intros Hz. apply (f_equal (fun z => Z.testbit z (x - 1))) in Hz.
    rw Z.land_spec E Z.pow2_bits_true ?Z.bits_0 in Hz; [lia|done].
  - apply Z.eqb_eq, Z.bits_inj'. intros i Hi.
    rw Z.land_spec Z.bits_0. destruct (Z.eq_dec i (x - 1)) as [->|Hne]; [by rw E|].
    rw Z.pow2_bits_false; [lia|by rw andb_false_r].
Qed.

Lemma in_u_land m n : in_u 64 m -> in_u 64 n -> in_u 64 (Z.land m n).
Proof.
  intros Hm Hn. assert (Z.land m n = wrap 64 (Z.land m n)) as ->.
  { unfold wrap. rewrite <- !Z.land_ones by lia. rw -Z.land_assoc Z.land_ones; [lia|].
    by rw (Z.mod_small n). }
  apply wrap_in_u. lia.
Qed.

Lemma in_u_lor m n : in_u 64 m -> in_u 64 n -> in_u 64 (Z.lor m n).
Proof.
  intros Hm Hn. assert (Z.lor m n = wrap 64 (Z.lor m n)) as ->.
  { unfold wrap. rewrite <- !Z.land_ones by lia. rw Z.land_lor_distr_l.
    rewrite -> !Z.land_ones by lia. by rw (Z.mod_small m) // (Z.mod_small n). }
  apply wrap_in_u. lia.
Qed.

Lemma in_u_not64 m : in_u 64 (not64 m).
Proof. apply wrap_in_u. lia. Qed.

Lemma in_u_bit x : 0 <= x -> in_u 64 (bit x).
Proof. intros Hx. unfold bit. case_match; [apply wrap_in_u|]; word. Qed.

#[local] Hint Resolve in_u_land in_u_lor in_u_not64 in_u_bit : mikos.

(** ** Invariant: SIGKILL and SIGSTOP are never blocked nor caught *)

Definition spares_uncatchable (m : Z) : Prop :=
  in_u 64 m /\ mem m signal_kill = false /\ mem m signal_stop = false.

Record inv (s : SignalState) : Prop := {
  inv_length : length (actions_ s) = 65%nat;
  inv_blocked : spares_uncatchable (blocked_ s);
  inv_pending : in_u 64 (pending_ s);
  inv_kill : action_of s signal_kill = action_default;
  inv_stop : action_of s signal_stop = action_default;
  inv_masks i a : actions_ s !! i = Some a -> spares_uncatchable (mask a);
}.

Inductive op :=
| OSetAction (signal : Z) (a : SignalAction)
| OChangeMask (o : SignalMaskOperation) (value : Z)
| OQueue (signal : Z)
| ONext.

Definition op_ok (o : op) : Prop :=
  match o with
  | OSetAction signal a => in_u 8 signal /\ in_u 64 (mask a)
  | OChangeMask _ value => in_u 64 value
  | OQueue signal => in_u 8 signal
  | ONext => True
  end.

Definition step (s : SignalState) (o : op) : SignalState :=
  match o with
  | OSetAction signal a => (set_action s signal a).1.1
  | OChangeMask m value => (change_mask s m value).1.1
  | OQueue signal => (queue s signal).1
  | ONext => (next s).1
  end.

Lemma masked_spares m : in_u 64 m -> spares_uncatchable (Z.land m (not64 uncatchable_mask)).
Proof.
  intros Hm. split; [auto with mikos|].
  split; (rw mem_land mem_not64; [done|]; rw mem_uncatchable; [done|]; by rw andb_false_r).
Qed.

Lemma signal_initial_inv : inv initial.
Proof.
  split; try done.
  intros i a [-> _]%lookup_replicate. vm_compute. intuition congruence.
Qed.

Lemma set_action_inv s signal a :
  inv s -> in_u 8 signal -> in_u 64 (mask a) -> inv (set_action s signal a).1.1.
Proof.
  intros [Hl Hb Hp Hk Hs Hm] Hsig Ha. unfold set_action.
  destruct (valid signal) eqn:Hv; simpl; [|by split]. apply valid_spec in Hv.
  destruct (_ || _) eqn:Hu; simpl; [by split|].
  unfold signal_kill, signal_stop in *. rw orb_false_iff !Z.eqb_neq in Hu.
  split; simpl; try done.
  - by rw length_insert.
  - unfold action_of in *. simpl in *. rw list_lookup_total_insert_ne //. unfold signal_kill, signal_stop; word.
  - unfold action_of in *. simpl in *. rw list_lookup_total_insert_ne //. unfold signal_kill, signal_stop; word.
  - intros i b. rw list_lookup_insert. case_decide; [|by apply Hm].
    intros [= <-]. by apply masked_spares.
Qed.

Lemma change_mask_inv s o value : inv s -> in_u 64 value -> inv (change_mask s o value).1.1.
Proof.
  intros [Hl Hb Hp Hk Hs Hm] Hv. pose proof Hb as [Hb64 _].
  destruct o; simpl; split; simpl; try done; apply masked_spares; auto with mikos.
Qed.

Lemma queue_inv s signal : inv s -> in_u 8 signal -> inv (queue s signal).1.
Proof.
  intros [Hl Hb Hp Hk Hs Hm] Hsig. unfold queue. case_match; split; simpl; try done.
  apply in_u_lor; [done|]. apply in_u_bit. word.
Qed.

Lemma next_inv s : inv s -> inv (next s).1.
Proof.
  intros [Hl Hb Hp Hk Hs Hm]. unfold next. case_match; split; simpl; try done.
  auto with mikos.
Qed.

Lemma signal_step_inv s o : inv s -> op_ok o -> inv (step s o).
Proof.
  intros Hs Ho. destruct o; simpl in *.
  - by apply set_action_inv; naive_solver.
  - by apply change_mask_inv.
  - by apply queue_inv.
  - by apply next_inv.
Qed.

(** ** Claims *)

(** A signal is deliverable when it is pending and not blocked. *)
Definition deliverable (s : SignalState) (x : Z) : bool :=
  mem (pending_ s) x && negb (mem (blocked_ s) x).

Lemma deliverable_mem s x :
  1 <= x <= 64 -> mem (Z.land (pending_ s) (not64 (blocked_ s))) x = deliverable s x.
Proof. intros Hx. by rw mem_land mem_not64. Qed.

(** No sequence of signal operations blocks SIGKILL or SIGSTOP, installs
    an action for them, or leaves them in the mask of any handler; the state
    invariant holds after every operation. *)
Theorem signals_uncatchable ops :
  Forall op_ok ops ->
  let s := fold_left step ops initial in
  inv s /\
  deliverable s signal_kill = mem (pending_ s) signal_kill /\
  deliverable s signal_stop = mem (pending_ s) signal_stop /\
  action_of s signal_kill = action_default /\ action_of s signal_stop = action_default.
Proof.
  intros Hops s.
  assert (Hinv : inv s).
  { subst s. assert (H0 := signal_initial_inv). revert H0. generalize initial.
    induction Hops as [|o ops Ho Hops IH]; intros s0 Hs0; simpl; [done|].
    apply IH. by apply signal_step_inv. }
  destruct Hinv as [? (Hb & Hk & Hs) ? ? ? ?] eqn:E. split; [done|].
  unfold deliverable. rw Hk Hs !andb_true_r. done.
Qed.

(** [next] returns the lowest-numbered pending signal that is not blocked
    and clears that bit and no other; it returns 0, changing nothing, exactly
    when no signal is deliverable. *)
Theorem signal_next_spec s s' x :
  next s = (s', x) ->
  (x = 0 /\ s' = s /\ forall y, 1 <= y <= 64 -> deliverable s y = false) \/
  (1 <= x <= 64 /\ deliverable s x = true /\
   (forall y, 1 <= y < x -> deliverable s y = false) /\
   actions_ s' = actions_ s /\ blocked_ s' = blocked_ s /\
   forall y, 1 <= y <= 64 -> mem (pending_ s') y = mem (pending_ s) y && negb (y =? x)).
Proof.
  unfold next. destruct (first_slot _ _) as [i|] eqn:Hf; intros [= <- <-].
  - right. apply first_slot_Some in Hf as (z & [-> Hlt]%lookup_seqZ & Hz & Hfirst).
    unfold signal_max in *. set (x := 1 + Z.of_nat i) in *.
    rw land_bit_zero in Hz; [lia|]. rw negb_involutive deliverable_mem in Hz; [lia|].
    split_and!; [lia|lia|done| |done|done|].
    + intros y Hy. specialize (Hfirst (Z.to_nat (y - 1)) y).
      rw land_bit_zero in Hfirst; [lia|].
      rw negb_involutive deliverable_mem in Hfirst; [lia|].
      apply Hfirst; [apply lookup_seqZ|]; lia.
    + intros y Hy. simpl. rw mem_land mem_not64 // mem_bit //; lia.
  - left. split_and!; [done..|]. intros y Hy. rw first_slot_None in Hf.
    specialize (Hf (Z.to_nat (y - 1)) y). unfold signal_max in Hf.
    rw land_bit_zero in Hf; [lia|]. rw negb_involutive deliverable_mem in Hf; [lia|].
    apply Hf, lookup_seqZ. lia.
Qed.

Lemma signals_uncatchable_witness :
  let s := fold_left step [OChangeMask op_set (2 ^ 64 - 1); OSetAction 9 (mkAction 4096 0 0);
                           OQueue 9; OQueue 2] initial in
  (next s).2 = 9 /\ action_of s signal_kill = action_default.
Proof.
  intros s. split; [vm_compute; reflexivity|].
  refine (proj1 (proj2 (proj2 (proj2 (signals_uncatchable
    [OChangeMask op_set (2 ^ 64 - 1); OSetAction 9 (mkAction 4096 0 0); OQueue 9; OQueue 2] _))))).
  repeat constructor; simpl; lia.
Defined.

Lemma signal_next_spec_witness :
  let s := (queue (queue initial 15).1 3).1 in
  (next s).2 = 3 /\ mem (pending_ (next s).1) 15 = true.
Proof.
  intros s. split; [vm_compute; reflexivity|].
  destruct (signal_next_spec s (next s).1 (next s).2) as [(H & _)|(_ & _ & _ & _ & _ & H)].
  - apply surjective_pairing.
  - exfalso. revert H. vm_compute. congruence.
  - rw H; [lia|]. vm_compute. reflexivity.
Defined.

End Signal.
