(* ===== verification/Pty.v ===== *)
(** * [include/mikos/process/pty.hpp]: pseudo-terminals and their line discipline

    [PtyTable] models [PtyTable<TableCapacity, BufferCapacity>] over any
    implementation of the byte queue interface. *)

From S2P Require Import Prelude ByteQueue RingBuffer Signal.
Local Open Scope Z_scope.

Module PtyTable.

Inductive PtyEnd := master | slave.

Record PtyHandle := mkHandle { generation : Z; slot : Z }.

Inductive PtyStatus :=
  success | would_block | end_of_file | io_error | bad_handle | locked_status
| no_space | permission_denied | invalid_argument.

Record PtyIoResult := io_result { io_status : PtyStatus; io_size : Z; generated_signals : Z }.
Record OpenResult := open_result { or_status : PtyStatus; or_handle : PtyHandle }.

Record TermiosState := mkTermios {
  input_flags : Z;
  output_flags : Z;
  control_flags : Z;
  local_flags : Z;
  line : Z;
  control : list Z;
}.

Record WindowSize := mkWindow {
  rows : Z;
  columns : Z;
  horizontal_pixels : Z;
  vertical_pixels : Z;
}.

#[global] Instance pty_end_eq_dec : EqDecision PtyEnd.
Proof. solve_decision. Defined.
#[global] Instance pty_handle_eq_dec : EqDecision PtyHandle.
Proof. solve_decision. Defined.
#[global] Instance pty_status_eq_dec : EqDecision PtyStatus.
Proof. solve_decision. Defined.
#[global] Instance window_eq_dec : EqDecision WindowSize.
Proof. solve_decision. Defined.

(** Default member initializers. *)
Definition termios_default : TermiosState := {|
  input_flags := 0x500; output_flags := 0x5; control_flags := 0xbf;
  local_flags := 0x803b; line := 0;
  control := [3; 28; 127; 21; 4; 0; 1; 0; 17; 19; 26; 0; 18; 15; 23; 22; 0; 0; 0] |}.
Definition window_default : WindowSize := mkWindow 24 80 0 0.
Definition no_handle : PtyHandle := mkHandle 0 255.
Definition io_default : PtyIoResult := io_result bad_handle 0 0.

(** Flag bits and control-character indices of the line discipline. *)
Definition opost := 0x1.
Definition onlcr := 0x4.
Definition isig := 0x1.
Definition echo := 0x8.
Definition noflsh := 0x80.
Definition echoctl := 0x200.
Definition vintr := 0%nat.
Definition vquit := 1%nat.
Definition vsusp := 10%nat.
Definition disabled := 0.

(** [(flags & f) != 0]. *)
Definition has_flag (flags f : Z) : bool := negb (Z.land flags f =? 0).

Definition translate_newline (t : TermiosState) : bool :=
  Z.land (output_flags t) (Z.lor opost onlcr) =? Z.lor opost onlcr.

(** The signal that an input character generates, 0 for none. *)
Definition signal_of (t : TermiosState) (character : Z) : Z :=
  let matches v := negb (control t !!! v =? disabled) && (character =? control t !!! v) in
  if has_flag (local_flags t) isig then
    if matches vintr then Signal.signal_interrupt
    else if matches vquit then Signal.signal_quit
    else if matches vsusp then Signal.signal_tty_stop
    else 0
  else 0.

Section table.
Context {Q : Type} `{!ByteQueue Q}.
Context (TableCapacity BufferCapacity : Z).

Record Pty := mkPty {
  master_to_slave : Q;
  slave_to_master : Q;
  termios_ : TermiosState;
  window_ : WindowSize;
  session_ : Z;
  foreground_group_ : Z;
  pgeneration : Z;
  masters : Z;
  slaves : Z;
  mode_ : Z;
  used : bool;
  locked : bool;
}.
#[global] Instance pty_eta : Eta Pty := fun p =>
  mkPty (master_to_slave p) (slave_to_master p) (termios_ p) (window_ p) (session_ p)
    (foreground_group_ p) (pgeneration p) (masters p) (slaves p) (mode_ p) (used p) (locked p).

(** [Pty{}]; the mode is octal 0666. *)
Definition pty_default : Pty :=
  mkPty bq_fresh bq_fresh termios_default window_default 0 0 0 0 0 438 false false.
#[global] Instance pty_inhabited : Inhabited Pty := populate pty_default.

(** The member [ptys_]. *)
Abbreviation ptys := (list Pty).

Definition initial : ptys := replicate (Z.to_nat TableCapacity) pty_default.

Definition find (t : ptys) (h : PtyHandle) : option nat :=
  if TableCapacity <=? slot h then None else
  let pty := t !!! Z.to_nat (slot h) in
  if used pty && (pgeneration pty =? generation h) then Some (Z.to_nat (slot h)) else None.

Definition refs (p : Pty) (e : PtyEnd) : Z :=
  match e with master => masters p | slave => slaves p end.
Definition set_refs (p : Pty) (e : PtyEnd) (n : Z) : Pty :=
  match e with master => p <| masters := n |> | slave => p <| slaves := n |> end.
Definition peer_closed (p : Pty) (e : PtyEnd) : bool :=
  match e with master => slaves p =? 0 | slave => masters p =? 0 end.

Definition open_master (t : ptys) : ptys * OpenResult :=
  match first_slot (fun pty => negb (used pty)) t with
  | None => (t, open_result no_space no_handle)
  | Some i =>
      let g := u16 (pgeneration (t !!! i) + 1) in
      let g := if g =? 0 then 1 else g in
      (<[i := pty_default <| used := true |> <| locked := true |>
                          <| pgeneration := g |> <| masters := 1 |>]> t,
       open_result success (mkHandle g (u8 (Z.of_nat i))))
  end.

Definition set_locked (t : ptys) (h : PtyHandle) (lock : bool) : ptys * PtyStatus :=
  match find t h with
  | None => (t, bad_handle)
  | Some i =>
      let pty := t !!! i in
      if masters pty =? 0 then (t, bad_handle)
      else (<[i := pty <| locked := lock |>]> t, success)
  end.

(** The tail shared by the two ways of opening a slave. *)
Definition attach_slave (t : ptys) (i : nat) : ptys * OpenResult :=
  let pty := t !!! i in
  if locked pty then (t, open_result locked_status no_handle)
  else if slaves pty =? 65535 then (t, open_result no_space no_handle)
  else (<[i := pty <| slaves := u16 (slaves pty + 1) |>]> t,
        open_result success (mkHandle (pgeneration pty) (u8 (Z.of_nat i)))).

Definition open_slave (t : ptys) (number : Z) : ptys * OpenResult :=
  if (TableCapacity <=? number) || negb (used (t !!! Z.to_nat number))
  then (t, open_result bad_handle no_handle)
  else attach_slave t (Z.to_nat number).

Definition open_controlling_slave (t : ptys) (session : Z) : ptys * OpenResult :=
  if session =? 0 then (t, open_result bad_handle no_handle) else
  match first_slot (fun pty => used pty && (session_ pty =? session)) t with
  | None => (t, open_result bad_handle no_handle)
  | Some i => attach_slave t i
  end.

Definition retain (t : ptys) (h : PtyHandle) (e : PtyEnd) : ptys * PtyStatus :=
  match find t h with
  | None => (t, bad_handle)
  | Some i =>
      let pty := t !!! i in
      if refs pty e =? 0 then (t, bad_handle)
      else if refs pty e =? 65535 then (t, no_space)
      else (<[i := set_refs pty e (u16 (refs pty e + 1))]> t, success)
  end.

Definition release (t : ptys) (h : PtyHandle) (e : PtyEnd) : ptys * PtyStatus :=
  match find t h with
  | None => (t, bad_handle)
  | Some i =>
      let pty := t !!! i in
      if refs pty e =? 0 then (t, bad_handle)
      else
        let pty := set_refs pty e (u16 (refs pty e - 1)) in
        let pty := if (masters pty =? 0) && (slaves pty =? 0)
                   then pty_default <| pgeneration := pgeneration pty |>
                   else pty in
        (<[i := pty]> t, success)
  end.

(** Returns the bytes stored through [output]. *)
Definition read (t : ptys) (h : PtyHandle) (e : PtyEnd) (count : Z)
    : ptys * PtyIoResult * list Z :=
  match find t h with
  | None => (t, io_default, [])
  | Some i =>
      let pty := t !!! i in
      if refs pty e =? 0 then (t, io_default, [])
      else if count =? 0 then (t, io_result success 0 0, [])
      else
        let ring := match e with master => slave_to_master pty | slave => master_to_slave pty end in
        if negb (bq_empty ring) then
          let '(ring', out) := bq_read ring count in
          let pty' := match e with
                      | master => pty <| slave_to_master := ring' |>
                      | slave => pty <| master_to_slave := ring' |>
                      end in
          (<[i := pty']> t, io_result success (Z.of_nat (length out)) 0, out)
        else (t, io_result (if peer_closed pty e then end_of_file else would_block) 0 0, [])
  end.

(** The slave's output loop over the bytes of [input]. *)
Fixpoint slave_loop (translate : bool) (ring : Q) (input : list Z) (consumed : Z) : Q * Z :=
  match input with
  | [] => (ring, consumed)
  | character :: rest =>
      if translate && (character =? 10) then
        if bq_free_space ring <? 2 then (ring, consumed)
        else slave_loop translate (bq_write ring [13; 10] 2).1 rest (u32 (consumed + 1))
      else
        if bq_full ring then (ring, consumed)
        else slave_loop translate (bq_write ring [character] 1).1 rest (u32 (consumed + 1))
  end.

(** The bytes echoed for a signal-generating character. *)
Definition echo_of (t : TermiosState) (character : Z) : list Z :=
  if has_flag (local_flags t) echo then
    if has_flag (local_flags t) echoctl && (character <? 32)
    then [94; u8 (character + 64)]
    else [character]
  else [].

(** What a signal-generating character does to the queues. *)
Definition tty_signal (pty : Pty) (character : Z) : Pty :=
  let t := termios_ pty in
  let pty := if negb (has_flag (local_flags t) noflsh)
             then pty <| master_to_slave ::= bq_clear |> <| slave_to_master ::= bq_clear |>
             else pty in
  let echoed := echo_of t character in
  if has_flag (local_flags t) echo
  then pty <| slave_to_master ::= fun r => (bq_write r echoed (Z.of_nat (length echoed))).1 |>
  else pty.

(** The master's input loop over the bytes of [input]. *)
Fixpoint master_loop (pty : Pty) (input : list Z) (consumed generated : Z) : Pty * Z * Z :=
  match input with
  | [] => (pty, consumed, generated)
  | character :: rest =>
      let signal := signal_of (termios_ pty) character in
      if signal =? 0 then
        if bq_full (master_to_slave pty) then (pty, consumed, generated)
        else master_loop (pty <| master_to_slave ::= fun r => (bq_write r [character] 1).1 |>)
               rest (u32 (consumed + 1)) generated
      else
        let generated := Z.lor generated (Signal.bit signal) in
        master_loop (tty_signal pty character) rest (u32 (consumed + 1)) generated
  end.

Definition write (t : ptys) (h : PtyHandle) (e : PtyEnd) (input : list Z) (count : Z)
    : ptys * PtyIoResult :=
  match find t h with
  | None => (t, io_default)
  | Some i =>
      let pty := t !!! i in
      if refs pty e =? 0 then (t, io_default)
      else if count =? 0 then (t, io_result success 0 0)
      else if peer_closed pty e then (t, io_result io_error 0 0)
      else match e with
           | slave =>
               let '(ring, consumed) := slave_loop (translate_newline (termios_ pty))
                 (slave_to_master pty) (take (Z.to_nat count) input) 0 in
               (<[i := pty <| slave_to_master := ring |>]> t,
                if consumed =? 0 then io_result would_block 0 0
                else io_result success consumed 0)
           | master =>
               let '(pty', consumed, generated) := master_loop pty (take (Z.to_nat count) input) 0 0 in
               (<[i := pty']> t,
                if consumed =? 0 then io_result would_block 0 generated
                else io_result success consumed generated)
           end
  end.

Definition acquire_controlling_terminal (t : ptys) (h : PtyHandle)
    (pid process_group session : Z) (force : bool) : ptys * PtyStatus :=
  match find t h with
  | None => (t, bad_handle)
  | Some i =>
      let pty := t !!! i in
      if slaves pty =? 0 then (t, bad_handle)
      else if negb (pid =? session) then (t, permission_denied)
      else if negb (session_ pty =? 0) && negb (session_ pty =? session) && negb force
           then (t, permission_denied)
      else (<[i := pty <| session_ := session |> <| foreground_group_ := process_group |>]> t, success)
  end.

Definition detach (t : ptys) (h : PtyHandle) (session : Z) : ptys * PtyStatus :=
  match find t h with
  | None => (t, bad_handle)
  | Some i =>
      let pty := t !!! i in
      if negb (session_ pty =? session) then (t, permission_denied)
      else (<[i := pty <| session_ := 0 |> <| foreground_group_ := 0 |>]> t, success)
  end.

Definition set_foreground_group (t : ptys) (h : PtyHandle) (session group : Z) : ptys * PtyStatus :=
  match find t h with
  | None => (t, bad_handle)
  | Some i =>
      let pty := t !!! i in
      if group =? 0 then (t, invalid_argument)
      else if (session_ pty =? 0) || negb (session_ pty =? session) then (t, permission_denied)
      else (<[i := pty <| foreground_group_ := group |>]> t, success)
  end.

Definition foreground_group (t : ptys) (h : PtyHandle) : Z :=
  match find t h with None => 0 | Some i => foreground_group_ (t !!! i) end.

Definition session (t : ptys) (h : PtyHandle) : Z :=
  match find t h with None => 0 | Some i => session_ (t !!! i) end.

Definition set_termios (t : ptys) (h : PtyHandle) (value : TermiosState) : ptys * PtyStatus :=
  match find t h with
  | None => (t, bad_handle)
  | Some i => (<[i := (t !!! i) <| termios_ := value |>]> t, success)
  end.

Definition termios (t : ptys) (h : PtyHandle) : option TermiosState :=
  (fun i => termios_ (t !!! i)) <$> find t h.

(** The third component is what is stored through a non-null [changed]. *)
Definition set_window (t : ptys) (h : PtyHandle) (value : WindowSize)
    : ptys * PtyStatus * option bool :=
  match find t h with
  | None => (t, bad_handle, None)
  | Some i =>
      let pty := t !!! i in
      (<[i := pty <| window_ := value |>]> t, success, Some (negb (bool_decide (window_ pty = value))))
  end.

Definition window (t : ptys) (h : PtyHandle) : option WindowSize :=
  (fun i => window_ (t !!! i)) <$> find t h.

Definition readable (t : ptys) (h : PtyHandle) (e : PtyEnd) : bool :=
  match find t h with
  | None => false
  | Some i =>
      let pty := t !!! i in
      if refs pty e =? 0 then false else
      let ring := match e with master => slave_to_master pty | slave => master_to_slave pty end in
      negb (bq_empty ring) || peer_closed pty e
  end.

Definition writable (t : ptys) (h : PtyHandle) (e : PtyEnd) : bool :=
  match find t h with
  | None => false
  | Some i =>
      let pty := t !!! i in
      if refs pty e =? 0 then false else
      let ring := match e with master => master_to_slave pty | slave => slave_to_master pty end in
      negb (peer_closed pty e) && negb (bq_full ring)
  end.

Definition used_count (t : ptys) : Z := foldr (fun p n => (if used p then 1 else 0) + n) 0 t.

Definition active (t : ptys) (number : Z) : bool :=
  (number <? TableCapacity) && used (t !!! Z.to_nat number).

Definition mode (t : ptys) (number : Z) : Z :=
  if active t number then mode_ (t !!! Z.to_nat number) else 0.

(** The mask is octal 07777. *)
Definition set_mode (t : ptys) (number m : Z) : ptys * PtyStatus :=
  if negb (active t number) then (t, bad_handle)
  else (<[Z.to_nat number := (t !!! Z.to_nat number) <| mode_ := u16 (Z.land m 4095) |>]> t, success).


(** ** Invariant *)

Context `{!ByteQueueLaws Q BufferCapacity}.
Context (Htable : 0 < TableCapacity <= 255).

Record pty_ok (p : Pty) : Prop := {
  ok_input : bq_wf (master_to_slave p);
  ok_output : bq_wf (slave_to_master p);
  ok_control : length (control (termios_ p)) = 19%nat;
  ok_generation : in_u 16 (pgeneration p);
  ok_masters : in_u 16 (masters p);
  ok_slaves : in_u 16 (slaves p);
  ok_mode : in_u 12 (mode_ p);
  ok_used : used p = true -> pgeneration p <> 0 /\ 0 < masters p + slaves p;
  ok_free : used p = false -> masters p = 0 /\ slaves p = 0 /\ session_ p = 0;
}.

Record inv (t : ptys) : Prop := {
  inv_length : length t = Z.to_nat TableCapacity;
  inv_ptys i p : t !! i = Some p -> pty_ok p;
}.

Definition handle_ok (h : PtyHandle) : Prop := in_u 16 (generation h) /\ in_u 8 (slot h).

Inductive op :=
| OOpenMaster
| OSetLocked (h : PtyHandle) (lock : bool)
| OOpenSlave (number : Z)
| OOpenControlling (session : Z)
| ORetain (h : PtyHandle) (e : PtyEnd)
| ORelease (h : PtyHandle) (e : PtyEnd)
| ORead (h : PtyHandle) (e : PtyEnd) (count : Z)
| OWrite (h : PtyHandle) (e : PtyEnd) (input : list Z)
| OAcquire (h : PtyHandle) (pid group session : Z) (force : bool)
| ODetach (h : PtyHandle) (session : Z)
| OSetForeground (h : PtyHandle) (session group : Z)
| OSetTermios (h : PtyHandle) (value : TermiosState)
| OSetWindow (h : PtyHandle) (value : WindowSize)
| OSetMode (number m : Z).

Definition step (t : ptys) (o : op) : ptys :=
  match o with
  | OOpenMaster => (open_master t).1
  | OSetLocked h lock => (set_locked t h lock).1
  | OOpenSlave number => (open_slave t number).1
  | OOpenControlling s => (open_controlling_slave t s).1
  | ORetain h e => (retain t h e).1
  | ORelease h e => (release t h e).1
  | ORead h e count => (read t h e count).1.1
  | OWrite h e input => (write t h e input (Z.of_nat (length input))).1
  | OAcquire h pid g s force => (acquire_controlling_terminal t h pid g s force).1
  | ODetach h s => (detach t h s).1
  | OSetForeground h s g => (set_foreground_group t h s g).1
  | OSetTermios h v => (set_termios t h v).1
  | OSetWindow h v => (set_window t h v).1.1
  | OSetMode number m => (set_mode t number m).1
  end.

Definition op_ok (o : op) : Prop :=
  match o with
  | OSetLocked h _ | ORetain h _ | ORelease h _ | OAcquire h _ _ _ _ | ODetach h _
  | OSetForeground h _ _ | OSetWindow h _ => handle_ok h
  | OWrite h _ input => handle_ok h /\ Z.of_nat (length input) < 2 ^ 32
  | OSetTermios h v => handle_ok h /\ length (control v) = 19%nat
  | ORead h _ count => handle_ok h /\ in_u 32 count
  | OOpenSlave number => in_u 8 number
  | OSetMode number m => in_u 8 number /\ in_u 16 m
  | OOpenMaster | OOpenControlling _ => True
  end.

Lemma pty_initial_inv : inv initial.
Proof.
  split; [apply length_replicate|]. intros i p [-> _]%lookup_replicate.
  split; simpl; try done; apply bq_fresh_wf.
Qed.

Lemma pty_inv_insert t i p : inv t -> pty_ok p -> inv (<[i := p]> t).
Proof.
  intros [Hl Hp] Hok. split; [by rw length_insert|].
  intros j q. rw list_lookup_insert. case_decide; [by intros [= <-]|by apply Hp].
Qed.

Lemma inv_lookup_total t i : inv t -> (i < length t)%nat -> t !! i = Some (t !!! i) /\ pty_ok (t !!! i).
Proof.
  intros Hinv Hi. assert (t !! i = Some (t !!! i)) by by apply list_lookup_lookup_total_lt.
  split; [done|by eapply inv_ptys].
Qed.

Lemma pty_find_live t h i :
  inv t -> handle_ok h -> find t h = Some i ->
  pty_ok (t !!! i) /\ used (t !!! i) = true /\ pgeneration (t !!! i) = generation h /\
  (i < length t)%nat /\ i = Z.to_nat (slot h).
Proof.
  intros Hinv [_ Hh]. unfold find. case_match eqn:Hc; [done|].
  case_match eqn:Hu; [|done]. intros [= <-].
  apply andb_true_iff in Hu as [Hu Hg].
  assert (Z.to_nat (slot h) < length t)%nat by (rw (inv_length t Hinv); word).
  split_and!; [by apply inv_lookup_total|done|lia|done|done].
Qed.

(** ** The output discipline: what a slave writes *)

Definition expand (translate : bool) (character : Z) : list Z :=
  if translate && (character =? 10) then [13; 10] else [character].

Lemma slave_step_write translate ring character :
  bq_wf ring ->
  Z.of_nat (length (expand translate character)) <= BufferCapacity - Z.of_nat (length (bq_contents ring)) ->
  let ring' := (bq_write ring (expand translate character)
                 (Z.of_nat (length (expand translate character)))).1 in
  bq_wf ring' /\ bq_contents ring' = bq_contents ring ++ expand translate character.
Proof.
  intros Hwf Hroom ring'. destruct (bq_write ring _ _) as [r n] eqn:Hw. subst ring'. simpl.
  apply bq_write_spec in Hw as (Hwf' & -> & ->); [|done|lia]. split; [done|].
  rw take_ge //. lia.
Qed.

(** From [ring], the bytes of [input] up to some point have been appended,
    expanded, and the next one, if any, does not fit. *)
Definition slave_progress (translate : bool) (ring : Q) (input : list Z) (consumed : Z)
    (ring' : Q) (consumed' : Z) : Prop :=
  bq_wf ring' /\
  exists written rest, input = written ++ rest /\ consumed' = consumed + Z.of_nat (length written) /\
    bq_contents ring' = bq_contents ring ++ (written ≫= expand translate) /\
    (forall c rest', rest = c :: rest' ->
       BufferCapacity - Z.of_nat (length (bq_contents ring')) < Z.of_nat (length (expand translate c))).

Lemma slave_progress_stop translate ring c input consumed :
  bq_wf ring ->
  BufferCapacity - Z.of_nat (length (bq_contents ring)) < Z.of_nat (length (expand translate c)) ->
  slave_progress translate ring (c :: input) consumed ring consumed.
Proof.
  intros Hwf Hroom. split; [done|]. exists [], (c :: input).
  split_and!; [done|simpl; lia|by rw /= app_nil_r|]. by intros c' rest' [= <- <-].
Qed.

Lemma slave_progress_step translate ring c input consumed ring1 ring' consumed' :
  bq_contents ring1 = bq_contents ring ++ expand translate c ->
  slave_progress translate ring1 input (consumed + 1) ring' consumed' ->
  slave_progress translate ring (c :: input) consumed ring' consumed'.
Proof.
  intros Hc (Hwf & d & rest & -> & -> & Hcont & Hrest). split; [done|].
  exists (c :: d), rest. split_and!; [done|simpl; lia| |done].
  by rw Hcont Hc /= app_assoc.
Qed.

Lemma slave_loop_spec translate input : forall ring consumed ring' consumed',
  bq_wf ring -> 0 <= consumed -> consumed + Z.of_nat (length input) < 2 ^ 32 ->
  slave_loop translate ring input consumed = (ring', consumed') ->
  slave_progress translate ring input consumed ring' consumed'.
Proof.
  induction input as [|c input IH]; intros ring consumed ring' consumed' Hwf Hc Hlen; simpl.
  { intros [= <- <-]. split; [done|]. exists [], [].
    split_and!; [done|simpl; lia|by rw /= app_nil_r|done]. }
  simpl in Hlen. pose proof (bq_bounded ring Hwf).
  pose proof (slave_step_write translate ring c Hwf) as Hstep.
  pose proof (slave_progress_stop translate ring c input consumed Hwf) as Hstop.
  pose proof (slave_progress_step translate ring c input consumed) as Hgo.
  unfold expand in Hstep, Hstop, Hgo. rewrite -> (wrap_small 32 (consumed + 1)) by word.
  rw (bq_full_spec ring Hwf) (bq_free_space_spec ring Hwf).
  destruct (translate && (c =? 10)); simpl in *; case_match eqn:Hroom.
  - intros [= <- <-]. apply Hstop. lia.
  - destruct Hstep as [Hwf1 Hc1]; [lia|]. intros Hl. eapply Hgo; [done|]. apply IH; [done|lia..|done].
  - intros [= <- <-]. apply bool_decide_eq_true in Hroom. apply Hstop. lia.
  - apply bool_decide_eq_false in Hroom. destruct Hstep as [Hwf1 Hc1]; [lia|].
    intros Hl. eapply Hgo; [done|]. apply IH; [done|lia..|done].
Qed.

(** ** The input discipline: what a master writes *)

Record ALine := mkLine { l_input : list Z; l_output : list Z; l_signals : Z }.

(** One input byte under the termios settings [t], on unbounded lists cut at
    the buffer capacity; [None] when the byte does not fit. *)
Definition line_step (t : TermiosState) (l : ALine) (c : Z) : option ALine :=
  let signal := signal_of t c in
  if decide (signal = 0) then
    if decide (Z.of_nat (length (l_input l)) = BufferCapacity) then None
    else Some (mkLine (l_input l ++ [c]) (l_output l) (l_signals l))
  else
    let l := if has_flag (local_flags t) noflsh then l else mkLine [] [] (l_signals l) in
    Some (mkLine (l_input l) (take (Z.to_nat BufferCapacity) (l_output l ++ echo_of t c))
            (Z.lor (l_signals l) (Signal.bit signal))).

Fixpoint line_run (t : TermiosState) (l : ALine) (input : list Z) : ALine * nat :=
  match input with
  | [] => (l, 0%nat)
  | c :: rest =>
      match line_step t l c with
      | None => (l, 0%nat)
      | Some l' => let '(l2, n) := line_run t l' rest in (l2, S n)
      end
  end.

Definition line_of (p : Pty) (signals : Z) : ALine :=
  mkLine (bq_contents (master_to_slave p)) (bq_contents (slave_to_master p)) signals.

(** The fields the line discipline leaves alone. *)
Definition same_frame (p p' : Pty) : Prop :=
  termios_ p' = termios_ p /\ window_ p' = window_ p /\ session_ p' = session_ p /\
  foreground_group_ p' = foreground_group_ p /\ pgeneration p' = pgeneration p /\
  masters p' = masters p /\ slaves p' = slaves p /\ mode_ p' = mode_ p /\
  used p' = used p /\ locked p' = locked p.

Lemma write_bounded r bytes :
  bq_wf r ->
  let r' := (bq_write r bytes (Z.of_nat (length bytes))).1 in
  bq_wf r' /\ bq_contents r' = take (Z.to_nat BufferCapacity) (bq_contents r ++ bytes).
Proof.
  intros Hwf r'. pose proof (bq_bounded r Hwf).
  destruct (bq_write r bytes _) as [q n] eqn:Hw. subst r'. simpl.
  apply bq_write_spec in Hw as (Hwf' & -> & ->); [|done|lia]. split; [done|].
  rw take_app (take_ge (bq_contents r)); [lia|]. f_equal.
  destruct (decide (Z.of_nat (length bytes) <= BufferCapacity - Z.of_nat (length (bq_contents r)))).
  - rw !take_ge //; lia.
  - f_equal. lia.
Qed.

Lemma tty_signal_spec pty c :
  bq_wf (master_to_slave pty) -> bq_wf (slave_to_master pty) ->
  let pty' := tty_signal pty c in
  let keep := has_flag (local_flags (termios_ pty)) noflsh in
  bq_wf (master_to_slave pty') /\ bq_wf (slave_to_master pty') /\ same_frame pty pty' /\
  bq_contents (master_to_slave pty') = (if keep then bq_contents (master_to_slave pty) else []) /\
  bq_contents (slave_to_master pty') = take (Z.to_nat BufferCapacity)
    ((if keep then bq_contents (slave_to_master pty) else []) ++ echo_of (termios_ pty) c).
Proof.
  intros Hi Ho pty' keep. subst pty'. unfold tty_signal. fold keep.
  pose proof (bq_clear_spec _ Hi) as [Hi' Hci]. pose proof (bq_clear_spec _ Ho) as [Ho' Hco].
  set (p1 := if negb keep then _ else pty).
  assert (bq_wf (master_to_slave p1) /\ bq_wf (slave_to_master p1) /\ same_frame pty p1 /\
    bq_contents (master_to_slave p1) = (if keep then bq_contents (master_to_slave pty) else []) /\
    bq_contents (slave_to_master p1) = (if keep then bq_contents (slave_to_master pty) else []))
    as (Hi1 & Ho1 & Hf1 & Hci1 & Hco1) by by (subst p1; destruct keep).
  rw -Hco1. clearbody p1. pose proof (write_bounded _ (echo_of (termios_ pty) c) Ho1) as [Hw Hcw].
  pose proof (bq_bounded _ Ho1) as Hb. destruct (has_flag (local_flags (termios_ pty)) echo) eqn:He;
    [split_and!; [done|done|exact Hf1|done|exact Hcw]|].
  split_and!; [done..|]. unfold echo_of. rw He app_nil_r take_ge //. lia.
Qed.

(** Progress of the master's loop, against the list specification. *)
Definition master_progress (pty : Pty) (input : list Z) (consumed generated : Z)
    (out : Pty * Z * Z) : Prop :=
  let '(pty', consumed', generated') := out in
  bq_wf (master_to_slave pty') /\ bq_wf (slave_to_master pty') /\ same_frame pty pty' /\
  exists n, line_run (termios_ pty) (line_of pty generated) input = (line_of pty' generated', n) /\
    consumed' = consumed + Z.of_nat n.

Lemma same_frame_trans p1 p2 p3 : same_frame p1 p2 -> same_frame p2 p3 -> same_frame p1 p3.
Proof. unfold same_frame. intuition congruence. Qed.

Lemma master_progress_step pty c input consumed generated pty1 generated1 out :
  same_frame pty pty1 ->
  line_step (termios_ pty) (line_of pty generated) c = Some (line_of pty1 generated1) ->
  master_progress pty1 input (consumed + 1) generated1 out ->
  master_progress pty (c :: input) consumed generated out.
Proof.
  intros Hf Hs. destruct out as [[pty' consumed'] generated'].
  intros (Hi & Ho & Hf' & n & Hn & ->). split_and!; [done..|by eapply same_frame_trans|].
  exists (S n). split; [|lia]. simpl. rw Hs. assert (termios_ pty1 = termios_ pty) as E by apply Hf.
  rw E in Hn. by rw Hn.
Qed.

Lemma master_loop_spec input : forall pty consumed generated,
  bq_wf (master_to_slave pty) -> bq_wf (slave_to_master pty) ->
  0 <= consumed -> consumed + Z.of_nat (length input) < 2 ^ 32 ->
  master_progress pty input consumed generated (master_loop pty input consumed generated).
Proof.
  assert (Hstay : forall pty consumed generated l, bq_wf (master_to_slave pty) ->
    bq_wf (slave_to_master pty) -> line_run (termios_ pty) (line_of pty generated) l = (line_of pty generated, 0%nat) ->
    master_progress pty l consumed generated (pty, consumed, generated)).
  { intros. split_and!; [done..|]. exists 0%nat. split; [done|lia]. }
  induction input as [|c input IH]; intros pty consumed generated Hi Ho Hc Hlen; cbn [master_loop].
  { by apply Hstay. }
  simpl in Hlen. rewrite -> (wrap_small 32 (consumed + 1)) by word. rw (bq_full_spec _ Hi).
  pose proof (bq_bounded _ Hi) as Hb.
  destruct (Z.eqb_spec (signal_of (termios_ pty) c) 0) as [Hs|Hs].
  - destruct (bool_decide _) eqn:Hfull.
    + apply bool_decide_eq_true in Hfull. apply Hstay; [done..|].
      by rw /= /line_step decide_True //= decide_True.
    + apply bool_decide_eq_false in Hfull.
      pose proof (write_bounded _ [c] Hi) as [Hwf1 Hc1].
      rewrite -> take_ge in Hc1 by (rw length_app /=; lia).
      apply master_progress_step with
        (pty1 := pty <| master_to_slave ::= fun r => (bq_write r [c] 1).1 |>) (generated1 := generated);
        [done| |apply IH; [done|done|lia|lia]].
      rw /line_step decide_True //= decide_False // /line_of /=. by rw -Hc1.
  - pose proof (tty_signal_spec pty c Hi Ho) as (Hi1 & Ho1 & Hf1 & Hci & Hco).
    eapply master_progress_step; [exact Hf1| |apply IH; [done|done|lia|lia]].
    rw /line_step decide_False //= /line_of Hci Hco. by destruct (has_flag _ noflsh).
Qed.

(** ** Every operation preserves the invariant *)

Lemma pty_set_refs_ok p e n :
  pty_ok p -> used p = true -> in_u 16 n -> 0 < masters (set_refs p e n) + slaves (set_refs p e n) ->
  pty_ok (set_refs p e n).
Proof. intros [] Hu Hn Hpos. by destruct e; split; simpl in *; try congruence; naive_solver. Qed.

Lemma pty_refs_in_u p e : pty_ok p -> in_u 16 (refs p e).
Proof. intros []. by destruct e. Qed.

Lemma frame_ok p p' :
  pty_ok p -> bq_wf (master_to_slave p') -> bq_wf (slave_to_master p') -> same_frame p p' -> pty_ok p'.
Proof.
  intros [] ? ? (E1 & _ & E3 & _ & E5 & E6 & E7 & E8 & E9 & _).
  split; rw ?E1 ?E3 ?E5 ?E6 ?E7 ?E8 ?E9 //.
Qed.

(** Settings of a live terminal may change freely. *)
Lemma settings_ok p p' :
  pty_ok p -> used p = true ->
  (master_to_slave p', slave_to_master p', pgeneration p', masters p', slaves p', used p') =
  (master_to_slave p, slave_to_master p, pgeneration p, masters p, slaves p, used p) ->
  length (control (termios_ p')) = 19%nat -> in_u 12 (mode_ p') -> pty_ok p'.
Proof. intros [] Hu [= E1 E2 E3 E4 E5 E6] Ht Hm. split; rw ?E1 ?E2 ?E3 ?E4 ?E5 ?E6 //; congruence. Qed.

Lemma open_master_inv t : inv t -> inv (open_master t).1.
Proof.
  intros Hinv. unfold open_master. destruct (first_slot _ t) as [i|] eqn:Hf; [|done].
  apply first_slot_Some in Hf as (p & Hi & _). pose proof (inv_ptys t Hinv _ _ Hi) as Hok.
  apply pty_inv_insert; [done|]. rw (list_lookup_total_correct _ _ _ Hi). destruct Hok.
  split; simpl; try done; try apply bq_fresh_wf; case_match; word.
Qed.

Lemma attach_slave_inv t i :
  inv t -> (i < length t)%nat -> used (t !!! i) = true -> inv (attach_slave t i).1.
Proof.
  intros Hinv Hi Hu. unfold attach_slave. destruct (inv_lookup_total t i Hinv Hi) as [_ Hok].
  case_match; [done|]. case_match; [done|]. apply pty_inv_insert; [done|].
  apply (pty_set_refs_ok _ slave); [done..| |]; destruct Hok; simpl; word.
Qed.

Lemma open_slave_inv t n : inv t -> in_u 8 n -> inv (open_slave t n).1.
Proof.
  intros Hinv Hn. unfold open_slave. case_match eqn:Hc; [done|].
  apply orb_false_iff in Hc as [Hlt Hu%negb_false_iff].
  apply attach_slave_inv; [done| |done]. rw (inv_length t Hinv). word.
Qed.

Lemma open_controlling_inv t s : inv t -> inv (open_controlling_slave t s).1.
Proof.
  intros Hinv. unfold open_controlling_slave. case_match; [done|].
  destruct (first_slot _ t) as [i|] eqn:Hf; [|done].
  apply first_slot_Some in Hf as (p & Hi & [Hu _]%andb_true_iff & _).
  apply attach_slave_inv; [done|by eapply lookup_lt_Some|].
  by rw (list_lookup_total_correct _ _ _ Hi).
Qed.

Lemma retain_inv t h e : inv t -> handle_ok h -> inv (retain t h e).1.
Proof.
  intros Hinv Hh. unfold retain. destruct (find t h) as [i|] eqn:Hf; [|done].
  apply pty_find_live in Hf as (Hok & Hu & _); [|done..]. pose proof (pty_refs_in_u _ e Hok) as Hr.
  case_match; [done|]. case_match; [done|]. apply pty_inv_insert; [done|].
  apply pty_set_refs_ok; [done..|word|]. destruct Hok, e; simpl in *; word.
Qed.

Lemma release_inv t h e : inv t -> handle_ok h -> inv (release t h e).1.
Proof.
  intros Hinv Hh. unfold release. destruct (find t h) as [i|] eqn:Hf; [|done].
  apply pty_find_live in Hf as (Hok & Hu & _); [|done..]. pose proof (pty_refs_in_u _ e Hok) as Hr.
  case_match; [done|]. apply pty_inv_insert; [done|].
  set (p1 := set_refs _ e _).
  destruct ((masters p1 =? 0) && (slaves p1 =? 0)) eqn:Hz.
  - destruct Hok. split; simpl; try done; try apply bq_fresh_wf. by destruct e.
  - apply pty_set_refs_ok; [done..|word|fold p1]. destruct Hok, e; simpl in *; word.
Qed.

Lemma read_inv t h e n : inv t -> handle_ok h -> in_u 32 n -> inv (read t h e n).1.1.
Proof.
  intros Hinv Hh Hn. unfold read. destruct (find t h) as [i|] eqn:Hf; [|done].
  apply pty_find_live in Hf as (Hok & Hu & _); [|done..].
  case_match; [done|]. case_match; [done|]. case_match; [|done].
  destruct (bq_read _ n) as [r out] eqn:Hr. simpl. apply pty_inv_insert; [done|].
  pose proof (ok_input _ Hok). pose proof (ok_output _ Hok).
  apply bq_read_spec in Hr as [Hwf _]; [|by destruct e|word].
  apply (frame_ok (t !!! i)); [done|by destruct e..].
Qed.

Lemma write_inv t h e input :
  inv t -> handle_ok h -> Z.of_nat (length input) < 2 ^ 32 ->
  inv (write t h e input (Z.of_nat (length input))).1.
Proof.
  intros Hinv Hh Hn. unfold write. destruct (find t h) as [i|] eqn:Hf; [|done].
  apply pty_find_live in Hf as (Hok & Hu & _); [|done..].
  pose proof (ok_input _ Hok). pose proof (ok_output _ Hok).
  case_match; [done|]. case_match; [done|]. case_match; [done|].
  rewrite -> take_ge by lia. destruct e.
  - pose proof (master_loop_spec input (t !!! i) 0 0) as Hm.
    destruct (master_loop _ _ _ _) as [[p n] g]. apply pty_inv_insert; [done|].
    destruct Hm as (Hi & Ho & Hfr & _); [done|done|lia|lia|]. by eapply frame_ok.
  - destruct (slave_loop _ _ _ _) as [r n] eqn:Hs. apply pty_inv_insert; [done|].
    apply slave_loop_spec in Hs as [Hr _]; [|done|lia|lia]. by apply (frame_ok (t !!! i)).
Qed.

Lemma set_mode_inv t n m : inv t -> in_u 8 n -> in_u 16 m -> inv (set_mode t n m).1.
Proof.
  intros Hinv Hn Hm. unfold set_mode. destruct (active t n) eqn:Ha; [simpl|done].
  apply andb_true_iff in Ha as [Hlt Hu].
  destruct (inv_lookup_total t (Z.to_nat n) Hinv) as [_ Hok]; [rw (inv_length t Hinv); word|].
  apply pty_inv_insert; [done|]. apply (settings_ok (t !!! Z.to_nat n)); try done.
  - by destruct Hok.
  - simpl. change 4095 with (Z.ones 12). rewrite -> Z.land_ones by lia. word.
Qed.

Lemma pty_step_inv t o : inv t -> op_ok o -> inv (step t o).
Proof.
  intros Hinv Ho.
  assert (Hset : forall h i p', handle_ok h -> find t h = Some i ->
    (master_to_slave p', slave_to_master p', pgeneration p', masters p', slaves p', used p', mode_ p') =
    (master_to_slave (t !!! i), slave_to_master (t !!! i), pgeneration (t !!! i),
     masters (t !!! i), slaves (t !!! i), used (t !!! i), mode_ (t !!! i)) ->
    (length (control (termios_ (t !!! i))) = 19%nat -> length (control (termios_ p')) = 19%nat) ->
    inv (<[i := p']> t)).
  { intros h i p' Hh (Hok & Hu & _)%pty_find_live [= E1 E2 E3 E4 E5 E6 E7] Hlen; [|done..].
    apply pty_inv_insert; [done|]. destruct Hok eqn:E. apply (settings_ok (t !!! i)); [done..|congruence|auto|congruence]. }
  destruct o as [|h ?|n|s|h e|h e|h e n|h e input|h pid g s force|h s|h s g|h v|h v|n m]; simpl in *;
    [by apply open_master_inv| |by apply open_slave_inv|by apply open_controlling_inv
    |by apply retain_inv|by apply release_inv|by apply read_inv; naive_solver|by apply write_inv; naive_solver
    | | | | | |by apply set_mode_inv; naive_solver];
    unfold set_locked, acquire_controlling_terminal, detach, set_foreground_group, set_termios, set_window;
    destruct (find t h) as [i|] eqn:Hf; try done; repeat (case_match; try done);
    (eapply Hset; [|exact Hf|done|]); naive_solver.
Qed.

(** Every sequence of pseudo-terminal operations on a fresh table keeps
    the table well formed: both byte queues valid, reference counts within 16
    bits, a terminal in use exactly as long as an end of it is open, control
    characters and mode within their ranges. *)
Theorem pty_table_invariant ops :
  Forall op_ok ops -> inv (fold_left step ops initial).
Proof.
  intros Hops. pose proof pty_initial_inv as H0. revert H0. generalize initial.
  induction Hops as [|o ops Ho Hops IH]; intros t Ht; simpl; [done|]. by apply IH, pty_step_inv.
Qed.

(** Slave output: a successful write consumes a prefix of the bytes,
    queues for the master exactly that prefix with every newline expanded to
    CR-LF when OPOST and ONLCR are set, and stops only where the expansion of
    the next byte does not fit; it would block when not even one byte fits. *)
Theorem pty_slave_write_spec t h i input t' r :
  inv t -> handle_ok h -> find t h = Some i ->
  slaves (t !!! i) <> 0 -> masters (t !!! i) <> 0 ->
  0 < Z.of_nat (length input) < 2 ^ 32 ->
  write t h slave input (Z.of_nat (length input)) = (t', r) ->
  exists written rest,
    input = written ++ rest /\
    io_size r = Z.of_nat (length written) /\
    io_status r = (match written with [] => would_block | _ => success end) /\
    t' !!! i = (t !!! i) <| slave_to_master := slave_to_master (t' !!! i) |> /\
    bq_contents (slave_to_master (t' !!! i)) =
      bq_contents (slave_to_master (t !!! i)) ++
      (written ≫= expand (translate_newline (termios_ (t !!! i)))) /\
    (forall c rest', rest = c :: rest' ->
       BufferCapacity - Z.of_nat (length (bq_contents (slave_to_master (t' !!! i)))) <
       Z.of_nat (length (expand (translate_newline (termios_ (t !!! i))) c))).
Proof.
  intros Hinv Hh Hf Hs Hm Hlen Hw. pose proof (pty_find_live t h i Hinv Hh Hf) as (Hok & _ & _ & Hi & _).
  unfold write in Hw. rw Hf /= in Hw. rewrite -> take_ge in Hw by lia.
  rewrite -> !(proj2 (Z.eqb_neq _ _)) in Hw by lia.
  destruct (slave_loop _ _ _ _) as [ring n] eqn:Hl. injection Hw as <- <-.
  apply slave_loop_spec in Hl as (_ & written & rest & -> & -> & Hc & Hrest); [|apply Hok|lia|lia].
  exists written, rest. rw list_lookup_total_insert_eq //=.
  by destruct written; simpl in *; split_and!.
Qed.

(** One master write, as a run of the line discipline. *)
Lemma master_write_run t h i input t' r :
  inv t -> handle_ok h -> find t h = Some i ->
  masters (t !!! i) <> 0 -> slaves (t !!! i) <> 0 ->
  0 < Z.of_nat (length input) < 2 ^ 32 ->
  write t h master input (Z.of_nat (length input)) = (t', r) ->
  exists n,
    line_run (termios_ (t !!! i)) (line_of (t !!! i) 0) input =
      (line_of (t' !!! i) (generated_signals r), n) /\
    io_size r = Z.of_nat n /\
    io_status r = (match n with O => would_block | _ => success end) /\
    same_frame (t !!! i) (t' !!! i).
Proof.
  intros Hinv Hh Hf Hm Hs Hlen Hw. pose proof (pty_find_live t h i Hinv Hh Hf) as (Hok & _ & _ & Hi & _).
  unfold write in Hw. rw Hf /= in Hw. rewrite -> take_ge in Hw by lia.
  rewrite -> !(proj2 (Z.eqb_neq _ _)) in Hw by lia.
  pose proof (master_loop_spec input (t !!! i) 0 0 (ok_input _ Hok) (ok_output _ Hok)) as Hl.
  destruct (master_loop _ _ _ _) as [[pty n] g]. injection Hw as <- <-.
  destruct Hl as (_ & _ & Hfr & k & Hrun & ->); [lia|lia|].
  exists k. rw list_lookup_total_insert_eq //. rw Hrun.
  destruct k; simpl; split_and!; done.
Qed.

(** Master input: a write to the master refines the line discipline
    [line_run] on plain lists: ordinary bytes are queued for the slave while
    they fit, a signal character (VINTR, VQUIT, VSUSP under ISIG) is consumed,
    flushes both queues unless NOFLSH, is echoed when ECHO is set, and its
    signal is reported; nothing else of the terminal changes. *)
Theorem pty_master_write_spec t h i input t' r :
  inv t -> handle_ok h -> find t h = Some i ->
  masters (t !!! i) <> 0 -> slaves (t !!! i) <> 0 ->
  0 < Z.of_nat (length input) < 2 ^ 32 ->
  write t h master input (Z.of_nat (length input)) = (t', r) ->
  exists n,
    line_run (termios_ (t !!! i)) (line_of (t !!! i) 0) input =
      (line_of (t' !!! i) (generated_signals r), n) /\
    io_size r = Z.of_nat n /\
    io_status r = (match n with O => would_block | _ => success end) /\
    same_frame (t !!! i) (t' !!! i).
Proof. apply master_write_run. Qed.

Lemma signal_of_range t c : signal_of t c = 0 \/ 1 <= signal_of t c <= 64.
Proof. unfold signal_of. repeat case_match; vm_compute; intuition congruence. Qed.

Lemma line_run_signals t input : forall l l' n x,
  line_run t l input = (l', n) -> 1 <= x <= 64 ->
  Signal.mem (l_signals l') x =
  Signal.mem (l_signals l) x || existsb (fun c => signal_of t c =? x) (take n input).
Proof.
  induction input as [|c input IH]; intros l l' n x; simpl.
  { intros [= <- <-] _. by rw orb_false_r. }
  destruct (line_step t l c) as [l1|] eqn:Hs; [|intros [= <- <-] _; by rw orb_false_r].
  destruct (line_run t l1 input) as [l2 k] eqn:Hr. intros [= <- <-] Hx.
  rw (IH _ _ _ _ Hr Hx) /= orb_assoc. f_equal. unfold line_step in Hs.
  case_decide as Hz; [case_decide; simplify_eq/=; rw (proj2 (Z.eqb_neq _ _)) ?orb_false_r //; lia|].
  simplify_eq/=. destruct (signal_of_range t c) as [?|Hc]; [done|].
  rw Signal.mem_lor Signal.mem_bit // (Z.eqb_sym x). by destruct (has_flag _ noflsh).
Qed.

(** C28: The signal set a master write reports is exact: it holds a signal if
    and only if one of the consumed bytes generates that signal. *)
Theorem pty_signals_exact t h i input t' r x :
  inv t -> handle_ok h -> find t h = Some i ->
  masters (t !!! i) <> 0 -> slaves (t !!! i) <> 0 ->
  0 < Z.of_nat (length input) < 2 ^ 32 -> 1 <= x <= 64 ->
  write t h master input (Z.of_nat (length input)) = (t', r) ->
  Signal.mem (generated_signals r) x =
  existsb (fun c => signal_of (termios_ (t !!! i)) c =? x) (take (Z.to_nat (io_size r)) input).
Proof.
  intros Hinv Hh Hf Hm Hs Hlen Hx Hw.
  destruct (master_write_run t h i input t' r) as (n & Hrun & Hn & _); [done..|].
  apply (line_run_signals _ _ _ _ _ x) in Hrun; [|done]. simpl in Hrun.
  by rw Hrun Hn Nat2Z.id /Signal.mem Z.bits_0.
Qed.
End table.

(** ** The kernel's table, [PtyTable<4>], on concrete runs *)

#[local] Instance kernel_ring : ByteQueue Ring.RingBuffer := Ring.ring_queue 4096.
#[local] Instance kernel_ring_laws : ByteQueueLaws Ring.RingBuffer 4096.
Proof. apply Ring.ring_queue_laws. lia. Defined.

Definition h0 : PtyHandle := mkHandle 1 0.

Definition sample_ops : list op := [OOpenMaster; OSetLocked h0 false; OOpenSlave 0].

Definition sample_state : list Pty := fold_left (step 4) sample_ops (initial 4).

Lemma h0_ok : handle_ok h0.
Proof. split; vm_compute; intuition congruence. Qed.

Lemma sample_ops_ok : Forall op_ok sample_ops.
Proof. repeat constructor; try apply h0_ok; vm_compute; congruence. Qed.

Lemma pty_sample_state_inv : inv 4 4096 sample_state.
Proof.
  unfold sample_state. pose proof (pty_initial_inv 4 4096) as H0. revert H0. generalize (initial 4).
  induction sample_ops_ok as [|o ops Ho Hops IH]; intros t Ht; simpl; [done|].
  apply IH, pty_step_inv; [lia|done..].
Qed.

Lemma pty_table_invariant_witness : inv 4 4096 (fold_left (step 4) sample_ops (initial 4)).
Proof. apply (pty_table_invariant 4 4096 ltac:(lia) sample_ops). exact sample_ops_ok. Defined.

Lemma pty_slave_write_spec_witness :
  let out := write 4 sample_state h0 slave [72; 10; 73] 3 in
  exists written rest, [72; 10; 73] = written ++ rest /\ io_size out.2 = Z.of_nat (length written) /\
    bq_contents (slave_to_master (out.1 !!! 0%nat)) =
    bq_contents (slave_to_master (sample_state !!! 0%nat)) ++ (written ≫= expand true).
Proof.
  intros out.
  destruct (pty_slave_write_spec 4 4096 ltac:(lia) sample_state h0 0 [72; 10; 73] out.1 out.2)
    as (w & rest & H1 & H2 & _ & _ & H3 & _).
  - exact pty_sample_state_inv.
  - exact h0_ok.
  - vm_compute. reflexivity.
  - vm_compute. congruence.
  - vm_compute. congruence.
  - simpl. lia.
  - apply surjective_pairing.
  - exists w, rest. split_and!; [exact H1|exact H2|exact H3].
Defined.

Lemma pty_master_write_spec_witness :
  let out := write 4 sample_state h0 master [108; 115; 3; 100] 4 in
  exists n, line_run 4096 termios_default (mkLine [] [] 0) [108; 115; 3; 100] =
    (line_of 4096 (out.1 !!! 0%nat) (generated_signals out.2), n) /\
  bq_contents (master_to_slave (out.1 !!! 0%nat)) = [100].
Proof.
  intros out.
  destruct (pty_master_write_spec 4 4096 ltac:(lia) sample_state h0 0 [108; 115; 3; 100] out.1 out.2)
    as (n & H1 & _).
  - exact pty_sample_state_inv.
  - exact h0_ok.
  - vm_compute. reflexivity.
  - vm_compute. congruence.
  - vm_compute. congruence.
  - simpl. lia.
  - apply surjective_pairing.
  - exists n. split; [exact H1|vm_compute; reflexivity].
Defined.

Lemma pty_signals_exact_witness :
  Signal.mem (generated_signals (write 4 sample_state h0 master [108; 115; 3; 100] 4).2)
    Signal.signal_interrupt = true.
Proof.
  rw (pty_signals_exact 4 4096 ltac:(lia) sample_state h0 0 [108; 115; 3; 100]
    (write 4 sample_state h0 master [108; 115; 3; 100] 4).1
    (write 4 sample_state h0 master [108; 115; 3; 100] 4).2 Signal.signal_interrupt).
  - exact pty_sample_state_inv.
  - exact h0_ok.
  - vm_compute. reflexivity.
  - vm_compute. congruence.
  - vm_compute. congruence.
  - simpl. lia.
  - vm_compute. intuition congruence.
  - apply surjective_pairing.
  - vm_compute. reflexivity.
Defined.
End PtyTable.
