(* ===== verification/Process.v ===== *)
(** * [include/mikos/process/model.hpp]: the process table

    [ProcessTable] models [ProcessTable<Capacity>]; a [ProcessRecord*] is the
    index of its slot, so writes through two pointers that alias hit the same
    record. *)

From S2P Require Import Prelude Signal.
Local Open Scope Z_scope.

Module Process.

Definition invalid_pid := 0.

Record ProcessLineage := mkLineage { l_pid : Z; l_parent_pid : Z }.

Definition fork_lineage (parent : ProcessLineage) (child_pid : Z) : ProcessLineage :=
  mkLineage child_pid (l_pid parent).

Definition connection_wait_can_yield_to_uart (nested_depth : Z) : bool := nested_depth =? 0.

Definition pty_child_can_park (child_already_parked parent_active slave_endpoint : bool) : bool :=
  negb child_already_parked && parent_active && slave_endpoint.

Definition pty_child_can_resume (child_parked : bool) (current_pid child_parent_pid : Z)
    (parent_active slave_readable wait_interrupted : bool) (relay_service_pid : Z) : bool :=
  let correct_resumer :=
    (current_pid =? child_parent_pid) ||
    (negb (relay_service_pid =? invalid_pid) && (current_pid =? relay_service_pid)) in
  child_parked && correct_resumer && negb parent_active && (slave_readable || wait_interrupted).

Inductive ProcessState := free | runnable | running | waiting | vfork_wait | stopped | zombie.

Inductive ProcessStatus :=
  success | no_process | no_child | would_block | no_space | invalid_argument | permission_denied.

Inductive WaitKind := wait_any | wait_pid | wait_process_group.

Record WaitSelector := mkSelector { kind : WaitKind; value : Z }.

#[global] Instance process_state_eq_dec : EqDecision ProcessState.
Proof. solve_decision. Defined.
#[global] Instance process_status_eq_dec : EqDecision ProcessStatus.
Proof. solve_decision. Defined.

Record ProcessRecord := mkProcess {
  state : ProcessState;
  pid : Z;
  parent : Z;
  process_group : Z;
  session : Z;
  exit_status : Z;
  vfork_parent : Z;
  executed : bool;
  address_space : bool;
  signals : Signal.SignalState;
}.
#[global] Instance process_eta : Eta ProcessRecord := fun r =>
  mkProcess (state r) (pid r) (parent r) (process_group r) (session r) (exit_status r)
    (vfork_parent r) (executed r) (address_space r) (signals r).

(** [ProcessRecord{}]. *)
Definition record_default : ProcessRecord :=
  mkProcess free 0 0 0 0 0 0 false false Signal.initial.
#[global] Instance process_inhabited : Inhabited ProcessRecord := populate record_default.

Record ForkResult := fork_result {
  f_status : ProcessStatus; parent_result : Z; child_result : Z; child : Z }.
Record WaitResult := wait_result { w_status : ProcessStatus; w_pid : Z; status_word : Z }.

Record ProcessTable := mkTable { records_ : list ProcessRecord; next_pid_ : Z }.
#[global] Instance table_eta : Eta ProcessTable := fun t => mkTable (records_ t) (next_pid_ t).

(** [state == s]. *)
Definition in_state (s : ProcessState) (r : ProcessRecord) : bool := bool_decide (state r = s).

(** The static predicate [runnable(state)]. *)
Definition can_run (s : ProcessState) : bool :=
  bool_decide (s = runnable) || bool_decide (s = running).

(** [records_[i].f = v] through a pointer. *)
Definition modify (t : ProcessTable) (i : nat) (f : ProcessRecord -> ProcessRecord) : ProcessTable :=
  t <| records_ ::= alter f i |>.

Section table.
Context (Capacity : Z).

Definition initial : ProcessTable :=
  {| records_ := replicate (Z.to_nat Capacity) record_default; next_pid_ := 1 |}.

Definition find (t : ProcessTable) (p : Z) : option nat :=
  first_slot (fun r => negb (in_state free r) && (pid r =? p)) (records_ t).

Definition free_slot (t : ProcessTable) : option nat := first_slot (in_state free) (records_ t).

Definition used (t : ProcessTable) : Z :=
  foldr (fun r n => (if in_state free r then 0 else 1) + n) 0 (records_ t).

Definition address_spaces (t : ProcessTable) : Z :=
  foldr (fun r n => (if address_space r then 1 else 0) + n) 0 (records_ t).

Definition initialize (t : ProcessTable) (p : Z) : ProcessTable * ProcessStatus :=
  if (p =? invalid_pid) || negb (used t =? 0) then (t, invalid_argument)
  else ({| records_ := <[0%nat := mkProcess running p invalid_pid p p 0 0 false true Signal.initial]>
                         (records_ t);
           next_pid_ := u32 (p + 1) |}, success).

(** The assignments to [*child]. *)
Definition fork_child (par : ProcessRecord) (parent_pid p : Z) (vfork : bool) : ProcessRecord :=
  par <| state := runnable |> <| pid := p |> <| parent := parent_pid |>
      <| exit_status := 0 |> <| vfork_parent := if vfork then parent_pid else 0 |>
      <| executed := false |> <| address_space := true |> <| signals := signals par |>.

Definition fork (t : ProcessTable) (parent_pid : Z) (vfork : bool) : ProcessTable * ForkResult :=
  match find t parent_pid with
  | None => (t, fork_result no_process 0 0 0)
  | Some pi =>
      let par := records_ t !!! pi in
      if in_state zombie par || in_state free par then (t, fork_result no_process 0 0 0) else
      match free_slot t with
      | None => (t, fork_result no_space 0 0 0)
      | Some ci =>
          if next_pid_ t =? invalid_pid then (t, fork_result no_space 0 0 0) else
          let p := next_pid_ t in
          let t := t <| next_pid_ := u32 (p + 1) |> in
          let c := fork_child par parent_pid p vfork in
          let t := modify t ci (fun _ => c) in
          let t := if vfork then modify t pi (fun r => r <| state := vfork_wait |>) else t in
          (t, fork_result success p 0 p)
      end
  end.

(** [wake_vfork_parent(records_[ci])]. *)
Definition wake_vfork_parent (t : ProcessTable) (ci : nat) : ProcessTable :=
  let v := vfork_parent (records_ t !!! ci) in
  if v =? 0 then t else
  let t := match find t v with
           | Some pi => if in_state vfork_wait (records_ t !!! pi)
                        then modify t pi (fun r => r <| state := runnable |>) else t
           | None => t
           end in
  modify t ci (fun r => r <| vfork_parent := 0 |>).

Definition reparent_children (t : ProcessTable) (exiting : Z) : ProcessTable :=
  let adopter :=
    if existsb (fun r => negb (in_state free r) && (pid r =? 1) && negb (pid r =? exiting)) (records_ t)
    then 1 else 0 in
  t <| records_ ::= fmap (fun r =>
         if negb (in_state free r) && (parent r =? exiting) then r <| parent := adopter |> else r) |>.

Definition mark_exec (t : ProcessTable) (p : Z) : ProcessTable * ProcessStatus :=
  match find t p with
  | None => (t, no_process)
  | Some i =>
      if in_state zombie (records_ t !!! i) then (t, no_process)
      else (wake_vfork_parent (modify t i (fun r => r <| executed := true |>)) i, success)
  end.

Definition exit (t : ProcessTable) (p status : Z) : ProcessTable * ProcessStatus :=
  match find t p with
  | None => (t, no_process)
  | Some i =>
      if in_state zombie (records_ t !!! i) then (t, no_process) else
      let t := modify t i (fun r => r <| exit_status := status |> <| state := zombie |>
                                      <| address_space := false |>) in
      let t := wake_vfork_parent t i in
      let t := match find t (parent (records_ t !!! i)) with
               | Some pi => if in_state waiting (records_ t !!! pi)
                            then modify t pi (fun r => r <| state := runnable |>) else t
               | None => t
               end in
      (reparent_children t p, success)
  end.

Definition matches (par c : ProcessRecord) (selector : WaitSelector) : bool :=
  match kind selector with
  | wait_any => true
  | wait_pid => pid c =? value selector
  | wait_process_group =>
      process_group c =? (if value selector =? 0 then process_group par else value selector)
  end.

(** The loop's [continue] condition, negated. *)
Definition candidate (par : ProcessRecord) (parent_pid : Z) (selector : WaitSelector)
    (c : ProcessRecord) : bool :=
  negb (in_state free c) && (parent c =? parent_pid) && matches par c selector.

Definition wait (t : ProcessTable) (parent_pid : Z) (selector : WaitSelector) (no_hang : bool)
    : ProcessTable * WaitResult :=
  match find t parent_pid with
  | None => (t, wait_result no_process 0 0)
  | Some pi =>
      let par := records_ t !!! pi in
      if in_state zombie par then (t, wait_result no_process 0 0) else
      match first_slot (fun c => candidate par parent_pid selector c && in_state zombie c) (records_ t) with
      | Some ci =>
          let c := records_ t !!! ci in
          (modify t ci (fun _ => record_default), wait_result success (pid c) (exit_status c))
      | None =>
          if negb (existsb (candidate par parent_pid selector) (records_ t))
          then (t, wait_result no_child 0 0)
          else if no_hang then (t, wait_result success 0 0)
          else (modify t pi (fun r => r <| state := waiting |>), wait_result would_block 0 0)
      end
  end.

Definition set_process_group (t : ProcessTable) (caller_pid target_pid group : Z)
    : ProcessTable * ProcessStatus :=
  match find t caller_pid with
  | None => (t, no_process)
  | Some _ =>
      let target_pid := if target_pid =? 0 then caller_pid else target_pid in
      match find t target_pid with
      | None => (t, no_process)
      | Some ti =>
          let target := records_ t !!! ti in
          if negb (target_pid =? caller_pid) && negb (parent target =? caller_pid)
          then (t, no_process)
          else if (session target =? pid target) ||
                  (negb (target_pid =? caller_pid) && executed target)
          then (t, permission_denied)
          else
            let group := if group =? 0 then target_pid else group in
            let denied :=
              negb (group =? target_pid) &&
              match find t group with
              | None => true
              | Some li => let leader := records_ t !!! li in
                  negb (process_group leader =? group) || negb (session leader =? session target)
              end in
            if denied then (t, permission_denied)
            else (modify t ti (fun r => r <| process_group := group |>), success)
      end
  end.

Definition create_session (t : ProcessTable) (p : Z) : ProcessTable * ProcessStatus :=
  match find t p with
  | None => (t, no_process)
  | Some i =>
      if process_group (records_ t !!! i) =? p then (t, permission_denied)
      else (modify t i (fun r => r <| session := p |> <| process_group := p |>), success)
  end.

Definition stop (t : ProcessTable) (p : Z) : ProcessTable * ProcessStatus :=
  match find t p with
  | None => (t, no_process)
  | Some i =>
      if in_state zombie (records_ t !!! i) then (t, no_process)
      else (modify t i (fun r => r <| state := stopped |>), success)
  end.

Definition resume (t : ProcessTable) (p : Z) : ProcessTable * ProcessStatus :=
  match find t p with
  | None => (t, no_process)
  | Some i =>
      if in_state zombie (records_ t !!! i) then (t, no_process)
      else if in_state stopped (records_ t !!! i)
           then (modify t i (fun r => r <| state := runnable |>), success)
           else (t, success)
  end.

Definition next_runnable (t : ProcessTable) (after_pid : Z) : Z :=
  let found := first_slot (fun r => (pid r =? after_pid) && negb (in_state free r)) (records_ t) in
  let after_slot := Z.of_nat (default 0%nat found) in
  match first_slot (fun offset =>
          can_run (state (records_ t !!! Z.to_nat (u32 (after_slot + offset) mod Capacity))))
          (seqZ 1 Capacity) with
  | Some k => pid (records_ t !!! Z.to_nat (u32 (after_slot + (1 + Z.of_nat k)) mod Capacity))
  | None =>
      if negb (bool_decide (is_Some found)) && can_run (state (records_ t !!! 0%nat))
      then pid (records_ t !!! 0%nat)
      else invalid_pid
  end.

(** The executable self-check of the source. *)
Definition invariant (t : ProcessTable) : bool :=
  forallb (fun i =>
    let record := records_ t !!! i in
    if in_state free record then (pid record =? 0) && negb (address_space record)
    else negb ((pid record =? 0) || (process_group record =? 0) || (session record =? 0) ||
               (in_state zombie record && address_space record)) &&
         forallb (fun j => negb (negb (in_state free (records_ t !!! j)) &&
                                 (pid (records_ t !!! j) =? pid record)))
           (seq (S i) (Z.to_nat Capacity - S i)))
    (seq 0 (Z.to_nat Capacity)).


(** ** Invariant *)

Context (Hcap : 2 <= Capacity < 2 ^ 31).

(** One past the largest pid handed out; [next_pid_] is 0 when exhausted. *)
Definition pid_limit (t : ProcessTable) : Z := if next_pid_ t =? 0 then 2 ^ 32 else next_pid_ t.

Definition record_ok (limit : Z) (r : ProcessRecord) : Prop :=
  if decide (state r = free) then pid r = 0 /\ address_space r = false
  else 0 < pid r < limit /\ process_group r <> 0 /\ session r <> 0 /\
       (state r = zombie -> address_space r = false).

Record inv (t : ProcessTable) : Prop := {
  inv_length : length (records_ t) = Z.to_nat Capacity;
  inv_next : in_u 32 (next_pid_ t);
  inv_records i r : records_ t !! i = Some r -> record_ok (pid_limit t) r;
  inv_unique i j r r' :
    records_ t !! i = Some r -> records_ t !! j = Some r' ->
    state r <> free -> state r' <> free -> pid r' = pid r -> i = j;
}.

Inductive op :=
| OInitialize (p : Z)
| OFork (parent_pid : Z) (vfork : bool)
| OExec (p : Z)
| OExit (p status : Z)
| OWait (parent_pid : Z) (selector : WaitSelector) (no_hang : bool)
| OSetGroup (caller target group : Z)
| OSession (p : Z)
| OStop (p : Z)
| OResume (p : Z).

Definition step (t : ProcessTable) (o : op) : ProcessTable :=
  match o with
  | OInitialize p => (initialize t p).1
  | OFork p v => (fork t p v).1
  | OExec p => (mark_exec t p).1
  | OExit p s => (exit t p s).1
  | OWait p sel nh => (wait t p sel nh).1
  | OSetGroup c p g => (set_process_group t c p g).1
  | OSession p => (create_session t p).1
  | OStop p => (stop t p).1
  | OResume p => (resume t p).1
  end.

(** The arguments are [u32]. *)
Definition op_ok (o : op) : Prop :=
  match o with OInitialize p => in_u 32 p | _ => True end.

Lemma in_state_spec st r : in_state st r = bool_decide (state r = st).
Proof. done. Qed.

Lemma process_initial_inv : inv initial.
Proof.
  split; simpl; [apply length_replicate|word| |].
  - by intros i r [-> _]%lookup_replicate.
  - by intros i j r r' [-> _]%lookup_replicate.
Qed.

Lemma find_spec t p i :
  inv t ->
  find t p = Some i <->
  exists r, records_ t !! i = Some r /\ state r <> free /\ pid r = p.
Proof.
  intros Hinv. unfold find. rw first_slot_Some. split.
  - intros (r & Hi & Hp & _). exists r. split; [done|].
    apply andb_true_iff in Hp as [Hs Hp]. unfold in_state in Hs. case_bool_decide; [done|]. split; [done|lia].
  - intros (r & Hi & Hs & Hp). exists r. split; [done|]. unfold in_state. split.
    + rw bool_decide_false // Hp Z.eqb_refl //.
    + intros j r' Hj Hlt. case_bool_decide; [done|simpl]. apply Z.eqb_neq. intros Hp'.
      assert (i = j) by (eapply inv_unique; [done..|congruence]). lia.
Qed.

Lemma find_total t p i :
  inv t -> find t p = Some i ->
  records_ t !! i = Some (records_ t !!! i) /\ state (records_ t !!! i) <> free /\
  pid (records_ t !!! i) = p /\ record_ok (pid_limit t) (records_ t !!! i).
Proof.
  intros Hinv (r & Hi & Hs & Hp)%find_spec; [|done].
  pose proof (inv_records t Hinv i r Hi). rw (list_lookup_total_correct _ _ _ Hi). done.
Qed.

(** An update that keeps a live record live, under the same pid. *)
Definition benign (f : ProcessRecord -> ProcessRecord) (r : ProcessRecord) : Prop :=
  state (f r) <> free /\ pid (f r) = pid r /\ process_group (f r) <> 0 /\ session (f r) <> 0 /\
  (state (f r) = zombie -> address_space (f r) = false).

Lemma modify_inv t i f :
  inv t -> (forall r, records_ t !! i = Some r -> state r <> free /\ benign f r) -> inv (modify t i f).
Proof.
  intros [Hl Hn Hr Hu] Hf. split; simpl.
  - by rw length_alter.
  - done.
  - intros j r. rw list_lookup_alter. case_decide as E; [subst j|apply Hr].
    intros (r0 & Hi & ->)%fmap_Some. destruct (Hf r0 Hi) as (Hs & Hs' & Hp & ? & ? & ?).
    pose proof (Hr _ _ Hi) as Hok. unfold record_ok in *. rewrite -> decide_False in Hok by done.
    rewrite -> decide_False by done. rw Hp. unfold pid_limit in *. simpl. naive_solver.
  - assert (Hback : forall m q, alter f i (records_ t) !! m = Some q -> state q <> free ->
      exists q0, records_ t !! m = Some q0 /\ state q0 <> free /\ pid q0 = pid q).
    { intros m q Hq Hsq. rw list_lookup_alter in Hq. case_decide as E; [subst m|by eauto].
      apply fmap_Some in Hq as (q0 & Hq0 & ->). destruct (Hf q0 Hq0) as (? & ? & ? & _). by eauto. }
    intros j k r r' Hj Hk Hs Hs' Hp.
    apply Hback in Hj as (q & Hj & Hq & Hpq); [|done]. apply Hback in Hk as (q' & Hk & Hq' & Hpq'); [|done].
    eapply Hu; [done..|congruence].
Qed.

Lemma record_live limit r : record_ok limit r -> state r <> free ->
  0 < pid r < limit /\ process_group r <> 0 /\ session r <> 0 /\
  (state r = zombie -> address_space r = false).
Proof. unfold record_ok. case_decide; naive_solver. Qed.

Ltac live_record Hinv Hf :=
  let Hi := fresh "Hi" in let Hs := fresh "Hs" in let Hp := fresh "Hp" in let Hok := fresh "Hok" in
  destruct (find_total _ _ _ Hinv Hf) as (Hi & Hs & Hp & Hok);
  apply record_live in Hok; [|done]; destruct Hok as (? & ? & ? & ?).

Ltac solve_benign := unfold benign; simpl; split_and!; try done; try congruence.

Lemma modify_found t i p f :
  inv t -> find t p = Some i -> benign f (records_ t !!! i) -> inv (modify t i f).
Proof.
  intros Hinv Hf Hb. live_record Hinv Hf. apply modify_inv; [done|].
  intros r Hr. assert (r = records_ t !!! i) as -> by congruence. done.
Qed.

(** The slot keeps a live record with the same pid. *)
Lemma modify_find t i j p f :
  inv t -> find t p = Some j -> (forall r, records_ t !! i = Some r -> state r <> free /\ benign f r) ->
  find (modify t i f) p = Some j.
Proof.
  intros Hinv Hf Hb. pose proof (modify_inv t i f Hinv Hb) as Hinv'.
  apply find_spec in Hf as (r & Hj & Hs & Hp); [|done]. apply find_spec; [done|].
  simpl. rw list_lookup_alter. case_decide as E; [|by eauto]. subst j.
  destruct (Hb r Hj) as (_ & ? & ? & _). rw Hj. exists (f r). split_and!; [done|done|congruence].
Qed.

Lemma find_lookup t p i r :
  inv t -> find t p = Some i -> records_ t !! i = Some r -> state r <> free /\ r = records_ t !!! i.
Proof. intros Hinv Hf Hr. live_record Hinv Hf. assert (r = records_ t !!! i) as -> by congruence. done. Qed.

Lemma wake_vfork_parent_inv t i p :
  inv t -> find t p = Some i -> inv (wake_vfork_parent t i) /\ find (wake_vfork_parent t i) p = Some i.
Proof.
  intros Hinv Hf. unfold wake_vfork_parent. case_match; [done|].
  set (t1 := match find t _ with Some _ => _ | None => _ end).
  assert (inv t1 /\ find t1 p = Some i) as [Hinv1 Hf1].
  { subst t1. destruct (find t (vfork_parent _)) as [j|] eqn:Hj; [|done].
    destruct (in_state vfork_wait _); [|done]. live_record Hinv Hj.
    assert (Hb : benign (fun r => r <| state := runnable |>) (records_ t !!! j)) by solve_benign.
    split; [by eapply modify_found|]. apply modify_find; [done..|].
    intros r Hr. destruct (find_lookup _ _ _ _ Hinv Hj Hr) as [? ->]. done. }
  clearbody t1. live_record Hinv1 Hf1.
  assert (Hb : benign (fun r => r <| vfork_parent := 0 |>) (records_ t1 !!! i)) by solve_benign.
  split; [by eapply modify_found|]. apply modify_find; [done..|].
  intros r Hr. destruct (find_lookup _ _ _ _ Hinv1 Hf1 Hr) as [? ->]. done.
Qed.

Lemma reparent_inv t p : inv t -> inv (reparent_children t p).
Proof.
  intros [Hl Hn Hr Hu]. unfold reparent_children.
  set (f := fun r => if negb (in_state free r) && (parent r =? p) then _ else r).
  assert (Hf : forall r, state (f r) = state r /\ pid (f r) = pid r /\ process_group (f r) = process_group r /\
    session (f r) = session r /\ address_space (f r) = address_space r)
    by (intros r; subst f; simpl; case_match; done).
  clearbody f. split; simpl.
  - by rw length_fmap.
  - done.
  - intros i r. rw list_lookup_fmap. intros (r0 & Hi & ->)%fmap_Some.
    destruct (Hf r0) as (E1 & E2 & E3 & E4 & E5). pose proof (Hr i r0 Hi) as Hok.
    unfold record_ok in *. by rw E1 E2 E3 E4 E5.
  - intros i j r r'. rw !list_lookup_fmap. intros (r0 & Hi & ->)%fmap_Some (r1 & Hj & ->)%fmap_Some.
    destruct (Hf r0) as (-> & -> & _), (Hf r1) as (-> & -> & _). by eapply Hu.
Qed.

Lemma exit_inv t p st : inv t -> inv (exit t p st).1.
Proof.
  intros Hinv. unfold exit. destruct (find t p) as [i|] eqn:Hf; [|done].
  destruct (in_state zombie _); [done|]. live_record Hinv Hf. simpl.
  set (f := fun r : ProcessRecord => mkProcess zombie _ _ _ _ st _ _ false _).
  assert (Hb : benign f (records_ t !!! i)) by solve_benign.
  assert (Hinv1 : inv (modify t i f)) by by eapply modify_found.
  assert (Hf1 : find (modify t i f) p = Some i).
  { apply modify_find; [done..|]. intros r Hr. by destruct (find_lookup _ _ _ _ Hinv Hf Hr) as [? ->]. }
  destruct (wake_vfork_parent_inv _ i p Hinv1 Hf1) as [Hinv2 Hf2].
  apply reparent_inv. set (t2 := wake_vfork_parent _ i) in *. clearbody t2.
  destruct (find t2 (parent _)) as [j|] eqn:Hj; [|done]. destruct (in_state waiting _); [|done].
  eapply modify_found; [done..|]. live_record Hinv2 Hj. solve_benign.
Qed.

Lemma free_slot_spec t i :
  free_slot t = Some i -> exists r, records_ t !! i = Some r /\ state r = free.
Proof.
  intros (r & Hi & Hs & _)%first_slot_Some. exists r. split; [done|].
  unfold in_state in Hs. by case_bool_decide.
Qed.

(** Filling a free slot with a live record under a fresh pid. *)
Lemma fill_inv t i r c :
  inv t -> records_ t !! i = Some r -> state r = free -> next_pid_ t <> 0 ->
  state c <> free -> state c <> zombie -> pid c = next_pid_ t -> process_group c <> 0 -> session c <> 0 ->
  inv (modify (t <| next_pid_ := u32 (next_pid_ t + 1) |>) i (fun _ => c)).
Proof.
  intros [Hl Hn Hr Hu] Hi Hfree Hnp Hs Hz Hp Hg Hse.
  assert (Hlim : pid_limit t = next_pid_ t /\ forall l, pid_limit (mkTable l (u32 (next_pid_ t + 1))) = next_pid_ t + 1).
  { split; [|intros l]; unfold pid_limit; simpl; repeat case_match; word. }
  destruct Hlim as [Hlim Hlim'].
  assert (Hold : forall j q, records_ t !! j = Some q -> state q <> free -> pid q <> next_pid_ t).
  { intros j q Hj Hq. pose proof (record_live _ _ (Hr j q Hj) Hq). lia. }
  split; simpl.
  - by rw length_alter.
  - word.
  - intros j q. rw list_lookup_alter. unfold modify; simpl. rw Hlim'. case_decide as E.
    + subst j. rw Hi. intros [= <-]. unfold record_ok. rewrite -> decide_False by done.
      split_and!; try done; word.
    + intros Hj. pose proof (Hr j q Hj) as Hok. rw Hlim in Hok. unfold record_ok in *.
      case_decide; [done|]. naive_solver lia.
  - intros j k q q'. rw !list_lookup_alter. intros Hj Hk Hq Hq' Hpq.
    destruct (decide (i = j)) as [<-|], (decide (i = k)) as [<-|]; rw ?Hi /= in Hj Hk.
    + done.
    + injection Hj as <-. exfalso. by apply (Hold k q'); [done|done|congruence].
    + injection Hk as <-. exfalso. by apply (Hold j q); [done|done|congruence].
    + by eapply Hu.
Qed.

Lemma fork_inv t p v : inv t -> inv (fork t p v).1.
Proof.
  intros Hinv. unfold fork. destruct (find t p) as [i|] eqn:Hf; [|done].
  destruct (_ || _) eqn:Hz; [done|]. destruct (free_slot t) as [c|] eqn:Hc; [|done].
  destruct (Z.eqb_spec (next_pid_ t) invalid_pid) as [|Hnp]; [done|].
  live_record Hinv Hf. apply free_slot_spec in Hc as (r & Hr & Hfree).
  set (rec := fork_child _ _ _ _).
  assert (Hinv1 : inv (modify (t <| next_pid_ := u32 (next_pid_ t + 1) |>) c (fun _ => rec)))
    by by eapply fill_inv.
  destruct v; [|exact Hinv1]. simpl.
  apply modify_inv; [exact Hinv1|]. simpl. intros q. rw list_lookup_alter. case_decide as E.
  - subst. congruence.
  - intros Hq. assert (q = records_ t !!! i) as -> by congruence. split; [done|]. solve_benign.
Qed.

Lemma wait_inv t p sel nh : inv t -> inv (wait t p sel nh).1.
Proof.
  intros Hinv. unfold wait. destruct (find t p) as [i|] eqn:Hf; [|done].
  destruct (in_state zombie _) eqn:Hz; [done|].
  destruct (first_slot _ _) as [c|] eqn:Hc; simpl.
  - destruct Hinv as [Hl Hn Hr Hu].
    assert (Hback : forall m q, alter (fun _ => record_default) c (records_ t) !! m = Some q ->
      q = record_default \/ records_ t !! m = Some q).
    { intros m q. rw list_lookup_alter. case_decide; [|by right]. intros (? & _ & ->)%fmap_Some. by left. }
    split; simpl; [by rw length_alter|done| |].
    + intros m q [->|Hq]%Hback; [by unfold record_ok|by eapply Hr].
    + intros m k q q' [->|Hm]%Hback [->|Hk]%Hback; try done. by eapply Hu.
  - destruct (existsb _ _); simpl; [|done]. destruct nh; [done|].
    eapply modify_found; [done..|]. live_record Hinv Hf. solve_benign.
Qed.

Lemma set_process_group_inv t c p g : inv t -> inv (set_process_group t c p g).1.
Proof.
  intros Hinv. unfold set_process_group. destruct (find t c) as [ci|] eqn:Hc; [|done].
  set (tp := if p =? 0 then c else p). clearbody tp. destruct (find t tp) as [i|] eqn:Hf; [|done].
  destruct (_ && _); [done|]. destruct (_ || _); [done|]. set (gr := if g =? 0 then tp else g).
  destruct (_ && _); [done|]. live_record Hinv Hf. simpl.
  eapply modify_found; [done..|]. assert (gr <> 0) by (subst gr; destruct (Z.eqb_spec g 0); lia). solve_benign.
Qed.

Lemma used_zero t : used t = 0 -> forall i r, records_ t !! i = Some r -> state r = free.
Proof.
  unfold used. intros Hu. assert (Hnn : forall l, 0 <= foldr (fun r n => (if in_state free r then 0 else 1) + n) 0 l).
  { induction l as [|r l IH]; simpl; [lia|]. case_match; lia. }
  revert Hu. induction (records_ t) as [|r l IH]; intros Hu [|i] q Hq; simplify_eq/=.
  - specialize (Hnn l). destruct (in_state free q) eqn:E; [by apply bool_decide_eq_true in E|lia].
  - specialize (Hnn l). eapply IH; [|done]. case_match; lia.
Qed.

Lemma initialize_inv t p : inv t -> in_u 32 p -> inv (initialize t p).1.
Proof.
  intros Hinv Hp. unfold initialize. destruct (_ || _) eqn:Hc; [done|].
  apply orb_false_iff in Hc as [Hp0 Hu]. apply negb_false_iff, Z.eqb_eq in Hu.
  pose proof (used_zero t Hu) as Hfree. unfold invalid_pid in *. destruct Hinv as [Hl Hn Hr Hun].
  set (rec := mkProcess _ _ _ _ _ _ _ _ _ _).
  assert (Hback : forall m q, <[0%nat := rec]> (records_ t) !! m = Some q ->
    m = 0%nat /\ q = rec \/ records_ t !! m = Some q).
  { intros m q. rw list_lookup_insert. case_decide; [|by right]. intros [= <-]. left. intuition lia. }
  split; simpl; [by rw length_insert|word| |].
  - intros m q [[-> ->]|Hq]%Hback.
    + unfold record_ok, pid_limit. simpl. split_and!; try done; try case_match; word.
    + pose proof (Hr m q Hq) as Hok. pose proof (Hfree m q Hq). unfold record_ok in *.
      rewrite -> decide_True in Hok by done. by rewrite -> decide_True by done.
  - intros m k q q' Hm Hk. apply Hback in Hm as [[-> ->]|Hm], Hk as [[-> ->]|Hk]; try done.
    + intros _ Hs. by apply Hfree in Hk.
    + intros Hs. by apply Hfree in Hm.
    + intros Hs. by apply Hfree in Hm.
Qed.

Lemma process_step_inv t o : inv t -> op_ok o -> inv (step t o).
Proof.
  intros Hinv Ho. destruct o as [p|p v|p|p st|p sel nh|c p g|p|p|p]; simpl in *.
  - by apply initialize_inv.
  - by apply fork_inv.
  - unfold mark_exec. destruct (find t p) as [i|] eqn:Hf; [|done]. destruct (in_state _ _); [done|].
    live_record Hinv Hf. simpl.
    apply (wake_vfork_parent_inv _ i p); [eapply modify_found; [done..|]; solve_benign|].
    apply modify_find; [done..|]. intros r Hr.
    destruct (find_lookup _ _ _ _ Hinv Hf Hr) as [? ->]. split; [done|]. solve_benign.
  - by apply exit_inv.
  - by apply wait_inv.
  - by apply set_process_group_inv.
  - unfold create_session. destruct (find t p) as [i|] eqn:Hf; [|done]. destruct (_ =? _); [done|].
    live_record Hinv Hf. eapply modify_found; [done..|]. solve_benign; lia.
  - unfold stop. destruct (find t p) as [i|] eqn:Hf; [|done]. destruct (in_state _ _); [done|].
    live_record Hinv Hf. eapply modify_found; [done..|]. solve_benign.
  - unfold resume. destruct (find t p) as [i|] eqn:Hf; [|done]. destruct (in_state _ _); [done|].
    destruct (in_state _ _); [|done].
    live_record Hinv Hf. eapply modify_found; [done..|]. solve_benign.
Qed.

(** ** The self-check holds on every reachable table *)

Lemma record_total t i :
  inv t -> (i < Z.to_nat Capacity)%nat -> records_ t !! i = Some (records_ t !!! i).
Proof. intros Hinv Hi. apply list_lookup_lookup_total_lt. by rw (inv_length t Hinv). Qed.

Lemma inv_invariant t : inv t -> invariant t = true.
Proof.
  intros Hinv. apply forallb_forall. intros i [_ Hi]%in_seq. simpl.
  pose proof (record_total t i Hinv Hi) as Hr. pose proof (inv_records t Hinv i _ Hr) as Hok.
  set (r := records_ t !!! i) in *. clearbody r.
  unfold in_state at 1. case_bool_decide as Hfree.
  { unfold record_ok in Hok. rewrite -> decide_True in Hok by done. destruct Hok as [-> ->]. done. }
  apply record_live in Hok as (Hp & Hg & Hse & Hz); [|done]. apply andb_true_iff. split.
  - unfold in_state. case_bool_decide as Hzo; [rw (Hz Hzo)|]; lia.
  - apply forallb_forall. intros j [Hlo Hhi]%in_seq. apply negb_true_iff, not_true_is_false.
    intros [Hs Hpj]%andb_true_iff. unfold in_state in Hs.
    pose proof (record_total t j Hinv ltac:(lia)) as Hj. case_bool_decide; [done|].
    assert (i = j); [|lia]. eapply inv_unique; [done|exact Hr|exact Hj|done|done|lia].
Qed.

Lemma process_reachable ops : Forall op_ok ops -> inv (fold_left step ops initial).
Proof.
  intros Hops. pose proof process_initial_inv as H0. revert H0. generalize initial.
  induction Hops as [|o ops Ho Hops IH]; intros t Ht; simpl; [done|]. by apply IH, process_step_inv.
Qed.

(** C11: The table's own [invariant()] check (nonzero unique pids, nonzero
    groups and sessions, no address space on zombies or free slots) holds
    after every sequence of process operations from the fresh table. *)
Theorem process_table_invariant ops :
  Forall op_ok ops -> invariant (fold_left step ops initial) = true.
Proof.
  intros Hops. by apply inv_invariant, process_reachable.
Qed.

(** [fork] either fails without changing anything, for the reason its
    status says, or adds one runnable child under a pid no process had: the
    child is a copy of the parent record with a fresh identity, and of the
    other records only a vfork parent changes, to wait for the child. *)
Theorem fork_spec t p v t' r :
  inv t -> fork t p v = (t', r) ->
  (f_status r = no_process /\ t' = t /\
     forall i par, records_ t !! i = Some par -> state par <> free -> pid par = p -> state par = zombie) \/
  (f_status r = no_space /\ t' = t /\
     (next_pid_ t = 0 \/ forall i q, records_ t !! i = Some q -> state q <> free)) \/
  (f_status r = success /\ parent_result r = child r /\ child_result r = 0 /\
     find t (child r) = None /\
     exists i par ci, find t p = Some i /\ records_ t !! i = Some par /\ i <> ci /\
       records_ t' !! ci = Some (fork_child par p (child r) v) /\
       forall j, j <> ci -> records_ t' !! j =
         if v && bool_decide (j = i) then Some (par <| state := vfork_wait |>) else records_ t !! j).
Proof.
  intros Hinv Hfork. unfold fork in Hfork. destruct (find t p) as [i|] eqn:Hf; last first.
  { injection Hfork as <- <-. left. split_and!; [done..|]. intros i par Hi Hs Hp. exfalso.
    assert (find t p = Some i) by (apply find_spec; eauto). congruence. }
  destruct (find_total t p i Hinv Hf) as (Hi & Hs & Hp & _). set (par := records_ t !!! i) in *.
  unfold in_state at 1 2 in Hfork. destruct (bool_decide_reflect (state par = zombie)) as [Hz|Hz].
  { injection Hfork as <- <-. left. split_and!; [done..|]. intros j q Hj Hq Hpq.
    assert (i = j) as <- by (eapply (inv_unique t Hinv); [exact Hi|exact Hj|done|done|congruence]). congruence. }
  rewrite -> bool_decide_false in Hfork by done. simpl in Hfork. right.
  destruct (free_slot t) as [c|] eqn:Hc; last first.
  { injection Hfork as <- <-. left. split_and!; [done..|]. right. unfold free_slot in Hc.
    rewrite first_slot_None in Hc. intros j q Hj Hq. specialize (Hc j q Hj). unfold in_state in Hc.
    by case_bool_decide. }
  destruct (Z.eqb_spec (next_pid_ t) invalid_pid) as [Hn|Hn]; [injection Hfork as <- <-; left; by eauto|].
  right. apply free_slot_spec in Hc as (q & Hq & Hqf). injection Hfork as <- <-. simpl.
  assert (i <> c) by congruence. split_and!; [done..| |].
  - apply eq_None_not_Some. intros [j (r & Hj & Hsr & Hpr)%find_spec]; [|done].
    pose proof (inv_records t Hinv j r Hj) as Hok. apply record_live in Hok as [Hok _]; [|done].
    unfold pid_limit in Hok. case_match; unfold invalid_pid in *; lia.
  - exists i, par, c. split_and!; [done..| |].
    + destruct v; simpl; [rewrite -> list_lookup_alter_ne by done|];
        by rw list_lookup_alter Hq decide_True.
    + intros j Hj. destruct v; simpl; [|by rw list_lookup_alter_ne].
      rw list_lookup_alter. case_decide as E; rewrite -> list_lookup_alter_ne by done.
      * subst j. by rw bool_decide_true // Hi.
      * by rewrite -> bool_decide_false by congruence.
Qed.
(** ** Exit and reaping *)

(** What waking a record may change: a parked state becomes runnable and a
    vfork link is dropped; identity, family and exit status stay. *)
Definition keeps (r r' : ProcessRecord) : Prop :=
  pid r' = pid r /\ parent r' = parent r /\ process_group r' = process_group r /\
  exit_status r' = exit_status r /\
  (state r' = state r \/ (state r = vfork_wait \/ state r = waiting) /\ state r' = runnable).

Definition keeps_table (t t' : ProcessTable) : Prop :=
  forall j r, records_ t !! j = Some r -> exists r', records_ t' !! j = Some r' /\ keeps r r'.

#[local] Instance keeps_table_preorder : PreOrder keeps_table.
Proof.
  split.
  - intros t j r Hr. exists r. split; [done|]. unfold keeps. naive_solver.
  - intros t1 t2 t3 H12 H23 j r Hr. destruct (H12 j r Hr) as (r2 & Hr2 & K).
    destruct (H23 j r2 Hr2) as (r3 & Hr3 & K'). exists r3. split; [done|].
    unfold keeps in *. naive_solver congruence.
Qed.

Lemma modify_keeps t i f :
  (forall r, records_ t !! i = Some r -> keeps r (f r)) -> keeps_table t (modify t i f).
Proof.
  intros Hf j r Hr. simpl. rw list_lookup_alter. case_decide as E.
  - subst j. rw Hr. exists (f r). split; [done|by apply Hf].
  - exists r. split; [done|]. unfold keeps. naive_solver.
Qed.

Lemma wake_vfork_keeps t i : keeps_table t (wake_vfork_parent t i).
Proof.
  unfold wake_vfork_parent. case_match; [done|]. etrans.
  2:{ apply modify_keeps. intros r _. unfold keeps. naive_solver. }
  destruct (find t _) as [j|]; [|done]. destruct (in_state vfork_wait _) eqn:Hs; [|done].
  apply modify_keeps. intros r Hr. apply bool_decide_eq_true in Hs.
  rw (list_lookup_total_correct _ _ _ Hr) in Hs. unfold keeps. naive_solver.
Qed.

Lemma notify_parent t q :
  inv t ->
  let t' := match find t q with
            | Some pi => if in_state waiting (records_ t !!! pi)
                         then modify t pi (fun r => r <| state := runnable |>) else t
            | None => t
            end in
  keeps_table t t' /\ forall j r, records_ t' !! j = Some r -> pid r = q -> state r <> waiting.
Proof.
  intros Hinv. destruct (find t q) as [i|] eqn:Hf; simpl; last first.
  { split; [done|]. intros j r Hr Hp Hw.
    assert (find t q = Some j) by (apply find_spec; [done|]; exists r; split_and!; congruence). congruence. }
  live_record Hinv Hf.
  assert (Hat : forall j r, records_ t !! j = Some r -> pid r = q -> state r <> free -> j = i).
  { intros j r Hr Hpr Hsr. eapply (inv_unique t Hinv); [done|exact Hi|done|done|congruence]. }
  unfold in_state. case_bool_decide as Hw.
  - split.
    + apply modify_keeps. intros r Hr. assert (r = records_ t !!! i) as -> by congruence.
      unfold keeps. naive_solver.
    + intros j r. simpl. rw list_lookup_alter. case_decide as E; [rw Hi; by intros [= <-]|].
      intros Hr Hpr Hwr. apply E. symmetry. eapply Hat; [done|done|congruence].
  - split; [done|]. intros j r Hr Hpr Hwr. assert (j = i) as -> by (eapply Hat; [done|done|congruence]).
    congruence.
Qed.

Lemma reparent_lookup t p j r :
  records_ t !! j = Some r ->
  exists r', records_ (reparent_children t p) !! j = Some r' /\ keeps (r <| parent := parent r' |>) r' /\
    (parent r <> p -> parent r' = parent r) /\ (p <> 0 -> state r' <> free -> parent r' <> p).
Proof.
  intros Hr. unfold reparent_children. simpl. rw list_lookup_fmap Hr. eexists. split; [reflexivity|].
  destruct (in_state free r) eqn:Hs; [apply bool_decide_eq_true in Hs|apply bool_decide_eq_false in Hs]; simpl.
  - split_and!; unfold keeps; naive_solver.
  - destruct (Z.eqb_spec (parent r) p) as [Hp|Hp]; [|split_and!; unfold keeps; naive_solver].
    split_and!; unfold keeps; simpl; try naive_solver. intros Hp0 _.
    destruct (existsb _ _) eqn:E; [|done]. apply existsb_exists in E as (q & _ & Hq). lia.
Qed.

(** Every record after a successful [exit p]: the exiting slot is a zombie
    carrying the status, the others are kept up to a change of parent from
    [p] to the adopter, and a parent of [p] is no longer waiting. *)
Lemma exit_effect t p st i :
  inv t -> find t p = Some i -> state (records_ t !!! i) <> zombie ->
  let t' := (exit t p st).1 in
  (exit t p st).2 = success /\ inv t' /\
  (exists z, records_ t' !! i = Some z /\ state z = zombie /\ pid z = p /\ exit_status z = st /\
     process_group z = process_group (records_ t !!! i) /\
     (parent (records_ t !!! i) <> p -> parent z = parent (records_ t !!! i))) /\
  (forall j r, j <> i -> records_ t !! j = Some r -> exists r', records_ t' !! j = Some r' /\
     keeps (r <| parent := parent r' |>) r' /\ (parent r <> p -> parent r' = parent r) /\
     (pid r = parent (records_ t !!! i) -> state r' <> waiting)) /\
  (forall j r, records_ t' !! j = Some r -> state r <> free -> parent r <> p).
Proof.
  intros Hinv Hf Hz. pose proof (exit_inv t p st Hinv) as Hinv'. revert Hinv'.
  unfold exit. rw Hf. assert (in_state zombie (records_ t !!! i) = false) as -> by by apply bool_decide_eq_false.
  simpl. live_record Hinv Hf.
  set (f := fun r : ProcessRecord => mkProcess zombie _ _ _ _ st _ _ false _).
  set (t1 := modify t i f). set (t2 := wake_vfork_parent t1 i).
  assert (Hb : forall r, records_ t !! i = Some r -> state r <> free /\ benign f r).
  { intros r Hr. assert (r = records_ t !!! i) as -> by congruence. split; [done|]. solve_benign. }
  assert (Hinv1 : inv t1) by by apply modify_inv.
  destruct (wake_vfork_parent_inv t1 i p Hinv1) as [Hinv2 Hf2]; [by apply modify_find|].
  pose proof (wake_vfork_keeps t1 i) as K2. fold t2 in K2, Hinv2, Hf2.
  assert (H1i : records_ t1 !! i = Some (f (records_ t !!! i))) by (subst t1; simpl; by rw list_lookup_alter_eq Hi).
  destruct (K2 i _ H1i) as (z2 & Hz2 & Kz2). rw (list_lookup_total_correct _ _ _ Hz2).
  destruct (notify_parent t2 (parent z2) Hinv2) as [K3 Hw3].
  set (t3 := match find t2 _ with Some _ => _ | None => _ end) in *. intros Hinv'.
  assert (p <> 0) by lia. assert (K : keeps_table t1 t3) by by trans t2.
  split_and!; [done|done| | |].
  - destruct (K i _ H1i) as (z3 & Hz3 & Kz3). destruct (reparent_lookup t3 p i z3 Hz3) as (z & ? & Kz & Hpar & _).
    destruct Kz3 as (P1 & P2 & P3 & P4 & P5), Kz as (Q1 & Q2 & Q3 & Q4 & Q5). simpl in *.
    exists z. split_and!; try congruence; [intuition congruence|].
    intros Hne. rw -P2. apply Hpar. congruence.
  - intros j r Hj Hr. assert (records_ t1 !! j = Some r) as H1j by (subst t1; simpl; by rw list_lookup_alter_ne).
    destruct (K j r H1j) as (r3 & Hr3 & Kr3). destruct (reparent_lookup t3 p j r3 Hr3) as (r' & ? & Kr & Hpar & _).
    destruct Kz2 as (_ & O2 & _), Kr3 as (P1 & P2 & P3 & P4 & P5), Kr as (Q1 & Q2 & Q3 & Q4 & Q5).
    simpl in *. exists r'. split_and!; [done| | |].
    + unfold keeps. simpl. split_and!; try congruence. intuition congruence.
    + intros Hne. rw -P2. apply Hpar. congruence.
    + intros Hpr. pose proof (Hw3 j r3 Hr3 ltac:(congruence)). intuition congruence.
  - intros j r' Hr' Hs'. assert (j < length (records_ t3))%nat as [r3 Hr3]%lookup_lt_is_Some_2.
    { apply lookup_lt_Some in Hr'. unfold reparent_children in Hr'. simpl in Hr'. by rw length_fmap in Hr'. }
    destruct (reparent_lookup t3 p j r3 Hr3) as (r'' & Hr'' & _ & _ & Hne).
    assert (r'' = r') as -> by (apply (inj Some); rw -Hr''; exact Hr'). by apply Hne.
Qed.

(** C22: A process that exits with a status and is then waited for by pid by
    its live parent is reaped: the parent's wait succeeds with exactly that
    pid and status (also when the parent slept in [wait] or [vfork]), the pid
    is gone from the table, no process is left as a child of it and the parent
    is not left waiting. *)
Theorem exit_wait_roundtrip t p st i q k nh :
  inv t -> find t p = Some i -> state (records_ t !!! i) <> zombie -> parent (records_ t !!! i) = q ->
  q <> p -> find t q = Some k -> state (records_ t !!! k) <> zombie ->
  let '(t', r) := wait (exit t p st).1 q (mkSelector wait_pid p) nh in
  (exit t p st).2 = success /\ r = wait_result success p st /\ find t' p = None /\
  (forall j c, records_ t' !! j = Some c -> state c <> free -> parent c <> p) /\
  (forall par, records_ t' !! k = Some par -> pid par = q /\ state par <> waiting).
Proof.
  intros Hinv Hf Hz Hpar Hqp Hq Hqz.
  destruct (exit_effect t p st i Hinv Hf Hz) as (Hst & Hinv' & (z & Hzi & Hzs & Hzp & Hze & _ & Hzpar) & Hoth & Hch).
  set (t1 := (exit t p st).1) in *. live_record Hinv Hf. live_record Hinv Hq.
  assert (k <> i) as Hki by congruence.
  destruct (Hoth k _ Hki Hi0) as (rk & Hrk & Kk & _ & Hw). unfold keeps in Kk. simpl in Kk.
  destruct Kk as (Kp & _ & _ & _ & Ks).
  assert (Hfk : find t1 q = Some k).
  { apply find_spec; [done|]. exists rk. split_and!; [done|intuition congruence|congruence]. }
  unfold wait. rw Hfk (list_lookup_total_correct _ _ _ Hrk).
  assert (in_state zombie rk = false) as -> by (apply bool_decide_eq_false; intuition congruence).
  assert (first_slot (fun c => candidate rk q (mkSelector wait_pid p) c && in_state zombie c) (records_ t1) = Some i) as ->.
  { apply first_slot_Some. exists z. split_and!; [done| |].
    - unfold candidate, in_state, matches. simpl. rw Hzs Hzp Z.eqb_refl.
      replace (parent z) with q by (symmetry; rw Hzpar; congruence). by rw Z.eqb_refl.
    - intros j y Hj Hlt. apply not_true_is_false. unfold candidate, matches. simpl.
      intros [[[Hy _]%andb_true_iff Hyp]%andb_true_iff _]%andb_true_iff.
      apply negb_true_iff, bool_decide_eq_false in Hy. assert (j = i); [|lia].
      eapply (inv_unique t1 Hinv'); [done|exact Hzi|done|congruence|lia]. }
  rw (list_lookup_total_correct _ _ _ Hzi) Hzp Hze. split_and!; [done|done| | |].
  - apply first_slot_None. simpl. intros j c. rw list_lookup_alter. case_decide as E.
    + subst j. rw Hzi. by intros [= <-].
    + intros Hj. apply not_true_is_false. intros [Hs' Hp']%andb_true_iff. apply E. symmetry.
      apply negb_true_iff, bool_decide_eq_false in Hs'.
      eapply (inv_unique t1 Hinv'); [done|exact Hzi|done|congruence|lia].
  - simpl. intros j c. rw list_lookup_alter. case_decide as E; [|by apply Hch].
    subst j. rw Hzi. by intros [= <-].
  - simpl. intros par. rewrite -> list_lookup_alter_ne by done. intros ?. assert (par = rk) as -> by congruence.
    split; [congruence|]. apply Hw. congruence.
Qed.

(** ** Round-robin scheduling *)

Definition slot_of (t : ProcessTable) (p : Z) : Z :=
  Z.of_nat (default 0%nat (first_slot (fun r => (pid r =? p) && negb (in_state free r)) (records_ t))).

Lemma slot_of_live t i r :
  inv t -> records_ t !! i = Some r -> state r <> free -> slot_of t (pid r) = Z.of_nat i.
Proof.
  intros Hinv Hr Hs. unfold slot_of. assert (find t (pid r) = Some i) as Hf by (apply find_spec; eauto).
  unfold find in Hf. rw (first_slot_ext _ (fun r0 => negb (in_state free r0) && (pid r0 =? pid r))); [|by rw Hf].
  intros x. apply andb_comm.
Qed.

Lemma slot_of_bound t p : inv t -> 0 <= slot_of t p < Capacity.
Proof.
  intros Hinv. unfold slot_of. destruct (first_slot _ _) as [i|] eqn:E; simpl; [|lia].
  apply first_slot_Some in E as (x & Hx & _). apply lookup_lt_Some in Hx. rw (inv_length t Hinv) in Hx. lia.
Qed.

(** The scan stops at the first runnable slot at or before any given one. *)
Lemma next_runnable_slot t p k r d :
  inv t -> records_ t !! k = Some r -> can_run (state r) = true ->
  1 <= d <= Capacity -> (slot_of t p + d) mod Capacity = Z.of_nat k ->
  exists d0 k0 r0, 1 <= d0 <= d /\ (slot_of t p + d0) mod Capacity = Z.of_nat k0 /\
    records_ t !! k0 = Some r0 /\ can_run (state r0) = true /\ next_runnable t p = pid r0.
Proof.
  intros Hinv Hk Hr Hd Hdk. pose proof (slot_of_bound t p Hinv) as Hb. unfold next_runnable.
  fold (slot_of t p).
  assert (Hw : forall e, 1 <= e <= Capacity -> u32 (slot_of t p + e) mod Capacity = (slot_of t p + e) mod Capacity)
    by (intros e He; rw wrap_small; [word|done]).
  destruct (first_slot _ (seqZ 1 Capacity)) as [m|] eqn:E.
  - apply first_slot_Some in E as (e & [-> Hm]%lookup_seqZ & Hrun & Hfirst).
    rewrite -> Hw in Hrun by lia. rewrite -> Hw by lia.
    set (k0 := (slot_of t p + (1 + Z.of_nat m)) mod Capacity) in *.
    pose proof (Z.mod_pos_bound (slot_of t p + (1 + Z.of_nat m)) Capacity ltac:(lia)) as Hk0. fold k0 in Hk0.
    exists (1 + Z.of_nat m), (Z.to_nat k0), (records_ t !!! Z.to_nat k0). split_and!; [lia| |lia| |done|done].
    + destruct (decide (d < 1 + Z.of_nat m)) as [Hlt|]; [|lia]. exfalso.
      specialize (Hfirst (Z.to_nat (d - 1)) d). rewrite -> Hw in Hfirst by lia. rw Hdk Nat2Z.id in Hfirst.
      rw (list_lookup_total_correct _ _ _ Hk) Hr in Hfirst. discriminate Hfirst; [apply lookup_seqZ; lia|lia].
    + apply record_total; [done|lia].
  - exfalso. rewrite first_slot_None in E. specialize (E (Z.to_nat (d - 1)) d).
    rewrite -> Hw in E by lia. rw Hdk Nat2Z.id in E.
    rw (list_lookup_total_correct _ _ _ Hk) Hr in E. discriminate E. apply lookup_seqZ. lia.
Qed.

(** C32: Round-robin fairness: from any current process, repeatedly switching
    to [next_runnable] selects every runnable process within [Capacity]
    switches; in particular no runnable process starves and a runnable
    process is found whenever there is one. *)
Theorem next_runnable_fair t p k r :
  inv t -> records_ t !! k = Some r -> can_run (state r) = true ->
  exists n, (1 <= n <= Z.to_nat Capacity)%nat /\ Nat.iter n (next_runnable t) p = pid r.
Proof.
  intros Hinv Hk Hr. pose proof (lookup_lt_Some _ _ _ Hk) as Hkb. rw (inv_length t Hinv) in Hkb.
  pose proof (slot_of_bound t p Hinv) as Hb.
  assert (Hex : exists d, 1 <= d <= Capacity /\ (slot_of t p + d) mod Capacity = Z.of_nat k).
  { destruct (decide (slot_of t p < Z.of_nat k)).
    - exists (Z.of_nat k - slot_of t p). split; [lia|]. rw Z.mod_small; lia.
    - exists (Z.of_nat k + Capacity - slot_of t p). split; [lia|].
      replace (slot_of t p + _) with (Z.of_nat k + 1 * Capacity) by lia. rw Z.mod_add; [lia|].
      rw Z.mod_small; lia. }
  destruct Hex as (d & Hd & Hdk).
  cut (exists n, (1 <= n <= Z.to_nat d)%nat /\ Nat.iter n (next_runnable t) p = pid r).
  { intros (n & Hn & ?). exists n. split; [lia|done]. }
  clear Hb Hkb. revert p Hd Hdk. induction (Z.lt_wf 0 d) as [d _ IH]. intros p Hd Hdk.
  destruct (next_runnable_slot t p k r d Hinv Hk Hr Hd Hdk) as (d0 & k0 & r0 & Hd0 & Hk0 & Hr0 & Hrun & Hnext).
  destruct (decide (d0 = d)) as [->|Hne].
  { exists 1%nat. split; [lia|]. simpl. assert (k0 = k) as -> by lia. congruence. }
  assert (Hs0 : slot_of t (pid r0) = Z.of_nat k0).
  { apply slot_of_live; [done..|]. intros E. by rw E in Hrun. }
  destruct (IH (d - d0) ltac:(lia) (pid r0) ltac:(lia)) as (n & Hn & Hit).
  { rw Hs0 -Hk0 Zplus_mod_idemp_l -Hdk. f_equal. lia. }
  exists (n + 1)%nat. split; [lia|]. by rw Nat.iter_add /= Hnext.
Qed.

End table.

(** A shell (pid 1) forks two children; the second one's grandchild is
    orphaned when it exits. *)
Definition family : list op := [OInitialize 1; OFork 1 false; OFork 1 true; OFork 3 false].

Lemma family_inv : inv 4 (fold_left step family (initial 4)).
Proof. apply process_reachable; [lia|]. repeat constructor; simpl; word. Defined.

Lemma process_table_invariant_witness :
  invariant 4 (fold_left step (family ++ [OExit 3 7; OWait 1 (mkSelector wait_any 0) false])
                 (initial 4)) = true.
Proof. apply process_table_invariant; [lia|]. repeat constructor; simpl; word. Defined.

Lemma fork_spec_witness :
  let t := fold_left step family (initial 4) in
  let t2 := fold_left step [OExit 3 7; OWait 1 (mkSelector wait_any 0) false] t in
  f_status (fork t 4 false).2 = no_space /\ f_status (fork t2 4 true).2 = success.
Proof.
  intros t t2. split; [|vm_compute; reflexivity].
  destruct (fork_spec 4 ltac:(lia) t 4 false _ _ family_inv (surjective_pairing _)) as [(H & _)|[(H & _)|(H & _)]].
  - exfalso. revert H. vm_compute. discriminate.
  - exact H.
  - exfalso. revert H. vm_compute. discriminate.
Defined.

Lemma exit_wait_roundtrip_witness :
  (wait (exit (fold_left step family (initial 4)) 3 7).1 1 (mkSelector wait_pid 3) false).2
    = wait_result success 3 7.
Proof.
  pose proof (exit_wait_roundtrip 4 ltac:(lia) (fold_left step family (initial 4)) 3 7 2 1 0 false family_inv
    ltac:(vm_compute; reflexivity) ltac:(vm_compute; discriminate) ltac:(vm_compute; reflexivity)
    ltac:(lia) ltac:(vm_compute; reflexivity) ltac:(vm_compute; discriminate)) as H.
  destruct (wait _ _ _ _) as [t' r]. exact (proj1 (proj2 H)).
Defined.

Lemma next_runnable_fair_witness :
  let t := fold_left step family (initial 4) in
  next_runnable 4 t 1 = 2 /\ exists n, (1 <= n <= 4)%nat /\ Nat.iter n (next_runnable 4 t) 1 = 4.
Proof.
  intros t. split; [vm_compute; reflexivity|].
  destruct (records_ t !! 3%nat) as [r|] eqn:E; [|exfalso; revert E; vm_compute; discriminate].
  assert (Hr : can_run (state r) = true /\ pid r = 4)
    by (revert E; vm_compute; intros [= <-]; split; reflexivity).
  destruct Hr as [Hr Hp].
  destruct (next_runnable_fair 4 ltac:(lia) t 1 3 r family_inv E Hr) as (n & Hn & Hi).
  exists n. split; [lia|]. etransitivity; [exact Hi|exact Hp].
Defined.

End Process.
