(* ===== verification/SnapshotArena.v ===== *)
(** * [include/mikos/process/snapshot_arena.hpp]: the fork snapshot arena

    [SnapshotArena<ExtentCapacity>] keeps the sorted list of free extents of a
    physical region in a fixed array.  The array is a list of
    [ExtentCapacity] entries of which the first [free_count_] are in use; the
    shifting loops of the source run over it entry by entry. *)

From S2P Require Import Prelude Base.
From stdpp Require Import sorting.
Local Open Scope Z_scope.

Module SnapshotArena.

Record SnapshotAllocation := mkAllocation { address : Z; size : Z }.
#[global] Instance allocation_eta : Eta SnapshotAllocation := fun a => mkAllocation (address a) (size a).
#[global] Instance allocation_eq_dec : EqDecision SnapshotAllocation.
Proof. solve_decision. Defined.

(** The private [Extent] has the same two fields. *)
Abbreviation Extent := SnapshotAllocation.
Definition extent_default : Extent := mkAllocation 0 0.
#[global] Instance extent_inhabited : Inhabited Extent := populate extent_default.
Definition no_allocation : SnapshotAllocation := mkAllocation 0 0.

Definition valid (a : SnapshotAllocation) : bool := negb (address a =? 0) && negb (size a =? 0).

Inductive SnapshotArenaStatus := success | no_space | invalid_argument.
#[global] Instance snapshot_status_eq_dec : EqDecision SnapshotArenaStatus.
Proof. solve_decision. Defined.

Record SnapshotArena := mkArena {
  free_ : list Extent;
  begin_ : Z;
  end_ : Z;
  allocated_ : Z;
  free_count_ : Z;
}.
#[global] Instance snapshot_arena_eta : Eta SnapshotArena := fun a =>
  mkArena (free_ a) (begin_ a) (end_ a) (allocated_ a) (free_count_ a).

Definition alignment := 16.

Definition count (a : SnapshotArena) : nat := Z.to_nat (free_count_ a).

(** The entries [free_[0..free_count_)]. *)
Definition extents (a : SnapshotArena) : list Extent := take (count a) (free_ a).

Section arena.
Context (ExtentCapacity : Z).

Definition initial : SnapshotArena :=
  mkArena (replicate (Z.to_nat ExtentCapacity) extent_default) 0 0 0 0.

(** [for (i = position + 1; i < free_count_; ++i) free_[i - 1] = free_[i];] *)
Definition shift_down (l : list Extent) (position n : nat) : list Extent :=
  foldl (fun l i => <[(i - 1)%nat := l !!! i]> l) l (seq (S position) (n - S position)).

(** [for (i = free_count_; i > position; --i) free_[i] = free_[i - 1];] *)
Definition shift_up (l : list Extent) (position n : nat) : list Extent :=
  foldl (fun l i => <[i := l !!! (i - 1)%nat]> l) l (reverse (seq (S position) (n - position))).

Definition erase (a : SnapshotArena) (position : nat) : SnapshotArena :=
  let free := shift_down (free_ a) position (count a) in
  let n := u32 (free_count_ a - 1) in
  a <| free_count_ := n |> <| free_ := <[Z.to_nat n := extent_default]> free |>.

Definition initialize (a : SnapshotArena) (begin end0 : Z) : SnapshotArena * SnapshotArenaStatus :=
  let begin := Base.align_up 32 begin alignment in
  let end0 := Base.align_down 32 end0 alignment in
  if (begin =? 0) || (end0 <=? begin) then (a, invalid_argument)
  else (mkArena (mkAllocation begin (u32 (end0 - begin)) ::
                 replicate (Z.to_nat ExtentCapacity - 1) extent_default) begin end0 0 1, success).

(** The body of the loop at the first extent that is large enough. *)
Definition carve (a : SnapshotArena) (i : nat) (size0 : Z) : SnapshotArena * SnapshotAllocation :=
  let e := free_ a !!! i in
  let result := mkAllocation (address e) size0 in
  let e' := mkAllocation (u32 (address e + size0)) (u32 (size e - size0)) in
  let a := a <| free_ ::= <[i := e']> |> in
  let a := if size e' =? 0 then erase a i else a in
  (a <| allocated_ ::= fun n => u32 (n + size0) |>, result).

Definition allocate (a : SnapshotArena) (requested : Z) : SnapshotArena * SnapshotAllocation :=
  if (requested =? 0) || (begin_ a =? 0) || (2 ^ 32 - 1 - (alignment - 1) <? requested)
  then (a, no_allocation)
  else
    let size0 := Base.align_up 32 requested alignment in
    if size0 <? requested then (a, no_allocation)
    else match first_slot (fun e => negb (size e <? size0)) (extents a) with
         | Some i => carve a i size0
         | None => (a, no_allocation)
         end.

(** [while (position < free_count_ && free_[position].address < address)]. *)
Fixpoint insert_position (l : list Extent) (addr : Z) : nat :=
  match l with
  | e :: l => if address e <? addr then S (insert_position l addr) else 0%nat
  | [] => 0%nat
  end.

Definition rejected (a : SnapshotArena) (x : SnapshotAllocation) : bool :=
  negb (valid x) || (begin_ a =? 0) ||
  negb (Z.land (address x) (alignment - 1) =? 0) ||
  negb (Z.land (size x) (alignment - 1) =? 0) ||
  (address x <? begin_ a) || (end_ a <=? address x) ||
  (u32 (end_ a - address x) <? size x) || (allocated_ a <? size x).

Definition release (a : SnapshotArena) (x : SnapshotAllocation) : SnapshotArena * SnapshotArenaStatus :=
  if rejected a x then (a, invalid_argument) else
  let position := insert_position (extents a) (address x) in
  let previous := free_ a !!! (position - 1)%nat in
  let next := free_ a !!! position in
  let previous_end := u32 (address previous + size previous) in
  let has_previous := negb (position =? 0)%nat in
  let has_next := negb (position =? count a)%nat in
  if (has_previous && (address x <? previous_end)) ||
     (has_next && (address next <? u32 (address x + size x)))
  then (a, invalid_argument) else
  let merge_previous := has_previous && (previous_end =? address x) in
  let merge_next := has_next && (u32 (address x + size x) =? address next) in
  let taken (a : SnapshotArena) := a <| allocated_ ::= fun n => u32 (n - size x) |> in
  if merge_previous then
    let grow n := alter (fun e => e <| size := u32 (size e + n) |>) (position - 1)%nat in
    let a := a <| free_ ::= grow (size x) |> in
    if merge_next
    then (taken (erase (a <| free_ ::= grow (size (free_ a !!! position)) |>) position), success)
    else (taken a, success)
  else if merge_next then
    let e := mkAllocation (address x) (u32 (size next + size x)) in
    (taken (a <| free_ ::= <[position := e]> |>), success)
  else if free_count_ a =? ExtentCapacity then (a, no_space)
  else
    let free := <[position := mkAllocation (address x) (size x)]> (shift_up (free_ a) position (count a)) in
    (taken (a <| free_ := free |> <| free_count_ := u32 (free_count_ a + 1) |>), success).

Definition capacity (a : SnapshotArena) : Z := u32 (end_ a - begin_ a).
Definition allocated (a : SnapshotArena) : Z := allocated_ a.
Definition available (a : SnapshotArena) : Z := u32 (capacity a - allocated_ a).
Definition largest_available (a : SnapshotArena) : Z :=
  foldl (fun largest e => if largest <? size e then size e else largest) 0 (extents a).
Definition free_extents (a : SnapshotArena) : Z := free_count_ a.

(** The loop of [invariant()]: the free byte total, or a violation. *)
Fixpoint check_extents (a : SnapshotArena) (l : list Extent) (free_bytes previous_end : Z) : option Z :=
  match l with
  | [] => Some free_bytes
  | e :: l =>
      if (size e =? 0) || (address e <? previous_end) || (address e <? begin_ a) ||
         (end_ a <=? address e) || (u32 (end_ a - address e) <? size e)
      then None
      else check_extents a l (u32 (free_bytes + size e)) (u32 (address e + size e))
  end.

Definition invariant (a : SnapshotArena) : bool :=
  if (begin_ a =? 0) || (end_ a <=? begin_ a) || (ExtentCapacity <? free_count_ a) ||
     (capacity a <? allocated_ a)
  then false
  else match check_extents a (extents a) 0 (begin_ a) with
       | Some free_bytes => free_bytes =? u32 (capacity a - allocated_ a)
       | None => false
       end.

(** ** The fixed array as a list *)

Lemma shift_down_spec (l1 l2 l3 : list Extent) x :
  exists y, shift_down (l1 ++ x :: l2 ++ l3) (length l1) (length l1 + S (length l2)) = l1 ++ l2 ++ y :: l3.
Proof.
  unfold shift_down. replace (_ + S (length l2) - S (length l1))%nat with (length l2) by lia.
  revert l1 x. induction l2 as [|z l2 IH]; intros l1 x; simpl; [by exists x|].
  destruct (IH (l1 ++ [z]) z) as [y Hy]. exists y. rw -!app_assoc /= in Hy. rw -Hy.
  rw length_app Nat.add_1_r. f_equal.
  change (l1 ++ x :: z :: l2 ++ l3) with (l1 ++ [x] ++ z :: l2 ++ l3). rw app_assoc.
  rw list_lookup_total_middle; [by rw length_app Nat.add_1_r|].
  rw -app_assoc. apply insert_middle. lia.
Qed.

Lemma shift_up_spec (l1 l2 l3 : list Extent) y :
  exists x, shift_up (l1 ++ l2 ++ y :: l3) (length l1) (length l1 + length l2) = l1 ++ x :: l2 ++ l3.
Proof.
  unfold shift_up. replace (_ + length l2 - length l1)%nat with (length l2) by lia.
  revert y l3. induction l2 as [|z l2 IH] using rev_ind; intros y l3; simpl; [by exists y|].
  rw length_app seq_app reverse_app /=. destruct (IH z (z :: l3)) as [x Hx]. exists x.
  replace (l1 ++ (l2 ++ [z]) ++ y :: l3) with ((l1 ++ l2) ++ z :: y :: l3) by by rw -!app_assoc.
  rw list_lookup_total_middle; [rw length_app; lia|].
  change (z :: y :: l3) with ([z] ++ y :: l3). rw app_assoc.
  rw insert_middle; [rw !length_app /=; lia|]. rw -!app_assoc. exact Hx.
Qed.

(** The array is the list of extents followed by unused entries. *)
Definition array_ok (a : SnapshotArena) : Prop :=
  length (free_ a) = Z.to_nat ExtentCapacity /\ 0 <= free_count_ a <= ExtentCapacity.

Context (Hcap : 1 <= ExtentCapacity < 2 ^ 31).

Lemma array_split a l1 l2 :
  array_ok a -> extents a = l1 ++ l2 ->
  count a = (length l1 + length l2)%nat /\ exists l3, free_ a = l1 ++ l2 ++ l3.
Proof.
  intros [Hl Hc] He. split.
  - rw -length_app -He length_take. unfold count. lia.
  - exists (drop (count a) (free_ a)). rw app_assoc -He. symmetry. apply take_drop.
Qed.

(** [a] with its extents replaced in place. *)
Lemma array_set a l l3 n :
  n = Z.of_nat (length l) -> Z.of_nat (length l) <= ExtentCapacity ->
  length (l ++ l3) = Z.to_nat ExtentCapacity ->
  array_ok (a <| free_count_ := n |> <| free_ := l ++ l3 |>) /\
  extents (a <| free_count_ := n |> <| free_ := l ++ l3 |>) = l.
Proof.
  intros -> Hle Hl. unfold array_ok, extents, count. simpl. split; [lia|].
  by rw Nat2Z.id take_app_length.
Qed.

Lemma update_extent a l1 e l2 e' l3 free :
  array_ok a -> extents a = l1 ++ e :: l2 -> free_ a = l1 ++ e :: l2 ++ l3 -> free = l1 ++ e' :: l2 ++ l3 ->
  array_ok (a <| free_ := free |>) /\ extents (a <| free_ := free |>) = l1 ++ e' :: l2.
Proof.
  intros Ha He Hf ->. destruct (array_split a l1 (e :: l2) Ha He) as [Hc _]. destruct Ha as [Hl Hb].
  unfold array_ok, extents, count in *. simpl in *. rw Hf in Hl.
  split; [by rw !length_app /= in Hl |- *|].
  rw Hc app_comm_cons app_assoc. apply take_app_length'. by rw length_app.
Qed.

Lemma erase_spec a l1 x l2 :
  array_ok a -> extents a = l1 ++ x :: l2 ->
  exists free, erase a (length l1) = a <| free_count_ := free_count_ a - 1 |> <| free_ := free |> /\
    array_ok (erase a (length l1)) /\ extents (erase a (length l1)) = l1 ++ l2.
Proof.
  intros Ha He. destruct (array_split a l1 (x :: l2) Ha He) as [Hc [l3 Hf]]. destruct Ha as [Hl Hb].
  destruct (shift_down_spec l1 l2 l3 x) as [y Hy]. unfold erase. rw Hc Hf Hy.
  unfold count in Hc. simpl in Hc. rewrite -> wrap_small by (unfold in_u; lia).
  eexists. split; [reflexivity|]. rw (app_assoc l1 l2) insert_middle; [rw length_app; lia|].
  rw Hf in Hl. rw !length_app /= in Hl.
  apply (array_set a (l1 ++ l2) (extent_default :: l3)); rw ?length_app /=; lia.
Qed.

(** ** Invariant: a sorted, coalesced, aligned tiling of the free bytes *)

Definition gap (e e' : Extent) : Prop := address e + size e < address e'.

Definition ok (a : SnapshotArena) (e : Extent) : Prop :=
  0 < size e /\ begin_ a <= address e /\ address e + size e <= end_ a /\
  address e mod 16 = 0 /\ size e mod 16 = 0.

Definition total (l : list Extent) : Z := foldr (fun e n => size e + n) 0 l.

Record inv (a : SnapshotArena) : Prop := {
  inv_array : array_ok a;
  inv_region : 0 < begin_ a < end_ a /\ end_ a < 2 ^ 32;
  inv_ok : forall e, e ∈ extents a -> ok a e;
  inv_sorted : StronglySorted gap (extents a);
  inv_total : 0 <= allocated_ a /\ allocated_ a + total (extents a) = end_ a - begin_ a;
}.

(** Byte [x] belongs to extent [e]; how many extents hold it. *)
Definition hit (e : Extent) (x : Z) : Z := if decide (address e <= x < address e + size e) then 1 else 0.
Definition cover (l : list Extent) (x : Z) : Z := foldr (fun e n => hit e x + n) 0 l.

Lemma total_app l l' : total (l ++ l') = total l + total l'.
Proof. induction l as [|e l IH]; simpl; lia. Qed.

Lemma cover_app l l' x : cover (l ++ l') x = cover l x + cover l' x.
Proof. induction l as [|e l IH]; simpl; lia. Qed.

Lemma hit_range e x : 0 <= hit e x <= 1.
Proof. unfold hit. case_decide; lia. Qed.

Lemma cover_nonneg l x : 0 <= cover l x.
Proof. induction l as [|e l IH]; simpl; [lia|]. pose proof (hit_range e x). lia. Qed.

Lemma cover_elem l e x : e ∈ l -> hit e x <= cover l x.
Proof.
  induction 1 as [e l|e e' l _ IH]; simpl; [pose proof (cover_nonneg l x)|pose proof (hit_range e' x)]; lia.
Qed.

Lemma cover_apart l x y : (forall d, d ∈ l -> gap d x \/ gap x d) -> hit x y = 1 -> cover l y = 0.
Proof.
  intros Hl Hy. induction l as [|d l IH]; simpl; [done|]. rw IH; [set_solver|].
  specialize (Hl d ltac:(set_solver)). unfold hit, gap in *. repeat case_decide; lia.
Qed.

Lemma cover_sorted l y : StronglySorted gap l -> cover l y <= 1.
Proof.
  induction 1 as [|d l _ IH Hg]; simpl; [lia|]. pose proof (hit_range d y).
  destruct (decide (hit d y = 1)) as [E|]; [|lia]. rewrite -> (cover_apart l d y); [lia| |done].
  intros e He. right. rewrite Forall_forall in Hg. by apply Hg.
Qed.

Lemma total_nonneg l : (forall e, e ∈ l -> 0 <= size e) -> 0 <= total l.
Proof.
  induction l as [|e l IH]; intros Hl; simpl; [lia|].
  pose proof (Hl e ltac:(set_solver)). specialize (IH ltac:(set_solver)). lia.
Qed.

Lemma allocated_bound a : inv a -> 0 <= allocated_ a <= end_ a - begin_ a.
Proof.
  intros [_ _ Hok _ Ht]. pose proof (total_nonneg (extents a)) as Hn.
  assert (0 <= total (extents a)); [|lia]. apply Hn. intros e He. destruct (Hok e He). lia.
Qed.

Lemma total_elem l e : (forall e, e ∈ l -> 0 <= size e) -> e ∈ l -> size e <= total l.
Proof.
  induction l as [|e' l IH]; intros Hl He; [by apply elem_of_nil in He|]. simpl.
  assert (0 <= total l) by (apply total_nonneg; set_solver).
  pose proof (Hl e' ltac:(set_solver)). apply elem_of_cons in He as [->|He]; [lia|].
  specialize (IH ltac:(set_solver) He). lia.
Qed.

Lemma sorted_mid (l1 m l2 : list Extent) :
  StronglySorted gap (l1 ++ m ++ l2) <->
  StronglySorted gap l1 /\ StronglySorted gap m /\ StronglySorted gap l2 /\
  (forall x y, x ∈ l1 -> y ∈ m -> gap x y) /\ (forall x y, x ∈ l1 -> y ∈ l2 -> gap x y) /\
  (forall x y, x ∈ m -> y ∈ l2 -> gap x y).
Proof. rw !StronglySorted_app. set_solver. Qed.

(** Replacing the middle part of the free list by extents inside its hull. *)
Lemma splice_inv a a' l1 m m' l2 :
  inv a -> extents a = l1 ++ m ++ l2 -> extents a' = l1 ++ m' ++ l2 ->
  array_ok a' -> begin_ a' = begin_ a -> end_ a' = end_ a ->
  (forall e, e ∈ m' -> ok a e) -> StronglySorted gap m' ->
  (forall x e, x ∈ l1 -> e ∈ m' -> gap x e) -> (forall x e, x ∈ l2 -> e ∈ m' -> gap e x) ->
  0 <= allocated_ a' -> allocated_ a' + total m' = allocated_ a + total m ->
  inv a'.
Proof.
  intros [_ Hr Hok Hs Ht] He He' Ha' Hb Hend Hm Hsm Hl Hl' Hp Htot. rw He in Hs Ht. apply sorted_mid in Hs as (?&?&?&?&?&?).
  split; [done|by rw Hb Hend| | |].
  - rw He'. intros e. unfold ok. rw Hb Hend. rw !elem_of_app. specialize (Hok e). rw He !elem_of_app in Hok.
    unfold ok in Hok, Hm. naive_solver.
  - rw He'. apply sorted_mid. naive_solver.
  - rw He' Hb Hend. rw !total_app in Ht |- *. lia.
Qed.

(** ** Allocation *)

Lemma carve_effect a l1 e l2 n a' r :
  inv a -> extents a = l1 ++ e :: l2 -> 0 < n <= size e -> n mod 16 = 0 ->
  carve a (length l1) n = (a', r) ->
  r = mkAllocation (address e) n /\ inv a' /\ begin_ a' = begin_ a /\ end_ a' = end_ a /\
  allocated_ a' = allocated_ a + n /\
  forall x, cover (extents a) x = cover (extents a') x + hit r x.
Proof.
  intros Hinv He Hn H16 Hcarve. pose proof (inv_ok a Hinv e) as Hok. rw He in Hok.
  destruct Hok as (Hp & Hb & Hend & Ha & Hs); [set_solver|].
  pose proof (inv_region a Hinv) as [Hreg Hreg']. pose proof (inv_total a Hinv) as [Hal Ht].
  destruct (array_split a l1 (e :: l2) (inv_array a Hinv) He) as [Hc [l3 Hf]]. simpl in Hf.
  assert (size e <= total (extents a)).
  { apply total_elem; [|rw He; set_solver]. intros x Hx. destruct (inv_ok a Hinv x Hx). lia. }
  unfold carve in Hcarve. rewrite -> Hf, list_lookup_total_middle in Hcarve by done. cbn [address size] in Hcarve.
  rewrite -> (wrap_small 32 (address e + n)), (wrap_small 32 (size e - n)) in Hcarve by word.
  set (e' := mkAllocation (address e + n) (size e - n)) in *.
  set (a1 := a <| free_ ::= <[length l1 := e']> |>) in *.
  assert (Ha1 : array_ok a1 /\ extents a1 = l1 ++ e' :: l2).
  { apply (update_extent a l1 e l2 e' l3 _ (inv_array a Hinv) He Hf). rw Hf. by apply insert_middle. }
  destruct Ha1 as [Ha1 He1]. set (a2 := if size e - n =? 0 then _ else _) in *.
  assert (Ha2 : exists m, array_ok a2 /\ extents a2 = l1 ++ m ++ l2 /\ begin_ a2 = begin_ a /\ end_ a2 = end_ a /\
    allocated_ a2 = allocated_ a /\ m = if size e - n =? 0 then [] else [e']).
  { exists (if size e - n =? 0 then [] else [e']). subst a2. destruct (size e - n =? 0); [|by split_and!].
    destruct (erase_spec a1 l1 e' l2 Ha1 He1) as (fr & Eq & ? & ?). split_and!; [done|done|by rw Eq..|done]. }
  destruct Ha2 as (m & Ha2 & He2 & Hb2 & Hend2 & Hal2 & Hm). injection Hcarve as <- <-. simpl. rw Hal2. rewrite -> wrap_small by word.
  assert (Htm : total m = size e - n) by (subst m; destruct (Z.eqb_spec (size e - n) 0); simpl; lia).
  pose proof (inv_sorted a Hinv) as Hso. rw He in Hso. apply (sorted_mid l1 [e] l2) in Hso as (?&?&?&Hs1&?&Hs2).
  split_and!; [done| |done|done|done|].
  - eapply (splice_inv a _ l1 [e] m l2); simpl; try done; try lia.
    + intros d Hd. subst m. destruct (Z.eqb_spec (size e - n) 0) as [|Hne]; [by apply elem_of_nil in Hd|].
      apply list_elem_of_singleton in Hd as ->. unfold ok. simpl. split_and!; try lia; word.
    + subst m. destruct (_ =? _); repeat constructor.
    + intros x d Hx Hd. subst m. destruct (_ =? _); [by apply elem_of_nil in Hd|].
      apply list_elem_of_singleton in Hd as ->. specialize (Hs1 x e Hx ltac:(set_solver)). unfold gap in *. simpl. lia.
    + intros x d Hx Hd. subst m. destruct (_ =? _); [by apply elem_of_nil in Hd|].
      apply list_elem_of_singleton in Hd as ->. specialize (Hs2 e x ltac:(set_solver) Hx). unfold gap in *. simpl. lia.
  - intros x. rw He. change (extents (mkArena _ _ _ _ _)) with (extents a2). rw He2 !cover_app /=.
    assert (hit e x = cover m x + hit (mkAllocation (address e) n) x); [|lia].
    subst m. destruct (Z.eqb_spec (size e - n) 0); unfold hit; simpl; unfold hit; repeat case_decide; simpl in *; lia.
Qed.

Lemma allocate_effect a requested :
  inv a -> in_u 32 requested ->
  let '(a', r) := allocate a requested in
  (a' = a /\ r = no_allocation /\ (requested = 0 \/ forall e, e ∈ extents a -> size e < requested)) \/
  (requested <> 0 /\ (exists e, e ∈ extents a /\ requested <= size e) /\
   inv a' /\ begin_ a' = begin_ a /\ end_ a' = end_ a /\ ok a r /\
   requested <= size r < requested + 16 /\ allocated_ a' = allocated_ a + size r /\
   forall x, cover (extents a) x = cover (extents a') x + hit r x).
Proof.
  intros Hinv Hreq. pose proof (inv_region a Hinv) as [Hreg Hreg'].
  assert (Hext : forall e, e ∈ extents a -> size e <= 2 ^ 32 - 16 /\ size e mod 16 = 0).
  { intros e He. destruct (inv_ok a Hinv e He) as (? & ? & ? & ? & ?). split; [word|done]. }
  unfold allocate. destruct (Z.eqb_spec requested 0) as [|Hr0]; [by left; auto|].
  destruct (Z.eqb_spec (begin_ a) 0) as [|_]; [lia|]. cbn [orb]. unfold alignment.
  destruct (Z.ltb_spec (2 ^ 32 - 1 - (16 - 1)) requested) as [Hbig|Hsmall].
  { left. split_and!; [done..|]. right. intros e He. apply Hext in He. lia. }
  destruct (Base.align_up_spec 32 4 requested) as [Hup Hmod]; [lia|done|word|].
  change (2 ^ 4) with 16 in *. set (n := Base.align_up 32 requested 16) in *.
  destruct (Z.ltb_spec n requested); [lia|].
  destruct (first_slot _ _) as [i|] eqn:Hi.
  - apply first_slot_Some in Hi as (e & Hi & Hsz & _). apply negb_true_iff, Z.ltb_ge in Hsz.
    destruct (list_elem_of_split_length _ _ _ Hi) as (l1 & l2 & He & ->).
    destruct (carve a (length l1) n) as [a' r] eqn:Hcarve.
    apply (carve_effect a l1 e l2 n) in Hcarve as (-> & ? & ? & ? & ? & ?); [|done|done|unfold in_u in *; lia|done].
    right.
    assert (Hin : e ∈ extents a) by (rw He; set_solver).
    destruct (inv_ok a Hinv e Hin) as (? & ? & ? & ? & ?).
    unfold ok. simpl. split_and!; try done; [exists e; split; [done|]|..]; unfold in_u in *; lia.
  - left. split_and!; [done..|]. right. intros e He. rewrite first_slot_None in Hi.
    apply list_elem_of_lookup in He as [i He]. specialize (Hi i e He). apply negb_false_iff, Z.ltb_lt in Hi.
    apply list_elem_of_lookup_2 in He. apply Hext in He. clearbody n. word.
Qed.

(** ** Release *)

Lemma insert_position_spec l x :
  exists l1 l2, l = l1 ++ l2 /\ insert_position l x = length l1 /\
    (forall e, e ∈ l1 -> address e < x) /\ (forall q l', l2 = q :: l' -> x <= address q).
Proof.
  induction l as [|e l IH]; simpl.
  - exists [], []. split_and!; [done|done|set_solver|done].
  - destruct (Z.ltb_spec (address e) x).
    + destruct IH as (l1 & l2 & -> & -> & H1 & H2). exists (e :: l1), l2. split_and!; [done|done| |done].
      intros d [->|Hd]%elem_of_cons; [done|by apply H1].
    + exists [], (e :: l). split_and!; [done|done|set_solver|]. by intros q l' [= <- <-].
Qed.

(** The left neighbour: it overlaps [x], ends at [x], or everything before
    [x] ends strictly below it. *)
Lemma previous_cases a x l1 l2 :
  inv a -> extents a = l1 ++ l2 -> (forall e, e ∈ l1 -> address e < address x) ->
  let p := free_ a !!! (length l1 - 1)%nat in
  let pe := u32 (address p + size p) in
  let has := negb (length l1 =? 0)%nat in
  (has && (address x <? pe) = true /\ exists d, d ∈ l1 /\ address d < address x < address d + size d) \/
  (has && (address x <? pe) = false /\ has && (pe =? address x) = true /\
     exists l1', l1 = l1' ++ [p] /\ address p + size p = address x) \/
  (has && (address x <? pe) = false /\ has && (pe =? address x) = false /\ forall d, d ∈ l1 -> gap d x).
Proof.
  intros Hinv He Hlt. simpl. destruct l1 as [|p l1' _] using rev_ind.
  { right. right. split_and!; [done..|set_solver]. }
  assert (Hsort := inv_sorted a Hinv). rw He -app_assoc in Hsort. apply sorted_mid in Hsort as (_&_&_&Hg&_&_).
  destruct (array_split a (l1' ++ [p]) l2 (inv_array a Hinv) He) as [_ [l3 Hf]].
  rw Hf -app_assoc /= length_app /= Nat.add_sub list_lookup_total_middle //.
  replace (length l1' + 1 =? 0)%nat with false by (symmetry; apply Nat.eqb_neq; lia). cbn [negb andb].
  destruct (inv_ok a Hinv p) as (? & ? & ? & ? & ?); [rw He; set_solver|].
  pose proof (inv_region a Hinv). rewrite -> (wrap_small 32 (address p + size p)) by word.
  destruct (Z.ltb_spec (address x) (address p + size p)); [left|right].
  { split; [done|]. exists p. split; [set_solver|]. specialize (Hlt p ltac:(set_solver)). lia. }
  destruct (Z.eqb_spec (address p + size p) (address x)); [left|right]; split_and!; try done; [by eauto|].
  intros d [Hd|Hd%list_elem_of_singleton]%elem_of_app; [|subst d; unfold gap; lia].
  specialize (Hg d p Hd ltac:(set_solver)). unfold gap in *. lia.
Qed.

Lemma next_cases a x l1 l2 :
  inv a -> extents a = l1 ++ l2 -> (forall q l', l2 = q :: l' -> address x <= address q) ->
  0 < size x -> 0 <= address x -> address x + size x < 2 ^ 32 ->
  let q := free_ a !!! length l1 in
  let xe := u32 (address x + size x) in
  let has := negb (length l1 =? count a)%nat in
  (has && (address q <? xe) = true /\ exists d, d ∈ l2 /\ address x <= address d < address x + size x) \/
  (has && (address q <? xe) = false /\ has && (xe =? address q) = true /\
     exists l2', l2 = q :: l2' /\ address x + size x = address q) \/
  (has && (address q <? xe) = false /\ has && (xe =? address q) = false /\ forall d, d ∈ l2 -> gap x d).
Proof.
  intros Hinv He Hle Hs Hx Hxe. simpl.
  destruct (array_split a l1 l2 (inv_array a Hinv) He) as [Hc [l3 Hf]]. rw Hc.
  destruct l2 as [|q l2'].
  { right. right. rw Nat.add_0_r Nat.eqb_refl. split_and!; [done..|set_solver]. }
  assert (Hsort := inv_sorted a Hinv). rw He in Hsort.
  apply (sorted_mid l1 [q] l2') in Hsort as (_&_&_&_&_&Hg).
  rw Hf /= list_lookup_total_middle //.
  replace (length l1 =? length l1 + S (length l2'))%nat with false by (symmetry; apply Nat.eqb_neq; lia).
  cbn [negb andb]. rewrite -> wrap_small by word. specialize (Hle q l2' eq_refl).
  destruct (inv_ok a Hinv q) as (? & ? & ? & ? & ?); [rw He; set_solver|].
  destruct (Z.ltb_spec (address q) (address x + size x)); [left|right].
  { split; [done|]. exists q. split; [set_solver|]. lia. }
  destruct (Z.eqb_spec (address x + size x) (address q)); [left|right]; split_and!; try done; [by eauto|].
  intros d [->|Hd]%elem_of_cons; [unfold gap; lia|].
  specialize (Hg q d ltac:(set_solver) Hd). unfold gap in *. lia.
Qed.

Lemma land_15 z : Z.land z 15 = z mod 16.
Proof. change 15 with (Z.ones 4). by rewrite -> Z.land_ones by lia. Qed.

Lemma rejected_spec a x :
  inv a -> in_u 32 (address x) -> in_u 32 (size x) ->
  rejected a x = false <-> ok a x /\ size x <= allocated_ a.
Proof.
  intros Hinv Ha Hs. pose proof (inv_region a Hinv). unfold rejected, ok, valid, alignment.
  change (16 - 1) with 15. rw !land_15. split.
  - intros H'. repeat (apply orb_false_iff in H' as [H' ?]). split; word.
  - intros H'. destruct H' as [(? & ? & ? & Hm & Hm') ?]. rw Hm Hm'. word.
Qed.

(** What a successful release does. *)
Record released (a : SnapshotArena) (x : SnapshotAllocation) (a' : SnapshotArena) : Prop := {
  released_inv : inv a';
  released_begin : begin_ a' = begin_ a;
  released_end : end_ a' = end_ a;
  released_allocated : allocated_ a' = allocated_ a - size x;
  released_cover y : cover (extents a') y = cover (extents a) y + hit x y;
}.

Lemma merge_effect a b x l1 m e l2 :
  inv a -> 0 < size x <= allocated_ a -> extents a = l1 ++ m ++ l2 ->
  array_ok b -> extents b = l1 ++ e :: l2 -> begin_ b = begin_ a -> end_ b = end_ a ->
  allocated_ b = allocated_ a -> ok a e ->
  (forall d, d ∈ l1 -> gap d e) -> (forall d, d ∈ l2 -> gap e d) ->
  size e = total m + size x -> (forall y, hit e y = cover m y + hit x y) ->
  released a x (b <| allocated_ ::= fun n => u32 (n - size x) |>).
Proof.
  intros Hinv Hx He Ha' He' Hb Hend Hal Hok Hg1 Hg2 Hsz Hcov.
  pose proof (allocated_bound a Hinv). pose proof (inv_region a Hinv) as [? ?].
  set (a' := b <| allocated_ ::= _ |>).
  assert (He'' : extents a' = l1 ++ e :: l2 /\ array_ok a' /\ begin_ a' = begin_ a /\ end_ a' = end_ a) by done.
  destruct He'' as (He'' & ? & ? & ?). assert (Hal' : allocated_ a' = allocated_ a - size x)
    by (subst a'; simpl; rw Hal wrap_small //; word). clearbody a'.
  split; [|done..|].
  - eapply (splice_inv a a' l1 m [e] l2); try done; simpl; try lia.
    + intros d. by rw list_elem_of_singleton => ->.
    + repeat constructor.
    + intros d e' Hd. rw list_elem_of_singleton => ->. by apply Hg1.
    + intros d e' Hd. rw list_elem_of_singleton => ->. by apply Hg2.
  - intros y. rw He He'' !cover_app /= Hcov. lia.
Qed.

Ltac hits := let y := fresh in intros y; unfold cover, hit in *; simpl; repeat case_decide; simpl in *; lia.

(** [free_[position - 1].size += n]. *)
Lemma grow_previous a l1 p l2 l3 n :
  array_ok a -> extents a = l1 ++ p :: l2 -> free_ a = l1 ++ p :: l2 ++ l3 -> in_u 32 (size p + n) ->
  let b := a <| free_ ::= alter (fun e => e <| size := u32 (size e + n) |>) (length (l1 ++ [p]) - 1)%nat |> in
  array_ok b /\ extents b = l1 ++ mkAllocation (address p) (size p + n) :: l2 /\
  free_ b = l1 ++ mkAllocation (address p) (size p + n) :: l2 ++ l3.
Proof.
  intros Ha He Hf Hn b. set (e := mkAllocation _ _).
  assert (Hfb : free_ b = l1 ++ e :: l2 ++ l3).
  { unfold b, e. simpl. rw Hf length_app Nat.add_sub alter_middle //. f_equal. f_equal.
    simpl. f_equal. by apply wrap_small. }
  by destruct (update_extent a l1 p l2 e l3 (free_ b) Ha He Hf Hfb).
Qed.

Section release.
Context (a : SnapshotArena) (x : SnapshotAllocation) (l1 l2 l3 : list Extent).
Context (Hinv : inv a) (Hok : ok a x) (Hal : size x <= allocated_ a).
Context (He : extents a = l1 ++ l2) (Hf : free_ a = l1 ++ l2 ++ l3).

Lemma release_insert :
  count a = (length l1 + length l2)%nat -> free_count_ a <> ExtentCapacity ->
  (forall d, d ∈ l1 -> gap d x) -> (forall d, d ∈ l2 -> gap x d) ->
  released a x (a <| free_ := <[length l1 := mkAllocation (address x) (size x)]>
                                (shift_up (free_ a) (length l1) (count a)) |>
                  <| free_count_ := u32 (free_count_ a + 1) |>
                  <| allocated_ ::= fun n => u32 (n - size x) |>).
Proof.
  intros Hc Hne Hg1 Hg2. destruct (inv_array a Hinv) as [Hl Hb]. rw Hc Hf.
  rw Hf !length_app in Hl. unfold count in Hc. destruct l3 as [|y l3']; [simpl in Hl; lia|].
  destruct (shift_up_spec l1 l2 l3' y) as [z ->]. rewrite -> insert_middle, (wrap_small 32) by (word || done).
  destruct x as [xa xs]. pose proof Hok as (? & _).
  destruct (array_set a (l1 ++ mkAllocation xa xs :: l2) l3' (free_count_ a + 1)) as [Ha' He'];
    [rw !length_app /=; simpl in Hl; lia..|].
  rw -app_assoc /= in Ha' He'.
  eapply (merge_effect a _ (mkAllocation xa xs) l1 [] (mkAllocation xa xs) l2); done.
Qed.

Lemma release_next l2' q :
  l2 = q :: l2' -> address x + size x = address q -> (forall d, d ∈ l1 -> gap d x) ->
  released a x (a <| free_ ::= <[length l1 := mkAllocation (address x) (u32 (size q + size x))]> |>
                  <| allocated_ ::= fun n => u32 (n - size x) |>).
Proof.
  intros -> Hq Hg1. pose proof (inv_sorted a Hinv) as Hs. rw He in Hs.
  apply (sorted_mid l1 [q] l2') in Hs as (_ & _ & _ & _ & _ & Hg).
  destruct (inv_ok a Hinv q) as (? & ? & ? & ? & ?); [rw He; set_solver|].
  destruct Hok as (? & ? & ? & ? & ?). pose proof (inv_region a Hinv) as [? ?].
  rewrite -> (wrap_small 32 (size q + size x)) by word. set (e := mkAllocation _ _).
  destruct (update_extent a l1 q l2' e l3 (<[length l1 := e]> (free_ a)) (inv_array a Hinv) He Hf) as [Ha' He'];
    [rw Hf; by apply insert_middle|].
  eapply (merge_effect a _ x l1 [q] e l2'); try done; simpl; try lia.
  - unfold ok, e. simpl. split_and!; try done; word.
  - intros d Hd. specialize (Hg q d ltac:(set_solver) Hd). unfold gap, e in *. simpl. lia.
  - hits.
Qed.

Lemma release_previous l1' p :
  l1 = l1' ++ [p] -> address p + size p = address x -> (forall d, d ∈ l2 -> gap x d) ->
  released a x (a <| free_ ::= alter (fun e => e <| size := u32 (size e + size x) |>) (length l1 - 1)%nat |>
                  <| allocated_ ::= fun n => u32 (n - size x) |>).
Proof.
  intros E Hp Hg2. destruct Hok as (? & ? & ? & ? & ?). pose proof (inv_region a Hinv) as [? ?].
  destruct (inv_ok a Hinv p) as (? & ? & ? & ? & ?); [rw He E; set_solver|].
  assert (He0 : extents a = l1' ++ p :: l2) by by rw He E -app_assoc.
  assert (Hf0 : free_ a = l1' ++ p :: l2 ++ l3) by by rw Hf E -app_assoc. rw E.
  destruct (grow_previous a l1' p l2 l3 (size x) (inv_array a Hinv) He0 Hf0) as (Ha' & He' & _); [word|].
  pose proof (inv_sorted a Hinv) as Hs. rw He0 in Hs. apply (sorted_mid l1' [p] l2) in Hs as (_ & _ & _ & Hg & _).
  eapply (merge_effect a _ x l1' [p] _ l2); try done; simpl; try lia.
  - unfold ok. simpl. split_and!; try done; word.
  - intros d Hd. specialize (Hg d p Hd ltac:(set_solver)). unfold gap in *. simpl. lia.
  - intros d Hd. specialize (Hg2 d Hd). unfold gap in *. simpl. lia.
  - hits.
Qed.

End release.

Lemma release_both a x l1 l2 l3 p q :
  inv a -> ok a x -> size x <= allocated_ a ->
  extents a = (l1 ++ [p]) ++ q :: l2 -> free_ a = (l1 ++ [p]) ++ (q :: l2) ++ l3 ->
  address p + size p = address x -> address x + size x = address q ->
  let grow n := alter (fun e : Extent => e <| size := u32 (size e + n) |>) (length (l1 ++ [p]) - 1)%nat in
  let b := a <| free_ ::= grow (size x) |> in
  released a x (erase (b <| free_ ::= grow (size (free_ b !!! length (l1 ++ [p]))) |>) (length (l1 ++ [p]))
                  <| allocated_ ::= fun n => u32 (n - size x) |>).
Proof.
  intros Hinv (? & ? & ? & ? & ?) Hal He Hf Hp Hq grow b. pose proof (inv_region a Hinv) as [? ?].
  pose proof (inv_ok a Hinv) as Hoks. rw He in Hoks.
  destruct (Hoks p) as (? & ? & ? & ? & ?); [set_solver|].
  destruct (Hoks q) as (? & ? & ? & ? & ?); [set_solver|].
  pose proof (inv_sorted a Hinv) as Hs. rw He -app_assoc /= in Hs. rw -app_assoc /= in He. rw -app_assoc /= in Hf.
  destruct (grow_previous a l1 p (q :: l2) l3 (size x) (inv_array a Hinv) He Hf) as (Hb & Heb & Hfb); [word|].
  fold (grow (size x)) in Hb, Heb, Hfb. fold b in Hb, Heb, Hfb. set (e := mkAllocation _ _) in *.
  assert (size (free_ b !!! length (l1 ++ [p])) = size q) as ->.
  { f_equal. rw Hfb (app_assoc l1 [e]) list_lookup_total_middle //. by rw !length_app. }
  destruct (grow_previous b l1 e (q :: l2) l3 (size q) Hb Heb Hfb) as (Hc & Hec & _); [simpl; word|].
  replace (length (l1 ++ [e])) with (length (l1 ++ [p])) in Hc, Hec by by rw !length_app.
  set (c := b <| free_ ::= grow (size q) |>). set (e' := mkAllocation (address e) (size e + size q)) in *.
  change (array_ok c) in Hc. change (extents c = l1 ++ e' :: q :: l2) in Hec.
  assert (Hec' : extents c = (l1 ++ [e']) ++ q :: l2) by by rw Hec -app_assoc.
  destruct (erase_spec c (l1 ++ [e']) q l2 Hc Hec') as (fr & Heq & Hok & Hext).
  replace (length (l1 ++ [p])) with (length (l1 ++ [e'])) by by rw !length_app.
  apply (sorted_mid l1 [p; q] l2) in Hs as (_ & _ & _ & Hg1 & _ & Hg2).
  eapply (merge_effect a _ x l1 [p; q] e' l2); try done; try (by rw Heq); simpl; try lia.
  - by rw Hext -app_assoc.
  - unfold ok. simpl. split_and!; try done; word.
  - intros d Hd. specialize (Hg1 d p Hd ltac:(set_solver)). unfold gap in *. simpl. lia.
  - intros d Hd. specialize (Hg2 q d ltac:(set_solver) Hd). unfold gap in *. simpl. lia.
  - hits.
Qed.

Lemma release_effect a x a' st :
  inv a -> in_u 32 (address x) -> in_u 32 (size x) -> release a x = (a', st) ->
  (st = invalid_argument /\ a' = a /\
     (ok a x -> allocated_ a < size x \/ exists y, hit x y = 1 /\ 0 < cover (extents a) y)) \/
  (st = no_space /\ a' = a /\ ok a x /\ free_count_ a = ExtentCapacity /\
     forall y, hit x y = 1 -> cover (extents a) y = 0) \/
  (st = success /\ inv a' /\ begin_ a' = begin_ a /\ end_ a' = end_ a /\ ok a x /\
     size x <= allocated_ a /\ allocated_ a' = allocated_ a - size x /\
     forall y, cover (extents a') y = cover (extents a) y + hit x y).
Proof.
  intros Hinv Ha Hs Hrel. unfold release in Hrel. destruct (rejected a x) eqn:Hrej.
  { left. injection Hrel as <- <-. split_and!; [done..|]. intros Hok. left.
    apply not_false_iff_true in Hrej. rw rejected_spec // in Hrej. apply Z.nle_gt. tauto. }
  apply rejected_spec in Hrej as [Hok Hal]; [|done..].
  destruct (insert_position_spec (extents a) (address x)) as (l1 & l2 & He & Hpos & Hlt & Hge).
  rw Hpos in Hrel. cbv zeta in Hrel. revert Hrel. pose proof Hok as (Hp & Hb & Hend & H16 & H16').
  pose proof (inv_region a Hinv) as [? ?]. pose proof (allocated_bound a Hinv).
  destruct (previous_cases a x l1 l2 Hinv He Hlt) as [[-> (d & Hd & Hov)]|HP].
  { intros [= <- <-]. left. split_and!; [done..|]. intros _. right. exists (address x).
    pose proof (cover_elem (extents a) d (address x) ltac:(rw He; set_solver)) as Hc.
    unfold hit in *. case_decide; [|lia]. case_decide; lia. }
  destruct (next_cases a x l1 l2 Hinv He Hge) as [[-> (d & Hd & Hov)]|HN]; [lia..| |].
  { rw orb_true_r. intros [= <- <-]. left. split_and!; [done..|]. intros _. right. exists (address d).
    destruct (inv_ok a Hinv d) as (? & _); [rw He; set_solver|].
    pose proof (cover_elem (extents a) d (address d) ltac:(rw He; set_solver)) as Hc.
    unfold hit in *. case_decide; [|lia]. case_decide; lia. }
  pose proof (inv_sorted a Hinv) as Hsort. rw He in Hsort. apply StronglySorted_app in Hsort as (Hg & Hs1 & Hs2).
  destruct (array_split a l1 l2 (inv_array a Hinv) He) as [Hc [l3 Hf]].
  assert (Hw : u32 (allocated_ a - size x) = allocated_ a - size x) by (apply wrap_small; word).
  destruct HP as [(-> & -> & l1' & Hl1 & HP)|(-> & -> & HP)], HN as [(-> & -> & l2' & Hl2 & HN)|(-> & -> & HN)];
    cbn [orb].
  - set (p := free_ a !!! (length l1 - 1)%nat) in *. set (q := free_ a !!! length l1) in *.
    clearbody p q. subst l1 l2. intros [= <- <-]. right. right. split; [done|].
    destruct (release_both a x l1' l2' l3 p q Hinv Hok Hal He Hf HP HN). by split_and!.
  - set (p := free_ a !!! (length l1 - 1)%nat) in *. clearbody p. intros [= <- <-]. right. right. split; [done|].
    destruct (release_previous a x l1 l2 l3 Hinv Hok Hal He Hf l1' p Hl1 HP HN). by split_and!.
  - set (q := free_ a !!! length l1) in *. clearbody q. intros [= <- <-]. right. right. split; [done|].
    destruct (release_next a x l1 l2 l3 Hinv Hok Hal He Hf l2' q Hl2 HN HP). by split_and!.
  - destruct (Z.eqb_spec (free_count_ a) ExtentCapacity) as [|Hne].
    { intros [= <- <-]. right. left. split_and!; [done..|]. intros y Hy. apply (cover_apart _ x); [|done].
      rw He. intros d [Hd|Hd]%elem_of_app; auto. }
    intros [= <- <-]. right. right. split; [done|].
    destruct (release_insert a x l1 l2 l3 Hinv Hok Hal He Hf Hc Hne HP HN). by split_and!.
Qed.

(** ** The self-check *)

Lemma check_extents_ok a l n pe :
  inv a -> (forall e, e ∈ l -> ok a e) -> StronglySorted gap l ->
  (forall e, e ∈ l -> pe <= address e) -> 0 <= n -> n + total l < 2 ^ 32 ->
  check_extents a l n pe = Some (n + total l).
Proof.
  intros Hinv Hok Hs. pose proof (inv_region a Hinv) as [? ?]. revert n pe.
  induction Hs as [|e l Hs IH Hg]; intros n pe Hpe Hn Ht; simpl; [f_equal; lia|].
  destruct (Hok e) as (? & ? & ? & _); [set_solver|]. specialize (Hpe e ltac:(set_solver)) as Hpe'.
  assert (0 <= total l). { apply total_nonneg. intros d Hd. destruct (Hok d ltac:(set_solver)). lia. }
  simpl in Ht. rewrite -> (wrap_small 32 (end_ a - address e)) by word.
  destruct (_ || _) eqn:Hbad; [exfalso; clear IH; lia|].
  rewrite -> (wrap_small 32 (n + size e)), (wrap_small 32 (address e + size e)) by word.
  rw IH; [set_solver| |lia|lia|f_equal; lia].
  intros d Hd. rewrite Forall_forall in Hg. apply Hg, Z.lt_le_incl in Hd. exact Hd.
Qed.

Lemma snapshot_invariant_holds a : inv a -> invariant a = true.
Proof.
  intros Hinv. pose proof (inv_region a Hinv) as [? ?]. pose proof (inv_total a Hinv) as [? Ht].
  destruct (inv_array a Hinv) as [_ ?]. pose proof (allocated_bound a Hinv). unfold invariant, capacity.
  rewrite -> (wrap_small 32 (end_ a - begin_ a)), (wrap_small 32 (end_ a - begin_ a - allocated_ a)) by word.
  destruct (_ || _) eqn:Hbad; [exfalso; lia|].
  rw check_extents_ok; [done|apply Hinv|apply Hinv| |lia|lia|].
  - intros e He. by destruct (inv_ok a Hinv e He) as (_ & ? & _).
  - apply Z.eqb_eq. lia.
Qed.

Lemma initialize_effect a b e a' :
  in_u 32 b -> in_u 32 e -> initialize a b e = (a', success) ->
  inv a' /\ allocated_ a' = 0 /\ extents a' = [mkAllocation (begin_ a') (end_ a' - begin_ a')].
Proof.
  intros Hb He. unfold initialize, alignment.
  pose proof (Base.align_down_spec 32 4 e ltac:(lia) He) as Hd. change (2 ^ 4) with 16 in Hd.
  assert (Hup : let r := Base.align_up 32 b 16 in r = 0 \/ b <= r < 2 ^ 32 /\ r mod 16 = 0).
  { destruct (decide (b + 16 - 1 < 2 ^ 32)) as [Hlt|Hge].
    - destruct (Base.align_up_spec 32 4 b) as [? ?]; [lia|done|word|]. change (2 ^ 4) with 16 in *. right.
      unfold in_u in *. word.
    - left. unfold Base.align_up. replace (wrap 32 (b + 16 - 1)) with (b + 16 - 1 - 2 ^ 32) by word.
      change 16 with (2 ^ 4) at 2. rw Base.land_mask; [lia|word|]. word. }
  destruct (_ || _) eqn:Hc; [done|]. intros [= <-]. simpl in Hup.
  set (b' := Base.align_up 32 b 16) in *. set (e' := Base.align_down 32 e 16) in *. clearbody b' e'.
  destruct Hup as [?|[? ?]]; [lia|]. assert (b' < e' < 2 ^ 32) by word. assert (e' mod 16 = 0) by word.
  unfold extents, count. simpl. rewrite -> (wrap_small 32 (e' - b')) by word. split_and!; [|done|done].
  split; unfold extents, count, array_ok; simpl.
  - rw length_replicate. lia.
  - unfold in_u in *. lia.
  - intros x. rw list_elem_of_singleton => ->. unfold ok. simpl. split_and!; word.
  - repeat constructor.
  - lia.
Qed.

(** ** A client and its live allocations *)

Inductive client_op := CAllocate (requested : Z) | CRelease (k : nat).

Definition client_op_ok (o : client_op) : Prop :=
  match o with CAllocate n => in_u 32 n | CRelease _ => True end.

(** The client records what it was given and releases only that. *)
Definition client_step (s : SnapshotArena * list SnapshotAllocation) (o : client_op)
    : SnapshotArena * list SnapshotAllocation :=
  let '(a, live) := s in
  match o with
  | CAllocate n => let '(a', r) := allocate a n in (a', if valid r then r :: live else live)
  | CRelease k =>
      match live !! k with
      | Some r => let '(a', st) := release a r in
                  (a', if bool_decide (st = success) then delete k live else live)
      | None => (a, live)
      end
  end.

(** Free and live extents tile the region: each byte is in exactly one. *)
Record ledger (a : SnapshotArena) (live : list SnapshotAllocation) : Prop := {
  ledger_inv : inv a;
  ledger_ok r : r ∈ live -> ok a r;
  ledger_total : total live = allocated_ a;
  ledger_cover x : cover (extents a) x + cover live x = if decide (begin_ a <= x < end_ a) then 1 else 0;
}.

Lemma total_delete l k e : l !! k = Some e -> total (delete k l) = total l - size e.
Proof. intros (l1 & l2 & -> & ->)%list_elem_of_split_length. rw delete_middle !total_app /=. lia. Qed.

Lemma cover_delete l k e x : l !! k = Some e -> cover (delete k l) x = cover l x - hit e x.
Proof. intros (l1 & l2 & -> & ->)%list_elem_of_split_length. rw delete_middle !cover_app /=. lia. Qed.

Lemma ok_in_u a r : inv a -> ok a r -> in_u 32 (address r) /\ in_u 32 (size r).
Proof. intros Hinv (? & ? & ? & _). pose proof (inv_region a Hinv). split; word. Qed.

(** A live allocation is never refused as invalid. *)
Lemma ledger_release a live k r a' st :
  ledger a live -> live !! k = Some r -> release a r = (a', st) ->
  (st = no_space /\ a' = a) \/ (st = success /\ ledger a' (delete k live)).
Proof.
  intros [Hinv Hok Ht Hc] Hk Hrel. pose proof (list_elem_of_lookup_2 _ _ _ Hk) as Hr.
  destruct (ok_in_u a r Hinv (Hok r Hr)) as [? ?].
  destruct (release_effect a r a' st Hinv) as [(-> & -> & Hbad)|[(-> & -> & _)|(-> & Hinv' & Hb & He & _ & _ & Hal & Hcov)]];
    [done|done|done| |by left|right; split; [done|]].
  - exfalso. destruct (Hbad (Hok r Hr)) as [Hlt|(y & Hy & Hy')].
    + assert (size r <= total live); [|lia]. apply total_elem; [|done].
      intros e Hel. destruct (Hok e Hel). lia.
    + pose proof (cover_elem live r y Hr). specialize (Hc y). case_decide; lia.
  - split; [done| | |].
    + intros d Hd. unfold ok. rw Hb He. apply Hok.
      revert d Hd. apply Forall_forall, Forall_delete, Forall_forall. done.
    + rewrite -> (total_delete _ _ _ Hk). lia.
    + intros x. rw Hcov (cover_delete _ _ _ _ Hk) Hb He. specialize (Hc x). lia.
Qed.

Lemma ledger_step a live o :
  ledger a live -> client_op_ok o -> ledger (client_step (a, live) o).1 (client_step (a, live) o).2.
Proof.
  intros Hl Ho. pose proof Hl as [Hinv Hok Ht Hc]. destruct o as [n|k]; simpl in *.
  - pose proof (allocate_effect a n Hinv Ho) as Ha. destruct (allocate a n) as [a' r].
    destruct Ha as [(-> & -> & _)|(_ & _ & Hinv' & Hb & He & Hr & _ & Hal & Hcov)]; [done|].
    pose proof Hr as (? & ? & _). pose proof (inv_region a Hinv). unfold valid.
    destruct (_ && _) eqn:Hv; [|exfalso; lia]. simpl. split; [done| | |].
    + intros d [->|Hd]%elem_of_cons; unfold ok; rw Hb He; [done|by apply Hok].
    + simpl. lia.
    + intros x. simpl. rw Hb He. specialize (Hc x). specialize (Hcov x). lia.
  - destruct (live !! k) as [r|] eqn:Hk; [|done]. destruct (release a r) as [a' st] eqn:Hrel.
    destruct (ledger_release a live k r a' st Hl Hk Hrel) as [[-> ->]|[-> ?]]; [done|]. done.
Qed.

(** The runs of a client from a freshly initialized arena. *)
Definition client_run (a0 : SnapshotArena) (ops : list client_op) : SnapshotArena * list SnapshotAllocation :=
  fold_left client_step ops (a0, []).

Lemma ledger_reachable a b e a0 ops :
  in_u 32 b -> in_u 32 e -> initialize a b e = (a0, success) -> Forall client_op_ok ops ->
  ledger (client_run a0 ops).1 (client_run a0 ops).2.
Proof.
  intros Hb He Hinit Hops. destruct (initialize_effect a b e a0 Hb He Hinit) as (Hinv & Hal & Hext).
  assert (Hl : ledger a0 []).
  { split; [done|set_solver|by rw Hal|]. intros x. rw Hext. unfold cover, hit. simpl. repeat case_decide; lia. }
  clear Hb He Hinit Hinv Hal Hext. unfold client_run.
  change (ledger (a0, @nil SnapshotAllocation).1 (a0, @nil SnapshotAllocation).2) in Hl. revert Hl.
  generalize (a0, @nil SnapshotAllocation). clear a0.
  induction Hops as [|o ops Ho Hops IH]; intros [a0 live] Hl; simpl; [done|].
  apply IH. by apply ledger_step.
Qed.

Lemma cover_disjoint l x i j d e :
  cover l x <= 1 -> l !! i = Some d -> l !! j = Some e -> hit d x = 1 -> hit e x = 1 -> i = j.
Proof.
  intros Hc Hi Hj Hd He. destruct (decide (i = j)) as [|Hne]; [done|]. exfalso.
  assert (Hk : exists k, delete i l !! k = Some e).
  { destruct (decide (j < i)%nat).
    - exists j. by rewrite -> list_lookup_delete_lt by lia.
    - exists (j - 1)%nat. rewrite -> list_lookup_delete_ge by lia. by replace (S (j - 1)) with j by lia. }
  destruct Hk as [k Hk%list_elem_of_lookup_2]. pose proof (cover_elem _ e x Hk).
  rw (cover_delete _ _ _ _ Hi) in H. lia.
Qed.

(** With nothing live the free list is the whole region. *)
Lemma snapshot_ledger_empty a : ledger a [] -> extents a = [mkAllocation (begin_ a) (end_ a - begin_ a)].
Proof.
  intros [Hinv _ _ Hc]. pose proof (inv_region a Hinv) as [? ?]. pose proof (inv_sorted a Hinv) as Hs.
  pose proof (inv_ok a Hinv) as Hok.
  assert (Hat : forall x, begin_ a <= x < end_ a -> exists e, e ∈ extents a /\ address e <= x < address e + size e).
  { intros x Hx. specialize (Hc x). rewrite -> decide_True in Hc by done. simpl in Hc. clear - Hc.
    induction (extents a) as [|e l IH]; simpl in Hc; [lia|]. unfold hit in Hc.
    case_decide; [exists e; set_solver|]. destruct IH as (d & ? & ?); [lia|]. exists d. set_solver. }
  destruct (extents a) as [|e l]; [destruct (Hat (begin_ a)) as (? & Hn & _); [lia|by apply elem_of_nil in Hn]|].
  apply StronglySorted_inv in Hs as [_ Hg]. rewrite Forall_forall in Hg.
  destruct (Hok e) as (? & ? & ? & _); [set_solver|].
  assert (Hlater : forall d, d ∈ l -> address e + size e < address d) by exact Hg.
  assert (address e = begin_ a).
  { destruct (Hat (begin_ a)) as (d & [->|Hd]%elem_of_cons & ?); [lia|lia|]. specialize (Hlater d Hd). lia. }
  assert (address e + size e = end_ a).
  { destruct (decide (address e + size e < end_ a)); [|lia].
    destruct (Hat (address e + size e)) as (d & [->|Hd]%elem_of_cons & ?); [lia|lia|]. specialize (Hlater d Hd). lia. }
  destruct l as [|d l]; [f_equal; destruct e; simpl in *; f_equal; lia|].
  specialize (Hlater d ltac:(set_solver)). destruct (Hok d) as (? & ? & ? & _); [set_solver|]. lia.
Qed.

(** C23: A client that releases only what it was given, in any order and
    interleaving, from any initialized arena: the self-check [invariant()]
    holds, live allocations are 16-byte aligned blocks inside the region, no
    byte belongs to two of them or to a live and a free one, [allocated()] is
    the sum of the live sizes, a release of a live allocation succeeds or
    reports that the extent array is full (in which case nothing changes), and
    when nothing is live all free extents have coalesced into the whole region. *)
Theorem snapshot_client_safe a b e a0 ops :
  in_u 32 b -> in_u 32 e -> initialize a b e = (a0, success) -> Forall client_op_ok ops ->
  let '(a', live) := client_run a0 ops in
  invariant a' = true /\ allocated a' = total live /\ (forall r, r ∈ live -> ok a' r) /\
  (forall i j r r' x, live !! i = Some r -> live !! j = Some r' -> hit r x = 1 -> hit r' x = 1 -> i = j) /\
  (forall r d x, r ∈ live -> d ∈ extents a' -> hit r x = 1 -> hit d x = 0) /\
  (forall r, r ∈ live -> (release a' r).2 = success \/ release a' r = (a', no_space)) /\
  (live = [] -> extents a' = [mkAllocation (begin_ a') (end_ a' - begin_ a')]).
Proof.
  intros Hb He Hinit Hops. pose proof (ledger_reachable a b e a0 ops Hb He Hinit Hops) as Hl.
  destruct (client_run a0 ops) as [a' live]. simpl in Hl. pose proof Hl as [Hinv Hok Ht Hc].
  split_and!; [by apply snapshot_invariant_holds|done|done| | | |].
  - intros i j r r' x Hi Hj Hr Hr'. eapply cover_disjoint; [|done..].
    specialize (Hc x). pose proof (cover_nonneg (extents a') x). case_decide; lia.
  - intros r d x Hr Hd Hx. pose proof (cover_elem _ r x Hr). pose proof (cover_elem _ d x Hd).
    pose proof (hit_range d x). specialize (Hc x). case_decide; lia.
  - intros r [k Hk]%list_elem_of_lookup. destruct (release a' r) as [a1 st] eqn:Hrel.
    destruct (ledger_release a' live k r a1 st Hl Hk Hrel) as [[-> ->]|[-> _]]; auto.
  - intros ->. by apply snapshot_ledger_empty.
Qed.

(** On every well-formed arena [allocate] either returns nothing and
    changes nothing, exactly when the request is zero or no free extent has
    that many bytes, or hands out an aligned block of at most 15 surplus bytes
    that was entirely free, and removes exactly these bytes from the free ones. *)
Theorem snapshot_allocate_spec a requested a' r :
  inv a -> in_u 32 requested -> allocate a requested = (a', r) ->
  ((requested = 0 \/ forall e, e ∈ extents a -> size e < requested) /\ a' = a /\ r = no_allocation) \/
  (requested <> 0 /\ (exists e, e ∈ extents a /\ requested <= size e) /\ inv a' /\ ok a r /\
   requested <= size r < requested + 16 /\ allocated_ a' = allocated_ a + size r /\
   forall x, cover (extents a) x = cover (extents a') x + hit r x).
Proof.
  intros Hinv Hreq Hal. pose proof (allocate_effect a requested Hinv Hreq) as H. rw Hal in H.
  destruct H as [(? & ? & ?)|(? & ? & ? & _ & _ & ? & ? & ? & ?)]; [left|right]; tauto.
Qed.

(** [release] rejects every range that is misaligned, leaves the region or
    contains a byte that is already free (a double free), and then changes
    nothing; what it accepts becomes free, byte for byte. *)
Theorem snapshot_release_spec a x a' st :
  inv a -> in_u 32 (address x) -> in_u 32 (size x) -> release a x = (a', st) ->
  (st <> success -> a' = a) /\
  (~ ok a x \/ (exists y, hit x y = 1 /\ 0 < cover (extents a) y) -> st = invalid_argument) /\
  (st = success -> inv a' /\ allocated_ a' = allocated_ a - size x /\
     forall y, cover (extents a') y = cover (extents a) y + hit x y /\ cover (extents a') y <= 1).
Proof.
  intros Hinv Ha Hs Hrel.
  destruct (release_effect a x a' st Hinv Ha Hs Hrel)
    as [(-> & -> & _)|[(-> & -> & Hok & _ & Hc)|(-> & Hinv' & _ & _ & Hok & _ & Hal & Hc)]].
  - done.
  - split_and!; [done| |done]. intros [?|(y & Hy & Hy')]; [done|]. specialize (Hc y Hy). lia.
  - pose proof (fun y => cover_sorted (extents a') y (inv_sorted a' Hinv')) as Hle. split_and!; [done| |by auto].
    intros [?|(y & Hy & Hy')]; [done|]. specialize (Hc y). specialize (Hle y). lia.
Qed.

End arena.

(** The kernel's instance, on a 64 KiB region. *)
Definition example_arena : SnapshotArena := (initialize 64 (initial 64) 0x80010004 0x80020000).1.

Definition example_ops : list client_op :=
  [CAllocate 100; CAllocate 5000; CAllocate 16; CRelease 1; CAllocate 0; CAllocate 70000; CRelease 1].

Lemma example_arena_inv : inv 64 example_arena.
Proof.
  eapply (initialize_effect 64 ltac:(lia) (initial 64) 0x80010004 0x80020000); [word|word|].
  vm_compute. reflexivity.
Defined.

Lemma snapshot_client_safe_witness :
  let '(a', live) := client_run 64 example_arena example_ops in
  invariant 64 a' = true /\ length live = 1%nat /\ length (extents a') = 2%nat /\ allocated a' = total live.
Proof.
  pose proof (snapshot_client_safe 64 ltac:(lia) (initial 64) 0x80010004 0x80020000 example_arena example_ops
    ltac:(word) ltac:(word) ltac:(vm_compute; reflexivity) ltac:(repeat constructor; simpl; word)) as H.
  destruct (client_run 64 example_arena example_ops) as [a' live] eqn:E.
  split; [exact (proj1 H)|]. split; [|split; [|exact (proj1 (proj2 H))]];
    revert E; vm_compute; intros [= <- <-]; reflexivity.
Defined.

Lemma snapshot_allocate_spec_witness :
  (allocate example_arena 100).2 = mkAllocation 0x80010010 112 /\
  allocate example_arena 70000 = (example_arena, no_allocation).
Proof.
  split; [vm_compute; reflexivity|].
  destruct (snapshot_allocate_spec 64 ltac:(lia) example_arena 70000 _ _ example_arena_inv ltac:(word)
    (surjective_pairing _)) as [(_ & H1 & H2)|(_ & _ & _ & _ & [H _] & _)].
  - rw (surjective_pairing (allocate example_arena 70000)) H1 H2. reflexivity.
  - exfalso. revert H. vm_compute. intros H. by apply H.
Defined.

Lemma snapshot_release_spec_witness :
  let a := (allocate example_arena 100).1 in
  let r := mkAllocation 0x80010010 112 in
  (release 64 a r).2 = success /\ release 64 (release 64 a r).1 r = ((release 64 a r).1, invalid_argument).
Proof.
  intros a r. assert (Hs : (release 64 a r).2 = success) by (vm_compute; reflexivity). split; [exact Hs|].
  assert (Ha : inv 64 a).
  { pose proof (allocate_effect 64 ltac:(lia) example_arena 100 example_arena_inv ltac:(word)) as H.
    subst a. destruct (allocate example_arena 100) as [a' r']. simpl.
    destruct H as [(-> & _)|(_ & _ & H & _)]; [exact example_arena_inv|exact H]. }
  assert (Hu : in_u 32 (address r) /\ in_u 32 (size r)) by (vm_compute; split; split; congruence).
  destruct Hu as [Hu1 Hu2]. clearbody a.
  destruct (snapshot_release_spec 64 ltac:(lia) a r _ _ Ha Hu1 Hu2 (surjective_pairing _)) as (_ & _ & H).
  destruct (H Hs) as (Hinv & _ & Hc). clear H. set (a1 := (release 64 a r).1) in *. clearbody a1.
  destruct (snapshot_release_spec 64 ltac:(lia) a1 r _ _ Hinv Hu1 Hu2 (surjective_pairing _)) as (H1 & H2 & _).
  assert (Hst : (release 64 a1 r).2 = invalid_argument).
  { apply H2. right. exists 0x80010010. destruct (Hc 0x80010010) as [-> _].
    pose proof (cover_nonneg (extents a) 0x80010010).
    assert (hit r 0x80010010 = 1) as -> by (vm_compute; reflexivity). split; [done|lia]. }
  rw (surjective_pairing (release 64 a1 r)) Hst. f_equal. apply H1. by rw Hst.
Defined.
End SnapshotArena.
