(* ===== verification/Path.v ===== *)
(** * [kernel/path.hpp]: path canonicalization and numbered names

    A [const char*] is [None] for [nullptr] and otherwise the bytes before the
    terminating NUL.  The two character buffers are arrays: a read or write
    outside of them yields [None], which the theorems exclude. *)

From S2P Require Import Prelude.
From stdpp Require Import strings.
Local Open Scope Z_scope.

Module Path.

Definition capacity := 256.
Definition invalid_number := 2 ^ 32 - 1.

Definition slash := 47.
Definition dot := 46.
Definition is_digit (c : Z) : bool := (48 <=? c) && (c <=? 57).

(** A string a pointer can designate: bytes, none of them NUL. *)
Definition c_string (s : list Z) : Prop := Forall (fun c => 0 < c < 256) s.

(** [text[index]]: the terminator at the end. *)
Definition char_at (s : list Z) (i : nat) : Z := default 0 (s !! i).

(** ** [numbered_suffix] *)

Fixpoint skip_prefix (text prefix : list Z) : option (list Z) :=
  match prefix, text with
  | [], _ => Some text
  | p :: prefix, t :: text => if t =? p then skip_prefix text prefix else None
  | _ :: _, [] => None
  end.

(** The [do ... while] loop from a digit on; the remaining text and the value. *)
Fixpoint parse_digits (text : list Z) (limit value : Z) : option (list Z * Z) :=
  match text with
  | [] => Some ([], value)
  | c :: rest =>
      if is_digit c then
        let digit := u32 (c - 48) in
        if (limit <=? digit) || (u32 (limit - 1 - digit) / 10 <? value) then None
        else parse_digits rest limit (u32 (value * 10 + digit))
      else Some (c :: rest, value)
  end.

Definition numbered_suffix (text prefix : option (list Z)) (limit : Z) : Z :=
  match text, prefix with
  | Some text, Some prefix =>
      if limit =? 0 then invalid_number else
      match skip_prefix text prefix with
      | None => invalid_number
      | Some rest =>
          if negb (is_digit (char_at rest 0)) then invalid_number else
          match parse_digits rest limit 0 with
          | None => invalid_number
          | Some (rest, value) =>
              if bool_decide (rest = []) && (value <? limit) then value else invalid_number
          end
      end
  | _, _ => invalid_number
  end.

(** ** [canonicalize] *)

(** [buffer[i] = c]. *)
Definition store (buffer : list Z) (i : nat) (c : Z) : option (list Z) :=
  if decide (i < length buffer)%nat then Some (<[i := c]> buffer) else None.

(** What a loop that may [return false] does. *)
Inductive flow (A : Type) := Continue (a : A) | Return_false.
Arguments Continue {A} a.
Arguments Return_false {A}.

(** Both copy loops: one byte per iteration, up to the NUL of [s]. *)
Fixpoint append (s : list Z) (combined : list Z) (n : nat) : option (flow (list Z * nat)) :=
  match s with
  | [] => Some (Continue (combined, n))
  | c :: s =>
      if (2 * capacity <=? Z.of_nat n + 1) then Some Return_false
      else combined ← store combined n c; append s combined (S n)
  end.

(** The absolute path in [combined], NUL-terminated. *)
Definition combine (cwd path : list Z) : option (flow (list Z)) :=
  let zero := replicate (Z.to_nat (2 * capacity)) 0 in
  start ← (if negb (char_at path 0 =? slash) then
             r ← append cwd zero 0;
             match r with
             | Return_false => Some Return_false
             | Continue (combined, n) =>
                 if (n =? 0)%nat || negb (default 0 (combined !! (n - 1)%nat) =? slash)
                 then combined ← store combined n slash; Some (Continue (combined, S n))
                 else Some (Continue (combined, n))
             end
           else Some (Continue (zero, 0%nat)));
  match start with
  | Return_false => Some Return_false
  | Continue (combined, n) =>
      r ← append path combined n;
      match r with
      | Return_false => Some Return_false
      | Continue (combined, n) => combined ← store combined n 0; Some (Continue combined)
      end
  end.

(** [while (p(combined[cursor])) ++cursor;] *)
Fixpoint scan (fuel : nat) (p : Z -> bool) (combined : list Z) (cursor : nat) : option nat :=
  match fuel with
  | O => None
  | S fuel => c ← combined !! cursor;
              if p c then scan fuel p combined (S cursor) else Some cursor
  end.

(** [while (output_size > 1 && output[output_size - 1] != '/') --output_size;] *)
Fixpoint strip (fuel : nat) (output : list Z) (n : nat) : option nat :=
  match fuel with
  | O => None
  | S fuel =>
      if (1 <? n)%nat then
        c ← output !! (n - 1)%nat;
        if negb (c =? slash) then strip fuel output (n - 1)%nat else Some n
      else Some n
  end.

(** [for (index < size) output[output_size++] = combined[component + index];] *)
Fixpoint copy (size : nat) (combined : list Z) (component : nat) (output : list Z) (n : nat)
    : option (list Z * nat) :=
  match size with
  | O => Some (output, n)
  | S size => c ← combined !! component; output ← store output n c;
              copy size combined (S component) output (S n)
  end.

(** The body of the loop once the component [component, component + size) is
    known: whether the loop goes on, and the output. *)
Definition component_step (combined : list Z) (component size : nat) (output : list Z) (n : nat)
    (output_capacity : Z) : option (bool * (list Z * nat)) :=
  if (size =? 0)%nat then Some (true, (output, n)) else
  c0 ← combined !! component;
  if (size =? 1)%nat && (c0 =? dot) then Some (true, (output, n)) else
  dots ← (if (size =? 2)%nat && (c0 =? dot) then c1 ← combined !! S component; Some (c1 =? dot)
          else Some false);
  if (dots : bool) then
    if (1 <? n)%nat then
      n ← strip (S n) output n;
      Some (true, (output, if (1 <? n)%nat then (n - 1)%nat else n))
    else Some (true, (output, n))
  else
    let separator := if (1 <? n)%nat then 1%nat else 0%nat in
    if u32 (output_capacity - Z.of_nat n) <=? u32 (Z.of_nat (size + separator))
    then Some (false, (output, n)) else
    r ← (if (separator =? 0)%nat then Some (output, n)
         else output ← store output n slash; Some (output, S n));
    r ← copy size combined component r.1 r.2;
    Some (true, r).

Fixpoint components (fuel : nat) (combined : list Z) (cursor : nat) (output : list Z) (n : nat)
    (output_capacity : Z) : option (bool * (list Z * nat)) :=
  match fuel with
  | O => None
  | S fuel =>
      c ← combined !! cursor;
      if c =? 0 then Some (true, (output, n)) else
      component ← scan (S (length combined)) (fun c => c =? slash) combined cursor;
      cursor ← scan (S (length combined)) (fun c => negb (c =? 0) && negb (c =? slash)) combined component;
      r ← component_step combined component (cursor - component) output n output_capacity;
      let '(go, (output, n)) := r in
      if go : bool then components fuel combined cursor output n output_capacity
      else Some (false, (output, n))
  end.

(** The returned flag and the output buffer of [output_capacity] bytes. *)
Definition canonicalize (current_directory path output : option (list Z)) (output_capacity : Z)
    : option (bool * option (list Z)) :=
  match current_directory, path, output with
  | Some cwd, Some path, Some out =>
      if (char_at path 0 =? 0) || (output_capacity <? 2) then Some (false, output) else
      r ← combine cwd path;
      match r with
      | Return_false => Some (false, output)
      | Continue combined =>
          out ← store out 0 slash;
          r ← components (S (length combined)) combined 0 out 1 output_capacity;
          let '(go, (out, n)) := r in
          if go : bool then out ← store out n 0; Some (true, Some out) else Some (false, Some out)
      end
  | _, _, _ => Some (false, output)
  end.

Definition chars (s : string) : list Z :=
  map (fun c => Z.of_nat (Ascii.nat_of_ascii c)) (String.list_ascii_of_string s).

Example canonicalize_example :
  canonicalize (Some (chars "/usr/bin")) (Some (chars "../lib//./x/")) (Some (replicate 16 7)) 16 =
    Some (true, Some (chars "/usr/lib/x" ++ 0 :: replicate 5 7)).
Proof. vm_compute. reflexivity. Qed.

(** ** Specification: resolving a list of components *)

(** Split at every slash, empty components included. *)
Definition split (s : list Z) : list (list Z) :=
  foldr (fun c acc => if c =? slash then [] :: acc
                      else match acc with [] => [[c]] | h :: t => (c :: h) :: t end) [[]] s.

(** The absolute path with the given components. *)
Definition render (cs : list (list Z)) : list Z :=
  match cs with [] => [slash] | _ => concat (map (cons slash) cs) end.

Definition resolve_step (cap : Z) (cs : option (list (list Z))) (c : list Z) : option (list (list Z)) :=
  cs ← cs;
  if decide (c = [] \/ c = [dot]) then Some cs
  else if decide (c = [dot; dot]) then Some (removelast cs)
  else if Z.of_nat (length (render (cs ++ [c]))) <? cap then Some (cs ++ [c]) else None.

Definition resolve (cap : Z) (cs : option (list (list Z))) (s : list Z) : option (list (list Z)) :=
  foldl (resolve_step cap) cs (split s).

(** [path] made absolute. *)
Definition absolute (cwd path : list Z) : list Z :=
  if char_at path 0 =? slash then path
  else cwd ++ (if bool_decide (last cwd = Some slash) then [] else [slash]) ++ path.

Definition component_ok (c : list Z) : Prop :=
  c <> [] /\ c <> [dot] /\ c <> [dot; dot] /\ slash ∉ c.

(** ** Lemmas *)

Lemma split_slash s : split (slash :: s) = [] :: split s.
Proof. done. Qed.

Lemma split_nonempty s : split s <> [].
Proof. destruct s as [|c s]; [done|]. simpl. case_match; [done|]. by case_match. Qed.

Lemma split_app w s :
  slash ∉ w -> (s = [] \/ exists s', s = slash :: s') ->
  split (w ++ s) = w :: tail (split s).
Proof.
  intros Hw Hs. induction w as [|c w IH]; simpl.
  - destruct Hs as [->|[s' ->]]; done.
  - apply not_elem_of_cons in Hw as [Hc Hw]. rw IH //. destruct (Z.eqb_spec c slash); [congruence|done].
Qed.

Lemma resolve_none cap s : resolve cap None s = None.
Proof. unfold resolve. induction (split s) as [|c l IH]; simpl; [done|]. by rw IH. Qed.

Lemma resolve_slash cap cs s : resolve cap cs (slash :: s) = resolve cap cs s.
Proof. unfold resolve. rw split_slash /=. f_equal. by destruct cs. Qed.

Lemma resolve_word cap cs w s :
  slash ∉ w -> (s = [] \/ exists s', s = slash :: s') ->
  resolve cap cs (w ++ s) = resolve cap (resolve_step cap cs w) s.
Proof.
  intros Hw Hs. unfold resolve. rewrite split_app; [done..|]. simpl.
  destruct Hs as [->|[s' ->]]; simpl; by destruct (resolve_step cap cs w).
Qed.

Lemma render_app cs c :
  render (cs ++ [c]) = (if decide (cs = []) then [] else render cs) ++ slash :: c.
Proof.
  unfold render. destruct cs as [|d cs]; simpl; [by rw app_nil_r|].
  rw map_app concat_app /= app_nil_r. by rw app_comm_cons app_assoc.
Qed.

Lemma render_head cs : exists r, render cs = slash :: r.
Proof. destruct cs as [|c cs]; [by exists []|]. by eexists. Qed.

Lemma render_short cs : Forall component_ok cs -> (1 < length (render cs))%nat <-> cs <> [].
Proof.
  intros Hcs. destruct cs as [|c cs]; simpl; [split; [lia|done]|]. split; [done|]. intros _.
  apply Forall_cons in Hcs as [(Hc & _) _]. destruct c as [|x c]; [done|]. simpl. lia.
Qed.
(** ** The buffers *)

Lemma store_middle p x q n c : n = length p -> store (p ++ x :: q) n c = Some (p ++ c :: q).
Proof.
  intros ->. unfold store. rewrite -> decide_True by (rw length_app /=; lia). by rw insert_middle.
Qed.

Lemma append_spec s p m :
  (length p + m = 512)%nat ->
  append s (p ++ replicate m 0) (length p) =
    Some (if decide (s = [] \/ (length p + length s < 512)%nat)
          then Continue (p ++ s ++ replicate (m - length s) 0, (length p + length s)%nat) else Return_false).
Proof.
  revert p m. induction s as [|c s IH]; intros p m Hm; simpl append.
  - rewrite -> decide_True by auto. by rw Nat.sub_0_r Nat.add_0_r.
  - unfold capacity. destruct (Z.leb_spec (2 * 256) (Z.of_nat (length p) + 1)).
    { rewrite -> decide_False; [done|]. simpl. intros [?|?]; [done|lia]. }
    destruct m as [|m]; [lia|]. simpl replicate. rw store_middle //=.
    replace (p ++ c :: replicate m 0) with ((p ++ [c]) ++ replicate m 0) by by rw -app_assoc.
    replace (S (length p)) with (length (p ++ [c])) by (rw length_app /=; lia).
    rw IH; [rw length_app /=; lia|]. rw length_app /=. f_equal.
    destruct (decide (s = [] \/ (length p + 1 + length s < 512)%nat)) as [Hd|Hd].
    + rewrite -> decide_True by (right; destruct Hd as [->|]; simpl; lia).
      rw -app_assoc. do 2 f_equal. lia.
    + rewrite -> decide_False; [done|]. intros [?|?]; [done|]. apply Hd. right. lia.
Qed.

Lemma combine_spec cwd path :
  path <> [] ->
  combine cwd path =
    Some (if decide (length (absolute cwd path) < 512)%nat
          then Continue (absolute cwd path ++ replicate (512 - length (absolute cwd path)) 0)
          else Return_false).
Proof.
  intros Hp. unfold combine. change (Z.to_nat (2 * capacity)) with 512%nat. set (zero := replicate 512 0).
  assert (Hfin : forall p m, (length p + m = 512)%nat ->
    (r ← append path (p ++ replicate m 0) (length p);
     match r with
     | Return_false => Some Return_false
     | Continue (combined, n) => combined ← store combined n 0; Some (Continue combined)
     end) = Some (if decide (length (p ++ path) < 512)%nat
                  then Continue ((p ++ path) ++ replicate (512 - length (p ++ path)) 0) else Return_false)).
  { intros p m Hm. rw append_spec // length_app. simpl.
    destruct (decide (length p + length path < 512)%nat) as [Hlt|Hge].
    - rewrite -> decide_True by auto. simpl. replace (m - length path)%nat with (S (511 - (length p + length path))) by lia.
      rw app_assoc store_middle; [by rw length_app|]. simpl.
      by replace (512 - (length p + length path))%nat with (S (511 - (length p + length path))) by lia.
    - rewrite -> decide_False; [done|]. intros [?|?]; [done|lia]. }
  unfold absolute. destruct (char_at path 0 =? slash) eqn:Habs; cbn [negb].
  { apply (Hfin [] 512%nat). done. }
  rw (append_spec cwd [] 512) //. simpl app.
  destruct (decide (length cwd < 512)%nat) as [Hlt|Hge]; last first.
  { rewrite -> decide_False by (intros [->|?]; simpl in *; lia). simpl.
    rewrite -> decide_False; [done|]. rw length_app. lia. }
  rewrite -> decide_True by auto. simpl.
  assert (Hl : (length cwd =? 0)%nat || negb (default 0 ((cwd ++ replicate (512 - length cwd) 0) !! (length cwd - 1)%nat) =? slash)
    = negb (bool_decide (last cwd = Some slash))).
  { destruct cwd as [|c cwd' _] using rev_ind; [done|]. rw last_snoc -app_assoc /= length_app /= Nat.add_sub.
    rw list_lookup_middle //=. replace (length cwd' + 1 =? 0)%nat with false by (symmetry; apply Nat.eqb_neq; lia).
    simpl. f_equal. case_bool_decide; [simplify_eq; done|]. apply Z.eqb_neq. congruence. }
  rw Hl. destruct (bool_decide _); simpl.
  - by rewrite -> (Hfin cwd (512 - length cwd)%nat) by lia.
  - replace (512 - length cwd)%nat with (S (511 - length cwd)) by lia. simpl replicate.
    rw store_middle //=. specialize (Hfin (cwd ++ [slash]) (511 - length cwd)%nat).
    rw -!app_assoc /= in Hfin. replace (S (length cwd)) with (length (cwd ++ [slash])) by (rw length_app /=; lia).
    rw Hfin; [rw length_app /=; lia|by rw -app_assoc].
Qed.

Lemma scan_spec p w x fuel pre z :
  Forall (fun c => p c = true) w -> p x = false -> (length w < fuel)%nat ->
  scan fuel p (pre ++ w ++ x :: z) (length pre) = Some (length pre + length w)%nat.
Proof.
  revert fuel pre. induction w as [|c w IH]; intros fuel pre Hw Hx Hf; (destruct fuel as [|fuel]; [simpl in Hf; lia|]);
    simpl scan; rewrite -> list_lookup_middle by done; simpl.
  - by rw Hx Nat.add_0_r.
  - apply Forall_cons in Hw as [-> Hw]. specialize (IH fuel (pre ++ [c]) Hw Hx).
    rw -app_assoc /= length_app /= in IH. rw Nat.add_1_r in IH. rw IH; [simpl in Hf; lia|]. f_equal. lia.
Qed.

Lemma strip_spec p c z fuel :
  slash ∉ c -> (length c < fuel)%nat ->
  strip fuel (p ++ slash :: c ++ z) (length p + 1 + length c) = Some (length p + 1)%nat.
Proof.
  revert z fuel. induction c as [|x c IH] using rev_ind; intros z fuel Hc Hf; (destruct fuel as [|fuel]; [lia|]);
    simpl strip.
  - rw /= Nat.add_0_r Nat.add_sub list_lookup_middle //=. destruct (Nat.ltb_spec 1 (length p + 1)); done.
  - rw not_elem_of_app in Hc. destruct Hc as [Hc Hx]. rw length_app /=.
    rw length_app /= in Hf. replace (length p + 1 + (length c + 1) - 1)%nat with (length p + 1 + length c)%nat by lia.
    rewrite -> (proj2 (Nat.ltb_lt _ _)) by lia. rw -app_assoc /=.
    rewrite -> lookup_app_r by lia. replace (length p + 1 + length c - length p)%nat with (S (length c)) by lia.
    simpl. rewrite -> list_lookup_middle by done. simpl.
    destruct (Z.eqb_spec x slash); [subst; exfalso; apply Hx; by left|]. simpl. apply IH; [done|lia].
Qed.

Lemma copy_spec w pre z o r :
  (length w <= length r)%nat ->
  copy (length w) (pre ++ w ++ z) (length pre) (o ++ r) (length o) =
    Some (o ++ w ++ drop (length w) r, length (o ++ w)).
Proof.
  revert pre o r. induction w as [|c w IH]; intros pre o r Hr; simpl copy.
  - by rw drop_0 app_nil_r.
  - destruct r as [|y r]; [simpl in Hr; lia|]. rw list_lookup_middle //= store_middle //=.
    specialize (IH (pre ++ [c]) (o ++ [c]) r). rw -!app_assoc /= !length_app /= !Nat.add_1_r in IH.
    rw IH; [simpl in Hr; lia|]. by rw !length_app /= Nat.add_succ_r.
Qed.

(** ** The loop *)

(** The output buffer holds the rendering of [cs], with room for the NUL. *)
Record holds (cap : Z) (cs : list (list Z)) (output : list Z) (n : nat) : Prop := {
  holds_ok : Forall component_ok cs;
  holds_prefix : exists r, output = render cs ++ r;
  holds_size : n = length (render cs);
  holds_length : length output = Z.to_nat cap;
  holds_room : Z.of_nat n < cap;
}.

#[local] Arguments strip : simpl never.
#[local] Arguments copy : simpl never.
#[local] Arguments scan : simpl never.

Lemma component_step_spec cap cs output n pre w x z :
  2 <= cap < 2 ^ 31 -> Z.of_nat (length w) < 512 -> holds cap cs output n -> slash ∉ w ->
  exists go output' n',
    component_step (pre ++ w ++ x :: z) (length pre) (length w) output n cap = Some (go, (output', n')) /\
    length output' = Z.to_nat cap /\
    match resolve_step cap (Some cs) w with
    | Some cs' => go = true /\ holds cap cs' output' n'
    | None => go = false
    end.
Proof.
  intros Hcap Hlw [Hok [r ->] -> Hl Hroom] Hw. unfold component_step, resolve_step. simpl.
  assert (Hsame : holds cap cs (render cs ++ r) (length (render cs))) by by (split; eauto).
  destruct w as [|c0 w].
  { rewrite -> decide_True by auto. simpl. by eauto 10. }
  simpl. rw (list_lookup_middle pre (w ++ x :: z) c0 (length pre)) //=.
  destruct (decide (c0 :: w = [] \/ c0 :: w = [dot])) as [[?|[= -> ->]]|Hnd]; [done|simpl; by eauto 10|].
  assert (((length w =? 0)%nat && (c0 =? dot)) = false) as ->.
  { destruct w; [|done]. simpl. apply Z.eqb_neq. intros ->. tauto. }
  set (dots := if (length w =? 1)%nat && (c0 =? dot) then _ else _).
  assert (dots = Some (bool_decide (c0 :: w = [dot; dot]))) as ->.
  { subst dots. destruct w as [|c1 [|c2 w]]; simpl; try (by rw bool_decide_false).
    destruct (Z.eqb_spec c0 dot) as [->|Hne]; [|rw bool_decide_false //; congruence].
    rewrite -> (lookup_app_r pre) by lia. replace (S (length pre) - length pre)%nat with 1%nat by lia. simpl. f_equal.
    case_bool_decide; [by simplify_eq|]. apply Z.eqb_neq. congruence. }
  simpl. case_bool_decide as Hdd.
  - rewrite -> decide_True by done. destruct (Nat.ltb_spec 1 (length (render cs))) as [Hlt|Hge]; last first.
    + pose proof (render_short cs Hok) as Hsh. assert (cs = []) as -> by (destruct cs; [done|]; pose proof (proj2 Hsh ltac:(done)); lia).
      simpl. by eauto 10.
    + assert (cs <> []) as Hne by (intros ->; simpl in Hlt; lia).
      destruct cs as [|c cs' _] using rev_ind; [done|]. rw removelast_last.
      apply Forall_app in Hok as [Hok [Hc _]%Forall_cons]. rw render_app in Hl Hroom Hlt |- *.
      set (P := if decide (cs' = []) then [] else render cs') in *.
      replace (length (P ++ slash :: c)) with (length P + 1 + length c)%nat by (rw length_app /=; lia).
      rw -app_assoc /= strip_spec; [apply Hc|lia|]. simpl. eexists _, _, _. split_and!; [reflexivity| |done|].
      * by rw -Hl -app_assoc.
      * destruct (Nat.ltb_spec 1 (length P + 1)) as [HP|HP].
        -- assert (P = render cs' /\ cs' <> []) as [HPe ?].
           { subst P. case_decide; [simpl in HP; lia|done]. }
           rw HPe in Hl Hroom |- *. rw !length_app /= in Hl Hroom.
           split; [done|by eexists|lia|rw length_app /= length_app; lia|lia].
        -- assert (cs' = []) as ->.
           { subst P. case_decide; [done|]. destruct (render_head cs') as [? E]. rw E in HP. simpl in HP. lia. }
           subst P. simpl in *. split; [done|by eexists|done|done|lia].
  - rewrite -> decide_False by done.
    set (w0 := c0 :: w) in *. assert (Hw0 : length w0 = S (length w)) by done. set (sep := if (1 <? length (render cs))%nat then 1%nat else 0%nat).
    assert (Hlen : length (render (cs ++ [w0])) = (length (render cs) + sep + length w0)%nat).
    { rw render_app length_app /=. pose proof (render_short cs Hok) as Hsh. subst sep.
      destruct (Nat.ltb_spec 1 (length (render cs))).
      - rewrite -> decide_False by tauto. lia.
      - destruct cs; [simpl; lia|]. exfalso. pose proof (proj2 Hsh ltac:(done)). lia. }
    rw !wrap_small; [unfold in_u; simpl in *; lia|unfold in_u; rw length_app in Hl; subst sep; destruct (_ <? _)%nat; simpl in *; lia|].
    change (S (length w + sep)) with (length w0 + sep)%nat.
    destruct (Z.leb_spec (cap - Z.of_nat (length (render cs))) (Z.of_nat (length w0 + sep))) as [Hbig|Hfit].
    { rewrite -> (proj2 (Z.ltb_ge _ _)) by lia. eexists _, _, _. split; [reflexivity|done]. }
    rewrite -> (proj2 (Z.ltb_lt _ _)) by lia.
    assert (Hstart : exists o r', (if (sep =? 0)%nat then Some (render cs ++ r, length (render cs))
       else output ← store (render cs ++ r) (length (render cs)) slash; Some (output, S (length (render cs))))
       = Some (o ++ r', length o) /\ o ++ w0 = render (cs ++ [w0]) /\ (length w0 <= length r')%nat /\
       length (o ++ r') = Z.to_nat cap).
    { rw length_app in Hl. rw render_app. pose proof (render_short cs Hok) as Hsh. subst sep.
      destruct (Nat.ltb_spec 1 (length (render cs))) as [Hlt|Hge]; simpl.
      - destruct r as [|y r]; [simpl in Hl; lia|]. rw store_middle //=. exists (render cs ++ [slash]), r.
        rewrite -> decide_False by tauto. rw -!app_assoc !length_app /=. simpl in Hl.
        split_and!; [do 2 f_equal; lia|done|lia|lia].
      - assert (cs = []) as -> by (destruct cs; [done|]; pose proof (proj2 Hsh ltac:(done)); lia).
        exists [slash], r. simpl in *. split_and!; [done|done|lia|lia]. }
    destruct Hstart as (o & r' & -> & Ho & Hr' & Hlo). simpl.
    change (pre ++ c0 :: w ++ x :: z) with (pre ++ w0 ++ x :: z). clearbody w0.
    rw -Hw0 copy_spec //=. rw app_assoc Ho.
    eexists _, _, _. assert (length (render (cs ++ [w0]) ++ drop (length w0) r') = Z.to_nat cap).
    { rw -Ho !length_app length_drop. rw length_app in Hlo. lia. }
    split_and!; [reflexivity|done|done|]. split; [|by eexists|done|done|lia].
    apply Forall_app. split; [done|]. apply Forall_singleton. split_and!; [tauto|tauto|done|done].
Qed.

(** Any string is a longest [p]-prefix followed by the rest. *)
Lemma longest_prefix (p : Z -> bool) s :
  exists w s', s = w ++ s' /\ Forall (fun c => p c = true) w /\
    forall x t, s' = x :: t -> p x = false.
Proof.
  induction s as [|c s IH]; [by exists [], []|]. destruct (p c) eqn:E.
  - destruct IH as (w & s' & -> & ? & ?). exists (c :: w), s'. split_and!; [done|by constructor|done].
  - exists [], (c :: s). split_and!; [done|done|]. by intros x t [= <- <-].
Qed.

(** The loop from [cursor = length pre], with [s] left to read. *)
Lemma components_spec cap s fuel pre z cs output n :
  2 <= cap < 2 ^ 31 -> Forall (fun c => c <> 0) s -> (length s < 512)%nat -> (length s < fuel)%nat ->
  holds cap cs output n ->
  exists go output' n',
    components fuel (pre ++ s ++ 0 :: z) (length pre) output n cap = Some (go, (output', n')) /\
    length output' = Z.to_nat cap /\
    match resolve cap (Some cs) s with
    | Some cs' => go = true /\ holds cap cs' output' n'
    | None => go = false
    end.
Proof.
  intros Hcap. revert s pre cs output n.
  induction fuel as [|fuel IH]; intros s pre cs output n Hnz Hs Hf Hh; [lia|]. cbn [components].
  destruct s as [|c s].
  { rw list_lookup_middle //=. pose proof (holds_length _ _ _ _ Hh). eauto 10. }
  assert (Hc : (pre ++ (c :: s) ++ 0 :: z) !! length pre = Some c) by by apply list_lookup_middle.
  rw Hc. cbn [mbind option_bind]. apply Forall_cons in Hnz as Hnz'. destruct Hnz' as [Hc0 _].
  rewrite -> (proj2 (Z.eqb_neq c 0)) by done.
  destruct (longest_prefix (fun c => c =? slash) (c :: s)) as (sl & s1 & E & Hsl & Hsl').
  destruct (longest_prefix (fun c => negb (c =? 0) && negb (c =? slash)) s1) as (w & s2 & -> & Hw & Hw').
  rw E in Hnz Hs Hf |- *. rw !Forall_app in Hnz. destruct Hnz as (_ & Hnzw & Hnz2).
  rw !length_app in Hs Hf.
  set (buf := pre ++ (sl ++ w ++ s2) ++ 0 :: z).
  assert (length sl < S (length buf) /\ length w < S (length buf))%nat as [Hf1 Hf2] by (subst buf; rw !length_app; lia).
  (* the slashes *)
  assert (Hx1 : exists x t, w ++ s2 ++ 0 :: z = x :: t /\ (x =? slash) = false).
  { destruct (w ++ s2) as [|x t] eqn:E1.
    - apply app_eq_nil in E1 as [-> ->]. exists 0, z. done.
    - exists x, (t ++ 0 :: z). rw app_assoc E1. split; [done|]. by eapply Hsl'. }
  destruct Hx1 as (x1 & t1 & Ex1 & Hx1).
  assert (Hscan1 : scan (S (length buf)) (fun c => c =? slash) buf (length pre) = Some (length (pre ++ sl))).
  { unfold buf at 2. rw -!app_assoc Ex1 length_app. by apply scan_spec. }
  rw Hscan1. cbn [mbind option_bind].
  (* the component *)
  assert (Hx2 : exists x t, s2 ++ 0 :: z = x :: t /\ (negb (x =? 0) && negb (x =? slash)) = false).
  { destruct s2 as [|x t]; [by exists 0, z|]. exists x, (t ++ 0 :: z). split; [done|]. by eapply Hw'. }
  destruct Hx2 as (x2 & t2 & Ex2 & Hx2).
  assert (Hbuf : buf = (pre ++ sl) ++ w ++ x2 :: t2) by (unfold buf; by rw -!app_assoc Ex2).
  assert (Hscan2 : scan (S (length buf)) (fun c => negb (c =? 0) && negb (c =? slash)) buf (length (pre ++ sl))
    = Some (length (pre ++ sl) + length w)%nat).
  { rw {2}Hbuf. by apply scan_spec. }
  rw Hscan2. cbn [mbind option_bind]. replace (_ + length w - _)%nat with (length w) by lia.
  assert (Hws : slash ∉ w).
  { intros Hin. rewrite Forall_forall in Hw. specialize (Hw _ Hin). unfold slash in Hw. done. }
  assert (Hs2 : s2 = [] \/ exists s', s2 = slash :: s').
  { destruct s2 as [|x t]; [by left|right]. exists t. specialize (Hw' x t eq_refl).
    apply Forall_cons in Hnz2 as [? _]. f_equal. lia. }
  assert (Hres : resolve cap (Some cs) (sl ++ w ++ s2) = resolve cap (resolve_step cap (Some cs) w) s2).
  { rw -resolve_word //. clear - Hsl. induction Hsl as [|x l Hx _ IH]; [done|].
    apply Z.eqb_eq in Hx as ->. by rw /= resolve_slash. }
  rw Hres.
  destruct (component_step_spec cap cs output n (pre ++ sl) w x2 t2 Hcap ltac:(lia) Hh Hws)
    as (go & output' & n' & Hst & Hl' & Hstep). rw -Hbuf in Hst. rw Hst. cbn [mbind option_bind].
  destruct (resolve_step cap (Some cs) w) as [cs'|].
  - destruct Hstep as [-> Hh']. replace (length (pre ++ sl) + length w)%nat with (length ((pre ++ sl) ++ w))
      by by rw (length_app (pre ++ sl)).
    replace buf with (((pre ++ sl) ++ w) ++ s2 ++ 0 :: z) by (unfold buf; by rw -!app_assoc).
    apply IH; [done|lia| |done].
    assert (length sl + length w <> 0)%nat; [|lia]. intros H0.
    destruct sl; [|simpl in H0; lia]. destruct w; [|simpl in H0; lia]. simpl in *.
    destruct Hs2 as [->|[s' ->]]; [done|]. by specialize (Hsl' slash s' eq_refl).
  - subst go. rw resolve_none. eauto 10.
Qed.

(** The components of the canonical path, if the buffers can hold it. *)
Definition canonical (cap : Z) (cwd path : list Z) : option (list (list Z)) :=
  if decide (path = [] \/ cap < 2 \/ (512 <= length (absolute cwd path))%nat) then None
  else resolve cap (Some []) (absolute cwd path).

Lemma absolute_nonzero cwd path : c_string cwd -> c_string path -> Forall (fun c => c <> 0) (absolute cwd path).
Proof.
  intros Hc Hp. assert (Hw : forall s, c_string s -> Forall (fun c => c <> 0) s)
    by (intros s Hs; eapply Forall_impl; [exact Hs|]; simpl; lia).
  unfold absolute. case_match; [by apply Hw|]. rw !Forall_app. split_and!; [by apply Hw| |by apply Hw].
  case_match; repeat constructor. unfold slash. lia.
Qed.

Lemma canonicalize_result cwd path out cap :
  c_string cwd -> c_string path -> 0 <= cap < 2 ^ 31 -> length out = Z.to_nat cap ->
  exists ok out', canonicalize (Some cwd) (Some path) (Some out) cap = Some (ok, Some out') /\
    length out' = length out /\
    match canonical cap cwd path with
    | Some cs => ok = true /\ Forall component_ok cs /\ exists r, out' = render cs ++ 0 :: r
    | None => ok = false
    end.
Proof.
  intros Hcwd Hpath Hcap Hout. unfold canonicalize, canonical.
  assert (Hnil : (char_at path 0 =? 0) = bool_decide (path = [])).
  { unfold char_at. destruct path as [|c p]; [done|]. apply Forall_cons in Hpath as [? _].
    rw bool_decide_false // /=. lia. }
  rw Hnil. case_bool_decide as Hp; cbn [orb].
  { rewrite -> decide_True by auto. eauto. }
  destruct (Z.ltb_spec cap 2) as [Hc|Hc].
  { rewrite -> decide_True by auto. eauto. }
  rw combine_spec //. cbn [mbind option_bind].
  destruct (decide (length (absolute cwd path) < 512)%nat) as [Hlt|Hge]; last first.
  { rewrite -> decide_True by (right; right; lia). eauto. }
  rewrite -> decide_False by lia||(intros [?|[?|?]]; [done|lia|lia]).
  destruct out as [|o out]; [simpl in Hout; lia|]. rw (store_middle [] o out 0 slash) //. cbn [mbind option_bind].
  set (full := absolute cwd path) in *.
  replace (512 - length full)%nat with (S (511 - length full)) by lia. simpl replicate.
  destruct (components_spec cap full (S (length (full ++ 0 :: replicate (511 - length full) 0)))
    [] (replicate (511 - length full) 0) [] (slash :: out) 1) as (go & out' & n & Hcomp & Hl' & Hres).
  - lia.
  - by apply absolute_nonzero.
  - done.
  - rw length_app. lia.
  - split; [constructor|by exists out|done|done|lia].
  - rw app_nil_l in Hcomp. change (@length Z []) with 0%nat in Hcomp. rw Hcomp. cbn [mbind option_bind]. destruct (resolve cap (Some []) full) as [cs|].
    + destruct Hres as [-> [Hok [r ->] -> Hl Hroom]]. destruct r as [|y r].
      { rw app_nil_r in Hl. lia. }
      rw store_middle //. cbn [mbind option_bind]. eexists true, _. split; [reflexivity|].
      rw Hout -Hl !length_app /=. split_and!; [done..|by eexists].
    + subst go. exists false, out'. split_and!; [done|congruence|done].
Qed.

(** C20: [canonicalize] never touches memory outside its buffers and always
    terminates; it succeeds exactly when the path is nonempty, the absolute path
    fits the 512-byte scratch buffer and every intermediate result fits the
    output with its NUL, and then writes the NUL-terminated path obtained by
    resolving the components one by one, each of them nonempty, slash-free and
    neither [.] nor [..]. *)
Theorem path_canonicalize_spec cwd path out cap :
  c_string cwd -> c_string path -> 0 <= cap < 2 ^ 31 -> length out = Z.to_nat cap ->
  exists ok out', canonicalize (Some cwd) (Some path) (Some out) cap = Some (ok, Some out') /\
    length out' = length out /\
    match canonical cap cwd path with
    | Some cs => ok = true /\ Forall component_ok cs /\ exists r, out' = render cs ++ 0 :: r
    | None => ok = false
    end.
Proof. exact (canonicalize_result cwd path out cap). Qed.

(** ** Idempotence *)

(** Characters of the components, each with a slash. *)
Definition weight (cs : list (list Z)) : nat := foldr (fun c n => S (length c) + n)%nat 0%nat cs.

Lemma weight_app cs ds : weight (cs ++ ds) = (weight cs + weight ds)%nat.
Proof. induction cs; simpl; lia. Qed.

Lemma weight_split s : weight (split s) = S (length s).
Proof.
  induction s as [|c s IH]; [done|]. simpl. case_match; [simpl; lia|].
  destruct (split s) as [|h t] eqn:E; [by apply split_nonempty in E|]. simpl in *. lia.
Qed.

Lemma length_render cs : cs <> [] -> length (render cs) = weight cs.
Proof.
  intros Hcs. unfold render. destruct cs as [|c cs]; [done|]. clear Hcs.
  induction (c :: cs) as [|d ds IH]; simpl; [done|]. rw length_app IH. lia.
Qed.

Lemma weight_removelast cs : (weight (removelast cs) <= weight cs)%nat.
Proof. induction cs as [|c cs IH]; simpl; [done|]. destruct cs; simpl in *; lia. Qed.

Lemma resolve_weight cap l cs cs' :
  foldl (resolve_step cap) (Some cs) l = Some cs' -> (weight cs' <= weight cs + weight l)%nat.
Proof.
  revert cs. induction l as [|c l IH]; intros cs; simpl; [intros [= <-]; lia|].
  assert (Hnone : foldl (resolve_step cap) None l = None).
  { clear. induction l as [|c l IH]; [done|]. simpl. exact IH. }
  case_decide; [intros H'; apply IH in H'; lia|]. case_decide.
  - intros H'. apply IH in H'. pose proof (weight_removelast cs). lia.
  - case_match; [|by rw Hnone]. intros H'. apply IH in H'. rw weight_app /= in H'. lia.
Qed.

Lemma split_render cs : Forall component_ok cs -> cs <> [] -> split (render cs) = [] :: cs.
Proof.
  intros Hok Hne. assert (Hg : split (concat (map (cons slash) cs)) = [] :: cs); [|by destruct cs].
  clear Hne. induction Hok as [|c cs (_ & _ & _ & Hc) Hok IH]; [done|].
  cbn [map concat]. rw -app_comm_cons split_slash. f_equal. rw split_app //; [|by rw IH].
  destruct cs as [|d cs]; [by left|right]. by eexists.
Qed.

Lemma resolve_canonical cap cs ds :
  Forall component_ok ds -> (ds = [] \/ Z.of_nat (weight (cs ++ ds)) < cap) ->
  foldl (resolve_step cap) (Some cs) ds = Some (cs ++ ds).
Proof.
  intros Hok. revert cs. induction Hok as [|d ds (H1 & H2 & H3 & H4) Hok IH]; intros cs Hw; simpl.
  - by rw app_nil_r.
  - destruct Hw as [?|Hw]; [done|]. rw weight_app /= in Hw.
    rewrite -> decide_False by tauto. rewrite -> decide_False by done.
    rewrite -> (proj2 (Z.ltb_lt _ _)); last first.
    { rw length_render; [by intros ?%app_eq_nil; naive_solver|]. rw weight_app /=. lia. }
    rw IH; [right; rw !weight_app /=; lia|]. by rw -app_assoc.
Qed.

Lemma resolve_bound cap l cs cs' :
  (cs = [] \/ Z.of_nat (weight cs) < cap) -> foldl (resolve_step cap) (Some cs) l = Some cs' ->
  cs' = [] \/ Z.of_nat (weight cs') < cap.
Proof.
  revert cs. induction l as [|c l IH]; intros cs Hcs; simpl; [by intros [= <-]|].
  assert (Hnone : foldl (resolve_step cap) None l = None).
  { clear. induction l as [|c l IH]; [done|]. simpl. exact IH. }
  case_decide; [by apply IH|]. case_decide.
  - apply IH. pose proof (weight_removelast cs). destruct Hcs as [->|]; [by left|right; lia].
  - case_match eqn:E; [|by rw Hnone]. apply IH. right. apply Z.ltb_lt in E.
    rw length_render in E; [by intros ?%app_eq_nil; naive_solver|done].
Qed.

Lemma split_chars (P : Z -> Prop) s : Forall P s -> Forall (Forall P) (split s).
Proof.
  induction 1 as [|c s Hc Hs IH]; [repeat constructor|]. simpl. case_match; [by constructor|].
  destruct (split s) as [|h t]; [by repeat constructor|]. apply Forall_cons in IH as [? ?]. by repeat constructor.
Qed.

Lemma removelast_Forall {A} (P : A -> Prop) l : Forall P l -> Forall P (removelast l).
Proof. induction 1 as [|x l Hx Hl IH]; [constructor|]. simpl. destruct l; [constructor|by constructor]. Qed.

Lemma resolve_chars (P : list Z -> Prop) cap l cs cs' :
  Forall P cs -> Forall P l -> foldl (resolve_step cap) (Some cs) l = Some cs' -> Forall P cs'.
Proof.
  intros Hcs Hl. revert cs Hcs. induction Hl as [|c l Hc Hl IH]; intros cs Hcs; simpl; [by intros [= <-]|].
  assert (Hnone : foldl (resolve_step cap) None l = None).
  { clear. induction l as [|c l IH]; [done|]. simpl. exact IH. }
  case_decide; [by apply IH|]. case_decide; [by apply IH, removelast_Forall|].
  case_match; [|by rw Hnone]. apply IH. apply Forall_app. split; [done|by apply Forall_singleton].
Qed.

Lemma render_c_string cs : Forall c_string cs -> c_string (render cs).
Proof.
  intros Hcs. assert (Hg : c_string (concat (map (cons slash) cs))).
  { induction Hcs as [|c cs Hc _ IH]; [constructor|]. simpl. constructor; [unfold slash; lia|].
    by apply Forall_app. }
  destruct cs; [|done]. repeat constructor; unfold slash; lia.
Qed.

Lemma absolute_head cwd path :
  (cwd = [] \/ exists d, cwd = slash :: d) -> exists s, absolute cwd path = slash :: s.
Proof.
  intros Hd. unfold absolute. destruct (Z.eqb_spec (char_at path 0) slash) as [E|_].
  - destruct path as [|c p]; [by unfold char_at in E|]. exists p. unfold char_at in E. simpl in E. by subst c.
  - destruct Hd as [->|[d ->]]; [by eexists|]. by eexists.
Qed.

Lemma absolute_c_string cwd path : c_string cwd -> c_string path -> c_string (absolute cwd path).
Proof.
  intros Hc Hp. unfold absolute. case_match; [done|]. unfold c_string. rw !Forall_app.
  split_and!; [done| |done]. case_match; repeat constructor; unfold slash; lia.
Qed.

Lemma canonical_again cap cwd cwd' path cs :
  c_string cwd -> c_string path -> (cwd = [] \/ exists d, cwd = slash :: d) ->
  Forall component_ok cs -> canonical cap cwd path = Some cs ->
  c_string (render cs) /\ canonical cap cwd' (render cs) = Some cs.
Proof.
  intros Hcwd Hpath Hdir Hok. unfold canonical. destruct (decide _) as [|Hd]; [done|]. intros Hres.
  pose proof (absolute_c_string cwd path Hcwd Hpath) as Hfull.
  destruct (absolute_head cwd path Hdir) as [s Es]. rw Es in Hd Hres Hfull. rw resolve_slash in Hres.
  unfold resolve in Hres. split.
  { apply render_c_string. eapply (resolve_chars _ cap (split s)); [constructor| |done].
    apply split_chars. by inversion Hfull. }
  pose proof (resolve_weight _ _ _ _ Hres) as Hw. rw weight_split /= in Hw.
  apply resolve_bound in Hres as Hb; [|by left].
  destruct (render_head cs) as [t Et].
  assert (Ha : absolute cwd' (render cs) = render cs) by (rw Et; done). rw Ha.
  assert (Hlen : (length (render cs) < 512)%nat).
  { simpl in Hd. destruct cs as [|c cs]; [simpl; lia|]. rw length_render //. lia. }
  rewrite -> decide_False; last first.
  { intros [E|[?|?]]; [by rw Et in E|tauto|lia]. }
  unfold resolve. destruct cs as [|c cs]; [done|]. rw split_render //.
  change (foldl (resolve_step cap) (Some []) ([] :: c :: cs)) with (foldl (resolve_step cap) (Some []) (c :: cs)).
  apply (resolve_canonical cap [] (c :: cs) Hok). right. destruct Hb; done.
Qed.

(** Canonical paths are fixed points: canonicalizing a result again, from
    whatever directory, succeeds with the same output capacity and writes the
    same path. *)
Theorem path_canonical_idempotent cwd cwd' path out out1 out2 cap :
  c_string cwd -> c_string cwd' -> c_string path -> (cwd = [] \/ exists d, cwd = slash :: d) ->
  0 <= cap < 2 ^ 31 -> length out = Z.to_nat cap -> length out2 = Z.to_nat cap ->
  canonicalize (Some cwd) (Some path) (Some out) cap = Some (true, Some out1) ->
  exists p r r', c_string p /\ out1 = p ++ 0 :: r /\
    canonicalize (Some cwd') (Some p) (Some out2) cap = Some (true, Some (p ++ 0 :: r')).
Proof.
  intros Hcwd Hcwd' Hpath Hdir Hcap Hl Hl2 Hrun.
  destruct (canonicalize_result cwd path out cap Hcwd Hpath Hcap Hl) as (ok & o & Hc & _ & Hm).
  rw Hrun in Hc. injection Hc as <- <-. destruct (canonical cap cwd path) as [cs|] eqn:E; [|done].
  destruct Hm as (_ & Hok & r & ->).
  destruct (canonical_again cap cwd cwd' path cs Hcwd Hpath Hdir Hok E) as [Hs Hagain].
  destruct (canonicalize_result cwd' (render cs) out2 cap Hcwd' Hs Hcap Hl2) as (ok & o & Hc & _ & Hm).
  rw Hagain in Hm. destruct Hm as (-> & _ & r' & ->). by exists (render cs), r, r'.
Qed.

(** ** Numbered names *)

Definition decimal (ds : list Z) : Z := foldl (fun v d => v * 10 + (d - 48)) 0 ds.

Lemma foldl_decimal_mono ds v w :
  Forall (fun c => is_digit c = true) ds -> 0 <= v <= w ->
  v <= foldl (fun v d => v * 10 + (d - 48)) w ds.
Proof.
  intros Hd. revert w. induction Hd as [|c ds Hc _ IH]; intros w Hw; simpl; [lia|].
  unfold is_digit in Hc. apply IH. lia.
Qed.

Lemma parse_digits_spec text limit value :
  0 < limit < 2 ^ 32 -> 0 <= value < limit ->
  exists ds rest, text = ds ++ rest /\ Forall (fun c => is_digit c = true) ds /\
    is_digit (char_at rest 0) = false /\
    parse_digits text limit value =
      (let v := foldl (fun v d => v * 10 + (d - 48)) value ds in
       if v <? limit then Some (rest, v) else None).
Proof.
  intros Hlim. revert value. induction text as [|c text IH]; intros value Hv.
  { exists [], []. split_and!; [done..|]. simpl. by rewrite -> (proj2 (Z.ltb_lt _ _)) by lia. }
  simpl. destruct (is_digit c) eqn:Hd; last first.
  { exists [], (c :: text). split_and!; [done..|]. simpl. by rewrite -> (proj2 (Z.ltb_lt _ _)) by lia. }
  unfold is_digit in Hd. rewrite -> (wrap_small 32 (c - 48)) by word.
  destruct ((limit <=? c - 48) || (u32 (limit - 1 - (c - 48)) / 10 <? value)) eqn:Hover.
  - destruct (IH 0 ltac:(lia)) as (ds & rest & -> & Hds & Hrest & _). exists (c :: ds), rest.
    split_and!; [done|constructor; [unfold is_digit; lia|done]|done|]. simpl.
    assert (limit <= value * 10 + (c - 48)) as Hbig by (destruct (Z.leb_spec limit (c - 48)); [lia|word]).
    pose proof (foldl_decimal_mono ds limit (value * 10 + (c - 48)) Hds ltac:(lia)).
    by rewrite -> (proj2 (Z.ltb_ge _ _)) by lia.
  - assert (value * 10 + (c - 48) < limit) by word. rewrite -> wrap_small by (unfold in_u; lia).
    destruct (IH (value * 10 + (c - 48)) ltac:(lia)) as (ds & rest & -> & Hds & Hrest & ->).
    exists (c :: ds), rest. split_and!; [done|constructor; [unfold is_digit; lia|done]|done|done].
Qed.

Lemma skip_prefix_Some text prefix rest : skip_prefix text prefix = Some rest <-> text = prefix ++ rest.
Proof.
  revert text. induction prefix as [|p prefix IH]; intros text.
  { destruct text; simpl; (split; [by intros [= ->]|by intros ->]). }
  destruct text as [|t text]; [done|]. simpl. destruct (Z.eqb_spec t p) as [->|Hne].
  - rw IH. split; [by intros ->|by intros [= ->]].
  - split; [done|]. intros [= -> _]. done.
Qed.

(** [numbered_suffix] recognizes exactly the names made of the prefix and
    a nonempty decimal number below the limit, whatever its length, and returns
    that number; nothing else is accepted and no arithmetic wraps. *)
Theorem path_numbered_suffix_spec text prefix limit :
  c_string text -> c_string prefix -> 0 <= limit < 2 ^ 32 ->
  let v := numbered_suffix (Some text) (Some prefix) limit in
  (v <> invalid_number -> exists ds, ds <> [] /\ Forall (fun c => is_digit c = true) ds /\
     text = prefix ++ ds /\ v = decimal ds /\ v < limit) /\
  (forall ds, ds <> [] -> Forall (fun c => is_digit c = true) ds -> text = prefix ++ ds ->
     decimal ds < limit -> v = decimal ds).
Proof.
  intros _ _ Hlim. unfold numbered_suffix. cbv zeta. destruct (Z.eqb_spec limit 0) as [->|Hl0].
  { split; [done|]. intros ds _ Hds _ Hlt. pose proof (foldl_decimal_mono ds 0 0 Hds). unfold decimal in Hlt. lia. }
  assert (Hrest : forall rest, let v := (if negb (is_digit (char_at rest 0)) then invalid_number else
            match parse_digits rest limit 0 with
            | None => invalid_number
            | Some (rest, value) =>
                if bool_decide (rest = []) && (value <? limit) then value else invalid_number
            end) in
    v = if decide (rest <> [] /\ Forall (fun c => is_digit c = true) rest /\ decimal rest < limit)
        then decimal rest else invalid_number).
  { intros rest. simpl.
    destruct (parse_digits_spec rest limit 0 ltac:(lia) ltac:(lia)) as (ds & rest' & -> & Hds & Hr & ->). cbv zeta.
    fold (decimal ds). destruct ds as [|d ds].
    { simpl. rw Hr /=. rewrite -> decide_False; [done|]. intros (Hn & Hf & _).
      destruct rest' as [|c r]; [done|]. apply Forall_cons in Hf as [Hc _]. unfold char_at in Hr. simpl in Hr. congruence. }
    apply Forall_cons in Hds as Hds'. destruct Hds' as [Hd _]. unfold char_at at 1. simpl app. rw Hd. simpl negb. cbv iota.
    destruct (Z.ltb_spec (decimal (d :: ds)) limit) as [Hlt|Hge].
    - case_bool_decide as Hnil.
      + subst rest'. rw app_nil_r. rewrite -> (proj2 (Z.ltb_lt _ _)) by lia. simpl andb. cbv iota.
        by rewrite -> decide_True by by split_and!.
      + simpl andb. cbv iota. rewrite -> decide_False; [done|]. intros (_ & Hf & _).
        change (d :: ds ++ rest') with ((d :: ds) ++ rest') in Hf. apply Forall_app in Hf as [_ Hf].
        destruct rest' as [|c r]; [done|]. apply Forall_cons in Hf as [Hc _]. unfold char_at in Hr. simpl in Hr. congruence.
    - rewrite -> decide_False; [done|]. intros (_ & Hf & Hlt'). unfold decimal in *.
      change (d :: ds ++ rest') with ((d :: ds) ++ rest') in Hf, Hlt'. apply Forall_app in Hf as [_ Hf].
      rw foldl_app in Hlt'. apply (Z.lt_irrefl limit). eapply Z.le_lt_trans; [|exact Hlt'].
      apply foldl_decimal_mono; [exact Hf|]. split; [lia|exact Hge]. }
  cbv zeta in Hrest.
  destruct (skip_prefix text prefix) as [rest|] eqn:E; last first.
  { split; [done|]. intros ds _ _ Ht _. apply skip_prefix_Some in Ht. congruence. }
  rw Hrest. apply skip_prefix_Some in E. case_decide as Hd.
  - destruct Hd as (? & ? & ?). split; [by exists rest|]. intros ds _ _ Ht _. subst text. by apply app_inv_head in Ht as ->.
  - split; [done|]. intros ds ? ? Ht ?. subst text. apply app_inv_head in Ht as ->. exfalso. apply Hd. by split_and!.
Qed.

Lemma c_string_check s : forallb (fun c => (0 <? c) && (c <? 256)) s = true -> c_string s.
Proof.
  intros H. apply Forall_forall. intros c Hc. rewrite forallb_forall in H.
  apply list_elem_of_In, H in Hc. lia.
Defined.

Lemma path_canonicalize_spec_witness :
  exists done out',
    canonicalize (Some (chars "/usr/bin")) (Some (chars "../lib//./x/")) (Some (replicate 16 7)) 16 = Some (done, Some out') /\
    done = true /\ exists r, out' = chars "/usr/lib/x" ++ 0 :: r.
Proof.
  destruct (path_canonicalize_spec (chars "/usr/bin") (chars "../lib//./x/") (replicate 16 7) 16
    ltac:(apply c_string_check; vm_compute; reflexivity) ltac:(apply c_string_check; vm_compute; reflexivity)
    ltac:(lia) ltac:(vm_compute; reflexivity)) as (ok & out' & Hr & _ & Hm).
  exists ok, out'. split; [exact Hr|].
  assert (E : canonical 16 (chars "/usr/bin") (chars "../lib//./x/") = Some [chars "usr"; chars "lib"; chars "x"])
    by (vm_compute; reflexivity).
  rw E in Hm. destruct Hm as (-> & _ & r & ->). split; [reflexivity|]. exists r. reflexivity.
Defined.

Lemma path_canonical_idempotent_witness :
  exists p r r', c_string p /\ chars "/usr/lib/x" ++ 0 :: replicate 5 7 = p ++ 0 :: r /\
    canonicalize (Some (chars "/tmp")) (Some p) (Some (replicate 16 1)) 16 = Some (true, Some (p ++ 0 :: r')).
Proof.
  apply (path_canonical_idempotent (chars "/usr/bin") (chars "/tmp") (chars "../lib//./x/") (replicate 16 7)
    (chars "/usr/lib/x" ++ 0 :: replicate 5 7) (replicate 16 1) 16);
    try (apply c_string_check; vm_compute; reflexivity); try (vm_compute; reflexivity); [|lia].
  right. exists (chars "usr/bin"). vm_compute. reflexivity.
Defined.

Lemma path_numbered_suffix_spec_witness :
  numbered_suffix (Some (chars "pts/012")) (Some (chars "pts/")) 64 = 12 /\
  numbered_suffix (Some (chars "pts/64")) (Some (chars "pts/")) 64 = invalid_number.
Proof.
  destruct (path_numbered_suffix_spec (chars "pts/012") (chars "pts/") 64
    ltac:(apply c_string_check; vm_compute; reflexivity) ltac:(apply c_string_check; vm_compute; reflexivity)
    ltac:(lia)) as [_ H].
  split; [|vm_compute; reflexivity].
  apply (H (chars "012")); [discriminate| |reflexivity|vm_compute; reflexivity].
  apply Forall_forall. intros c Hc. apply list_elem_of_In in Hc. revert c Hc. apply forallb_forall. vm_compute. reflexivity.
Defined.

End Path.
