(* ===== verification/Arena.v ===== *)
(** * [include/mikos/memory/arena.hpp] and [allocator.hpp]: the kernel arena

    The arena's metadata blocks form a linked list through the storage; the
    model keeps them in list order, each with the address it lies at.  A
    pointer is its address and [nullptr] is 0.  The target is RV32: [usize] has
    32 bits, [sizeof(Block)] is 12 and [alignof(Block)] is 4. *)

From S2P Require Import Prelude Base.
From stdpp Require Import gmap.
Local Open Scope Z_scope.

Module Arena.

Definition sizeof_block := 12.
Definition alignof_block := 4.
Definition usize_max := 2 ^ 32 - 1.

Record Block := mkBlock { at_ : Z; bytes : Z; user : Z }.
#[global] Instance block_eta : Eta Block := fun b => mkBlock (at_ b) (bytes b) (user b).

Record Arena := mkArena {
  head_ : list Block;
  used_ : Z;
  high_water_ : Z;
  allocations_ : Z;
}.
#[global] Instance arena_eta : Eta Arena := fun a =>
  mkArena (head_ a) (used_ a) (high_water_ a) (allocations_ a).

Definition initial : Arena := mkArena [] 0 0 0.

Definition initialize (a : Arena) (storage size : Z) : Arena * bool :=
  if negb (bool_decide (head_ a = [])) || (storage =? 0) || (size <? sizeof_block) ||
     negb (storage mod alignof_block =? 0) || (u32 (usize_max - storage) <? size)
  then (a, false)
  else (a <| head_ := [mkBlock storage size 0] |>, true).

(** The address handed out if the block can serve the request. *)
Definition fit (b : Block) (size alignment : Z) : option Z :=
  if negb (user b =? 0) then None else
  let start := u32 (at_ b + sizeof_block) in
  if u32 (usize_max - u32 (alignment - 1)) <? start then None else
  let u := Base.align_up 32 start alignment in
  let padding := u32 (u - at_ b) in
  if (bytes b <? padding) || (u32 (bytes b - padding) <? size) then None else Some u.

(** The block taken for [u], cut off after the allocation if what remains can
    hold a block; [block->next] is the rest of the list. *)
Definition cut (b : Block) (u size : Z) : list Block :=
  let padding := u32 (u - at_ b) in
  let consumed := u32 (padding + size) in
  let rounded := Base.align_up 32 consumed alignof_block in
  if (consumed <=? usize_max - (alignof_block - 1)) && (rounded <=? bytes b) &&
     (sizeof_block + alignof_block <=? u32 (bytes b - rounded))
  then [mkBlock (at_ b) rounded u; mkBlock (u32 (at_ b + rounded)) (u32 (bytes b - rounded)) 0]
  else [mkBlock (at_ b) (bytes b) u].

(** The loop over the blocks: the new list, the pointer, the bytes taken. *)
Fixpoint allocate_from (l : list Block) (size alignment : Z) : option (list Block * Z * Z) :=
  match l with
  | [] => None
  | b :: l =>
      match fit b size alignment with
      | Some u => let c := cut b u size in
                  Some (c ++ l, u, match c with b :: _ => bytes b | [] => 0 end)
      | None =>
          match allocate_from l size alignment with
          | Some (l, u, n) => Some (b :: l, u, n)
          | None => None
          end
      end
  end.

Definition try_allocate (a : Arena) (size alignment : Z) : Arena * Z :=
  if (size =? 0) || (alignment =? 0) || negb (Z.land alignment (u32 (alignment - 1)) =? 0)
  then (a, 0)
  else match allocate_from (head_ a) size alignment with
       | None => (a, 0)
       | Some (l, u, n) =>
           let used := u32 (used_ a + n) in
           (mkArena l used (if high_water_ a <? used then used else high_water_ a)
              (u32 (allocations_ a + 1)), u)
       end.

(** [block->bytes += next->bytes; block->next = next->next;] if [next] is free. *)
Definition merge_next (b : Block) (l : list Block) : list Block :=
  match l with
  | n :: l' => if user n =? 0 then (b <| bytes := u32 (bytes b + bytes n) |>) :: l' else b :: l
  | [] => [b]
  end.

(** The loop, with the [previous] block; the new list and the bytes freed. *)
Fixpoint release_from (previous : option Block) (l : list Block) (pointer : Z) : option (list Block * Z) :=
  let emit l := match previous with Some p => p :: l | None => l end in
  match l with
  | [] => None
  | b :: l =>
      if negb (user b =? pointer) then
        match release_from (Some b) l pointer with
        | Some (l', n) => Some (emit l', n)
        | None => None
        end
      else
        let merged := merge_next (b <| user := 0 |>) l in
        Some (match previous, merged with
              | Some p, m :: rest =>
                  if user p =? 0 then (p <| bytes := u32 (bytes p + bytes m) |>) :: rest else p :: merged
              | Some p, [] => [p]
              | None, _ => merged
              end, bytes b)
  end.

Definition release (a : Arena) (pointer : Z) : Arena * bool :=
  if pointer =? 0 then (a, true) else
  match release_from None (head_ a) pointer with
  | None => (a, false)
  | Some (l, n) => (a <| head_ := l |> <| used_ ::= fun x => u32 (x - n) |>
                      <| allocations_ ::= fun x => u32 (x - 1) |>, true)
  end.

Definition used (a : Arena) : Z := used_ a.
Definition high_water (a : Arena) : Z := high_water_ a.
Definition allocations (a : Arena) : Z := allocations_ a.

(** ** [Resource], [Reservation] and [KernelAllocator]

    [None] stands for the two functions that do not return,
    [allocation_failure] and [allocation_contract_failure]. *)

Record Resource := mkResource {
  arena_ : Arena;
  reserved_ : Z;
  reserved_bytes_ : Z;
  reserved_alignment_ : Z;
}.
#[global] Instance resource_eta : Eta Resource := fun r =>
  mkResource (arena_ r) (reserved_ r) (reserved_bytes_ r) (reserved_alignment_ r).

Definition resource_initial (a : Arena) : Resource := mkResource a 0 0 0.

(** The constructor of [Reservation]; its [pointer_] is returned. *)
Definition reserve (r : Resource) (size alignment : Z) : option (Resource * Z) :=
  if negb (reserved_ r =? 0) then None else
  let '(a, p) := try_allocate (arena_ r) size alignment in
  Some (if negb (p =? 0) then mkResource a p size alignment else r <| arena_ := a |>, p).

(** The destructor. *)
Definition unreserve (r : Resource) (pointer : Z) : option Resource :=
  if negb (pointer =? 0) && (reserved_ r =? pointer) then
    let '(a, released) := release (arena_ r) pointer in
    if negb released then None else Some (r <| reserved_ := 0 |> <| arena_ := a |>)
  else Some r.

Definition allocate (r : Resource) (size alignment : Z) : option (Resource * Z) :=
  if negb (reserved_ r =? 0) then
    if (reserved_bytes_ r <? size) || (reserved_alignment_ r <? alignment) then None
    else Some (r <| reserved_ := 0 |>, reserved_ r)
  else
    let '(a, p) := try_allocate (arena_ r) size alignment in
    if p =? 0 then None else Some (r <| arena_ := a |>, p).

Definition deallocate (r : Resource) (pointer : Z) : option Resource :=
  let '(a, released) := release (arena_ r) pointer in
  if negb released then None else Some (r <| arena_ := a |>).

(** [KernelAllocator<T>] for a [T] of [sizeof_t] bytes aligned at [alignof_t]. *)
Definition max_size (sizeof_t : Z) : Z := usize_max / sizeof_t.

Definition allocate_n (sizeof_t alignof_t : Z) (r : Resource) (n : Z) : option (Resource * Z) :=
  if max_size sizeof_t <? n then None
  else allocate r (if n =? 0 then sizeof_t else u32 (n * sizeof_t)) alignof_t.

(** ** Alignments are powers of two *)

Lemma power_of_two a : 0 < a < 2 ^ 32 -> Z.land a (u32 (a - 1)) = 0 -> exists k, 0 <= k < 32 /\ a = 2 ^ k.
Proof.
  intros Ha. rewrite -> wrap_small by word. intros Hl. set (k := Z.log2 a).
  pose proof (Z.log2_spec a ltac:(lia)) as [Hlo Hhi]. fold k in Hlo, Hhi.
  pose proof (Z.log2_nonneg a). fold k in H.
  assert (k < 32) by (apply (Z.pow_lt_mono_r_iff 2); lia).
  exists k. split; [lia|]. destruct (decide (a = 2 ^ k)) as [|Hne]; [done|]. exfalso.
  assert (Hb : Z.testbit (Z.land a (a - 1)) k = true).
  { rw Z.land_spec. apply andb_true_iff. split; [apply Z.bit_log2; lia|].
    pose proof (Z.pow_pos_nonneg 2 k ltac:(lia) ltac:(lia)).
    assert (E : Z.log2 (a - 1) = k) by (apply Z.log2_unique; lia). rw -E. apply Z.bit_log2. lia. }
  by rw Hl Z.bits_0 in Hb.
Qed.

(** ** Blocks *)

Record block_ok (b : Block) : Prop := {
  ok_at : 0 < at_ b;
  ok_align : at_ b mod 4 = 0;
  ok_bytes : 12 <= bytes b;
  ok_end : at_ b + bytes b < 2 ^ 32;
  ok_user : user b <> 0 -> at_ b + 12 <= user b < at_ b + bytes b;
}.

(** [u] can hold [size] bytes in the payload of [b]. *)
Definition holds (b : Block) (u size alignment : Z) : Prop :=
  at_ b + 12 <= u /\ u + size <= at_ b + bytes b /\ u mod alignment = 0.

Lemma fit_spec b size k :
  block_ok b -> 0 <= k < 32 -> 0 < size < 2 ^ 32 ->
  match fit b size (2 ^ k) with
  | Some u => user b = 0 /\ holds b u size (2 ^ k)
  | None => user b = 0 -> forall u, ~ holds b u size (2 ^ k)
  end.
Proof.
  intros [H1 H2 H3 H4 H5] Hk Hs. unfold fit, sizeof_block, usize_max.
  pose proof (Z.pow_pos_nonneg 2 k ltac:(lia) ltac:(lia)) as Hp.
  pose proof (Z.pow_lt_mono_r 2 k 32 ltac:(lia) ltac:(lia)) as Hp'.
  destruct (Z.eqb_spec (user b) 0) as [Hu|Hu]; cbn [negb]; [|done].
  rewrite -> (wrap_small 32 (at_ b + 12)), (wrap_small 32 (2 ^ k - 1)) by (unfold in_u; lia).
  rewrite -> (wrap_small 32 (2 ^ 32 - 1 - (2 ^ k - 1))) by (unfold in_u; lia).
  assert (Hdiv : 2 ^ 32 = 2 ^ (32 - k) * 2 ^ k) by (rw -Z.pow_add_r; [lia|lia|f_equal; lia]).
  destruct (Z.ltb_spec (2 ^ 32 - 1 - (2 ^ k - 1)) (at_ b + 12)) as [Hover|Hfit].
  { intros _ u (Hlo & Hhi & Hm). apply Z.mod_divide in Hm as [q Hq]; [|lia].
    assert (q < 2 ^ (32 - k)) by nia. assert (2 ^ (32 - k) - 1 < q) by nia. lia. }
  destruct (Base.align_up_spec 32 k (at_ b + 12)) as [Hup Hmod]; [lia|unfold in_u; lia|unfold in_u; lia|].
  set (u := Base.align_up 32 (at_ b + 12) (2 ^ k)) in *.
  rewrite -> (wrap_small 32 (u - at_ b)) by (unfold in_u; lia).
  destruct (Z.ltb_spec (bytes b) (u - at_ b)) as [Hpad|Hpad]; cbn [orb].
  { intros _ v (Hlo & Hhi & Hm). apply Z.mod_divide in Hm as [q Hq]; [|lia].
    apply Z.mod_divide in Hmod as [q' Hq']; [|lia]. assert (q < q') by nia. nia. }
  rewrite -> (wrap_small 32 (bytes b - (u - at_ b))) by (unfold in_u; lia).
  destruct (Z.ltb_spec (bytes b - (u - at_ b)) size) as [Hsz|Hsz].
  { intros _ v (Hlo & Hhi & Hm). apply Z.mod_divide in Hm as [q Hq]; [|lia].
    apply Z.mod_divide in Hmod as [q' Hq']; [|lia]. assert (q < q') by nia. nia. }
  split; [done|]. unfold holds. split_and!; [lia|lia|done].
Qed.

(** ** Lists of blocks *)

Fixpoint chain (a : Z) (l : list Block) (e : Z) : Prop :=
  match l with [] => a = e | b :: l => at_ b = a /\ chain (a + bytes b) l e end.

Lemma chain_app a l1 l2 e : chain a (l1 ++ l2) e <-> exists m, chain a l1 m /\ chain m l2 e.
Proof.
  revert a. induction l1 as [|b l1 IH]; intros a; simpl; [naive_solver|]. rw IH. naive_solver.
Qed.

Definition extent (l : list Block) : Z := foldr (fun b n => bytes b + n) 0 l.

Lemma chain_extent a l e : chain a l e <-> chain a l (a + extent l) /\ e = a + extent l.
Proof.
  revert a. induction l as [|b l IH]; intros a; simpl; [split; [intros ->; split; lia|lia]|].
  rw IH. replace (a + (bytes b + extent l)) with (a + bytes b + extent l) by lia. tauto.
Qed.

(** No two neighbours are free. *)
Definition apart (b c : Block) : Prop := user b <> 0 \/ user c <> 0.

Fixpoint coalesced (l : list Block) : Prop :=
  match l with
  | b :: l' => match l' with c :: _ => apart b c | [] => True end /\ coalesced l'
  | [] => True
  end.

Lemma coalesced_app l1 l2 :
  coalesced (l1 ++ l2) <->
  coalesced l1 /\ coalesced l2 /\ forall b c, last l1 = Some b -> head l2 = Some c -> apart b c.
Proof.
  induction l1 as [|b l1 IH]; [naive_solver|]. simpl. rw IH. destruct l1 as [|b' l1].
  - simpl. destruct l2 as [|c l2]; simpl; naive_solver.
  - simpl. naive_solver.
Qed.

(** Bytes in allocated blocks. *)
Definition taken (l : list Block) : Z := foldr (fun b n => (if user b =? 0 then 0 else bytes b) + n) 0 l.

Lemma taken_app l1 l2 : taken (l1 ++ l2) = taken l1 + taken l2.
Proof. induction l1; simpl; lia. Qed.

Lemma taken_bound l : (forall b, b ∈ l -> 0 <= bytes b) -> 0 <= taken l <= extent l.
Proof.
  induction l as [|b l IH]; intros Hl; simpl; [lia|].
  pose proof (Hl b ltac:(set_solver)). specialize (IH ltac:(set_solver)). case_match; lia.
Qed.

Lemma cut_spec b u size k :
  block_ok b -> 0 < size < 2 ^ 32 -> holds b u size (2 ^ k) ->
  exists b1 r, cut b u size = b1 :: r /\ at_ b1 = at_ b /\ user b1 = u /\ block_ok b1 /\ holds b1 u size (2 ^ k) /\
    (r = [] /\ bytes b1 = bytes b \/
     exists b2, r = [b2] /\ at_ b2 = at_ b + bytes b1 /\ bytes b1 + bytes b2 = bytes b /\ user b2 = 0 /\ block_ok b2).
Proof.
  intros [H1 H2 H3 H4 H5] Hs (Hlo & Hhi & Hm).
  unfold cut, sizeof_block, alignof_block, usize_max.
  rewrite -> (wrap_small 32 (u - at_ b)), (wrap_small 32 (u - at_ b + size)) by (unfold in_u; lia).
  set (consumed := u - at_ b + size). set (rounded := Base.align_up 32 consumed 4).
  assert (Hnosplit : exists b1 r, [mkBlock (at_ b) (bytes b) u] = b1 :: r /\ at_ b1 = at_ b /\ user b1 = u /\
    block_ok b1 /\ holds b1 u size (2 ^ k) /\ (r = [] /\ bytes b1 = bytes b \/
     exists b2, r = [b2] /\ at_ b2 = at_ b + bytes b1 /\ bytes b1 + bytes b2 = bytes b /\ user b2 = 0 /\ block_ok b2)).
  { exists (mkBlock (at_ b) (bytes b) u), []. unfold holds. split_and!; try done; [|by left].
    split; simpl; try done; lia. }
  destruct (_ && _) eqn:Hc; [|exact Hnosplit]. clear Hnosplit.
  apply andb_true_iff in Hc as [[Hc1 Hc2]%andb_true_iff Hc3]. apply Z.leb_le in Hc1, Hc2, Hc3.
  destruct (Base.align_up_spec 32 2 consumed) as [Hup Hmod]; [lia|unfold in_u, consumed in *; lia|unfold in_u, consumed in *; lia|].
  change (2 ^ 2) with 4 in *. fold rounded in Hup, Hmod.
  rewrite -> (wrap_small 32 (bytes b - rounded)) in * by (unfold in_u; lia).
  rewrite -> (wrap_small 32 (at_ b + rounded)) by (unfold in_u; lia).
  eexists _, _. split_and!; [reflexivity|done|done| | |right; eexists; split_and!; [reflexivity|done| |done|]]; simpl.
  - split; simpl; try done; unfold consumed in *; lia.
  - unfold holds. simpl. unfold consumed in *. split_and!; [lia|lia|done].
  - lia.
  - split; simpl; try done; try lia. word.
Qed.

Lemma allocate_from_spec l size alignment :
  match allocate_from l size alignment with
  | Some (l', u, n) => exists l1 b l2, l = l1 ++ b :: l2 /\ fit b size alignment = Some u /\
      forall b1 r, cut b u size = b1 :: r -> l' = l1 ++ b1 :: r ++ l2 /\ n = bytes b1
  | None => forall b, b ∈ l -> fit b size alignment = None
  end.
Proof.
  induction l as [|b l IH]; simpl; [set_solver|]. destruct (fit b size alignment) as [u|] eqn:Hf.
  - exists [], b, l. split_and!; [done|done|]. intros b1 r ->. done.
  - destruct (allocate_from l size alignment) as [[[l' u] n]|].
    + destruct IH as (l1 & d & l2 & -> & Hfd & Hcut). exists (b :: l1), d, l2.
      split_and!; [done|done|]. intros b1 r E. by destruct (Hcut b1 r E) as [-> ->].
    + intros d [->|Hd]%elem_of_cons; auto.
Qed.

(** Later blocks of a chain lie above. *)
Lemma chain_above a l e b : chain a l e -> (forall d, d ∈ l -> 0 <= bytes d) -> b ∈ l -> a <= at_ b /\ at_ b + bytes b <= e.
Proof.
  revert a. induction l as [|d l IH]; intros a Hc Hn Hb; [by apply elem_of_nil in Hb|]. simpl in Hc.
  destruct Hc as [<- Hc]. pose proof (Hn d ltac:(set_solver)).
  apply elem_of_cons in Hb as [->|Hb].
  - apply chain_extent in Hc as [_ ->]. split; [lia|].
    assert (0 <= extent l); [|lia]. clear - Hn. induction l as [|x l IH]; simpl; [lia|].
    pose proof (Hn x ltac:(set_solver)). assert (0 <= extent l) by (apply IH; set_solver). lia.
  - apply (IH _ Hc) in Hb; [lia|set_solver].
Qed.

(** Two blocks of the chain are the same or disjoint. *)
Lemma chain_disjoint a l e b d :
  chain a l e -> (forall x, x ∈ l -> block_ok x) -> b ∈ l -> d ∈ l ->
  b = d \/ at_ b + bytes b <= at_ d \/ at_ d + bytes d <= at_ b.
Proof.
  intros Hc Hok Hb Hd. revert a Hc. induction l as [|x l IH]; intros a Hc; [by apply elem_of_nil in Hb|].
  simpl in Hc. destruct Hc as [<- Hc].
  assert (Hl : forall y, y ∈ l -> 0 <= bytes y) by (intros y Hy; destruct (Hok y); [set_solver|lia]).
  apply elem_of_cons in Hb as [->|Hb], Hd as [->|Hd].
  - by left.
  - right. left. destruct (chain_above _ _ _ _ Hc Hl Hd). lia.
  - right. right. destruct (chain_above _ _ _ _ Hc Hl Hb). lia.
  - eapply IH; [set_solver|done..].
Qed.

(** ** Invariant *)

Section client.
Context (base total : Z) (Hregion : 0 < base /\ base mod 4 = 0 /\ 12 <= total /\ base + total < 2 ^ 32).

Record inv (a : Arena) : Prop := {
  inv_chain : chain base (head_ a) (base + total);
  inv_ok b : b ∈ head_ a -> block_ok b;
  inv_apart : coalesced (head_ a);
  inv_used : used_ a = taken (head_ a);
}.

(** What the client holds: size and alignment of every live pointer. *)
Abbreviation live_map := (gmap Z (Z * Z)).

Record ledger (a : Arena) (live : live_map) : Prop := {
  ledger_inv : inv a;
  ledger_block b : b ∈ head_ a -> user b <> 0 ->
    exists n al, live !! user b = Some (n, al) /\ 0 < n /\ 0 < al /\ holds b (user b) n al;
  ledger_live u v : live !! u = Some v -> u <> 0 /\ exists b, b ∈ head_ a /\ user b = u;
  ledger_count : allocations_ a = u32 (Z.of_nat (size live));
}.

Lemma inv_total a : inv a -> 0 <= taken (head_ a) <= total.
Proof.
  intros [Hc Hok _ _]. apply chain_extent in Hc as [_ He].
  pose proof (taken_bound (head_ a)) as Hb. assert (0 <= taken (head_ a) <= extent (head_ a)); [|lia].
  apply Hb. intros b Hin. destruct (Hok b Hin). lia.
Qed.

Lemma inv_user_unique a b d : inv a -> b ∈ head_ a -> d ∈ head_ a -> user b = user d -> user b <> 0 -> b = d.
Proof.
  intros [Hc Hok _ _] Hb Hd Hu Hnz. pose proof (ok_user _ (Hok b Hb) Hnz).
  pose proof (ok_user _ (Hok d Hd) ltac:(congruence)).
  destruct (chain_disjoint _ _ _ b d Hc Hok Hb Hd) as [|[?|?]]; [done|lia|lia].
Qed.

Lemma splice_blocks a used hw al l1 b l2 u size k :
  inv a -> head_ a = l1 ++ b :: l2 -> user b = 0 -> 0 < size < 2 ^ 32 -> holds b u size (2 ^ k) ->
  forall b1 r, cut b u size = b1 :: r -> used = u32 (used_ a + bytes b1) ->
  inv (mkArena (l1 ++ b1 :: r ++ l2) used hw al) /\ user b1 = u /\ holds b1 u size (2 ^ k) /\
  (forall d, d ∈ r -> user d = 0).
Proof.
  intros Hinv El Hub Hs Hh b1' r' Ecut ->. pose proof (inv_total a Hinv) as Htot.
  destruct Hinv as [Hc Hok Hap Hus]. rw El in Hc Hok Hap Hus Htot.
  destruct (cut_spec b u size k) as (b1 & r & Ecut' & Hat & Hu1 & Hok1 & Hh1 & Hr); [apply Hok; set_solver|done|done|].
  rw Ecut in Ecut'. injection Ecut' as -> ->.
  assert (Hunz : u <> 0). { pose proof (ok_at _ Hok1). destruct Hh1. lia. }
  apply chain_app in Hc as (m & Hc1 & Hbm & Hc2). apply coalesced_app in Hap as (Ha1 & [Hab Ha2] & Hal).
  set (l := l1 ++ b1 :: r ++ l2).
  assert (Hchain : chain base l (base + total)).
  { apply chain_app. exists m. split; [done|]. simpl. split; [congruence|].
    destruct Hr as [[-> Hb]|(b2 & -> & Hat2 & Hb & _)]; simpl; [by rw Hb|]. split; [lia|].
    replace (m + bytes b1 + bytes b2) with (m + bytes b) by lia. done. }
  assert (Hoks : forall d, d ∈ l -> block_ok d).
  { intros d. unfold l. rw !elem_of_app !elem_of_cons !elem_of_app. intros [Hd|[->|[Hd|Hd]]]; [apply Hok; set_solver|done| |apply Hok; set_solver].
    destruct Hr as [[-> _]|(b2 & -> & _ & _ & _ & Hok2)]; [by apply elem_of_nil in Hd|].
    by apply list_elem_of_singleton in Hd as ->. }
  assert (Hr0 : forall d, d ∈ r -> user d = 0).
  { intros d Hd. destruct Hr as [[-> _]|(b2 & -> & _ & _ & Hu2 & _)]; [by apply elem_of_nil in Hd|].
    by apply list_elem_of_singleton in Hd as ->. }
  split_and!; [split|done|done|done]; simpl.
  - done.
  - done.
  - apply coalesced_app. split_and!; [done| |].
    + destruct Hr as [[-> _]|(b2 & -> & _ & _ & Hu2 & _)]; simpl.
      * split; [|done]. destruct l2; [done|]. left. congruence.
      * split; [left; congruence|]. split; [|done]. destruct l2 as [|c l2]; [done|].
        right. destruct Hab; [congruence|done].
    + intros x y _ [= <-]. right. congruence.
  - pose proof (taken_bound l ltac:(intros d Hd; destruct (Hoks d Hd); lia)) as Hb.
    apply chain_extent in Hchain as [_ Hext].
    assert (Hnew : taken l = used_ a + bytes b1).
    { rw Hus. unfold l. rw !taken_app /= taken_app. rewrite -> (proj2 (Z.eqb_eq (user b) 0)) by done.
      rewrite -> (proj2 (Z.eqb_neq (user b1) 0)) by congruence.
      assert (taken r = 0); [|lia]. destruct Hr as [[-> _]|(b2 & -> & _ & _ & Hu2 & _)]; simpl; [done|]. by rw Hu2. }
    rw -Hnew wrap_small //. unfold in_u. lia.
Qed.

Lemma allocate_one a live l1 b l2 size k u l n hw al :
  ledger a live -> head_ a = l1 ++ b :: l2 -> user b = 0 -> 0 <= k < 32 -> 0 < size < 2 ^ 32 -> holds b u size (2 ^ k) ->
  (forall b1 r, cut b u size = b1 :: r -> l = l1 ++ b1 :: r ++ l2 /\ n = bytes b1) ->
  al = u32 (allocations_ a + 1) ->
  u <> 0 /\ live !! u = None /\ ledger (mkArena l (u32 (used_ a + n)) hw al) (<[u := (size, 2 ^ k)]> live).
Proof.
  intros [Hinv Hblk Hlive Hcnt] El Hub Hk Hs Hh Hcut ->. pose proof Hinv as [Hc Hok Hap Hus].
  assert (Hinb : b ∈ head_ a) by (rw El; set_solver).
  assert (exists b1 r, cut b u size = b1 :: r) as (b1 & r & Ecut) by (unfold cut; destruct (_ && _); do 2 eexists; reflexivity).
  destruct (Hcut b1 r Ecut) as [-> ->].
  destruct (splice_blocks a (u32 (used_ a + bytes b1)) hw (u32 (allocations_ a + 1)) l1 b l2 u size k Hinv El Hub Hs Hh b1 r Ecut eq_refl)
    as (Hinv' & Hu1 & Hh1 & Hr0).
  assert (Hother : forall d, d ∈ head_ a -> user d <> 0 -> user d <> u).
  { intros d Hd Hnz Eu. pose proof (ok_user _ (Hok d Hd) Hnz). destruct Hh as (? & ? & _).
    destruct (chain_disjoint _ _ _ b d Hc Hok Hinb Hd) as [->|[?|?]]; [done|lia|lia]. }
  assert (Hunz : u <> 0) by (pose proof (ok_at _ (Hok b Hinb)); destruct Hh; lia).
  assert (Hnone : live !! u = None).
  { apply eq_None_not_Some. intros [v Hv]. destruct (Hlive u v Hv) as (_ & d & Hd & Hud).
    by apply (Hother d Hd); [congruence|]. }
  split_and!; [done|done|]. split; [done| | |]; simpl.
  - intros d. rw !elem_of_app !elem_of_cons !elem_of_app. intros Hd Hnz.
    assert (d = b1 \/ d ∈ head_ a) as [->|Hda].
    { destruct Hd as [Hd|[->|[Hd|Hd]]]; [right; rw El; set_solver|by left| |right; rw El; set_solver].
      by apply Hr0 in Hd. }
    + rw Hu1 lookup_insert_eq. exists size, (2 ^ k). pose proof (Z.pow_pos_nonneg 2 k). split_and!; [done|lia|lia|done].
    + rewrite -> lookup_insert_ne by (apply not_eq_sym, Hother; done). by apply Hblk.
  - intros v w. destruct (decide (u = v)) as [<-|Hne].
    + intros _. split; [done|]. exists b1. split; [set_solver|done].
    + rewrite -> lookup_insert_ne by done. intros Hv. destruct (Hlive v w Hv) as (Hv0 & d & Hd & Hud).
      split; [done|]. exists d. split; [|done]. rw El in Hd. apply elem_of_app in Hd as [Hd|[->|Hd]%elem_of_cons].
      * set_solver.
      * congruence.
      * set_solver.
  - rewrite -> map_size_insert_None by done. rw Hcnt wrap_add_l. f_equal. lia.
Qed.

Lemma try_allocate_ledger a live size k :
  ledger a live -> 0 <= k < 32 -> 0 < size < 2 ^ 32 ->
  let '(a', u) := try_allocate a size (2 ^ k) in
  (u = 0 /\ a' = a /\ forall b, b ∈ head_ a -> user b = 0 -> forall v, ~ holds b v size (2 ^ k)) \/
  (u <> 0 /\ live !! u = None /\ ledger a' (<[u := (size, 2 ^ k)]> live)).
Proof.
  intros [Hinv Hblk Hlive Hcnt] Hk Hs. pose proof Hinv as [Hc Hok Hap Hus].
  pose proof (Z.pow_pos_nonneg 2 k ltac:(lia) ltac:(lia)) as Hp.
  pose proof (Z.pow_lt_mono_r 2 k 32 ltac:(lia) ltac:(lia)) as Hp'.
  unfold try_allocate. destruct (Z.eqb_spec size 0) as [|_]; [lia|].
  destruct (Z.eqb_spec (2 ^ k) 0) as [|_]; [lia|].
  assert (Z.land (2 ^ k) (u32 (2 ^ k - 1)) = 0) as ->.
  { rewrite -> wrap_small by (unfold in_u; lia). replace (2 ^ k - 1) with (Z.ones k) by (rw Z.ones_equiv; lia).
    rewrite -> Z.land_ones by lia. apply Z.mod_same. lia. }
  cbn [orb negb Z.eqb]. pose proof (allocate_from_spec (head_ a) size (2 ^ k)) as Hfrom.
  destruct (allocate_from (head_ a) size (2 ^ k)) as [[[l u] n]|].
  - right. destruct Hfrom as (l1 & b & l2 & El & Hfit & Hcut). apply (allocate_one a live l1 b l2 size k); try done.
    + pose proof (fit_spec b size k (Hok b ltac:(rw El; set_solver)) Hk Hs) as Hh. rw Hfit in Hh. tauto.
    + pose proof (fit_spec b size k (Hok b ltac:(rw El; set_solver)) Hk Hs) as Hh. rw Hfit in Hh. tauto.
  - left. split_and!; [done..|]. intros b Hb Hub v.
    pose proof (fit_spec b size k (Hok b Hb) Hk Hs) as Hh. rw (Hfrom b Hb) in Hh. by apply Hh.
Qed.

(** ** Release *)

(** The list after freeing [b] between [l1] and [l2]. *)
Definition coalesce_at (l1 : list Block) (b : Block) (l2 : list Block) : list Block :=
  let merged := merge_next (b <| user := 0 |>) l2 in
  match last l1, merged with
  | Some p, m :: rest =>
      if user p =? 0 then removelast l1 ++ (p <| bytes := u32 (bytes p + bytes m) |>) :: rest else l1 ++ merged
  | _, _ => l1 ++ merged
  end.

Lemma coalesce_at_cons p q l1 b l2 : coalesce_at (p :: q :: l1) b l2 = p :: coalesce_at (q :: l1) b l2.
Proof. unfold coalesce_at. cbn [last removelast]. case_match; [|done]. case_match; [done|]. by case_match. Qed.

Lemma release_from_spec previous l pointer :
  match release_from previous l pointer with
  | Some (l', n) => exists l1 b l2, l = l1 ++ b :: l2 /\ user b = pointer /\ (forall d, d ∈ l1 -> user d <> pointer) /\
      n = bytes b /\ l' = coalesce_at (option_list previous ++ l1) b l2
  | None => forall d, d ∈ l -> user d <> pointer
  end.
Proof.
  revert previous. induction l as [|b l IH]; intros previous; cbn [release_from]; [set_solver|].
  destruct (Z.eqb_spec (user b) pointer) as [Hu|Hu]; cbn [negb].
  - exists [], b, l. split_and!; [done|done|set_solver|done|]. rw app_nil_r. unfold coalesce_at.
    destruct previous as [p|]; simpl.
    + unfold merge_next. destruct l as [|c l]; [by case_match|]. case_match; by case_match.
    + unfold merge_next. destruct l; [done|]. by case_match.
  - specialize (IH (Some b)). destruct (release_from (Some b) l pointer) as [[l' n]|].
    + destruct IH as (l1 & d & l2 & -> & Hd & Hl1 & -> & ->). exists (b :: l1), d, l2.
      split_and!; [done|done| |done|].
      * intros x [->|Hx]%elem_of_cons; auto.
      * destruct previous as [p|]; simpl; [|done]. by rw coalesce_at_cons.
    + intros x [->|Hx]%elem_of_cons; auto.
Qed.

Lemma join_inv a l1 seg l2 nb hw al :
  inv a -> head_ a = l1 ++ seg ++ l2 ->
  (exists b0, head seg = Some b0 /\ at_ nb = at_ b0) -> bytes nb = extent seg -> user nb = 0 ->
  (forall c, last l1 = Some c -> user c <> 0) -> (forall c, head l2 = Some c -> user c <> 0) ->
  inv (mkArena (l1 ++ nb :: l2) (u32 (used_ a - taken seg)) hw al).
Proof.
  intros Hinv El (b0 & Hb0 & Hat) Hby Hu Hl Hr. pose proof (inv_total a Hinv) as Htot.
  destruct Hinv as [Hc Hok Hap Hus]. rw El in Hc Hok Hap Hus Htot. rw !taken_app in Hus Htot.
  apply chain_app in Hc as (m & Hc1 & Hc2). apply chain_app in Hc2 as (m' & Hc2 & Hc3).
  destruct seg as [|b seg]; [done|]. injection Hb0 as <-. destruct Hc2 as [Hbm Hc2].
  assert (Hm' : m' = m + bytes nb) by (apply chain_extent in Hc2 as [_ ->]; rw Hby /=; lia).
  apply coalesced_app in Hap as (Ha1 & Ha2 & _). apply coalesced_app in Ha2 as (_ & Ha2 & _).
  pose proof (taken_bound (b :: seg)) as Hbseg. pose proof (taken_bound l1) as Hb1. pose proof (taken_bound l2) as Hb2.
  assert (Hnn : forall d, d ∈ l1 ++ (b :: seg) ++ l2 -> 0 <= bytes d) by (intros d Hd; destruct (Hok d Hd); lia).
  specialize (Hbseg ltac:(set_solver)). specialize (Hb1 ltac:(set_solver)). specialize (Hb2 ltac:(set_solver)).
  assert (Hend : m' <= base + total).
  { apply chain_extent in Hc3 as [_ ->]. lia. }
  destruct (Hok b ltac:(set_solver)) as [Hb1' Hb2' Hb3' _ _].
  set (T := taken (b :: seg)) in *. split; cbn [head_ used_].
  - apply chain_app. exists m. split; [done|]. simpl. split; [congruence|]. by rw -Hm'.
  - intros d [Hd|[->|Hd]%elem_of_cons]%elem_of_app; [apply Hok; set_solver| |apply Hok; set_solver].
    assert (bytes b <= extent (b :: seg)).
    { simpl. assert (0 <= extent seg); [|lia]. pose proof (taken_bound seg ltac:(set_solver)). lia. }
    split; [lia|by rw Hat|lia|lia|done].
  - apply coalesced_app. split_and!; [done| |].
    + simpl. split; [|done]. destruct l2 as [|c l2]; [done|]. right. by apply Hr.
    + intros x y Hx [= <-]. left. by apply Hl.
  - clearbody T. rw taken_app. simpl taken. rewrite -> (proj2 (Z.eqb_eq (user nb) 0)) by done.
    rw wrap_small; [unfold in_u; lia|]. lia.
Qed.

(** Freeing one block of a well-formed arena. *)
Lemma coalesce_inv a l1 b l2 hw al :
  inv a -> head_ a = l1 ++ b :: l2 -> user b <> 0 ->
  inv (mkArena (coalesce_at l1 b l2) (u32 (used_ a - bytes b)) hw al) /\
  (forall d, d ∈ coalesce_at l1 b l2 -> user d <> 0 -> d ∈ l1 ++ l2) /\
  (forall d, d ∈ l1 ++ l2 -> user d <> 0 -> d ∈ coalesce_at l1 b l2).
Proof.
  intros Hinv El Hu. pose proof Hinv as [Hc Hok Hap _]. rw El in Hc Hok Hap.
  apply chain_app in Hc as (m & Hc1 & Hbm & Hc2). apply coalesced_app in Hap as (Hap1 & [Hb Hap2] & Hlast).
  destruct (Hok b ltac:(set_solver)) as [Hb1 _ Hb3 Hb4 _].
  (* the right neighbour *)
  assert (Hmerge : exists mb seg r2, merge_next (b <| user := 0 |>) l2 = mb :: r2 /\ l2 = seg ++ r2 /\
    at_ mb = at_ b /\ user mb = 0 /\ bytes mb = extent (b :: seg) /\ taken (b :: seg) = bytes b /\
    (forall c, head r2 = Some c -> user c <> 0) /\ (forall d, d ∈ seg -> user d = 0) /\
    12 <= bytes mb <= base + total - at_ b).
  { assert (Hbe : at_ b + bytes b <= base + total).
    { apply chain_extent in Hc2 as [_ ->]. pose proof (taken_bound l2) as Ht.
      assert (0 <= taken l2 <= extent l2); [|lia]. apply Ht. intros d Hd. destruct (Hok d ltac:(set_solver)). lia. }
    destruct l2 as [|c l2].
    - exists (b <| user := 0 |>), [], []. simpl. rewrite -> (proj2 (Z.eqb_neq (user b) 0)) by done.
      split_and!; try done; [lia|lia|set_solver|simpl; lia].
    - simpl. destruct Hc2 as [Hatc Hc2]. destruct (Hok c ltac:(set_solver)) as [Hc1' _ Hc3' Hc4 _].
      destruct (Z.eqb_spec (user c) 0) as [Hc0|Hc0].
      + exists (b <| user := 0 |> <| bytes := u32 (bytes b + bytes c) |>), [c], l2. simpl.
        rewrite -> (proj2 (Z.eqb_neq (user b) 0)), (proj2 (Z.eqb_eq (user c) 0)) by done.
        rewrite -> (wrap_small 32 (bytes b + bytes c)) by (unfold in_u; lia).
        split_and!; try done; [lia|lia| | |lia|].
        * intros d Hd. destruct l2 as [|d' l2]; [done|]. injection Hd as ->. destruct Hap2 as [[?|?] _]; [done|done].
        * by intros d ->%list_elem_of_singleton.
        * assert (at_ c + bytes c <= base + total); [|lia]. apply chain_extent in Hc2 as [_ ->].
          assert (0 <= taken l2 <= extent l2); [|lia]. apply taken_bound. intros d Hd. destruct (Hok d ltac:(set_solver)). lia.
      + exists (b <| user := 0 |>), [], (c :: l2). simpl. rewrite -> (proj2 (Z.eqb_neq (user b) 0)) by done.
        split_and!; try done; [lia|lia|by intros d [= <-]|set_solver|simpl; lia]. }
  destruct Hmerge as (mb & seg & r2 & Hm & -> & Hat & Hum & Hbm' & Htk & Hr2 & Hseg & Hbound).
  unfold coalesce_at. rw Hm. clear Hm.
  assert (Hplain : (forall c, last l1 = Some c -> user c <> 0) ->
    inv (mkArena (l1 ++ mb :: r2) (u32 (used_ a - bytes b)) hw al) /\
    (forall d, d ∈ l1 ++ mb :: r2 -> user d <> 0 -> d ∈ l1 ++ seg ++ r2) /\
    (forall d, d ∈ l1 ++ seg ++ r2 -> user d <> 0 -> d ∈ l1 ++ mb :: r2)).
  { intros Hl. split_and!.
    - rw -Htk. apply join_inv; try done. by exists b.
    - intros d. rw !elem_of_app elem_of_cons. intros [?|[->|?]] ?; [by left|done|by do 2 right].
    - intros d. rw !elem_of_app elem_of_cons. intros [?|[Hd|?]] Hd0; [by left|by apply Hseg in Hd|by do 2 right]. }
  destruct (last l1) as [p|] eqn:Hp; [|by apply Hplain].
  destruct (Z.eqb_spec (user p) 0) as [Hp0|Hp0]; [|apply Hplain; by intros c [= <-]].
  clear Hplain. apply last_Some in Hp as [l1' ->]. rw removelast_last.
  apply chain_app in Hc1 as (m1 & Hc1' & Hpm & Hpe). simpl in Hpe.
  destruct (Hok p ltac:(set_solver)) as [Hpp _ Hpb Hpend _].
  rewrite -> (wrap_small 32 (bytes p + bytes mb)) by (unfold in_u; lia).
  split_and!.
  - replace (bytes b) with (taken (p :: b :: seg)) by (rw -Htk; simpl; by rw Hp0).
    apply join_inv; try done.
    + by rw El -!app_assoc.
    + by exists p.
    + simpl in *. lia.
    + intros c Hc. apply coalesced_app in Hap1 as (_ & _ & Hx). destruct (Hx c p Hc eq_refl); [done|congruence].
  - intros d. rw !elem_of_app elem_of_cons. intros [?|[->|?]] Hd0; [by left; left|simpl in Hd0; congruence|by do 2 right].
  - intros d. rw !elem_of_app !elem_of_cons. intros [[?|[->|Hn%elem_of_nil]]|[Hd|?]] Hd0;
      [by left|congruence|done|by apply Hseg in Hd|by do 2 right].
Qed.

Lemma release_ledger a live u :
  ledger a live -> u <> 0 ->
  let '(a', released) := release a u in
  match live !! u with
  | Some _ => released = true /\ ledger a' (delete u live)
  | None => released = false /\ a' = a
  end.
Proof.
  intros [Hinv Hblk Hlive Hcnt] Hu. pose proof Hinv as [Hc Hok _ _]. unfold release.
  destruct (Z.eqb_spec u 0); [done|]. pose proof (release_from_spec None (head_ a) u) as Hr.
  destruct (release_from None (head_ a) u) as [[l k]|]; last first.
  { destruct (live !! u) as [v|] eqn:E; [|done]. destruct (Hlive u v E) as (_ & b & Hb & Hub). by apply Hr in Hb. }
  destruct Hr as (l1 & b & l2 & El & Hub & _ & -> & ->). simpl.
  destruct (Hblk b) as (sz & al & Hlb & _); [rw El; set_solver|congruence|]. rw Hub in Hlb. rw Hlb.
  split; [done|].
  destruct (coalesce_inv a l1 b l2 (high_water_ a) (u32 (allocations_ a - 1)) Hinv El ltac:(congruence)) as (Hinv' & Hin & Hout).
  assert (Hne : forall d, d ∈ l1 ++ l2 -> user d <> u).
  { intros d Hd Hdu. assert (d ∈ head_ a) as Hda by (rw El; set_solver).
    assert (Hdis : forall x, x ∈ l1 ++ l2 -> at_ x + bytes x <= at_ b \/ at_ b + bytes b <= at_ x).
    { rw El in Hc Hok. apply chain_app in Hc as (m & Hc1 & Hbm & Hc2). intros x [Hx|Hx]%elem_of_app.
      - left. destruct (chain_above _ _ _ x Hc1); [|done|lia]. intros y Hy. destruct (Hok y ltac:(set_solver)). lia.
      - right. destruct (chain_above _ _ _ x Hc2); [|done|lia]. intros y Hy. destruct (Hok y ltac:(set_solver)). lia. }
    assert (b = d) as <-.
    { apply (inv_user_unique a b d Hinv); [rw El; set_solver|done|congruence|congruence]. }
    destruct (Hok b ltac:(rw El; set_solver)). destruct (Hdis b Hd); lia. }
  split; [exact Hinv'| | |]; simpl.
  - intros d Hd Hnz. apply Hin in Hd; [|done]. rewrite -> lookup_delete_ne by (apply not_eq_sym, Hne; done).
    apply Hblk; [rw El; set_solver|done].
  - intros v w. rw lookup_delete_Some. intros [Hne' Hv]. destruct (Hlive v w Hv) as (Hv0 & d & Hd & Hdv).
    split; [done|]. exists d. split; [|done]. apply Hout; [|congruence]. rw El in Hd. set_solver.
  - rewrite -> map_size_delete_Some by eauto. rw Hcnt wrap_sub_l. f_equal.
    assert (size live <> 0)%nat; [|lia]. intros E. apply map_size_empty_inv in E. by rw E in Hlb.
Qed.
End client.

(** ** Clients *)

Inductive client_op := CAllocate (size alignment : Z) | CRelease (pointer : Z).

Definition client_op_ok (o : client_op) : Prop :=
  match o with CAllocate n al => in_u 32 n /\ in_u 32 al | CRelease u => in_u 32 u end.

(** The client may ask for anything and release any pointer, live or not. *)
Definition client_step (s : Arena * gmap Z (Z * Z)) (o : client_op) : Arena * gmap Z (Z * Z) :=
  let '(a, live) := s in
  match o with
  | CAllocate n al => let '(a, u) := try_allocate a n al in (a, if u =? 0 then live else <[u := (n, al)]> live)
  | CRelease u => let '(a, released) := release a u in (a, if released then delete u live else live)
  end.

Definition client_run (a : Arena) (ops : list client_op) : Arena * gmap Z (Z * Z) :=
  fold_left client_step ops (a, ∅).

Lemma try_allocate_invalid a n al :
  in_u 32 n -> in_u 32 al -> n = 0 \/ al = 0 \/ Z.land al (u32 (al - 1)) <> 0 -> try_allocate a n al = (a, 0).
Proof.
  intros Hn Hal Hc. unfold try_allocate. destruct (_ || _) eqn:E; [done|].
  apply orb_false_iff in E as [[E1 E2]%orb_false_iff E3]. apply negb_false_iff in E3. lia.
Qed.

Lemma client_step_ledger base total a live o :
  0 < base /\ base mod 4 = 0 /\ 12 <= total /\ base + total < 2 ^ 32 ->
  ledger base total a live -> client_op_ok o ->
  ledger base total (client_step (a, live) o).1 (client_step (a, live) o).2.
Proof.
  intros Hreg Hl Ho. destruct o as [n al|u]; simpl in *.
  - destruct Ho as [Hn Hal]. destruct (decide (n = 0 \/ al = 0 \/ Z.land al (u32 (al - 1)) <> 0)) as [Hbad|Hgood].
    { by rw try_allocate_invalid. }
    destruct (power_of_two al) as (k & Hk & ->); [unfold in_u in *; lia|lia|].
    pose proof (try_allocate_ledger base total Hreg a live n k Hl Hk ltac:(unfold in_u in *; lia)) as Ht.
    destruct (try_allocate a n (2 ^ k)) as [a' u]. destruct Ht as [(-> & -> & _)|(Hu & _ & Ht)]; [done|].
    by rewrite -> (proj2 (Z.eqb_neq u 0)) by done.
  - destruct (decide (u = 0)) as [->|Hu].
    { assert (live !! 0 = None) as Hz.
      { apply eq_None_not_Some. intros [v Hv]. by destruct (ledger_live _ _ _ _ Hl 0 v Hv). }
      by rw /= delete_id. }
    pose proof (release_ledger base total Hreg a live u Hl Hu) as Hr. destruct (release a u) as [a' released].
    destruct (live !! u); destruct Hr as [-> Hr]; [done|by subst a'].
Qed.

Lemma arena_reachable storage n a0 ops :
  in_u 32 storage -> in_u 32 n -> initialize initial storage n = (a0, true) -> Forall client_op_ok ops ->
  (0 < storage /\ storage mod 4 = 0 /\ 12 <= n /\ storage + n < 2 ^ 32) /\
  ledger storage n (client_run a0 ops).1 (client_run a0 ops).2.
Proof.
  intros Hs Hn. unfold initialize, sizeof_block, alignof_block, usize_max. simpl.
  destruct (_ || _) eqn:Hc; [done|]. intros [= <-] Hops.
  rewrite -> (wrap_small 32 (2 ^ 32 - 1 - storage)) in Hc by word.
  assert (Hreg : 0 < storage /\ storage mod 4 = 0 /\ 12 <= n /\ storage + n < 2 ^ 32) by (unfold in_u in *; lia).
  split; [done|]. set (a0 := mkArena _ _ _ _). assert (Hl : ledger storage n a0 ∅).
  { split; [split|..]; simpl; try done.
    - intros b ->%list_elem_of_singleton. split; simpl; try done; lia.
    - intros b ->%list_elem_of_singleton. done. }
  unfold client_run. change (ledger storage n (a0, ∅ : gmap Z (Z * Z)).1 (a0, ∅ : gmap Z (Z * Z)).2) in Hl.
  revert Hl. generalize (a0, ∅ : gmap Z (Z * Z)). clear a0.
  induction Hops as [|o ops Ho Hops IH]; intros [a live] Hl; simpl; [done|].
  apply IH. by apply client_step_ledger.
Qed.

Lemma live_placed base total a live u n al :
  ledger base total a live -> live !! u = Some (n, al) -> exists b, b ∈ head_ a /\ user b = u /\ holds b u n al /\ 0 < n.
Proof.
  intros Hl Hu. destruct (ledger_live _ _ _ _ Hl u _ Hu) as (Hnz & b & Hb & <-).
  destruct (ledger_block _ _ _ _ Hl b Hb Hnz) as (n' & al' & E & ? & ? & ?).
  rw E in Hu. injection Hu as <- <-. by exists b.
Qed.

Lemma ledger_empty base total a :
  12 <= total -> ledger base total a ∅ -> head_ a = [mkBlock base total 0].
Proof.
  intros Ht [[Hc Hok Hap _] Hblk _ _].
  assert (Hfree : forall b, b ∈ head_ a -> user b = 0).
  { intros b Hb. destruct (decide (user b = 0)) as [|Hnz]; [done|]. by destruct (Hblk b Hb Hnz) as (? & ? & ? & _). }
  destruct (head_ a) as [|b l]; simpl in Hc; [lia|]. destruct l as [|c l].
  - destruct b as [x y z]. simpl in *. specialize (Hfree _ ltac:(by left)). simpl in Hfree. f_equal. f_equal; lia.
  - destruct Hap as [[H|H] _]; exfalso; apply H, Hfree; set_solver.
Qed.

(** C10: An arena used by any client (arbitrary sizes, alignments and released
    pointers, in any order): the blocks tile the storage, live allocations have
    the requested alignment and size inside the storage and are separated by at
    least a metadata block, so that nothing overlaps; [release] accepts exactly
    null and the live pointers, [used()] and [allocations()] account for them,
    and once everything is released one free block spans the storage. *)
Theorem arena_client_safe storage n a0 ops :
  in_u 32 storage -> in_u 32 n -> initialize initial storage n = (a0, true) -> Forall client_op_ok ops ->
  let '(a, live) := client_run a0 ops in
  chain storage (head_ a) (storage + n) /\
  (forall u size al, live !! u = Some (size, al) ->
     u mod al = 0 /\ storage + sizeof_block <= u /\ u + size <= storage + n) /\
  (forall u size al u' size' al', live !! u = Some (size, al) -> live !! u' = Some (size', al') -> u <> u' ->
     u + size + sizeof_block <= u' \/ u' + size' + sizeof_block <= u) /\
  (forall u, (release a u).2 = bool_decide (u = 0 \/ is_Some (live !! u))) /\
  used a = taken (head_ a) /\ allocations a = u32 (Z.of_nat (size live)) /\
  (live = ∅ -> head_ a = [mkBlock storage n 0] /\ used a = 0).
Proof.
  intros Hs Hn Hinit Hops. destruct (arena_reachable storage n a0 ops Hs Hn Hinit Hops) as [Hreg Hl].
  destruct (client_run a0 ops) as [a live]. simpl in Hl. pose proof (ledger_inv _ _ _ _ Hl) as Hinv.
  pose proof Hinv as [Hc Hok _ Hus]. unfold sizeof_block.
  assert (Hb0 : forall b, b ∈ head_ a -> 0 <= bytes b) by (intros b Hb; destruct (Hok b Hb); lia).
  split_and!; [done| | | |done|apply (ledger_count _ _ _ _ Hl)|].
  - intros u sz al Hu. destruct (live_placed _ _ _ _ _ _ _ Hl Hu) as (b & Hb & _ & (? & ? & ?) & _).
    pose proof (chain_above _ _ _ _ Hc Hb0 Hb). split_and!; [done|lia|lia].
  - intros u sz al u' sz' al' Hu Hu' Hne.
    destruct (live_placed _ _ _ _ _ _ _ Hl Hu) as (b & Hb & Hbu & (? & ? & _) & _).
    destruct (live_placed _ _ _ _ _ _ _ Hl Hu') as (d & Hd & Hdu & (? & ? & _) & _).
    destruct (chain_disjoint _ _ _ b d Hc Hok Hb Hd) as [->|[?|?]]; [congruence|lia|lia].
  - intros u. destruct (decide (u = 0)) as [->|Hu]; [done|].
    pose proof (release_ledger storage n Hreg a live u Hl Hu) as Hr. destruct (release a u) as [a' released].
    simpl. destruct (live !! u); destruct Hr as [-> _]; symmetry; [apply bool_decide_true; eauto|].
    apply bool_decide_false. intros [?|[? ?]]; done.
  - intros ->. assert (E : head_ a = [mkBlock storage n 0]) by (by apply ledger_empty; [lia|]).
    split; [done|]. unfold used. by rw Hus E.
Qed.

(** C31: [try_allocate] is complete: on a reachable arena it returns null only
    for an empty request, an alignment that is not a power of two, or when no
    free block has room for an aligned payload of that size; it then changes
    nothing. *)
Theorem arena_allocate_complete storage n a0 ops size alignment :
  in_u 32 storage -> in_u 32 n -> initialize initial storage n = (a0, true) -> Forall client_op_ok ops ->
  in_u 32 size -> in_u 32 alignment ->
  let a := (client_run a0 ops).1 in
  (try_allocate a size alignment).2 = 0 ->
  (try_allocate a size alignment).1 = a /\
  (size = 0 \/ (forall k, 0 <= k -> alignment <> 2 ^ k) \/
   forall b v, b ∈ head_ a -> user b = 0 -> ~ holds b v size alignment).
Proof.
  intros Hs Hn Hinit Hops Hsz Hal. destruct (arena_reachable storage n a0 ops Hs Hn Hinit Hops) as [Hreg Hl].
  simpl. destruct (client_run a0 ops) as [a live]. simpl in *.
  destruct (decide (size = 0)) as [->|Hsz0].
  { rw try_allocate_invalid //; [by left|]. intros _. split; [done|by left]. }
  destruct (decide (alignment = 0 \/ Z.land alignment (u32 (alignment - 1)) <> 0)) as [Hbad|Hgood].
  { rw try_allocate_invalid //; [by right|]. intros _. split; [done|]. right. left. intros k Hk ->.
    pose proof (Z.pow_pos_nonneg 2 k ltac:(lia) Hk). destruct Hbad as [?|Hbad]; [lia|]. apply Hbad.
    rewrite -> wrap_small by (unfold in_u in *; lia).
    replace (2 ^ k - 1) with (Z.ones k) by (rw Z.ones_equiv; lia). rewrite -> Z.land_ones by lia. apply Z.mod_same. lia. }
  destruct (power_of_two alignment) as (k & Hk & ->); [unfold in_u in *; lia|lia|].
  pose proof (try_allocate_ledger storage n Hreg a live size k Hl Hk ltac:(unfold in_u in *; lia)) as Ht.
  destruct (try_allocate a size (2 ^ k)) as [a' u]. simpl. intros ->.
  destruct Ht as [(_ & -> & Hno)|(? & _)]; [|done]. split; [done|]. right. right. intros b v Hb Hub. by apply Hno.
Qed.

(** A successful [Reservation] makes the next checked allocation of at most
    its size and alignment succeed with the reserved pointer and without
    touching the arena, and ends the ticket's responsibility; a ticket that was
    not used gives the memory back without a contract failure. *)
Theorem resource_reservation base total r live n al r' p :
  0 < base /\ base mod 4 = 0 /\ 12 <= total /\ base + total < 2 ^ 32 ->
  ledger base total (arena_ r) live -> in_u 32 n -> in_u 32 al ->
  reserve r n al = Some (r', p) -> p <> 0 ->
  (forall n' al', n' <= n -> al' <= al -> exists r'', allocate r' n' al' = Some (r'', p) /\
     arena_ r'' = arena_ r' /\ reserved_ r'' = 0 /\ unreserve r'' p = Some r'' /\
     ledger base total (arena_ r'') (<[p := (n, al)]> live)) /\
  (exists r'', unreserve r' p = Some r'' /\ reserved_ r'' = 0 /\ ledger base total (arena_ r'') live).
Proof.
  intros Hreg Hl Hn Hal Hres Hp. unfold reserve in Hres. destruct (Z.eqb_spec (reserved_ r) 0) as [Hr0|]; [|done].
  cbn [negb] in Hres. pose proof (client_step_ledger base total (arena_ r) live (CAllocate n al) Hreg Hl (conj Hn Hal)) as Hl'.
  simpl in Hl'. destruct (try_allocate (arena_ r) n al) as [a u] eqn:Ht. injection Hres as <- ->.
  rewrite -> (proj2 (Z.eqb_neq p 0)) in Hl' |- * by done. simpl in Hl'. cbn [negb].
  assert (Hnone : live !! p = None).
  { destruct (decide (n = 0 \/ al = 0 \/ Z.land al (u32 (al - 1)) <> 0)) as [Hbad|Hgood].
    { rw try_allocate_invalid // in Ht. congruence. }
    destruct (power_of_two al) as (k & Hk & ->); [unfold in_u in *; lia|lia|].
    pose proof (try_allocate_ledger base total Hreg (arena_ r) live n k Hl Hk ltac:(unfold in_u in *; lia)) as H.
    rw Ht in H. destruct H as [(? & _)|(_ & ? & _)]; done. }
  split.
  - intros n' al' Hn' Hal'. unfold allocate. simpl. rewrite -> (proj2 (Z.eqb_neq p 0)) by done. cbn [negb].
    rewrite -> (proj2 (Z.ltb_ge n n')), (proj2 (Z.ltb_ge al al')) by done. simpl. eexists. split; [reflexivity|].
    simpl. split_and!; [done|done| |done]. unfold unreserve. simpl. destruct p; done.
  - unfold unreserve. simpl. rewrite -> (proj2 (Z.eqb_neq p 0)) by done. rw Z.eqb_refl. cbn [negb andb].
    pose proof (release_ledger base total Hreg a _ p Hl' Hp) as Hr. rw lookup_insert_eq in Hr.
    destruct (release a p) as [a'' released]. destruct Hr as [-> Hr]. cbn [negb]. eexists. split; [reflexivity|].
    simpl. split; [done|]. rewrite -> delete_insert_id in Hr by done. done.
Qed.

Definition example_arena : Arena := mkArena [mkBlock 0x80100000 4096 0] 0 0 0.
Definition example_ops : list client_op :=
  [CAllocate 100 8; CAllocate 64 64; CRelease 0x80100010; CAllocate 5000 4; CAllocate 3 3; CRelease 1234].

Lemma example_ops_ok : Forall client_op_ok example_ops.
Proof. repeat constructor; simpl; word. Defined.

Lemma arena_client_safe_witness :
  let '(a, live) := client_run example_arena example_ops in
  used a = taken (head_ a) /\ (release a 0x80100080).2 = true /\ (release a 0x80100010).2 = false.
Proof.
  pose proof (arena_client_safe 0x80100000 4096 example_arena example_ops ltac:(word) ltac:(word)
    ltac:(vm_compute; reflexivity) example_ops_ok) as H.
  destruct (client_run example_arena example_ops) as [a live] eqn:E.
  destruct H as (_ & _ & _ & Hr & Hu & _). split; [exact Hu|].
  assert (live = (client_run example_arena example_ops).2) as -> by by rw E.
  split; rw Hr; vm_compute; reflexivity.
Defined.

Lemma arena_allocate_complete_witness :
  let a := (client_run example_arena example_ops).1 in
  (try_allocate a 4096 4).2 = 0 /\ (try_allocate a 4096 4).1 = a.
Proof.
  intros a. assert (H0 : (try_allocate a 4096 4).2 = 0) by (vm_compute; reflexivity). split; [exact H0|].
  apply (arena_allocate_complete 0x80100000 4096 example_arena example_ops 4096 4 ltac:(word) ltac:(word)
    ltac:(vm_compute; reflexivity) example_ops_ok ltac:(word) ltac:(word) H0).
Defined.

Lemma resource_reservation_witness :
  exists r' p, reserve (resource_initial example_arena) 200 16 = Some (r', p) /\
  exists r'', allocate r' 120 8 = Some (r'', p) /\ unreserve r'' p = Some r''.
Proof.
  destruct (arena_reachable 0x80100000 4096 example_arena [] ltac:(word) ltac:(word)
    ltac:(vm_compute; reflexivity) ltac:(constructor)) as [Hreg Hl].
  eexists _, _. split; [vm_compute; reflexivity|].
  destruct (resource_reservation 0x80100000 4096 (resource_initial example_arena) ∅ 200 16 _ _ Hreg Hl ltac:(word) ltac:(word)
    ltac:(vm_compute; reflexivity) ltac:(vm_compute; discriminate)) as [H _].
  destruct (H 120 8 ltac:(lia) ltac:(lia)) as (r'' & H1 & _ & _ & H2 & _). exists r''. split; [exact H1|exact H2].
Defined.

End Arena.
