(* ===== verification/Timing.v ===== *)
(** * [include/mikos/net/timing.hpp]: TCP deadlines and back-off *)

From S2P Require Import Prelude.
Local Open Scope Z_scope.

Module Timing.

Definition tcp_second := 10000000.
Definition tcp_initial_rto := tcp_second.
Definition tcp_max_rto := 60 * tcp_second.
Definition tcp_user_timeout := 120 * tcp_second.
Definition tcp_syn_timeout := 120 * tcp_second.
Definition tcp_fin_wait_timeout := 120 * tcp_second.
Definition tcp_time_wait := 120 * tcp_second.
Definition tcp_driver_retry := tcp_second / 100.

Definition deadline_reached (now deadline : Z) : bool := u64 (now - deadline) <? 2 ^ 63.
Definition backoff (delay : Z) : Z := Z.min (u64 (delay * 2)) tcp_max_rto.

(** Deadlines survive the wrap of the 64-bit clock: for a deadline set
    [delay] ticks ahead and polled before 2^63 further ticks, the test answers
    exactly whether [delay] ticks have passed, whatever the clock value. *)
Theorem timing_deadline_wrap start delay elapsed :
  0 <= delay < 2 ^ 62 -> 0 <= elapsed < 2 ^ 62 ->
  deadline_reached (u64 (start + elapsed)) (u64 (start + delay)) = (delay <=? elapsed).
Proof.
  intros Hd He. unfold deadline_reached. autorewrite with wrap.
  replace (start + elapsed - (start + delay)) with (elapsed - delay) by lia.
  destruct (Z.leb_spec delay elapsed); [rewrite -> wrap_small by (unfold in_u; lia); lia|].
  replace (u64 (elapsed - delay)) with (elapsed - delay + 2 ^ 64); [lia|].
  unfold wrap. apply Z.mod_unique with (-1); [lia|]. lia.
Qed.

Lemma timing_deadline_wrap_witness :
  deadline_reached (u64 (2 ^ 64 - 5 + 10)) (u64 (2 ^ 64 - 5 + 10)) = (10 <=? 10).
Proof. apply (timing_deadline_wrap (2 ^ 64 - 5) 10 10); lia. Defined.

Lemma backoff_bounds d : tcp_initial_rto <= d <= tcp_max_rto -> tcp_initial_rto <= backoff d <= tcp_max_rto.
Proof.
  unfold backoff, tcp_initial_rto, tcp_max_rto, tcp_second. intros H.
  rewrite -> wrap_small by (unfold in_u; lia). lia.
Qed.

End Timing.
