(* ===== verification/Ethernet.v ===== *)
(** * [include/mikos/net/ethernet.hpp]: headers, checksum, ARP and ICMP replies

    A packet is a list of bytes.  The packed header structures are records of
    the raw little-endian field values; [decode] and [encode] are the layout
    the C++ structures have in memory, so that a field access through a
    pointer into the packet reads and writes the bytes at its offset. *)

From S2P Require Import Prelude.
Local Open Scope Z_scope.

Module Ethernet.

(** [MacAddress] and [Ipv4Address] are their 6 and 4 octets. *)
Record MacAddress := mkMac { mac_octet : list Z }.
Record Ipv4Address := mkIpv4 { ip_octet : list Z }.
#[global] Instance mac_eq_dec : EqDecision MacAddress.
Proof. solve_decision. Defined.
#[global] Instance ipv4_eq_dec : EqDecision Ipv4Address.
Proof. solve_decision. Defined.

Definition mac_zero : MacAddress := mkMac (replicate 6 0).
Definition ipv4_zero : Ipv4Address := mkIpv4 (replicate 4 0).

Definition net16 (value : Z) : Z := u16 (Z.lor (Z.shiftl value 8) (Z.shiftr value 8)).

(** Raw 16-bit fields in memory. *)
Definition load16 (l : list Z) : Z := match l with a :: b :: _ => a + 256 * b | _ => 0 end.
Definition store16 (v : Z) : list Z := [v mod 256; v / 256].

Record EthernetHeader := mkEthernet { eth_destination : list Z; eth_source : list Z; eth_type : Z }.
#[global] Instance ethernet_eta : Eta EthernetHeader := fun h =>
  mkEthernet (eth_destination h) (eth_source h) (eth_type h).

Record ArpIpv4 := mkArp {
  ethernet : EthernetHeader;
  hardware_type : Z; protocol_type : Z; hardware_size : Z; protocol_size : Z; operation : Z;
  sender_mac : list Z; sender_ip : list Z; target_mac : list Z; target_ip : list Z;
}.
#[global] Instance arp_eta : Eta ArpIpv4 := fun h =>
  mkArp (ethernet h) (hardware_type h) (protocol_type h) (hardware_size h) (protocol_size h) (operation h)
    (sender_mac h) (sender_ip h) (target_mac h) (target_ip h).

Record Ipv4Header := mkIp {
  version_ihl : Z; dscp_ecn : Z; total_length : Z; identification : Z; flags_fragment : Z;
  ttl : Z; protocol : Z; ip_checksum : Z; ip_source : list Z; ip_destination : list Z;
}.
#[global] Instance ip_eta : Eta Ipv4Header := fun h =>
  mkIp (version_ihl h) (dscp_ecn h) (total_length h) (identification h) (flags_fragment h)
    (ttl h) (protocol h) (ip_checksum h) (ip_source h) (ip_destination h).

Record IcmpEchoHeader := mkIcmp {
  icmp_type : Z; icmp_code : Z; icmp_checksum : Z; icmp_identifier : Z; icmp_sequence : Z;
}.
#[global] Instance icmp_eta : Eta IcmpEchoHeader := fun h =>
  mkIcmp (icmp_type h) (icmp_code h) (icmp_checksum h) (icmp_identifier h) (icmp_sequence h).

(** ** Memory layout *)

Definition sizeof_ethernet := 14%nat.
Definition sizeof_arp := 42%nat.
Definition sizeof_ip := 20%nat.
Definition sizeof_icmp := 8%nat.

Definition byte_at (l : list Z) (i : nat) : Z := default 0 (l !! i).

Definition decode_ethernet (l : list Z) : EthernetHeader :=
  mkEthernet (slice l 0 6) (slice l 6 6) (load16 (slice l 12 2)).
Definition encode_ethernet (h : EthernetHeader) : list Z :=
  eth_destination h ++ eth_source h ++ store16 (eth_type h).

Definition decode_arp (l : list Z) : ArpIpv4 :=
  mkArp (decode_ethernet (slice l 0 14))
    (load16 (slice l 14 2)) (load16 (slice l 16 2)) (byte_at l 18) (byte_at l 19) (load16 (slice l 20 2))
    (slice l 22 6) (slice l 28 4) (slice l 32 6) (slice l 38 4).
Definition encode_arp (h : ArpIpv4) : list Z :=
  encode_ethernet (ethernet h) ++ store16 (hardware_type h) ++ store16 (protocol_type h) ++
  [hardware_size h; protocol_size h] ++ store16 (operation h) ++
  sender_mac h ++ sender_ip h ++ target_mac h ++ target_ip h.

Definition decode_ip (l : list Z) : Ipv4Header :=
  mkIp (byte_at l 0) (byte_at l 1) (load16 (slice l 2 2)) (load16 (slice l 4 2)) (load16 (slice l 6 2))
    (byte_at l 8) (byte_at l 9) (load16 (slice l 10 2)) (slice l 12 4) (slice l 16 4).
Definition encode_ip (h : Ipv4Header) : list Z :=
  [version_ihl h; dscp_ecn h] ++ store16 (total_length h) ++ store16 (identification h) ++
  store16 (flags_fragment h) ++ [ttl h; protocol h] ++ store16 (ip_checksum h) ++
  ip_source h ++ ip_destination h.

Definition decode_icmp (l : list Z) : IcmpEchoHeader :=
  mkIcmp (byte_at l 0) (byte_at l 1) (load16 (slice l 2 2)) (load16 (slice l 4 2)) (load16 (slice l 6 2)).
Definition encode_icmp (h : IcmpEchoHeader) : list Z :=
  [icmp_type h; icmp_code h] ++ store16 (icmp_checksum h) ++ store16 (icmp_identifier h) ++
  store16 (icmp_sequence h).

(** ** The checksum *)

Fixpoint checksum_sum (sum : Z) (l : list Z) : Z :=
  match l with
  | a :: b :: l => checksum_sum (u32 (sum + u16 (Z.lor (Z.shiftl (u16 a) 8) b))) l
  | [a] => u32 (sum + u16 (Z.shiftl a 8))
  | [] => sum
  end.

(** [while ((sum >> 16) != 0) sum = (sum & 0xffff) + (sum >> 16);] *)
Fixpoint fold_carry (fuel : nat) (sum : Z) : Z :=
  match fuel with
  | O => sum
  | S fuel =>
      if negb (Z.shiftr sum 16 =? 0) then fold_carry fuel (u32 (Z.land sum 0xffff + Z.shiftr sum 16)) else sum
  end.

(** Two iterations always suffice; see [fold_carry_done]. *)
Definition fold_fuel := 3%nat.

Definition internet_checksum (bytes : list Z) : Z :=
  u16 (Z.lnot (fold_carry fold_fuel (checksum_sum 0 bytes))).

(** ** Replies: the new packet and the size returned *)

Definition make_arp_reply (bytes : list Z) (local_mac : MacAddress) (local_ip : Ipv4Address) : list Z * Z :=
  if Z.of_nat (length bytes) <? 42 then (bytes, 0) else
  let packet := decode_arp (slice bytes 0 sizeof_arp) in
  if negb (eth_type (ethernet packet) =? net16 0x0806) || negb (hardware_type packet =? net16 1) ||
     negb (protocol_type packet =? net16 0x0800) || negb (hardware_size packet =? 6) ||
     negb (protocol_size packet =? 4) || negb (operation packet =? net16 1)
  then (bytes, 0)
  else if bool_decide (target_ip packet <> ip_octet local_ip) then (bytes, 0)
  else
    let requester_mac := sender_mac packet in
    let requester_ip := sender_ip packet in
    let eth := mkEthernet requester_mac (mac_octet local_mac) (eth_type (ethernet packet)) in
    let packet := packet <| ethernet := eth |> <| operation := net16 2 |>
      <| target_mac := requester_mac |> <| target_ip := requester_ip |>
      <| sender_mac := mac_octet local_mac |> <| sender_ip := ip_octet local_ip |> in
    (patch bytes 0 (encode_arp packet), 42).

Definition make_icmp_echo_reply (bytes : list Z) (local_mac : MacAddress) (local_ip : Ipv4Address)
    : list Z * Z :=
  let size := Z.of_nat (length bytes) in
  if size <? 42 then (bytes, 0) else
  let eth := decode_ethernet (slice bytes 0 sizeof_ethernet) in
  let ip := decode_ip (slice bytes 14 sizeof_ip) in
  if negb (eth_type eth =? net16 0x0800) || negb (version_ihl ip =? 0x45) || negb (protocol ip =? 1) ||
     negb (internet_checksum (slice bytes 14 sizeof_ip) =? 0)
  then (bytes, 0)
  else if bool_decide (ip_destination ip <> ip_octet local_ip) then (bytes, 0)
  else
    let ip_size := net16 (total_length ip) in
    if (ip_size <? 28) || (u32 (size - 14) <? ip_size) then (bytes, 0) else
    let icmp_size := Z.to_nat (ip_size - 20) in
    let icmp := decode_icmp (slice bytes 34 sizeof_icmp) in
    if negb (icmp_type icmp =? 8) || negb (icmp_code icmp =? 0) ||
       negb (internet_checksum (slice bytes 34 icmp_size) =? 0)
    then (bytes, 0)
    else
      let requester_mac := eth_source eth in
      let requester_ip := ip_source ip in
      let bytes := patch bytes 0 (encode_ethernet (mkEthernet requester_mac (mac_octet local_mac) (eth_type eth))) in
      let ip := ip <| ip_destination := requester_ip |> <| ip_source := ip_octet local_ip |> <| ttl := 64 |>
                   <| ip_checksum := 0 |> in
      let ip := ip <| ip_checksum := net16 (internet_checksum (encode_ip ip)) |> in
      let bytes := patch bytes 14 (encode_ip ip) in
      let icmp := icmp <| icmp_type := 0 |> <| icmp_checksum := 0 |> in
      let bytes := patch bytes 34 (encode_icmp icmp) in
      let icmp := icmp <| icmp_checksum := net16 (internet_checksum (slice bytes 34 icmp_size)) |> in
      (patch bytes 34 (encode_icmp icmp), 14 + ip_size).

Lemma in_u_0 {w : positive} : in_u (Zpos w) 0.
Proof. split; [done|]. by apply Z.pow_pos_nonneg. Qed.

(** ** Layout lemmas *)

Lemma load_store v rest : load16 (store16 v ++ rest) = v.
Proof. unfold load16, store16. simpl. pose proof (Z.div_mod v 256). lia. Qed.

Lemma store16_ok v : in_u 16 v -> bytes_ok (store16 v).
Proof. intros H. repeat constructor; word. Qed.

Lemma net16_spec v : in_u 16 v -> net16 v = 256 * (v mod 256) + v / 256.
Proof.
  intros H. unfold net16. rw Z.shiftr_div_pow2; [lia|]. change (2 ^ 8) with 256.
  rw lor_shiftl; [lia|word|]. change (2 ^ 8) with 256. word.
Qed.

Lemma net16_in_u v : in_u 16 (net16 v).
Proof. apply wrap_in_u. lia. Qed.

Lemma net16_involutive v : in_u 16 v -> net16 (net16 v) = v.
Proof. intros H. rw (net16_spec (net16 v)); [apply net16_in_u|]. rw net16_spec //. word. Qed.

Lemma store_net16 v : in_u 16 v -> store16 (net16 v) = [v / 256; v mod 256].
Proof. intros H. unfold store16. rw net16_spec //. repeat f_equal; word. Qed.

Lemma byte_at_ok l i : bytes_ok l -> in_u 8 (byte_at l i).
Proof.
  intros H. unfold byte_at. destruct (l !! i) as [b|] eqn:E; simpl; [|word].
  eapply Forall_lookup_1; [exact H|exact E].
Qed.

Lemma load16_ok l : bytes_ok l -> in_u 16 (load16 l).
Proof.
  intros H. unfold load16. destruct H as [|a l Ha [|b l' Hb Hl]]; [word|word|]. word.
Qed.

Definition ethernet_ok (h : EthernetHeader) : Prop :=
  length (eth_destination h) = 6%nat /\ length (eth_source h) = 6%nat /\ in_u 16 (eth_type h) /\
  bytes_ok (eth_destination h) /\ bytes_ok (eth_source h).

Definition ip_ok (h : Ipv4Header) : Prop :=
  in_u 8 (version_ihl h) /\ in_u 8 (dscp_ecn h) /\ in_u 16 (total_length h) /\ in_u 16 (identification h) /\
  in_u 16 (flags_fragment h) /\ in_u 8 (ttl h) /\ in_u 8 (protocol h) /\ in_u 16 (ip_checksum h) /\
  length (ip_source h) = 4%nat /\ bytes_ok (ip_source h) /\
  length (ip_destination h) = 4%nat /\ bytes_ok (ip_destination h).

Definition icmp_ok (h : IcmpEchoHeader) : Prop :=
  in_u 8 (icmp_type h) /\ in_u 8 (icmp_code h) /\ in_u 16 (icmp_checksum h) /\
  in_u 16 (icmp_identifier h) /\ in_u 16 (icmp_sequence h).

Definition arp_ok (h : ArpIpv4) : Prop :=
  ethernet_ok (ethernet h) /\ in_u 16 (hardware_type h) /\ in_u 16 (protocol_type h) /\
  in_u 8 (hardware_size h) /\ in_u 8 (protocol_size h) /\ in_u 16 (operation h) /\
  length (sender_mac h) = 6%nat /\ bytes_ok (sender_mac h) /\ length (sender_ip h) = 4%nat /\ bytes_ok (sender_ip h) /\
  length (target_mac h) = 6%nat /\ bytes_ok (target_mac h) /\ length (target_ip h) = 4%nat /\ bytes_ok (target_ip h).

(** Writing an [n]-element list out. *)
Ltac explode l :=
  repeat match goal with
         | H : length l = _ |- _ =>
             let x := fresh "x" in
             destruct l as [|x l]; [discriminate H|]; simpl in H; injection H as H
         end;
  try (match goal with H : length l = 0%nat |- _ => apply nil_length_inv in H; subst l end).

Lemma decode_encode_ethernet h : ethernet_ok h -> decode_ethernet (encode_ethernet h) = h.
Proof.
  destruct h as [d s t]. intros (Hd & Hs & Ht & _). simpl in *.
  destruct d as [|d0 [|d1 [|d2 [|d3 [|d4 [|d5 [|]]]]]]]; try done.
  destruct s as [|s0 [|s1 [|s2 [|s3 [|s4 [|s5 [|]]]]]]]; try done.
  unfold decode_ethernet, encode_ethernet, slice. simpl. f_equal. pose proof (Z.div_mod t 256). lia.
Qed.

Lemma decode_encode_ip h : ip_ok h -> decode_ip (encode_ip h) = h.
Proof.
  destruct h as [a b c d e f g i s t]. intros (_ & _ & _ & _ & _ & _ & _ & _ & Hs & _ & Ht & _). simpl in *.
  destruct s as [|s0 [|s1 [|s2 [|s3 [|]]]]]; try done. destruct t as [|t0 [|t1 [|t2 [|t3 [|]]]]]; try done.
  unfold decode_ip, encode_ip, slice, byte_at. simpl. 
  pose proof (Z.div_mod c 256). pose proof (Z.div_mod d 256). pose proof (Z.div_mod e 256). pose proof (Z.div_mod i 256).
  f_equal; lia.
Qed.

Lemma decode_encode_icmp h : decode_icmp (encode_icmp h) = h.
Proof.
  destruct h as [a b c d e]. unfold decode_icmp, encode_icmp, slice, byte_at. simpl.
  pose proof (Z.div_mod c 256). pose proof (Z.div_mod d 256). pose proof (Z.div_mod e 256). f_equal; lia.
Qed.

Lemma length_encode_ethernet h : ethernet_ok h -> length (encode_ethernet h) = 14%nat.
Proof. intros (H1 & H2 & _). unfold encode_ethernet. rw !length_app H1 H2. done. Qed.

Lemma length_encode_ip h : ip_ok h -> length (encode_ip h) = 20%nat.
Proof. intros (_ & _ & _ & _ & _ & _ & _ & _ & H1 & _ & H2 & _). unfold encode_ip. rw !length_app H1 H2. done. Qed.

Lemma decode_ethernet_ok l : bytes_ok l -> length l = 14%nat -> ethernet_ok (decode_ethernet l).
Proof.
  intros Hl Hn. unfold ethernet_ok, decode_ethernet. simpl.
  rewrite -> !length_slice by lia. split_and!; auto using load16_ok, bytes_ok_slice.
Qed.

Lemma decode_ip_ok l : bytes_ok l -> length l = 20%nat -> ip_ok (decode_ip l).
Proof.
  intros Hl Hn. unfold ip_ok, decode_ip. simpl.
  rewrite -> !length_slice by lia. split_and!; auto using load16_ok, bytes_ok_slice, byte_at_ok.
Qed.

Lemma decode_icmp_ok l : bytes_ok l -> icmp_ok (decode_icmp l).
Proof.
  intros Hl. unfold icmp_ok, decode_icmp. simpl. split_and!; auto using load16_ok, bytes_ok_slice, byte_at_ok.
Qed.

Lemma encode_ethernet_ok h : ethernet_ok h -> bytes_ok (encode_ethernet h).
Proof. intros (_ & _ & H1 & H2 & H3). unfold encode_ethernet, bytes_ok. rw !Forall_app. split_and!; [done|done|by apply store16_ok]. Qed.

Lemma encode_ip_ok h : ip_ok h -> bytes_ok (encode_ip h).
Proof.
  intros (? & ? & ? & ? & ? & ? & ? & ? & _ & ? & _ & ?). unfold encode_ip, bytes_ok. rw !Forall_app.
  split_and!; try done; try (by apply store16_ok); by repeat (apply Forall_cons; split; [done|]).
Qed.

Lemma encode_icmp_ok h : icmp_ok h -> bytes_ok (encode_icmp h).
Proof.
  intros (? & ? & ? & ? & ?). unfold encode_icmp, bytes_ok. rw !Forall_app.
  split_and!; try done; try (by apply store16_ok); by repeat (apply Forall_cons; split; [done|]).
Qed.

(** ** The checksum *)

(** The exact sum of the big-endian 16-bit words. *)
Fixpoint words (l : list Z) : Z :=
  match l with a :: b :: l => 256 * a + b + words l | [a] => 256 * a | [] => 0 end.

Lemma words_ind (P : list Z -> Prop) :
  P [] -> (forall a, P [a]) -> (forall a b l, P l -> P (a :: b :: l)) -> forall l, P l.
Proof.
  intros H0 H1 H2. fix IH 1. intros [|a [|b l]]; [exact H0|apply H1|apply H2, IH].
Qed.

Lemma words_app a b : Nat.Even (length a) -> words (a ++ b) = words a + words b.
Proof.
  induction a as [|x|x y l IH] using words_ind; intros [n Hn]; simpl in *; [done|lia|].
  rw IH; [exists (n - 1)%nat; lia|lia].
Qed.

Lemma words_bound l : bytes_ok l -> 0 <= words l <= 65535 * ((Z.of_nat (length l) + 1) / 2).
Proof.
  unfold bytes_ok. induction l as [|x|x y l IH] using words_ind; intros H; simpl.
  - word.
  - apply Forall_cons in H as [Hx _]. word.
  - apply Forall_cons in H as [Hx [Hy H]%Forall_cons]. specialize (IH H).
    replace (Z.of_nat (S (S (length l))) + 1) with ((Z.of_nat (length l) + 1) + 1 * 2) by lia.
    rewrite -> Z.div_add by lia. unfold in_u in *. lia.
Qed.

Lemma checksum_sum_spec sum l :
  bytes_ok l -> 0 <= sum -> sum + words l < 2 ^ 32 -> checksum_sum sum l = sum + words l.
Proof.
  unfold bytes_ok. revert sum. induction l as [|x|x y l IH] using words_ind; intros sum Hl Hs Hb; simpl in *.
  - lia.
  - apply Forall_cons in Hl as [Hx _]. rewrite -> Z.shiftl_mul_pow2 by lia. word.
  - apply Forall_cons in Hl as [Hx [Hy Hl]%Forall_cons]. pose proof (words_bound l Hl) as Hw.
    assert (0 <= words l) by (destruct Hw; lia). clear Hw.
    rewrite -> (wrap_small 16 x) by word. rewrite -> lor_shiftl by (unfold in_u in *; lia). change (2 ^ 8) with 256.
    rewrite -> (wrap_small 16 (x * 256 + y)) by (unfold in_u in *; lia).
    rewrite -> wrap_small by (unfold in_u in *; lia). rw IH; [done|unfold in_u in *; lia|lia|lia].
Qed.

(** End-around carry: the representative of the sum in [0, 65535] modulo
    65535, with 0 only for 0. *)
Lemma fold_carry_done s :
  in_u 32 s -> let r := fold_carry fold_fuel s in
  0 <= r < 65536 /\ r mod 65535 = s mod 65535 /\ (r = 0 <-> s = 0).
Proof.
  intros Hs.
  assert (Hstep : forall f t, fold_carry (S f) t =
    if negb (Z.shiftr t 16 =? 0) then fold_carry f (u32 (Z.land t 0xffff + Z.shiftr t 16)) else t) by done.
  assert (Hval : forall t, in_u 32 t -> Z.shiftr t 16 = t / 65536 /\
    u32 (Z.land t 0xffff + Z.shiftr t 16) = t mod 65536 + t / 65536).
  { intros t Ht. rewrite -> Z.shiftr_div_pow2 by lia. change (2 ^ 16) with 65536. split; [done|].
    change 0xffff with (Z.ones 16). rewrite -> Z.land_ones by lia. change (2 ^ 16) with 65536. word. }
  assert (Hmod : forall t, (t mod 65536 + t / 65536) mod 65535 = t mod 65535).
  { intros t. rewrite -> (Z.div_mod t 65536) at 3 by lia.
    replace (65536 * (t / 65536) + t mod 65536) with (t mod 65536 + t / 65536 + t / 65536 * 65535) by lia.
    by rewrite -> Z.mod_add by lia. }
  unfold fold_fuel. cbv zeta. rw Hstep. destruct (Hval s Hs) as [-> ->].
  destruct (Z.eqb_spec (s / 65536) 0) as [E0|E0]; cbn [negb]; [split_and!; try done; word|].
  set (s1 := s mod 65536 + s / 65536). assert (Hs1 : 0 < s1 < 131071) by (unfold s1; word).
  rw -(Hmod s). fold s1. rw Hstep. destruct (Hval s1 ltac:(unfold in_u; lia)) as [-> ->].
  destruct (Z.eqb_spec (s1 / 65536) 0) as [E1|E1]; cbn [negb]; [split_and!; try done; lia || word|].
  set (s2 := s1 mod 65536 + s1 / 65536). assert (Hs2 : 0 < s2 < 65536) by (unfold s2; word).
  rw -(Hmod s1). fold s2. rw Hstep. destruct (Hval s2 ltac:(unfold in_u; lia)) as [-> _].
  assert (E2 : s2 / 65536 = 0) by word. rw E2. cbn [negb Z.eqb]. split_and!; try done; lia || word.
Qed.

(** Packets of at most 64 KiB: the 32-bit sum cannot wrap. *)
Definition short (l : list Z) : Prop := bytes_ok l /\ Z.of_nat (length l) <= 65536.

Lemma short_words l : short l -> 0 <= words l < 2 ^ 32.
Proof. intros [Hl Hn]. pose proof (words_bound l Hl). word. Qed.

Lemma checksum_zero l :
  short l -> internet_checksum l = 0 <-> words l mod 65535 = 0 /\ words l <> 0.
Proof.
  intros Hl. pose proof (short_words l Hl) as Hw. unfold internet_checksum.
  rw checksum_sum_spec; [apply Hl|done|lia|].
  destruct (fold_carry_done (0 + words l)) as (Hr & Hm & Hz); [unfold in_u; lia|].
  set (r := fold_carry _ _) in *. clearbody r. rw Z.add_0_l in Hm Hz. rw -Hm.
  unfold Z.lnot. clear Hm Hw. word.
Qed.

Lemma checksum_value l :
  short l -> let c := internet_checksum l in
  in_u 16 c /\ (words l + c) mod 65535 = 0 /\ words l + c <> 0.
Proof.
  intros Hl. pose proof (short_words l Hl) as Hw. unfold internet_checksum.
  rw checksum_sum_spec; [apply Hl|done|lia|].
  destruct (fold_carry_done (0 + words l)) as (Hr & Hm & Hz); [unfold in_u; lia|].
  set (r := fold_carry _ _) in *. clearbody r. rw Z.add_0_l in Hm Hz.
  replace (u16 (Z.lnot r)) with (65535 - r) by (unfold Z.lnot; clear -Hr; word). cbv zeta.
  split_and!; [word| |lia]. rw Zplus_mod -Hm -Zplus_mod. by replace (r + (65535 - r)) with (1 * 65535) by lia.
Qed.

(** Storing the checksum of a block in its zeroed field makes the block check. *)
Lemma checksum_install a b :
  Nat.Even (length a) -> short (a ++ [0; 0] ++ b) ->
  internet_checksum (a ++ store16 (net16 (internet_checksum (a ++ [0; 0] ++ b))) ++ b) = 0.
Proof.
  intros He Hs. destruct (checksum_value _ Hs) as (Hc & Hm & Hz). set (c := internet_checksum _) in *.
  assert (H2 : forall x y, words ([x; y] ++ b) = 256 * x + y + words b) by done.
  rewrite -> words_app, H2 in Hm, Hz by done.
  destruct Hs as [Hok Hlen]. rw store_net16 //.
  assert (Hw : words (a ++ [c / 256; c mod 256] ++ b) = words a + c + words b).
  { rewrite -> words_app, H2 by done. pose proof (Z.div_mod c 256). lia. }
  apply checksum_zero.
  - split; [|by rw !length_app in Hlen |- *]. unfold bytes_ok in *. rw !Forall_app in Hok |- *.
    destruct Hok as (? & _ & ?). split_and!; [done| |done]. repeat (apply Forall_cons; split; [word|]). done.
  - rw Hw. replace (words a + c + words b) with (words a + (256 * 0 + 0 + words b) + c) by lia. split; [done|lia].
Qed.

(** ** Replies *)

Lemma patch_mid a b c s : length s = length b -> patch (a ++ b ++ c) (length a) s = a ++ s ++ c.
Proof. intros H. unfold patch. rw take_app_length -drop_drop drop_app_length H drop_app_length. done. Qed.

Lemma cut_buffer (l : list Z) n : (n <= length l)%nat -> exists a b, l = a ++ b /\ length a = n.
Proof. intros H. exists (take n l), (drop n l). rw take_drop length_take. split; [done|lia]. Qed.

Definition mac_ok (m : MacAddress) : Prop := length (mac_octet m) = 6%nat /\ bytes_ok (mac_octet m).
Definition ipv4_ok (a : Ipv4Address) : Prop := length (ip_octet a) = 4%nat /\ bytes_ok (ip_octet a).

Lemma ip_install h :
  ip_ok h -> ip_checksum h = 0 -> internet_checksum (encode_ip (h <| ip_checksum := net16 (internet_checksum (encode_ip h)) |>)) = 0.
Proof.
  intros Hok H0. pose proof (encode_ip_ok h Hok) as Hb. pose proof (length_encode_ip h Hok) as Hl.
  set (pre := [version_ihl h; dscp_ecn h] ++ store16 (total_length h) ++ store16 (identification h) ++
    store16 (flags_fragment h) ++ [ttl h; protocol h]).
  set (post := ip_source h ++ ip_destination h).
  assert (He : encode_ip h = pre ++ [0; 0] ++ post) by (unfold encode_ip; by rw H0).
  assert (He' : forall v, encode_ip (h <| ip_checksum := v |>) = pre ++ store16 v ++ post) by done.
  rw He' He. apply checksum_install; [by exists 5%nat|]. rw -He. split; [done|lia].
Qed.

Lemma icmp_install c d :
  bytes_ok c -> bytes_ok d -> length c = 8%nat -> Z.of_nat (length d) <= 65528 ->
  let h := (decode_icmp c) <| icmp_type := 0 |> <| icmp_checksum := 0 |> in
  let c' := encode_icmp (h <| icmp_checksum := net16 (internet_checksum (encode_icmp h ++ d)) |>) in
  internet_checksum (c' ++ d) = 0 /\ byte_at c' 0 = 0 /\ drop 4 c' = drop 4 c /\ length c' = 8%nat.
Proof.
  intros Hc Hd Hl Hdl h c'. pose proof (decode_icmp_ok c Hc) as Hok.
  split_and!; [|done| |done].
  - set (pre := [0; icmp_code (decode_icmp c)]).
    set (post := store16 (icmp_identifier (decode_icmp c)) ++ store16 (icmp_sequence (decode_icmp c))).
    assert (He : forall v, encode_icmp (h <| icmp_checksum := v |>) ++ d = pre ++ store16 v ++ (post ++ d)) by done.
    assert (He0 : encode_icmp h ++ d = pre ++ [0; 0] ++ (post ++ d)) by done.
    unfold c'. rw He He0. apply checksum_install; [by exists 1%nat|].
    rw -He0. assert (Hh : icmp_ok h) by (destruct Hok as (_ & H1 & _ & H2 & H3); exact (conj in_u_0 (conj H1 (conj in_u_0 (conj H2 H3))))).
    split; [apply Forall_app; split; [by apply encode_icmp_ok|done]|].
    rw length_app. change (length (encode_icmp h)) with 8%nat. lia.
  - destruct c as [|c0 [|c1 [|c2 [|c3 [|c4 [|c5 [|c6 [|c7 [|]]]]]]]]]; try done.
    unfold bytes_ok in Hc. rw !Forall_cons in Hc. destruct Hc as (_ & _ & _ & _ & H4 & H5 & H6 & H7 & _).
    unfold c', h, decode_icmp, slice. simpl. clear - H4 H5 H6 H7. unfold store16. repeat f_equal; word.
Qed.

(** An ICMP echo reply is made only from an intact IPv4 echo request to the
    local address.  The packet then becomes, in place and within its size, an
    echo reply with the same identifier, sequence and data, addressed back to
    the sender, with valid IP and ICMP checksums; everything after the IP
    packet is untouched.  Any other packet is left unchanged. *)
Theorem icmp_echo_reply_spec bytes mac ip bytes' n :
  short bytes -> mac_ok mac -> ipv4_ok ip -> make_icmp_echo_reply bytes mac ip = (bytes', n) ->
  (n = 0 /\ bytes' = bytes) \/
  (42 <= n <= Z.of_nat (length bytes) /\ length bytes' = length bytes /\
   let eth := decode_ethernet (slice bytes 0 14) in let eth' := decode_ethernet (slice bytes' 0 14) in
   let iph := decode_ip (slice bytes 14 20) in let iph' := decode_ip (slice bytes' 14 20) in
   eth' = mkEthernet (eth_source eth) (mac_octet mac) (net16 0x0800) /\
   internet_checksum (slice bytes 14 20) = 0 /\ ip_destination iph = ip_octet ip /\
   ip_source iph' = ip_octet ip /\ ip_destination iph' = ip_source iph /\
   total_length iph' = total_length iph /\ net16 (total_length iph') = n - 14 /\
   internet_checksum (slice bytes' 14 20) = 0 /\
   internet_checksum (slice bytes' 34 (Z.to_nat (n - 34))) = 0 /\
   byte_at bytes 34 = 8 /\ byte_at bytes' 34 = 0 /\
   slice bytes' 38 (Z.to_nat (n - 38)) = slice bytes 38 (Z.to_nat (n - 38)) /\
   drop (Z.to_nat n) bytes' = drop (Z.to_nat n) bytes).
Proof.
  intros [Hok Hlen] [Hmac Hmok] [Hip Hiok]. unfold make_icmp_echo_reply.
  destruct (Z.ltb_spec (Z.of_nat (length bytes)) 42) as [|H42]; [intros [= <- <-]; by left|].
  destruct (cut_buffer bytes 14) as (E & r1 & -> & HE); [lia|]. rw length_app in H42 Hlen.
  destruct (cut_buffer r1 20) as (I & r2 & -> & HI); [lia|]. rw length_app in H42 Hlen.
  destruct (cut_buffer r2 8) as (C & r3 & -> & HC); [lia|]. rw length_app in H42 Hlen.
  assert (SE : slice (E ++ I ++ C ++ r3) 0 14 = E) by (by apply (slice_app_mid [] E)).
  assert (SI : slice (E ++ I ++ C ++ r3) 14 20 = I) by (by apply slice_app_mid).
  assert (SC : slice (E ++ I ++ C ++ r3) 34 8 = C).
  { rw app_assoc. apply slice_app_mid; [by rw length_app HE HI|done]. }
  unfold sizeof_ethernet, sizeof_ip, sizeof_icmp. rw SE SI SC.
  unfold bytes_ok in Hok. rw !Forall_app in Hok. destruct Hok as (HokE & HokI & HokC & Hok3).
  set (eth := decode_ethernet E). set (iph := decode_ip I). set (icmp := decode_icmp C).
  assert (Heth : ethernet_ok eth) by by apply decode_ethernet_ok.
  assert (Hiph : ip_ok iph) by by apply decode_ip_ok.
  assert (Hicmp : icmp_ok icmp) by by apply decode_icmp_ok.
  destruct (_ || _ || _ || _) eqn:Hc1; [intros [= <- <-]; by left|].
  repeat (apply orb_false_iff in Hc1 as [Hc1 ?]).
  case_bool_decide as Hdst; [intros [= <- <-]; by left|].
  set (n0 := net16 (total_length iph)). pose proof (net16_in_u (total_length iph)) as Hn0. fold n0 in Hn0.
  destruct (_ || _) eqn:Hc2; [intros [= <- <-]; by left|].
  rewrite -> (wrap_small 32 (_ - 14)) in Hc2 by (unfold in_u; rw !length_app; lia).
  apply orb_false_iff in Hc2 as [Hc2%Z.ltb_ge Hc2'%Z.ltb_ge]. rw !length_app in Hc2'.
  destruct (cut_buffer r3 (Z.to_nat (n0 - 28))) as (D & T & -> & HD); [lia|].
  rw length_app in H42 Hlen Hc2'. unfold bytes_ok in Hok3. rw Forall_app in Hok3. destruct Hok3 as [HokD _].
  assert (SD : slice (E ++ I ++ C ++ D ++ T) 34 (Z.to_nat (n0 - 20)) = C ++ D).
  { rw (app_assoc C D T) app_assoc. apply slice_app_mid; rw length_app; lia. }
  rw SD. destruct (_ || _ || _) eqn:Hc3; [intros [= <- <-]; by left|].
  repeat (apply orb_false_iff in Hc3 as [Hc3 ?]).
  set (E' := encode_ethernet _).
  set (ip2 := iph <| ip_destination := ip_source iph |> <| ip_source := ip_octet ip |> <| ttl := 64 |> <| ip_checksum := 0 |>).
  set (I' := encode_ip (_ <| ip_checksum := _ |>)).
  set (C0 := encode_icmp _).
  assert (Heth' : ethernet_ok (mkEthernet (eth_source eth) (mac_octet mac) (eth_type eth))).
  { destruct Heth as (? & ? & ? & ? & ?). unfold ethernet_ok. by simpl. }
  assert (HE' : length E' = length E) by (unfold E'; by rw length_encode_ethernet).
  assert (Hip2 : ip_ok ip2).
  { destruct Hiph as (? & ? & ? & ? & ? & ? & ? & ? & ? & ? & ? & ?). unfold ip_ok, ip2. simpl. split_and!; done || word. }
  assert (Hip3 : forall v, in_u 16 v -> ip_ok (ip2 <| ip_checksum := v |>)).
  { intros v Hv. destruct Hip2 as (? & ? & ? & ? & ? & ? & ? & ? & ? & ? & ? & ?). unfold ip_ok. by simpl. }
  assert (HI' : length I' = length I) by (unfold I'; rw length_encode_ip //; apply Hip3, net16_in_u).
  assert (HC0 : length C0 = length C) by done.
  assert (P1 : patch (E ++ I ++ C ++ D ++ T) 0 E' = E' ++ I ++ C ++ D ++ T)
    by (by apply (patch_mid [] E (I ++ C ++ D ++ T) E')).
  intros Heq. rw P1 in Heq. replace 34%nat with (length (E' ++ I')) in Heq by (rw length_app; lia).
  replace 14%nat with (length E') in Heq by congruence. rw patch_mid // !(app_assoc E' I') patch_mid // in Heq.
  assert (SD' : slice ((E' ++ I') ++ C0 ++ D ++ T) (length (E' ++ I')) (Z.to_nat (n0 - 20)) = C0 ++ D).
  { rw (app_assoc C0 D T). apply slice_app_mid; [done|]. rw length_app. lia. }
  rw SD' patch_mid // in Heq. set (C' := encode_icmp (_ <| icmp_checksum := _ |>)) in Heq.
  assert (FI : internet_checksum I' = 0 /\ decode_ip I' = ip2 <| ip_checksum := net16 (internet_checksum (encode_ip ip2)) |>).
  { split; [|apply decode_encode_ip, Hip3, net16_in_u]. apply ip_install; [done|done]. }
  assert (FC : internet_checksum (C' ++ D) = 0 /\ byte_at C' 0 = 0 /\ drop 4 C' = drop 4 C /\ length C' = 8%nat).
  { apply icmp_install; [done|done|done|lia]. }
  assert (FT : eth_type eth = net16 0x0800) by (apply Z.eqb_eq, negb_false_iff; done).
  assert (Hdec : decode_ethernet E' = mkEthernet (eth_source eth) (mac_octet mac) (net16 0x0800))
    by (unfold E'; rw decode_encode_ethernet //; by rw FT).
  destruct FI as [FI1 FI2], FC as (FC1 & FC2 & FC3 & FC4).
  clearbody E' I' C' C0. clear P1 SD'. apply pair_eq in Heq as [<- <-]. right. rw -!app_assoc.
  assert (SE' : slice (E' ++ I' ++ C' ++ D ++ T) 0 14 = E') by (apply (slice_app_mid [] E'); [done|congruence]).
  assert (SI' : slice (E' ++ I' ++ C' ++ D ++ T) 14 20 = I') by (apply slice_app_mid; congruence).
  cbv zeta. rw SE' SI' Hdec FI2 FI1. fold eth iph.
  split; [rw !length_app; lia|]. split; [rw !length_app; lia|]. split_and!; try done.
  - by apply Z.eqb_eq, negb_false_iff.
  - change (n0 = 14 + n0 - 14). lia.
  - replace (Z.to_nat (14 + n0 - 34)) with (length (C' ++ D)) by (rw length_app; lia).
    rw (app_assoc C' D) (app_assoc E' I'). rw slice_app_mid //. rw length_app. lia.
  - unfold byte_at. rw app_assoc. rewrite -> lookup_app_r by (rw length_app; lia).
    rewrite -> length_app, HE, HI. apply negb_false_iff, Z.eqb_eq in Hc3.
    rewrite -> lookup_app_l by lia. exact Hc3.
  - unfold byte_at in *. rw app_assoc. rewrite -> lookup_app_r by (rw length_app; lia).
    rewrite -> length_app, HE', HE, HI', HI. by rewrite -> lookup_app_l by lia.
  - assert (Hs : forall e i c, length e = 14%nat -> length i = 20%nat -> length c = 8%nat ->
      slice (e ++ i ++ c ++ D ++ T) 38 (Z.to_nat (14 + n0 - 38)) = drop 4 c ++ D).
    { intros e i c He Hi Hcl. rw -(take_drop 4 c). rw -app_assoc (app_assoc (drop 4 c)) (app_assoc i) (app_assoc e).
      rw drop_app_ge length_take; [lia|]. replace (4 - min 4 (length c))%nat with 0%nat by lia. rw drop_0.
      apply slice_app_mid; rw !length_app ?length_take ?length_drop; lia. }
    rw !Hs //; congruence.
  - assert (Hs : forall e i c, length e = 14%nat -> length i = 20%nat -> length c = 8%nat ->
      drop (Z.to_nat (14 + n0)) (e ++ i ++ c ++ D ++ T) = T).
    { intros e i c He Hi Hcl. rw (app_assoc c) (app_assoc i) (app_assoc e). apply drop_app_length'.
      rw !length_app. lia. }
    rw !Hs //; congruence.
Qed.

Lemma decode_encode_arp h : arp_ok h -> decode_arp (encode_arp h) = h.
Proof.
  destruct h as [e a b c d o sm si tm ti]. intros (He & _ & _ & _ & _ & _ & H1 & _ & H2 & _ & H3 & _ & H4 & _).
  simpl in *. pose proof (length_encode_ethernet e He) as Hl.
  destruct sm as [|? [|? [|? [|? [|? [|? [|]]]]]]]; try done. destruct si as [|? [|? [|? [|? [|]]]]]; try done.
  destruct tm as [|? [|? [|? [|? [|? [|? [|]]]]]]]; try done. destruct ti as [|? [|? [|? [|? [|]]]]]; try done.
  unfold decode_arp, encode_arp, byte_at. cbn [ethernet hardware_type protocol_type hardware_size protocol_size
    operation sender_mac sender_ip target_mac target_ip].
  pose proof (decode_encode_ethernet e He) as Hde. set (E := encode_ethernet e) in *. clearbody E.
  do 14 (destruct E as [|? E]; [done|]). destruct E; [|done].
  unfold slice at 2 3 4 5 6 7 8. simpl. f_equal; [exact Hde|..]; pose proof (Z.div_mod a 256);
    pose proof (Z.div_mod b 256); pose proof (Z.div_mod o 256); lia.
Qed.

Lemma length_encode_arp h : arp_ok h -> length (encode_arp h) = 42%nat.
Proof.
  intros (He & _ & _ & _ & _ & _ & H1 & _ & H2 & _ & H3 & _ & H4 & _). unfold encode_arp.
  rewrite -> !length_app, length_encode_ethernet, H1, H2, H3, H4 by done. done.
Qed.

Lemma decode_arp_ok l : bytes_ok l -> length l = 42%nat -> arp_ok (decode_arp l).
Proof.
  intros Hl Hn. unfold arp_ok, decode_arp. simpl. rewrite -> !length_slice by lia.
  split_and!; auto using load16_ok, bytes_ok_slice, byte_at_ok.
  apply decode_ethernet_ok; [by apply bytes_ok_slice|]. by rewrite -> length_slice by lia.
Qed.

(** [make_arp_reply] answers exactly the Ethernet/IPv4 ARP requests for the
    local address: it turns the frame in place into the reply that names the
    local MAC, addressed to the requester; bytes after the 42 of the packet and
    every other frame stay as they are. *)
Theorem arp_reply_spec bytes mac ip bytes' n :
  bytes_ok bytes -> mac_ok mac -> ipv4_ok ip -> make_arp_reply bytes mac ip = (bytes', n) ->
  let a := decode_arp (slice bytes 0 42) in let a' := decode_arp (slice bytes' 0 42) in
  if decide (42 <= Z.of_nat (length bytes) /\ eth_type (ethernet a) = net16 0x0806 /\ hardware_type a = net16 1 /\
             protocol_type a = net16 0x0800 /\ hardware_size a = 6 /\ protocol_size a = 4 /\ operation a = net16 1 /\
             target_ip a = ip_octet ip)
  then n = 42 /\ length bytes' = length bytes /\ drop 42 bytes' = drop 42 bytes /\
       a' = mkArp (mkEthernet (sender_mac a) (mac_octet mac) (net16 0x0806)) (net16 1) (net16 0x0800) 6 4 (net16 2)
              (mac_octet mac) (ip_octet ip) (sender_mac a) (sender_ip a)
  else n = 0 /\ bytes' = bytes.
Proof.
  intros Hok [Hmac Hmok] [Hip Hiok]. unfold make_arp_reply. cbv zeta. unfold sizeof_arp.
  destruct (Z.ltb_spec (Z.of_nat (length bytes)) 42) as [|H42].
  { intros [= <- <-]. by rewrite -> decide_False by lia. }
  destruct (cut_buffer bytes 42) as (A & T & -> & HA); [lia|].
  assert (SA : slice (A ++ T) 0 42 = A) by (by apply (slice_app_mid [] A)). rw SA. unfold bytes_ok in Hok.
  rw Forall_app in Hok. destruct Hok as [HokA _]. pose proof (decode_arp_ok A HokA HA) as Ha.
  set (a := decode_arp A) in *. clearbody a.
  destruct (_ || _) eqn:Hc.
  { intros [= <- <-]. rewrite -> decide_False; [done|]. intros (_ & H1 & H2 & H3 & H4 & H5 & H6 & _).
    by rw H1 H2 H3 H4 H5 H6 !Z.eqb_refl in Hc. }
  repeat (apply orb_false_iff in Hc as [Hc ?]).
  repeat match goal with H : negb _ = false |- _ => apply negb_false_iff, Z.eqb_eq in H end.
  case_bool_decide as Hd; [intros [= <- <-]; rewrite -> decide_False; [done|]; by intros (_ & _ & _ & _ & _ & _ & _ & ?)|].
  intros Heq. rewrite -> decide_True by done.
  set (h := _ <| sender_ip := _ |>) in Heq.
  assert (Hh : arp_ok h).
  { destruct Ha as ((? & ? & ? & ? & ?) & ? & ? & ? & ? & ? & ? & ? & ? & ? & ? & ? & ? & ?).
    unfold arp_ok, ethernet_ok, h. simpl. split_and!; done || apply net16_in_u. }
  assert (HP : patch (A ++ T) 0 (encode_arp h) = encode_arp h ++ T).
  { apply (patch_mid [] A T). by rw length_encode_arp. }
  rw HP in Heq. apply pair_eq in Heq as [<- <-].
  assert (SA' : slice (encode_arp h ++ T) 0 42 = encode_arp h).
  { apply (slice_app_mid [] (encode_arp h)); [done|by rw length_encode_arp]. }
  rw SA' decode_encode_arp //. split_and!; [done| | |].
  - by rewrite -> !length_app, length_encode_arp, HA by done.
  - by rewrite -> !drop_app_length' by rw ?length_encode_arp //.
  - unfold h. simpl. congruence.
Qed.

(** ** Examples: frames of a QEMU user network *)

Definition example_mac : MacAddress := mkMac [0x52; 0x54; 0x00; 0x12; 0x34; 0x56].
Definition example_ip : Ipv4Address := mkIpv4 [10; 0; 2; 15].

Definition example_arp : list Z :=
  replicate 6 255 ++ [2; 0; 0; 0; 0; 1] ++ [8; 6; 0; 1; 8; 0; 6; 4; 0; 1] ++
  [2; 0; 0; 0; 0; 1] ++ [10; 0; 2; 2] ++ replicate 6 0 ++ [10; 0; 2; 15] ++ replicate 18 0.

Definition example_echo : list Z :=
  [0x52; 0x54; 0x00; 0x12; 0x34; 0x56] ++ [2; 0; 0; 0; 0; 1] ++ [8; 0] ++
  [0x45; 0; 0; 32; 0; 1; 0; 0; 255; 1; 0xa3; 0xcb; 10; 0; 2; 2; 10; 0; 2; 15] ++
  [8; 0; 0xd5; 0x13; 0x12; 0x34; 0; 1; 9; 8; 7; 0xaf] ++ [1; 2; 3].

Lemma bytes_ok_check l : forallb (fun b => bool_decide (in_u 8 b)) l = true -> bytes_ok l.
Proof.
  intros H. apply Forall_forall. intros b Hb. rewrite forallb_forall in H.
  apply list_elem_of_In, H in Hb. by apply bool_decide_eq_true in Hb.
Defined.

Lemma arp_reply_spec_witness :
  (make_arp_reply example_arp example_mac example_ip).2 = 42.
Proof.
  assert (Hm : mac_ok example_mac) by (split; [reflexivity|apply bytes_ok_check; vm_compute; reflexivity]).
  assert (Hi : ipv4_ok example_ip) by (split; [reflexivity|apply bytes_ok_check; vm_compute; reflexivity]).
  pose proof (arp_reply_spec example_arp example_mac example_ip _ _
    ltac:(apply bytes_ok_check; vm_compute; reflexivity) Hm Hi (surjective_pairing _)) as H.
  cbv zeta in H. case_decide as Hd; [exact (proj1 H)|].
  exfalso. apply Hd. vm_compute. repeat split; congruence.
Defined.

Lemma icmp_echo_reply_spec_witness :
  let r := make_icmp_echo_reply example_echo example_mac example_ip in
  r.2 = 46 /\ internet_checksum (slice r.1 34 12) = 0.
Proof.
  intros r. assert (H0 : r.2 = 46) by (vm_compute; reflexivity). split; [exact H0|].
  destruct (icmp_echo_reply_spec example_echo example_mac example_ip r.1 r.2) as [[H _]|(_ & _ & H)].
  - split; [apply bytes_ok_check; vm_compute; reflexivity|vm_compute; congruence].
  - split; [reflexivity|apply bytes_ok_check; vm_compute; reflexivity].
  - split; [reflexivity|apply bytes_ok_check; vm_compute; reflexivity].
  - unfold r. apply surjective_pairing.
  - rw H0 in H. discriminate H.
  - cbv zeta in H. rw H0 in H. exact (proj1 (proj2 (proj2 (proj2 (proj2 (proj2 (proj2 (proj2 (proj2 H))))))))).
Defined.

End Ethernet.
