(* ===== verification/Interface.v ===== *)
(** * [include/mikos/net/interface.hpp]: the network interface ioctls

    A [Ifreq32] is its 16-byte name and the 16 bytes of its value union; the
    union's members are views of these bytes, little-endian as on the target. *)

From S2P Require Import Prelude Ethernet.
Local Open Scope Z_scope.

Module Interface.

Definition interface_name_size := 16%nat.
Definition interface_index := 1.
Definition interface_up := 0x0001.
Definition interface_broadcast := 0x0002.
Definition interface_running := 0x0040.
Definition interface_multicast := 0x1000.

Definition siocgifconf := 0x8912.
Definition siocgifflags := 0x8913.
Definition siocsifflags := 0x8914.
Definition siocgifaddr := 0x8915.
Definition siocsifaddr := 0x8916.
Definition siocgifbrdaddr := 0x8919.
Definition siocsifbrdaddr := 0x891a.
Definition siocgifnetmask := 0x891b.
Definition siocsifnetmask := 0x891c.
Definition siocgifmetric := 0x891d.
Definition siocgifmtu := 0x8921.
Definition siocgifhwaddr := 0x8927.
Definition siocgifindex := 0x8933.
Definition siocgiftxqlen := 0x8942.

Record Sockaddr32 := mkSockaddr { family : Z; data : list Z }.
Record Ifreq32 := mkIfreq { name : list Z; value : list Z }.
#[global] Instance ifreq_eta : Eta Ifreq32 := fun r => mkIfreq (name r) (value r).

(** Writing a 16- or 32-bit member leaves the other bytes of the union. *)
Definition store32 (v : Z) : list Z :=
  [v mod 256; v / 256 mod 256; v / 65536 mod 256; v / 16777216 mod 256].
Definition set16 (r : Ifreq32) (v : Z) : Ifreq32 := r <| value ::= fun b => patch b 0 (Ethernet.store16 v) |>.
Definition set32 (r : Ifreq32) (v : Z) : Ifreq32 := r <| value ::= fun b => patch b 0 (store32 (u32 v)) |>.
Definition value_flags (r : Ifreq32) : Z := Ethernet.load16 (value r).
Definition value_address (r : Ifreq32) : Sockaddr32 :=
  mkSockaddr (Ethernet.load16 (value r)) (slice (value r) 2 14).
Definition set_address (r : Ifreq32) (a : Sockaddr32) : Ifreq32 :=
  r <| value := Ethernet.store16 (family a) ++ data a |>.

Record InterfaceState := mkState {
  mac : Ethernet.MacAddress;
  address : Ethernet.Ipv4Address;
  netmask : Ethernet.Ipv4Address;
  broadcast : Ethernet.Ipv4Address;
  flags : Z;
}.
#[global] Instance interface_eta : Eta InterfaceState := fun s =>
  mkState (mac s) (address s) (netmask s) (broadcast s) (flags s).

Definition initial : InterfaceState :=
  mkState Ethernet.mac_zero (Ethernet.mkIpv4 [10; 0; 2; 15]) (Ethernet.mkIpv4 [255; 255; 255; 0])
    (Ethernet.mkIpv4 [10; 0; 2; 255])
    (u16 (Z.lor (Z.lor (Z.lor interface_up interface_broadcast) interface_running) interface_multicast)).

Inductive InterfaceControlResult := success | no_device | invalid_argument | unsupported.

Definition interface_name_matches (n : list Z) : bool :=
  (Ethernet.byte_at n 0 =? 101) && (Ethernet.byte_at n 1 =? 116) && (Ethernet.byte_at n 2 =? 104) &&
  (Ethernet.byte_at n 3 =? 48) && (Ethernet.byte_at n 4 =? 0).

Definition write_interface_name : list Z :=
  [101; 116; 104; 48] ++ replicate (interface_name_size - 4) 0.

Definition sockaddr_ipv4 (a : Sockaddr32) : Ethernet.Ipv4Address :=
  Ethernet.mkIpv4 [Ethernet.byte_at (data a) 2; Ethernet.byte_at (data a) 3;
                   Ethernet.byte_at (data a) 4; Ethernet.byte_at (data a) 5].

Definition write_sockaddr_ipv4 (a : Ethernet.Ipv4Address) : Sockaddr32 :=
  mkSockaddr 2 (replicate 2 0 ++ Ethernet.ip_octet a ++ replicate 8 0).

Definition update_broadcast (s : InterfaceState) : InterfaceState :=
  s <| broadcast := Ethernet.mkIpv4
         (zip_with (fun a m => u8 (Z.lor a (u8 (Z.lnot m))))
            (Ethernet.ip_octet (address s)) (Ethernet.ip_octet (netmask s))) |>.

Definition apply_interface_ioctl (s : InterfaceState) (request : Z) (r : Ifreq32)
    : InterfaceState * Ifreq32 * InterfaceControlResult :=
  if negb (interface_name_matches (name r)) then (s, r, no_device) else
  if request =? siocgifindex then (s, set32 r interface_index, success) else
  if request =? siocgifflags then (s, set16 r (flags s), success) else
  if request =? siocgifmetric then (s, set32 r 0, success) else
  if request =? siocgifmtu then (s, set32 r 1500, success) else
  if request =? siocgiftxqlen then (s, set32 r 1000, success) else
  if request =? siocsifflags then (s <| flags := value_flags r |>, r, success) else
  if request =? siocgifaddr then (s, set_address r (write_sockaddr_ipv4 (address s)), success) else
  if request =? siocsifaddr then
    if negb (family (value_address r) =? 2) then (s, r, invalid_argument)
    else (update_broadcast (s <| address := sockaddr_ipv4 (value_address r) |>), r, success) else
  if request =? siocgifnetmask then (s, set_address r (write_sockaddr_ipv4 (netmask s)), success) else
  if request =? siocsifnetmask then
    if negb (family (value_address r) =? 2) then (s, r, invalid_argument)
    else (update_broadcast (s <| netmask := sockaddr_ipv4 (value_address r) |>), r, success) else
  if request =? siocgifbrdaddr then (s, set_address r (write_sockaddr_ipv4 (broadcast s)), success) else
  if request =? siocsifbrdaddr then
    if negb (family (value_address r) =? 2) then (s, r, invalid_argument)
    else (s <| broadcast := sockaddr_ipv4 (value_address r) |>, r, success) else
  if request =? siocgifhwaddr then
    (s, set_address r (mkSockaddr 1 (Ethernet.mac_octet (mac s) ++ replicate 8 0)), success)
  else (s, r, unsupported).

(** The set requests and the get requests that read the value back. *)
Definition getter_of (set : Z) : option Z :=
  if set =? siocsifflags then Some siocgifflags
  else if set =? siocsifaddr then Some siocgifaddr
  else if set =? siocsifnetmask then Some siocgifnetmask
  else if set =? siocsifbrdaddr then Some siocgifbrdaddr
  else None.

Definition ifreq_ok (r : Ifreq32) : Prop :=
  length (value r) = 16%nat /\ bytes_ok (value r) /\ interface_name_matches (name r) = true.

(** The eight requests on the interface by name. *)
Section requests.
Context (s : InterfaceState) (r : Ifreq32) (Hn : interface_name_matches (name r) = true).

Ltac request := unfold apply_interface_ioctl; rewrite -> Hn; reflexivity.

Lemma ioctl_sifflags : apply_interface_ioctl s siocsifflags r = (s <| flags := value_flags r |>, r, success).
Proof. request. Qed.
Lemma ioctl_gifflags : apply_interface_ioctl s siocgifflags r = (s, set16 r (flags s), success).
Proof. request. Qed.
Lemma ioctl_sifaddr : apply_interface_ioctl s siocsifaddr r =
  if negb (family (value_address r) =? 2) then (s, r, invalid_argument)
  else (update_broadcast (s <| address := sockaddr_ipv4 (value_address r) |>), r, success).
Proof. request. Qed.
Lemma ioctl_gifaddr : apply_interface_ioctl s siocgifaddr r = (s, set_address r (write_sockaddr_ipv4 (address s)), success).
Proof. request. Qed.
Lemma ioctl_sifnetmask : apply_interface_ioctl s siocsifnetmask r =
  if negb (family (value_address r) =? 2) then (s, r, invalid_argument)
  else (update_broadcast (s <| netmask := sockaddr_ipv4 (value_address r) |>), r, success).
Proof. request. Qed.
Lemma ioctl_gifnetmask : apply_interface_ioctl s siocgifnetmask r = (s, set_address r (write_sockaddr_ipv4 (netmask s)), success).
Proof. request. Qed.
Lemma ioctl_sifbrdaddr : apply_interface_ioctl s siocsifbrdaddr r =
  if negb (family (value_address r) =? 2) then (s, r, invalid_argument)
  else (s <| broadcast := sockaddr_ipv4 (value_address r) |>, r, success).
Proof. request. Qed.
Lemma ioctl_gifbrdaddr : apply_interface_ioctl s siocgifbrdaddr r = (s, set_address r (write_sockaddr_ipv4 (broadcast s)), success).
Proof. request. Qed.
End requests.

(** An address written to a request reads back with the same octets. *)
Lemma address_round_trip q a :
  let q' := set_address q (write_sockaddr_ipv4 (sockaddr_ipv4 a)) in
  family (value_address q') = 2 /\ sockaddr_ipv4 (value_address q') = sockaddr_ipv4 a.
Proof. split; reflexivity. Qed.

Lemma flags_round_trip v q : value_flags (set16 q v) = v.
Proof.
  destruct q as [n l]. change (Ethernet.load16 (patch l 0 (Ethernet.store16 v)) = v).
  unfold patch. rewrite -> take_0. apply Ethernet.load_store.
Qed.

(** Every set request that succeeds is read back by its get request: the
    flags exactly, the addresses as an [AF_INET] socket address with the same
    four octets; and setting address or netmask makes the broadcast address
    [address | ~netmask] octet by octet. *)
Theorem interface_set_get s s' set get r q :
  ifreq_ok r -> ifreq_ok q -> getter_of set = Some get ->
  apply_interface_ioctl s set r = (s', r, success) ->
  exists q', apply_interface_ioctl s' get q = (s', q', success) /\
    (if set =? siocsifflags then value_flags q' = value_flags r
     else family (value_address q') = 2 /\ sockaddr_ipv4 (value_address q') = sockaddr_ipv4 (value_address r)) /\
    (set = siocsifaddr \/ set = siocsifnetmask ->
     Ethernet.ip_octet (broadcast s') =
       zip_with (fun a m => u8 (Z.lor a (u8 (Z.lnot m)))) (Ethernet.ip_octet (address s')) (Ethernet.ip_octet (netmask s'))).
Proof.
  intros (Hr1 & _ & Hr3) (Hq1 & _ & Hq3) Hget. unfold getter_of in Hget.
  destruct (Z.eqb_spec set siocsifflags) as [->|Hne].
  { injection Hget as <-. rw ioctl_sifflags //. intros [= <-]. rw ioctl_gifflags //.
    eexists. split; [reflexivity|]. split; [by apply flags_round_trip|]. by intros [?|?]. }
  destruct (Z.eqb_spec set siocsifaddr) as [->|Hne2].
  { injection Hget as <-. rw ioctl_sifaddr //. destruct (negb _); [done|]. intros [= <-]. rw ioctl_gifaddr //.
    eexists. split; [reflexivity|]. split; [apply address_round_trip|done]. }
  destruct (Z.eqb_spec set siocsifnetmask) as [->|Hne3].
  { injection Hget as <-. rw ioctl_sifnetmask //. destruct (negb _); [done|]. intros [= <-]. rw ioctl_gifnetmask //.
    eexists. split; [reflexivity|]. split; [apply address_round_trip|done]. }
  destruct (Z.eqb_spec set siocsifbrdaddr) as [->|Hne4]; [|done].
  injection Hget as <-. rw ioctl_sifbrdaddr //. destruct (negb _); [done|]. intros [= <-]. rw ioctl_gifbrdaddr //.
  eexists. split; [reflexivity|]. split; [apply address_round_trip|]. by intros [?|?].
Qed.

(** A request that fails, for another device, an unknown request or an
    address family other than [AF_INET], changes neither the interface nor the
    request; a get request never changes the interface. *)
Theorem interface_error_frame s request r s' r' st :
  apply_interface_ioctl s request r = (s', r', st) ->
  (st <> success -> s' = s /\ r' = r) /\
  (getter_of request = None -> s' = s) /\
  (interface_name_matches (name r) = false <-> st = no_device).
Proof.
  unfold apply_interface_ioctl. destruct (interface_name_matches (name r)); cbn [negb]; last first.
  { intros [= <- <- <-]. done. }
  unfold getter_of.
  repeat (match goal with |- context [request =? ?k] => destruct (Z.eqb_spec request k) as [->|] end;
    [repeat case_match; intros [= <- <- <-]; done|]).
  intros [= <- <- <-]. done.
Qed.

Definition example_request : Ifreq32 :=
  mkIfreq write_interface_name ([2; 0; 0; 0; 192; 168; 1; 7] ++ replicate 8 0).

Lemma example_request_ok : ifreq_ok example_request.
Proof. split; [reflexivity|]. split; [apply Ethernet.bytes_ok_check|]; vm_compute; reflexivity. Defined.

Lemma interface_set_get_witness :
  let '(s', _, st) := apply_interface_ioctl initial siocsifaddr example_request in
  st = success /\ Ethernet.ip_octet (broadcast s') = [192; 168; 1; 255] /\
  exists q', apply_interface_ioctl s' siocgifaddr example_request = (s', q', success).
Proof.
  destruct (interface_set_get initial _ siocsifaddr siocgifaddr example_request example_request
    example_request_ok example_request_ok eq_refl eq_refl) as (q' & H & _ & Hb).
  split; [reflexivity|]. split; [rewrite -> (Hb (or_introl eq_refl)); vm_compute; reflexivity|].
  exists q'. exact H.
Defined.

Lemma interface_error_frame_witness :
  apply_interface_ioctl initial siocgifconf example_request = (initial, example_request, unsupported).
Proof.
  destruct (interface_error_frame initial siocgifconf example_request _ _ _ eq_refl) as [H _].
  destruct (H ltac:(vm_compute; discriminate)) as [_ _]. vm_compute. reflexivity.
Defined.
End Interface.
