(* ===== verification/Socket.v ===== *)
(** * [include/mikos/net/socket.hpp]: the socket table

    A [SocketHandle] is the index of a slot, [invalid_socket] is 255.  A
    pointer to a slot is its index in [slots]; the reassembly queue is the
    array of optional (key, segment) pairs the code scans.  The data of a
    segment is the list of its bytes, whose length is the [size] argument. *)

From S2P Require Import Prelude Ethernet Timing.
Local Open Scope Z_scope.

(** [include/mikos/abi/socket.hpp] *)
Module SocketAbi.

Definition af_inet := 2.
Definition sock_stream := 1.
Definition sock_dgram := 2.
Definition sock_nonblock := 0x800.
Definition sock_cloexec := 0x80000.
Definition ipproto_tcp := 6.

Inductive Type_ := stream | datagram.
#[global] Instance type_eq_dec : EqDecision Type_.
Proof. solve_decision. Defined.

Inductive ValidationResult :=
  success | address_family_not_supported | socket_type_not_supported | protocol_not_supported.

Definition type_flags := Z.lor sock_nonblock sock_cloexec.

Definition validate (domain type protocol : Z) : ValidationResult :=
  if negb (domain =? af_inet) then address_family_not_supported else
  let base_type := Z.land type (u32 (Z.lnot type_flags)) in
  if negb (base_type =? sock_stream) && negb (base_type =? sock_dgram) then socket_type_not_supported else
  if negb (protocol =? 0) && negb ((base_type =? sock_stream) && (protocol =? ipproto_tcp))
  then protocol_not_supported
  else success.

Definition type (value : Z) : Type_ :=
  if Z.land value (u32 (Z.lnot type_flags)) =? sock_stream then stream else datagram.
End SocketAbi.

Module Socket.

Definition socket_capacity := 13%nat.
Definition socket_receive_capacity := 4096.
Definition listen_backlog_capacity := 4.
Definition reassembly_capacity := 16%nat.
Definition reassembly_segment_capacity := 1500.
Definition transmit_capacity := 16%nat.
Definition transmit_segment_capacity := 1024.

Abbreviation SocketHandle := nat.
Definition invalid_socket : SocketHandle := 255%nat.

Module State.
Inductive SocketState :=
  free | control | created | bound | listening | syn_received | established | close_wait
| fin_wait_1 | fin_wait_2 | closing | last_ack | time_wait | closed | reset.
End State.
#[global] Instance state_eq_dec : EqDecision State.SocketState.
Proof. solve_decision. Defined.

Module Result.
Inductive SocketResult :=
  success | bad_handle | wrong_type | invalid_argument | address_in_use | not_bound
| not_listening | would_block | not_connected | no_space | reset | end_of_file | timed_out.
End Result.
#[global] Instance result_eq_dec : EqDecision Result.SocketResult.
Proof. solve_decision. Defined.

Record Endpoint := mkEndpoint { endpoint_address : Ethernet.Ipv4Address; port : Z }.
#[global] Instance endpoint_eq_dec : EqDecision Endpoint.
Proof. solve_decision. Defined.
Definition endpoint_zero := mkEndpoint Ethernet.ipv4_zero 0.

Definition is_connection (state : State.SocketState) : bool :=
  match state with
  | State.syn_received | State.established | State.close_wait | State.fin_wait_1 | State.fin_wait_2
  | State.closing | State.last_ack | State.time_wait | State.reset => true
  | _ => false
  end.

Record SocketSlot := mkSlot {
  state : State.SocketState;
  slot_type : SocketAbi.Type_;
  local : Endpoint;
  remote : Endpoint;
  remote_mac : Ethernet.MacAddress;
  send_next : Z;
  send_unacknowledged : Z;
  peer_window : Z;
  congestion_window : Z;
  slow_start_threshold : Z;
  congestion_credit : Z;
  duplicate_acks : Z;
  fast_recovery : bool;
  window_sequence : Z;
  window_acknowledgement : Z;
  peer_mss : Z;
  peer_scale : Z;
  scale_negotiated : bool;
  receive_closed : bool;
  read_closed : bool;
  detached : bool;
  fin_sent : bool;
  fin_acked : bool;
  active_close : bool;
  persist_waiting : bool;
  rtt_measured : bool;
  failure : Result.SocketResult;
  opened_at : Z;
  progress_at : Z;
  control_retry_at : Z;
  control_delay : Z;
  persist_retry_at : Z;
  persist_delay : Z;
  state_since : Z;
  rto : Z;
  smoothed_rtt : Z;
  rtt_variance : Z;
  receive_next : Z;
  references : Z;
  listener_of : SocketHandle;
  backlog : Z;
  acknowledgement_retries : Z;
  accepted : bool;
  send_closed : bool;
  receive_buffer : list Z;
}.
#[global] Instance slot_eta : Eta SocketSlot := fun s =>
  mkSlot (state s) (slot_type s) (local s) (remote s) (remote_mac s) (send_next s) (send_unacknowledged s)
    (peer_window s) (congestion_window s) (slow_start_threshold s) (congestion_credit s) (duplicate_acks s)
    (fast_recovery s) (window_sequence s) (window_acknowledgement s) (peer_mss s) (peer_scale s)
    (scale_negotiated s) (receive_closed s) (read_closed s) (detached s) (fin_sent s) (fin_acked s)
    (active_close s) (persist_waiting s) (rtt_measured s) (failure s) (opened_at s) (progress_at s)
    (control_retry_at s) (control_delay s) (persist_retry_at s) (persist_delay s) (state_since s) (rto s)
    (smoothed_rtt s) (rtt_variance s) (receive_next s) (references s) (listener_of s) (backlog s)
    (acknowledgement_retries s) (accepted s) (send_closed s) (receive_buffer s).

(** [SocketSlot{}] *)
Definition slot_default : SocketSlot := {|
  state := State.free; slot_type := SocketAbi.datagram; local := endpoint_zero; remote := endpoint_zero;
  remote_mac := Ethernet.mac_zero; send_next := 0; send_unacknowledged := 0; peer_window := 65535;
  congestion_window := 4 * 536; slow_start_threshold := 65535; congestion_credit := 0; duplicate_acks := 0;
  fast_recovery := false; window_sequence := 0; window_acknowledgement := 0; peer_mss := 536; peer_scale := 0;
  scale_negotiated := false; receive_closed := false; read_closed := false; detached := false;
  fin_sent := false; fin_acked := false; active_close := false; persist_waiting := false;
  rtt_measured := false; failure := Result.reset; opened_at := 0; progress_at := 0; control_retry_at := 0;
  control_delay := Timing.tcp_initial_rto; persist_retry_at := 0; persist_delay := Timing.tcp_initial_rto;
  state_since := 0; rto := Timing.tcp_initial_rto; smoothed_rtt := 0; rtt_variance := 0; receive_next := 0;
  references := 0; listener_of := invalid_socket; backlog := 0; acknowledgement_retries := 0;
  accepted := false; send_closed := false; receive_buffer := [] |}.

Record ReassemblyKey := mkKey { key_handle : SocketHandle; key_sequence : Z }.
#[global] Instance key_eq_dec : EqDecision ReassemblyKey.
Proof. solve_decision. Defined.
Record ReassemblySegment := mkSegment { finish : bool; data : list Z }.
Abbreviation Reassembly := (list (option (ReassemblyKey * ReassemblySegment))).

Record SocketTable := mkTable { slots : list SocketSlot; reassembly : Reassembly }.
#[global] Instance table_eta : Eta SocketTable := fun t => mkTable (slots t) (reassembly t).

Definition initial : SocketTable :=
  mkTable (replicate socket_capacity slot_default) (replicate reassembly_capacity None).

(** The retransmission queue of the stack. *)
Record TransmitKey := mkTransmitKey { transmit_handle : SocketHandle; transmit_sequence : Z }.
#[global] Instance transmit_key_eq_dec : EqDecision TransmitKey.
Proof. solve_decision. Defined.
Record TransmitSegment := mkTransmit {
  retry_at : Z; delay : Z; first_sent : Z; fast_retry : bool; segment_flags : Z; attempts : Z;
  segment_data : list Z;
}.
#[global] Instance transmit_eta : Eta TransmitSegment := fun s =>
  mkTransmit (retry_at s) (delay s) (first_sent s) (fast_retry s) (segment_flags s) (attempts s) (segment_data s).

(** The length of a buffer as the code's unsigned size. *)
Definition size {A} (l : list A) : Z := Z.of_nat (length l).

(** ** Lookup and allocation *)

Definition slot (t : SocketTable) (handle : SocketHandle) : option SocketSlot :=
  match slots t !! handle with
  | Some value => if bool_decide (state value <> State.free) then Some value else None
  | None => None
  end.

Definition set_slot (t : SocketTable) (handle : SocketHandle) (value : SocketSlot) : SocketTable :=
  t <| slots ::= <[handle := value]> |>.

Definition unspecified (address : Ethernet.Ipv4Address) : bool :=
  bool_decide (address = Ethernet.ipv4_zero).

(** The [find] over [slots_] returns the first match, the loops over indices too. *)
Definition handle_of_first (p : SocketSlot -> bool) (t : SocketTable) : SocketHandle :=
  default invalid_socket (first_slot p (slots t)).

Definition allocate (t : SocketTable) : SocketHandle :=
  handle_of_first (fun value => bool_decide (state value = State.free)) t.

Definition address_conflicts (a b : Ethernet.Ipv4Address) : bool :=
  unspecified a || unspecified b || bool_decide (a = b).

Definition port_conflicts (t : SocketTable) (excluded : SocketHandle) (l : Endpoint) : bool :=
  existsb (fun '(index, value) =>
    negb (Nat.eqb index excluded) &&
    bool_decide (slot_type value = SocketAbi.stream) &&
    negb (bool_decide (state value = State.free)) && negb (bool_decide (state value = State.control)) &&
    (port (local value) =? port l) &&
    address_conflicts (endpoint_address (local value)) (endpoint_address l))
    (imap pair (slots t)).

(** [for (port = 49152; port <= 65535; ++port)] *)
Definition ephemeral_first := 49152.
Definition ephemeral_count := 16384%nat.

Fixpoint ephemeral_scan (t : SocketTable) (address : Ethernet.Ipv4Address) (p : Z) (n : nat) : Z :=
  match n with
  | O => 0
  | S n => if negb (port_conflicts t invalid_socket (mkEndpoint address (u16 p))) then u16 p
           else ephemeral_scan t address (p + 1) n
  end.

Definition allocate_ephemeral_port (t : SocketTable) (address : Ethernet.Ipv4Address) : Z :=
  ephemeral_scan t address ephemeral_first ephemeral_count.

Definition waiting_on (listener_handle : SocketHandle) (candidate : SocketSlot) : bool :=
  Nat.eqb (listener_of candidate) listener_handle && negb (accepted candidate).

Definition pending (t : SocketTable) (listener_handle : SocketHandle) : Z :=
  size (List.filter (waiting_on listener_handle) (slots t)).

(** ** Reassembly *)

Definition clear_entries (handle : SocketHandle) (r : Reassembly) : Reassembly :=
  map (fun e => match e with
                | Some (key, _) => if Nat.eqb (key_handle key) handle then None else e
                | None => None
                end) r.

Definition clear_reassembly (t : SocketTable) (handle : SocketHandle) : SocketTable :=
  t <| reassembly ::= clear_entries handle |>.

Definition store_reassembly (t : SocketTable) (handle : SocketHandle) (sequence : Z) (bytes : list Z)
    (fin : bool) : SocketTable * Result.SocketResult :=
  if size bytes >? reassembly_segment_capacity then (t, Result.no_space) else
  let key := mkKey handle sequence in
  if existsb (fun e => match e with Some (k, _) => bool_decide (k = key) | None => false end) (reassembly t)
  then (t, Result.success)
  else match first_slot (fun e => match e with None => true | Some _ => false end) (reassembly t) with
       | None => (t, Result.no_space)
       | Some i => (t <| reassembly ::= <[i := Some (key, mkSegment fin bytes)]> |>, Result.success)
       end.

(** The state the peer's FIN leads to. *)
Definition after_fin (s : State.SocketState) : State.SocketState :=
  match s with
  | State.fin_wait_1 => State.closing
  | State.fin_wait_2 => State.time_wait
  | _ => State.close_wait
  end.

(** [append_received]: the slot and the number of bytes accepted. *)
Definition append_received (value : SocketSlot) (bytes : list Z) (fin : bool) : SocketSlot * Z :=
  let accepted := Z.min (size bytes) (socket_receive_capacity - size (receive_buffer value)) in
  let value := value <| receive_buffer ::= fun b => b ++ take (Z.to_nat accepted) bytes |>
                     <| receive_next ::= fun n => u32 (n + accepted) |> in
  if fin && (accepted =? size bytes) then
    let value := value <| receive_next ::= fun n => u32 (n + 1) |> <| receive_closed := true |> in
    let value := value <| state ::= after_fin |> in
    (value, accepted)
  else (value, accepted).

(** The scan of [drain_reassembly]: the last entry that improves on the
    selected one, among those of [handle] at or before [next]. *)
Definition select_step (handle : SocketHandle) (next : Z)
    (selected : option (nat * Z)) (e : nat * option (ReassemblyKey * ReassemblySegment)) : option (nat * Z) :=
  match e with
  | (_, None) => selected
  | (i, Some (key, _)) =>
      if negb (Nat.eqb (key_handle key) handle) || (i32 (u32 (key_sequence key - next)) >? 0) then selected
      else match selected with
           | None => Some (i, key_sequence key)
           | Some (_, best) =>
               if i32 (u32 (key_sequence key - best)) >? 0 then Some (i, key_sequence key) else selected
           end
  end.

Definition select_entry (handle : SocketHandle) (next : Z) (r : Reassembly) : option nat :=
  fst <$> fold_left (select_step handle next) (imap pair r) None.

(** One iteration of the [for (;;)] of [drain_reassembly]. *)
Inductive DrainStep :=
| drain_stop (value : SocketSlot) (r : Reassembly) (result : Result.SocketResult) (total : Z)
| drain_again (value : SocketSlot) (r : Reassembly) (total : Z).

Definition drain_step (handle : SocketHandle) (value : SocketSlot) (r : Reassembly) (total : Z) : DrainStep :=
  if receive_closed value then drain_stop value (clear_entries handle r) Result.success total else
  match select_entry handle (receive_next value) r with
  | None => drain_stop value r Result.success total
  | Some i =>
      match r !! i with
      | Some (Some (key, queued)) =>
          let acknowledged := u32 (receive_next value - key_sequence key) in
          if (acknowledged >? size (data queued)) ||
             ((acknowledged =? size (data queued)) && negb (finish queued))
          then drain_again value (<[i := None]> r) total else
          let remaining := size (data queued) - acknowledged in
          if remaining >? socket_receive_capacity - size (receive_buffer value)
          then drain_stop value r Result.success total else
          let '(value, appended) :=
            append_received value (drop (Z.to_nat acknowledged) (data queued)) (finish queued) in
          let total := u32 (total + appended) in
          let r := <[i := None]> r in
          if negb (appended =? remaining) then drain_stop value r Result.success total
          else drain_again value r total
      | _ => drain_stop value r Result.success total
      end
  end.

Fixpoint drain_loop (fuel : nat) (handle : SocketHandle) (value : SocketSlot) (r : Reassembly) (total : Z)
    : option (SocketSlot * Reassembly * Result.SocketResult * Z) :=
  match fuel with
  | O => None
  | S fuel =>
      match drain_step handle value r total with
      | drain_stop value r result total => Some (value, r, result, total)
      | drain_again value r total => drain_loop fuel handle value r total
      end
  end.

(** Every iteration but the last frees one of the sixteen entries. *)
Definition drain_fuel := S reassembly_capacity.

Definition drain_reassembly (handle : SocketHandle) (value : SocketSlot) (r : Reassembly)
    : SocketSlot * Reassembly * Result.SocketResult * Z :=
  default (value, r, Result.success, 0) (drain_loop drain_fuel handle value r 0).

(** ** Operations *)

Record OpenResult := mkOpen { open_result : Result.SocketResult; open_handle : SocketHandle }.
Record AcceptResult := mkAccept { accept_result : Result.SocketResult; accept_handle : SocketHandle; accept_peer : Endpoint }.
Record ReadResult := mkRead { read_result : Result.SocketResult; read_size : Z }.
Definition open_failed := mkOpen Result.no_space invalid_socket.

Definition open (t : SocketTable) (type : SocketAbi.Type_) : SocketTable * OpenResult :=
  let handle := allocate t in
  if Nat.eqb handle invalid_socket then (t, open_failed) else
  match slots t !! handle with
  | None => (t, open_failed)
  | Some value =>
      (set_slot t handle
         (value <| slot_type := type |>
                <| state := match type with
                            | SocketAbi.datagram => State.control
                            | SocketAbi.stream => State.created
                            end |>
                <| references := 1 |>),
       mkOpen Result.success handle)
  end.

Definition retain (t : SocketTable) (handle : SocketHandle) : SocketTable * Result.SocketResult :=
  match slot t handle with
  | None => (t, Result.bad_handle)
  | Some value =>
      if references value =? 0xffff then (t, Result.bad_handle)
      else (set_slot t handle (value <| references ::= fun n => u16 (n + 1) |>), Result.success)
  end.

(** One iteration of the loop of [release] over the pending connections. *)
Definition release_pending (handle : SocketHandle) (t : SocketTable) (index : nat) : SocketTable :=
  match slots t !! index with
  | Some candidate =>
      if waiting_on handle candidate
      then set_slot (clear_reassembly t index) index slot_default
      else t
  | None => t
  end.

Definition release (t : SocketTable) (handle : SocketHandle) : SocketTable * Result.SocketResult :=
  match slot t handle with
  | None => (t, Result.bad_handle)
  | Some value =>
      if references value =? 0 then (t, Result.bad_handle) else
      let value := value <| references ::= fun n => u16 (n - 1) |> in
      let t := set_slot t handle value in
      if negb (references value =? 0) then (t, Result.success) else
      let t := if bool_decide (state value = State.listening)
               then fold_left (release_pending handle) (seq 0 socket_capacity) t
               else t in
      (set_slot (clear_reassembly t handle) handle slot_default, Result.success)
  end.

Definition bind (t : SocketTable) (handle : SocketHandle) (l : Endpoint) : SocketTable * Result.SocketResult :=
  match slot t handle with
  | None => (t, Result.bad_handle)
  | Some value =>
      if bool_decide (slot_type value <> SocketAbi.stream) then (t, Result.wrong_type) else
      if bool_decide (state value <> State.created) then (t, Result.invalid_argument) else
      let p := if port l =? 0 then allocate_ephemeral_port t (endpoint_address l) else port l in
      if p =? 0 then (t, Result.no_space) else
      let l := mkEndpoint (endpoint_address l) p in
      if port_conflicts t handle l then (t, Result.address_in_use) else
      (set_slot t handle (value <| local := l |> <| state := State.bound |>), Result.success)
  end.

Definition listen (t : SocketTable) (handle : SocketHandle) (requested : Z) : SocketTable * Result.SocketResult :=
  match slot t handle with
  | None => (t, Result.bad_handle)
  | Some value =>
      if bool_decide (slot_type value <> SocketAbi.stream) then (t, Result.wrong_type) else
      if bool_decide (state value <> State.bound) && bool_decide (state value <> State.listening)
      then (t, Result.not_bound) else
      (set_slot t handle
         (value <| backlog := u8 (Z.min (Z.max requested 1) listen_backlog_capacity) |>
                <| state := State.listening |>), Result.success)
  end.

Definition listener (t : SocketTable) (l : Endpoint) : SocketHandle :=
  handle_of_first (fun value =>
    bool_decide (state value = State.listening) && (port (local value) =? port l) &&
    (unspecified (endpoint_address (local value)) ||
     bool_decide (endpoint_address (local value) = endpoint_address l))) t.

Definition connection (t : SocketTable) (l r : Endpoint) : SocketHandle :=
  handle_of_first (fun value =>
    is_connection (state value) && bool_decide (local value = l) && bool_decide (remote value = r)) t.

Definition begin_connection (t : SocketTable) (listener_handle : SocketHandle) (l r : Endpoint)
    (mac : Ethernet.MacAddress) (remote_sequence local_sequence : Z) : SocketTable * OpenResult :=
  match slot t listener_handle with
  | None => (t, mkOpen Result.not_listening invalid_socket)
  | Some listening =>
      if bool_decide (state listening <> State.listening)
      then (t, mkOpen Result.not_listening invalid_socket) else
      match first_slot (fun candidate =>
              Nat.eqb (listener_of candidate) listener_handle && bool_decide (remote candidate = r) &&
              negb (accepted candidate)) (slots t) with
      | Some index => (t, mkOpen Result.success index)
      | None =>
          if pending t listener_handle >=? backlog listening
          then (t, mkOpen Result.no_space invalid_socket) else
          let handle := allocate t in
          if Nat.eqb handle invalid_socket then (t, open_failed) else
          match slots t !! handle with
          | None => (t, open_failed)
          | Some value =>
              (set_slot t handle
                 (value <| state := State.syn_received |> <| slot_type := SocketAbi.stream |>
                        <| local := l |> <| remote := r |> <| remote_mac := mac |>
                        <| send_next := u32 (local_sequence + 1) |>
                        <| send_unacknowledged := local_sequence |>
                        <| window_sequence := remote_sequence |>
                        <| window_acknowledgement := local_sequence |>
                        <| receive_next := u32 (remote_sequence + 1) |>
                        <| references := 1 |> <| listener_of := listener_handle |>),
               mkOpen Result.success handle)
          end
      end
  end.

Definition establish (t : SocketTable) (handle : SocketHandle) (acknowledgement : Z)
    : SocketTable * Result.SocketResult :=
  match slot t handle with
  | None => (t, Result.bad_handle)
  | Some value =>
      if bool_decide (state value = State.established) || bool_decide (state value = State.close_wait)
      then (t, Result.success) else
      if bool_decide (state value <> State.syn_received) || negb (acknowledgement =? send_next value)
      then (t, Result.invalid_argument) else
      (set_slot t handle
         (value <| state := State.established |> <| send_unacknowledged := acknowledgement |>),
       Result.success)
  end.

(** A connection [accept] may hand out. *)
Definition acceptable (listener_handle : SocketHandle) (candidate : SocketSlot) : bool :=
  Nat.eqb (listener_of candidate) listener_handle && negb (accepted candidate) &&
  (bool_decide (state candidate = State.established) || bool_decide (state candidate = State.close_wait) ||
   bool_decide (state candidate = State.reset)).

Definition accept (t : SocketTable) (listener_handle : SocketHandle) : SocketTable * AcceptResult :=
  match slot t listener_handle with
  | None => (t, mkAccept Result.bad_handle invalid_socket endpoint_zero)
  | Some listening =>
      if bool_decide (state listening <> State.listening)
      then (t, mkAccept Result.not_listening invalid_socket endpoint_zero) else
      match first_slot (acceptable listener_handle) (slots t) with
      | Some handle =>
          match slots t !! handle with
          | Some candidate =>
              (set_slot t handle (candidate <| accepted := true |>),
               mkAccept Result.success handle (remote candidate))
          | None => (t, mkAccept Result.would_block invalid_socket endpoint_zero)
          end
      | None => (t, mkAccept Result.would_block invalid_socket endpoint_zero)
      end
  end.

Definition receive_in_window (t : SocketTable) (handle : SocketHandle) (value : SocketSlot)
    (sequence : Z) (bytes : list Z) (fin : bool) (distance : Z) : SocketTable * ReadResult :=
  let window := u32 (socket_receive_capacity - size (receive_buffer value)) in
  if (u32 distance >=? window) && (negb (size bytes =? 0) || fin) then (t, mkRead Result.success 0) else
  let available := u32 (window - u32 distance) in
  let fin := if size bytes >=? available then false else fin in
  let bytes := take (Z.to_nat (Z.min (size bytes) available)) bytes in
  if distance >? 0 then
    if (size bytes =? 0) && negb fin then (t, mkRead Result.success 0) else
    let '(t, result) := store_reassembly t handle sequence bytes fin in
    (t, mkRead result 0)
  else
    let '(value, immediate) := append_received value bytes fin in
    if negb (immediate =? size bytes) then (set_slot t handle value, mkRead Result.success immediate) else
    let '(value, r, result, drained) := drain_reassembly handle value (reassembly t) in
    (set_slot (t <| reassembly := r |>) handle value, mkRead result (u32 (immediate + drained))).

Definition receive (t : SocketTable) (handle : SocketHandle) (sequence : Z) (bytes : list Z) (fin : bool)
    : SocketTable * ReadResult :=
  match slot t handle with
  | None => (t, mkRead Result.bad_handle 0)
  | Some value =>
      if negb (is_connection (state value)) || bool_decide (state value = State.syn_received) ||
         bool_decide (state value = State.reset)
      then (t, mkRead (if bool_decide (state value = State.reset) then Result.reset
                       else Result.not_connected) 0) else
      if receive_closed value then (t, mkRead Result.success 0) else
      let distance := i32 (u32 (sequence - receive_next value)) in
      if distance <? 0 then
        let acknowledged := u32 (receive_next value - sequence) in
        if (acknowledged >? size bytes) || ((acknowledged =? size bytes) && negb fin)
        then (t, mkRead Result.success 0)
        else receive_in_window t handle value (u32 (sequence + acknowledged))
               (drop (Z.to_nat acknowledged) bytes) fin 0
      else receive_in_window t handle value sequence bytes fin distance
  end.

(** [read] returns the bytes it copies to [output]. *)
Definition read (t : SocketTable) (handle : SocketHandle) (limit : Z) : SocketTable * ReadResult * list Z :=
  match slot t handle with
  | None => (t, mkRead Result.bad_handle 0, [])
  | Some value =>
      if read_closed value then (t, mkRead Result.end_of_file 0, []) else
      if size (receive_buffer value) =? 0 then
        if receive_closed value then (t, mkRead Result.end_of_file 0, []) else
        if bool_decide (state value = State.reset) then (t, mkRead (failure value) 0, []) else
        if negb (is_connection (state value)) || bool_decide (state value = State.syn_received)
        then (t, mkRead Result.not_connected 0, [])
        else (t, mkRead Result.would_block 0, [])
      else
        let count := u32 (Z.min limit (size (receive_buffer value))) in
        let output := take (Z.to_nat count) (receive_buffer value) in
        let value := value <| receive_buffer ::= drop (Z.to_nat count) |> in
        let '(value, r, _, _) := drain_reassembly handle value (reassembly t) in
        (set_slot (t <| reassembly := r |>) handle value, mkRead Result.success count, output)
  end.

Definition reset (t : SocketTable) (handle : SocketHandle) (why : Result.SocketResult) : SocketTable :=
  match slot t handle with
  | None => t
  | Some value =>
      if bool_decide (state value = State.syn_received) then (release t handle).1 else
      set_slot (clear_reassembly t handle) handle
        (value <| receive_buffer := [] |> <| state := State.reset |> <| failure := why |>
               <| receive_closed := false |> <| persist_waiting := false |>)
  end.

Definition readable (t : SocketTable) (handle : SocketHandle) : bool :=
  match slot t handle with
  | None => false
  | Some value =>
      if bool_decide (state value = State.listening) then existsb (acceptable handle) (slots t)
      else negb (size (receive_buffer value) =? 0) || receive_closed value || read_closed value ||
           bool_decide (state value = State.reset)
  end.

Definition writable (t : SocketTable) (handle : SocketHandle) : bool :=
  match slot t handle with
  | None => false
  | Some value =>
      (bool_decide (state value = State.established) || bool_decide (state value = State.close_wait)) &&
      negb (send_closed value)
  end.
End Socket.
