(* ===== verification/SocketStream.v ===== *)
(** * Stream delivery of the socket table

    What [receive], [read] and the reassembly queue of socket.hpp promise to
    an application: whatever the network does to the segments of the peer's
    byte stream, the bytes read are that stream, in order, each once.

    The specification keeps the position [n] up to which the stream has been
    received as an unbounded number; sequence numbers are positions modulo
    2^32 from the first one.  [stream] is the list of all bytes the peer sends
    before its FIN. *)

From S2P Require Import Prelude Ethernet Timing Socket.
Import Socket.
Local Open Scope Z_scope.

Module SocketStream.

(** ** Serial arithmetic and lists *)

Lemma i32_u32 x : - 2 ^ 31 <= x < 2 ^ 31 -> i32 (u32 x) = x.
Proof. intros H. word. Qed.

Lemma serial_distance b p q : u32 (u32 (b + p) - u32 (b + q)) = u32 (p - q).
Proof. autorewrite with wrap. f_equal. lia. Qed.

Lemma slice_drop l p k m : (k <= m)%nat -> drop k (slice l p m) = slice l (p + k) (m - k).
Proof. intros H. unfold slice. by rewrite -> skipn_firstn_comm, drop_drop. Qed.

Lemma take_slice l p k m : take k (slice l p m) = slice l p (Nat.min k m).
Proof. unfold slice. apply take_take. Qed.

Lemma bool_decide_neq {A} `{EqDecision A} (x y : A) : x <> y -> bool_decide (x = y) = false.
Proof. apply bool_decide_eq_false_2. Qed.

(** The number of queued segments. *)
Definition live (r : Reassembly) : nat := length (omap id r).

Lemma live_insert_None r i e : r !! i = Some (Some e) -> live r = S (live (<[i := None]> r)).
Proof.
  intros H. rewrite <- (take_drop_middle r i (Some e) H) at 1.
  rewrite -> (insert_take_drop r i None) by (by eapply lookup_lt_Some).
  unfold live. rewrite -> !omap_app, !length_app. cbn. lia.
Qed.

Lemma live_length r : (live r <= length r)%nat.
Proof. unfold live. induction r as [|[e|] r IH]; cbn in *; lia. Qed.

Section connection.
Context (h : SocketHandle) (base : Z) (stream : list Z).

(** A segment of the stream at position [p]; [fin] only at its end. *)
Definition segment_ok (p : nat) (bytes : list Z) (fin : bool) : Prop :=
  (p + length bytes <= length stream)%nat /\ bytes = slice stream p (length bytes) /\
  (fin = true -> (p + length bytes = length stream)%nat).

(** The slot has received [n] bytes, the last ones still in its buffer. *)
Definition slot_sync (n : nat) (v : SocketSlot) : Prop :=
  (n <= length stream)%nat /\ (length (receive_buffer v) <= n)%nat /\
  size (receive_buffer v) <= socket_receive_capacity /\
  receive_buffer v = slice stream (n - length (receive_buffer v)) (length (receive_buffer v)) /\
  receive_next v = u32 (base + Z.of_nat n + if receive_closed v then 1 else 0) /\
  (receive_closed v = true -> n = length stream) /\ state v <> State.free.

(** The right edge of the receive window. *)
Definition right_edge (n : nat) (v : SocketSlot) : Z :=
  Z.of_nat n + socket_receive_capacity - size (receive_buffer v).

(** Queued segments start after [low] and end at or before the edge. *)
Definition entry_sync (low edge : Z) (e : option (ReassemblyKey * ReassemblySegment)) : Prop :=
  match e with
  | Some (key, queued) => key_handle key = h ->
      exists p, key_sequence key = u32 (base + Z.of_nat p) /\ segment_ok p (data queued) (finish queued) /\
        low < Z.of_nat p /\ Z.of_nat p + size (data queued) <= edge
  | None => True
  end.

Definition in_sync (n : nat) (edge : Z) (v : SocketSlot) (t : SocketTable) : Prop :=
  length (reassembly t) = reassembly_capacity /\ slots t !! h = Some v /\ slot_sync n v /\
  right_edge n v = edge /\ Forall (entry_sync (Z.of_nat n) edge) (reassembly t).

Lemma segment_drop p n bytes fin :
  segment_ok p bytes fin -> (p <= n)%nat -> (n - p <= length bytes)%nat -> segment_ok n (drop (n - p) bytes) fin.
Proof.
  intros (Hp & Hq & Hf) H1 H2. unfold segment_ok. rewrite -> length_drop. split_and!; [lia| |intros Hfin; specialize (Hf Hfin); lia].
  rewrite -> Hq at 1. rewrite -> slice_drop by done. f_equal. lia.
Qed.

(** What an operation on [h] leaves alone: the other slots and their segments. *)
Definition others_kept (t t' : SocketTable) : Prop :=
  length (slots t') = length (slots t) /\
  (forall j, j <> h -> slots t' !! j = slots t !! j) /\
  (forall i key queued, key_handle key <> h ->
    reassembly t !! i = Some (Some (key, queued)) <-> reassembly t' !! i = Some (Some (key, queued))).

Definition entries_kept (r r' : Reassembly) : Prop :=
  forall i key queued, key_handle key <> h ->
    r !! i = Some (Some (key, queued)) <-> r' !! i = Some (Some (key, queued)).

Lemma entries_kept_refl r : entries_kept r r.
Proof. done. Qed.

Lemma entries_kept_trans r1 r2 r3 : entries_kept r1 r2 -> entries_kept r2 r3 -> entries_kept r1 r3.
Proof. intros H1 H2 i k q Hk. etrans; [by apply H1|by apply H2]. Qed.

Lemma entries_kept_clear r : entries_kept r (clear_entries h r).
Proof.
  intros i k q Hk. unfold clear_entries. rw list_lookup_fmap. destruct (r !! i) as [[[k' q']|]|]; simpl; [|tauto..].
  destruct (Nat.eqb_spec (key_handle k') h); split; intros E; simplify_eq; done.
Qed.

Lemma entries_kept_insert r i e e' :
  r !! i = Some e -> (forall k q, e = Some (k, q) -> key_handle k = h) ->
  (forall k q, e' = Some (k, q) -> key_handle k = h) -> entries_kept r (<[i := e']> r).
Proof.
  intros Hi He He' j k q Hk. destruct (decide (i = j)) as [<-|Hne].
  - rewrite -> list_lookup_insert_eq by (by eapply lookup_lt_Some). rw Hi.
    split; intros E; injection E as ->; naive_solver.
  - by rewrite -> list_lookup_insert_ne by done.
Qed.

Lemma clear_entries_sync low edge r : Forall (entry_sync low edge) (clear_entries h r).
Proof.
  unfold clear_entries. apply Forall_map, Forall_forall. intros [[k q]|] _; simpl; [|done].
  destruct (Nat.eqb_spec (key_handle k) h); simpl; done.
Qed.

Lemma clear_entries_length g r : length (clear_entries g r) = length r.
Proof. apply length_map. Qed.

(** ** Appending *)

Lemma append_sync n v bytes fin :
  slot_sync n v -> receive_closed v = false -> segment_ok n bytes fin ->
  Z.of_nat n + size bytes <= right_edge n v ->
  exists v', append_received v bytes fin = (v', size bytes) /\
    slot_sync (n + length bytes) v' /\ right_edge (n + length bytes) v' = right_edge n v /\
    receive_closed v' = fin.
Proof.
  intros (Hn & Hl & Hcap & Hb & Hx & _ & Hst) Hc (Hs & Hs2 & Hf) He. unfold right_edge, size in *.
  unfold append_received.
  assert (Z.min (size bytes) (socket_receive_capacity - size (receive_buffer v)) = size bytes) as ->
    by (unfold size; lia).
  rw Z.eqb_refl andb_true_r. unfold size. rewrite -> Nat2Z.id, firstn_all.
  assert (receive_buffer v ++ bytes =
    slice stream (n + length bytes - length (receive_buffer v ++ bytes)) (length (receive_buffer v ++ bytes))) as Hb'.
  { rewrite -> length_app. rewrite -> slice_split.
    replace (n + length bytes - (length (receive_buffer v) + length bytes))%nat
      with (n - length (receive_buffer v))%nat by lia.
    rewrite <- Hb. f_equal. replace (n - length (receive_buffer v) + length (receive_buffer v))%nat with n by lia. done. }
  destruct fin; eexists; (split; [reflexivity|]); unfold slot_sync, right_edge, size; simpl; rewrite -> length_app in *.
  - rewrite -> Hx, Hc. autorewrite with wrap. clear Hx. split_and!; [lia..|exact Hb'| |by intros _; apply Hf|by destruct (state v)|lia|done].
    rewrite <- Z.add_assoc. autorewrite with wrap. f_equal. lia.
  - rewrite -> Hx, Hc. autorewrite with wrap. clear Hx. split_and!; [lia..|exact Hb'| |done|done|lia|done].
    f_equal. lia.
Qed.

(** ** The scan for a queued segment *)

Definition due (next : Z) (key : ReassemblyKey) : Prop :=
  key_handle key = h /\ i32 (u32 (key_sequence key - next)) <= 0.

Lemma select_step_cases next acc i e :
  select_step h next acc (i, e) = acc \/
  exists key q, e = Some (key, q) /\ due next key /\ select_step h next acc (i, e) = Some (i, key_sequence key).
Proof.
  destruct e as [[key q]|]; cbn [select_step]; [|by left].
  destruct (Nat.eqb_spec (key_handle key) h); cbn [negb orb]; [|by left].
  rw Z.gtb_ltb. destruct (Z.ltb_spec 0 (i32 (u32 (key_sequence key - next)))); [by left|].
  destruct acc as [[j best]|].
  - destruct (_ >? 0); [|by left]. right. by exists key, q.
  - right. by exists key, q.
Qed.

Lemma select_step_due next acc i key q : due next key -> select_step h next acc (i, Some (key, q)) <> None.
Proof.
  intros [Hk Hd]. cbn [select_step]. rw Hk Nat.eqb_refl Z.gtb_ltb. cbn [negb orb].
  destruct (Z.ltb_spec 0 (i32 (u32 (key_sequence key - next)))); [lia|].
  destruct acc as [[j best]|]; [by destruct (_ >? 0)|done].
Qed.

Lemma select_fold next l : forall acc,
  (forall i s, fold_left (select_step h next) l acc = Some (i, s) ->
     acc = Some (i, s) \/ exists key q, In (i, Some (key, q)) l /\ due next key) /\
  (fold_left (select_step h next) l acc = None ->
     acc = None /\ forall i key q, In (i, Some (key, q)) l -> ~ due next key).
Proof.
  induction l as [|[i e] l IH]; intros acc; cbn [fold_left].
  { split; [by intros; left|]. intros ->. done. }
  destruct (IH (select_step h next acc (i, e))) as [IH1 IH2]. split.
  - intros j s H. destruct (IH1 _ _ H) as [E|(key & q & Hin & Hd)].
    + destruct (select_step_cases next acc i e) as [E'|(key & q & -> & Hd & E')]; rw E' in E; [by left|].
      injection E as -> _. right. exists key, q. split; [by left|done].
    + right. exists key, q. split; [by right|done].
  - intros H. destruct (IH2 H) as [E Hn]. split.
    + destruct (select_step_cases next acc i e) as [E'|(key & q & -> & Hd & E')]; by rw E' in E.
    + intros j key q [Hj|Hj] Hd; [|by apply (Hn j key q)]. injection Hj as -> ->.
      by apply (select_step_due next acc j key q).
Qed.

Lemma In_imap_pair (r : Reassembly) i e : In (i, e) (imap pair r) <-> r !! i = Some e.
Proof.
  rewrite <- list_elem_of_In, elem_of_lookup_imap. split.
  - intros (j & y & E & Hy). by injection E as -> ->.
  - intros H. by exists i, e.
Qed.

Lemma select_entry_Some next r i :
  select_entry h next r = Some i -> exists key q, r !! i = Some (Some (key, q)) /\ due next key.
Proof.
  unfold select_entry. rewrite fmap_Some. intros ([j s] & H & ->). apply (select_fold next) in H as [H|H]; [done|].
  destruct H as (key & q & Hin & Hd). exists key, q. split; [by apply In_imap_pair|done].
Qed.

Lemma select_entry_None next r i key q :
  select_entry h next r = None -> r !! i = Some (Some (key, q)) -> ~ due next key.
Proof.
  unfold select_entry. rewrite fmap_None. intros H Hr. apply (select_fold next) in H as [_ H].
  by apply (H i key q), In_imap_pair.
Qed.

(** ** Draining *)

Lemma entry_sync_mono low low' edge e : low' <= low -> entry_sync low edge e -> entry_sync low' edge e.
Proof.
  destruct e as [[key q]|]; [|done]. intros Hl H Hk. destruct (H Hk) as (p & ? & ? & ? & ?).
  exists p. split_and!; [done..|lia|done].
Qed.

Lemma due_position n v key p edge :
  slot_sync n v -> receive_closed v = false -> right_edge n v = edge ->
  key_handle key = h -> key_sequence key = u32 (base + Z.of_nat p) ->
  edge - socket_receive_capacity < Z.of_nat p -> Z.of_nat p <= edge ->
  (due (receive_next v) key <-> (p <= n)%nat) /\ 
  ((p <= n)%nat -> u32 (receive_next v - key_sequence key) = Z.of_nat n - Z.of_nat p).
Proof.
  intros (_ & _ & Hcap & _ & Hx & _) Hc He Hk Hs Hlo Hhi. unfold due. rw Hs Hx Hc.
  unfold right_edge, socket_receive_capacity, size in *. rewrite -> Z.add_0_r, !serial_distance.
  rewrite -> i32_u32 by lia. split; [split; [lia|]|].
  - intros. split; [done|lia].
  - intros. apply wrap_small. unfold in_u. lia.
Qed.

(** One iteration consumes an entry at or before [receive_next], or ends the
    loop with none left: never for want of room. *)
Lemma drain_step_sync n v r total edge :
  in_u 32 total -> slot_sync n v -> right_edge n v = edge ->
  Forall (entry_sync (edge - socket_receive_capacity) edge) r ->
  match drain_step h v r total with
  | drain_stop v' r' result total' =>
      v' = v /\ result = Result.success /\ total' = total /\ entries_kept r r' /\ length r' = length r /\
      Forall (entry_sync (Z.of_nat n) edge) r'
  | drain_again v' r' total' =>
      exists k, slot_sync (n + k) v' /\ right_edge (n + k) v' = edge /\ total' = u32 (total + Z.of_nat k) /\
        entries_kept r r' /\ length r' = length r /\ (live r = S (live r'))%nat /\
        Forall (entry_sync (edge - socket_receive_capacity) edge) r'
  end.
Proof.
  intros Ht Hv He Hr. unfold drain_step. destruct (receive_closed v) eqn:Hc.
  { split_and!; [done..|apply entries_kept_clear|apply clear_entries_length|apply clear_entries_sync]. }
  destruct (select_entry h (receive_next v) r) as [i|] eqn:Hsel; last first.
  { split_and!; [done..|]. apply Forall_lookup. intros i e Hi.
    destruct e as [[key q]|]; [|done]. intros Hk.
    pose proof (proj1 (Forall_lookup _ _) Hr _ _ Hi Hk) as (p & Hs & Hseg & Hlo & Hhi).
    destruct (due_position n v key p edge) as [Hd _]; try done; [unfold size in Hhi; lia|].
    pose proof (select_entry_None _ _ _ _ _ Hsel Hi) as Hn. exists p. split_and!; [done..| |done].
    destruct (decide (p <= n)%nat); [by apply Hd in l|lia]. }
  destruct (select_entry_Some _ _ _ Hsel) as (key & q & Hi & Hd). rw Hi. cbv iota beta.
  pose proof Hd as [Hk _].
  pose proof (proj1 (Forall_lookup _ _) Hr _ _ Hi Hk) as (p & Hs & (Hp & Hq & Hfin) & Hlo & Hhi).
  destruct (due_position n v key p edge) as [Hdp Hack]; try done; [unfold size in Hhi; lia|].
  apply Hdp in Hd. rewrite -> Hack by done.
  assert (entries_kept r (<[i := None]> r)) as Hkept.
  { eapply entries_kept_insert; [exact Hi| |done]. intros k' q' E. by injection E as -> ->. }
  assert (live r = S (live (<[i := None]> r))) as Hlive by (by eapply live_insert_None).
  assert (Forall (entry_sync (edge - socket_receive_capacity) edge) (<[i := None]> r)) as Hr'
    by (by apply Forall_insert).
  rw !Z.gtb_ltb. destruct (_ || _) eqn:Hskip.
  { exists 0%nat. rewrite -> Nat.add_0_r, Z.add_0_r. split_and!; try done; [by rw wrap_small|by apply length_insert]. }
  apply orb_false_iff in Hskip as [Hle%Z.ltb_ge _]. unfold size in Hle, Hhi.
  assert ((socket_receive_capacity - size (receive_buffer v) <? size (data q) - (Z.of_nat n - Z.of_nat p)) = false)
    as -> by (apply Z.ltb_ge; unfold right_edge, size in *; lia).
  destruct (append_sync n v (drop (n - p) (data q)) (finish q)) as (v' & Happ & Hv' & He' & _); [done..| | |].
  { apply segment_drop; [by split_and!|done|lia]. }
  { rewrite -> He. unfold size. rewrite -> length_drop. lia. }
  replace (Z.to_nat (Z.of_nat n - Z.of_nat p)) with (n - p)%nat by lia.
  rewrite -> Happ. cbv iota beta. unfold size. rewrite -> length_drop in *.
  assert ((Z.of_nat (length (data q) - (n - p)) =? Z.of_nat (length (data q)) - (Z.of_nat n - Z.of_nat p)) = true)
    as -> by (apply Z.eqb_eq; lia).
  exists (length (data q) - (n - p))%nat. split_and!; try done; [by rw He' He|by apply length_insert].
Qed.

Lemma drain_loop_sync fuel : forall n v r total edge,
  (live r < fuel)%nat -> in_u 32 total -> slot_sync n v -> right_edge n v = edge ->
  Forall (entry_sync (edge - socket_receive_capacity) edge) r ->
  exists k v' r', drain_loop fuel h v r total = Some (v', r', Result.success, u32 (total + Z.of_nat k)) /\
    slot_sync (n + k) v' /\ right_edge (n + k) v' = edge /\ entries_kept r r' /\ length r' = length r /\
    Forall (entry_sync (Z.of_nat (n + k)) edge) r'.
Proof.
  induction fuel as [|fuel IH]; intros n v r total edge Hl Ht Hv He Hr; [lia|]. cbn [drain_loop].
  pose proof (drain_step_sync n v r total edge Ht Hv He Hr) as H. destruct (drain_step h v r total).
  - destruct H as (-> & -> & -> & ? & ? & ?). exists 0%nat, v, r0.
    rewrite -> Nat.add_0_r, Z.add_0_r. split_and!; try done. by rw wrap_small.
  - destruct H as (k & Hv' & He' & -> & Hkept & Hlen & Hlive & Hr').
    destruct (IH (n + k)%nat value r0 (u32 (total + Z.of_nat k)) edge) as (k' & v' & r' & E & Hv2 & He2 & Hk2 & Hl2 & Hr2);
      [lia|by apply wrap_in_u|done..|].
    exists (k + k')%nat, v', r'. rewrite -> Nat.add_assoc. split_and!; try done.
    + rewrite -> E. autorewrite with wrap. do 3 f_equal. lia.
    + by eapply entries_kept_trans.
    + by rw Hl2.
Qed.

(** With sixteen entries the fuel always suffices. *)
Lemma drain_reassembly_sync n v r edge :
  length r = reassembly_capacity -> slot_sync n v -> right_edge n v = edge ->
  Forall (entry_sync (edge - socket_receive_capacity) edge) r ->
  exists k v' r', drain_reassembly h v r = (v', r', Result.success, u32 (Z.of_nat k)) /\
    slot_sync (n + k) v' /\ right_edge (n + k) v' = edge /\ entries_kept r r' /\ length r' = length r /\
    Forall (entry_sync (Z.of_nat (n + k)) edge) r'.
Proof.
  intros Hl Hv He Hr. pose proof (live_length r).
  destruct (drain_loop_sync drain_fuel n v r 0 edge) as (k & v' & r' & E & H'); [unfold drain_fuel; lia|done..|].
  exists k, v', r'. unfold drain_reassembly. by rw E.
Qed.

(** ** Receiving *)

Lemma store_reassembly_sync n v t sequence bytes fin p edge :
  length (reassembly t) = reassembly_capacity ->
  Forall (entry_sync (Z.of_nat n) edge) (reassembly t) ->
  sequence = u32 (base + Z.of_nat p) -> segment_ok p bytes fin -> (n < p)%nat -> Z.of_nat p + size bytes <= edge ->
  slots t !! h = Some v ->
  let t' := (store_reassembly t h sequence bytes fin).1 in
  slots t' = slots t /\ entries_kept (reassembly t) (reassembly t') /\
  length (reassembly t') = reassembly_capacity /\ Forall (entry_sync (Z.of_nat n) edge) (reassembly t').
Proof.
  intros Hl Hr Hs Hseg Hp He Hv. unfold store_reassembly. destruct (_ >? _); [done|].
  destruct (existsb _ _); [done|]. destruct (first_slot _ _) as [i|] eqn:Hi; [|done].
  apply first_slot_Some in Hi as (e & Hi & Hnone & _). destruct e; [done|].
  simpl. split_and!; [done| |by rw length_insert|].
  - eapply entries_kept_insert; [exact Hi|done|]. intros k q E. by injection E as <- _.
  - apply Forall_insert; [done|]. intros _. exists p. split_and!; [done..|lia|done].
Qed.

Lemma segment_take p bytes fin m :
  segment_ok p bytes fin -> segment_ok p (take m bytes) (if (m <? length bytes)%nat then false else fin).
Proof.
  intros (Hp & Hb & Hf). unfold segment_ok. rewrite -> length_take. split_and!; [lia| |].
  - rewrite -> Hb at 1. by rewrite -> take_slice.
  - destruct (Nat.ltb_spec m (length bytes)); [done|]. rewrite -> Nat.min_r by lia. done.
Qed.

Lemma segment_weaken p bytes fin : segment_ok p bytes fin -> segment_ok p bytes false.
Proof. by intros (? & ? & _). Qed.

(** The part of a segment inside the window. *)
Lemma segment_window p bytes fin edge :
  segment_ok p bytes fin -> Z.of_nat p <= edge ->
  let bytes' := take (Z.to_nat (Z.min (size bytes) (edge - Z.of_nat p))) bytes in
  segment_ok p bytes' (if edge - Z.of_nat p <=? size bytes then false else fin) /\
  Z.of_nat p + size bytes' <= edge.
Proof.
  intros Hseg Hp. split; [|unfold size; rewrite -> length_take; unfold size; lia].
  pose proof (segment_take p bytes fin (Z.to_nat (Z.min (size bytes) (edge - Z.of_nat p))) Hseg) as H.
  unfold size in *. destruct (Z.leb_spec (edge - Z.of_nat p) (Z.of_nat (length bytes))); [by eapply segment_weaken|].
  destruct (Nat.ltb_spec (Z.to_nat (Z.min (Z.of_nat (length bytes)) (edge - Z.of_nat p))) (length bytes)); [lia|done].
Qed.

Lemma in_sync_set n edge v t v' r' m edge' :
  in_sync n edge v t -> slot_sync m v' -> right_edge m v' = edge' ->
  length r' = reassembly_capacity -> Forall (entry_sync (Z.of_nat m) edge') r' ->
  entries_kept (reassembly t) r' ->
  in_sync m edge' v' (set_slot (t <| reassembly := r' |>) h v') /\
  others_kept t (set_slot (t <| reassembly := r' |>) h v').
Proof.
  intros (Hl & Hv & _) Hv' He' Hl' Hr' Hk. unfold in_sync, others_kept, set_slot. simpl.
  rewrite -> list_lookup_insert_eq by (by eapply lookup_lt_Some).
  split; [by split_and!|]. split_and!; [apply length_insert| |exact Hk].
  intros j Hj. by apply list_lookup_insert_ne.
Qed.

Lemma drain_closed v r : receive_closed v = true -> (drain_reassembly h v r).1.1.1 = v.
Proof. intros Hc. unfold drain_reassembly, drain_fuel. cbn [drain_loop]. unfold drain_step. by rw Hc. Qed.

Lemma receive_in_window_sync n edge v t p bytes fin :
  in_sync n edge v t -> receive_closed v = false -> segment_ok p bytes fin ->
  (n <= p)%nat -> Z.of_nat p - Z.of_nat n < 2 ^ 31 ->
  let '(t', res) := receive_in_window t h v (u32 (base + Z.of_nat p)) bytes fin (Z.of_nat p - Z.of_nat n) in
  exists k v', in_sync (n + k) edge v' t' /\ others_kept t t' /\ read_size res = Z.of_nat k /\
    (p = n -> Z.min (Z.of_nat p + size bytes) edge <= Z.of_nat (n + k)) /\
    (p = n -> fin = true -> Z.of_nat p + size bytes < edge -> receive_closed v' = true).
Proof.
  intros Hsync Hc Hseg Hnp Hd. pose proof Hsync as (Hl & Hv & Hs & He & Hr).
  unfold receive_in_window. pose proof Hs as (_ & _ & Hcap & _).
  assert (0 <= size (receive_buffer v)) as Hpos by (unfold size; lia).
  assert (u32 (socket_receive_capacity - size (receive_buffer v)) = edge - Z.of_nat n) as ->.
  { rewrite -> wrap_small by (unfold in_u, socket_receive_capacity in *; lia). unfold right_edge in He. lia. }
  rewrite -> (wrap_small 32 (Z.of_nat p - Z.of_nat n)) by (unfold in_u; lia).
  assert (Z.of_nat n <= edge <= Z.of_nat n + socket_receive_capacity) as Hedge by (unfold right_edge in He; lia).
  assert (forall st, (p = n -> Z.min (Z.of_nat p + size bytes) edge <= Z.of_nat n) ->
    (p = n -> fin = true -> edge <= Z.of_nat p + size bytes) ->
    exists k v', in_sync (n + k) edge v' t /\ others_kept t t /\ read_size (mkRead st 0) = Z.of_nat k /\
      (p = n -> Z.min (Z.of_nat p + size bytes) edge <= Z.of_nat (n + k)) /\
      (p = n -> fin = true -> Z.of_nat p + size bytes < edge -> receive_closed v' = true)) as Hsame.
  { intros st Hp Hf. exists 0%nat, v. rewrite -> Nat.add_0_r. split_and!; [done..|]. intros H1 H2. specialize (Hf H1 H2). lia. }
  destruct (_ && _) eqn:Hout.
  { apply andb_true_iff in Hout as [Hout _]. rw Z.geb_leb in Hout. apply Z.leb_le in Hout.
    apply Hsame; unfold size; lia. }
  rw Z.geb_leb Z.gtb_ltb in Hout |- *. destruct (decide (Z.of_nat p <= edge)) as [Hpe|Hpe]; last first.
  { (* beyond the window: an empty segment *)
    apply andb_false_iff in Hout as [Hout|Hout]; [apply Z.leb_gt in Hout; lia|].
    apply orb_false_iff in Hout as [Hz ->]. apply negb_false_iff, Z.eqb_eq in Hz.
    destruct bytes; [|done]. rewrite -> firstn_nil. rewrite -> (proj2 (Z.ltb_lt 0 (Z.of_nat p - Z.of_nat n))) by lia.
    destruct (_ >=? _); apply Hsame; first [done|lia]. }
  rewrite -> (wrap_small 32 (edge - _ - _)) by (unfold in_u, socket_receive_capacity in *; lia).
  replace (edge - Z.of_nat n - (Z.of_nat p - Z.of_nat n)) with (edge - Z.of_nat p) by lia.
  rw !Z.geb_leb. destruct (segment_window p bytes fin edge Hseg Hpe) as [Hseg' Hlen].
  assert (forall k, size (take (Z.to_nat (Z.min (size bytes) (edge - Z.of_nat p))) bytes) <= Z.of_nat k -> 
    p = n -> Z.min (Z.of_nat p + size bytes) edge <= Z.of_nat (n + k)) as Hprog.
  { unfold size. intros k Hk ->. rewrite -> length_take in Hk. unfold size in Hk. lia. }
  assert (Z.of_nat p + size bytes < edge -> (if edge - Z.of_nat p <=? size bytes then false else fin) = fin) as Hkeep.
  { intros. by rewrite -> (proj2 (Z.leb_gt _ _)) by lia. }
  set (bytes' := take _ bytes) in *. set (fin' := if _ <=? _ then false else fin) in *. clearbody bytes' fin'.
  destruct (Z.ltb_spec 0 (Z.of_nat p - Z.of_nat n)).
  - (* ahead of the stream: queued *)
    destruct ((size bytes' =? 0) && negb fin'); [by apply Hsame; intros; lia|].
    destruct (store_reassembly_sync n v t (u32 (base + Z.of_nat p)) bytes' fin' p edge) as (Hst & Hk & Hl2 & Hr2);
      [done..|lia|lia|done|].
    destruct (store_reassembly t h (u32 (base + Z.of_nat p)) bytes' fin') as [t' result]. cbn [fst] in *.
    exists 0%nat, v. rewrite -> Nat.add_0_r. split_and!; [|split_and!; [by rw Hst|by intros; rw Hst|done]|done|lia|lia].
    split_and!; try done. by rw Hst.
  - (* the next bytes of the stream *)
    assert (p = n) as -> by lia.
    destruct (append_sync n v bytes' fin') as (v1 & -> & Hv1 & He1 & Hc1); [done..|lia|]. rw Z.eqb_refl.
    cbn [negb]. cbv iota.
    pose proof (drain_closed v1 (reassembly t)) as Hdc.
    destruct (drain_reassembly_sync (n + length bytes') v1 (reassembly t) edge)
      as (k & v2 & r2 & Edr & Hv2 & He2 & Hk2 & Hl2 & Hr2); [done|done|by rw He1| |].
    { eapply Forall_impl; [exact Hr|]. intros e. apply entry_sync_mono. lia. }
    rewrite -> Edr in Hdc |- *. exists (length bytes' + k)%nat, v2. rewrite -> Nat.add_assoc.
    destruct (in_sync_set n edge v t v2 r2 (n + length bytes' + k) edge) as [Hs2 Ho2]; try done; [by rw Hl2|].
    split_and!; [done..| | |].
    + cbn [read_size]. pose proof Hv2 as (_ & _ & Hcap2 & _). autorewrite with wrap. unfold size.
      rewrite -> wrap_small; [lia|]. unfold right_edge, in_u, size, socket_receive_capacity in *. lia.
    + rewrite <- Nat.add_assoc. apply Hprog. unfold size. lia.
    + intros _ Hf Hlt. rewrite -> Hkeep, Hf in Hc1 by done. specialize (Hdc Hc1). cbn in Hdc. by subst v2.
Qed.

Definition receiving (v : SocketSlot) : bool :=
  is_connection (state v) && negb (bool_decide (state v = State.syn_received)) &&
  negb (bool_decide (state v = State.reset)).

Lemma others_kept_trans t1 t2 t3 : others_kept t1 t2 -> others_kept t2 t3 -> others_kept t1 t3.
Proof.
  intros (? & H1 & K1) (? & H2 & K2). split_and!; [congruence| |].
  - intros j Hj. by rw H2 // H1.
  - intros i k q Hk. etrans; [by apply K1|by apply K2].
Qed.

Lemma slot_sync_position n v p :
  slot_sync n v -> receive_closed v = false -> - 2 ^ 31 <= Z.of_nat p - Z.of_nat n < 2 ^ 31 ->
  i32 (u32 (u32 (base + Z.of_nat p) - receive_next v)) = Z.of_nat p - Z.of_nat n /\
  u32 (receive_next v - u32 (base + Z.of_nat p)) = u32 (Z.of_nat n - Z.of_nat p).
Proof.
  intros (_ & _ & _ & _ & Hx & _) Hc Hd. rewrite -> Hx, Hc, Z.add_0_r, !serial_distance. split; [|done].
  by apply i32_u32.
Qed.

Lemma receive_sync n edge v t p bytes fin :
  in_sync n edge v t -> segment_ok p bytes fin ->
  - 2 ^ 31 <= Z.of_nat p - Z.of_nat n < 2 ^ 31 ->
  let '(t', res) := receive t h (u32 (base + Z.of_nat p)) bytes fin in
  exists k v', in_sync (n + k) edge v' t' /\ others_kept t t' /\ read_size res = Z.of_nat k /\
    (receiving v = true -> receive_closed v = false -> (p <= n)%nat ->
     Z.min (Z.of_nat p + size bytes) edge <= Z.of_nat (n + k) /\
     (fin = true -> Z.of_nat p + size bytes < edge -> receive_closed v' = true)).
Proof.
  intros Hsync Hseg Hd. pose proof Hsync as (_ & Hv & Hs & _).
  assert (state v <> State.free) as Hfree by apply Hs. unfold receive, slot. rw Hv.
  rw bool_decide_eq_true_2 //.
  assert (forall st, (receiving v = true -> receive_closed v = false -> (p <= n)%nat ->
      Z.min (Z.of_nat p + size bytes) edge <= Z.of_nat n /\ fin = false \/ (p + length bytes < n)%nat) ->
    exists k v', in_sync (n + k) edge v' t /\ others_kept t t /\ read_size (mkRead st 0) = Z.of_nat k /\
      (receiving v = true -> receive_closed v = false -> (p <= n)%nat ->
       Z.min (Z.of_nat p + size bytes) edge <= Z.of_nat (n + k) /\
       (fin = true -> Z.of_nat p + size bytes < edge -> receive_closed v' = true))) as Hsame.
  { intros st Hp. exists 0%nat, v. rewrite -> Nat.add_0_r. split_and!; [done..|]. intros H1 H2 H3.
    destruct (Hp H1 H2 H3) as [[? ->]|H]; [done|]. unfold size. split; [lia|]. intros -> .
    destruct Hseg as (_ & _ & Hf). specialize (Hf eq_refl). destruct Hs. lia. }
  destruct (negb (is_connection (state v)) || _ || _) eqn:Hst.
  { apply Hsame. unfold receiving. intros Hr. exfalso. revert Hst Hr.
    destruct (is_connection (state v)), (bool_decide _), (bool_decide _); done. }
  clear Hst. destruct (receive_closed v) eqn:Hc; [by apply Hsame|].
  destruct (slot_sync_position n v p Hs Hc Hd) as [-> ->].
  destruct (Z.ltb_spec (Z.of_nat p - Z.of_nat n) 0) as [Hlt|Hge].
  - rewrite -> wrap_small by (unfold in_u; lia). destruct (_ || _) eqn:Hskip.
    { apply Hsame. intros _ _ _. unfold size in *. rw Z.gtb_ltb in Hskip.
      apply orb_true_iff in Hskip as [H%Z.ltb_lt|[H%Z.eqb_eq Hf%negb_true_iff]%andb_true_iff]; [right; lia|left].
      split; [lia|done]. }
    apply orb_false_iff in Hskip as [Hle _]. rw Z.gtb_ltb in Hle. apply Z.ltb_ge in Hle. unfold size in Hle.
    replace (Z.to_nat (Z.of_nat n - Z.of_nat p)) with (n - p)%nat by lia. autorewrite with wrap.
    replace (base + Z.of_nat p + (Z.of_nat n - Z.of_nat p)) with (base + Z.of_nat n) by lia.
    replace 0 with (Z.of_nat n - Z.of_nat n) by lia.
    pose proof (receive_in_window_sync n edge v t n (drop (n - p) bytes) fin Hsync Hc) as H.
    specialize (H ltac:(apply segment_drop; [done|lia..]) ltac:(lia) ltac:(lia)).
    destruct (receive_in_window _ _ _ _ _ _ _) as [t' res]. destruct H as (k & v' & ? & ? & ? & Hp & Hf).
    exists k, v'. split_and!; [done..|]. intros _ _ _. unfold size in *. rewrite -> length_drop in *.
    split; [specialize (Hp eq_refl); lia|]. intros Hfi Hin. apply Hf; [done..|lia].
  - pose proof (receive_in_window_sync n edge v t p bytes fin Hsync Hc Hseg ltac:(lia) ltac:(lia)) as H.
    destruct (receive_in_window _ _ _ _ _ _ _) as [t' res]. destruct H as (k & v' & ? & ? & ? & Hp & Hf).
    exists k, v'. split_and!; [done..|]. intros _ _ Hpn. assert (p = n) as E by lia. split; [by apply Hp|by apply Hf].
Qed.

(** With every queued segment ahead of the stream, [drain_reassembly] finds nothing. *)
Lemma drain_idle n v r edge :
  slot_sync n v -> right_edge n v = edge -> Forall (entry_sync (Z.of_nat n) edge) r ->
  exists r', drain_reassembly h v r = (v, r', Result.success, 0) /\ entries_kept r r' /\
    length r' = length r /\ Forall (entry_sync (Z.of_nat n) edge) r'.
Proof.
  intros Hv He Hr. unfold drain_reassembly, drain_fuel. cbn [drain_loop]. unfold drain_step.
  destruct (receive_closed v) eqn:Hc.
  { exists (clear_entries h r). split_and!; [done|apply entries_kept_clear|apply clear_entries_length|apply clear_entries_sync]. }
  destruct (select_entry h (receive_next v) r) as [i|] eqn:Hsel; [|by exists r].
  destruct (select_entry_Some _ _ _ Hsel) as (key & q & Hi & Hd). pose proof Hd as [Hk _]. exfalso.
  pose proof (proj1 (Forall_lookup _ _) Hr _ _ Hi Hk) as (p & Hs & Hseg & Hlo & Hhi). pose proof Hv as (_ & _ & Hcap & _).
  destruct (due_position n v key p edge) as [Hdp _]; try done;
    [unfold right_edge, size in *; lia|unfold size in Hhi; lia|]. apply Hdp in Hd. lia.
Qed.

Lemma slot_sync_drop n v c :
  slot_sync n v -> (c <= length (receive_buffer v))%nat ->
  slot_sync n (v <| receive_buffer ::= drop c |>) /\
  right_edge n (v <| receive_buffer ::= drop c |>) = right_edge n v + Z.of_nat c.
Proof.
  intros (Hn & Hl & Hcap & Hb & Hx & Hf) Hc. unfold slot_sync, right_edge, size in *. simpl. rewrite -> length_drop.
  split_and!; try done; try lia; try apply Hf.
  rewrite -> Hb at 1. rewrite -> slice_drop by lia. f_equal; lia.
Qed.

(** [read] hands out the oldest unread bytes of the stream, as many as the
    caller asked for and the buffer holds, moves the window's edge by their
    number, loses no queued segment and touches no other socket. *)
Lemma read_sync n edge v t limit :
  in_sync n edge v t -> in_u 32 limit -> 
  let '(t', res, output) := read t h limit in
  exists v', in_sync n (edge + size output) v' t' /\ others_kept t t' /\
    output = slice stream (n - length (receive_buffer v)) (length output) /\
    receive_buffer v' = drop (length output) (receive_buffer v) /\ read_size res = size output /\
    (read_closed v = false -> size output = Z.min limit (size (receive_buffer v))).
Proof.
  intros Hsync Hlim. pose proof Hsync as (Hl & Hv & Hs & He & Hr).
  assert (state v <> State.free) as Hfree by apply Hs.
  assert (forall st, (read_closed v = false -> size (receive_buffer v) = 0) ->
    exists v', in_sync n (edge + size (@nil Z)) v' t /\ others_kept t t /\
      [] = slice stream (n - length (receive_buffer v)) (length (@nil Z)) /\
      receive_buffer v' = drop (length (@nil Z)) (receive_buffer v) /\ read_size (mkRead st 0) = size (@nil Z) /\
      (read_closed v = false -> size (@nil Z) = Z.min limit (size (receive_buffer v)))) as Hsame.
  { intros st H0. exists v. change (size (@nil Z)) with 0. rewrite -> Z.add_0_r, drop_0. split_and!; try done.
    intros Hc. rw (H0 Hc). unfold in_u in Hlim. lia. }
  unfold read, slot. rw Hv. rw bool_decide_eq_true_2 //.
  destruct (read_closed v) eqn:Hrc; [by apply Hsame|].
  destruct (Z.eqb_spec (size (receive_buffer v)) 0) as [H0|H0].
  { destruct (receive_closed v); [by apply Hsame|]. destruct (bool_decide _); [by apply Hsame|].
    destruct (_ || _); by apply Hsame. }
  pose proof Hs as (_ & Hbn & Hcap & Hb & _).
  assert (u32 (Z.min limit (size (receive_buffer v))) = Z.min limit (size (receive_buffer v))) as ->.
  { apply wrap_small. unfold in_u, size in *. lia. }
  set (c := Z.to_nat (Z.min limit (size (receive_buffer v)))).
  assert (c <= length (receive_buffer v))%nat as Hc by (unfold c, size in *; lia).
  assert (Z.min limit (size (receive_buffer v)) = Z.of_nat c) as Hcz by (unfold c, size, in_u in *; lia).
  rewrite -> Hcz. clearbody c.
  destruct (slot_sync_drop n v c Hs Hc) as [Hs' He']. cbv zeta.
  set (v1 := v <| receive_buffer ::= drop c |>) in *.
  assert (Forall (entry_sync (Z.of_nat n) (edge + Z.of_nat c)) (reassembly t)) as Hr1.
  { eapply Forall_impl; [exact Hr|]. intros [[key q]|]; [|done]. intros H Hk. destruct (H Hk) as (p & ? & ? & ? & ?).
    exists p. split_and!; [done..|lia]. }
  destruct (drain_idle n v1 (reassembly t) (edge + Z.of_nat c)) as (r' & -> & Hk' & Hl' & Hr'); [done|lia|done|].
  assert (size (take c (receive_buffer v)) = Z.of_nat c) as Hsz by (unfold size; rewrite -> length_take; lia).
  assert (length (take c (receive_buffer v)) = c) as Hln by (rewrite -> length_take; lia).
  rewrite -> Hsz, Hln. exists v1.
  destruct (in_sync_set n edge v t v1 r' n (edge + Z.of_nat c)) as [Hs1 Ho1]; [done|done|lia|by rw Hl'|done|done|].
  split_and!; try done. rewrite -> Hb at 1. rewrite -> take_slice. f_equal. lia.
Qed.

(** ** Whole sessions *)

(** What happens to a connection: a segment of the peer's stream arrives, or
    the application reads. *)
Inductive Event :=
| arrival (position : nat) (bytes : list Z) (fin : bool)
| application_read (limit : Z).

Definition event_ok (e : Event) : Prop :=
  match e with
  | arrival p bytes fin => segment_ok p bytes fin
  | application_read limit => in_u 32 limit
  end.

Definition run_event (t : SocketTable) (e : Event) : SocketTable * list Z :=
  match e with
  | arrival p bytes fin => ((receive t h (u32 (base + Z.of_nat p)) bytes fin).1, [])
  | application_read limit => let '(t, _, output) := read t h limit in (t, output)
  end.

Fixpoint run_session (t : SocketTable) (events : list Event) : SocketTable * list Z :=
  match events with
  | [] => (t, [])
  | e :: events =>
      let '(t, output) := run_event t e in
      let '(t, outputs) := run_session t events in (t, output ++ outputs)
  end.

Lemma run_event_sync n edge v t e :
  Z.of_nat (length stream) < 2 ^ 31 -> event_ok e -> in_sync n edge v t ->
  let '(t', output) := run_event t e in
  exists n' v', in_sync n' (edge + size output) v' t' /\ others_kept t t' /\
    output = slice stream (Z.to_nat (edge - socket_receive_capacity)) (length output).
Proof.
  intros Hlen He Hsync. pose proof Hsync as (_ & _ & Hs & Hedge & _). destruct e as [p bytes fin|limit]; simpl in He |- *.
  - pose proof (receive_sync n edge v t p bytes fin Hsync He) as H. destruct (receive _ _ _ _ _) as [t' res].
    destruct H as (k & v' & ? & ? & _); [destruct Hs, He; lia|].
    exists (n + k)%nat, v'. unfold size. cbn. rewrite -> Z.add_0_r. by split_and!.
  - pose proof (read_sync n edge v t limit Hsync He) as H. destruct (read _ _ _) as [[t' res] output].
    destruct H as (v' & ? & ? & Ho & _). exists n, v'. split_and!; [done..|]. rewrite -> Ho at 1. f_equal.
    unfold right_edge, size in Hedge. destruct Hs as (_ & ? & _). lia.
Qed.

(** C1: End to end, for any base sequence number: however the network delays,
    reorders, duplicates, cuts or repeats the peer's segments between the
    application's reads, the concatenation of everything read is exactly the
    first bytes of the peer's stream, in order and each once; the other sockets
    are as before. *)
Theorem stream_session n edge v t events :
  Z.of_nat (length stream) < 2 ^ 31 -> Forall event_ok events -> in_sync n edge v t ->
  let '(t', output) := run_session t events in
  exists n' v', in_sync n' (edge + size output) v' t' /\ others_kept t t' /\
    output = slice stream (Z.to_nat (edge - socket_receive_capacity)) (length output).
Proof.
  intros Hlen. revert n edge v t. induction events as [|e events IH]; intros n edge v t He Hsync; cbn [run_session].
  { exists n, v. unfold size. cbn. rewrite -> Z.add_0_r. by split_and!. }
  apply Forall_cons in He as [He Hev]. pose proof (run_event_sync n edge v t e Hlen He Hsync) as H.
  destruct (run_event t e) as [t1 out]. destruct H as (n1 & v1 & Hs1 & Ho1 & E1).
  pose proof (IH n1 _ v1 t1 Hev Hs1) as H2. destruct (run_session t1 events) as [t2 outs].
  destruct H2 as (n2 & v2 & Hs2 & Ho2 & E2). exists n2, v2. unfold size in *. rewrite -> length_app.
  split_and!.
  - rewrite -> Nat2Z.inj_add, Z.add_assoc. done.
  - by eapply others_kept_trans.
  - rewrite -> slice_split. rewrite <- E1. f_equal. rewrite -> E2 at 1. f_equal.
    destruct Hsync as (_ & _ & (_ & ? & _) & Hedge & _). unfold right_edge, size in Hedge. lia.
Qed.

(** Whatever segment of the peer's byte stream arrives for a connection, in
    any order, duplicated, overlapping or beyond the window, [receive] keeps the
    slot in step with the stream: it advances by exactly the [k] bytes it
    reports, which become readable in stream order, keeps the right edge of the
    window, and touches no other socket.  A segment that starts at or before the
    expected byte is taken up to the window's edge, and its FIN is honoured when
    it lies inside the window. *)
Theorem stream_receive n edge v t p bytes fin :
  in_sync n edge v t -> segment_ok p bytes fin ->
  - 2 ^ 31 <= Z.of_nat p - Z.of_nat n < 2 ^ 31 ->
  let '(t', res) := receive t h (u32 (base + Z.of_nat p)) bytes fin in
  exists k v', in_sync (n + k) edge v' t' /\ others_kept t t' /\ read_size res = Z.of_nat k /\
    (receiving v = true -> receive_closed v = false -> (p <= n)%nat ->
     Z.min (Z.of_nat p + size bytes) edge <= Z.of_nat (n + k) /\
     (fin = true -> Z.of_nat p + size bytes < edge -> receive_closed v' = true)).
Proof. apply receive_sync. Qed.
End connection.

(** A connection in slot 1 whose sequence numbers wrap after three bytes. *)
Definition example_slot : SocketSlot :=
  slot_default <| state := State.established |> <| receive_next := 2 ^ 32 - 3 |> <| references := 1 |>.
Definition example_table : SocketTable := set_slot initial 1%nat example_slot.
Definition example_stream : list Z := [104; 101; 108; 108; 111; 33; 33; 10].
(** The middle first, a duplicate prefix that overlaps it, the tail with the
    FIN twice, and reads in between. *)
Definition example_events : list Event :=
  [arrival 3 [108; 111; 33] false; application_read 100; arrival 0 [104; 101; 108; 108] false;
   application_read 2; arrival 5 [33; 33; 10] true; arrival 0 [104; 101] false;
   arrival 5 [33; 33; 10] true; application_read 100; application_read 100].

Lemma example_in_sync : in_sync 1%nat (2 ^ 32 - 3) example_stream 0%nat 4096 example_slot example_table.
Proof.
  unfold in_sync. split_and!; [reflexivity|reflexivity| |reflexivity|].
  - unfold slot_sync. cbn [receive_buffer example_slot]. split_and!; try done; cbn; lia.
  - apply Forall_replicate. exact I.
Defined.

Lemma example_events_ok : Forall (event_ok example_stream) example_events.
Proof.
  unfold example_events, event_ok, segment_ok.
  repeat (apply Forall_cons; split; [first [split_and!; cbn; first [reflexivity|done|lia] | by vm_compute]|]). apply Forall_nil. done.
Defined.

Lemma stream_session_witness :
  let '(t, output) := run_session 1%nat (2 ^ 32 - 3) example_table example_events in
  output = slice example_stream 0%nat (length output) /\ length output = 8%nat.
Proof.
  pose proof (stream_session 1%nat (2 ^ 32 - 3) example_stream 0%nat 4096 example_slot example_table example_events
    ltac:(vm_compute; reflexivity) example_events_ok example_in_sync) as H.
  assert (length (run_session 1%nat (2 ^ 32 - 3) example_table example_events).2 = 8%nat) as E by (vm_compute; reflexivity).
  destruct (run_session _ _ _ _) as [t output]. destruct H as (n & v & _ & _ & H). split; [exact H|exact E].
Defined.

Lemma stream_receive_witness :
  let '(t, res) := receive example_table 1%nat (u32 (2 ^ 32 - 3 + Z.of_nat 0)) [104; 101] false in
  exists k v, read_size res = Z.of_nat k /\ in_sync 1%nat (2 ^ 32 - 3) example_stream (0 + k)%nat 4096 v t /\ 2 <= Z.of_nat k.
Proof.
  pose proof (stream_receive 1%nat (2 ^ 32 - 3) example_stream 0%nat 4096 example_slot example_table 0%nat [104; 101] false
    example_in_sync ltac:(unfold segment_ok; split_and!; cbn; first [reflexivity|done|lia]) ltac:(lia)) as H.
  destruct (receive _ _ _ _ _) as [t res]. destruct H as (k & v & H1 & _ & H2 & H3).
  exists k, v. split_and!; [exact H2|exact H1|]. apply (H3 eq_refl eq_refl ltac:(lia)).
Defined.
End SocketStream.
