(* ===== verification/SocketInvariant.v ===== *)
(** * The socket table's invariant, ports and backlog

    Every operation of [SocketTable] keeps the table consistent: free slots are
    reset ones, bound ports are exclusive, pending connections belong to a
    listening socket and respect the backlog, and queued segments belong to a
    live connection. *)

From S2P Require Import Prelude Ethernet Timing Socket SocketStream.
Import Socket.
Local Open Scope Z_scope.

Module SocketInvariant.

(** Sockets that own a port exclusively. *)
Definition holds_port (v : SocketSlot) : bool :=
  bool_decide (state v = State.bound) || bool_decide (state v = State.listening).

Definition same_port (a b : Endpoint) : bool :=
  (port a =? port b) && address_conflicts (endpoint_address a) (endpoint_address b).

Record slot_ok (v : SocketSlot) : Prop := {
  ok_free : state v = State.free -> v = slot_default;
  ok_references : state v <> State.free -> 1 <= references v <= 0xffff;
  ok_buffer : size (receive_buffer v) <= socket_receive_capacity;
  ok_connection : is_connection (state v) = true <-> listener_of v <> invalid_socket;
  ok_data : is_connection (state v) = false -> receive_buffer v = [];
  ok_type : state v <> State.free -> state v <> State.control -> slot_type v = SocketAbi.stream;
  ok_port : holds_port v = true -> port (local v) <> 0;
  ok_backlog : state v = State.listening -> 1 <= backlog v <= listen_backlog_capacity;
}.

(** A connection that has not been accepted yet. *)
Definition waiting (v : SocketSlot) : Prop := listener_of v <> invalid_socket /\ accepted v = false.

Record table_ok (t : SocketTable) : Prop := {
  ok_slots : length (slots t) = socket_capacity;
  ok_reassembly : length (reassembly t) = reassembly_capacity;
  ok_slot : forall i v, slots t !! i = Some v -> slot_ok v;
  ok_waiting : forall i v, slots t !! i = Some v -> waiting v ->
    exists l, slots t !! listener_of v = Some l /\ state l = State.listening;
  ok_pending : forall h, (h < socket_capacity)%nat -> pending t h <= listen_backlog_capacity;
  ok_ports : forall i j v w, i <> j -> slots t !! i = Some v -> slots t !! j = Some w ->
    holds_port v = true -> holds_port w = true -> same_port (local v) (local w) = false;
  ok_entries : forall i k q, reassembly t !! i = Some (Some (k, q)) ->
    size (data q) <= reassembly_segment_capacity /\
    exists v, slots t !! key_handle k = Some v /\ is_connection (state v) = true;
  ok_keys : forall i j k q q', reassembly t !! i = Some (Some (k, q)) ->
    reassembly t !! j = Some (Some (k, q')) -> i = j;
}.

(** ** The operations as events *)

Inductive Op :=
| op_open (type : SocketAbi.Type_)
| op_retain (h : SocketHandle)
| op_release (h : SocketHandle)
| op_bind (h : SocketHandle) (l : Endpoint)
| op_listen (h : SocketHandle) (backlog : Z)
| op_begin (h : SocketHandle) (l r : Endpoint) (mac : Ethernet.MacAddress) (remote_sequence local_sequence : Z)
| op_establish (h : SocketHandle) (acknowledgement : Z)
| op_accept (h : SocketHandle)
| op_receive (h : SocketHandle) (sequence : Z) (bytes : list Z) (fin : bool)
| op_read (h : SocketHandle) (limit : Z)
| op_reset (h : SocketHandle) (why : Result.SocketResult).

Definition apply_op (t : SocketTable) (o : Op) : SocketTable :=
  match o with
  | op_open type => (open t type).1
  | op_retain h => (retain t h).1
  | op_release h => (release t h).1
  | op_bind h l => (bind t h l).1
  | op_listen h n => (listen t h n).1
  | op_begin h l r mac rs ls => (begin_connection t h l r mac rs ls).1
  | op_establish h ack => (establish t h ack).1
  | op_accept h => (accept t h).1
  | op_receive h sequence bytes fin => (receive t h sequence bytes fin).1
  | op_read h limit => (read t h limit).1.1
  | op_reset h why => reset t h why
  end.

(** The stack resets connections only. *)
Definition op_ok (t : SocketTable) (o : Op) : Prop :=
  match o with
  | op_reset h _ => forall v, slot t h = Some v -> is_connection (state v) = true
  | _ => True
  end.

(** ** Lemmas *)

Lemma slot_Some t h v : slot t h = Some v <-> slots t !! h = Some v /\ state v <> State.free.
Proof.
  unfold slot. destruct (slots t !! h) as [w|]; [|naive_solver].
  destruct (decide (state w = State.free)) as [Hw|Hw];
    [rewrite -> bool_decide_eq_false_2 by tauto|rewrite -> bool_decide_eq_true_2 by done]; split; intros H.
  - done.
  - destruct H as [E ?]. by injection E as ->.
  - by injection H as ->.
  - by destruct H as [E _].
Qed.

Lemma handle_of_first_spec p t : length (slots t) = socket_capacity ->
  (exists v, slots t !! handle_of_first p t = Some v /\ p v = true) \/
  (handle_of_first p t = invalid_socket /\ forall i v, slots t !! i = Some v -> p v = false).
Proof.
  intros Hl. unfold handle_of_first. destruct (first_slot p (slots t)) as [i|] eqn:E; simpl.
  - left. apply first_slot_Some in E as (v & ? & ? & _). by exists v.
  - right. split; [done|]. by apply first_slot_None.
Qed.

Lemma allocate_spec t : length (slots t) = socket_capacity ->
  (exists v, slots t !! allocate t = Some v /\ state v = State.free) \/
  (allocate t = invalid_socket /\ forall i v, slots t !! i = Some v -> state v <> State.free).
Proof.
  intros Hl. unfold allocate.
  destruct (handle_of_first_spec (fun v => bool_decide (state v = State.free)) t Hl) as [(v & ? & H)|[? H]].
  - left. exists v. split; [done|]. by apply bool_decide_eq_true in H.
  - right. split; [done|]. intros i v Hv. by eapply bool_decide_eq_false, H.
Qed.

Lemma lookup_handle_lt t h v : length (slots t) = socket_capacity -> slots t !! h = Some v -> (h < socket_capacity)%nat.
Proof. intros <-. apply lookup_lt_Some. Qed.

Lemma valid_not_invalid h : (h < socket_capacity)%nat -> h <> invalid_socket.
Proof. unfold socket_capacity, invalid_socket. lia. Qed.

Lemma waiting_on_spec h v : h <> invalid_socket -> waiting_on h v = true <-> listener_of v = h /\ waiting v.
Proof.
  intros Hh. unfold waiting_on, waiting. rw andb_true_iff Nat.eqb_eq negb_true_iff. intuition congruence.
Qed.

Lemma address_conflicts_sym a b : address_conflicts a b = address_conflicts b a.
Proof.
  unfold address_conflicts. rewrite (orb_comm (unspecified a)). f_equal. apply bool_decide_ext. done.
Qed.

Lemma same_port_sym a b : same_port a b = same_port b a.
Proof. unfold same_port. by rw Z.eqb_sym address_conflicts_sym. Qed.

Lemma port_conflicts_false t h l : port_conflicts t h l = false <->
  forall j w, slots t !! j = Some w -> j <> h -> slot_type w = SocketAbi.stream -> state w <> State.free ->
    state w <> State.control -> same_port (local w) l = false.
Proof.
  unfold port_conflicts, same_port. rewrite <- not_true_iff_false, existsb_exists. split.
  - intros H j w Hj Hne Ht Hf Hc. apply not_true_is_false. intros Hp. apply H. exists (j, w). split.
    + rewrite <- list_elem_of_In, elem_of_lookup_imap. by exists j, w.
    + apply Nat.eqb_neq in Hne. rw Hne. rewrite -> bool_decide_eq_true_2, !bool_decide_eq_false_2 by done. done.
  - intros H ([j w] & Hin & Hp). rewrite <- list_elem_of_In in Hin.
    apply elem_of_lookup_imap in Hin as (j' & w' & E & Hw). injection E as -> ->.
    rewrite -> !andb_true_iff, !negb_true_iff in Hp. destruct Hp as [[[[[Hne Ht] Hf] Hc] Hp] Ha].
    apply bool_decide_eq_true in Ht. apply bool_decide_eq_false in Hf, Hc. apply Nat.eqb_neq in Hne.
    specialize (H j' w' Hw Hne Ht Hf Hc). by rw Hp Ha in H.
Qed.

(** ** Writing one slot *)

Lemma filter_insert_count {A} (p : A -> bool) l i x y : l !! i = Some x ->
  (length (List.filter p (<[i := y]> l)) + (if p x then 1 else 0) =
   length (List.filter p l) + (if p y then 1 else 0))%nat.
Proof.
  intros H. rewrite <- (take_drop_middle l i x H) at 2.
  rewrite -> (insert_take_drop l i y) by (by eapply lookup_lt_Some).
  rewrite -> !List.filter_app, !length_app. cbn [List.filter]. destruct (p x), (p y); cbn [length]; lia.
Qed.

Lemma pending_set t h v v' g : slots t !! h = Some v ->
  pending (set_slot t h v') g =
  pending t g - (if waiting_on g v then 1 else 0) + (if waiting_on g v' then 1 else 0).
Proof.
  intros H. pose proof (filter_insert_count (waiting_on g) (slots t) h v v' H) as E.
  unfold pending, set_slot, size. simpl. destruct (waiting_on g v), (waiting_on g v'); cbv iota in *; lia.
Qed.

Lemma lookup_set t h v v' i : slots t !! h = Some v ->
  slots (set_slot t h v') !! i = (if Nat.eqb i h then Some v' else slots t !! i).
Proof.
  intros H. unfold set_slot. simpl. destruct (Nat.eqb_spec i h) as [->|Hne].
  - apply list_lookup_insert_eq. by eapply lookup_lt_Some.
  - by apply list_lookup_insert_ne.
Qed.

(** Queued segments may be dropped, and added for the connection [h]. *)
Record entries_step (h : SocketHandle) (v' : SocketSlot) (r r' : Reassembly) : Prop := {
  step_length : length r' = length r;
  step_entry : forall i k q, r' !! i = Some (Some (k, q)) ->
    size (data q) <= reassembly_segment_capacity /\
    (key_handle k = h -> is_connection (state v') = true) /\
    (key_handle k <> h -> r !! i = Some (Some (k, q)));
  step_keys : forall i j k q q', r' !! i = Some (Some (k, q)) -> r' !! j = Some (Some (k, q')) -> i = j;
}.

Lemma table_set t h v v' r' :
  table_ok t -> slots t !! h = Some v -> slot_ok v' ->
  (waiting v' -> exists l, slots t !! listener_of v' = Some l /\ state l = State.listening) ->
  ((listener_of v' <> h /\ forall i w, slots t !! i = Some w -> waiting w -> listener_of w <> h) \/
   (state v = State.listening -> state v' = State.listening)) ->
  (forall g, (g < socket_capacity)%nat -> waiting_on g v' = true ->
     waiting_on g v = true \/ pending t g < listen_backlog_capacity) ->
  (holds_port v' = true -> forall j w, j <> h -> slots t !! j = Some w -> holds_port w = true ->
     same_port (local v') (local w) = false) ->
  entries_step h v' (reassembly t) r' ->
  table_ok (set_slot (t <| reassembly := r' |>) h v').
Proof.
  intros [H1 H2 H3 H4 H5 H6 H7 H8] Hv Hok Hw Hl Hp Hport [E1 E2 E3].
  assert (forall i, slots (set_slot (t <| reassembly := r' |>) h v') !! i =
    (if Nat.eqb i h then Some v' else slots t !! i)) as Hlook by (intros i; exact (lookup_set (mkTable (slots t) r') h v v' i Hv)).
  split.
  - unfold set_slot. simpl. by rw length_insert.
  - simpl. by rw E1.
  - intros i w. rw Hlook. destruct (Nat.eqb_spec i h) as [->|]; [|apply H3]. by intros [= <-].
  - intros i w Hi Hwt. rw Hlook in Hi.
    assert (exists l, slots t !! listener_of w = Some l /\ state l = State.listening) as (l & Hl1 & Hl2).
    { destruct (Nat.eqb_spec i h); [injection Hi as <-; by apply Hw|by eapply H4]. }
    rw Hlook. destruct (Nat.eqb_spec (listener_of w) h) as [E|]; [|by exists l].
    exists v'. split; [done|]. assert (v = l) as -> by congruence. destruct Hl as [[Hl Hl']|Hl]; [|by apply Hl].
    exfalso. destruct (Nat.eqb_spec i h); [|by apply (Hl' i w)]. by injection Hi as <-.
  - intros g Hg. pose proof (pending_set (mkTable (slots t) r') h v v' g Hv : pending (set_slot (t <| reassembly := r' |>) h v') g = _) as ->.
    specialize (H5 g Hg). specialize (Hp g Hg). unfold pending in *. simpl.
    destruct (waiting_on g v'), (waiting_on g v); lia.
  - intros i j w x Hne. rw !Hlook. destruct (Nat.eqb_spec i h) as [->|], (Nat.eqb_spec j h) as [->|]; try done.
    + intros [= <-] Hx ??. by apply (Hport) with j.
    + intros Hx [= <-] ??. rw same_port_sym. by apply (Hport) with i.
    + by apply H6.
  - intros i k q Hi. destruct (E2 i k q Hi) as (? & Hh & Hnh). split; [done|]. rw Hlook.
    destruct (Nat.eqb_spec (key_handle k) h) as [E|E]; [exists v'; split; [done|by apply Hh]|].
    by apply (H7 i k q), Hnh.
  - exact E3.
Qed.

(** Updates that keep the role of a slot. *)
Record quiet (v v' : SocketSlot) : Prop := {
  quiet_listener : listener_of v' = listener_of v;
  quiet_accepted : accepted v = true -> accepted v' = true;
  quiet_local : local v' = local v;
  quiet_holds : holds_port v' = true -> holds_port v = true;
  quiet_connection : is_connection (state v) = true -> is_connection (state v') = true;
  quiet_listening : state v = State.listening -> state v' = State.listening;
}.

Lemma quiet_waiting_on v v' g : quiet v v' -> waiting_on g v' = true -> waiting_on g v = true.
Proof.
  intros H. unfold waiting_on. rw (quiet_listener _ _ H) !andb_true_iff !negb_true_iff. intros [? Ha]. split; [done|].
  apply not_true_is_false. intros E. apply (quiet_accepted _ _ H) in E. congruence.
Qed.

Lemma quiet_refl v : quiet v v.
Proof. by split. Qed.

Lemma quiet_trans v1 v2 v3 : quiet v1 v2 -> quiet v2 v3 -> quiet v1 v3.
Proof. intros [] []. split; [congruence|tauto|congruence|tauto|tauto|tauto]. Qed.

Lemma table_quiet t h v v' r' :
  table_ok t -> slots t !! h = Some v -> slot_ok v' -> quiet v v' -> entries_step h v' (reassembly t) r' ->
  table_ok (set_slot (t <| reassembly := r' |>) h v').
Proof.
  intros Ht Hv Hok Hq He. eapply table_set; try done.
  - intros Hw. rw (quiet_listener _ _ Hq). eapply ok_waiting; [done|done|].
    destruct Hw as [Hw1 Hw2]. split; [by rw -(quiet_listener _ _ Hq)|]. apply not_true_is_false. intros E.
    apply (quiet_accepted _ _ Hq) in E. congruence.
  - right. apply Hq.
  - intros g _ Hg. left. by eapply quiet_waiting_on.
  - intros Hp j w Hj Hw Hpw. rw (quiet_local _ _ Hq). eapply (ok_ports t Ht h j); try done. by apply Hq.
Qed.

Lemma entries_same t h v v' :
  table_ok t -> slots t !! h = Some v -> (is_connection (state v) = true -> is_connection (state v') = true) ->
  entries_step h v' (reassembly t) (reassembly t).
Proof.
  intros Ht Hv Hc. split; [done| |by apply ok_keys].
  intros i k q Hi. destruct (ok_entries t Ht i k q Hi) as (? & w & Hw & Hcw). split_and!; [done| |done].
  intros E. apply Hc. rewrite -> E, Hv in Hw. by injection Hw as ->.
Qed.

(** The same, when the queue is left alone. *)
Lemma table_quiet_slot t h v v' :
  table_ok t -> slots t !! h = Some v -> slot_ok v' -> quiet v v' -> table_ok (set_slot t h v').
Proof.
  intros Ht Hv Hok Hq. apply (table_quiet t h v v' (reassembly t)); try done. eapply entries_same; try done. apply Hq.
Qed.

Lemma not_waiting v : slot_ok v -> is_connection (state v) = false -> ~ waiting v.
Proof. intros Hok Hc [Hw _]. apply (ok_connection v Hok) in Hw. congruence. Qed.

(** A slot that is not a connection becomes one that is not one either. *)
Lemma table_role t h v v' :
  table_ok t -> slots t !! h = Some v -> slot_ok v' -> is_connection (state v) = false ->
  is_connection (state v') = false -> state v <> State.listening ->
  (holds_port v' = true -> forall j w, j <> h -> slots t !! j = Some w -> holds_port w = true ->
     same_port (local v') (local w) = false) ->
  table_ok (set_slot t h v').
Proof.
  intros Ht Hv Hok Hc Hc' Hl Hp. pose proof (not_waiting v' Hok Hc') as Hn.
  apply (table_set t h v v' (reassembly t)); try done.
  - by right.
  - intros g Hg Hw. apply waiting_on_spec in Hw as [_ Hw]; [done|by apply valid_not_invalid].
  - eapply entries_same; [done..|]. by rw Hc.
Qed.

(** ** The simple operations *)

Lemma open_ok t type : table_ok t -> table_ok (open t type).1.
Proof.
  intros Ht. unfold open. destruct (Nat.eqb _ _); [done|].
  destruct (allocate_spec t (ok_slots t Ht)) as [(v & Hv & Hf)|[E Hall]].
  - rw Hv. eapply table_role; try done; try (by rw Hf); [|by destruct type|by destruct type].
    rw (ok_free v (ok_slot t Ht _ _ Hv) Hf). split; destruct type; cbn; try done; intros; lia.
  - rw E. destruct (slots t !! invalid_socket) as [v|] eqn:Hv; [|done].
    apply lookup_handle_lt in Hv; [by apply valid_not_invalid in Hv|apply Ht].
Qed.

Lemma retain_ok t h : table_ok t -> table_ok (retain t h).1.
Proof.
  intros Ht. unfold retain. destruct (slot t h) as [v|] eqn:E; [|done]. apply slot_Some in E as [Hv Hf].
  destruct (Z.eqb_spec (references v) 0xffff) as [|Hr]; [done|]. eapply table_quiet_slot; [done|done| |by split].
  destruct (ok_slot t Ht _ _ Hv). split; try done. cbn. intros _. specialize (ok_references0 Hf). word.
Qed.

Lemma bind_ok t h l : table_ok t -> table_ok (bind t h l).1.
Proof.
  intros Ht. unfold bind. destruct (slot t h) as [v|] eqn:E; [|done]. apply slot_Some in E as [Hv Hf].
  destruct (bool_decide _) eqn:Hty; [done|]. destruct (bool_decide (state v <> State.created)) eqn:Hs; [done|].
  apply bool_decide_eq_false, dec_stable in Hty, Hs.
  set (p := if port l =? 0 then _ else _). clearbody p. destruct (Z.eqb_spec p 0) as [|Hp0]; [done|].
  destruct (port_conflicts t h _) eqn:Hpc; [done|]. pose proof (ok_slot t Ht _ _ Hv) as Hok.
  eapply table_role; try done; try (by rw Hs).
  - destruct Hok. rewrite -> Hs in *. split; try done. by intros; apply ok_references0.
  - intros _ j w Hj Hw Hh. rw same_port_sym. eapply port_conflicts_false; try done.
    + eapply ok_type; [by eapply ok_slot| |]; intros Hst; unfold holds_port in Hh; by rw Hst in Hh.
    + intros Hst. unfold holds_port in Hh. by rw Hst in Hh.
    + intros Hst. unfold holds_port in Hh. by rw Hst in Hh.
Qed.

Lemma listen_ok t h n : table_ok t -> table_ok (listen t h n).1.
Proof.
  intros Ht. unfold listen. destruct (slot t h) as [v|] eqn:E; [|done]. apply slot_Some in E as [Hv Hf].
  destruct (bool_decide _) eqn:Hty; [done|]. apply bool_decide_eq_false, dec_stable in Hty.
  destruct (_ && _) eqn:Hs; [done|]. pose proof (ok_slot t Ht _ _ Hv) as Hok.
  assert (state v = State.bound \/ state v = State.listening) as Hst.
  { apply andb_false_iff in Hs as [Hs|Hs]; apply bool_decide_eq_false, dec_stable in Hs; tauto. }
  assert (holds_port v = true) as Hh by (unfold holds_port; by destruct Hst as [-> | ->]).
  assert (is_connection (state v) = false) as Hc by (by destruct Hst as [-> | ->]).
  eapply table_quiet_slot; [done|done| |split; try done; by rw Hc].
  destruct Hok. split; try done; cbn; intros.
  - by apply ok_references0.
  - rewrite <- ok_connection0. by rw Hc.
  - by apply ok_data0.
  - by apply ok_port0.
  - unfold listen_backlog_capacity. rewrite -> wrap_small; unfold in_u; lia.
Qed.

Lemma begin_ok t h l r mac rs ls : table_ok t -> table_ok (begin_connection t h l r mac rs ls).1.
Proof.
  intros Ht. unfold begin_connection. destruct (slot t h) as [lv|] eqn:E; [|done]. apply slot_Some in E as [Hlv _].
  destruct (bool_decide (state lv <> State.listening)) eqn:Hl; [done|]. apply bool_decide_eq_false, dec_stable in Hl.
  destruct (first_slot _ _); [done|]. destruct (pending t h >=? backlog lv) eqn:Hp; [done|].
  rw Z.geb_leb in Hp. apply Z.leb_gt in Hp. destruct (Nat.eqb _ _); [done|].
  destruct (allocate_spec t (ok_slots t Ht)) as [(v & Hv & Hf)|[-> Hall]]; last first.
  { destruct (slots t !! invalid_socket) as [v|] eqn:Hv; [|done].
    apply lookup_handle_lt in Hv; [by apply valid_not_invalid in Hv|apply Ht]. }
  rw Hv. cbn [fst]. pose proof (lookup_handle_lt _ _ _ (ok_slots t Ht) Hlv) as Hh.
  pose proof (ok_slot t Ht _ _ Hv) as Hokv. rw (ok_free v Hokv Hf).
  pose proof (valid_not_invalid _ Hh) as Hne.
  refine (table_set t (allocate t) v _ (reassembly t) Ht Hv _ _ _ _ _ _); try done.
  - intros _. by exists lv.
  - right. intros H. by rw Hf in H.
  - intros g Hg Hw. right. apply waiting_on_spec in Hw as [<- _]; [|by apply valid_not_invalid]. cbn [listener_of].
    pose proof (ok_backlog lv (ok_slot t Ht _ _ Hlv) Hl). change (pending t h < listen_backlog_capacity). lia.
  - by eapply entries_same.
Qed.

Lemma establish_ok t h ack : table_ok t -> table_ok (establish t h ack).1.
Proof.
  intros Ht. unfold establish. destruct (slot t h) as [v|] eqn:E; [|done]. apply slot_Some in E as [Hv Hf].
  destruct (_ || _); [done|]. destruct (bool_decide (state v <> State.syn_received)) eqn:Hs; [done|].
  cbn [orb]. destruct (negb _); [done|]. apply bool_decide_eq_false, dec_stable in Hs.
  pose proof (ok_slot t Ht _ _ Hv) as Hok.
  eapply table_quiet_slot; [done|done| |split; try done; by rw Hs].
  destruct Hok. rewrite -> Hs in *. split; try done; [by intros; apply ok_references0|by intros; apply ok_type0].
Qed.

Lemma accept_ok t h : table_ok t -> table_ok (accept t h).1.
Proof.
  intros Ht. unfold accept. destruct (slot t h) as [lv|] eqn:E; [|done].
  destruct (bool_decide _); [done|]. destruct (first_slot _ _) as [i|] eqn:Hi; [|done].
  destruct (slots t !! i) as [v|] eqn:Hv; [|done]. cbn [fst].
  eapply table_quiet_slot; [done|done| |by split].
  assert (state v <> State.free) as Hf.
  { apply first_slot_Some in Hi as (w & Hw & Ha & _). assert (v = w) as -> by congruence. intros Hf.
    unfold acceptable in Ha. rw Hf in Ha. by rw andb_false_r in Ha. }
  destruct (ok_slot t Ht _ _ Hv). by split.
Qed.

(** ** Receiving and reading *)

Lemma append_ok v bytes fin : slot_ok v -> is_connection (state v) = true ->
  let v' := (append_received v bytes fin).1 in slot_ok v' /\ quiet v v' /\ is_connection (state v') = true.
Proof.
  intros Hok Hc. unfold append_received. set (k := Z.min _ _).
  assert (size (receive_buffer v ++ take (Z.to_nat k) bytes) <= socket_receive_capacity) as Hb.
  { pose proof (ok_buffer v Hok). unfold k, size in *. rewrite -> length_app, length_take. lia. }
  clearbody k. destruct Hok. destruct (_ && _); cbn [fst].
  - assert (is_connection (after_fin (state v)) = true /\ after_fin (state v) <> State.free /\
      after_fin (state v) <> State.listening /\ after_fin (state v) <> State.bound)
      as (Hs1 & Hs2 & Hs3 & Hs4) by (by destruct (state v)).
    assert (bool_decide (after_fin (state v) = State.bound) || bool_decide (after_fin (state v) = State.listening) = false)
      as Hh by (by rewrite -> !bool_decide_eq_false_2).
    split_and!; [split; cbn|split; cbn|exact Hs1]; try done; try tauto; try congruence.
    + intros _. apply ok_references0. intros E. by rw E in Hc.
    + intros _ _. apply ok_type0; intros E; by rw E in Hc.
    + intros E. exfalso. cbv delta [holds_port] in E. cbn [state] in E. by rw Hh in E.
    + intros E. exfalso. cbv delta [holds_port] in E. cbn [state] in E. by rw Hh in E.
    + intros E. by rw E in Hc.
  - split_and!; [split; cbn|by split|done]; try done.
    + intros E. by rw E in Hc.
    + congruence.
Qed.

Lemma entries_step_sub h v v' r0 r r' :
  entries_step h v r0 r -> length r' = length r ->
  (forall i e, r' !! i = Some (Some e) -> r !! i = Some (Some e)) ->
  (is_connection (state v) = true -> is_connection (state v') = true) -> entries_step h v' r0 r'.
Proof.
  intros [] Hl Hs Hc. split; [congruence| |].
  - intros i k q Hi. apply Hs in Hi. destruct (step_entry0 i k q Hi) as (? & ? & ?). by split_and!; auto.
  - intros i j k q q' Hi Hj. by eapply step_keys0; apply Hs.
Qed.

Lemma clear_entries_sub h (r : Reassembly) i e : clear_entries h r !! i = Some (Some e) ->
  r !! i = Some (Some e) /\ key_handle e.1 <> h.
Proof.
  unfold clear_entries. rw list_lookup_fmap. destruct (r !! i) as [[[k q]|]|]; simpl; try done.
  destruct (Nat.eqb_spec (key_handle k) h); [done|]. by intros [= <-].
Qed.

Lemma insert_None_sub (r : Reassembly) i j e : <[i := None]> r !! j = Some (Some e) -> r !! j = Some (Some e).
Proof.
  destruct (decide (i = j)) as [<-|]; [|by rw list_lookup_insert_ne].
  intros H. destruct (r !! i) eqn:E; [|by rw list_insert_ge in H; [apply lookup_ge_None|congruence]].
  by rw list_lookup_insert_eq in H; [eapply lookup_lt_Some|].
Qed.

(** What receiving may do to the slot [v0] and the queue [r0] of a connection. *)
Definition progresses (h : SocketHandle) (v0 : SocketSlot) (r0 : Reassembly) (v : SocketSlot) (r : Reassembly) : Prop :=
  slot_ok v /\ quiet v0 v /\ is_connection (state v) = true /\ entries_step h v r0 r.

Lemma progresses_append h v0 r0 v r r' bytes fin :
  progresses h v0 r0 v r -> length r' = length r -> (forall i e, r' !! i = Some (Some e) -> r !! i = Some (Some e)) ->
  progresses h v0 r0 (append_received v bytes fin).1 r'.
Proof.
  intros (Hok & Hq & Hc & He) Hl Hs. destruct (append_ok v bytes fin Hok Hc) as (? & Hq' & Hc').
  split_and!; [done|by eapply quiet_trans|done|]. by eapply entries_step_sub.
Qed.

Lemma progresses_sub h v0 r0 v r r' :
  progresses h v0 r0 v r -> length r' = length r -> (forall i e, r' !! i = Some (Some e) -> r !! i = Some (Some e)) ->
  progresses h v0 r0 v r'.
Proof. intros (Hok & Hq & Hc & He) Hl Hs. split_and!; [done..|]. by eapply entries_step_sub. Qed.

Lemma drain_loop_progresses fuel h v0 r0 : forall v r total v' r' st total',
  progresses h v0 r0 v r -> drain_loop fuel h v r total = Some (v', r', st, total') -> progresses h v0 r0 v' r'.
Proof.
  induction fuel as [|fuel IH]; intros v r total v' r' st total' Hp H; [done|]. cbn [drain_loop] in H.
  unfold drain_step in H. destruct (receive_closed v).
  { injection H as <- <- _ _. eapply progresses_sub; [exact Hp|apply length_map|].
    intros i e Hi. by apply clear_entries_sub in Hi as [? _]. }
  destruct (select_entry _ _ _) as [i|]; [|by injection H as <- <- _ _].
  destruct (r !! i) as [[[key q]|]|]; [|by injection H as <- <- _ _..].
  destruct (_ || _).
  { eapply IH; [|exact H]. eapply progresses_sub; [exact Hp|apply length_insert|apply insert_None_sub]. }
  destruct (_ >? _); [by injection H as <- <- _ _|].
  set (bytes := drop _ _) in H.
  pose proof (progresses_append h v0 r0 v r (<[i:=None]> r) bytes (finish q) Hp (length_insert _ _ _) (insert_None_sub r i)) as Hp'.
  destruct (append_received v bytes (finish q)) as [v1 n1]. cbn [fst] in Hp'.
  destruct (negb _); [by injection H as <- <- _ _|]. by eapply IH.
Qed.

Lemma drain_progresses h v0 r0 v r : progresses h v0 r0 v r ->
  let '(v', r', _, _) := drain_reassembly h v r in progresses h v0 r0 v' r'.
Proof.
  intros Hp. unfold drain_reassembly. destruct (drain_loop _ _ _ _ _) as [[[[v' r'] st] n]|] eqn:E; [|done].
  by eapply drain_loop_progresses.
Qed.

Lemma table_progresses t h v v' r' : table_ok t -> slots t !! h = Some v -> progresses h v (reassembly t) v' r' ->
  table_ok (set_slot (t <| reassembly := r' |>) h v').
Proof. intros Ht Hv (? & ? & _ & ?). by eapply table_quiet. Qed.

Lemma progresses_start t h v : table_ok t -> slots t !! h = Some v -> is_connection (state v) = true ->
  progresses h v (reassembly t) v (reassembly t).
Proof.
  intros Ht Hv Hc. split_and!; [by eapply ok_slot|apply quiet_refl|done|by eapply entries_same].
Qed.

Lemma store_ok t h v sequence bytes fin :
  table_ok t -> slots t !! h = Some v -> is_connection (state v) = true ->
  table_ok (store_reassembly t h sequence bytes fin).1.
Proof.
  intros Ht Hv Hc. unfold store_reassembly. rw Z.gtb_ltb.
  destruct (Z.ltb_spec reassembly_segment_capacity (size bytes)) as [|Hs]; [done|].
  destruct (existsb _ _) eqn:Hk; [done|]. destruct (first_slot _ _) as [i|] eqn:Hi; [|done]. cbn [fst].
  apply first_slot_Some in Hi as (e & Hi & Hnone & _). destruct e; [done|].
  assert (forall j q, reassembly t !! j <> Some (Some (mkKey h sequence, q))) as Hfresh.
  { intros j q Hj. apply not_true_iff_false in Hk. apply Hk, existsb_exists.
    exists (Some (mkKey h sequence, q)). split; [by eapply list_elem_of_In, list_elem_of_lookup_2|].
    by apply bool_decide_eq_true. }
  assert (forall j e, <[i := Some (mkKey h sequence, mkSegment fin bytes)]> (reassembly t) !! j = Some (Some e) ->
    (j = i /\ e = (mkKey h sequence, mkSegment fin bytes)) \/ (j <> i /\ reassembly t !! j = Some (Some e))) as Hlook.
  { intros j e Hj. destruct (decide (i = j)) as [<-|]; [|right; by rw list_lookup_insert_ne in Hj].
    left. rw list_lookup_insert_eq in Hj; [by eapply lookup_lt_Some|]. by injection Hj as <-. }
  assert (set_slot (t <| reassembly ::= <[i := Some (mkKey h sequence, mkSegment fin bytes)]> |>) h v =
    t <| reassembly ::= <[i := Some (mkKey h sequence, mkSegment fin bytes)]> |>) as <-.
  { unfold set_slot. simpl. by rw list_insert_id. }
  eapply table_progresses; [done|done|]. split_and!; [by eapply ok_slot|apply quiet_refl|done|]. split.
  - apply length_insert.
  - intros j k q Hj. apply Hlook in Hj as [[-> [= -> ->]]|[_ Hj]]; [split_and!; done|].
    by apply (entries_same t h v v Ht Hv (fun x => x)).
  - intros j1 j2 k q1 q2 H1 H2.
    apply Hlook in H1 as [[-> [= -> ->]]|[_ H1]]; apply Hlook in H2 as [[-> E2]|[_ H2]]; try done.
    + by apply Hfresh in H2.
    + injection E2 as -> ->. by apply Hfresh in H1.
    + by eapply ok_keys.
Qed.

Lemma set_slot_same_queue t h v : set_slot (t <| reassembly := reassembly t |>) h v = set_slot t h v.
Proof. done. Qed.

Lemma receive_in_window_ok t h v sequence bytes fin d :
  table_ok t -> slots t !! h = Some v -> is_connection (state v) = true ->
  table_ok (receive_in_window t h v sequence bytes fin d).1.
Proof.
  intros Ht Hv Hc. unfold receive_in_window. destruct (_ && _); [done|].
  set (fin' := if _ >=? _ then false else fin). set (bytes' := take _ _). clearbody fin' bytes'.
  pose proof (progresses_start t h v Ht Hv Hc) as Hp. destruct (d >? 0).
  - destruct (_ && _); [done|]. pose proof (store_ok t h v sequence bytes' fin' Ht Hv Hc) as H.
    by destruct (store_reassembly t h sequence bytes' fin').
  - pose proof (progresses_append h v (reassembly t) v _ _ bytes' fin' Hp eq_refl (fun i e H => H)) as Ha.
    destruct (append_received v bytes' fin') as [v1 n1]. cbn [fst] in Ha.
    destruct (negb _); [cbn [fst]; rewrite <- set_slot_same_queue; by eapply table_progresses|].
    pose proof (drain_progresses h v _ v1 _ Ha) as Hd. destruct (drain_reassembly h v1 _) as [[[v2 r2] st] n2].
    by eapply table_progresses.
Qed.

Lemma receive_ok t h sequence bytes fin : table_ok t -> table_ok (receive t h sequence bytes fin).1.
Proof.
  intros Ht. unfold receive. destruct (slot t h) as [v|] eqn:E; [|done]. apply slot_Some in E as [Hv Hf].
  destruct (is_connection (state v)) eqn:Hc; [|done]. cbn [negb orb]. destruct (_ || _); [done|].
  destruct (receive_closed v); [done|]. destruct (_ <? 0); [|by apply receive_in_window_ok].
  destruct (_ || _); [done|]. by apply receive_in_window_ok.
Qed.

Lemma read_ok t h limit : table_ok t -> table_ok (read t h limit).1.1.
Proof.
  intros Ht. unfold read. destruct (slot t h) as [v|] eqn:E; [|done]. apply slot_Some in E as [Hv Hf].
  destruct (read_closed v); [done|]. destruct (Z.eqb_spec (size (receive_buffer v)) 0) as [|Hn].
  { destruct (receive_closed v); [done|]. destruct (bool_decide _); [done|]. by destruct (_ || _). }
  assert (is_connection (state v) = true) as Hc.
  { apply not_false_iff_true. intros Hc. apply Hn. by rw (ok_data v (ok_slot t Ht _ _ Hv) Hc). }
  set (c := Z.to_nat _). clearbody c.
  pose proof (drain_progresses h v (reassembly t) (v <| receive_buffer ::= drop c |>) (reassembly t)) as Hd.
  destruct (drain_reassembly _ _ _) as [[[v2 r2] st] n2]. cbn [fst]. eapply table_progresses; [done|done|].
  apply Hd. split_and!; [|by split|done|by eapply entries_same].
  destruct (ok_slot t Ht _ _ Hv). split; try done; cbn.
  - unfold size in *. rewrite -> length_drop. lia.
  - intros E. congruence.
Qed.

(** ** Freeing slots *)

Lemma filter_length_le {A} (p : A -> bool) l l' :
  Forall2 (fun x y => p y = true -> p x = true) l l' -> (length (List.filter p l') <= length (List.filter p l))%nat.
Proof.
  induction 1 as [|x y l l' Hxy _ IH]; [done|]. cbn [List.filter].
  destruct (p y); [rw (Hxy eq_refl)|destruct (p x)]; cbn [length]; lia.
Qed.

(** [t'] is [t] with some slots freed together with all that refers to them. *)
Record shrinks (t t' : SocketTable) : Prop := {
  shrink_slots : length (slots t') = length (slots t);
  shrink_queue : length (reassembly t') = length (reassembly t);
  shrink_slot : forall i, slots t' !! i = slots t !! i \/ slots t' !! i = Some slot_default;
  shrink_entry : forall i k q, reassembly t' !! i = Some (Some (k, q)) ->
    reassembly t !! i = Some (Some (k, q)) /\ slots t' !! key_handle k = slots t !! key_handle k;
  shrink_waiting : forall i w, slots t' !! i = Some w -> waiting w ->
    slots t' !! listener_of w = slots t !! listener_of w;
}.

Lemma default_slot_ok : slot_ok slot_default.
Proof. split; done. Qed.

Lemma shrink_slot_case t t' i w : shrinks t t' -> slots t' !! i = Some w -> slots t !! i = Some w \/ w = slot_default.
Proof. intros H Hw. destruct (shrink_slot _ _ H i) as [E|E]; rw E in Hw; [by left|]. injection Hw as <-. by right. Qed.

Lemma shrinks_ok t t' : table_ok t -> shrinks t t' -> table_ok t'.
Proof.
  intros Ht Hs. pose proof (fun i w => shrink_slot_case t t' i w Hs) as Hcase. destruct Ht. split.
  - by rw (shrink_slots _ _ Hs).
  - by rw (shrink_queue _ _ Hs).
  - intros i w Hw. destruct (Hcase i w Hw) as [Hw'| ->]; [by eapply ok_slot0|apply default_slot_ok].
  - intros i w Hw Hwt. rw (shrink_waiting _ _ Hs i w Hw Hwt).
    destruct (Hcase i w Hw) as [Hw'| ->]; [by eapply ok_waiting0|by destruct Hwt].
  - intros g Hg. etrans; [|by apply (ok_pending0 g)]. unfold pending, size. apply Nat2Z.inj_le, filter_length_le.
    apply Forall2_same_length_lookup_2; [by rw (shrink_slots _ _ Hs)|]. intros i x y Hx Hy Hp.
    destruct (Hcase i y Hy) as [Hy'| ->]; [congruence|]. apply waiting_on_spec in Hp as [_ [Hp _]]; [done|].
    by apply valid_not_invalid.
  - intros i j v w Hij Hv Hw Hhv Hhw. destruct (Hcase i v Hv) as [Hv'| ->], (Hcase j w Hw) as [Hw'| ->]; try done.
    by apply (ok_ports0 i j).
  - intros i k q Hi. destruct (shrink_entry _ _ Hs i k q Hi) as [Hi' E]. rw E. by eapply ok_entries0.
  - intros i j k q q' Hi Hj. eapply ok_keys0; by apply (shrink_entry _ _ Hs).
Qed.

Lemma release_pending_shape h t i : 
  length (slots (release_pending h t i)) = length (slots t) /\
  length (reassembly (release_pending h t i)) = length (reassembly t) /\
  (forall j, slots (release_pending h t i) !! j =
    (fun c => if Nat.eqb j i && waiting_on h c then slot_default else c) <$> slots t !! j) /\
  (forall j k q, reassembly (release_pending h t i) !! j = Some (Some (k, q)) ->
    reassembly t !! j = Some (Some (k, q)) /\
    forall c, slots t !! key_handle k = Some c -> Nat.eqb (key_handle k) i && waiting_on h c = false).
Proof.
  unfold release_pending. destruct (slots t !! i) as [c|] eqn:Hc; last first.
  { split_and!; [done..| |].
    - intros j. destruct (Nat.eqb_spec j i) as [->|]; [by rw Hc|]. by destruct (slots t !! j).
    - intros j k q Hj. split; [done|]. intros c Hk. destruct (Nat.eqb_spec (key_handle k) i); [congruence|done]. }
  destruct (waiting_on h c) eqn:Hw.
  - unfold set_slot, clear_reassembly. simpl. split_and!; [apply length_insert|apply length_map| |].
    + intros j. destruct (Nat.eqb_spec j i) as [->|Hne].
      * rewrite -> list_lookup_insert_eq by (by eapply lookup_lt_Some). rw Hc. cbn. by rw Hw.
      * rewrite -> list_lookup_insert_ne by done. by destruct (slots t !! j).
    + intros j k q Hj. apply clear_entries_sub in Hj as [Hj Hk]. split; [done|]. intros c' _. cbn in Hk.
      by apply Nat.eqb_neq in Hk as ->.
  - split_and!; [done..| |].
    + intros j. destruct (Nat.eqb_spec j i) as [->|]; [rw Hc; cbn; by rw Hw|]. by destruct (slots t !! j).
    + intros j k q Hj. split; [done|]. intros c' Hk. destruct (Nat.eqb_spec (key_handle k) i) as [E|]; [|done].
      cbn. congruence.
Qed.

Lemma release_pending_fold h l : h <> invalid_socket -> forall t,
  let t' := fold_left (release_pending h) l t in
  length (slots t') = length (slots t) /\ length (reassembly t') = length (reassembly t) /\
  (forall j, slots t' !! j =
    (fun c => if existsb (Nat.eqb j) l && waiting_on h c then slot_default else c) <$> slots t !! j) /\
  (forall j k q, reassembly t' !! j = Some (Some (k, q)) ->
    reassembly t !! j = Some (Some (k, q)) /\
    forall c, slots t !! key_handle k = Some c -> existsb (Nat.eqb (key_handle k)) l && waiting_on h c = false).
Proof.
  intros Hh. assert (waiting_on h slot_default = false) as Hdef.
  { unfold waiting_on. change (listener_of slot_default) with invalid_socket.
    by rewrite -> (proj2 (Nat.eqb_neq invalid_socket h)) by congruence. }
  induction l as [|i l IH]; intros t; cbn [fold_left existsb].
  { split_and!; [done..| |by split]. intros j. by destruct (slots t !! j). }
  destruct (release_pending_shape h t i) as (L1 & L2 & L3 & L4).
  destruct (IH (release_pending h t i)) as (I1 & I2 & I3 & I4). split_and!.
  - by rw I1.
  - by rw I2.
  - intros j. rewrite -> I3, L3. destruct (slots t !! j) as [c|]; [|done]. cbn. f_equal.
    destruct (Nat.eqb j i), (existsb _ l), (waiting_on h c) eqn:E; cbn; rewrite ?Hdef ?E; done.
  - intros j k q Hj. apply I4 in Hj as [Hj Hn]. apply L4 in Hj as [Hj Hn']. split; [done|].
    intros c Hc. specialize (Hn' c Hc). specialize (Hn c). rewrite -> L3, Hc in Hn. cbn in Hn.
    destruct (Nat.eqb (key_handle k) i); cbn in *; [done|by apply Hn].
Qed.

Lemma existsb_seq j n : existsb (Nat.eqb j) (seq 0 n) = (j <? n)%nat.
Proof.
  destruct (Nat.ltb_spec j n) as [H|H].
  - apply existsb_exists. exists j. split; [apply in_seq; lia|apply Nat.eqb_refl].
  - apply not_true_iff_false. rewrite -> existsb_exists. intros (x & Hx%in_seq & E%Nat.eqb_eq). lia.
Qed.

(** The last reference of a socket frees its slot and, for a listener, the
    connections nobody accepted. *)
Lemma release_last_shape t h v :
  table_ok t -> slots t !! h = Some v -> state v <> State.free -> references v = 1 ->
  let t' := (release t h).1 in
  length (slots t') = length (slots t) /\ length (reassembly t') = length (reassembly t) /\
  (forall j, slots t' !! j =
    (fun c => if Nat.eqb j h || (bool_decide (state v = State.listening) && waiting_on h c)
              then slot_default else c) <$> slots t !! j) /\
  (forall j k q, reassembly t' !! j = Some (Some (k, q)) ->
    reassembly t !! j = Some (Some (k, q)) /\ key_handle k <> h /\
    forall c, slots t !! key_handle k = Some c -> bool_decide (state v = State.listening) && waiting_on h c = false).
Proof.
  intros Ht Hv Hf Hr. pose proof (lookup_handle_lt _ _ _ (ok_slots t Ht) Hv) as Hh. unfold release.
  rewrite -> (proj2 (slot_Some t h v)), (proj2 (Z.eqb_neq (references v) 0)) by (done || lia). cbv iota zeta.
  set (v1 := v <| references ::= fun n => u16 (n - 1) |>).
  assert (references v1 = 0) as -> by (unfold v1; cbn [references set]; by rw Hr).
  change (negb (0 =? 0)) with false. cbv iota. cbn [fst]. change (state v1) with (state v).
  set (t2 := if bool_decide (state v = State.listening)
             then fold_left (release_pending h) (seq 0 socket_capacity) (set_slot t h v1) else set_slot t h v1).
  assert (length (slots t2) = length (slots t) /\ length (reassembly t2) = length (reassembly t) /\
    (forall j, j <> h -> slots t2 !! j =
      (fun c => if bool_decide (state v = State.listening) && waiting_on h c then slot_default else c) <$> slots t !! j) /\
    (forall j k q, key_handle k <> h -> reassembly t2 !! j = Some (Some (k, q)) ->
      reassembly t !! j = Some (Some (k, q)) /\
      forall c, slots t !! key_handle k = Some c -> bool_decide (state v = State.listening) && waiting_on h c = false))
    as (E1 & E2 & E3 & E4).
  { assert (length (slots (set_slot t h v1)) = length (slots t)) as Hl by apply length_insert.
    assert (forall j, j <> h -> slots (set_slot t h v1) !! j = slots t !! j) as Hlook
      by (intros j Hj; by apply list_lookup_insert_ne).
    unfold t2. destruct (bool_decide (state v = State.listening)).
    - destruct (release_pending_fold h (seq 0 socket_capacity) (valid_not_invalid _ Hh) (set_slot t h v1))
        as (F1 & F2 & F3 & F4). split_and!; [by rw F1|by rw F2| |].
      + intros j Hj. rewrite -> F3, Hlook by done. destruct (slots t !! j) as [c|] eqn:Hc; [|done]. cbn [fmap option_fmap option_map].
        rw existsb_seq. apply (lookup_handle_lt _ _ _ (ok_slots t Ht)), Nat.ltb_lt in Hc. by rw Hc.
      + intros j k q Hk Hj. apply F4 in Hj as [Hj Hn]. split; [done|]. intros c Hc. specialize (Hn c).
        rewrite -> Hlook in Hn by done. rewrite -> existsb_seq in Hn. specialize (Hn Hc).
        apply (lookup_handle_lt _ _ _ (ok_slots t Ht)), Nat.ltb_lt in Hc. by rw Hc in Hn.
    - split_and!; [done|done| |by split]. intros j Hj. rw Hlook //. by destruct (slots t !! j). }
  clearbody t2. unfold set_slot, clear_reassembly. simpl. rw length_insert length_map. split_and!; [done|done| |].
  - intros j. destruct (Nat.eqb_spec j h) as [->|Hne]; cbn [orb].
    + rw Hv. cbn. apply list_lookup_insert_eq. rw E1. by eapply lookup_lt_Some.
    + rewrite -> list_lookup_insert_ne by done. by apply E3.
  - intros j k q Hj. apply clear_entries_sub in Hj as [Hj Hk]. cbn in Hk. destruct (E4 j k q Hk Hj). by split_and!.
Qed.

Lemma listening_not_waiting_on t i l h : table_ok t -> slots t !! i = Some l -> state l = State.listening ->
  h <> invalid_socket -> waiting_on h l = false.
Proof.
  intros Ht Hl Hs Hh. apply not_true_iff_false. intros Hw. apply waiting_on_spec in Hw as [_ [Hw _]]; [|done].
  apply (ok_connection l (ok_slot t Ht _ _ Hl)) in Hw. by rw Hs in Hw.
Qed.

Lemma release_shrinks t h v :
  table_ok t -> slots t !! h = Some v -> state v <> State.free -> references v = 1 -> shrinks t (release t h).1.
Proof.
  intros Ht Hv Hf Hr. destruct (release_last_shape t h v Ht Hv Hf Hr) as (L1 & L2 & L3 & L4).
  pose proof (valid_not_invalid _ (lookup_handle_lt _ _ _ (ok_slots t Ht) Hv)) as Hh.
  set (t' := (release t h).1) in *. clearbody t'. split; [done|done| | |].
  - intros i. rw L3. destruct (slots t !! i) as [c|]; [|by left]. cbn. destruct (_ || _); [by right|by left].
  - intros i k q Hi. apply L4 in Hi as (Hi & Hk & Hn). split; [done|]. rw L3.
    destruct (slots t !! key_handle k) as [c|]; [|done]. cbn. apply Nat.eqb_neq in Hk. rw Hk. by rw (Hn c).
  - intros i w Hw Hwt. rw L3 in Hw. destruct (slots t !! i) as [w'|] eqn:Hi; [|done]. cbn in Hw.
    destruct (_ || _) eqn:Hx; injection Hw as <-; [by destruct Hwt|]. apply orb_false_iff in Hx as [_ Hx].
    destruct (ok_waiting t Ht i w' Hi Hwt) as (l & Hl & Hls). rewrite -> L3, Hl. cbn. f_equal.
    rw (listening_not_waiting_on t _ l h Ht Hl Hls Hh) andb_false_r orb_false_r.
    destruct (Nat.eqb_spec (listener_of w') h) as [E|]; [|done]. exfalso.
    assert (v = l) as -> by congruence. rw Hls in Hx. cbn in Hx. apply not_true_iff_false in Hx. apply Hx.
    by apply waiting_on_spec.
Qed.

Lemma release_ok t h : table_ok t -> table_ok (release t h).1.
Proof.
  intros Ht. destruct (slot t h) as [v|] eqn:E; [|by unfold release; rw E].
  pose proof E as E'. apply slot_Some in E as [Hv Hf]. pose proof (ok_references v (ok_slot t Ht _ _ Hv) Hf) as Hr.
  destruct (decide (references v = 1)) as [H1|H1]; [by eapply shrinks_ok, release_shrinks|].
  unfold release. rw E'. rewrite -> (proj2 (Z.eqb_neq (references v) 0)) by lia. cbv iota zeta.
  set (v1 := v <| references ::= fun n => u16 (n - 1) |>).
  assert (references v1 = references v - 1) as Hr1.
  { unfold v1. cbn [references set]. apply wrap_small. unfold in_u. lia. }
  rewrite -> (proj2 (Z.eqb_neq (references v1) 0)) by lia. cbn [negb fst].
  eapply table_quiet_slot; [done|done| |by split]. destruct (ok_slot t Ht _ _ Hv). split; try done. intros _. lia.
Qed.

Lemma reset_ok t h why : table_ok t -> (forall v, slot t h = Some v -> is_connection (state v) = true) ->
  table_ok (reset t h why).
Proof.
  intros Ht Hc. unfold reset. destruct (slot t h) as [v|] eqn:E; [|done]. specialize (Hc v eq_refl).
  apply slot_Some in E as [Hv Hf]. destruct (bool_decide _); [by apply release_ok|].
  set (v' := v <| receive_buffer := [] |> <| state := State.reset |> <| failure := why |>
               <| receive_closed := false |> <| persist_waiting := false |>).
  destruct (ok_slot t Ht _ _ Hv).
  eapply (table_quiet t h v v'); [done|done| | |].
  - split; try done; cbn; intros; try tauto. apply ok_type0; intros Es; by rw Es in Hc.
  - split; try done. intros Es. by rw Es in Hc.
  - eapply entries_step_sub; [by eapply (entries_same t h v v')|apply length_map| |done].
    intros i e Hi. by apply clear_entries_sub in Hi as [? _].
Qed.

Lemma initial_ok : table_ok initial.
Proof.
  assert (forall i v, slots initial !! i = Some v -> v = slot_default) as Hd.
  { intros i v Hi. by apply lookup_replicate in Hi as [-> _]. }
  assert (forall i e, reassembly initial !! i = Some e -> e = None) as He.
  { intros i e Hi. by apply lookup_replicate in Hi as [-> _]. }
  split; try done.
  - intros i v Hi. apply Hd in Hi as ->. apply default_slot_ok.
  - intros i v Hi [Hw _]. by apply Hd in Hi as ->.
  - intros h Hh. unfold socket_capacity in Hh. do 13 (destruct h as [|h]; [by vm_compute|]). lia.
  - intros i j v w _ Hv Hw Hp. by apply Hd in Hv as ->.
  - intros i k q Hi. by apply He in Hi.
  - intros i j k q q' Hi. by apply He in Hi.
Qed.

Lemma apply_op_ok t o : table_ok t -> op_ok t o -> table_ok (apply_op t o).
Proof.
  intros Ht. destruct o; simpl; intros Ho; auto using open_ok, retain_ok, release_ok, bind_ok, listen_ok, begin_ok,
    establish_ok, accept_ok, receive_ok, read_ok, reset_ok.
Qed.

(** The tables the operations can produce. *)
Inductive reachable : SocketTable -> Prop :=
| reachable_initial : reachable initial
| reachable_step t o : reachable t -> op_ok t o -> reachable (apply_op t o).

Lemma reachable_ok t : reachable t -> table_ok t.
Proof. induction 1; [apply initial_ok|by apply apply_op_ok]. Qed.


(** ** Binding *)

(** Distinct ports of the ephemeral range conflict with distinct slots. *)
Lemma port_conflicts_port t a p : port_conflicts t invalid_socket (mkEndpoint a p) = true ->
  p ∈ (port ∘ local <$> slots t).
Proof.
  unfold port_conflicts. rewrite -> existsb_exists. intros ([i v] & Hin & Hp). rewrite <- list_elem_of_In in Hin.
  apply elem_of_lookup_imap in Hin as (i' & v' & E & Hv). injection E as -> ->.
  rewrite -> !andb_true_iff in Hp. destruct Hp as [[_ Hp] _]. apply Z.eqb_eq in Hp. cbn in Hp.
  apply list_elem_of_fmap. exists v'. split; [by cbn|]. by eapply list_elem_of_lookup_2.
Qed.

Lemma ephemeral_scan_spec t a n : forall p, 0 < p -> p + Z.of_nat n <= 65536 ->
  let r := ephemeral_scan t a p n in
  (r = 0 /\ forall q, p <= q < p + Z.of_nat n -> port_conflicts t invalid_socket (mkEndpoint a q) = true) \/
  (p <= r < p + Z.of_nat n /\ port_conflicts t invalid_socket (mkEndpoint a r) = false).
Proof.
  induction n as [|n IH]; intros p Hp Hn; cbn [ephemeral_scan]; [left; split; [done|lia]|].
  assert (u16 p = p) as -> by (apply wrap_small; unfold in_u; lia).
  destruct (port_conflicts _ _ _) eqn:Hc; cbn [negb]; [|right; split; [lia|done]].
  destruct (IH (p + 1)) as [[Hr Hq]|[Hr Hq]]; [lia|lia| |right; split; [lia|done]].
  left. split; [done|]. intros q Hq'. destruct (decide (q = p)) as [->|]; [done|apply Hq; lia].
Qed.

(** Thirteen sockets cannot take all 16384 ephemeral ports. *)
Lemma ephemeral_found t a : length (slots t) = socket_capacity ->
  let r := allocate_ephemeral_port t a in
  ephemeral_first <= r < 65536 /\ port_conflicts t invalid_socket (mkEndpoint a r) = false.
Proof.
  intros Hl. unfold allocate_ephemeral_port, ephemeral_first.
  destruct (ephemeral_scan_spec t a ephemeral_count 49152) as [[_ Hall]|[Hr Hq]]; [lia|done| |by split].
  exfalso. assert (length (seqZ 49152 14) <= length (port ∘ local <$> slots t))%nat as Hle.
  { apply submseteq_length, NoDup_submseteq; [apply NoDup_seqZ|]. intros q Hq%elem_of_seqZ.
    eapply port_conflicts_port, Hall. assert (Z.of_nat ephemeral_count = 16384) as -> by (by vm_compute). lia. }
  rewrite -> length_seqZ, length_fmap, Hl in Hle. unfold socket_capacity in Hle. lia.
Qed.

Lemma port_conflicts_invalid t h l :
  length (slots t) = socket_capacity -> port_conflicts t invalid_socket l = false -> port_conflicts t h l = false.
Proof.
  rewrite -> !port_conflicts_false. intros Hl H j w Hj _. apply (H j w Hj). by apply valid_not_invalid, (lookup_handle_lt t j w).
Qed.

Lemma port_conflicts_true t h l : port_conflicts t h l = true ->
  exists j w, j <> h /\ slot t j = Some w /\ same_port (local w) l = true.
Proof.
  unfold port_conflicts. rewrite -> existsb_exists. intros ([j w] & Hin & Hp). rewrite <- list_elem_of_In in Hin.
  apply elem_of_lookup_imap in Hin as (j' & w' & E & Hw). injection E as -> ->.
  rewrite -> !andb_true_iff, !negb_true_iff in Hp. destruct Hp as [[[[[Hne _] Hf] _] Hp] Ha].
  apply Nat.eqb_neq in Hne. apply bool_decide_eq_false in Hf. exists j', w'. split_and!; [done|by apply slot_Some|].
  unfold same_port. by rw Hp Ha.
Qed.

(** Binding a stream socket that is not bound yet succeeds exactly when no
    other stream socket conflicts with the requested port and address; port 0
    always gets a free ephemeral port, for there are more of those than slots;
    every failure names its reason and changes nothing. *)
Theorem socket_bind_spec t h v l :
  reachable t -> slot t h = Some v -> in_u 16 (port l) ->
  let '(t', r) := bind t h l in
  match r with
  | Result.success => exists p,
      slot_type v = SocketAbi.stream /\ state v = State.created /\
      (if port l =? 0 then ephemeral_first <= p < 65536 else p = port l) /\
      t' = set_slot t h (v <| local := mkEndpoint (endpoint_address l) p |> <| state := State.bound |>) /\
      forall j w, j <> h -> slot t j = Some w -> slot_type w = SocketAbi.stream -> state w <> State.control ->
        same_port (local w) (mkEndpoint (endpoint_address l) p) = false
  | Result.address_in_use => t' = t /\ port l <> 0 /\
      exists j w, j <> h /\ slot t j = Some w /\ same_port (local w) l = true
  | Result.wrong_type => t' = t /\ slot_type v <> SocketAbi.stream
  | Result.invalid_argument => t' = t /\ state v <> State.created
  | _ => False
  end.
Proof.
  intros Hr Hv Hp. apply reachable_ok in Hr. pose proof (ok_slots t Hr) as Hl. unfold bind. rw Hv.
  destruct (bool_decide _) eqn:Hty; [split; [done|by apply bool_decide_eq_true in Hty]|].
  apply bool_decide_eq_false, dec_stable in Hty.
  destruct (bool_decide (state v <> State.created)) eqn:Hs; [split; [done|by apply bool_decide_eq_true in Hs]|].
  apply bool_decide_eq_false, dec_stable in Hs. destruct (Z.eqb_spec (port l) 0) as [H0|H0].
  - destruct (ephemeral_found t (endpoint_address l) Hl) as [Hrange Hfree].
    rewrite -> (proj2 (Z.eqb_neq _ 0)) by (unfold ephemeral_first in Hrange; lia).
    pose proof (port_conflicts_invalid t h _ Hl Hfree) as Hc. rw Hc.
    exists (allocate_ephemeral_port t (endpoint_address l)). destruct Hrange. split_and!; [done..|].
    intros j w Hj Hw Hst Hsc. apply slot_Some in Hw as [Hw Hf]. by apply (proj1 (port_conflicts_false _ _ _) Hc j w).
  - rewrite -> (proj2 (Z.eqb_neq _ 0)) by done. destruct l as [a p]. cbn [port endpoint_address] in *.
    destruct (port_conflicts t h _) eqn:Hc.
    + split_and!; [done..|]. by apply port_conflicts_true.
    + exists p. split_and!; [done..|]. intros j w Hj Hw Hst Hsc. apply slot_Some in Hw as [Hw Hf].
      by apply (proj1 (port_conflicts_false _ _ _) Hc j w).
Qed.

(** ** Accepting *)

(** C21: On a listening socket [accept] succeeds exactly when the socket polls
    readable; it then hands out the first connection that is established or
    failed and not accepted yet, with its peer's address, and that connection
    can never be handed out again; otherwise nothing changes. *)
Theorem socket_accept_spec t h lv :
  reachable t -> slot t h = Some lv -> state lv = State.listening ->
  let '(t', r) := accept t h in
  if readable t h then
    let i := accept_handle r in
    exists v, accept_result r = Result.success /\ slots t !! i = Some v /\ acceptable h v = true /\
      accept_peer r = remote v /\
      (forall j w, slots t !! j = Some w -> (j < i)%nat -> acceptable h w = false) /\
      t' = set_slot t i (v <| accepted := true |>) /\ pending t' h = pending t h - 1 /\
      (forall g, acceptable g (v <| accepted := true |>) = false)
  else r = mkAccept Result.would_block invalid_socket endpoint_zero /\ t' = t.
Proof.
  intros Hr Hv Hs. apply reachable_ok in Hr. unfold accept, readable. rw Hv Hs.
  assert (existsb (acceptable h) (slots t) = true <-> exists i, first_slot (acceptable h) (slots t) = Some i) as Hiff.
  { split.
    - intros Hx. apply existsb_exists in Hx as (w & Hin & Hw). apply list_elem_of_In, list_elem_of_lookup_1 in Hin as [i Hi].
      destruct (first_slot _ _) as [k|] eqn:Hk; [by exists k|]. by rewrite -> (proj1 (first_slot_None _ _) Hk i w Hi) in Hw.
    - intros [i Hi]. apply first_slot_Some in Hi as (w & Hi & Hw & _). apply existsb_exists. exists w. split; [|done].
      by eapply list_elem_of_In, list_elem_of_lookup_2. }
  cbn [bool_decide]. rewrite -> bool_decide_eq_false_2 by tauto. rewrite -> bool_decide_eq_true_2 by done.
  destruct (first_slot (acceptable h) (slots t)) as [i|] eqn:Hi; last first.
  { destruct (existsb _ _); [|done]. by destruct (proj1 Hiff eq_refl). }
  rewrite -> (proj2 Hiff) by (by eexists). apply first_slot_Some in Hi as (v & Hvi & Ha & Hfirst). rw Hvi. cbn.
  exists v. split_and!; [done..| |by intros g; unfold acceptable; cbn; rw andb_false_r].
  change (pending (set_slot t i (v <| accepted := true |>)) h = pending t h - 1). rw (pending_set t i v) //.
  assert (waiting_on h v = true) as ->.
  { unfold acceptable in Ha. unfold waiting_on. by apply andb_true_iff in Ha as [-> _]. }
  assert (waiting_on h (v <| accepted := true |>) = false) as -> by (unfold waiting_on; apply andb_false_r). lia.
Qed.

(** ** Starting a connection *)

Lemma allocate_full t : length (slots t) = socket_capacity ->
  (allocate t = invalid_socket <-> forall i v, slots t !! i = Some v -> state v <> State.free).
Proof.
  intros Hl. destruct (allocate_spec t Hl) as [(v & Hv & Hf)|[E H]]; [|by rw E].
  split; [|intros H; by apply H in Hv]. intros E. rw E in Hv. apply (lookup_handle_lt t) in Hv; [|done].
  by apply valid_not_invalid in Hv.
Qed.

(** A SYN for a listener either finds the handshake it repeats, is refused
    for a full backlog or a full table without effect, or occupies one free
    slot: one more pending connection, the other slots and the queue untouched,
    and the slot in step with the peer's stream from its first byte on, whatever
    that stream is. *)
Theorem socket_begin_spec t h lv l r mac rs ls stream :
  reachable t -> slot t h = Some lv -> state lv = State.listening -> in_u 32 rs -> in_u 32 ls ->
  let '(t', res) := begin_connection t h l r mac rs ls in
  let i := open_handle res in
  (exists w, t' = t /\ open_result res = Result.success /\ slots t !! i = Some w /\ waiting_on h w = true /\ remote w = r) \/
  (t' = t /\ res = open_failed /\
   (backlog lv <= pending t h \/ forall j w, slots t !! j = Some w -> state w <> State.free)) \/
  (exists v, open_result res = Result.success /\ slots t !! i = Some slot_default /\ pending t h < backlog lv /\
     t' = set_slot t i v /\ pending t' h = pending t h + 1 /\
     state v = State.syn_received /\ local v = l /\ remote v = r /\ remote_mac v = mac /\
     send_next v = u32 (ls + 1) /\ waiting_on h v = true /\
     SocketStream.in_sync i (rs + 1) stream 0 socket_receive_capacity v t').
Proof.
  intros Hr Hlv Hs Hrs Hls. apply reachable_ok in Hr. pose proof (ok_slots t Hr) as Hl. unfold begin_connection.
  rw Hlv Hs. rewrite -> bool_decide_eq_false_2 by tauto. apply slot_Some in Hlv as [Hlv _].
  pose proof (lookup_handle_lt _ _ _ Hl Hlv) as Hh.
  destruct (first_slot _ _) as [i|] eqn:Hfirst.
  { left. apply first_slot_Some in Hfirst as (w & Hw & Hp & _). rewrite -> !andb_true_iff in Hp.
    destruct Hp as [[Hp1 Hp2] Hp3]. apply bool_decide_eq_true in Hp2. exists w. unfold waiting_on. by rw Hp1 Hp3. }
  destruct (pending t h >=? backlog lv) eqn:Hp; rewrite -> Z.geb_leb in Hp.
  { right; left. apply Z.leb_le in Hp. by split_and!; [..|left]. }
  apply Z.leb_gt in Hp. destruct (Nat.eqb_spec (allocate t) invalid_socket) as [E|E].
  { right; left. split_and!; [done..|]. right. by apply allocate_full. }
  destruct (allocate_spec t Hl) as [(v & Hv & Hf)|[? _]]; [|done]. rw Hv. right; right.
  pose proof (ok_free v (ok_slot t Hr _ _ Hv) Hf) as ->. cbn [open_handle open_result].
  eexists. split_and!; [done|done|done|reflexivity| |done..| |].
  - rw (pending_set t _ slot_default) //. unfold waiting_on at 1. cbn [listener_of slot_default accepted].
    rewrite -> (proj2 (Nat.eqb_neq invalid_socket h)) by (intros <-; by apply valid_not_invalid in Hh).
    cbn [andb]. unfold waiting_on. cbn [listener_of accepted]. rw Nat.eqb_refl. cbn. lia.
  - unfold waiting_on. cbn [listener_of]. by rw Nat.eqb_refl.
  - unfold SocketStream.in_sync. split_and!; [by apply Hr| |..|].
    + apply (list_lookup_insert_eq (slots t)). by eapply lookup_lt_Some.
    + unfold SocketStream.slot_sync. cbn. split_and!; try done; try lia. f_equal. lia.
    + done.
    + apply Forall_lookup. intros j [[k q]|] Hj; [|done]. intros Hk.
      destruct (ok_entries t Hr j k q Hj) as (_ & w & Hw & Hc). rewrite -> Hk, Hv in Hw. by injection Hw as <-.
Qed.

(** A server on port 80 with one connection waiting and one socket created. *)
Definition example_local := mkEndpoint (Ethernet.mkIpv4 [10; 0; 2; 15]) 80.
Definition example_remote := mkEndpoint (Ethernet.mkIpv4 [10; 0; 2; 2]) 4000.
Definition example_ops : list Op :=
  [op_open SocketAbi.stream; op_bind 0 example_local; op_listen 0 2; op_open SocketAbi.stream;
   op_begin 0 example_local example_remote Ethernet.mac_zero (2 ^ 32 - 1) 7; op_establish 2 8;
   op_receive 2 0 [104; 105] false].
Definition example_table : SocketTable := fold_left apply_op example_ops initial.

Lemma example_reachable : reachable example_table.
Proof. unfold example_table, example_ops. cbn [fold_left]. repeat (apply reachable_step; [|exact I]). exact reachable_initial. Defined.

Definition example_slot (h : SocketHandle) : SocketSlot := default slot_default (slots example_table !! h).


Lemma socket_bind_spec_witness :
  (bind example_table 1 (mkEndpoint Ethernet.ipv4_zero 80)).2 = Result.address_in_use /\
  exists j w, j <> 1%nat /\ slot example_table j = Some w /\
    same_port (local w) (mkEndpoint Ethernet.ipv4_zero 80) = true.
Proof.
  assert ((bind example_table 1 (mkEndpoint Ethernet.ipv4_zero 80)).2 = Result.address_in_use) as E by (vm_compute; reflexivity).
  pose proof (socket_bind_spec example_table 1 (example_slot 1) (mkEndpoint Ethernet.ipv4_zero 80) example_reachable
    ltac:(vm_compute; reflexivity) ltac:(vm_compute; split; [discriminate|reflexivity])) as H.
  split; [exact E|]. destruct (bind _ _ _) as [t' res]. cbn [snd] in E. subst res. apply H.
Defined.

Lemma socket_accept_spec_witness :
  readable example_table 0 = true /\
  exists v, slots example_table !! 2%nat = Some v /\ acceptable 0 v = true /\
    pending (accept example_table 0).1 0 = pending example_table 0 - 1.
Proof.
  assert (readable example_table 0 = true) as E by (vm_compute; reflexivity).
  assert (accept_handle (accept example_table 0).2 = 2%nat) as E2 by (vm_compute; reflexivity).
  pose proof (socket_accept_spec example_table 0 (example_slot 0) example_reachable
    ltac:(vm_compute; reflexivity) ltac:(vm_compute; reflexivity)) as H.
  split; [exact E|]. destruct (accept _ _) as [t' res]. rewrite -> E in H. cbn [snd] in E2. cbv zeta in H. rewrite -> E2 in H.
  destruct H as (v & _ & Hv & Ha & _ & _ & _ & Hp & _). exists v. split_and!; [exact Hv|exact Ha|exact Hp].
Defined.

Lemma socket_begin_spec_witness :
  let res := begin_connection example_table 0 example_local (mkEndpoint Ethernet.ipv4_zero 9) Ethernet.mac_zero 5 6 in
  open_result res.2 = Result.success /\ pending res.1 0 = 2.
Proof.
  pose proof (socket_begin_spec example_table 0 (example_slot 0) example_local (mkEndpoint Ethernet.ipv4_zero 9)
    Ethernet.mac_zero 5 6 [1; 2; 3] example_reachable ltac:(vm_compute; reflexivity) ltac:(vm_compute; reflexivity)
    ltac:(vm_compute; split; [discriminate|reflexivity]) ltac:(vm_compute; split; [discriminate|reflexivity])) as H.
  cbv zeta. assert (open_handle (begin_connection example_table 0 example_local (mkEndpoint Ethernet.ipv4_zero 9)
    Ethernet.mac_zero 5 6).2 = 3%nat) as E by (vm_compute; reflexivity).
  assert (pending example_table 0 = 1) as E1 by (vm_compute; reflexivity).
  assert (slots example_table !! 3%nat = Some slot_default) as E3 by (vm_compute; reflexivity).
  destruct (begin_connection _ _ _ _ _ _ _) as [t' res]. cbn [fst snd] in *. rewrite -> E in H.
  destruct H as [(w & _ & _ & Hw & Hwt & _)|[(_ & -> & _)|(v & Hres & _ & _ & _ & Hp & _)]].
  - rewrite -> E3 in Hw. injection Hw as <-. vm_compute in Hwt. discriminate.
  - vm_compute in E. discriminate.
  - split; [exact Hres|]. rewrite -> Hp, E1. reflexivity.
Defined.
End SocketInvariant.
