(* ===== verification/Tcp.v ===== *)
(** * [include/mikos/net/tcp.hpp]: TCP headers, options and packet validation *)

From S2P Require Import Prelude Ethernet.
Local Open Scope Z_scope.

Module Tcp.

(** ** 32-bit fields in memory *)

Definition load32 (l : list Z) : Z :=
  match l with a :: b :: c :: d :: _ => a + 256 * b + 65536 * c + 16777216 * d | _ => 0 end.
Definition store32 (v : Z) : list Z := [v mod 256; v / 256 mod 256; v / 65536 mod 256; v / 16777216].

(** [std::byteswap] *)
Definition net32 (value : Z) : Z := load32 (rev (store32 value)).

Record TcpHeader := mkTcp {
  source_port : Z; destination_port : Z; sequence : Z; acknowledgement : Z;
  data_offset : Z; flags : Z; window : Z; checksum : Z; urgent : Z;
}.
#[global] Instance tcp_eta : Eta TcpHeader := fun h =>
  mkTcp (source_port h) (destination_port h) (sequence h) (acknowledgement h)
    (data_offset h) (flags h) (window h) (checksum h) (urgent h).

Definition sizeof_tcp := 20%nat.

Definition decode_tcp (l : list Z) : TcpHeader :=
  mkTcp (Ethernet.load16 (slice l 0 2)) (Ethernet.load16 (slice l 2 2)) (load32 (slice l 4 4)) (load32 (slice l 8 4))
    (Ethernet.byte_at l 12) (Ethernet.byte_at l 13) (Ethernet.load16 (slice l 14 2))
    (Ethernet.load16 (slice l 16 2)) (Ethernet.load16 (slice l 18 2)).
Definition encode_tcp (h : TcpHeader) : list Z :=
  Ethernet.store16 (source_port h) ++ Ethernet.store16 (destination_port h) ++ store32 (sequence h) ++
  store32 (acknowledgement h) ++ [data_offset h; flags h] ++ Ethernet.store16 (window h) ++
  Ethernet.store16 (checksum h) ++ Ethernet.store16 (urgent h).

Definition tcp_fin := 0x01.
Definition tcp_syn := 0x02.
Definition tcp_rst := 0x04.
Definition tcp_psh := 0x08.
Definition tcp_ack := 0x10.

(** [(flags & bit) != 0] *)
Definition has (flags bit : Z) : bool := negb (Z.land flags bit =? 0).

(** ** The checksum with its pseudo header *)

(** The loop is that of [internet_checksum]. *)
Definition checksum_add (sum : Z) (bytes : list Z) : Z := Ethernet.checksum_sum sum bytes.
Definition checksum_finish (sum : Z) : Z := u16 (Z.lnot (Ethernet.fold_carry Ethernet.fold_fuel sum)).

Definition tcp_checksum (source destination : list Z) (segment : list Z) : Z :=
  let size := Z.of_nat (length segment) in
  let sum := checksum_add 0 source in
  let sum := checksum_add sum destination in
  let pseudo := [0; 6; u8 (Z.shiftr size 8); u8 size] in
  let sum := checksum_add sum pseudo in
  checksum_finish (checksum_add sum segment).

(** ** Options *)

Record TcpOptions := mkOptions { maximum_segment_size : option Z; window_scale : option Z }.
#[global] Instance options_eta : Eta TcpOptions := fun o => mkOptions (maximum_segment_size o) (window_scale o).
Definition no_options := mkOptions None None.

(** The [switch (kind)] of [parse_tcp_options] on the framed option. *)
Definition option_step (result : TcpOptions) (kind : Z) (bytes : list Z) : option TcpOptions :=
  let size := Z.of_nat (length bytes) in
  if kind =? 2 then
    if negb (size =? 4) || bool_decide (maximum_segment_size result <> None) then None else
    let mss := u16 (Z.lor (Z.shiftl (Ethernet.byte_at bytes 2) 8) (Ethernet.byte_at bytes 3)) in
    if mss =? 0 then None else Some (result <| maximum_segment_size := Some mss |>)
  else if kind =? 3 then
    if negb (size =? 3) || bool_decide (window_scale result <> None) then None else
    Some (result <| window_scale := Some (Z.min (Ethernet.byte_at bytes 2) 14) |>)
  else if kind =? 4 then if negb (size =? 2) then None else Some result
  else if kind =? 5 then if (size <? 10) || negb ((size - 2) mod 8 =? 0) then None else Some result
  else if kind =? 8 then if negb (size =? 10) then None else Some result
  else Some result.

(** [while (!bytes.empty())]; every iteration consumes a byte at least. *)
Fixpoint parse_options_loop (fuel : nat) (result : TcpOptions) (bytes : list Z) : option TcpOptions :=
  match fuel with
  | O => None
  | S fuel =>
      match bytes with
      | [] => Some result
      | kind :: rest =>
          if kind =? 0 then Some result else
          if kind =? 1 then parse_options_loop fuel result rest else
          let size := Z.of_nat (length bytes) in
          let len := Ethernet.byte_at bytes 1 in
          if (size <? 2) || (len <? 2) || (len >? size) then None else
          match option_step result kind (take (Z.to_nat len) bytes) with
          | None => None
          | Some result => parse_options_loop fuel result (drop (Z.to_nat len) bytes)
          end
      end
  end.

Definition parse_tcp_options (bytes : list Z) : option TcpOptions :=
  parse_options_loop (S (length bytes)) no_options bytes.

(** ** Packets *)

Record TcpView := mkView {
  view_ethernet : Ethernet.EthernetHeader; view_ip : Ethernet.Ipv4Header; view_tcp : TcpHeader;
  payload : list Z; options : TcpOptions;
}.

Definition parse_tcp (bytes : list Z) (local_ip : Ethernet.Ipv4Address) : option TcpView :=
  if Z.of_nat (length bytes) <? 54 then None else
  let ethernet := Ethernet.decode_ethernet (slice bytes 0 14) in
  let ip_bytes := drop 14 bytes in
  let ip := Ethernet.decode_ip (slice ip_bytes 0 20) in
  let ip_header_size := Z.land (Ethernet.version_ihl ip) 0x0f * 4 in
  let ip_size := Ethernet.net16 (Ethernet.total_length ip) in
  let available := Z.of_nat (length ip_bytes) in
  if negb (Ethernet.eth_type ethernet =? Ethernet.net16 0x0800) ||
     negb (Z.shiftr (Ethernet.version_ihl ip) 4 =? 4) ||
     (ip_header_size <? 20) || (ip_header_size >? available) || (ip_size <? ip_header_size + 20) ||
     (ip_size >? available) || negb (Ethernet.protocol ip =? 6) ||
     negb (Z.land (Ethernet.net16 (Ethernet.flags_fragment ip)) 0x3fff =? 0) ||
     negb (bool_decide (Ethernet.ip_destination ip = Ethernet.ip_octet local_ip)) ||
     negb (Ethernet.internet_checksum (take (Z.to_nat ip_header_size) ip_bytes) =? 0)
  then None else
  let tcp_bytes := slice ip_bytes (Z.to_nat ip_header_size) (Z.to_nat (ip_size - ip_header_size)) in
  let tcp := decode_tcp (slice tcp_bytes 0 20) in
  let tcp_header_size := Z.shiftr (data_offset tcp) 4 * 4 in
  if (tcp_header_size <? 20) || (tcp_header_size >? Z.of_nat (length tcp_bytes)) ||
     negb (tcp_checksum (Ethernet.ip_source ip) (Ethernet.ip_octet local_ip) tcp_bytes =? 0)
  then None else
  match parse_tcp_options (slice tcp_bytes 20 (Z.to_nat (tcp_header_size - 20))) with
  | None => None
  | Some options => Some (mkView ethernet ip tcp (drop (Z.to_nat tcp_header_size) tcp_bytes) options)
  end.

(** ** The option grammar *)

Inductive Opt :=
| opt_nop
| opt_mss (size : Z)
| opt_scale (shift : Z)
| opt_sack_permitted
| opt_sack (blocks : list Z)
| opt_timestamps (stamps : list Z)
| opt_other (kind : Z) (body : list Z).

#[global] Instance opt_eq_dec : EqDecision Opt.
Proof. solve_decision. Defined.

Definition framed (kind : Z) (body : list Z) : list Z := kind :: (2 + Z.of_nat (length body)) :: body.

Definition encode_opt (o : Opt) : list Z :=
  match o with
  | opt_nop => [1]
  | opt_mss v => framed 2 [v / 256; v mod 256]
  | opt_scale s => framed 3 [s]
  | opt_sack_permitted => framed 4 []
  | opt_sack b => framed 5 b
  | opt_timestamps b => framed 8 b
  | opt_other k b => framed k b
  end.

Definition opt_ok (o : Opt) : Prop :=
  match o with
  | opt_mss v => 0 < v < 65536
  | opt_sack b => b <> [] /\ Z.of_nat (length b) mod 8 = 0
  | opt_timestamps b => length b = 8%nat
  | opt_other k b => k ∉ [0; 1; 2; 3; 4; 5; 8]
  | _ => True
  end.

Definition mss_of (o : Opt) : list Z := match o with opt_mss v => [v] | _ => [] end.
Definition scale_of (o : Opt) : list Z := match o with opt_scale s => [Z.min s 14] | _ => [] end.

(** [r] is [r0] with the fields of the options [os]. *)
Definition extends (r0 r : TcpOptions) (os : list Opt) : Prop :=
  option_list (maximum_segment_size r) = option_list (maximum_segment_size r0) ++ concat (map mss_of os) /\
  option_list (window_scale r) = option_list (window_scale r0) ++ concat (map scale_of os).

Lemma extends_cons r0 r o os : extends r0 r (o :: os) <-> exists r1, extends r0 r1 [o] /\ extends r1 r os.
Proof.
  unfold extends. cbn. rewrite -> !app_nil_r. split.
  - intros [H1 H2]. 
    assert (forall (a b : option Z) x y, option_list a = option_list b ++ x ++ y -> length x <= 1 -> exists c, option_list c = option_list b ++ x)%nat as Hc.
    { intros a b x y E Hx. destruct b as [b|], x as [|x [|]]; cbn in *; try lia.
      - by exists (Some b).
      - by destruct a.
      - by exists None.
      - by exists (Some x). }
    destruct (Hc _ _ _ _ H1) as [m Hm]; [by destruct o; cbn; lia|].
    destruct (Hc _ _ _ _ H2) as [w Hw]; [by destruct o; cbn; lia|].
    exists (mkOptions m w). cbn. rewrite -> Hm, Hw, <- !app_assoc. done.
  - intros (r1 & [H1 H2] & [H3 H4]). rewrite -> H3, H4, H1, H2, <- !app_assoc. done.
Qed.

Lemma extends_same r0 r o : mss_of o = [] -> scale_of o = [] -> extends r0 r [o] <-> r = r0.
Proof.
  intros H1 H2. unfold extends. cbn. rw H1 H2. cbn. rewrite -> !app_nil_r. split; [|by intros ->].
  destruct r as [m w], r0 as [m0 w0]. cbn. intros [E1 E2].
  by destruct m, m0, w, w0; simplify_eq/=.
Qed.

(** The switch accepts exactly the well-formed options. *)
Lemma option_step_spec r0 kind body r :
  bytes_ok (framed kind body) -> kind <> 0 -> kind <> 1 ->
  option_step r0 kind (framed kind body) = Some r <->
  exists o, opt_ok o /\ encode_opt o = framed kind body /\ extends r0 r [o].
Proof.
  intros Hb H0 H1. apply Forall_cons in Hb as [Hk [Hl Hb]%Forall_cons].
  unfold option_step. assert (Z.of_nat (length (framed kind body)) = 2 + Z.of_nat (length body)) as -> by (cbn; lia).
  assert (forall o, encode_opt o = framed kind body -> match o with
    | opt_nop => False
    | opt_mss v => kind = 2 /\ body = [v / 256; v mod 256] | opt_scale s => kind = 3 /\ body = [s]
    | opt_sack_permitted => kind = 4 /\ body = [] | opt_sack b => kind = 5 /\ body = b
    | opt_timestamps b => kind = 8 /\ body = b | opt_other k b => kind = k /\ body = b end) as Hinv.
  { intros o. destruct o; cbn; unfold framed; intros E; simplify_eq/=; done. }
  assert (forall o, encode_opt o = framed kind body -> opt_ok o ->
    (kind = 2 -> exists v, o = opt_mss v) /\ (kind = 3 -> exists v, o = opt_scale v) /\
    (kind = 4 -> o = opt_sack_permitted) /\ (kind = 5 -> o = opt_sack body) /\ (kind = 8 -> o = opt_timestamps body) /\
    (kind ∉ [0; 1; 2; 3; 4; 5; 8] -> o = opt_other kind body)) as Hkind.
  { intros o E Ho. apply Hinv in E. destruct o; try done; cbn in Ho; destruct E as [-> ->];
      split_and!; intros; subst; try done; try (by eexists); set_solver. }
  destruct (Z.eqb_spec kind 2) as [->|N2].
  { destruct (Z.eqb_spec (2 + Z.of_nat (length body)) 4) as [Hn|Hn]; cbn [negb orb]; last first.
    { split; [done|]. intros (o & Ho & E & _). destruct (proj1 (Hkind o E Ho) eq_refl) as [v ->].
      apply Hinv in E as [_ ->]. by cbn in Hn. }
    destruct body as [|a [|b [|c d]]]; cbn in Hn; try lia.
    apply Forall_cons in Hb as [Ha [Hb _]%Forall_cons]. cbn [framed Ethernet.byte_at].
    change (Ethernet.byte_at (framed 2 [a; b]) 2) with a. change (Ethernet.byte_at (framed 2 [a; b]) 3) with b.
    assert (u16 (Z.lor (Z.shiftl a 8) b) = 256 * a + b) as ->.
    { rewrite -> lor_shiftl by (unfold in_u in *; lia). word. }
    split.
    - destruct (bool_decide _) eqn:Hd; [done|]. apply bool_decide_eq_false, dec_stable in Hd.
      destruct (Z.eqb_spec (256 * a + b) 0) as [|Hz]; [done|]. intros [= <-].
      exists (opt_mss (256 * a + b)). split_and!.
      + unfold in_u in *. cbn. lia.
      + cbn. unfold framed. repeat f_equal; word.
      + unfold extends. cbn. rw Hd. cbn. by rewrite -> !app_nil_r.
    - intros (o & Ho & E & Hx). destruct (proj1 (Hkind o E Ho) eq_refl) as [v ->].
      apply Hinv in E as [_ E]. injection E as -> ->. destruct Hx as [Hx1 Hx2]. cbn in Hx1, Hx2, Ho.
      assert (256 * (v / 256) + v mod 256 = v) as -> by (clear; word).
      destruct r as [m w], r0 as [m0 w0]. cbn in *. destruct m0 as [m0|]; [by destruct m|].
      destruct m as [m|]; [|done]. injection Hx1 as ->. rewrite -> (proj2 (Z.eqb_neq v 0)) by lia.
      rewrite -> app_nil_r in Hx2. by destruct w, w0; simplify_eq/=. }
  destruct (Z.eqb_spec kind 3) as [->|N3].
  { destruct (Z.eqb_spec (2 + Z.of_nat (length body)) 3) as [Hn|Hn]; cbn [negb orb]; last first.
    { split; [done|]. intros (o & Ho & E & _). destruct (proj1 (proj2 (Hkind o E Ho)) eq_refl) as [v ->].
      apply Hinv in E as [_ ->]. by cbn in Hn. }
    destruct body as [|a [|b d]]; cbn in Hn; try lia. change (Ethernet.byte_at (framed 3 [a]) 2) with a. split.
    - destruct (bool_decide _) eqn:Hd; [done|]. apply bool_decide_eq_false, dec_stable in Hd. intros [= <-].
      exists (opt_scale a). split_and!; [done|done|]. unfold extends. cbn. rw Hd. cbn. by rewrite -> !app_nil_r.
    - intros (o & Ho & E & Hx). destruct (proj1 (proj2 (Hkind o E Ho)) eq_refl) as [v ->].
      apply Hinv in E as [_ E]. injection E as ->. destruct Hx as [Hx1 Hx2]. cbn in Hx1, Hx2.
      destruct r as [m w], r0 as [m0 w0]. cbn in *. destruct w0 as [w0|]; [by destruct w|].
      destruct w as [w|]; [|done]. injection Hx2 as ->. rewrite -> app_nil_r in Hx1. by destruct m, m0; simplify_eq/=. }
  assert (forall (b : bool) (o : Opt), mss_of o = [] -> scale_of o = [] -> encode_opt o = framed kind body ->
    (b = false <-> opt_ok o) -> (forall o', encode_opt o' = framed kind body -> opt_ok o' -> o' = o) ->
    (if b then None else Some r0) = Some r <-> exists o, opt_ok o /\ encode_opt o = framed kind body /\ extends r0 r [o]) as Hplain.
  { intros b o Hm Hs He Hok Huniq. destruct b.
    - split; [done|]. intros (o' & Ho' & E & _). pose proof (Huniq o' E Ho') as ->. by apply Hok in Ho'.
    - split.
      + intros [= <-]. exists o. split_and!; [by apply Hok|done|by apply extends_same].
      + intros (o' & Ho' & E & Hx). pose proof (Huniq o' E Ho') as ->. rewrite -> extends_same in Hx by done. by subst. }
  destruct (Z.eqb_spec kind 4) as [->|N4].
  { destruct body as [|a body].
    - apply (Hplain false opt_sack_permitted); try done. intros o E Ho. by apply (Hkind o E Ho).
    - rewrite -> (proj2 (Z.eqb_neq _ _)) by (cbn; lia). split; [done|]. intros (o & Ho & E & _).
      pose proof (proj1 (proj2 (proj2 (Hkind o E Ho))) eq_refl) as ->. by apply Hinv in E as [_ E]. }
  destruct (Z.eqb_spec kind 5) as [->|N5].
  { apply (Hplain _ (opt_sack body)); try done; [|intros o E Ho; by apply (Hkind o E Ho)].
    cbn [opt_ok]. rewrite -> orb_false_iff, negb_false_iff, Z.ltb_ge, Z.eqb_eq.
    replace (2 + Z.of_nat (length body) - 2) with (Z.of_nat (length body)) by lia.
    destruct body as [|a body]; [split; [intros [H8 _]; cbn in H8; lia|by intros []]|]. cbn [length]. split; [|intros [_ H8]; split; [|done]; clear -H8; word].
    by intros [_ ?]. }
  destruct (Z.eqb_spec kind 8) as [->|N8].
  { apply (Hplain _ (opt_timestamps body)); try done; [|intros o E Ho; by apply (Hkind o E Ho)].
    cbn [opt_ok]. rewrite -> negb_false_iff, Z.eqb_eq. lia. }
  apply (Hplain false (opt_other kind body)); try done.
  - cbn. split; [intros _|done]. set_solver.
  - intros o E Ho. apply (Hkind o E Ho). set_solver.
Qed.

(** ** Option strings *)

Lemma framed_inv kind l n : (2 <= n <= length l)%nat -> l !! 0%nat = Some kind -> l !! 1%nat = Some (Z.of_nat n) ->
  take n l = framed kind (drop 2 (take n l)).
Proof.
  intros Hn H0 H1. destruct l as [|a [|b l]]; cbn in *; try lia. simplify_eq.
  destruct n as [|[|n]]; try lia. cbn. unfold framed. rewrite -> drop_0, length_take. repeat f_equal. lia.
Qed.

Definition padding (tail : list Z) : Prop := tail = [] \/ exists t, tail = 0 :: t.

Lemma encode_opt_head o : opt_ok o -> o <> opt_nop -> exists kind body, encode_opt o = framed kind body /\ kind <> 0 /\ kind <> 1.
Proof.
  intros Ho Hn. destruct o; try done; cbn in *; eexists _, _; (split; [reflexivity|]); try done. set_solver.
Qed.

Lemma parse_options_loop_spec fuel : forall r0 bytes r,
  bytes_ok bytes -> (length bytes < fuel)%nat ->
  parse_options_loop fuel r0 bytes = Some r <->
  exists os tail, bytes = concat (map encode_opt os) ++ tail /\ padding tail /\ Forall opt_ok os /\ extends r0 r os.
Proof.
  induction fuel as [|fuel IH]; intros r0 bytes r Hb Hf; [lia|]. cbn [parse_options_loop].
  assert (extends r0 r0 []) as Hrefl by (split; cbn; by rewrite app_nil_r).
  assert (forall r, extends r0 r [] -> r = r0) as Hnil.
  { intros [m w] [E1 E2]. destruct r0 as [m0 w0]. cbn in *. rewrite -> app_nil_r in E1, E2.
    by destruct m, m0, w, w0; simplify_eq/=. }
  destruct bytes as [|kind rest].
  { split; [intros [= <-]; exists [], []; by split_and!; try left|]. intros (os & tail & E & _ & _ & Hx).
    destruct os as [|o os]; [by rw (Hnil r Hx)|]. by destruct o. }
  destruct (Z.eqb_spec kind 0) as [->|N0].
  { split; [intros [= <-]; exists [], (0 :: rest); split_and!; try done; right; by eexists|].
    intros (os & tail & E & _ & Hok & Hx). destruct os as [|o os]; [by rw (Hnil r Hx)|].
    apply Forall_cons in Hok as [Ho _]. destruct (decide (o = opt_nop)) as [->|Hn]; [done|].
    destruct (encode_opt_head o Ho Hn) as (k & b & Eo & ? & _). cbn in E. rw Eo in E. cbn in E. by simplify_eq. }
  assert (forall os tail, kind :: rest = concat (map encode_opt os) ++ tail -> padding tail ->
    exists o os', os = o :: os' /\ kind :: rest = encode_opt o ++ concat (map encode_opt os') ++ tail) as Hhead.
  { intros [|o os] tail E Ht; [cbn in E; destruct Ht as [->|[t ->]]; by simplify_eq|].
    exists o, os. split; [done|]. cbn in E. by rewrite <- app_assoc in E. }
  cbn in Hf. apply Forall_cons in Hb as [Hk Hb]. destruct (Z.eqb_spec kind 1) as [->|N1].
  { rewrite -> IH by (done || lia). split.
    - intros (os & tail & -> & Ht & Hok & Hx). exists (opt_nop :: os), tail. split_and!; [done|done|by apply Forall_cons|].
      apply extends_cons. exists r0. split; [by apply extends_same|done].
    - intros (os & tail & E & Ht & Hok & Hx). destruct (Hhead os tail E Ht) as (o & os' & -> & E').
      apply Forall_cons in Hok as [Ho Hok]. destruct (decide (o = opt_nop)) as [->|Hn].
      + injection E' as ->. by exists os', tail.
      + destruct (encode_opt_head o Ho Hn) as (k & b & Eo & ? & ?). rewrite -> Eo in E'. by injection E' as <-. }
  set (len := Ethernet.byte_at (kind :: rest) 1).
  assert (forall os tail, kind :: rest = concat (map encode_opt os) ++ tail -> padding tail -> Forall opt_ok os ->
    extends r0 r os -> exists o os' body r1, encode_opt o = framed kind body /\ opt_ok o /\ Forall opt_ok os' /\
      len = 2 + Z.of_nat (length body) /\ kind :: rest = framed kind body ++ concat (map encode_opt os') ++ tail /\
      extends r0 r1 [o] /\ extends r1 r os') as Hfirst.
  { intros os tail E Ht Hok Hx. destruct (Hhead os tail E Ht) as (o & os' & -> & E').
    apply Forall_cons in Hok as [Ho Hok]. destruct (decide (o = opt_nop)) as [->|Hn]; [by injection E' as ->|].
    destruct (encode_opt_head o Ho Hn) as (k & b & Eo & _ & _). rewrite -> Eo in E'. pose proof E' as E2.
    injection E' as <- E'. apply extends_cons in Hx as (r1 & Hx1 & Hx).
    exists o, os', b, r1. split_and!; try done. unfold len. rewrite -> E2. done. }
  destruct ((Z.of_nat (length (kind :: rest)) <? 2) || (len <? 2) || (len >? Z.of_nat (length (kind :: rest)))) eqn:Hbad.
  { split; [done|]. intros (os & tail & E & Ht & Hok & Hx).
    destruct (Hfirst os tail E Ht Hok Hx) as (o & os' & body & r1 & _ & _ & _ & Hlen & E' & _).
    apply (f_equal length) in E'. cbn in E'. rewrite -> !length_app in E'. rw Z.gtb_ltb in Hbad.
    rewrite -> !orb_true_iff, !Z.ltb_lt in Hbad. cbn [length] in Hbad. lia. }
  rw Z.gtb_ltb in Hbad. rewrite -> !orb_false_iff, !Z.ltb_ge in Hbad. destruct Hbad as [[H2 Hl2] Hl].
  destruct rest as [|l2 rest]; [cbn in H2; lia|].
  subst len. change (Ethernet.byte_at (kind :: l2 :: rest) 1) with l2 in *. rename l2 into len.
  set (body := take (Z.to_nat len - 2) rest).
  assert (length body = (Z.to_nat len - 2)%nat) as Hbl by (unfold body; rewrite -> length_take; cbn in Hl; lia).
  assert (take (Z.to_nat len) (kind :: len :: rest) = framed kind body) as Htake.
  { replace (Z.to_nat len) with (S (S (Z.to_nat len - 2))) by lia. cbn. unfold framed. rewrite -> Hbl.
    fold body. repeat f_equal. lia. }
  assert (drop (Z.to_nat len) (kind :: len :: rest) = drop (Z.to_nat len - 2) rest) as Hdrop.
  { replace (Z.to_nat len) with (S (S (Z.to_nat len - 2))) at 1 by lia. done. }
  rewrite -> Htake, Hdrop. apply Forall_cons in Hb as [Hb1 Hb].
  assert (bytes_ok (framed kind body)) as Hfb.
  { apply Forall_cons; split; [done|]. apply Forall_cons; split; [unfold in_u in *; lia|]. by apply Forall_take. }
  assert (bytes_ok (drop (Z.to_nat len - 2) rest)) as Hdb by (by apply Forall_drop).
  assert (length (drop (Z.to_nat len - 2) rest) < fuel)%nat as Hdl by (rewrite -> length_drop; cbn in Hf; lia).
  assert (kind :: len :: rest = framed kind body ++ drop (Z.to_nat len - 2) rest) as Hsplit.
  { rewrite <- Htake, <- Hdrop. by rewrite take_drop. }
  split.
  - destruct (option_step r0 kind (framed kind body)) as [r1|] eqn:Hs; [|done].
    apply option_step_spec in Hs as (o & Ho & Eo & Hx1); [|done..].
    intros H. apply IH in H as (os & tail & E & Ht & Hok & Hx); [|done..].
    exists (o :: os), tail. cbn. rewrite -> Eo, <- app_assoc, <- E, <- Hsplit. split_and!; [done|done|by apply Forall_cons|].
    apply extends_cons. by exists r1.
  - intros (os & tail & E & Ht & Hok & Hx).
    destruct (Hfirst os tail E Ht Hok Hx) as (o & os' & body' & r1 & Eo & Ho & Hok' & Hlen & E' & Hx1 & Hx').
    rewrite -> Hsplit in E'. assert (length (framed kind body) = length (framed kind body')) as Hll by (cbn; lia).
    apply app_inj_1 in E' as [Ebody Erest]; [|done]. rewrite <- Ebody in Eo.
    rewrite -> (proj2 (option_step_spec r0 kind body r1 Hfb N0 N1)) by (by exists o).
    apply IH; [done..|]. by exists os', tail.
Qed.

(** The option parser accepts exactly the strings of well-framed options
    with at most one MSS, which is not zero, and at most one window scale,
    ended by the string's end or an end-of-list byte and arbitrary padding; it
    returns that MSS and that shift capped at 14.  It always terminates, having
    consumed at least one byte per iteration. *)
Theorem tcp_options_spec bytes r :
  bytes_ok bytes ->
  parse_tcp_options bytes = Some r <->
  exists os tail, bytes = concat (map encode_opt os) ++ tail /\ padding tail /\ Forall opt_ok os /\
    option_list (maximum_segment_size r) = concat (map mss_of os) /\
    option_list (window_scale r) = concat (map scale_of os).
Proof. intros Hb. apply parse_options_loop_spec; [done|lia]. Qed.

Lemma tcp_options_spec_witness :
  exists os tail, [2; 4; 5; 180; 1; 3; 3; 20; 0; 99] = concat (map encode_opt os) ++ tail /\ padding tail /\
    [1460] = concat (map mss_of os) /\ [14] = concat (map scale_of os).
Proof.
  destruct (proj1 (tcp_options_spec [2; 4; 5; 180; 1; 3; 3; 20; 0; 99] (mkOptions (Some 1460) (Some 14))
    ltac:(apply Ethernet.bytes_ok_check; vm_compute; reflexivity)) ltac:(vm_compute; reflexivity))
    as (os & tail & E & Hp & _ & Hm & Hs).
  exists os, tail. split_and!; [exact E|exact Hp|exact Hm|exact Hs].
Defined.

End Tcp.
