(* ===== verification/Stack.v ===== *)
(** * [network/stack.cpp]: the TCP/IP stack

    [BootstrapStack] is a record threaded through every method.  The network
    driver (drivers/net/net.hpp), the clock and the console it calls are the
    interface [Machine], whatever implements it.  A [SocketSlot&] parameter is
    the handle of the slot in the table, so that every write goes to the table
    as in the code. *)

From stdpp Require Import strings.
From S2P Require Import Prelude Ethernet Timing Interface Socket Tcp.
Import Socket.
Local Open Scope Z_scope.

(** What the stack calls outside itself. *)
Class Machine (W : Type) := {
  nic_initialize : W -> W * bool;
  nic_mac_address : W -> Ethernet.MacAddress;
  nic_receive : W -> W * option (list Z);
  nic_transmit : W -> list Z -> W * bool;
  time_ticks : W -> W * Z;
  write_text : W -> list Z -> W;
}.

Module Stack.

Inductive Reply := reply_none | reply_arp | reply_echo.

Abbreviation Transmissions := (list (option (TransmitKey * TransmitSegment))).

(** ** Segments on the wire *)

Definition transmit_buffer_size := 1536.
Definition syn_options : list Z := [2; 4; 0x05; 0xb4; 1; 3; 3; 0].

(** The options [send_segment] adds to a SYN. *)
Definition segment_options (socket : SocketSlot) (flags : Z) : list Z :=
  if Tcp.has flags Tcp.tcp_syn then take (if scale_negotiated socket then 8 else 4)%nat syn_options else [].

Definition segment_ip (socket : SocketSlot) (identification total : Z) : Ethernet.Ipv4Header :=
  let ip := Ethernet.mkIp 0x45 0 (Ethernet.net16 (u16 total)) (Ethernet.net16 identification) 0 64 6 0
    (Ethernet.ip_octet (endpoint_address (local socket))) (Ethernet.ip_octet (endpoint_address (remote socket))) in
  ip <| Ethernet.ip_checksum := Ethernet.net16 (Ethernet.internet_checksum (Ethernet.encode_ip ip)) |>.

Definition segment_tcp (socket : SocketSlot) (flags sequence header_size : Z) : Tcp.TcpHeader :=
  Tcp.mkTcp (Ethernet.net16 (port (local socket))) (Ethernet.net16 (port (remote socket)))
    (Tcp.net32 sequence) (Tcp.net32 (receive_next socket)) (u8 (Z.shiftl (header_size / 4) 4)) flags
    (if Tcp.has flags Tcp.tcp_rst then 0
     else Ethernet.net16 (u16 (socket_receive_capacity - size (receive_buffer socket)))) 0 0.

(** The frame [send_segment] leaves in its buffer. *)
Definition build_segment (mac : Ethernet.MacAddress) (identification : Z) (socket : SocketSlot)
    (flags : Z) (payload : list Z) (sequence : Z) : list Z :=
  let options := segment_options socket flags in
  let tcp_header_size := 20 + size options in
  let ethernet := Ethernet.mkEthernet (Ethernet.mac_octet (remote_mac socket)) (Ethernet.mac_octet mac)
    (Ethernet.net16 0x0800) in
  let ip := segment_ip socket identification (20 + tcp_header_size + size payload) in
  let tcp := segment_tcp socket flags sequence tcp_header_size in
  let tcp_bytes := Tcp.encode_tcp tcp ++ options ++ payload in
  let tcp := tcp <| Tcp.checksum := Ethernet.net16
    (Tcp.tcp_checksum (Ethernet.ip_octet (endpoint_address (local socket)))
       (Ethernet.ip_octet (endpoint_address (remote socket))) tcp_bytes) |> in
  Ethernet.encode_ethernet ethernet ++ Ethernet.encode_ip ip ++ patch tcp_bytes 0 (Tcp.encode_tcp tcp).

Definition segment_fits (socket : SocketSlot) (flags : Z) (payload : list Z) : bool :=
  size payload <=? transmit_buffer_size - (54 + size (segment_options socket flags)).

(** ** Arithmetic on one socket *)

Definition send_space (socket : SocketSlot) : Z :=
  let flight := u32 (send_next socket - send_unacknowledged socket) in
  let limit := Z.min (peer_window socket) (congestion_window socket) in
  if flight <? limit then limit - flight else 0.

Definition update_rtt (socket : SocketSlot) (sample : Z) : SocketSlot :=
  let socket :=
    if negb (rtt_measured socket)
    then socket <| smoothed_rtt := sample |> <| rtt_variance := sample / 2 |> <| rtt_measured := true |>
    else
      let error := if smoothed_rtt socket >? sample then smoothed_rtt socket - sample
                   else sample - smoothed_rtt socket in
      socket <| rtt_variance ::= fun v => u64 (u64 (3 * v) + error) / 4 |>
             <| smoothed_rtt ::= fun v => u64 (u64 (7 * v) + sample) / 8 |> in
  socket <| rto := Z.min (Z.max (u64 (smoothed_rtt socket + Z.max 1 (u64 (4 * rtt_variance socket))))
                             Timing.tcp_initial_rto) Timing.tcp_max_rto |>.

Definition of_handle (handle : SocketHandle) (e : option (TransmitKey * TransmitSegment)) : bool :=
  match e with Some (key, _) => Nat.eqb (transmit_handle key) handle | None => false end.

Definition drop_transmissions (handle : SocketHandle) (q : Transmissions) : Transmissions :=
  map (fun e => if of_handle handle e then None else e) q.

(** The congestion window after an advance of the acknowledgement. *)
Definition congestion_ack (socket : SocketSlot) (newly_acked : Z) : SocketSlot :=
  let socket := socket <| duplicate_acks := 0 |> in
  let socket :=
    if fast_recovery socket
    then socket <| congestion_window := slow_start_threshold socket |> <| fast_recovery := false |>
    else if congestion_window socket <? slow_start_threshold socket
    then socket <| congestion_window ::= fun w => u32 (w + Z.min newly_acked (peer_mss socket)) |>
    else
      let socket := socket <| congestion_credit ::= fun c => u32 (c + newly_acked) |> in
      if congestion_credit socket >=? congestion_window socket
      then socket <| congestion_credit ::= fun c => u32 (c - congestion_window socket) |>
                  <| congestion_window ::= fun w => u32 (w + peer_mss socket) |>
      else socket in
  socket <| congestion_window ::= fun w => Z.min w (Z.of_nat transmit_capacity * transmit_segment_capacity) |>.

(** The scan of the queue by [acknowledge_transmissions]: acknowledged segments
    are freed, a partially acknowledged one loses its front, and the first one
    freed is timed when nothing had been retransmitted. *)
Fixpoint acknowledge_scan (handle : SocketHandle) (ack now : Z) (retransmitted : bool)
    (socket : SocketSlot) (sampled : bool) (q : Transmissions) : SocketSlot * Transmissions :=
  match q with
  | [] => (socket, [])
  | e :: q =>
      match e with
      | Some (key, pending) =>
          let acknowledged := u32 (ack - transmit_sequence key) in
          if negb (Nat.eqb (transmit_handle key) handle) || (i32 acknowledged <=? 0) then
            let '(socket, q) := acknowledge_scan handle ack now retransmitted socket sampled q in
            (socket, e :: q)
          else if acknowledged >=? size (segment_data pending) then
            let sample := negb retransmitted && negb sampled in
            let socket := if sample then update_rtt socket (u64 (now - first_sent pending)) else socket in
            let '(socket, q) := acknowledge_scan handle ack now retransmitted socket (sampled || sample) q in
            (socket, None :: q)
          else
            let pending := pending <| segment_data ::= drop (Z.to_nat acknowledged) |> in
            let '(socket, q) := acknowledge_scan handle ack now retransmitted socket sampled q in
            (socket, Some (mkTransmitKey (transmit_handle key) ack, pending) :: q)
      | None =>
          let '(socket, q) := acknowledge_scan handle ack now retransmitted socket sampled q in
          (socket, None :: q)
      end
  end.

Definition restart_timers (handle : SocketHandle) (rto now : Z) (q : Transmissions) : Transmissions :=
  map (fun e => match e with
                | Some (key, pending) =>
                    if Nat.eqb (transmit_handle key) handle
                    then Some (key, pending <| delay := rto |> <| retry_at := u64 (now + rto) |>)
                    else e
                | None => None
                end) q.

Definition retransmitted (handle : SocketHandle) (q : Transmissions) : bool :=
  existsb (fun e => match e with
                    | Some (key, pending) => Nat.eqb (transmit_handle key) handle && (attempts pending >? 1)
                    | None => false
                    end) q.

Definition acknowledge (handle : SocketHandle) (ack now : Z) (socket : SocketSlot) (q : Transmissions)
    : SocketSlot * Transmissions :=
  if i32 (u32 (ack - send_unacknowledged socket)) <=? 0 then (socket, q) else
  let socket := congestion_ack socket (u32 (ack - send_unacknowledged socket)) in
  let '(socket, q) := acknowledge_scan handle ack now (retransmitted handle q) socket false q in
  let socket := socket <| send_unacknowledged := ack |> <| progress_at := now |> in
  (socket, restart_timers handle (rto socket) now q).

Section stack.
Context {W : Type} {machine : Machine W}.

Record BootstrapStack := mkStack {
  world : W;
  state_ : Interface.InterfaceState;
  sockets : SocketTable;
  transmissions : Transmissions;
  next_sequence : Z;
  next_identification : Z;
  now : Z;
  challenge_epoch : Z;
  challenges : Z;
  retry_cursor : nat;
  initialized : bool;
  arp_replied : bool;
  echo_replied : bool;
}.
#[local] Instance stack_eta : Eta BootstrapStack := fun s =>
  mkStack (world s) (state_ s) (sockets s) (transmissions s) (next_sequence s) (next_identification s) (now s)
    (challenge_epoch s) (challenges s) (retry_cursor s) (initialized s) (arp_replied s) (echo_replied s).

Definition boot (w : W) : BootstrapStack :=
  mkStack w Interface.initial Socket.initial (replicate transmit_capacity None) 0x4d494b4f 1 0 0 0 0 false false false.

(** [*sockets_.slot(handle)] where the code knows the slot exists. *)
Definition socket_at (s : BootstrapStack) (handle : SocketHandle) : SocketSlot :=
  default slot_default (slots (sockets s) !! handle).
Definition modify (s : BootstrapStack) (handle : SocketHandle) (f : SocketSlot -> SocketSlot) : BootstrapStack :=
  s <| sockets ::= fun t => t <| slots ::= alter f handle |> |>.

Definition print (s : BootstrapStack) (text : list Z) : BootstrapStack := s <| world ::= fun w => write_text w text |>.
Definition stamp (s : BootstrapStack) : BootstrapStack :=
  let '(w, ticks) := time_ticks (world s) in s <| world := w |> <| now := ticks |>.

(** ** Sending *)

Definition send_segment (s : BootstrapStack) (socket : SocketSlot) (flags : Z) (payload : list Z) (sequence : Z)
    : BootstrapStack * bool :=
  if negb (segment_fits socket flags payload) then (s, false) else
  let frame := build_segment (Interface.mac (state_ s)) (next_identification s) socket flags payload sequence in
  let s := s <| next_identification ::= fun i => u16 (i + 1) |> in
  let '(w, sent) := nic_transmit (world s) frame in
  (s <| world := w |>, sent).

Definition set_transmission (s : BootstrapStack) (i : nat) (e : option (TransmitKey * TransmitSegment)) : BootstrapStack :=
  s <| transmissions ::= <[i := e]> |>.

Definition queue_transmission (s : BootstrapStack) (handle : SocketHandle) (flags : Z) (payload : list Z) (sequence : Z)
    : BootstrapStack * bool :=
  let key := mkTransmitKey handle sequence in
  if (size payload >? transmit_segment_capacity) ||
     existsb (fun e => match e with Some (k, _) => bool_decide (k = key) | None => false end) (transmissions s)
  then (s, false) else
  match first_slot (fun e => match e with None => true | Some _ => false end) (transmissions s) with
  | None => (s, false)
  | Some i =>
      let pending := mkTransmit 0 Timing.tcp_initial_rto 0 false flags 0 payload in
      let s := set_transmission s i (Some (key, pending)) in
      let '(s, sent) := send_segment s (socket_at s handle) flags payload sequence in
      if negb sent then (set_transmission s i None, false) else
      let delay := rto (socket_at s handle) in
      (set_transmission s i
         (Some (key, mkTransmit (u64 (now s + delay)) delay (now s) false flags 1 payload)), true)
  end.

Definition clear_transmissions (s : BootstrapStack) (handle : SocketHandle) : BootstrapStack :=
  s <| transmissions ::= drop_transmissions handle |>.

Definition acknowledge_transmissions (s : BootstrapStack) (handle : SocketHandle) (ack : Z) : BootstrapStack :=
  let '(socket, q) := acknowledge handle ack (now s) (socket_at s handle) (transmissions s) in
  modify (s <| transmissions := q |>) handle (fun _ => socket).

Definition table_release (s : BootstrapStack) (handle : SocketHandle) : BootstrapStack * Result.SocketResult :=
  let '(t, result) := release (sockets s) handle in (s <| sockets := t |>, result).

Definition fail_connection (s : BootstrapStack) (handle : SocketHandle) : BootstrapStack :=
  match slot (sockets s) handle with
  | None => s
  | Some socket =>
      let s := clear_transmissions s handle in
      let s := if bool_decide (state socket <> State.syn_received)
               then (send_segment s socket (Z.lor Tcp.tcp_rst Tcp.tcp_ack) [] (send_next socket)).1 else s in
      if negb (accepted socket) || detached socket then (table_release s handle).1
      else s <| sockets ::= fun t => reset t handle Result.timed_out |>
  end.

Definition send_fin (s : BootstrapStack) (handle : SocketHandle) : BootstrapStack :=
  let socket := socket_at s handle in
  if negb (fin_sent socket) &&
     (negb (send_unacknowledged socket =? send_next socket) || (peer_window socket =? 0))
  then s else
  let sequence := if fin_sent socket then u32 (send_next socket - 1) else send_next socket in
  let '(s, sent) := send_segment s socket (Z.lor Tcp.tcp_fin Tcp.tcp_ack) [] sequence in
  modify s handle (fun socket =>
    if sent then
      let socket := if negb (fin_sent socket)
                    then socket <| send_next ::= fun n => u32 (n + 1) |> <| fin_sent := true |> else socket in
      socket <| control_retry_at := u64 (now s + control_delay socket) |>
             <| control_delay ::= Timing.backoff |>
    else socket <| control_retry_at := u64 (now s + Timing.tcp_driver_retry) |>).

Definition request_fin (s : BootstrapStack) (handle : SocketHandle) : BootstrapStack :=
  if send_closed (socket_at s handle) then s else
  send_fin (modify s handle (fun socket =>
    let active := negb (receive_closed socket) in
    socket <| send_closed := true |> <| active_close := active |>
           <| state := if active then State.fin_wait_1 else State.last_ack |>
           <| state_since := now s |> <| control_retry_at := now s |> <| control_delay := rto socket |>)) handle.

Definition enter_time_wait (s : BootstrapStack) (handle : SocketHandle) : BootstrapStack :=
  modify s handle (fun socket => socket <| state := State.time_wait |> <| state_since := now s |>).

(** ** Timers *)

Definition flush_acknowledgement (s : BootstrapStack) (handle : SocketHandle) : BootstrapStack :=
  let socket := socket_at s handle in
  if (acknowledgement_retries socket =? 0) ||
     (negb (is_connection (state socket)) || bool_decide (state socket = State.syn_received) ||
      bool_decide (state socket = State.reset))
  then s else
  let '(s, sent) := send_segment s socket Tcp.tcp_ack [] (send_next socket) in
  if sent then modify s handle (fun socket => socket <| acknowledgement_retries ::= fun n => u8 (n - 1) |>) else s.

Definition flush_acknowledgements (s : BootstrapStack) : BootstrapStack :=
  fold_left flush_acknowledgement (seq 0 socket_capacity) s.

(** The tail of [flush_timers] for an open connection: FIN and window probes. *)
Definition flush_control (s : BootstrapStack) (handle : SocketHandle) : BootstrapStack :=
  let socket := socket_at s handle in
  let s := if send_closed socket && negb (fin_acked socket) &&
              Timing.deadline_reached (now s) (control_retry_at socket)
           then send_fin s handle else s in
  let socket := socket_at s handle in
  if persist_waiting socket && (peer_window socket =? 0) &&
     Timing.deadline_reached (now s) (persist_retry_at socket)
  then
    let '(s, sent) := send_segment s socket Tcp.tcp_ack [] (u32 (send_unacknowledged socket - 1)) in
    modify s handle (fun socket =>
      if sent then
        let socket := socket <| persist_delay ::= Timing.backoff |> in
        socket <| persist_retry_at := u64 (now s + persist_delay socket) |>
      else socket <| persist_retry_at := u64 (now s + Timing.tcp_driver_retry) |>)
  else s.

Definition flush_syn (s : BootstrapStack) (handle : SocketHandle) : BootstrapStack :=
  let socket := socket_at s handle in
  if u64 (now s - opened_at socket) >=? Timing.tcp_syn_timeout then fail_connection s handle else
  if Timing.deadline_reached (now s) (control_retry_at socket) then
    let '(s, sent) := send_segment s socket (Z.lor Tcp.tcp_syn Tcp.tcp_ack) [] (u32 (send_next socket - 1)) in
    modify s handle (fun socket =>
      if sent then
        socket <| congestion_window := peer_mss socket |> <| rto := 3 * Timing.tcp_second |>
               <| control_retry_at := u64 (now s + control_delay socket) |>
               <| control_delay ::= Timing.backoff |>
      else socket <| control_retry_at := u64 (now s + Timing.tcp_driver_retry) |>)
  else s.

(** One iteration of the loop of [flush_timers]. *)
Definition flush_timer (s : BootstrapStack) (handle : SocketHandle) : BootstrapStack :=
  let socket := socket_at s handle in
  if negb (is_connection (state socket)) || bool_decide (state socket = State.reset) then s else
  if bool_decide (state socket = State.time_wait) then
    if u64 (now s - state_since socket) >=? Timing.tcp_time_wait then
      if detached socket then (table_release s handle).1
      else modify s handle (fun socket => socket <| state := State.closed |>)
    else s
  else if bool_decide (state socket = State.syn_received) then flush_syn s handle
  else if (negb (send_unacknowledged socket =? send_next socket) || persist_waiting socket) &&
          (u64 (now s - progress_at socket) >=? Timing.tcp_user_timeout)
  then fail_connection s handle
  else if send_closed socket && negb (fin_acked socket) &&
          (u64 (now s - state_since socket) >=? Timing.tcp_user_timeout)
  then fail_connection s handle
  else if bool_decide (state socket = State.fin_wait_2) && detached socket &&
          (u64 (now s - state_since socket) >=? Timing.tcp_fin_wait_timeout)
  then fail_connection s handle
  else flush_control s handle.

Definition flush_timers (s : BootstrapStack) : BootstrapStack :=
  fold_left flush_timer (seq 0 socket_capacity) s.

Definition retry_segment (s : BootstrapStack) (index : nat) (key : TransmitKey) (pending : TransmitSegment)
    : BootstrapStack :=
  let handle := transmit_handle key in
  let socket := socket_at s handle in
  let count := Z.min (size (segment_data pending)) (Z.max 1 (peer_window socket)) in
  let '(s, sent) := send_segment s socket (segment_flags pending) (take (Z.to_nat count) (segment_data pending))
                      (transmit_sequence key) in
  if sent then
    let pending := pending <| attempts ::= fun n => Z.min (n + 1) 255 |> in
    let s := if negb (fast_retry pending) && negb (peer_window socket =? 0)
             then modify s handle (fun socket =>
                    socket <| slow_start_threshold :=
                                Z.max (u32 (send_next socket - send_unacknowledged socket) / 2) (u32 (2 * peer_mss socket)) |>
                           <| congestion_window := peer_mss socket |> <| congestion_credit := 0 |>
                           <| fast_recovery := false |> <| duplicate_acks := 0 |>)
             else s in
    let pending := if negb (fast_retry pending) then pending <| delay ::= Timing.backoff |> else pending in
    let pending := pending <| fast_retry := false |> in
    set_transmission s index (Some (key, pending <| retry_at := u64 (now s + delay pending) |>))
  else set_transmission s index (Some (key, pending <| retry_at := u64 (now s + Timing.tcp_driver_retry) |>)).

(** The loop of [flush_retransmission] from [checked] on, [n] slots left. *)
Fixpoint retransmission_scan (s : BootstrapStack) (checked : nat) (n : nat) : BootstrapStack :=
  match n with
  | O => s
  | S n =>
      let index := ((retry_cursor s + checked) mod transmit_capacity)%nat in
      match transmissions s !! index with
      | Some (Some (key, pending)) =>
          match slot (sockets s) (transmit_handle key) with
          | None => retransmission_scan (set_transmission s index None) (S checked) n
          | Some socket =>
              if bool_decide (state socket = State.reset)
              then retransmission_scan (set_transmission s index None) (S checked) n
              else if negb (transmit_sequence key =? send_unacknowledged socket) ||
                      negb (Timing.deadline_reached (now s) (retry_at pending))
              then retransmission_scan s (S checked) n
              else retry_segment s index key pending <| retry_cursor := ((index + 1) mod transmit_capacity)%nat |>
          end
      | _ => retransmission_scan s (S checked) n
      end
  end.

Definition flush_retransmission (s : BootstrapStack) : BootstrapStack :=
  retransmission_scan s 0 transmit_capacity.

(** ** Incoming segments *)

Definition allow_control_reply (s : BootstrapStack) : BootstrapStack * bool :=
  let s := if u64 (now s - challenge_epoch s) >=? Timing.tcp_second
           then s <| challenge_epoch := now s |> <| challenges := 0 |> else s in
  if challenges s >=? 100 then (s, false) else (s <| challenges ::= fun n => n + 1 |>, true).

Definition challenge_ack (s : BootstrapStack) (handle : SocketHandle) : BootstrapStack :=
  let '(s, allowed) := allow_control_reply s in
  if negb allowed then s else
  flush_acknowledgement (modify s handle (fun socket => socket <| acknowledgement_retries := 1 |>)) handle.

Definition b2u (b : bool) : Z := if b then 1 else 0.

(** A segment for no connection and no acceptable listener is answered by RST. *)
Definition reject_segment (s : BootstrapStack) (view : Tcp.TcpView) (l r : Endpoint) (mac : Ethernet.MacAddress)
    (sequence ack : Z) : BootstrapStack :=
  let flags := Tcp.flags (Tcp.view_tcp view) in
  let '(s, allowed) := allow_control_reply s in
  if negb allowed then s else
  let rejected := slot_default <| local := l |> <| remote := r |> <| remote_mac := mac |> in
  if Tcp.has flags Tcp.tcp_ack then (send_segment s rejected Tcp.tcp_rst [] ack).1
  else
    let rejected := rejected <| receive_next :=
      u32 (sequence + size (Tcp.payload view) + b2u (Tcp.has flags Tcp.tcp_syn) + b2u (Tcp.has flags Tcp.tcp_fin)) |> in
    (send_segment s rejected (Z.lor Tcp.tcp_rst Tcp.tcp_ack) [] 0).1.

Definition start_connection (s : BootstrapStack) (view : Tcp.TcpView) (listening : SocketHandle) (l r : Endpoint)
    (mac : Ethernet.MacAddress) (sequence : Z) : BootstrapStack :=
  let flags := Tcp.flags (Tcp.view_tcp view) in
  if negb (Z.land flags (Z.lor (Z.lor Tcp.tcp_syn Tcp.tcp_ack) Tcp.tcp_fin) =? Tcp.tcp_syn) then s else
  let '(t, started) := begin_connection (sockets s) listening l r mac sequence (next_sequence s) in
  let s := s <| sockets := t |> in
  if bool_decide (open_result started <> Result.success) then s else
  let s := s <| next_sequence ::= fun n => u32 (n + 0x10001) |> in
  let handle := open_handle started in
  let mss := Z.min (default 536 (Tcp.maximum_segment_size (Tcp.options view))) transmit_segment_capacity in
  let s := modify s handle (fun socket =>
    socket <| opened_at := now s |> <| progress_at := now s |>
           <| peer_window := Ethernet.net16 (Tcp.window (Tcp.view_tcp view)) |>
           <| peer_mss := mss |> <| congestion_window := u32 (4 * mss) |>
           <| scale_negotiated := bool_decide (Tcp.window_scale (Tcp.options view) <> None) |>
           <| peer_scale := default 0 (Tcp.window_scale (Tcp.options view)) |>) in
  let socket := socket_at s handle in
  let '(s, sent) := send_segment s socket (Z.lor Tcp.tcp_syn Tcp.tcp_ack) [] (u32 (send_next socket - 1)) in
  modify s handle (fun socket =>
    socket <| control_retry_at := u64 (now s + (if sent then rto socket else Timing.tcp_driver_retry)) |>
           <| control_delay := if sent then Timing.backoff (rto socket) else rto socket |>).

Definition handle_reset (s : BootstrapStack) (handle : SocketHandle) (sequence : Z) : BootstrapStack :=
  let socket := socket_at s handle in
  if bool_decide (state socket = State.time_wait) then s else
  if sequence =? receive_next socket then
    let s := clear_transmissions s handle in
    if detached socket || negb (accepted socket) then (table_release s handle).1
    else s <| sockets ::= fun t => reset t handle Result.reset |>
  else if (i32 (u32 (sequence - receive_next socket)) >? 0) &&
          (u32 (sequence - receive_next socket) <? socket_receive_capacity)
  then challenge_ack s handle
  else s.

(** Three duplicate acknowledgements start fast recovery. *)
Definition fast_retransmit (s : BootstrapStack) (handle : SocketHandle) (ack : Z) : BootstrapStack :=
  let s := modify s handle (fun socket =>
    let socket := socket <| slow_start_threshold :=
      Z.max (u32 (send_next socket - ack) / 2) (u32 (2 * peer_mss socket)) |> in
    socket <| congestion_window := u32 (slow_start_threshold socket + u32 (3 * peer_mss socket)) |>
           <| fast_recovery := true |>) in
  s <| transmissions ::= map (fun e => match e with
    | Some (key, pending) =>
        if Nat.eqb (transmit_handle key) handle && (transmit_sequence key =? ack)
        then Some (key, pending <| fast_retry := true |> <| retry_at := now s |>) else e
    | None => None
    end) |>.

Definition count_duplicate (s : BootstrapStack) (handle : SocketHandle) (ack length advertised : Z) : BootstrapStack :=
  let socket := socket_at s handle in
  if (ack =? send_unacknowledged socket) && negb (send_next socket =? ack) && (length =? 0) &&
     (advertised =? peer_window socket) && negb (fin_sent socket) && negb (advertised =? 0)
  then
    let s := modify s handle (fun socket =>
      if duplicate_acks socket <? 255 then socket <| duplicate_acks ::= fun n => n + 1 |> else socket) in
    if duplicate_acks (socket_at s handle) =? 3 then fast_retransmit s handle ack else s
  else modify s handle (fun socket => socket <| duplicate_acks := 0 |>).

Definition update_window (now : Z) (socket : SocketSlot) (sequence ack advertised : Z) : SocketSlot :=
  if (i32 (u32 (sequence - window_sequence socket)) >? 0) ||
     ((sequence =? window_sequence socket) && (i32 (u32 (ack - window_acknowledgement socket)) >=? 0))
  then
    let socket := socket <| peer_window := advertised |> <| window_sequence := sequence |>
                         <| window_acknowledgement := ack |> in
    let socket :=
      if (peer_window socket =? 0) && negb (send_next socket =? send_unacknowledged socket) &&
         negb (persist_waiting socket)
      then socket <| persist_waiting := true |> <| persist_delay := rto socket |>
                  <| persist_retry_at := u64 (now + rto socket) |>
      else socket in
    if persist_waiting socket then
      let socket := socket <| progress_at := now |> in
      if negb (peer_window socket =? 0) then socket <| persist_waiting := false |> else socket
    else socket
  else socket.

(** The acknowledgement field of a segment. *)
Definition process_ack (s : BootstrapStack) (handle : SocketHandle) (view : Tcp.TcpView) (sequence ack length : Z)
    : BootstrapStack :=
  let socket := socket_at s handle in
  if i32 (u32 (ack - send_unacknowledged socket)) >=? 0 then
    let advertised := u32 (Z.shiftl (Ethernet.net16 (Tcp.window (Tcp.view_tcp view))) (peer_scale socket)) in
    let s := count_duplicate s handle ack length advertised in
    let s := acknowledge_transmissions s handle ack in
    modify s handle (fun socket => update_window (now s) socket sequence ack advertised)
  else s.

(** Our FIN acknowledged: [None] when the connection is gone. *)
Definition process_fin_ack (s : BootstrapStack) (handle : SocketHandle) (ack : Z) : BootstrapStack * bool :=
  let socket := socket_at s handle in
  if fin_sent socket && (ack =? send_next socket) then
    let s := modify s handle (fun socket => socket <| fin_acked := true |>) in
    if receive_closed socket then
      if active_close socket then (enter_time_wait s handle, true)
      else if detached socket then ((table_release s handle).1, false)
      else (s, true)
    else if bool_decide (state socket = State.fin_wait_1)
    then (modify s handle (fun socket => socket <| state := State.fin_wait_2 |> <| state_since := now s |>), true)
    else (s, true)
  else (s, true).

Definition process_data (s : BootstrapStack) (handle : SocketHandle) (view : Tcp.TcpView) (sequence : Z) : BootstrapStack :=
  let finish := Tcp.has (Tcp.flags (Tcp.view_tcp view)) Tcp.tcp_fin in
  if negb (size (Tcp.payload view) =? 0) || finish then
    let was_closed := receive_closed (socket_at s handle) in
    let s := s <| sockets ::= fun t => (receive t handle sequence (Tcp.payload view) finish).1 |> in
    let s := if negb was_closed && receive_closed (socket_at s handle) && fin_acked (socket_at s handle)
             then enter_time_wait s handle else s in
    let s := if read_closed (socket_at s handle)
             then modify s handle (fun socket => socket <| receive_buffer := [] |>) else s in
    flush_acknowledgement (modify s handle (fun socket => socket <| acknowledgement_retries := 1 |>)) handle
  else s.

(** RFC 793's acceptability test; [distance] is a signed offset. *)
Definition segment_acceptable (socket : SocketSlot) (distance length : Z) : bool :=
  let window := u32 (socket_receive_capacity - size (receive_buffer socket)) in
  if length =? 0 then (distance =? 0) || ((distance >? 0) && (distance <? window))
  else negb (window =? 0) && (distance <? window) && (distance + length >? 0).

(** A segment of a synchronised connection, from the [ACK] check on. *)
Definition handle_synchronised (s : BootstrapStack) (handle : SocketHandle) (view : Tcp.TcpView)
    (sequence ack : Z) : BootstrapStack :=
  let flags := Tcp.flags (Tcp.view_tcp view) in
  let socket := socket_at s handle in
  if negb (Tcp.has flags Tcp.tcp_ack) then s else
  let distance := i32 (u32 (sequence - receive_next socket)) in
  let length := u32 (size (Tcp.payload view) + b2u (Tcp.has flags Tcp.tcp_fin)) in
  if negb (segment_acceptable socket distance length) then challenge_ack s handle else
  if i32 (u32 (ack - send_next socket)) >? 0 then challenge_ack s handle else
  let s := process_ack s handle view sequence ack length in
  let '(s, alive) := process_fin_ack s handle ack in
  if negb alive then s else
  let s := process_data s handle view sequence in
  if send_closed (socket_at s handle) && negb (fin_sent (socket_at s handle)) then send_fin s handle else s.

Definition handle_connection (s : BootstrapStack) (handle : SocketHandle) (view : Tcp.TcpView)
    (sequence ack : Z) : BootstrapStack :=
  let flags := Tcp.flags (Tcp.view_tcp view) in
  match slot (sockets s) handle with
  | None => s
  | Some socket =>
      if bool_decide (state socket = State.reset) then s else
      if Tcp.has flags Tcp.tcp_rst then handle_reset s handle sequence else
      if bool_decide (state socket = State.time_wait) then
        if Tcp.has flags Tcp.tcp_fin && (u32 (sequence + size (Tcp.payload view) + 1) =? receive_next socket)
        then challenge_ack (modify s handle (fun socket => socket <| state_since := now s |>)) handle
        else s
      else if bool_decide (state socket = State.syn_received) then
        if (Z.land flags (Z.lor (Z.lor Tcp.tcp_syn Tcp.tcp_fin) Tcp.tcp_ack) =? Tcp.tcp_syn) &&
           (u32 (sequence + 1) =? receive_next socket)
        then (send_segment s socket (Z.lor Tcp.tcp_syn Tcp.tcp_ack) [] (u32 (send_next socket - 1))).1
        else if negb (Z.land flags (Z.lor Tcp.tcp_ack Tcp.tcp_syn) =? Tcp.tcp_ack) ||
                negb (sequence =? receive_next socket)
        then s
        else
          let '(t, result) := establish (sockets s) handle ack in
          let s := s <| sockets := t |> in
          if bool_decide (result <> Result.success) then s
          else handle_synchronised s handle view sequence ack
      else if Tcp.has flags Tcp.tcp_syn then challenge_ack s handle
      else handle_synchronised s handle view sequence ack
  end.

Definition handle_tcp (s : BootstrapStack) (frame : list Z) : BootstrapStack :=
  match Tcp.parse_tcp frame (Interface.address (state_ s)) with
  | None => s
  | Some view =>
      let l := mkEndpoint (Interface.address (state_ s)) (Ethernet.net16 (Tcp.destination_port (Tcp.view_tcp view))) in
      let r := mkEndpoint (Ethernet.mkIpv4 (Ethernet.ip_source (Tcp.view_ip view)))
                 (Ethernet.net16 (Tcp.source_port (Tcp.view_tcp view))) in
      let sequence := Tcp.net32 (Tcp.sequence (Tcp.view_tcp view)) in
      let ack := Tcp.net32 (Tcp.acknowledgement (Tcp.view_tcp view)) in
      let flags := Tcp.flags (Tcp.view_tcp view) in
      let handle := connection (sockets s) l r in
      if Nat.eqb handle invalid_socket then
        if Tcp.has flags Tcp.tcp_rst then s else
        let listening := listener (sockets s) l in
        let mac := Ethernet.mkMac (Ethernet.eth_source (Tcp.view_ethernet view)) in
        if Nat.eqb listening invalid_socket || Tcp.has flags Tcp.tcp_ack
        then reject_segment s view l r mac sequence ack
        else start_connection s view listening l r mac sequence
      else handle_connection s handle view sequence ack
  end.

(** [handle]: the frame is answered in place by ARP or ICMP, or given to TCP. *)
Definition handle_frame (s : BootstrapStack) (frame : list Z) : BootstrapStack * Reply :=
  let mac := Interface.mac (state_ s) in
  let address := Interface.address (state_ s) in
  let '(arp, arp_size) := Ethernet.make_arp_reply frame mac address in
  if negb (arp_size =? 0) then
    let '(w, sent) := nic_transmit (world s) (take (Z.to_nat arp_size) arp) in
    (s <| world := w |>, if sent then reply_arp else reply_none)
  else
    let '(echo, echo_size) := Ethernet.make_icmp_echo_reply arp mac address in
    if negb (echo_size =? 0) then
      let '(w, sent) := nic_transmit (world s) (take (Z.to_nat echo_size) echo) in
      (s <| world := w |>, if sent then reply_echo else reply_none)
    else (handle_tcp s echo, reply_none).

(** Console text is ASCII. *)
Definition text (l : string) : list Z := (fun c => Z.of_nat (Ascii.nat_of_ascii c)) <$> String.list_ascii_of_string l.

Definition record (s : BootstrapStack) (reply : Reply) : BootstrapStack :=
  match reply with
  | reply_arp =>
      if negb (arp_replied s)
      then print (s <| arp_replied := true |>) (text "MIKOS:ARP_REPLY" ++ [10]) else s
  | reply_echo =>
      if negb (echo_replied s)
      then print (s <| echo_replied := true |>) (text "MIKOS:ICMP_ECHO_REPLY" ++ [10]) else s
  | reply_none => s
  end.

Definition hex_digit (v : Z) : Z := if v <? 10 then 48 + v else 87 + v.

Definition announce_address (s : BootstrapStack) : BootstrapStack :=
  let s := print s (text "MIKOS:NET_IP 10.0.2.15" ++ [10]) in
  let s := print s (text "MIKOS:NET_MAC ") in
  fold_left (fun s i =>
    let octet := Ethernet.byte_at (Ethernet.mac_octet (Interface.mac (state_ s))) i in
    print s [hex_digit (Z.shiftr octet 4); hex_digit (Z.land octet 0x0f); if Nat.eqb i 5 then 10 else 58])
    (seq 0 6) s.

(** ** The public operations *)

Definition initialize (s : BootstrapStack) : BootstrapStack * bool :=
  if initialized s then (s, true) else
  let '(w, found) := nic_initialize (world s) in
  let s := s <| world := w |> in
  if negb found then (print s (text "MIKOS:NET_NONE" ++ [10]), false) else
  let s := s <| state_ ::= fun st => st <| Interface.mac := nic_mac_address w |> |> <| initialized := true |> in
  (announce_address s, true).

Definition poll (s : BootstrapStack) : BootstrapStack :=
  if negb (initialized s) || (Z.land (Interface.flags (state_ s)) Interface.interface_up =? 0) then s else
  let s := flush_acknowledgements (stamp s) in
  let '(w, frame) := nic_receive (world s) in
  let s := s <| world := w |> in
  let s := match frame with
           | Some frame => let '(s, reply) := handle_frame s frame in record s reply
           | None => s
           end in
  flush_retransmission (flush_timers s).

(** [run] polls [100'000'000] times; the count is a parameter here. *)
Fixpoint probe_loop (s : BootstrapStack) (spins : nat) : BootstrapStack * bool :=
  match spins with
  | O => (print s (text "MIKOS:NET_TIMEOUT" ++ [10]), false)
  | S spins =>
      let s := poll s in
      if arp_replied s && echo_replied s then (s, true) else probe_loop s spins
  end.
Definition run (s : BootstrapStack) (spins : nat) : BootstrapStack * bool :=
  let '(s, found) := initialize s in
  if negb found then (s, false) else probe_loop s spins.

Definition ioctl (s : BootstrapStack) (request : Z) (value : Interface.Ifreq32)
    : BootstrapStack * Interface.Ifreq32 * Interface.InterfaceControlResult :=
  if negb (initialized s) then (s, value, Interface.no_device) else
  let '(st, value, result) := Interface.apply_interface_ioctl (state_ s) request value in
  (s <| state_ := st |>, value, result).

Definition socket_open (s : BootstrapStack) (type : SocketAbi.Type_) : BootstrapStack * OpenResult :=
  let '(t, result) := open (sockets s) type in (s <| sockets := t |>, result).
Definition socket_retain (s : BootstrapStack) (handle : SocketHandle) : BootstrapStack * Result.SocketResult :=
  let '(t, result) := retain (sockets s) handle in (s <| sockets := t |>, result).

Definition socket_close (s : BootstrapStack) (handle : SocketHandle) : BootstrapStack * Result.SocketResult :=
  let s := stamp s in
  match slot (sockets s) handle with
  | None => (s, Result.bad_handle)
  | Some socket =>
      if (references socket =? 1) && fin_acked socket && receive_closed socket &&
         bool_decide (state socket <> State.time_wait)
      then table_release (clear_transmissions s handle) handle
      else if (references socket =? 1) && is_connection (state socket) &&
              bool_decide (state socket <> State.reset) && bool_decide (state socket <> State.syn_received)
      then (request_fin (modify s handle (fun socket => socket <| detached := true |>)) handle, Result.success)
      else
        let final := references socket =? 1 in
        let '(s, result) := table_release s handle in
        (if final then clear_transmissions s handle else s, result)
  end.

Definition socket_bind (s : BootstrapStack) (handle : SocketHandle) (l : Endpoint) : BootstrapStack * Result.SocketResult :=
  if negb (unspecified (endpoint_address l)) && bool_decide (endpoint_address l <> Interface.address (state_ s))
  then (s, Result.invalid_argument) else
  let '(t, result) := bind (sockets s) handle l in (s <| sockets := t |>, result).
Definition socket_listen (s : BootstrapStack) (handle : SocketHandle) (n : Z) : BootstrapStack * Result.SocketResult :=
  let '(t, result) := listen (sockets s) handle n in (s <| sockets := t |>, result).
Definition socket_accept (s : BootstrapStack) (handle : SocketHandle) : BootstrapStack * AcceptResult :=
  let '(t, result) := accept (sockets s) handle in (s <| sockets := t |>, result).

Definition socket_read (s : BootstrapStack) (handle : SocketHandle) (limit : Z)
    : BootstrapStack * ReadResult * list Z :=
  let s := stamp s in
  let was_time_wait := match slot (sockets s) handle with
                       | Some socket => bool_decide (state socket = State.time_wait) | None => false end in
  let '(t, result, output) := read (sockets s) handle limit in
  let s := s <| sockets := t |> in
  let s :=
    if negb (read_size result =? 0) then
      match slot (sockets s) handle with
      | Some _ => modify s handle (fun socket =>
          let socket := socket <| acknowledgement_retries := 1 |> in
          if negb was_time_wait && bool_decide (state socket = State.time_wait)
          then socket <| state_since := now s |> else socket)
      | None => s
      end
    else s in
  (s, result, output).

(** The loop of [socket_write]: [written] bytes queued so far. *)
Fixpoint write_loop (s : BootstrapStack) (handle : SocketHandle) (input : list Z) (available written : Z) (fuel : nat)
    : BootstrapStack * ReadResult :=
  match fuel with
  | O => (s, mkRead Result.success written)
  | S fuel =>
      if (written <? size input) && (written <? available) then
        let socket := socket_at s handle in
        let count := Z.min (Z.min (size input - written) (available - written))
                           (Z.min transmit_segment_capacity (peer_mss socket)) in
        let '(s, queued) := queue_transmission s handle (Z.lor Tcp.tcp_ack Tcp.tcp_psh)
                              (slice input (Z.to_nat written) (Z.to_nat count)) (send_next socket) in
        if negb queued
        then (s, if written =? 0 then mkRead Result.would_block 0 else mkRead Result.success written)
        else
          let s := modify s handle (fun socket =>
            let socket := if send_unacknowledged socket =? send_next socket
                          then socket <| progress_at := now s |> else socket in
            socket <| acknowledgement_retries := 0 |> <| send_next ::= fun n => u32 (n + count) |>) in
          write_loop s handle input available (written + count) fuel
      else (s, mkRead Result.success written)
  end.

(** Every iteration but the last takes one of the sixteen queue slots. *)
Definition write_fuel := S (S transmit_capacity).

Definition socket_write (s : BootstrapStack) (handle : SocketHandle) (input : list Z) : BootstrapStack * ReadResult :=
  let s := stamp s in
  match slot (sockets s) handle with
  | None => (s, mkRead Result.bad_handle 0)
  | Some socket =>
      if bool_decide (state socket = State.reset) then (s, mkRead (failure socket) 0) else
      if negb (writable (sockets s) handle) then (s, mkRead Result.not_connected 0) else
      if size input =? 0 then (s, mkRead Result.success 0) else
      let s := if (send_next socket =? send_unacknowledged socket) &&
                  (u64 (now s - progress_at socket) >=? rto socket)
               then modify s handle (fun socket =>
                 socket <| congestion_window ::= fun w => Z.min w (u32 (4 * peer_mss socket)) |>)
               else s in
      let socket := socket_at s handle in
      let available := send_space socket in
      if available =? 0 then
        (if (peer_window socket =? 0) && negb (persist_waiting socket)
         then modify s handle (fun socket =>
           socket <| persist_waiting := true |> <| progress_at := now s |> <| persist_delay := rto socket |>
                  <| persist_retry_at := u64 (now s + rto socket) |>)
         else s, mkRead Result.would_block 0)
      else write_loop s handle input available 0 write_fuel
  end.

Definition socket_shutdown (s : BootstrapStack) (handle : SocketHandle) (how : Z) : BootstrapStack * Result.SocketResult :=
  let s := stamp s in
  match slot (sockets s) handle with
  | None => (s, Result.bad_handle)
  | Some socket =>
      if how >? 2 then (s, Result.invalid_argument) else
      if negb (is_connection (state socket)) || bool_decide (state socket = State.syn_received) ||
         bool_decide (state socket = State.reset)
      then (s, Result.not_connected) else
      let s := if negb (how =? 0) then request_fin s handle else s in
      let s := if negb (how =? 1)
               then modify s handle (fun socket =>
                 socket <| read_closed := true |> <| receive_buffer := [] |> <| acknowledgement_retries := 1 |>)
               else s in
      (s, Result.success)
  end.

Definition socket_readable (s : BootstrapStack) (handle : SocketHandle) : bool := readable (sockets s) handle.

Definition socket_writable (s : BootstrapStack) (handle : SocketHandle) : bool :=
  writable (sockets s) handle &&
  (match slot (sockets s) handle with Some socket => negb (send_space socket =? 0) | None => false end) &&
  existsb (fun e => match e with None => true | Some _ => false end) (transmissions s).
End stack.
End Stack.
