(* ===== verification/StackWire.v ===== *)
(** * Round trip of TCP segments over the wire

    What [send_segment] of network/stack.cpp puts on the wire is what
    [parse_tcp] of net/tcp.hpp reads at the other end. *)

From S2P Require Import Prelude Ethernet Timing Interface Socket Tcp Stack.
Import Socket.
Local Open Scope Z_scope.

Module StackWire.

(** ** The TCP header in memory *)

Lemma load_store32 v rest : Tcp.load32 (Tcp.store32 v ++ rest) = v.
Proof. unfold Tcp.load32, Tcp.store32. cbn. clear. word. Qed.

Lemma store32_ok v : in_u 32 v -> bytes_ok (Tcp.store32 v).
Proof. intros H. unfold Tcp.store32. repeat (apply Forall_cons; split; [word|]). by apply Forall_nil. Qed.

Lemma net32_in_u v : in_u 32 v -> in_u 32 (Tcp.net32 v).
Proof. intros H. unfold Tcp.net32, Tcp.store32. cbn. word. Qed.

Lemma net32_involutive v : in_u 32 v -> Tcp.net32 (Tcp.net32 v) = v.
Proof.
  intros H. assert (exists a b c d, 0 <= a < 256 /\ 0 <= b < 256 /\ 0 <= c < 256 /\ 0 <= d < 256 /\
    v = a + 256 * b + 65536 * c + 16777216 * d) as (a & b & c & d & Ha & Hb & Hc & Hd & ->).
  { exists (v mod 256), (v / 256 mod 256), (v / 65536 mod 256), (v / 16777216). split_and!; word. }
  clear H. assert (forall w x y z, 0 <= w < 256 -> 0 <= x < 256 -> 0 <= y < 256 -> 0 <= z < 256 ->
    Tcp.store32 (w + 256 * x + 65536 * y + 16777216 * z) = [w; x; y; z]) as Hst.
  { intros w x y z ????. unfold Tcp.store32. repeat f_equal; word. }
  unfold Tcp.net32. rw Hst //. cbn [rev app Tcp.load32]. rw Hst //. 
Qed.

Definition tcp_ok (h : Tcp.TcpHeader) : Prop :=
  in_u 16 (Tcp.source_port h) /\ in_u 16 (Tcp.destination_port h) /\ in_u 32 (Tcp.sequence h) /\
  in_u 32 (Tcp.acknowledgement h) /\ in_u 8 (Tcp.data_offset h) /\ in_u 8 (Tcp.flags h) /\
  in_u 16 (Tcp.window h) /\ in_u 16 (Tcp.checksum h) /\ in_u 16 (Tcp.urgent h).

Lemma load16_store v : Ethernet.load16 (Ethernet.store16 v) = v.
Proof. rewrite <- (app_nil_r (Ethernet.store16 v)). apply Ethernet.load_store. Qed.

Lemma load32_store v : Tcp.load32 (Tcp.store32 v) = v.
Proof. rewrite <- (app_nil_r (Tcp.store32 v)). apply load_store32. Qed.

Lemma decode_encode_tcp h : Tcp.decode_tcp (Tcp.encode_tcp h) = h.
Proof.
  destruct h as [a b c d e f g i j]. unfold Tcp.decode_tcp.
  change (slice (Tcp.encode_tcp _) 0 2) with (Ethernet.store16 a). change (slice (Tcp.encode_tcp _) 2 2) with (Ethernet.store16 b).
  change (slice (Tcp.encode_tcp _) 4 4) with (Tcp.store32 c). change (slice (Tcp.encode_tcp _) 8 4) with (Tcp.store32 d).
  change (slice (Tcp.encode_tcp _) 14 2) with (Ethernet.store16 g). change (slice (Tcp.encode_tcp _) 16 2) with (Ethernet.store16 i).
  change (slice (Tcp.encode_tcp _) 18 2) with (Ethernet.store16 j). by rw !load16_store !load32_store.
Qed.

Lemma length_encode_tcp h : length (Tcp.encode_tcp h) = 20%nat.
Proof. done. Qed.

Lemma encode_tcp_ok h : tcp_ok h -> bytes_ok (Tcp.encode_tcp h).
Proof.
  intros (? & ? & ? & ? & ? & ? & ? & ? & ?). unfold Tcp.encode_tcp, bytes_ok. rewrite -> !Forall_app.
  split_and!; try (by apply Ethernet.store16_ok); try (by apply store32_ok).
  repeat (apply Forall_cons; split; [done|]). by apply Forall_nil.
Qed.

(** ** The TCP checksum *)

Lemma checksum_sum_app a b : forall s, Nat.Even (length a) ->
  Ethernet.checksum_sum s (a ++ b) = Ethernet.checksum_sum (Ethernet.checksum_sum s a) b.
Proof.
  induction a as [|x|x y l IH] using Ethernet.words_ind; intros s [n Hn]; cbn in *; [done|lia|].
  apply IH. exists (n - 1)%nat. lia.
Qed.

Definition pseudo_header (source destination : list Z) (n : Z) : list Z :=
  source ++ destination ++ [0; 6; u8 (Z.shiftr n 8); u8 n].

(** One checksum over the pseudo header and the segment. *)
Lemma tcp_checksum_eq source destination segment :
  length source = 4%nat -> length destination = 4%nat ->
  Tcp.tcp_checksum source destination segment =
  Ethernet.internet_checksum (pseudo_header source destination (Z.of_nat (length segment)) ++ segment).
Proof.
  intros Hs Hd. unfold Tcp.tcp_checksum, Tcp.checksum_finish, Tcp.checksum_add, Ethernet.internet_checksum, pseudo_header.
  rewrite <- !app_assoc. rewrite -> !checksum_sum_app; [done|by exists 2%nat|by (rewrite Hd; exists 2%nat)|by (rewrite Hs; exists 2%nat)].
Qed.

Lemma tcp_install source destination h rest :
  length source = 4%nat -> length destination = 4%nat -> bytes_ok source -> bytes_ok destination ->
  tcp_ok h -> bytes_ok rest -> Tcp.checksum h = 0 -> Z.of_nat (length rest) <= 60000 ->
  let c := Tcp.tcp_checksum source destination (Tcp.encode_tcp h ++ rest) in
  in_u 16 c /\
  Tcp.tcp_checksum source destination
    (Tcp.encode_tcp (h <| Tcp.checksum := Ethernet.net16 c |>) ++ rest) = 0.
Proof.
  intros Hs Hd Hsb Hdb Hh Hr H0 Hn c.
  set (pre := pseudo_header source destination (Z.of_nat (20 + length rest)) ++ take 16 (Tcp.encode_tcp h)).
  set (post := Ethernet.store16 (Tcp.urgent h) ++ rest).
  assert (forall v, Tcp.encode_tcp (h <| Tcp.checksum := v |>) ++ rest =
    take 16 (Tcp.encode_tcp h) ++ Ethernet.store16 v ++ post) as He.
  { intros v. unfold post. rewrite -> !app_assoc. f_equal. }
  assert (h = h <| Tcp.checksum := 0 |>) as Hh0 by (destruct h; cbn in H0; by rewrite H0).
  assert (forall v, length (Tcp.encode_tcp (h <| Tcp.checksum := v |>) ++ rest) = (20 + length rest)%nat) as Hlen.
  { intros v. rewrite -> length_app. done. }
  assert (forall v, Tcp.tcp_checksum source destination (Tcp.encode_tcp (h <| Tcp.checksum := v |>) ++ rest) =
    Ethernet.internet_checksum (pre ++ Ethernet.store16 v ++ post)) as Hsum.
  { intros v. rewrite -> tcp_checksum_eq, Hlen by done. unfold pre. rewrite -> He, <- !app_assoc. done. }
  assert (c = Ethernet.internet_checksum (pre ++ [0; 0] ++ post)) as Hc.
  { unfold c. rewrite -> Hh0 at 1. apply (Hsum 0). }
  assert (length pre = 28%nat) as Hpl.
  { unfold pre, pseudo_header. rewrite -> !length_app, Hs, Hd, length_take, length_encode_tcp. done. }
  assert (Ethernet.short (pre ++ [0; 0] ++ post)) as Hshort.
  { split.
    - unfold bytes_ok. rewrite -> !Forall_app. split_and!.
      + unfold pre, pseudo_header. rewrite -> !Forall_app. split_and!; try done.
        * repeat (apply Forall_cons; split; [first [done|by apply wrap_in_u]|]). by apply Forall_nil.
        * by apply Forall_take, encode_tcp_ok.
      + repeat (apply Forall_cons; split; [done|]). by apply Forall_nil.
      + unfold post. apply Forall_app. split; [apply Ethernet.store16_ok, Hh|done].
    - rewrite -> !length_app, Hpl. unfold post. rewrite -> length_app. cbn. lia. }
  split.
  - rw Hc. by apply Ethernet.checksum_value.
  - rw Hsum Hc. apply Ethernet.checksum_install; [rewrite Hpl; by exists 14%nat|done].
Qed.

(** ** Parsing a well-formed frame *)

Lemma slice_head (a b : list Z) n : n = length a -> slice (a ++ b) 0 n = a.
Proof. intros ->. unfold slice. rewrite -> drop_0, take_app_length. done. Qed.

Lemma parse_frame eth ip tcp opts payload options local_ip :
  Ethernet.ethernet_ok eth -> Ethernet.ip_ok ip ->
  Ethernet.eth_type eth = Ethernet.net16 0x0800 -> Ethernet.version_ihl ip = 0x45 -> Ethernet.protocol ip = 6 ->
  Ethernet.flags_fragment ip = 0 -> Ethernet.ip_destination ip = Ethernet.ip_octet local_ip ->
  Ethernet.internet_checksum (Ethernet.encode_ip ip) = 0 ->
  Ethernet.net16 (Ethernet.total_length ip) = 40 + size opts + size payload ->
  Z.shiftr (Tcp.data_offset tcp) 4 * 4 = 20 + size opts ->
  Tcp.tcp_checksum (Ethernet.ip_source ip) (Ethernet.ip_octet local_ip) (Tcp.encode_tcp tcp ++ opts ++ payload) = 0 ->
  Tcp.parse_tcp_options opts = Some options ->
  Tcp.parse_tcp (Ethernet.encode_ethernet eth ++ Ethernet.encode_ip ip ++ Tcp.encode_tcp tcp ++ opts ++ payload) local_ip =
  Some (Tcp.mkView eth ip tcp payload options).
Proof.
  intros He Hi Htype Hver Hproto Hfrag Hdst Hsum Htot Hoff Htsum Hopts.
  pose proof (Ethernet.length_encode_ethernet eth He) as Hle. pose proof (Ethernet.length_encode_ip ip Hi) as Hli.
  unfold Tcp.parse_tcp. set (T := Tcp.encode_tcp tcp ++ opts ++ payload) in *.
  assert (Z.of_nat (length T) = 20 + size opts + size payload) as HT.
  { unfold T, size. rewrite -> !length_app, length_encode_tcp. lia. }
  assert (0 <= size opts /\ 0 <= size payload) as [Ho Hp] by (unfold size; lia).
  rewrite -> (slice_head _ _ 14), Ethernet.decode_encode_ethernet by done.
  assert (drop 14 (Ethernet.encode_ethernet eth ++ Ethernet.encode_ip ip ++ T) = Ethernet.encode_ip ip ++ T) as ->.
  { rewrite <- Hle. apply drop_app_length. }
  rewrite -> (slice_head _ _ 20), Ethernet.decode_encode_ip by done.
  rewrite -> Hver, Htype, Hproto, Hfrag, Hdst, Htot. change (Z.land 69 15 * 4) with 20.
  change (Z.shiftr 69 4) with 4. change (Z.land (Ethernet.net16 0) 16383 =? 0) with true.
  rewrite -> bool_decide_eq_true_2, !length_app, Hle, Hli by done. cbv zeta.
  assert (take (Z.to_nat 20) (Ethernet.encode_ip ip ++ T) = Ethernet.encode_ip ip) as ->.
  { change (Z.to_nat 20) with 20%nat. rewrite <- Hli. apply take_app_length. }
  rewrite -> Hsum, !Z.eqb_refl. rw !Z.gtb_ltb.
  replace (Z.of_nat (14 + (20 + length T)) <? 54) with false by (symmetry; apply Z.ltb_ge; lia).
  replace (Z.of_nat (20 + length T) <? 20) with false by (symmetry; apply Z.ltb_ge; lia).
  replace (40 + size opts + size payload <? 20 + 20) with false by (symmetry; apply Z.ltb_ge; lia).
  replace (Z.of_nat (20 + length T) <? 40 + size opts + size payload) with false by (symmetry; apply Z.ltb_ge; lia).
  cbn [negb orb Z.ltb Z.compare].
  assert (slice (Ethernet.encode_ip ip ++ T) (Z.to_nat 20) (Z.to_nat (40 + size opts + size payload - 20)) = T) as ->.
  { unfold slice. change (Z.to_nat 20) with 20%nat. rewrite <- Hli at 1. rewrite -> drop_app_length.
    apply firstn_all2. lia. }
  assert (Tcp.decode_tcp (slice T 0 20) = tcp) as ->.
  { unfold T. rewrite -> (slice_head _ _ 20) by done. apply decode_encode_tcp. }
  rewrite -> Hoff.
  replace (20 + size opts <? 20) with false by (symmetry; apply Z.ltb_ge; lia).
  replace (Z.of_nat (length T) <? 20 + size opts) with false by (symmetry; apply Z.ltb_ge; lia).
  rewrite -> Htsum. cbn [negb orb Z.eqb].
  assert (slice T 20 (Z.to_nat (20 + size opts - 20)) = opts) as ->.
  { unfold T. apply slice_app_mid; [done|]. unfold size. lia. }
  rewrite -> Hopts. do 2 f_equal. unfold T. rewrite -> app_assoc.
  replace (Z.to_nat (20 + size opts)) with (length (Tcp.encode_tcp tcp ++ opts)); [apply drop_app_length|].
  rewrite -> length_app, length_encode_tcp. unfold size. lia.
Qed.

(** ** [send_segment] *)

Definition endpoint_ok (e : Endpoint) : Prop := Ethernet.ipv4_ok (endpoint_address e) /\ in_u 16 (port e).

Definition wire_ok (socket : SocketSlot) : Prop :=
  endpoint_ok (local socket) /\ endpoint_ok (remote socket) /\ Ethernet.mac_ok (remote_mac socket) /\
  in_u 32 (receive_next socket) /\ size (receive_buffer socket) <= socket_receive_capacity.

(** The options a peer reads from our segments. *)
Definition announced_options (socket : SocketSlot) (flags : Z) : Tcp.TcpOptions :=
  if Tcp.has flags Tcp.tcp_syn
  then Tcp.mkOptions (Some 1460) (if scale_negotiated socket then Some 0 else None)
  else Tcp.no_options.

Lemma segment_options_ok socket flags :
  let o := Stack.segment_options socket flags in
  Tcp.parse_tcp_options o = Some (announced_options socket flags) /\ bytes_ok o /\
  (size o = 0 \/ size o = 4 \/ size o = 8).
Proof.
  unfold Stack.segment_options, announced_options. destruct (Tcp.has _ _), (scale_negotiated socket);
    (split; [by vm_compute|split; [by apply Ethernet.bytes_ok_check; vm_compute|vm_compute; tauto]]).
Qed.

Lemma segment_ip_ok socket id total :
  wire_ok socket -> in_u 16 id -> 0 <= total < 65536 ->
  let ip := Stack.segment_ip socket id total in
  Ethernet.ip_ok ip /\ Ethernet.internet_checksum (Ethernet.encode_ip ip) = 0 /\
  Ethernet.net16 (Ethernet.total_length ip) = total.
Proof.
  intros ([[Hl1 Hl2] _] & [[Hr1 Hr2] _] & _) Hid Ht. unfold Stack.segment_ip.
  set (ip := Ethernet.mkIp _ _ _ _ _ _ _ _ _ _).
  assert (u16 total = total) as Hu by (by apply wrap_small).
  assert (Ethernet.ip_ok ip) as Hip.
  { unfold Ethernet.ip_ok, ip. cbn. split_and!; try done; by apply Ethernet.net16_in_u. }
  split_and!; [|by apply Ethernet.ip_install|].
  - destruct Hip as (? & ? & ? & ? & ? & ? & ? & _ & ? & ? & ? & ?). unfold Ethernet.ip_ok.
    split_and!; try done. apply Ethernet.net16_in_u.
  - cbn. rw Hu. by apply Ethernet.net16_involutive.
Qed.

(** C24: Every segment [send_segment] emits is accepted by a peer's [parse_tcp]
    and read there with exactly the addresses, ports, sequence and
    acknowledgement numbers, flags, window, options and payload it was sent
    with: both checksums verify and all lengths agree. *)
Theorem segment_round_trip mac id socket flags payload sequence :
  Ethernet.mac_ok mac -> in_u 16 id -> wire_ok socket -> in_u 8 flags -> in_u 32 sequence ->
  bytes_ok payload -> Stack.segment_fits socket flags payload = true ->
  exists view,
    Tcp.parse_tcp (Stack.build_segment mac id socket flags payload sequence) (endpoint_address (remote socket)) = Some view /\
    Ethernet.eth_source (Tcp.view_ethernet view) = Ethernet.mac_octet mac /\
    Ethernet.eth_destination (Tcp.view_ethernet view) = Ethernet.mac_octet (remote_mac socket) /\
    Ethernet.ip_source (Tcp.view_ip view) = Ethernet.ip_octet (endpoint_address (local socket)) /\
    Ethernet.net16 (Tcp.source_port (Tcp.view_tcp view)) = port (local socket) /\
    Ethernet.net16 (Tcp.destination_port (Tcp.view_tcp view)) = port (remote socket) /\
    Tcp.net32 (Tcp.sequence (Tcp.view_tcp view)) = sequence /\
    Tcp.net32 (Tcp.acknowledgement (Tcp.view_tcp view)) = receive_next socket /\
    Tcp.flags (Tcp.view_tcp view) = flags /\
    Ethernet.net16 (Tcp.window (Tcp.view_tcp view)) =
      (if Tcp.has flags Tcp.tcp_rst then 0 else socket_receive_capacity - size (receive_buffer socket)) /\
    Tcp.payload view = payload /\ Tcp.options view = announced_options socket flags.
Proof.
  intros Hmac Hid Hw Hflags Hseq Hpay Hfits. pose proof Hw as ([Hl Hlp] & [Hr Hrp] & Hrm & Hrn & Hbuf).
  destruct (segment_options_ok socket flags) as (Hopts & Hob & Hos).
  unfold Stack.segment_fits, Stack.transmit_buffer_size in Hfits. apply Z.leb_le in Hfits.
  unfold Stack.build_segment. set (opts := Stack.segment_options socket flags) in *.
  assert (0 <= size payload) as Hp0 by (unfold size; lia).
  destruct (segment_ip_ok socket id (20 + (20 + size opts) + size payload) Hw Hid) as (Hip & Hisum & Htot); [lia|].
  set (tcp := Stack.segment_tcp socket flags sequence (20 + size opts)).
  assert (tcp_ok tcp /\ Z.shiftr (Tcp.data_offset tcp) 4 * 4 = 20 + size opts) as [Htcp Hoff].
  { unfold tcp_ok, tcp, Stack.segment_tcp. cbn. split_and!; try apply Ethernet.net16_in_u; try (by apply net32_in_u); try done.
    - by apply wrap_in_u.
    - destruct (Tcp.has _ _); [done|apply Ethernet.net16_in_u].
    - by destruct Hos as [-> | [-> | ->]]. }
  destruct (tcp_install (Ethernet.ip_octet (endpoint_address (local socket)))
    (Ethernet.ip_octet (endpoint_address (remote socket))) tcp (opts ++ payload)) as [Hc Hts]; try apply Hl; try apply Hr; try done.
  { by apply Forall_app. }
  { rewrite -> length_app. unfold size in *. lia. }
  set (c := Tcp.tcp_checksum _ _ _) in *. cbv zeta.
  set (tcp' := tcp <| Tcp.checksum := Ethernet.net16 c |>) in *.
  assert (patch (Tcp.encode_tcp tcp ++ opts ++ payload) 0 (Tcp.encode_tcp tcp') = Tcp.encode_tcp tcp' ++ opts ++ payload) as -> by done.
  eexists. split; [apply parse_frame; try done|].
  - split_and!; try apply Hmac; try apply Hrm; try done.
  - rw Htot. lia.
  - split_and!; try done; try exact (Ethernet.net16_involutive _ Hlp); try exact (Ethernet.net16_involutive _ Hrp);
      try exact (net32_involutive _ Hseq); try exact (net32_involutive _ Hrn).
    change (Ethernet.net16 (if Tcp.has flags Tcp.tcp_rst then 0
      else Ethernet.net16 (u16 (socket_receive_capacity - size (receive_buffer socket)))) =
      if Tcp.has flags Tcp.tcp_rst then 0 else socket_receive_capacity - size (receive_buffer socket)).
    destruct (Tcp.has _ _); [done|]. rewrite -> wrap_small, Ethernet.net16_involutive; [done|..];
      try (rewrite -> wrap_small); unfold in_u, socket_receive_capacity, size in *; lia.
Qed.

Definition example_socket : SocketSlot := slot_default
  <| local := mkEndpoint (Ethernet.mkIpv4 [10; 0; 2; 15]) 80 |>
  <| remote := mkEndpoint (Ethernet.mkIpv4 [10; 0; 2; 2]) 4000 |>
  <| remote_mac := Ethernet.mkMac [2; 0; 0; 0; 0; 1] |> <| receive_next := 2 ^ 32 - 1 |>.

Lemma example_wire_ok : wire_ok example_socket.
Proof.
  unfold wire_ok, endpoint_ok, Ethernet.ipv4_ok, Ethernet.mac_ok.
  split_and!; try (vm_compute; reflexivity); try (apply Ethernet.bytes_ok_check; vm_compute; reflexivity);
    first [split; vm_compute; [discriminate|reflexivity] | vm_compute; discriminate].
Defined.

Lemma segment_round_trip_witness :
  exists view,
    Tcp.parse_tcp (Stack.build_segment (Ethernet.mkMac [2; 0; 0; 0; 0; 2]) 7 example_socket 0x18 [104; 105; 33] 4096)
      (endpoint_address (remote example_socket)) = Some view /\
    Tcp.payload view = [104; 105; 33] /\ Tcp.net32 (Tcp.sequence (Tcp.view_tcp view)) = 4096.
Proof.
  destruct (segment_round_trip (Ethernet.mkMac [2; 0; 0; 0; 0; 2]) 7 example_socket 0x18 [104; 105; 33] 4096)
    as (view & E & _ & _ & _ & _ & _ & Hs & _ & _ & _ & Hp & _).
  - split; [reflexivity|]. apply Ethernet.bytes_ok_check. vm_compute. reflexivity.
  - split; vm_compute; [discriminate|reflexivity].
  - exact example_wire_ok.
  - split; vm_compute; [discriminate|reflexivity].
  - split; vm_compute; [discriminate|reflexivity].
  - apply Ethernet.bytes_ok_check. vm_compute. reflexivity.
  - vm_compute. reflexivity.
  - exists view. split_and!; [exact E|exact Hp|exact Hs].
Defined.
End StackWire.
