(* ===== verification/StackSend.v ===== *)
(** * The sender's retransmission queue

    [transmissions_] of network/stack.cpp holds exactly the bytes the
    application wrote and the peer has not acknowledged: writing appends to
    them, an acknowledgement removes a prefix, nothing else is lost.

    [written] is everything written to the connection [h] so far; position [i]
    of it has sequence number [base + i] modulo 2^32. *)

From S2P Require Import Prelude Ethernet Timing Interface Socket SocketStream SocketInvariant Tcp Stack.
Import Socket.
Local Open Scope Z_scope.

Module StackSend.
Import Stack.

Section sender.
Context (h : SocketHandle) (base : Z).

(** The segment holds the written bytes from position [p] on. *)
Definition segment_at (written : list Z) (p : nat) (key : TransmitKey) (pending : TransmitSegment) : Prop :=
  transmit_sequence key = u32 (base + Z.of_nat p) /\
  (0 < length (segment_data pending))%nat /\ size (segment_data pending) <= transmit_segment_capacity /\
  (p + length (segment_data pending) <= length written)%nat /\
  segment_data pending = slice written p (length (segment_data pending)).

(** The queued segments of [h] partition the positions from [una] on. *)
Record queue_sync (written : list Z) (una : nat) (q : Transmissions) (pos : nat -> nat) : Prop := {
  sync_segment : forall i key pending, q !! i = Some (Some (key, pending)) -> transmit_handle key = h ->
    segment_at written (pos i) key pending /\ (una <= pos i)%nat;
  sync_cover : forall x, (una <= x < length written)%nat ->
    exists i key pending, q !! i = Some (Some (key, pending)) /\ transmit_handle key = h /\
      (pos i <= x < pos i + length (segment_data pending))%nat;
  sync_disjoint : forall i j key1 pending1 key2 pending2, i <> j ->
    q !! i = Some (Some (key1, pending1)) -> transmit_handle key1 = h ->
    q !! j = Some (Some (key2, pending2)) -> transmit_handle key2 = h ->
    (pos i + length (segment_data pending1) <= pos j)%nat \/ (pos j + length (segment_data pending2) <= pos i)%nat;
}.

(** ** The queue bounds the data in flight *)

Definition positions (q : Transmissions) (pos : nat -> nat) (i : nat) : list nat :=
  match q !! i with
  | Some (Some (key, pending)) =>
      if Nat.eqb (transmit_handle key) h then seq (pos i) (length (segment_data pending)) else []
  | _ => []
  end.

Lemma concat_length_le {A B} (f : A -> list B) n l :
  (forall x, x ∈ l -> length (f x) <= n)%nat -> (length (concat (map f l)) <= n * length l)%nat.
Proof.
  induction l as [|x l IH]; intros H; cbn; [lia|]. rewrite -> length_app.
  pose proof (H x ltac:(set_solver)). specialize (IH ltac:(set_solver)). lia.
Qed.

Lemma flight_bound written una q pos :
  length q = transmit_capacity -> queue_sync written una q pos ->
  Z.of_nat (length written) - Z.of_nat una <= 16384.
Proof.
  intros Hl Hq.
  assert (length (seq una (length written - una)) <= length (concat (map (positions q pos) (seq 0 16))))%nat as Hle.
  { apply submseteq_length, NoDup_submseteq; [apply NoDup_seq|]. intros x Hx%elem_of_seq.
    destruct (sync_cover _ _ _ _ Hq x) as (i & key & pending & Hi & Hk & Hp); [lia|].
    apply list_elem_of_In, in_concat. exists (positions q pos i). split.
    - apply in_map, in_seq. apply lookup_lt_Some in Hi. unfold transmit_capacity in Hl. lia.
    - unfold positions. rw Hi Hk Nat.eqb_refl. apply in_seq. lia. }
  rewrite -> length_seq in Hle.
  assert (length (concat (map (positions q pos) (seq 0 16))) <= 1024 * 16)%nat as Hc; [|lia].
  etrans; [apply (concat_length_le _ 1024)|done].
  intros i _. unfold positions. destruct (q !! i) as [[[key pending]|]|] eqn:Hi; [|apply Nat.le_0_l..].
  destruct (Nat.eqb_spec (transmit_handle key) h) as [Hk|]; [|apply Nat.le_0_l]. rewrite -> length_seq.
  destruct (sync_segment _ _ _ _ Hq i key pending Hi Hk) as [(_ & _ & Hs & _) _].
  unfold size, transmit_segment_capacity in Hs. lia.
Qed.

(** ** Acknowledgements *)

(** What the scan does to one entry. *)
Definition scan_entry (ack : Z) (e : option (TransmitKey * TransmitSegment)) : option (TransmitKey * TransmitSegment) :=
  match e with
  | Some (key, pending) =>
      let acknowledged := u32 (ack - transmit_sequence key) in
      if negb (Nat.eqb (transmit_handle key) h) || (i32 acknowledged <=? 0) then e
      else if acknowledged >=? size (segment_data pending) then None
      else Some (mkTransmitKey (transmit_handle key) ack, pending <| segment_data ::= drop (Z.to_nat acknowledged) |>)
  | None => None
  end.

(** Timing a segment changes the round-trip estimate only. *)
Definition same_but_rtt (v v' : SocketSlot) : Prop :=
  v' = v <| rto := rto v' |> <| smoothed_rtt := smoothed_rtt v' |> <| rtt_variance := rtt_variance v' |>
         <| rtt_measured := rtt_measured v' |>.

Lemma same_but_rtt_refl v : same_but_rtt v v.
Proof. by destruct v. Qed.

Lemma same_but_rtt_trans v1 v2 v3 : same_but_rtt v1 v2 -> same_but_rtt v2 v3 -> same_but_rtt v1 v3.
Proof. unfold same_but_rtt. intros E1 E2. rewrite -> E2, E1. by destruct v1, v2, v3. Qed.

Lemma update_rtt_same v sample : same_but_rtt v (update_rtt v sample).
Proof. unfold update_rtt, same_but_rtt. by destruct v, (rtt_measured _). Qed.

Lemma acknowledge_scan_spec ack now re q : forall v sampled,
  let '(v', q') := acknowledge_scan h ack now re v sampled q in q' = map (scan_entry ack) q /\ same_but_rtt v v'.
Proof.
  induction q as [|e q IH]; intros v sampled; cbn [acknowledge_scan map]; [split; [done|apply same_but_rtt_refl]|].
  unfold scan_entry at 1. destruct e as [[key pending]|].
  - destruct (_ || _).
    { specialize (IH v sampled). destruct (acknowledge_scan _ _ _ _ _ _ _) as [v' q']. by destruct IH as [-> ?]. }
    destruct (_ >=? _).
    + set (sample := negb re && negb sampled). set (v1 := if sample then _ else v).
      assert (same_but_rtt v v1) as Hs by (unfold v1; destruct sample; [apply update_rtt_same|apply same_but_rtt_refl]).
      specialize (IH v1 (sampled || sample)). destruct (acknowledge_scan _ _ _ _ _ _ _) as [v' q'].
      destruct IH as [-> ?]. split; [done|]. by eapply same_but_rtt_trans.
    + specialize (IH v sampled). destruct (acknowledge_scan _ _ _ _ _ _ _) as [v' q']. by destruct IH as [-> ?].
  - specialize (IH v sampled). destruct (acknowledge_scan _ _ _ _ _ _ _) as [v' q']. by destruct IH as [-> ?].
Qed.

(** The scan on a queue in step with [una] leaves it in step with [a]. *)
Lemma scan_entry_segment written una a p key pending :
  segment_at written p key pending -> transmit_handle key = h -> (una <= p)%nat -> (una <= a)%nat ->
  Z.of_nat (length written) - Z.of_nat una <= 16384 -> (a <= length written + 1)%nat ->
  match scan_entry (u32 (base + Z.of_nat a)) (Some (key, pending)) with
  | Some (key', pending') => transmit_handle key' = h /\ segment_at written (Nat.max p a) key' pending' /\
      (p + length (segment_data pending) = Nat.max p a + length (segment_data pending'))%nat /\
      (a < p + length (segment_data pending))%nat
  | None => (p + length (segment_data pending) <= a)%nat
  end.
Proof.
  intros (Hseq & Hpos & Hcap & Hend & Hdata) Hk Hp Ha Hflight Htop. cbn [scan_entry].
  rewrite -> Hk, Nat.eqb_refl, Hseq, SocketStream.serial_distance. cbn [negb orb].
  rewrite -> SocketStream.i32_u32 by lia. destruct (Z.leb_spec (Z.of_nat a - Z.of_nat p) 0) as [Hle|Hgt].
  { rewrite -> Nat.max_l by lia. split_and!; try done; lia. }
  rewrite -> (wrap_small 32) by (unfold in_u; lia). rw Z.geb_leb. unfold size in *.
  destruct (Z.leb_spec (Z.of_nat (length (segment_data pending))) (Z.of_nat a - Z.of_nat p)); [lia|].
  rewrite -> Nat.max_r by lia. unfold segment_at, size. cbn [segment_data transmit_sequence transmit_handle set].
  replace (Z.to_nat (Z.of_nat a - Z.of_nat p)) with (a - p)%nat by lia. rewrite -> length_drop.
  split_and!; try done; try lia. rewrite -> Hdata at 1. rewrite -> SocketStream.slice_drop by lia.
  replace (p + (a - p))%nat with a by lia. done.
Qed.

Lemma scan_sync written una a q pos :
  length q = transmit_capacity -> queue_sync written una q pos -> (una <= a)%nat -> (a <= length written + 1)%nat ->
  queue_sync written a (map (scan_entry (u32 (base + Z.of_nat a))) q) (fun i => Nat.max (pos i) a).
Proof.
  intros Hl Hq Ha Htop. pose proof (flight_bound written una q pos Hl Hq) as Hflight. destruct Hq as [Q1 Q2 Q3].
  assert (forall i key' pending', map (scan_entry (u32 (base + Z.of_nat a))) q !! i = Some (Some (key', pending')) ->
    transmit_handle key' = h -> exists key pending, q !! i = Some (Some (key, pending)) /\ transmit_handle key = h /\
      scan_entry (u32 (base + Z.of_nat a)) (Some (key, pending)) = Some (key', pending')) as Hback.
  { intros i key' pending' Hi Hk'. rewrite -> list_lookup_fmap in Hi. destruct (q !! i) as [[[key pending]|]|] eqn:Hqi; try done.
    cbn [fmap option_fmap option_map] in Hi. exists key, pending. injection Hi as Hi. split_and!; [done| |done].
    destruct (decide (transmit_handle key = h)) as [|Hne]; [done|]. cbn [scan_entry] in Hi.
    rewrite -> (proj2 (Nat.eqb_neq _ _)) in Hi by done. cbn in Hi. by injection Hi as <- _. }
  split.
  - intros i key' pending' Hi Hk'. destruct (Hback i key' pending' Hi Hk') as (key & pending & Hqi & Hk & Hs).
    destruct (Q1 i key pending Hqi Hk) as [Hseg Hp].
    pose proof (scan_entry_segment written una a (pos i) key pending Hseg Hk Hp Ha Hflight Htop) as H.
    rewrite -> Hs in H. split; [apply H|lia].
  - intros x Hx. destruct (Q2 x) as (i & key & pending & Hqi & Hk & Hp); [lia|].
    destruct (Q1 i key pending Hqi Hk) as [Hseg Hpos].
    pose proof (scan_entry_segment written una a (pos i) key pending Hseg Hk Hpos Ha Hflight Htop) as H.
    destruct (scan_entry _ _) as [[key' pending']|] eqn:Hs; [|lia]. destruct H as (Hk' & _ & Hlen & _).
    exists i, key', pending'. split_and!; [|done|lia|lia]. by rewrite -> list_lookup_fmap, Hqi, <- Hs.
  - intros i j k1 p1 k2 p2 Hij Hi Hk1 Hj Hk2.
    destruct (Hback i k1 p1 Hi Hk1) as (ki & pi & Hqi & Hki & Hsi). destruct (Hback j k2 p2 Hj Hk2) as (kj & pj & Hqj & Hkj & Hsj).
    destruct (Q1 i ki pi Hqi Hki) as [Hsegi Hpi]. destruct (Q1 j kj pj Hqj Hkj) as [Hsegj Hpj].
    pose proof (scan_entry_segment written una a (pos i) ki pi Hsegi Hki Hpi Ha Hflight Htop) as Hi'.
    pose proof (scan_entry_segment written una a (pos j) kj pj Hsegj Hkj Hpj Ha Hflight Htop) as Hj'.
    rewrite -> Hsi in Hi'. rewrite -> Hsj in Hj'. destruct Hi' as (_ & _ & Hi1 & Hi2), Hj' as (_ & _ & Hj1 & Hj2).
    destruct (Q3 i j ki pi kj pj Hij Hqi Hki Hqj Hkj); lia.
Qed.

Lemma restart_sync written una q pos d t :
  queue_sync written una q pos -> queue_sync written una (restart_timers h d t q) pos.
Proof.
  intros [Q1 Q2 Q3].
  set (f := fun pending : TransmitSegment => pending <| delay := d |> <| retry_at := u64 (t + d) |>).
  assert (forall i, restart_timers h d t q !! i = (fun e => match e with
    | Some (key, pending) => if Nat.eqb (transmit_handle key) h then Some (key, f pending) else e | None => None end) <$> q !! i)
    as Hlook by (intros i; apply list_lookup_fmap).
  assert (forall i key pending, restart_timers h d t q !! i = Some (Some (key, pending)) -> transmit_handle key = h ->
    exists pending0, q !! i = Some (Some (key, pending0)) /\ pending = f pending0) as Hback.
  { intros i key pending Hi Hk. rewrite -> Hlook in Hi. destruct (q !! i) as [[[key0 pending0]|]|]; try done. cbn in Hi.
    destruct (Nat.eqb_spec (transmit_handle key0) h); injection Hi as <- <-; [by exists pending0|done]. }
  split.
  - intros i key pending Hi Hk. destruct (Hback i key pending Hi Hk) as (p0 & Hq & ->). by apply (Q1 i key p0).
  - intros x Hx. destruct (Q2 x Hx) as (i & key & pending & Hqi & Hk & Hp). exists i, key, (f pending).
    rewrite -> Hlook, Hqi. cbn. by rewrite -> Hk, Nat.eqb_refl.
  - intros i j k1 p1 k2 p2 Hij Hi Hk1 Hj Hk2.
    destruct (Hback i k1 p1 Hi Hk1) as (pi & Hqi & ->). destruct (Hback j k2 p2 Hj Hk2) as (pj & Hqj & ->).
    by apply (Q3 i j k1 pi k2 pj).
Qed.

Definition others_queued (q q' : Transmissions) : Prop :=
  length q' = length q /\
  forall i key pending, transmit_handle key <> h ->
    q !! i = Some (Some (key, pending)) <-> q' !! i = Some (Some (key, pending)).

Lemma others_queued_refl q : others_queued q q.
Proof. done. Qed.

Lemma others_queued_trans q1 q2 q3 : others_queued q1 q2 -> others_queued q2 q3 -> others_queued q1 q3.
Proof. intros [? H1] [? H2]. split; [congruence|]. intros i k p Hk. etrans; [by apply H1|by apply H2]. Qed.

Lemma others_queued_map (f : option (TransmitKey * TransmitSegment) -> option (TransmitKey * TransmitSegment)) q :
  (forall key pending, transmit_handle key <> h -> f (Some (key, pending)) = Some (key, pending)) ->
  (forall e key pending, f e = Some (key, pending) -> transmit_handle key <> h -> e = Some (key, pending)) ->
  others_queued q (map f q).
Proof.
  intros Hf Hb. split; [apply length_map|]. intros i key pending Hk. rewrite -> list_lookup_fmap.
  destruct (q !! i) as [e|]; [|done]. cbn. split; intros E; injection E as E.
  - rw E. by rw Hf.
  - by rewrite -> (Hb e key pending E Hk).
Qed.

Lemma scan_others ack q : others_queued q (map (scan_entry ack) q).
Proof.
  apply others_queued_map.
  - intros key pending Hk. cbn. by rewrite -> (proj2 (Nat.eqb_neq _ _)) by done.
  - intros [[k p]|] key pending; cbn; [|done]. destruct (Nat.eqb_spec (transmit_handle k) h) as [E|]; cbn; [|done].
    destruct (_ <=? _); [done|]. destruct (_ >=? _); [done|]. intros H Hk. injection H as H _. by subst key.
Qed.

Lemma restart_others d t q : others_queued q (restart_timers h d t q).
Proof.
  apply others_queued_map.
  - intros key pending Hk. by rewrite -> (proj2 (Nat.eqb_neq _ _)) by done.
  - intros [[k p]|] key pending; [|done]. destruct (Nat.eqb_spec (transmit_handle k) h); [|done].
    intros H Hk. injection H as <- _. done.
Qed.

(** The fields an acknowledgement leaves alone. *)
Definition receive_side_kept (v v' : SocketSlot) : Prop :=
  send_next v' = send_next v /\ receive_next v' = receive_next v /\ receive_buffer v' = receive_buffer v /\
  state v' = state v /\ peer_window v' = peer_window v /\ fin_sent v' = fin_sent v.

Lemma congestion_ack_frame v k :
  congestion_window (congestion_ack v k) <= 16384 /\ fast_recovery (congestion_ack v k) = false /\
  receive_side_kept v (congestion_ack v k).
Proof.
  unfold congestion_ack.
  destruct (fast_recovery _) eqn:E; [|destruct (_ <? _); [|destruct (_ >=? _)]];
    (split; [cbn [set congestion_window]; apply Z.le_min_r|split; [done|by split_and!]]).
Qed.

Lemma same_but_rtt_frame v v' : same_but_rtt v v' ->
  congestion_window v' = congestion_window v /\ fast_recovery v' = fast_recovery v /\ receive_side_kept v v'.
Proof.
  intros E. unfold receive_side_kept. split_and!.
  - exact (f_equal congestion_window E).
  - exact (f_equal fast_recovery E).
  - exact (f_equal send_next E).
  - exact (f_equal receive_next E).
  - exact (f_equal receive_buffer E).
  - exact (f_equal state E).
  - exact (f_equal peer_window E).
  - exact (f_equal fin_sent E).
Qed.

(** C9: An acknowledgement of the bytes before position [a] (data and FIN)
    removes exactly those from the retransmission queue: whatever part of a
    segment is still unacknowledged stays queued, with its bytes and its
    sequence number, and the queue again partitions what the application wrote
    from [a] on.  An old acknowledgement changes nothing; other connections'
    segments are untouched; the congestion window stays within the queue's
    capacity and fast recovery ends. *)
Theorem stack_acknowledge_spec written una a now v q pos :
  length q = transmit_capacity -> queue_sync written una q pos ->
  send_unacknowledged v = u32 (base + Z.of_nat una) ->
  (a <= length written + 1)%nat -> Z.of_nat una - Z.of_nat a < 2 ^ 31 ->
  let '(v', q') := acknowledge h (u32 (base + Z.of_nat a)) now v q in
  (exists pos', queue_sync written (Nat.max una a) q' pos') /\
  send_unacknowledged v' = u32 (base + Z.of_nat (Nat.max una a)) /\ others_queued q q' /\ receive_side_kept v v' /\
  (if (una <? a)%nat then congestion_window v' <= 16384 /\ fast_recovery v' = false /\ progress_at v' = now
   else v' = v /\ q' = q).
Proof.
  intros Hl Hq Hu Htop Hold. unfold acknowledge. rewrite -> Hu, SocketStream.serial_distance.
  pose proof (flight_bound written una q pos Hl Hq) as Hflight.
  rewrite -> SocketStream.i32_u32 by lia.
  destruct (Nat.ltb_spec una a) as [Hlt|Hge]; last first.
  { rewrite -> (proj2 (Z.leb_le _ _)), Nat.max_l by lia. split_and!; try done. by exists pos. }
  rewrite -> (proj2 (Z.leb_gt _ _)), Nat.max_r by lia.
  set (k := u32 (Z.of_nat a - Z.of_nat una)). destruct (congestion_ack_frame v k) as (Hcw & Hfr & Hk1).
  set (v1 := congestion_ack v k) in *. clearbody v1.
  pose proof (acknowledge_scan_spec (u32 (base + Z.of_nat a)) now (retransmitted h q) q v1 false) as Hscan.
  destruct (acknowledge_scan _ _ _ _ _ _ _) as [v2 q2]. destruct Hscan as [-> Hs].
  apply same_but_rtt_frame in Hs as (Hcw2 & Hfr2 & Hk2). cbn [set rto send_unacknowledged congestion_window fast_recovery progress_at].
  split_and!.
  - eexists. apply restart_sync. apply (scan_sync written una); [done|done|lia|done].
  - done.
  - eapply others_queued_trans; [apply scan_others|apply restart_others].
  - unfold receive_side_kept in *. cbn. intuition congruence.
  - by rewrite Hcw2.
  - by rewrite Hfr2.
  - done.
Qed.

(** ** Writing *)

Lemma segment_at_app written more p key pending :
  segment_at written p key pending -> segment_at (written ++ more) p key pending.
Proof.
  intros (? & ? & ? & Hend & Hd). split_and!; try done; [rewrite -> length_app; lia|].
  rewrite -> Hd at 1. unfold slice. rewrite -> drop_app_le by lia.
  rewrite -> take_app_le by (rewrite -> length_drop; lia). done.
Qed.

Lemma queue_append written una q pos i key pending chunk :
  queue_sync written una q pos -> (una <= length written)%nat -> q !! i = Some None ->
  transmit_handle key = h -> transmit_sequence key = u32 (base + Z.of_nat (length written)) ->
  segment_data pending = chunk -> (0 < length chunk)%nat -> size chunk <= transmit_segment_capacity ->
  queue_sync (written ++ chunk) una (<[i := Some (key, pending)]> q)
    (fun j => if Nat.eqb j i then length written else pos j).
Proof.
  intros [Q1 Q2 Q3] Hu Hi Hk Hs <- Hpos Hcap.
  assert (forall j, <[i := Some (key, pending)]> q !! j = if Nat.eqb j i then Some (Some (key, pending)) else q !! j) as Hlook.
  { intros j. destruct (Nat.eqb_spec j i) as [->|Hne]; [|by apply list_lookup_insert_ne].
    apply list_lookup_insert_eq. by eapply lookup_lt_Some. }
  split.
  - intros j k p. rw Hlook. destruct (Nat.eqb_spec j i) as [->|Hne].
    + intros [= <- <-] _. split; [|done]. split_and!; try done; [rewrite -> length_app; lia|].
      unfold slice. rewrite -> drop_app_length. by rewrite firstn_all.
    + intros Hj Hkj. destruct (Q1 j k p Hj Hkj). split; [by apply segment_at_app|done].
  - intros x Hx. rewrite -> length_app in Hx. destruct (decide (x < length written)%nat) as [Hlt|Hge].
    + destruct (Q2 x) as (j & k & p & Hj & Hkj & Hp); [lia|]. exists j, k, p. rw Hlook.
      destruct (Nat.eqb_spec j i) as [->|]; [congruence|done].
    + exists i, key, pending. rewrite -> Hlook, Nat.eqb_refl. split_and!; [done|done|lia|lia].
  - intros j1 j2 k1 p1 k2 p2 Hij. rw !Hlook.
    destruct (Nat.eqb_spec j1 i) as [->|N1], (Nat.eqb_spec j2 i) as [->|N2]; try done.
    + intros [= <- <-] _ Hj Hkj. right. destruct (Q1 j2 k2 p2 Hj Hkj) as [(_ & _ & _ & He & _) _]. lia.
    + intros Hj Hkj [= <- <-] _. left. destruct (Q1 j1 k1 p1 Hj Hkj) as [(_ & _ & _ & He & _) _]. lia.
    + by apply Q3.
Qed.

Lemma others_queued_insert q i key pending :
  q !! i = Some None -> transmit_handle key = h -> others_queued q (<[i := Some (key, pending)]> q).
Proof.
  intros Hi Hk. split; [apply length_insert|]. intros j k p Hkp. destruct (decide (i = j)) as [<-|Hne].
  - rewrite -> list_lookup_insert_eq by (by eapply lookup_lt_Some). rw Hi. split; [done|]. intros [= -> _]. done.
  - by rewrite -> list_lookup_insert_ne by done.
Qed.
End sender.

Section writing.
Context {W : Type} {machine : Machine W}.
Implicit Types s : @BootstrapStack W.

Lemma send_segment_frame s v flags payload sequence :
  let s' := (send_segment s v flags payload sequence).1 in
  sockets s' = sockets s /\ transmissions s' = transmissions s /\ now s' = now s.
Proof. unfold send_segment. destruct (negb _); [done|]. by destruct (nic_transmit _ _). Qed.

Lemma queue_transmission_spec s h flags payload sequence :
  let '(s', queued) := queue_transmission s h flags payload sequence in
  sockets s' = sockets s /\ now s' = now s /\
  if queued then exists i pending, transmissions s !! i = Some None /\
      transmissions s' = <[i := Some (mkTransmitKey h sequence, pending)]> (transmissions s) /\
      segment_data pending = payload /\ size payload <= transmit_segment_capacity
  else transmissions s' = transmissions s.
Proof.
  unfold queue_transmission. destruct (size payload >? _) eqn:Hcap; cbn [orb]; [by split_and!|]. rw Z.gtb_ltb in Hcap. apply Z.ltb_ge in Hcap.
  destruct (existsb _ _); [by split_and!|]. destruct (first_slot _ _) as [i|] eqn:Hi; [|by split_and!].
  apply first_slot_Some in Hi as (e & Hi & He & _). destruct e; [done|].
  set (s1 := set_transmission s i _).
  pose proof (send_segment_frame s1 (socket_at s1 h) flags payload sequence) as (Hs & Hq & Hn).
  destruct (send_segment _ _ _ _ _) as [s2 sent]. cbn [fst] in *. destruct sent; cbn [negb].
  - split; [done|]. split; [done|]. exists i. eexists. split; [done|]. split.
    + unfold set_transmission. cbn [set transmissions]. rewrite -> Hq. cbn. by rewrite list_insert_insert_eq.
    + by split.
  - split; [done|]. split; [done|]. unfold set_transmission. cbn [set transmissions]. rewrite -> Hq. cbn.
    rewrite -> list_insert_insert_eq. by apply list_insert_id.
Qed.

Lemma socket_at_modify s h f v : slots (sockets s) !! h = Some v ->
  slots (sockets (modify s h f)) !! h = Some (f v) /\ socket_at (modify s h f) h = f v.
Proof.
  intros Hv. unfold socket_at, modify. cbn. rewrite -> list_lookup_alter_eq, Hv. done.
Qed.

Lemma modify_frame s h f : transmissions (modify s h f) = transmissions s /\ now (modify s h f) = now s /\
  forall j, j <> h -> slots (sockets (modify s h f)) !! j = slots (sockets s) !! j.
Proof. split_and!; try done. intros j Hj. cbn. by apply list_lookup_alter_ne. Qed.

(** The loop has queued the first [n] bytes of [input]. *)
Definition progress (h : SocketHandle) (base : Z) (written input : list Z) (una : nat) (s0 : @BootstrapStack W)
    (v0 : SocketSlot) (n : nat) (s : @BootstrapStack W) : Prop :=
  (n <= length input)%nat /\ length (transmissions s) = transmit_capacity /\
  (exists pos, queue_sync h base (written ++ take n input) una (transmissions s) pos) /\
  others_queued h (transmissions s0) (transmissions s) /\
  (forall j, j <> h -> slots (sockets s) !! j = slots (sockets s0) !! j) /\
  reassembly (sockets s) = reassembly (sockets s0) /\
  exists v, slots (sockets s) !! h = Some v /\ send_next v = u32 (base + Z.of_nat (length written + n)) /\
    peer_mss v = peer_mss v0 /\ send_unacknowledged v = send_unacknowledged v0 /\ peer_window v = peer_window v0 /\
    congestion_window v = congestion_window v0 /\ state v = state v0 /\ fin_sent v = fin_sent v0.

Lemma write_step h base written input una s0 v0 n s s1 count chunk :
  (una <= length written)%nat ->
  progress h base written input una s0 v0 n s -> chunk = slice input n count -> (0 < count)%nat ->
  (n + count <= length input)%nat ->
  sockets s1 = sockets s -> now s1 = now s ->
  (exists i pending, transmissions s !! i = Some None /\
     transmissions s1 = <[i := Some (mkTransmitKey h (send_next (socket_at s h)), pending)]> (transmissions s) /\
     segment_data pending = chunk /\ size chunk <= transmit_segment_capacity) ->
  progress h base written input una s0 v0 (n + count)
    (modify s1 h (fun socket =>
       let socket := if send_unacknowledged socket =? send_next socket
                     then socket <| progress_at := now s1 |> else socket in
       socket <| acknowledgement_retries := 0 |> <| send_next ::= fun m => u32 (m + Z.of_nat count) |>)).
Proof.
  intros Hu (Hn & Hl & (pos & Hq) & Ho & Hs & Hr & v & Hv & Hsn & Hrest) -> Hc Hle Hsock Hnow (i & pending & Hi & Hq1 & Hd & Hcap).
  assert (socket_at s h = v) as Hat by (unfold socket_at; by rewrite Hv). rewrite -> Hat in Hq1.
  assert (length (slice input n count) = count) as Hlen by (apply length_slice; lia).
  unfold progress. split; [done|]. split; [cbn; by rewrite -> Hq1, length_insert|]. split_and!.
  - eexists. cbn [modify set transmissions]. rewrite -> Hq1.
    replace (written ++ take (n + count) input) with ((written ++ take n input) ++ slice input n count); last first.
    { rewrite <- app_assoc. f_equal. unfold slice. rewrite -> take_take_drop. done. }
    assert (length (written ++ take n input) = (length written + n)%nat) as Hwl by (rewrite -> length_app, length_take; lia).
    apply (queue_append h base); try done; [lia| |lia]. cbn. by rewrite -> Hsn, Hwl.
  - cbn [modify set transmissions]. rewrite -> Hq1. eapply others_queued_trans; [done|]. by apply others_queued_insert.
  - intros j Hj. cbn. rewrite -> list_lookup_alter_ne by done. rewrite -> Hsock. by apply Hs.
  - cbn. by rewrite -> Hsock.
  - eexists. split; [apply (socket_at_modify s1 h _ v); by rewrite -> Hsock|]. cbv zeta.
    set (v1 := if send_unacknowledged v =? send_next v then _ else v).
    assert (send_next v1 = send_next v /\ peer_mss v1 = peer_mss v /\ send_unacknowledged v1 = send_unacknowledged v /\
      peer_window v1 = peer_window v /\ congestion_window v1 = congestion_window v /\ state v1 = state v /\ fin_sent v1 = fin_sent v)
      as (E1 & E2 & E3 & E4 & E5 & E6 & E7) by (unfold v1; by destruct (_ =? _)).
    clearbody v1. cbn. rewrite -> E1, E2, E3, E4, E5, E6, E7, Hsn. split; [|done].
    autorewrite with wrap. f_equal. lia.
Qed.

Lemma write_loop_progress h base written input una s0 v0 available fuel : forall n s,
  (una <= length written)%nat -> 1 <= peer_mss v0 -> progress h base written input una s0 v0 n s ->
  let '(s', res) := write_loop s h input available (Z.of_nat n) fuel in
  exists m, progress h base written input una s0 v0 m s' /\ read_size res = Z.of_nat m /\ (n <= m)%nat /\
    (m = n \/ Z.of_nat m <= available).
Proof.
  induction fuel as [|fuel IH]; intros n s Hu Hmss Hp; cbn [write_loop].
  { exists n. split; [done|]. split; [done|]. split; [lia|by left]. }
  destruct ((Z.of_nat n <? size input) && (Z.of_nat n <? available)) eqn:Hcond; last first.
  { exists n. split; [done|]. split; [done|]. split; [lia|by left]. }
  apply andb_true_iff in Hcond as [Hi%Z.ltb_lt Ha%Z.ltb_lt].
  set (count := Z.min (Z.min (size input - Z.of_nat n) (available - Z.of_nat n))
                      (Z.min transmit_segment_capacity (peer_mss (socket_at s h)))).
  assert (peer_mss (socket_at s h) = peer_mss v0) as Hm.
  { destruct Hp as (_ & _ & _ & _ & _ & _ & v & Hv & _ & Hm & _). unfold socket_at. by rewrite Hv. }
  assert (0 < count /\ Z.of_nat n + count <= size input /\ Z.of_nat n + count <= available) as (Hc0 & Hci & Hca).
  { unfold count. rewrite -> Hm. unfold transmit_segment_capacity. lia. }
  pose proof (queue_transmission_spec s h (Z.lor Tcp.tcp_ack Tcp.tcp_psh)
    (slice input (Z.to_nat (Z.of_nat n)) (Z.to_nat count)) (send_next (socket_at s h))) as Hq.
  destruct (queue_transmission _ _ _ _ _) as [s1 queued]. destruct Hq as (Hs1 & Hn1 & Hq). destruct queued; cbn [negb].
  - rewrite -> Nat2Z.id in Hq.
    assert (progress h base written input una s0 v0 (n + Z.to_nat count)
      (modify s1 h (fun socket =>
       let socket := if send_unacknowledged socket =? send_next socket
                     then socket <| progress_at := now s1 |> else socket in
       socket <| acknowledgement_retries := 0 |> <| send_next ::= fun m => u32 (m + Z.of_nat (Z.to_nat count)) |>))) as Hp'.
    { unfold size in Hci. eapply write_step; try done; lia. }
    rewrite -> Z2Nat.id in Hp' by lia. apply IH in Hp'; [|done|done].
    replace (Z.of_nat (n + Z.to_nat count)) with (Z.of_nat n + count) in Hp' by lia.
    destruct (write_loop _ _ _ _ _ _) as [s' res]. destruct Hp' as (m & Hp' & Hr & Hnm & Hma).
    exists m. split; [done|]. split; [done|]. split; [lia|]. right. destruct Hma as [->|]; lia.
  - exists n. split; [|split; [|split; [lia|by left]]].
    + unfold progress in *. rewrite -> Hs1, Hq. done.
    + destruct (Z.eqb_spec (Z.of_nat n) 0); [cbn; lia|done].
Qed.

(** ** Termination of the write loop *)

Definition free_entry (e : option (TransmitKey * TransmitSegment)) : option unit :=
  match e with None => Some tt | Some _ => None end.
Definition free_entries (q : Transmissions) : nat := length (omap free_entry q).

Lemma free_entries_insert q i e : q !! i = Some None -> free_entries q = S (free_entries (<[i := Some e]> q)).
Proof.
  intros H. rewrite <- (take_drop_middle q i None H) at 1.
  rewrite -> (insert_take_drop q i (Some e)) by (by eapply lookup_lt_Some).
  unfold free_entries. rewrite -> !omap_app, !length_app. cbn. lia.
Qed.

Lemma free_entries_length q : (free_entries q <= length q)%nat.
Proof. unfold free_entries. induction q as [|[e|] q IH]; cbn in *; lia. Qed.

Lemma write_loop_fuel h input available fuel1 : forall fuel2 s written,
  (free_entries (transmissions s) < fuel1)%nat -> (free_entries (transmissions s) < fuel2)%nat ->
  write_loop s h input available written fuel1 = write_loop s h input available written fuel2.
Proof.
  induction fuel1 as [|fuel1 IH]; intros [|fuel2] s written H1 H2; try lia. cbn [write_loop].
  destruct (_ && _); [|done].
  set (count := Z.min (Z.min _ _) _).
  pose proof (queue_transmission_spec s h (Z.lor Tcp.tcp_ack Tcp.tcp_psh)
    (slice input (Z.to_nat written) (Z.to_nat count)) (send_next (socket_at s h))) as Hq.
  destruct (queue_transmission _ _ _ _ _) as [s1 queued]. destruct queued; cbn [negb]; [|done].
  destruct Hq as (_ & _ & i & pending & Hi & Hq & _).
  apply IH; cbn [modify set transmissions]; rewrite -> Hq;
    rewrite -> (free_entries_insert _ _ (mkTransmitKey h (send_next (socket_at s h)), pending) Hi) in H1, H2; lia.
Qed.

(** C34: The loop of [socket_write] ends after at most one iteration more than
    there are queue entries: any larger bound on its iterations gives the same
    state and the same result, whatever the window, the segment size (even 0)
    and the driver do. *)
Theorem stack_write_terminates s h input available written fuel :
  length (transmissions s) = transmit_capacity -> (write_fuel <= fuel)%nat ->
  write_loop s h input available written fuel = write_loop s h input available written write_fuel.
Proof.
  intros Hl Hf. pose proof (free_entries_length (transmissions s)) as Hfree. rewrite -> Hl in Hfree.
  unfold write_fuel in *. apply write_loop_fuel; lia.
Qed.

(** C15: [socket_write] on a connection queues exactly the first [n] bytes of its
    input behind everything written before, [n] being the size it reports; the
    bytes in flight then fit the peer's window and the congestion window; no
    other connection's socket or segment changes. *)
Theorem stack_write_spec h base written una pos s v input :
  length (transmissions s) = transmit_capacity ->
  queue_sync h base written una (transmissions s) pos -> (una <= length written)%nat ->
  slot (sockets s) h = Some v -> 1 <= peer_mss v -> 0 <= peer_window v -> 0 <= congestion_window v ->
  send_next v = u32 (base + Z.of_nat (length written)) -> send_unacknowledged v = u32 (base + Z.of_nat una) ->
  let '(s', res) := socket_write s h input in
  exists n pos' v',
    read_size res = Z.of_nat n /\ (n <= length input)%nat /\
    queue_sync h base (written ++ take n input) una (transmissions s') pos' /\
    slots (sockets s') !! h = Some v' /\ send_next v' = u32 (base + Z.of_nat (length written + n)) /\
    send_unacknowledged v' = send_unacknowledged v /\
    (n <> 0%nat -> Z.of_nat (length written + n) - Z.of_nat una <= Z.min (peer_window v) (congestion_window v)) /\
    others_queued h (transmissions s) (transmissions s') /\
    (forall j, j <> h -> slots (sockets s') !! j = slots (sockets s) !! j).
Proof.
  intros Hl Hq Hu Hslot Hmss Hpw Hcw Hsn Hsu.
  pose proof (flight_bound h base written una _ pos Hl Hq) as Hflight.
  unfold socket_write, stamp. destruct (time_ticks (world s)) as [w ticks].
  set (s1 := s <| world := w |> <| now := ticks |>).
  assert (sockets s1 = sockets s /\ transmissions s1 = transmissions s) as [Es Et] by done. clearbody s1.
  rewrite -> Es, Hslot. apply SocketInvariant.slot_Some in Hslot as [Hv Hfree].
  assert (forall st, exists n pos' v', read_size (mkRead st 0) = Z.of_nat n /\ (n <= length input)%nat /\
    queue_sync h base (written ++ take n input) una (transmissions s1) pos' /\
    slots (sockets s1) !! h = Some v' /\ send_next v' = u32 (base + Z.of_nat (length written + n)) /\
    send_unacknowledged v' = send_unacknowledged v /\
    (n <> 0%nat -> Z.of_nat (length written + n) - Z.of_nat una <= Z.min (peer_window v) (congestion_window v)) /\
    others_queued h (transmissions s) (transmissions s1) /\
    (forall j, j <> h -> slots (sockets s1) !! j = slots (sockets s) !! j)) as Hnone.
  { intros st. exists 0%nat, pos, v. rewrite -> Es, Et, take_0, app_nil_r, Nat.add_0_r. split_and!; try done. lia. }
  destruct (bool_decide _); [apply Hnone|]. destruct (negb _); [apply Hnone|]. destruct (size input =? 0); [apply Hnone|].
  set (s2 := if (send_next v =? send_unacknowledged v) && (u64 (now s1 - progress_at v) >=? rto v)
             then modify s1 h (fun socket => socket <| congestion_window ::= fun w => Z.min w (u32 (4 * peer_mss socket)) |>)
             else s1).
  assert (exists v1, slots (sockets s2) !! h = Some v1 /\ send_next v1 = send_next v /\
    send_unacknowledged v1 = send_unacknowledged v /\ peer_mss v1 = peer_mss v /\ peer_window v1 = peer_window v /\
    0 <= congestion_window v1 <= congestion_window v /\ transmissions s2 = transmissions s /\
    reassembly (sockets s2) = reassembly (sockets s) /\
    forall j, j <> h -> slots (sockets s2) !! j = slots (sockets s) !! j)
    as (v1 & Hv1 & E1 & E2 & E3 & E4 & E5 & Et2 & Er2 & Eo2).
  { unfold s2. destruct (_ && _).
    - eexists. split; [apply (socket_at_modify s1 h _ v); by rewrite Es|]. cbn. rewrite -> Es, Et.
      split_and!; try done; [apply Z.min_glb; [done|apply wrap_in_u; lia]|apply Z.le_min_l|].
      intros j Hj. by apply list_lookup_alter_ne.
    - exists v. rewrite -> Es, Et. split_and!; try done. }
  clearbody s2. assert (socket_at s2 h = v1) as -> by (unfold socket_at; by rewrite Hv1).
  assert (send_space v1 = Z.max 0 (Z.min (peer_window v) (congestion_window v1) - (Z.of_nat (length written) - Z.of_nat una)))
    as Hspace.
  { unfold send_space. rewrite -> E1, E2, E4, Hsn, Hsu, SocketStream.serial_distance, wrap_small by (unfold in_u; lia).
    destruct (Z.ltb_spec (Z.of_nat (length written) - Z.of_nat una) (Z.min (peer_window v) (congestion_window v1))); lia. }
  destruct (Z.eqb_spec (send_space v1) 0) as [H0|H0].
  { exists 0%nat, pos. rewrite -> take_0, app_nil_r, Nat.add_0_r.
    destruct (_ && _); eexists; (split; [done|split; [lia|split; [cbn [modify set transmissions]; by rewrite Et2|split]]]);
      [apply (socket_at_modify s2 h _ v1 Hv1)| |exact Hv1|]; cbn [modify set transmissions sockets send_next send_unacknowledged];
      rewrite -> ?E1, ?E2, ?Et2; split_and!; try done; try lia.
    intros j Hj. cbn. rewrite -> list_lookup_alter_ne by done. by apply Eo2. }
  assert (progress h base written input una s v1 0 s2) as Hp.
  { unfold progress. rewrite -> take_0, app_nil_r, Et2. split; [lia|]. split; [done|]. split; [by exists pos|].
    split; [done|]. split; [done|]. split; [done|]. exists v1. rewrite -> Nat.add_0_r, E1. by split_and!. }
  pose proof (write_loop_progress h base written input una s v1 (send_space v1) write_fuel 0 s2 Hu) as Hw.
  rewrite -> E3 in Hw. specialize (Hw Hmss Hp). change (Z.of_nat 0) with 0 in Hw.
  destruct (write_loop _ _ _ _ _ _) as [s' res]. destruct Hw as (m & Hm & Hr & _ & Hcap).
  destruct Hm as (Hmi & _ & (pos' & Hq') & Ho' & Hs' & _ & v' & Hv' & Hsn' & _ & Hsu' & _).
  exists m, pos', v'. split_and!; try done; [congruence|]. intros Hm0. destruct Hcap as [->|Hcap]; [done|]. lia.
Qed.
End writing.

(** ** Examples *)

(** A machine whose clock ticks at every reading and whose driver logs the
    frames it sends and never receives. *)
Record Logger := mkLogger { clock : Z; sent_frames : list (list Z) }.
Definition logger : Machine Logger := {|
  nic_initialize w := (w, true);
  nic_mac_address _ := Ethernet.mkMac [2; 0; 0; 0; 0; 2];
  nic_receive w := (w, None);
  nic_transmit w frame := (mkLogger (clock w) (sent_frames w ++ [frame]), true);
  time_ticks w := (mkLogger (clock w + 1) (sent_frames w), clock w + 1);
  write_text w _ := w;
|}.

Definition example_sender : SocketSlot := slot_default
  <| state := State.established |> <| references := 1 |>
  <| local := mkEndpoint (Ethernet.mkIpv4 [10; 0; 2; 15]) 80 |>
  <| remote := mkEndpoint (Ethernet.mkIpv4 [10; 0; 2; 2]) 4000 |>
  <| send_next := 2 ^ 32 - 2 |> <| send_unacknowledged := 2 ^ 32 - 2 |> <| peer_mss := 3 |>
  <| congestion_window := 8 |> <| peer_window := 7 |>.

Definition example_stack : @BootstrapStack Logger :=
  mkStack (mkLogger 0 []) Interface.initial (set_slot Socket.initial 1 example_sender)
    (replicate transmit_capacity None) 1 1 0 0 0 0 true false false.

Lemma empty_queue_sync h base q : Forall (fun e => e = None) q -> queue_sync h base [] 0 q (fun _ => 0%nat).
Proof.
  intros Hq. assert (forall i e, q !! i = Some (Some e) -> False) as Hn.
  { intros i e Hi. by apply (proj1 (Forall_lookup _ _) Hq) in Hi. }
  split.
  - intros i key pending Hi. by destruct (Hn _ _ Hi).
  - cbn. lia.
  - intros i j k1 p1 k2 p2 _ Hi. by destruct (Hn _ _ Hi).
Qed.

Lemma stack_write_terminates_witness :
  write_loop (machine := logger) example_stack 1 [1; 2; 3; 4; 5] 5 0 100 =
  write_loop (machine := logger) example_stack 1 [1; 2; 3; 4; 5] 5 0 write_fuel.
Proof. apply (stack_write_terminates (machine := logger)); [reflexivity|vm_compute; lia]. Defined.

Lemma stack_write_spec_witness :
  exists n pos' v', let s' := (socket_write (machine := logger) example_stack 1 [1; 2; 3; 4; 5; 6; 7; 8; 9]).1 in
    n = 7%nat /\ queue_sync 1 (2 ^ 32 - 2) ([] ++ take n [1; 2; 3; 4; 5; 6; 7; 8; 9]) 0 (transmissions s') pos' /\
    slots (sockets s') !! 1%nat = Some v'.
Proof.
  pose proof (stack_write_spec (machine := logger) 1 (2 ^ 32 - 2) [] 0 (fun _ => 0%nat) example_stack example_sender
    [1; 2; 3; 4; 5; 6; 7; 8; 9] ltac:(reflexivity) (empty_queue_sync _ _ _ ltac:(apply Forall_replicate; reflexivity))
    ltac:(lia) ltac:(vm_compute; reflexivity) ltac:(vm_compute; discriminate) ltac:(vm_compute; discriminate)
    ltac:(vm_compute; discriminate) ltac:(vm_compute; reflexivity) ltac:(vm_compute; reflexivity)) as H.
  assert (read_size (socket_write (machine := logger) example_stack 1 [1; 2; 3; 4; 5; 6; 7; 8; 9]).2 = 7) as E by (vm_compute; reflexivity).
  destruct (socket_write _ _ _) as [s' res]. cbn [fst snd] in *. destruct H as (n & pos' & v' & Hr & _ & Hq & Hv & _).
  exists n, pos', v'. split_and!; [lia|exact Hq|exact Hv].
Defined.

Definition example_queue : Transmissions :=
  <[3%nat := Some (mkTransmitKey 1 (2 ^ 32 - 2), mkTransmit 0 0 0 false 24 1 [1; 2; 3; 4])]> (replicate transmit_capacity None).

Lemma example_queue_sync : queue_sync 1 (2 ^ 32 - 2) [1; 2; 3; 4] 0 example_queue (fun _ => 0%nat).
Proof.
  assert (forall i key pending, example_queue !! i = Some (Some (key, pending)) ->
    i = 3%nat /\ key = mkTransmitKey 1 (2 ^ 32 - 2) /\ segment_data pending = [1; 2; 3; 4]) as Hq.
  { intros i key pending Hi. do 16 (destruct i as [|i]; [cbn in Hi; by simplify_eq|]). done. }
  split.
  - intros i key pending Hi _. apply Hq in Hi as (-> & -> & Hd). unfold segment_at. rewrite -> Hd.
    split; [|lia]. split_and!; [reflexivity|cbn; lia|vm_compute; discriminate|cbn; lia|reflexivity].
  - intros x Hx. cbn in Hx. eexists 3%nat, _, _. split; [reflexivity|]. split; [reflexivity|]. cbn. lia.
  - intros i j k1 p1 k2 p2 Hij Hi _ Hj. apply Hq in Hi as [-> _]. apply Hq in Hj as [-> _]. done.
Qed.

Lemma stack_acknowledge_spec_witness :
  let '(v', q') := acknowledge 1 (u32 (2 ^ 32 - 2 + Z.of_nat 3)) 9 example_sender example_queue in
  (exists pos', queue_sync 1 (2 ^ 32 - 2) [1; 2; 3; 4] 3 q' pos') /\ send_unacknowledged v' = 1.
Proof.
  pose proof (stack_acknowledge_spec 1 (2 ^ 32 - 2) [1; 2; 3; 4] 0 3 9 example_sender example_queue (fun _ => 0%nat)
    ltac:(reflexivity) example_queue_sync ltac:(vm_compute; reflexivity) ltac:(cbn; lia) ltac:(lia)) as H.
  destruct (acknowledge _ _ _ _ _) as [v' q']. destruct H as (Hq & Hu & _). split; [exact Hq|].
  rewrite -> Hu. vm_compute. reflexivity.
Defined.
End StackSend.
