(* ===== verification/TcpTable.v ===== *)
(** * [include/mikos/net/tcp_table.hpp]: the text of /proc/net/tcp *)

From stdpp Require Import strings.
From S2P Require Import Prelude Ethernet Socket Tcp Stack.
Import Socket.
Local Open Scope Z_scope.

Module TcpTable.

Definition tcp_table_header : list Z :=
  Stack.text "  sl  local_address rem_address   st tx_queue rx_queue tr " ++
  Stack.text "tm->when retrnsmt   uid  timeout inode" ++ [10].

(** The capacity of [TcpTableText]. *)
Definition text_capacity : Z := size tcp_table_header + Z.of_nat socket_capacity * 128 + 1.

(** [std::to_chars]: no leading zeros, lower-case letters; [n] digits at most. *)
Definition lower_digit (d : Z) : Z := if d <? 10 then 48 + d else 87 + d.
Fixpoint to_chars (n : nat) (value base : Z) : list Z :=
  match n with
  | O => []
  | S n => if value <? base then [lower_digit value]
           else to_chars n (value / base) base ++ [lower_digit (value mod base)]
  end.

(** The ten digits of the buffer suffice for every [u32] in base 10 or 16. *)
Definition digit_buffer := 10%nat.

Definition upper (digit : Z) : Z := if (97 <=? digit) && (digit <=? 102) then digit - 97 + 65 else digit.

Definition append_number (text : list Z) (value base : Z) (width : nat) : list Z :=
  let converted := to_chars digit_buffer value base in
  let text := if (length converted <? width)%nat then text ++ replicate (width - length converted) 48 else text in
  text ++ (upper <$> converted).

Definition append_endpoint (text : list Z) (endpoint : Endpoint) : list Z :=
  let octet := Ethernet.byte_at (Ethernet.ip_octet (endpoint_address endpoint)) in
  let address := Z.lor (Z.lor (Z.lor (octet 0%nat) (u32 (Z.shiftl (octet 1%nat) 8)))
                   (u32 (Z.shiftl (octet 2%nat) 16))) (u32 (Z.shiftl (octet 3%nat) 24)) in
  let text := append_number text address 16 8 in
  append_number (text ++ [58]) (port endpoint) 16 4.

Definition proc_tcp_state (state : State.SocketState) : option Z :=
  match state with
  | State.listening => Some 0x0a
  | State.syn_received => Some 0x03
  | State.established => Some 0x01
  | State.close_wait => Some 0x08
  | State.fin_wait_1 => Some 0x04
  | State.fin_wait_2 => Some 0x05
  | State.time_wait => Some 0x06
  | State.closing => Some 0x0b
  | State.last_ack => Some 0x09
  | _ => None
  end.

(** One row; [row] counts the rows, [inode] the slots. *)
Definition append_row (text : list Z) (row inode state : Z) (socket : SocketSlot) : list Z :=
  let text := append_number (text ++ Stack.text "   ") row 10 0 in
  let text := append_endpoint (text ++ Stack.text ": ") (local socket) in
  let text := append_endpoint (text ++ [32]) (remote socket) in
  let text := append_number (text ++ [32]) state 16 2 in
  let text := text ++ Stack.text " 00000000:00000000 00:00000000 00000000   0        0 " in
  append_number text inode 10 0 ++ [10].

Fixpoint format_rows (text : list Z) (row inode : Z) (sockets : list SocketSlot) : list Z :=
  match sockets with
  | [] => text
  | socket :: sockets =>
      let inode := u32 (inode + 1) in
      match proc_tcp_state (state socket) with
      | Some st =>
          if bool_decide (slot_type socket <> SocketAbi.stream) then format_rows text row inode sockets
          else format_rows (append_row text row inode st socket) (u32 (row + 1)) inode sockets
      | None => format_rows text row inode sockets
      end
  end.

Definition format_tcp_table (sockets : list SocketSlot) : list Z :=
  format_rows tcp_table_header 0 0 sockets ++ [0].

(** [BootstrapStack::tcp_table()] *)
Definition tcp_table {W} (s : @Stack.BootstrapStack W) : list Z := format_tcp_table (slots (Stack.sockets s)).

(** ** Numbers *)

(** The value a reader assigns to a digit string. *)
Definition digit_value (c : Z) : Z := if c <? 58 then c - 48 else c - 55.
Definition read_number (base : Z) (l : list Z) : Z := foldl (fun v c => v * base + digit_value c) 0 l.

Lemma read_number_snoc base l c : read_number base (l ++ [c]) = read_number base l * base + digit_value c.
Proof. unfold read_number. by rewrite foldl_app. Qed.

Lemma digit_value_lower d : 0 <= d < 16 -> digit_value (upper (lower_digit d)) = d.
Proof.
  intros H. unfold lower_digit, upper, digit_value. destruct (Z.ltb_spec d 10).
  - rewrite -> (proj2 (Z.leb_gt _ _)) by lia. cbn. destruct (Z.ltb_spec (48 + d) 58); lia.
  - rewrite -> (proj2 (Z.leb_le _ _)), (proj2 (Z.leb_le _ _)) by lia. cbn. destruct (Z.ltb_spec (87 + d - 97 + 65) 58); lia.
Qed.

Lemma to_chars_spec n base : forall value, 2 <= base <= 16 -> 0 <= value < base ^ Z.of_nat n -> (0 < n)%nat ->
  read_number base (upper <$> to_chars n value base) = value /\
  (1 <= length (to_chars n value base))%nat /\
  forall k : nat, (0 < k)%nat -> value < base ^ Z.of_nat k -> (length (to_chars n value base) <= k)%nat.
Proof.
  induction n as [|n IH]; intros value Hb Hv Hn; [lia|]. cbn [to_chars].
  destruct (Z.ltb_spec value base) as [Hlt|Hge].
  { split_and!; [|cbn; lia|intros; cbn; lia]. unfold read_number. cbn. rewrite -> digit_value_lower; lia. }
  destruct n as [|n]; [change (Z.of_nat 1) with 1 in Hv; lia|].
  assert (0 <= value / base < base ^ Z.of_nat (S n)) as Hd.
  { split; [apply Z.div_pos; lia|]. apply Z.div_lt_upper_bound; [lia|].
    rewrite -> (Nat2Z.inj_succ (S n)), Z.pow_succ_r in Hv by lia. lia. }
  destruct (IH (value / base) Hb Hd) as (H1 & H2 & H3); [lia|].
  rewrite -> fmap_app, length_app. cbn [fmap list_fmap length]. split_and!; [|lia|].
  - rewrite -> read_number_snoc, H1. pose proof (Z.mod_pos_bound value base ltac:(lia)).
    rewrite -> digit_value_lower by lia. pose proof (Z.div_mod value base). lia.
  - intros k Hk Hvk. destruct k as [|[|k]]; [lia|change (Z.of_nat 1) with 1 in Hvk; lia|].
    specialize (H3 (S k)). assert (value / base < base ^ Z.of_nat (S k)); [|lia].
    apply Z.div_lt_upper_bound; [lia|]. rewrite -> (Nat2Z.inj_succ (S k)), Z.pow_succ_r in Hvk by lia. lia.
Qed.

Lemma to_chars_digits n base : forall value, 2 <= base <= 16 -> 0 <= value ->
  Forall (fun c => exists d, 0 <= d < 16 /\ c = lower_digit d) (to_chars n value base).
Proof.
  induction n as [|n IH]; intros value Hb Hv; cbn [to_chars]; [constructor|].
  destruct (Z.ltb_spec value base); [apply Forall_singleton; exists value; split; [lia|done]|].
  apply Forall_app. split; [apply IH; [done|apply Z.div_pos; lia]|].
  apply Forall_singleton. exists (value mod base). split; [|done].
  pose proof (Z.mod_pos_bound value base). lia.
Qed.

Lemma upper_digit_not_colon d : 0 <= d < 16 -> upper (lower_digit d) <> 58.
Proof. intros H E. pose proof (digit_value_lower d H) as V. rewrite E in V. unfold digit_value in V. cbn in V.
  unfold upper, lower_digit in E. destruct (Z.ltb_spec d 10); [|destruct (Z.ltb_spec (87 + d) 58)]; lia || (destruct (_ && _); lia).
Qed.

Lemma read_number_zeros base n l : read_number base (replicate n 48 ++ l) = read_number base l.
Proof.
  unfold read_number. rewrite foldl_app. f_equal.
  induction n as [|n IH]; [done|]. cbn [replicate foldl]. by replace (0 * base + digit_value 48) with 0 by (cbn; lia).
Qed.

(** The digits [append_number] adds read as the number; none is a colon. *)
Lemma append_number_spec text value base width :
  2 <= base <= 16 -> 0 <= value < base ^ 10 -> (width <= 10)%nat ->
  exists D, append_number text value base width = text ++ D /\ read_number base D = value /\ (length D <= 10)%nat /\ Forall (fun c => c <> 58) D /\ ((0 < width)%nat -> value < base ^ Z.of_nat width -> length D = width).
Proof.
  intros Hb Hv Hw. unfold append_number, digit_buffer.
  destruct (to_chars_spec 10 base value) as (Hr & Hl & Hk); [done..|lia|].
  pose proof (Hk 10%nat ltac:(lia) (proj2 Hv)) as H10. pose proof (to_chars_digits 10 base value Hb (proj1 Hv)) as Hd.
  set (C := to_chars 10 value base) in *. clearbody C.
  assert (Forall (fun c => c <> 58) (upper <$> C)) as HC.
  { apply Forall_fmap. eapply Forall_impl; [exact Hd|]. intros c (d & Hd' & ->). by apply upper_digit_not_colon. }
  destruct (Nat.ltb_spec (length C) width) as [Hlt|Hge].
  - exists (replicate (width - length C) 48 ++ (upper <$> C)). rewrite -> read_number_zeros, <- app_assoc.
    rewrite -> length_app, length_replicate, length_fmap. split_and!; [done..|lia| |lia].
    apply Forall_app. split; [|done]. apply Forall_replicate. lia.
  - exists (upper <$> C). rewrite -> length_fmap. split_and!; [done..|lia|done|].
    intros H0 Hlt. specialize (Hk width H0 Hlt). lia.
Qed.

(** ** Reading the table back *)

Definition read_address (v : Z) : Ethernet.Ipv4Address :=
  Ethernet.mkIpv4 [v mod 256; v / 256 mod 256; v / 65536 mod 256; v / 16777216 mod 256].
Definition read_endpoint (l : list Z) : Endpoint :=
  mkEndpoint (read_address (read_number 16 (take 8 l))) (read_number 16 (drop 9 l)).

Record Row := mkRow { row_number : Z; row_local : Endpoint; row_remote : Endpoint; row_state : Z; row_inode : Z }.

(** The columns of a row; the first colon ends the row number. *)
Definition read_row (l : list Z) : option Row :=
  let l := drop 3 l in
  k ← first_slot (Z.eqb 58) l;
  Some (mkRow (read_number 10 (take k l)) (read_endpoint (slice l (k + 2) 13)) (read_endpoint (slice l (k + 16) 13))
    (read_number 16 (slice l (k + 30) 2)) (read_number 10 (slice l (k + 85) (length l - k - 86)))).

(** The sockets the table lists, in slot order. *)
Fixpoint listed (row inode : Z) (sockets : list SocketSlot) : list Row :=
  match sockets with
  | [] => []
  | socket :: sockets =>
      let inode := inode + 1 in
      match proc_tcp_state (state socket), bool_decide (slot_type socket = SocketAbi.stream) with
      | Some st, true => mkRow row (local socket) (remote socket) st inode :: listed (row + 1) inode sockets
      | _, _ => listed row inode sockets
      end
  end.

Definition endpoint_ok (e : Endpoint) : Prop := Ethernet.ipv4_ok (endpoint_address e) /\ in_u 16 (port e).

Lemma address_word a b c d : in_u 8 a -> in_u 8 b -> in_u 8 c -> in_u 8 d ->
  Z.lor (Z.lor (Z.lor a (u32 (Z.shiftl b 8))) (u32 (Z.shiftl c 16))) (u32 (Z.shiftl d 24)) =
  a + b * 2 ^ 8 + c * 2 ^ 16 + d * 2 ^ 24.
Proof.
  intros Ha Hb Hc Hd.
  rewrite -> !wrap_small by (rewrite -> Z.shiftl_mul_pow2 by done; word).
  rewrite -> (Z.lor_comm a), (lor_shiftl b a) by (lia || word).
  rewrite -> (Z.lor_comm _ (Z.shiftl c 16)), lor_shiftl by (lia || word).
  rewrite -> (Z.lor_comm _ (Z.shiftl d 24)), lor_shiftl by (lia || word). lia.
Qed.

Lemma append_endpoint_spec text e : endpoint_ok e ->
  exists D, append_endpoint text e = text ++ D /\ length D = 13%nat /\ read_endpoint D = e.
Proof.
  destruct e as [[o] p]. intros [[Hlen Hb] Hp]. cbn in Hlen, Hb, Hp.
  destruct o as [|a [|b [|c [|d [|]]]]]; try done. unfold append_endpoint.
  cbn [endpoint_address Ethernet.ip_octet port Ethernet.byte_at]. unfold Ethernet.byte_at. cbn [lookup list_lookup default].
  apply Forall_cons in Hb as [Ha Hb]. apply Forall_cons in Hb as [Hb Hc]. apply Forall_cons in Hc as [Hc Hd].
  apply Forall_cons in Hd as [Hd _]. cbn -[append_number Z.lor Z.shiftl wrap]. rewrite -> address_word by done.
  set (v := a + _ + _ + _). assert (Hv : 0 <= v < 2 ^ 32) by (subst v; word).
  destruct (append_number_spec text v 16 8) as (D1 & E1 & R1 & _ & _ & L1); [lia|word|lia|].
  rewrite E1. destruct (append_number_spec ((text ++ D1) ++ [58]) p 16 4) as (D2 & E2 & R2 & _ & _ & L2); [lia|word|lia|].
  rewrite E2. specialize (L1 ltac:(lia) ltac:(word)). specialize (L2 ltac:(lia) ltac:(word)).
  exists (D1 ++ [58] ++ D2). rewrite -> !length_app, <- !app_assoc, L1, L2. split_and!; [done..|].
  unfold read_endpoint. replace (D1 ++ [58] ++ D2) with ((D1 ++ [58]) ++ D2) by by rewrite <- app_assoc.
  rewrite -> drop_app_length' by by rewrite -> length_app, L1. rewrite <- app_assoc, take_app_length' by done.
  rewrite -> R1, R2. f_equal. unfold read_address. repeat f_equal; subst v; word.
Qed.

Lemma first_colon D rest : Forall (fun c => c <> 58) D -> first_slot (Z.eqb 58) (D ++ 58 :: rest) = Some (length D).
Proof.
  intros HD. apply first_slot_Some. exists 58. split_and!; [|done|].
  - by rewrite -> list_lookup_middle.
  - intros j y Hj Hlt. rewrite -> lookup_app_l in Hj by done. apply Z.eqb_neq.
    rewrite Forall_lookup in HD. intros <-. by eapply HD.
Qed.
Lemma slice_app_skip a b n m k : length a = k -> (k <= n)%nat -> slice (a ++ b) n m = slice b (n - k) m.
Proof. intros <- H. unfold slice. by rewrite -> drop_app_ge by done. Qed.
Lemma slice_app_here a b n m : length a = m -> n = 0%nat -> slice (a ++ b) n m = a.
Proof. intros <- ->. unfold slice. by rewrite -> drop_0, take_app_length. Qed.

(** A row is at most 109 bytes and reads back. *)
Lemma append_row_spec text row inode st socket :
  in_u 32 row -> in_u 32 inode -> 0 <= st < 16 -> endpoint_ok (local socket) -> endpoint_ok (remote socket) ->
  exists R, append_row text row inode st socket = text ++ R /\ (length R <= 128)%nat /\
    read_row R = Some (mkRow row (local socket) (remote socket) st inode).
Proof.
  intros Hrow Hin Hst Hl Hr. unfold append_row.
  edestruct (append_number_spec (text ++ Stack.text "   ") row 10 0) as (D & E1 & R1 & L1 & C1 & _); [lia|word|lia|].
  rewrite E1. edestruct (append_endpoint_spec (((text ++ Stack.text "   ") ++ D) ++ Stack.text ": ") (local socket)) as (A & E2 & L2 & R2); [done|].
  rewrite E2. edestruct (append_endpoint_spec (((((text ++ Stack.text "   ") ++ D) ++ Stack.text ": ") ++ A) ++ [32]) (remote socket)) as (B & E3 & L3 & R3); [done|].
  rewrite E3. edestruct (append_number_spec (((((((text ++ Stack.text "   ") ++ D) ++ Stack.text ": ") ++ A) ++ [32]) ++ B) ++ [32]) st 16 2)
    as (St & E4 & R4 & _ & _ & L4); [lia|word|lia|]. rewrite E4. specialize (L4 ltac:(lia) ltac:(word)).
  set (T := Stack.text " 00000000:00000000 00:00000000 00000000   0        0 ").
  match goal with |- context [append_number ?t inode 10 0] => edestruct (append_number_spec t inode 10 0) as (I & E5 & R5 & L5 & _ & _); [lia|word|lia|] end.
  rewrite E5. assert (LT : length T = 53%nat) by reflexivity.
  exists (Stack.text "   " ++ D ++ Stack.text ": " ++ A ++ [32] ++ B ++ [32] ++ St ++ T ++ I ++ [10]).
  split; [by rewrite <- !app_assoc|]. clear E1 E2 E3 E4 E5. clearbody T. split.
  { rewrite -> !length_app, L2, L3, L4, LT. change (length (Stack.text "   ")) with 3%nat. change (length (Stack.text ": ")) with 2%nat. cbn [length]. lia. }
  unfold read_row. rewrite -> drop_app_length' by done. change (Stack.text ": ") with [58; 32].
  set (tail := A ++ _). rewrite (first_colon D (32 :: tail) C1 : first_slot (Z.eqb 58) (D ++ [58; 32] ++ tail) = _).
  cbn [mbind option_bind]. rewrite -> take_app_length.
  assert (Hcut : forall n m, slice (D ++ [58; 32] ++ tail) (length D + S (S n)) m = slice tail n m).
  { intros n m. rewrite -> (slice_app_skip D _ _ _ (length D)) by lia.
    rewrite -> (slice_app_skip [58; 32] _ _ _ 2) by (cbn; lia). f_equal. lia. }
  do 2 f_equal; [done| | | |].
  - rewrite -> (Hcut 0%nat). subst tail. by rewrite -> slice_app_here.
  - rewrite -> (Hcut 14%nat). subst tail. rewrite -> (slice_app_skip A _ _ _ 13), (slice_app_skip [32] _ _ _ 1), slice_app_here by (done || lia). done.
  - rewrite -> (Hcut 28%nat). subst tail.
    rewrite -> (slice_app_skip A _ _ _ 13), (slice_app_skip [32] _ _ _ 1), (slice_app_skip B _ _ _ 13), (slice_app_skip [32] _ _ _ 1) by (done || lia).
    rewrite -> slice_app_here by (done || lia). done.
  - rewrite -> (Hcut 83%nat).
    replace (length _ - length D - 86)%nat with (length I)
      by (subst tail; rewrite -> !length_app, L2, L3, L4, LT; cbn [length]; lia).
    subst tail.
    rewrite -> (slice_app_skip A _ _ _ 13), (slice_app_skip [32] _ _ _ 1), (slice_app_skip B _ _ _ 13), (slice_app_skip [32] _ _ _ 1) by (done || lia).
    rewrite -> (slice_app_skip St _ _ _ 2), (slice_app_skip T _ _ _ 53), slice_app_here by (done || lia). done.
Qed.

Definition slot_ok (s : SocketSlot) : Prop := endpoint_ok (local s) /\ endpoint_ok (remote s).

Lemma format_rows_spec sockets : forall text row inode,
  Forall slot_ok sockets -> 0 <= row <= inode -> inode + Z.of_nat (length sockets) < 2 ^ 32 ->
  exists Rs, format_rows text row inode sockets = text ++ concat Rs /\
    Forall (fun R => (length R <= 128)%nat) Rs /\ (length Rs <= length sockets)%nat /\
    mapM read_row Rs = Some (listed row inode sockets).
Proof.
  induction sockets as [|s sockets IH]; intros text row inode Hok Hri Hn; cbn [length] in Hn.
  { exists []. by rewrite -> app_nil_r. }
  apply Forall_cons in Hok as [Hs Hok]. cbn [format_rows listed].
  rewrite -> (wrap_small 32 (inode + 1)) by word.
  assert (forall row', 0 <= row' <= inode + 1 -> forall text, exists Rs, format_rows text row' (inode + 1) sockets = text ++ concat Rs /\
    Forall (fun R => (length R <= 128)%nat) Rs /\ (length Rs <= S (length sockets))%nat /\
    mapM read_row Rs = Some (listed row' (inode + 1) sockets)) as Hskip.
  { intros row' Hr' text'. destruct (IH text' row' (inode + 1)) as (Rs & ? & ? & ? & ?); [done|lia..|]. exists Rs. split_and!; [done..|lia|done]. }
  destruct (proc_tcp_state (state s)) as [st|] eqn:Est; [|apply Hskip; lia].
  destruct (decide (slot_type s = SocketAbi.stream)) as [Ht|Ht].
  2: { rewrite -> bool_decide_eq_true_2, (bool_decide_eq_false_2 (_ = _)) by done. apply Hskip. lia. }
  rewrite -> bool_decide_eq_false_2, bool_decide_eq_true_2 by (done || (intros E; by apply E)).
  rewrite -> (wrap_small 32 (row + 1)) by word. destruct Hs as [Hl Hr].
  destruct (append_row_spec text row (inode + 1) st s) as (R & E & LR & RR); [word|word| |done..|].
  { destruct (state s); simplify_eq/=; lia. }
  rewrite E. destruct (IH (text ++ R) (row + 1) (inode + 1)) as (Rs & E' & F & L & M); [done|lia|lia|].
  exists (R :: Rs). rewrite E'. cbn [concat length mapM]. rewrite -> RR. cbn. rewrite M.
  split_and!; [by rewrite <- app_assoc|by constructor|lia|done].
Qed.

(** The text of /proc/net/tcp never exceeds its buffer, and each row reads
    back as the row of one stream socket: the columns give the endpoints, the
    state and the inode of exactly the listed sockets in slot order. *)
Theorem tcp_table_spec sockets :
  length sockets = socket_capacity -> Forall slot_ok sockets ->
  size (format_tcp_table sockets) <= text_capacity /\
  exists rows, format_tcp_table sockets = tcp_table_header ++ concat rows ++ [0] /\
    mapM read_row rows = Some (listed 0 0 sockets).
Proof.
  intros Hn Hok. unfold format_tcp_table, text_capacity.
  destruct (format_rows_spec sockets tcp_table_header 0 0) as (Rs & E & F & L & M); [done|lia|rewrite Hn; done|].
  rewrite E. split.
  - assert (length (concat Rs) <= length Rs * 128)%nat as Hc.
    { clear -F. induction F as [|R Rs HR _ IH]; [done|]. cbn [concat length]. rewrite -> length_app. lia. }
    unfold size. rewrite -> !length_app. cbn [length]. rewrite -> Hn in L. unfold socket_capacity in *. lia.
  - exists Rs. by rewrite <- app_assoc.
Qed.

Lemma tcp_table_spec_witness :
  let e p := mkEndpoint (Ethernet.mkIpv4 [10; 0; 2; 15]) p in
  let s := slot_default <| state := State.established |> <| slot_type := SocketAbi.stream |>
             <| local := e 22 |> <| remote := e 40000 |> in
  let sockets := replicate 12 slot_default ++ [s] in
  exists rows, format_tcp_table sockets = tcp_table_header ++ concat rows ++ [0] /\
    mapM read_row rows = Some [mkRow 0 (e 22) (e 40000) 1 13].
Proof.
  intros e s sockets. destruct (tcp_table_spec sockets) as [_ H]; [reflexivity| |exact H].
  assert (forall p, in_u 16 p -> endpoint_ok (e p)) as He
    by (intros p Hp; split; [split; [reflexivity|apply Ethernet.bytes_ok_check; reflexivity]|exact Hp]).
  assert (Hz : slot_ok slot_default)
    by (split; split; [split; [reflexivity|apply Ethernet.bytes_ok_check; reflexivity]|vm_compute; split; [discriminate|reflexivity]|split; [reflexivity|apply Ethernet.bytes_ok_check; reflexivity]|vm_compute; split; [discriminate|reflexivity]]).
  apply Forall_app. split; [by apply Forall_replicate|].
  apply Forall_singleton. split; apply He; word.
Defined.

End TcpTable.
