(* ===== verification/Filesystem.v ===== *)
(** * [drivers/fs/filesystem.hpp]: what the file systems share

    The error codes, the little-endian readers, the byte device a volume is
    built on and the checked transfers.  A method that reports an [Error] or
    a [Result] is a state transformer [io]: the state it leaves behind is kept
    on failure too, as in the code. *)

From S2P Require Import Prelude.
Local Open Scope Z_scope.

Module Fs.

Module Error.
Inductive t := none | io | invalid_argument | invalid_format | unsupported | corrupt | out_of_bounds
  | not_found | not_directory | is_directory | loop | already_exists | no_space.
#[global] Instance eq_dec : EqDecision t.
Proof. solve_decision. Defined.
End Error.
Abbreviation Error := Error.t.

(** [std::expected<T, Error>] *)
Inductive Result (T : Type) := expected (value : T) | unexpected (error : Error).
#[global] Arguments expected {T}.
#[global] Arguments unexpected {T}.

(** ** Effects *)

Definition io (S A : Type) : Type := S -> S * Result A.

#[global] Instance io_ret S : MRet (io S) := fun A a s => (s, expected a).
#[global] Instance io_bind S : MBind (io S) := fun A B k m s =>
  match m s with
  | (s, expected a) => k a s
  | (s, unexpected e) => (s, unexpected e)
  end.

Section io.
Context {S : Type}.
Definition fail {A} (e : Error) : io S A := fun s => (s, unexpected e).
(** [if (condition) return error;] *)
Definition stop_if (condition : bool) (e : Error) : io S unit := if condition then fail e else mret tt.
Definition gets {A} (f : S -> A) : io S A := fun s => (s, expected (f s)).
Definition modify (f : S -> S) : io S unit := fun s => (f s, expected tt).
(** The result as a value: a call whose error the caller inspects or ignores. *)
Definition attempt {A} (m : io S A) : io S (Result A) := fun s => let '(s, r) := m s in (s, expected r).
Definition of_result {A} (r : Result A) : io S A := fun s => (s, r).

(** What holds of the state and the result after running [m] from [s]. *)
Definition wp {A} (m : io S A) (s : S) (Q : S -> Result A -> Prop) : Prop := Q (m s).1 (m s).2.

Lemma wp_ret {A} (a : A) s Q : Q s (expected a) -> wp (mret a) s Q.
Proof. done. Qed.
Lemma wp_fail {A} e s (Q : S -> Result A -> Prop) : Q s (unexpected e) -> wp (fail e) s Q.
Proof. done. Qed.
Lemma wp_gets {A} (f : S -> A) s Q : Q s (expected (f s)) -> wp (gets f) s Q.
Proof. done. Qed.
Lemma wp_modify f s Q : Q (f s) (expected tt) -> wp (modify f) s Q.
Proof. done. Qed.
Lemma wp_mono {A} (m : io S A) s (P Q : S -> Result A -> Prop) :
  wp m s P -> (forall s r, P s r -> Q s r) -> wp m s Q.
Proof. unfold wp. auto. Qed.
Lemma wp_bind {A B} (m : io S A) (k : A -> io S B) s (Q : S -> Result B -> Prop) :
  wp m s (fun s r => match r with expected a => wp (k a) s Q | unexpected e => Q s (unexpected e) end) ->
  wp (m ≫= k) s Q.
Proof. unfold wp, mbind, io_bind. by destruct (m s) as [s' [a|e]]. Qed.
Lemma wp_attempt {A} (m : io S A) s Q : wp m s (fun s r => Q s (expected r)) -> wp (attempt m) s Q.
Proof. unfold wp, attempt. by destruct (m s). Qed.
Lemma wp_stop_if b e s (Q : S -> Result unit -> Prop) :
  (b = true -> Q s (unexpected e)) -> (b = false -> Q s (expected tt)) -> wp (stop_if b e) s Q.
Proof. destruct b; intros H1 H2; [by apply H1|by apply H2]. Qed.
Lemma wp_conj {A} (m : io S A) s (P Q : S -> Result A -> Prop) :
  wp m s P -> wp m s Q -> wp m s (fun s r => P s r /\ Q s r).
Proof. done. Qed.
End io.

(** ** Arithmetic *)

Definition byte (l : list Z) (i : nat) : Z := default 0 (l !! i).

(** [little_u16(data + i)] and the like: the bytes at [i] of a buffer. *)
Definition little_u16 (l : list Z) (i : nat) : Z := Z.lor (byte l i) (u16 (Z.shiftl (byte l (S i)) 8)).
Definition little_u32 (l : list Z) (i : nat) : Z :=
  Z.lor (Z.lor (Z.lor (byte l i) (u32 (Z.shiftl (byte l (1 + i)) 8)))
    (u32 (Z.shiftl (byte l (2 + i)) 16))) (u32 (Z.shiftl (byte l (3 + i)) 24)).
Definition little_u64 (l : list Z) (i : nat) : Z :=
  Z.lor (little_u32 l i) (u64 (Z.shiftl (little_u32 l (4 + i)) 32)).

Definition power_of_two (value : Z) : bool := negb (value =? 0) && (Z.land value (u32 (value - 1)) =? 0).
Definition add_overflows (left right : Z) : bool := right >? u64 (Z.lnot 0) - left.
Definition multiply_overflows (left right : Z) : bool :=
  negb (left =? 0) && (right >? u64 (Z.lnot 0) / left).

(** [data[i] = (u8)value; data[i + 1] = (u8)(value >> 8)] and so on. *)
Definition bytes16 (value : Z) : list Z := [u8 value; u8 (Z.shiftr value 8)].
Definition bytes32 (value : Z) : list Z :=
  [u8 value; u8 (Z.shiftr value 8); u8 (Z.shiftr value 16); u8 (Z.shiftr value 24)].

(** ** Names *)

Definition name_capacity := 768%nat.
(** [Name] is its first [size] characters; a C string is its characters. *)
Abbreviation Name := (list Z).
Definition fold (ascii_fold : bool) (c : Z) : Z :=
  if ascii_fold && (97 <=? c) && (c <=? 122) then c - 32 else c.
Definition equals (name : Name) (other : option (list Z)) (ascii_fold : bool) : bool :=
  match other with
  | None => false
  | Some other =>
      let size := length name in
      let n := Nat.min size (length other) in
      if negb (n =? size)%nat || negb (byte other n =? 0) then false
      else bool_decide (fold ascii_fold <$> name = fold ascii_fold <$> take n other)
  end.

(** Cells of a fixed buffer written one by one. *)
Definition put16 (l : list Z) (offset : nat) (value : Z) : list Z := patch l offset (bytes16 value).
Definition put32 (l : list Z) (offset : nat) (value : Z) : list Z := patch l offset (bytes32 value).

(** ** Path scanning *)

Definition slash := 47.
Definition dot := 46.
Fixpoint skip_slashes (path : list Z) : list Z :=
  match path with c :: rest => if c =? slash then skip_slashes rest else path | [] => [] end.
(** The characters before the next slash and what follows them. *)
Fixpoint component (path : list Z) : list Z * list Z :=
  match path with
  | [] => ([], [])
  | c :: rest => if c =? slash then ([], path) else let '(a, b) := component rest in (c :: a, b)
  end.
(** [while (n != 0 && p(path[n - 1])) --n;] *)
Fixpoint back_while (p : Z -> bool) (path : list Z) (n : nat) : nat :=
  match n with
  | O => O
  | S m => if p (byte path m) then back_while p path m else n
  end.

(** ** Devices *)

(** [ReadableDevice] and [WritableDevice].  A read yields the content of the
    output buffer and whether it succeeded; a failed one may leave anything
    there. *)
Class Device (D : Type) := {
  dev_read : D -> Z -> Z -> D * list Z * bool;
  dev_size : D -> Z;
  dev_write : D -> Z -> list Z -> D * bool;
  dev_flush : D -> D * bool;
}.

(** The callers pass arrays or have tested for null, so the null test is not
    repeated here. *)
Section transfer.
Context {D : Type} {device : Device D}.

Definition read_exact (d : D) (offset size : Z) : D * list Z * Error :=
  let device_size := dev_size d in
  if (offset >? device_size) || (size >? device_size - offset) then (d, [], Error.out_of_bounds) else
  let '(d, data, ok) := dev_read d offset size in
  (d, data, if ok : bool then Error.none else Error.io).

Definition write_exact (d : D) (offset : Z) (input : list Z) : D * Error :=
  let device_size := dev_size d in
  if (offset >? device_size) || (Z.of_nat (length input) >? device_size - offset)
  then (d, Error.out_of_bounds) else
  let '(d, ok) := dev_write d offset input in
  (d, if ok : bool then Error.none else Error.io).
End transfer.

Definition zero_bytes (size : Z) : list Z := replicate (Z.to_nat size) 0.

(** ** The contract of a device

    A device holds bytes; a transfer inside it that reports success moves
    exactly the bytes asked for, and a read changes none.  Nothing is promised
    of the bytes after a failed write.  [reliable] devices do not fail. *)

(** The [n] bytes at [offset]. *)
Definition bytes_at (f : Z -> Z) (offset : Z) (n : nat) : list Z :=
  (fun i => f (offset + Z.of_nat i)) <$> seq 0 n.

(** [f'] is [f] with [data] at [offset]. *)
Definition stored (f f' : Z -> Z) (offset : Z) (data : list Z) : Prop :=
  bytes_at f' offset (length data) = data /\
  forall o, ~ (offset <= o < offset + Z.of_nat (length data)) -> f' o = f o.

(** What a transfer of at most [size] bytes leaves in the buffer. *)
Definition received (data : list Z) (size : Z) : Prop := (length data <= Z.to_nat size)%nat /\ bytes_ok data.

Class DeviceLaws (D : Type) {device : Device D} := {
  contents : D -> Z -> Z;
  good : D -> Prop;
  reliable : D -> Prop;
  contents_byte d o : good d -> in_u 8 (contents d o);
  size_word d : good d -> in_u 64 (dev_size d);
  read_law d offset size :
    good d -> 0 <= offset -> 0 <= size < 2 ^ 32 -> offset + size <= dev_size d ->
    let '(d', data, ok) := dev_read d offset size in
    good d' /\ dev_size d' = dev_size d /\ (forall o, contents d' o = contents d o) /\
    (reliable d -> ok = true /\ reliable d') /\
    received data size /\ (ok = true -> data = bytes_at (contents d) offset (Z.to_nat size));
  write_law d offset input :
    good d -> bytes_ok input -> 0 <= offset -> Z.of_nat (length input) < 2 ^ 32 ->
    offset + Z.of_nat (length input) <= dev_size d ->
    let '(d', ok) := dev_write d offset input in
    good d' /\ dev_size d' = dev_size d /\ (reliable d -> ok = true /\ reliable d') /\
    (ok = true -> stored (contents d) (contents d') offset input);
  flush_law d :
    good d -> let '(d', ok) := dev_flush d in
    good d' /\ dev_size d' = dev_size d /\ (reliable d -> ok = true /\ reliable d') /\
    (forall o, contents d' o = contents d o);
}.

(** ** Lemmas: bytes of a device *)

Lemma length_bytes_at f o n : length (bytes_at f o n) = n.
Proof. unfold bytes_at. by rewrite -> length_fmap, length_seq. Qed.

Lemma lookup_bytes_at f o n i : (i < n)%nat -> bytes_at f o n !! i = Some (f (o + Z.of_nat i)).
Proof. intros H. unfold bytes_at. by rewrite -> list_lookup_fmap, lookup_seq_lt. Qed.

Lemma bytes_at_ext f g o n : (forall i, o <= i < o + Z.of_nat n -> f i = g i) -> bytes_at f o n = bytes_at g o n.
Proof. intros H. unfold bytes_at. apply list_fmap_ext. intros k i Hi. apply lookup_seq in Hi. apply H. lia. Qed.

Lemma bytes_at_shift f g o p n : (forall i, 0 <= i < Z.of_nat n -> f (o + i) = g (p + i)) -> bytes_at f o n = bytes_at g p n.
Proof. intros H. unfold bytes_at. apply list_fmap_ext. intros k i Hi. apply lookup_seq in Hi. apply H. lia. Qed.

Lemma bytes_at_app f o n m : bytes_at f o (n + m) = bytes_at f o n ++ bytes_at f (o + Z.of_nat n) m.
Proof.
  unfold bytes_at. rewrite -> seq_app, fmap_app. f_equal.
  replace (0 + n)%nat with (n + 0)%nat by lia. rewrite <- fmap_add_seq, <- list_fmap_compose.
  apply list_fmap_ext. intros k i _. unfold compose. f_equal. lia.
Qed.

Lemma bytes_at_slice f o n k m : (k + m <= n)%nat -> slice (bytes_at f o n) k m = bytes_at f (o + Z.of_nat k) m.
Proof.
  intros H. replace n with (k + (m + (n - k - m)))%nat by lia. unfold slice.
  rewrite -> (bytes_at_app f o k), drop_app_length' by (by rewrite -> length_bytes_at).
  rewrite -> bytes_at_app, take_app_length' by (by rewrite -> length_bytes_at). done.
Qed.

Lemma bytes_at_ok f o n : (forall i, in_u 8 (f i)) -> bytes_ok (bytes_at f o n).
Proof. intros H. unfold bytes_at. apply Forall_fmap, Forall_forall. intros i _. apply H. Qed.

Lemma bytes_at_lookup_stored f o data i x :
  bytes_at f o (length data) = data -> data !! i = Some x -> f (o + Z.of_nat i) = x.
Proof.
  intros H Hx. pose proof (lookup_lt_Some _ _ _ Hx). rewrite <- H in Hx.
  rewrite -> lookup_bytes_at in Hx by done. by injection Hx.
Qed.

(** A stored range read elsewhere, or at itself. *)
Lemma stored_frame f f' o data p n :
  stored f f' o data -> p + Z.of_nat n <= o \/ o + Z.of_nat (length data) <= p ->
  bytes_at f' p n = bytes_at f p n.
Proof. intros [_ H] Hd. apply bytes_at_ext. intros i Hi. apply H. lia. Qed.

Lemma stored_app f f1 f2 o a b :
  stored f f1 o a -> stored f1 f2 (o + Z.of_nat (length a)) b -> stored f f2 o (a ++ b).
Proof.
  intros [H1 H2] H3. pose proof (stored_frame f1 f2 _ b o (length a) H3 ltac:(lia)) as H4. destruct H3 as [H5 H6].
  split.
  - rewrite -> length_app, bytes_at_app, H4, H1. by f_equal.
  - intros i Hi. rewrite -> length_app in Hi. rewrite -> H6, H2 by lia. done.
Qed.

Lemma stored_nil f f' o : (forall i, f' i = f i) -> stored f f' o [].
Proof. by split. Qed.

(** Rewriting a buffer that holds the bytes at [o] stores its changed part. *)
Lemma stored_patch f f' o l k data :
  l = bytes_at f o (length l) -> (k + length data <= length l)%nat ->
  stored f f' o (patch l k data) -> stored f f' (o + Z.of_nat k) data.
Proof.
  intros Hl Hk [H1 H2]. rewrite -> length_patch in H1, H2 by done. split.
  - rewrite <- (bytes_at_slice f' o (length l)), H1 by done. unfold slice, patch.
    rewrite -> drop_app_length', take_app_length' by (rewrite -> ?length_take; lia). done.
  - intros i Hi. destruct (decide (o <= i < o + Z.of_nat (length l))) as [Hin|Hout]; [|by apply H2].
    assert (Hb : forall j, (j < length l)%nat -> f' (o + Z.of_nat j) = byte (patch l k data) j).
    { intros j Hj. unfold byte. rewrite <- H1, lookup_bytes_at by done. done. }
    replace i with (o + Z.of_nat (Z.to_nat (i - o))) by lia. rewrite -> Hb by lia.
    set (j := Z.to_nat (i - o)) in *. assert (j < length l)%nat by lia.
    assert (~ (k <= j < k + length data)%nat) as Hj by lia.
    unfold byte, patch. destruct (decide (j < k)%nat).
    + rewrite -> lookup_app_l, lookup_take_lt by (rewrite -> ?length_take; lia).
      rewrite -> Hl, lookup_bytes_at by done. done.
    + rewrite -> lookup_app_r, lookup_app_r, lookup_drop by (rewrite -> ?length_take; lia).
      rewrite -> length_take. replace (_ + _)%nat with j by lia.
      rewrite -> Hl, lookup_bytes_at by done. done.
Qed.

Lemma stored_same f f' g g' o data :
  stored f f' o data -> (forall i, g i = f i) -> (forall i, g' i = f' i) -> stored g g' o data.
Proof.
  intros [H1 H2] E E'. split.
  - rewrite <- H1 at 2. apply bytes_at_ext. intros. apply E'.
  - intros i Hi. by rewrite -> E, E', H2.
Qed.

(** ** Lemmas: little-endian words *)

Lemma byte_in_u l i : bytes_ok l -> in_u 8 (byte l i).
Proof.
  intros H. unfold byte. destruct (l !! i) eqn:E; cbn; [|word].
  eapply Forall_lookup_1; [exact H|exact E].
Qed.

Lemma little_u16_sum l i : bytes_ok l -> little_u16 l i = byte l i + byte l (S i) * 2 ^ 8.
Proof.
  intros H. pose proof (byte_in_u l i H). pose proof (byte_in_u l (S i) H). unfold little_u16.
  rewrite -> wrap_small by (rewrite -> Z.shiftl_mul_pow2 by done; word).
  rewrite -> Z.lor_comm, lor_shiftl by (lia || word). lia.
Qed.

Lemma little_u32_sum l i : bytes_ok l ->
  little_u32 l i = byte l i + byte l (1 + i) * 2 ^ 8 + byte l (2 + i) * 2 ^ 16 + byte l (3 + i) * 2 ^ 24.
Proof.
  intros H. pose proof (byte_in_u l i H). pose proof (byte_in_u l (1 + i) H).
  pose proof (byte_in_u l (2 + i) H). pose proof (byte_in_u l (3 + i) H). unfold little_u32.
  generalize dependent (byte l i). generalize dependent (byte l (1 + i)).
  generalize dependent (byte l (2 + i)). generalize dependent (byte l (3 + i)). intros d Hd c Hc b Hb a Ha.
  rewrite -> !wrap_small by (rewrite -> Z.shiftl_mul_pow2 by done; word).
  rewrite -> (Z.lor_comm a), (lor_shiftl b a) by (lia || word).
  rewrite -> (Z.lor_comm _ (Z.shiftl c 16)), lor_shiftl by (lia || word).
  rewrite -> (Z.lor_comm _ (Z.shiftl d 24)), lor_shiftl by (lia || word). lia.
Qed.

Lemma little_u16_in_u l i : bytes_ok l -> in_u 16 (little_u16 l i).
Proof. intros H. rewrite -> little_u16_sum by done. pose proof (byte_in_u l i H). pose proof (byte_in_u l (S i) H). word. Qed.
Lemma little_u32_in_u l i : bytes_ok l -> in_u 32 (little_u32 l i).
Proof.
  intros H. rewrite -> little_u32_sum by done. pose proof (byte_in_u l i H). pose proof (byte_in_u l (1 + i) H).
  pose proof (byte_in_u l (2 + i) H). pose proof (byte_in_u l (3 + i) H). word.
Qed.

Lemma bytes16_ok v : bytes_ok (bytes16 v).
Proof. repeat (apply Forall_cons; split; [apply wrap_in_u; lia|]). apply Forall_nil. done. Qed.
Lemma bytes32_ok v : bytes_ok (bytes32 v).
Proof. repeat (apply Forall_cons; split; [apply wrap_in_u; lia|]). apply Forall_nil. done. Qed.

Lemma byte_slice l k m i : (i < m)%nat -> byte (slice l k m) i = byte l (k + i).
Proof. intros H. unfold byte, slice. by rewrite -> lookup_take_lt, lookup_drop by done. Qed.

Lemma little_u16_bytes l i v : bytes_ok l -> slice l i 2 = bytes16 v -> little_u16 l i = u16 v.
Proof.
  intros H E. rewrite -> little_u16_sum by done.
  replace (byte l i) with (byte (slice l i 2) 0) by (rewrite -> byte_slice by lia; f_equal; lia).
  replace (byte l (S i)) with (byte (slice l i 2) 1) by (rewrite -> byte_slice by lia; f_equal; lia).
  rewrite -> E. unfold bytes16, byte. cbn. rewrite -> Z.shiftr_div_pow2 by done. word.
Qed.
Lemma little_u32_bytes l i v : bytes_ok l -> slice l i 4 = bytes32 v -> little_u32 l i = u32 v.
Proof.
  intros H E. rewrite -> little_u32_sum by done.
  replace (byte l i) with (byte (slice l i 4) 0) by (rewrite -> byte_slice by lia; f_equal; lia).
  replace (byte l (1 + i)) with (byte (slice l i 4) 1) by (rewrite -> byte_slice by lia; f_equal; lia).
  replace (byte l (2 + i)) with (byte (slice l i 4) 2) by (rewrite -> byte_slice by lia; f_equal; lia).
  replace (byte l (3 + i)) with (byte (slice l i 4) 3) by (rewrite -> byte_slice by lia; f_equal; lia).
  rewrite -> E. unfold bytes32, byte. cbn [lookup list_lookup default from_option].
  rewrite -> !Z.shiftr_div_pow2 by done. unfold wrap, id.
  change (2 ^ 24) with (2 ^ 8 * 2 ^ 8 * 2 ^ 8). change (2 ^ 16) with (2 ^ 8 * 2 ^ 8).
  change (2 ^ 32) with (2 ^ 8 * 2 ^ 8 * 2 ^ 8 * 2 ^ 8).
  rewrite <- !Z.div_div by done. change (2 ^ 8) with 256. Z.to_euclidean_division_equations; lia.
Qed.

Lemma little_u32_slice l k m i : (i + 4 <= m)%nat -> little_u32 (slice l k m) i = little_u32 l (k + i).
Proof.
  intros H. unfold little_u32. rewrite -> !byte_slice by lia.
  replace (k + (1 + i))%nat with (1 + (k + i))%nat by lia.
  replace (k + (2 + i))%nat with (2 + (k + i))%nat by lia.
  by replace (k + (3 + i))%nat with (3 + (k + i))%nat by lia.
Qed.
Lemma little_u16_slice l k m i : (i + 2 <= m)%nat -> little_u16 (slice l k m) i = little_u16 l (k + i).
Proof. intros H. unfold little_u16. rewrite -> !byte_slice by lia. by rewrite <- plus_n_Sm. Qed.

(** Reading a buffer after part of it was overwritten. *)
Lemma byte_patch_out l k d i : (k + length d <= length l)%nat -> (i < k \/ k + length d <= i)%nat ->
  byte (patch l k d) i = byte l i.
Proof.
  intros Hk Hi. unfold byte, patch. f_equal. destruct (decide (i < k)%nat).
  - rewrite -> lookup_app_l, lookup_take_lt by (rewrite -> ?length_take; lia). done.
  - rewrite -> lookup_app_r, lookup_app_r, lookup_drop by (rewrite -> ?length_take; lia). f_equal. rewrite -> length_take. lia.
Qed.
Lemma byte_patch_in l k d i : (k + length d <= length l)%nat -> (k <= i < k + length d)%nat ->
  byte (patch l k d) i = byte d (i - k).
Proof.
  intros Hk Hi. unfold byte, patch. f_equal.
  rewrite -> lookup_app_r, lookup_app_l by (rewrite -> ?length_take; lia). f_equal. rewrite -> length_take. lia.
Qed.
Lemma little_u16_patch_out l k d i : (k + length d <= length l)%nat -> (i + 2 <= k \/ k + length d <= i)%nat ->
  little_u16 (patch l k d) i = little_u16 l i.
Proof. intros Hk Hi. unfold little_u16. by rewrite -> !byte_patch_out by lia. Qed.
Lemma little_u32_patch_out l k d i : (k + length d <= length l)%nat -> (i + 4 <= k \/ k + length d <= i)%nat ->
  little_u32 (patch l k d) i = little_u32 l i.
Proof. intros Hk Hi. unfold little_u32. by rewrite -> !byte_patch_out by lia. Qed.
Lemma little_u16_patch_in l k d i : (k + length d <= length l)%nat -> (k <= i /\ i + 2 <= k + length d)%nat ->
  little_u16 (patch l k d) i = little_u16 d (i - k).
Proof.
  intros Hk Hi. unfold little_u16. rewrite -> !byte_patch_in by lia.
  by replace (S i - k)%nat with (S (i - k)) by lia.
Qed.
Lemma little_u32_patch_in l k d i : (k + length d <= length l)%nat -> (k <= i /\ i + 4 <= k + length d)%nat ->
  little_u32 (patch l k d) i = little_u32 d (i - k).
Proof.
  intros Hk Hi. unfold little_u32. rewrite -> !byte_patch_in by lia.
  replace (1 + i - k)%nat with (1 + (i - k))%nat by lia. replace (2 + i - k)%nat with (2 + (i - k))%nat by lia.
  by replace (3 + i - k)%nat with (3 + (i - k))%nat by lia.
Qed.

(** ** Lemmas: checked transfers *)

Section transfer_laws.
Context {D : Type} {device : Device D} {laws : DeviceLaws D}.

(** The device only moved its cache or its head. *)
Definition same_bytes (d d' : D) : Prop :=
  good d' /\ dev_size d' = dev_size d /\ (reliable d -> reliable d') /\ forall o, contents d' o = contents d o.

Lemma same_bytes_refl d : good d -> same_bytes d d.
Proof. by repeat split. Qed.
Lemma same_bytes_trans d1 d2 d3 : same_bytes d1 d2 -> same_bytes d2 d3 -> same_bytes d1 d3.
Proof.
  intros (H1 & H2 & H3 & H4) (H5 & H6 & H7 & H8). split; [done|]. split; [congruence|].
  split; [auto|]. intros o. by rewrite -> H8, H4.
Qed.

Lemma read_exact_spec d offset size :
  good d -> 0 <= offset -> 0 <= size < 2 ^ 32 ->
  let '(d', data, e) := read_exact d offset size in
  same_bytes d d' /\
  match e with
  | Error.none => offset + size <= dev_size d /\ data = bytes_at (contents d) offset (Z.to_nat size)
  | Error.out_of_bounds => dev_size d < offset + size /\ data = []
  | Error.io => ~ reliable d /\ received data size
  | _ => False
  end.
Proof.
  intros Hd Ho Hs. unfold read_exact. destruct (Z.gtb_spec offset (dev_size d)); cbn [orb].
  { split; [by apply same_bytes_refl|]. split; [lia|done]. }
  destruct (Z.gtb_spec size (dev_size d - offset)).
  { split; [by apply same_bytes_refl|]. split; [lia|done]. }
  pose proof (read_law d offset size Hd Ho Hs ltac:(lia)) as L.
  destruct (dev_read d offset size) as [[d' data] ok]. destruct L as (Hg & Hz & Hc & Hr & Hl & Hok).
  split; [repeat split; [done..|by apply Hr|done]|].
  destruct ok; [split; [lia|by apply Hok]|]. split; [|done]. by intros [? _]%Hr.
Qed.

Lemma read_exact_received d offset size :
  good d -> 0 <= offset -> 0 <= size < 2 ^ 32 -> received (read_exact d offset size).1.2 size.
Proof.
  intros Hd Ho Hs. pose proof (read_exact_spec d offset size Hd Ho Hs) as L.
  destruct (read_exact d offset size) as [[d' data] e]. destruct L as [_ L]. cbn. destruct e; try done.
  - destruct L as [_ ->]. split; [by rewrite length_bytes_at|]. apply bytes_at_ok. intros. by apply contents_byte.
  - by destruct L.
  - destruct L as [_ ->]. split; [cbn; lia|by apply Forall_nil].
Qed.

Lemma write_exact_spec d offset input :
  good d -> bytes_ok input -> 0 <= offset -> Z.of_nat (length input) < 2 ^ 32 ->
  let '(d', e) := write_exact d offset input in
  good d' /\ dev_size d' = dev_size d /\ (reliable d -> reliable d') /\
  match e with
  | Error.none => offset + Z.of_nat (length input) <= dev_size d /\ stored (contents d) (contents d') offset input
  | Error.out_of_bounds => dev_size d < offset + Z.of_nat (length input) /\ d' = d
  | Error.io => ~ reliable d
  | _ => False
  end.
Proof.
  intros Hd Hi Ho Hs. unfold write_exact. destruct (Z.gtb_spec offset (dev_size d)); cbn [orb]; [by split_and!; try lia|].
  destruct (Z.gtb_spec (Z.of_nat (length input)) (dev_size d - offset)); [by split_and!; try lia|].
  pose proof (write_law d offset input Hd Hi Ho Hs ltac:(lia)) as L.
  destruct (dev_write d offset input) as [d' ok]. destruct L as (Hg & Hz & Hr & Hok).
  split; [done|]. split; [done|]. split; [by intros [_ ?]%Hr|].
  destruct ok; [split; [lia|by apply Hok]|]. by intros [? _]%Hr.
Qed.
End transfer_laws.

(** ** A device in memory *)

Definition memory (l : list Z) (o : Z) : Z := if 0 <=? o then byte l (Z.to_nat o) else 0.

Lemma memory_bytes_at l o n : 0 <= o -> (Z.to_nat o + n <= length l)%nat -> bytes_at (memory l) o n = slice l (Z.to_nat o) n.
Proof.
  intros Ho Hn. apply list_eq. intros i. destruct (decide (i < n)%nat) as [Hi|Hi].
  - rewrite -> lookup_bytes_at by done. unfold slice. rewrite -> lookup_take_lt, lookup_drop by done.
    unfold memory, byte. rewrite -> (proj2 (Z.leb_le _ _)) by lia.
    replace (Z.to_nat (o + Z.of_nat i)) with (Z.to_nat o + i)%nat by lia.
    destruct (l !! (Z.to_nat o + i)%nat) eqn:E; [done|]. apply lookup_ge_None in E. lia.
  - rewrite -> !lookup_ge_None_2; [done|rewrite -> length_slice by done; lia|rewrite -> length_bytes_at; lia].
Qed.

Lemma memory_stored l o data : 0 <= o -> (Z.to_nat o + length data <= length l)%nat ->
  stored (memory l) (memory (patch l (Z.to_nat o) data)) o data.
Proof.
  intros Ho Hn. split.
  - rewrite -> memory_bytes_at by (rewrite -> ?length_patch; lia). unfold slice, patch.
    rewrite -> drop_app_length', take_app_length' by (rewrite -> ?length_take; lia). done.
  - intros i Hi. unfold memory. destruct (Z.leb_spec 0 i); [|done]. unfold byte, patch. f_equal.
    destruct (decide (Z.to_nat i < Z.to_nat o)%nat).
    + by rewrite -> lookup_app_l, lookup_take_lt by (rewrite -> ?length_take; lia).
    + rewrite -> lookup_app_r, lookup_app_r, lookup_drop by (rewrite -> ?length_take; lia). f_equal.
      rewrite -> length_take. lia.
Qed.

Lemma memory_byte l o : bytes_ok l -> in_u 8 (memory l o).
Proof. intros H. unfold memory. case_match; [by apply byte_in_u|word]. Qed.

#[global] Instance memory_device : Device (list Z) := {|
  dev_read l o n := (l, slice l (Z.to_nat o) (Z.to_nat n), true);
  dev_size l := Z.of_nat (length l);
  dev_write l o data := (patch l (Z.to_nat o) data, true);
  dev_flush l := (l, true);
|}.

#[global] Program Instance memory_laws : DeviceLaws (list Z) := {|
  contents := memory;
  good l := bytes_ok l /\ Z.of_nat (length l) < 2 ^ 64;
  reliable l := True;
|}.
Next Obligation. intros l o [H _]. by apply memory_byte. Qed.
Next Obligation. intros l [_ H]. cbn. unfold in_u. lia. Qed.
Next Obligation.
  intros l o n H Ho Hn Hs. cbn -[slice bytes_at] in *.
  split; [done|]. split; [done|]. split; [done|]. split; [done|]. split.
  - split; [rewrite -> length_slice; lia|apply bytes_ok_slice, H].
  - intros _. by rewrite -> memory_bytes_at by lia.
Qed.
Next Obligation.
  intros l o data [H Hl] Hd Ho Hn Hs. cbn -[patch] in *. rewrite -> length_patch by lia.
  split; [split; [by apply bytes_ok_patch|done]|]. split; [done|]. split; [done|].
  intros _. apply memory_stored; lia.
Qed.
Next Obligation. intros l H. cbn. by split; [|split; [|split]]. Qed.

(** ** A sparse device

    A large device that is zero but for the bytes written, the last write
    first. *)

Record Sparse := mkSparse { sparse_size : Z; sparse_writes : list (Z * list Z) }.

Fixpoint sparse_byte (writes : list (Z * list Z)) (o : Z) : Z :=
  match writes with
  | [] => 0
  | (at_, data) :: writes =>
      if (at_ <=? o) && (o <? at_ + Z.of_nat (length data)) then byte data (Z.to_nat (o - at_)) else sparse_byte writes o
  end.

Lemma sparse_byte_in_u writes o : Forall (fun w => bytes_ok w.2) writes -> in_u 8 (sparse_byte writes o).
Proof.
  induction 1 as [|[at_ data] writes H _ IH]; cbn; [word|]. case_match; [by apply byte_in_u|done].
Qed.

Lemma sparse_stored writes o data : stored (sparse_byte writes) (sparse_byte ((o, data) :: writes)) o data.
Proof.
  split.
  - apply list_eq. intros i. destruct (decide (i < length data)%nat) as [Hi|Hi].
    + rewrite -> lookup_bytes_at by done. cbn [sparse_byte].
      rewrite -> (proj2 (Z.leb_le _ _)), (proj2 (Z.ltb_lt _ _)) by lia. cbn [andb]. unfold byte.
      replace (Z.to_nat (o + Z.of_nat i - o)) with i by lia. by destruct (lookup_lt_is_Some_2 data i Hi) as [x ->].
    + rewrite -> !lookup_ge_None_2; [done|lia|rewrite length_bytes_at; lia].
  - intros p Hp. cbn [sparse_byte]. destruct (Z.leb_spec o p); [|done]. destruct (Z.ltb_spec p (o + Z.of_nat (length data))); [lia|done].
Qed.

#[global] Instance sparse_device : Device Sparse := {|
  dev_read d o n := (d, bytes_at (sparse_byte (sparse_writes d)) o (Z.to_nat n), true);
  dev_size d := sparse_size d;
  dev_write d o data := (mkSparse (sparse_size d) ((o, data) :: sparse_writes d), true);
  dev_flush d := (d, true);
|}.

#[global] Program Instance sparse_laws : DeviceLaws Sparse := {|
  contents d := sparse_byte (sparse_writes d);
  good d := in_u 64 (sparse_size d) /\ Forall (fun w => bytes_ok w.2) (sparse_writes d);
  reliable d := True;
|}.
Next Obligation. intros d o [_ H]. by apply sparse_byte_in_u. Qed.
Next Obligation. by intros d [H _]. Qed.
Next Obligation.
  intros d o n H Ho Hn Hs. cbn -[bytes_at]. split; [done|]. split; [done|]. split; [done|]. split; [done|].
  split; [|done]. split; [by rewrite length_bytes_at|]. apply bytes_at_ok. intros i. by apply sparse_byte_in_u, H.
Qed.
Next Obligation.
  intros d o data [H Hw] Hd Ho Hn Hs. cbn -[sparse_byte]. split; [split; [done|by apply Forall_cons]|].
  split; [done|]. split; [done|]. intros _. apply sparse_stored.
Qed.
Next Obligation. intros d H. cbn. by split; [|split; [|split]]. Qed.

End Fs.
