(* ===== verification/SectorReader.v ===== *)
(** * [drivers/storage/sector_reader.hpp]: a byte device over a sector device

    [SectorReader] keeps one sector in a cache, moves whole runs of sectors
    directly when the buffer is aligned, and reads, modifies and writes single
    sectors otherwise.  The sector device is an interface with its laws; the
    reader is an instance of the byte device of filesystem.hpp. *)

From S2P Require Import Prelude Filesystem.
Import Fs.
Local Open Scope Z_scope.

(** [SectorDevice] and [WritableSectorDevice]. *)
Class SectorDevice (D : Type) := {
  sector_size : Z;
  sector_count : D -> Z;
  read_sector : D -> Z -> D * list Z * bool;
  read_sectors : D -> Z -> Z -> D * list Z * bool;
  write_sector : D -> Z -> list Z -> D * bool;
  write_sectors : D -> Z -> list Z -> D * bool;
  sector_flush : D -> D * bool;
}.

(** What a sector device promises; [disk] is its bytes. *)
Class SectorLaws (D : Type) {sectors : SectorDevice D} := {
  disk : D -> Z -> Z;
  sector_good : D -> Prop;
  sector_reliable : D -> Prop;
  sector_size_range : 0 < sector_size < 2 ^ 31;
  sector_count_range d : sector_good d -> 0 <= sector_count d;
  disk_byte d o : sector_good d -> in_u 8 (disk d o);
  read_sector_law d s : sector_good d -> 0 <= s < sector_count d ->
    let '(d', data, ok) := read_sector d s in
    sector_good d' /\ sector_count d' = sector_count d /\ (forall o, disk d' o = disk d o) /\
    (sector_reliable d -> ok = true /\ sector_reliable d') /\
    received data sector_size /\
    (ok = true -> data = bytes_at (disk d) (s * sector_size) (Z.to_nat sector_size));
  read_sectors_law d s n : sector_good d -> 0 <= s -> 0 < n < 2 ^ 32 -> n mod sector_size = 0 ->
    s * sector_size + n <= sector_count d * sector_size ->
    let '(d', data, ok) := read_sectors d s n in
    sector_good d' /\ sector_count d' = sector_count d /\ (forall o, disk d' o = disk d o) /\
    (sector_reliable d -> ok = true /\ sector_reliable d') /\
    received data n /\
    (ok = true -> data = bytes_at (disk d) (s * sector_size) (Z.to_nat n));
  write_sector_law d s input : sector_good d -> bytes_ok input -> 0 <= s < sector_count d ->
    length input = Z.to_nat sector_size ->
    let '(d', ok) := write_sector d s input in
    sector_good d' /\ sector_count d' = sector_count d /\
    (sector_reliable d -> ok = true /\ sector_reliable d') /\
    (ok = true -> stored (disk d) (disk d') (s * sector_size) input);
  write_sectors_law d s input : sector_good d -> bytes_ok input -> 0 <= s ->
    0 < Z.of_nat (length input) < 2 ^ 32 -> Z.of_nat (length input) mod sector_size = 0 ->
    s * sector_size + Z.of_nat (length input) <= sector_count d * sector_size ->
    let '(d', ok) := write_sectors d s input in
    sector_good d' /\ sector_count d' = sector_count d /\
    (sector_reliable d -> ok = true /\ sector_reliable d') /\
    (ok = true -> stored (disk d) (disk d') (s * sector_size) input);
  sector_flush_law d : sector_good d ->
    let '(d', ok) := sector_flush d in
    sector_good d' /\ sector_count d' = sector_count d /\ (forall o, disk d' o = disk d o) /\
    (sector_reliable d -> ok = true /\ sector_reliable d');
}.

Module SectorReader.
Section reader.
Context {D : Type} {sectors : SectorDevice D}.

Record SectorReader := mkReader {
  device_ : D; cache_ : list Z; cached_sector_ : Z; cache_valid_ : bool;
}.
#[global] Instance reader_eta : Eta SectorReader := fun r =>
  mkReader (device_ r) (cache_ r) (cached_sector_ r) (cache_valid_ r).

Definition initial (d : D) : SectorReader := mkReader d (replicate (Z.to_nat sector_size) 0) 0 false.

Definition size (r : SectorReader) : Z :=
  let sectors := sector_count (device_ r) in
  if sectors >? (2 ^ 64 - 1) / sector_size then 2 ^ 64 - 1 else sectors * sector_size.

(** The sector in the cache, read unless it is there. *)
Definition load (r : SectorReader) (sector : Z) : SectorReader * bool :=
  if negb (cache_valid_ r) || negb (cached_sector_ r =? sector) then
    let '(d, data, ok) := read_sector (device_ r) sector in
    let r := r <| device_ := d |> <| cache_ ::= fun c => patch c 0 data |> in
    if negb ok then (r <| cache_valid_ := false |>, false)
    else (r <| cached_sector_ := sector |> <| cache_valid_ := true |>, true)
  else (r, true).

(** The loop of [read]: [address] is the buffer, [output] what it received. *)
Fixpoint read_loop (fuel : nat) (r : SectorReader) (offset address count : Z) (output : list Z)
    : SectorReader * list Z * bool :=
  match fuel with
  | O => (r, output, true)
  | S fuel =>
      if count =? 0 then (r, output, true) else
      let sector := offset / sector_size in
      let within := u32 (offset mod sector_size) in
      if (within =? 0) && (sector_size <=? count) && (Z.land address 7 =? 0) then
        let direct := count - count mod sector_size in
        let '(d, data, ok) := read_sectors (device_ r) sector direct in
        let r := r <| device_ := d |> <| cache_valid_ := false |> in
        if negb ok then (r, output ++ data, false)
        else read_loop fuel r (u64 (offset + direct)) (u32 (address + direct)) (count - direct) (output ++ data)
      else
        let chunk := Z.min (sector_size - within) count in
        let '(r, ok) := load r sector in
        if negb ok then (r, output, false)
        else read_loop fuel r (u64 (offset + chunk)) (u32 (address + chunk)) (count - chunk)
               (output ++ slice (cache_ r) (Z.to_nat within) (Z.to_nat chunk))
  end.

Definition read (r : SectorReader) (offset address count : Z) : SectorReader * list Z * bool :=
  if ((address =? 0) && negb (count =? 0)) || (offset >? size r) || (count >? size r - offset)
  then (r, [], false) else
  read_loop (S (Z.to_nat count)) r offset address count [].

Fixpoint write_loop (fuel : nat) (r : SectorReader) (offset address : Z) (input : list Z) : SectorReader * bool :=
  match fuel with
  | O => (r, true)
  | S fuel =>
      let count := Z.of_nat (length input) in
      if count =? 0 then (r, true) else
      let sector := offset / sector_size in
      let within := u32 (offset mod sector_size) in
      if (within =? 0) && (sector_size <=? count) && (Z.land address 7 =? 0) then
        let direct := count - count mod sector_size in
        let '(d, ok) := write_sectors (device_ r) sector (take (Z.to_nat direct) input) in
        let r := r <| device_ := d |> <| cache_valid_ := false |> in
        if negb ok then (r, false)
        else write_loop fuel r (u64 (offset + direct)) (u32 (address + direct)) (drop (Z.to_nat direct) input)
      else
        let chunk := Z.min (sector_size - within) count in
        let '(r, ok) := load r sector in
        if negb ok then (r, false) else
        let r := r <| cache_ ::= fun c => patch c (Z.to_nat within) (take (Z.to_nat chunk) input) |> in
        let '(d, ok) := write_sector (device_ r) sector (cache_ r) in
        let r := r <| device_ := d |> in
        if negb ok then (r <| cache_valid_ := false |>, false)
        else write_loop fuel r (u64 (offset + chunk)) (u32 (address + chunk)) (drop (Z.to_nat chunk) input)
  end.

Definition write (r : SectorReader) (offset address : Z) (input : list Z) : SectorReader * bool :=
  let count := Z.of_nat (length input) in
  if ((address =? 0) && negb (count =? 0)) || (offset >? size r) || (count >? size r - offset)
  then (r, false) else
  write_loop (S (length input)) r offset address input.

Definition flush (r : SectorReader) : SectorReader * bool :=
  let '(d, ok) := sector_flush (device_ r) in (r <| device_ := d |>, ok).

Definition invalidate (r : SectorReader) : SectorReader := r <| cache_valid_ := false |>.

(** The reader as the device of a volume whose buffers are at [address]. *)
Definition reader_device (address : Z) : Device SectorReader := {|
  dev_read r offset count := read r offset address count;
  dev_size := size;
  dev_write r offset input := write r offset address input;
  dev_flush := flush;
|}.

(** ** The reader implements the device contract *)

Context {laws : SectorLaws D}.

Definition reader_good (r : SectorReader) : Prop :=
  sector_good (device_ r) /\ length (cache_ r) = Z.to_nat sector_size /\
  (cache_valid_ r = true -> 0 <= cached_sector_ r < sector_count (device_ r) /\
     cache_ r = bytes_at (disk (device_ r)) (cached_sector_ r * sector_size) (Z.to_nat sector_size)).

Definition reader_bytes (r : SectorReader) : Z -> Z := disk (device_ r).
Definition reader_reliable (r : SectorReader) : Prop := sector_reliable (device_ r).

(** A step of the reader that writes nothing. *)
Definition kept (r r' : SectorReader) : Prop :=
  reader_good r' /\ sector_count (device_ r') = sector_count (device_ r) /\
  (forall o, reader_bytes r' o = reader_bytes r o) /\ (reader_reliable r -> reader_reliable r').

Lemma kept_refl r : reader_good r -> kept r r.
Proof. intros H. split; [done|]. by repeat split. Qed.
Lemma kept_trans r1 r2 r3 : kept r1 r2 -> kept r2 r3 -> kept r1 r3.
Proof.
  intros (H1 & H2 & H3 & H4) (H5 & H6 & H7 & H8). split; [done|]. split; [congruence|].
  split; [intros o; by rewrite -> H7, H3|auto].
Qed.
Lemma kept_size r r' : kept r r' -> size r' = size r.
Proof. intros (_ & H & _). unfold size. by rewrite H. Qed.

Lemma size_bound r : reader_good r -> in_u 64 (size r) /\ size r <= sector_count (device_ r) * sector_size.
Proof.
  intros [Hg _]. pose proof (sector_count_range _ Hg). pose proof sector_size_range. unfold size.
  unfold in_u. assert (0 < 2 ^ 64) as HW by done. set (W := 2 ^ 64) in *. clearbody W.
  set (n := sector_count (device_ r)) in *. clearbody n. set (z := sector_size) in *. clearbody z.
  pose proof (Z.div_mod (W - 1) z ltac:(lia)). pose proof (Z.mod_pos_bound (W - 1) z ltac:(lia)).
  destruct (Z.gtb_spec n ((W - 1) / z)).
  - pose proof (Z.mul_le_mono_nonneg_r ((W - 1) / z + 1) n z). lia.
  - pose proof (Z.mul_le_mono_nonneg_r n ((W - 1) / z) z). pose proof (Z.mul_nonneg_nonneg n z). lia.
Qed.

Lemma load_spec r s : reader_good r -> 0 <= s < sector_count (device_ r) ->
  let '(r', ok) := load r s in
  kept r r' /\ (reader_reliable r -> ok = true) /\
  (ok = true -> cache_valid_ r' = true /\ cached_sector_ r' = s).
Proof.
  intros (Hg & Hl & Hv) Hs. unfold load.
  destruct (negb (cache_valid_ r) || negb (cached_sector_ r =? s)) eqn:E.
  2: { apply orb_false_iff in E as [E1%negb_false_iff E2%negb_false_iff]. apply Z.eqb_eq in E2.
       split; [by apply kept_refl|]. done. }
  pose proof (read_sector_law (device_ r) s Hg Hs) as L. destruct (read_sector (device_ r) s) as [[d data] ok].
  destruct L as (Hg' & Hc & Hd & Hr & Hn & Hok). destruct ok; cbn -[patch].
  - specialize (Hok eq_refl).
    assert (patch (cache_ r) 0 data = data) as Hp.
    { unfold patch. cbn. rewrite -> drop_ge, app_nil_r; [done|]. rewrite -> Hok, length_bytes_at. lia. }
    split; [|by split; [|intros _; split]]. unfold kept, reader_good, reader_bytes, reader_reliable. cbn -[patch].
    rewrite -> Hp, Hc. split; [|split; [done|split; [done|by intros [_ ?]%Hr]]].
    split; [done|]. split; [by rewrite -> Hok, length_bytes_at|]. intros _. split; [done|].
    rewrite Hok. apply bytes_at_ext. intros. by rewrite Hd.
  - split; [|split; [by intros [? _]%Hr|done]].
    unfold kept, reader_good, reader_bytes, reader_reliable. cbn -[patch].
    split; [|split; [done|split; [done|by intros [_ ?]%Hr]]].
    split; [done|]. split; [rewrite -> length_patch; destruct Hn; lia|done].
Qed.

Lemma sector_size_pos : 0 < sector_size (D:=D).
Proof. pose proof sector_size_range. lia. Qed.
Lemma sector_size_nz : sector_size (D:=D) <> 0.
Proof. pose proof sector_size_range. lia. Qed.

Lemma sector_of offset : 0 <= offset -> offset = offset / sector_size * sector_size + offset mod sector_size /\
  0 <= offset mod sector_size < sector_size /\ 0 <= offset / sector_size /\ u32 (offset mod sector_size) = offset mod sector_size.
Proof.
  intros H. pose proof sector_size_range. pose proof (Z.div_mod offset _ sector_size_nz).
  pose proof (Z.mod_pos_bound offset _ sector_size_pos). split; [lia|]. split; [done|].
  split; [apply Z.div_pos; lia|]. apply wrap_small. unfold in_u. lia.
Qed.

(** The run of whole sectors a direct transfer moves. *)
Lemma direct_run count : sector_size <= count ->
  let direct := count - count mod sector_size in 0 < direct <= count /\ direct mod sector_size = 0.
Proof.
  intros H. pose proof sector_size_range. pose proof (Z.mod_pos_bound count _ sector_size_pos).
  cbn. split; [lia|]. rewrite -> Zminus_mod, Zmod_mod, Z.sub_diag. by apply Z.mod_0_l; lia.
Qed.

Lemma read_loop_spec fuel : forall r offset address count output,
  reader_good r -> 0 <= offset -> 0 <= count < 2 ^ 32 -> offset + count <= size r -> (Z.to_nat count < fuel)%nat ->
  let '(r', data, ok) := read_loop fuel r offset address count output in
  kept r r' /\ (reader_reliable r -> ok = true) /\
  exists extra, data = output ++ extra /\ received extra count /\
    (ok = true -> extra = bytes_at (reader_bytes r) offset (Z.to_nat count)).
Proof.
  induction fuel as [|fuel IH]; intros r offset address count output Hr Ho Hc Hs Hf; [lia|]. cbn [read_loop].
  destruct (Z.eqb_spec count 0) as [->|Hnz].
  { split; [by apply kept_refl|]. split; [done|]. exists []. rewrite app_nil_r. split; [done|]. split; [|done]. split; [cbn; lia|by apply Forall_nil]. }
  destruct (sector_of offset Ho) as (Eo & Hw & Hd & ->). pose proof (size_bound r Hr) as [Hsz Hsc].
  pose proof sector_size_range as Hss.
  (* One step of [n] bytes [data] of the device, then the rest. *)
  assert (Hstep : forall r1 data n a out, kept r r1 -> 0 < n <= count -> length data = Z.to_nat n ->
    data = bytes_at (reader_bytes r) offset (Z.to_nat n) -> out = output ++ data ->
    let '(r', out', ok) := read_loop fuel r1 (u64 (offset + n)) a (count - n) out in
    kept r r' /\ (reader_reliable r -> ok = true) /\
    exists extra, out' = output ++ extra /\ received extra count /\
      (ok = true -> extra = bytes_at (reader_bytes r) offset (Z.to_nat count))).
  { intros r1 data n a out Hk Hn Hld Hdata ->. rewrite -> (wrap_small 64) by (unfold in_u in *; lia).
    pose proof Hk as (Hg1 & _ & Hb & Hrel).
    specialize (IH r1 (offset + n) a (count - n) (output ++ data) Hg1 ltac:(lia) ltac:(lia)).
    rewrite -> (kept_size r r1 Hk) in IH. specialize (IH ltac:(lia) ltac:(lia)).
    destruct (read_loop _ _ _ _ _ _) as [[r' out'] ok]. destruct IH as (Hk' & Hok & extra & -> & Hle & Hx).
    split; [by eapply kept_trans|]. split; [auto|]. exists (data ++ extra). rewrite -> app_assoc.
    split; [done|]. split.
    { destruct Hle as [Hle Hbe]. split; [rewrite -> length_app; lia|]. apply Forall_app. split; [|done].
      rewrite Hdata. apply bytes_at_ok. intros. apply disk_byte, Hr. }
    intros E. rewrite -> (Hx E), Hdata.
    replace (Z.to_nat count) with (Z.to_nat n + Z.to_nat (count - n))%nat by lia. rewrite -> bytes_at_app. f_equal.
    rewrite -> Z2Nat.id by lia. apply bytes_at_ext. intros. apply Hb. }
  destruct ((offset mod sector_size =? 0) && (sector_size <=? count) && (Z.land address 7 =? 0)) eqn:E.
  - apply andb_prop in E as [[E1%Z.eqb_eq E2%Z.leb_le]%andb_prop _].
    destruct (direct_run count E2) as [Hdr Hmod]. set (direct := count - count mod sector_size) in *.
    destruct Hr as (Hg & Hl & Hv).
    pose proof (read_sectors_law (device_ r) (offset / sector_size) direct Hg Hd ltac:(lia) Hmod ltac:(lia)) as L.
    destruct (read_sectors _ _ _) as [[d data] ok]. destruct L as (Hg' & Hcnt & Hdisk & Hrel & Hlen & Hok).
    assert (kept r (r <| device_ := d |> <| cache_valid_ := false |>)) as Hk.
    { split; [by split_and!|]. split; [done|]. split; [done|]. by intros [_ ?]%Hrel. }
    destruct ok; cbn [negb].
    + eapply (Hstep _ data direct); [done|lia| | |done]; rewrite -> (Hok eq_refl); [by rewrite length_bytes_at|].
      apply bytes_at_shift. intros. unfold reader_bytes. f_equal. lia.
    + split; [done|]. split; [by intros [? _]%Hrel|]. exists data. split; [done|]. split; [|done].
      destruct Hlen. split; [lia|done].
  - clear E. assert (offset / sector_size < sector_count (device_ r)) as Hlt.
    { apply Z.div_lt_upper_bound; [lia|]. lia. }
    pose proof (load_spec r (offset / sector_size) Hr (conj Hd Hlt)) as L.
    destruct (load r (offset / sector_size)) as [r1 ok]. destruct L as (Hk & Hrel & Hok).
    destruct ok; cbn [negb].
    + destruct (Hok eq_refl) as [Hv Hcs]. pose proof Hk as ((_ & _ & Hc1) & _ & Hb & _). specialize (Hc1 Hv) as [_ Hc1].
      set (chunk := Z.min (sector_size - offset mod sector_size) count) in *.
      assert (slice (cache_ r1) (Z.to_nat (offset mod sector_size)) (Z.to_nat chunk) =
        bytes_at (reader_bytes r) offset (Z.to_nat chunk)) as Hsl.
      { rewrite -> Hc1, bytes_at_slice, Hcs, Z2Nat.id by lia. rewrite <- Eo. apply bytes_at_ext. intros. apply Hb. }
      eapply (Hstep _ _ chunk); [done|lia| |exact Hsl|done]. by rewrite -> Hsl, length_bytes_at.
    + split; [done|]. split; [by intros ?%Hrel|]. exists []. rewrite app_nil_r. split; [done|]. split; [|done].
      split; [cbn; lia|by apply Forall_nil].
Qed.
(** A step of the reader that writes [data] at [offset]. *)
Definition wrote (r r' : SectorReader) (offset : Z) (data : list Z) : Prop :=
  reader_good r' /\ sector_count (device_ r') = sector_count (device_ r) /\
  stored (reader_bytes r) (reader_bytes r') offset data /\ (reader_reliable r -> reader_reliable r').

(** What holds after a failed write: nothing of the bytes. *)
Definition disturbed (r r' : SectorReader) : Prop :=
  reader_good r' /\ sector_count (device_ r') = sector_count (device_ r) /\ ~ reader_reliable r.

Lemma wrote_size r r' o d : wrote r r' o d -> size r' = size r.
Proof. intros (_ & H & _). unfold size. by rewrite H. Qed.

Lemma wrote_nil r o : reader_good r -> wrote r r o [].
Proof. intros H. split; [done|]. split; [done|]. split; [by apply stored_nil|done]. Qed.

Lemma wrote_app r1 r2 r3 o a b :
  wrote r1 r2 o a -> wrote r2 r3 (o + Z.of_nat (length a)) b -> wrote r1 r3 o (a ++ b).
Proof.
  intros (H1 & H2 & H3 & H4) (H5 & H6 & H7 & H8). split; [done|]. split; [congruence|].
  split; [by eapply stored_app|auto].
Qed.

(** Writing a run of sectors directly. *)
Lemma direct_write r s data : reader_good r -> bytes_ok data -> 0 <= s ->
  0 < Z.of_nat (length data) < 2 ^ 32 -> Z.of_nat (length data) mod sector_size = 0 ->
  s * sector_size + Z.of_nat (length data) <= sector_count (device_ r) * sector_size ->
  let '(d, ok) := write_sectors (device_ r) s data in
  let r' := r <| device_ := d |> <| cache_valid_ := false |> in
  if ok then wrote r r' (s * sector_size) data else disturbed r r'.
Proof.
  intros (Hg & Hl & Hv) Hb Hs Hn Hm Hc. pose proof (write_sectors_law (device_ r) s data Hg Hb Hs Hn Hm Hc) as L.
  destruct (write_sectors _ _ _) as [d ok]. destruct L as (Hg' & Hcnt & Hrel & Hok). cbn.
  destruct ok; [split; [by split_and!|]|split; [by split_and!|]]; (split; [done|]).
  - split; [by apply Hok|by intros [_ ?]%Hrel].
  - by intros [? _]%Hrel.
Qed.

(** Changing part of a cached sector and writing it back. *)
Lemma cached_write r s within data : reader_good r -> bytes_ok data -> 0 <= s < sector_count (device_ r) ->
  cache_valid_ r = true -> cached_sector_ r = s -> (within + length data <= Z.to_nat sector_size)%nat ->
  let r1 := r <| cache_ ::= fun c => patch c within data |> in
  let '(d, ok) := write_sector (device_ r) s (cache_ r1) in
  let r' := r1 <| device_ := d |> in
  if ok then wrote r r' (s * sector_size + Z.of_nat within) data else disturbed r (r' <| cache_valid_ := false |>).
Proof.
  intros (Hg & Hl & Hv) Hb Hs Hcv Hcs Hw r1. destruct (Hv Hcv) as [_ Hc]. rewrite Hcs in Hc.
  assert (length (patch (cache_ r) within data) = Z.to_nat sector_size) as Hlen by (rewrite -> length_patch; lia).
  assert (bytes_ok (patch (cache_ r) within data)) as Hpb.
  { apply bytes_ok_patch; [|done]. rewrite Hc. apply bytes_at_ok. intros. by apply disk_byte. }
  pose proof (write_sector_law (device_ r) s _ Hg Hpb Hs Hlen) as L.
  change (cache_ r1) with (patch (cache_ r) within data).
  destruct (write_sector _ _ _) as [d ok]. destruct L as (Hg' & Hcnt & Hrel & Hok).
  destruct ok; cbn -[patch].
  - specialize (Hok eq_refl). split; [|split; [done|split; [|by intros [_ ?]%Hrel]]].
    + split; [done|]. split; [done|]. cbn -[patch]. intros _. rewrite -> Hcs, Hcnt. split; [done|].
      rewrite <- Hlen. symmetry. apply Hok.
    + unfold reader_bytes. cbn -[patch]. eapply (stored_patch _ _ _ (cache_ r)); [by rewrite -> Hl|lia|done].
  - split; [|split; [done|by intros [? _]%Hrel]]. split; [done|]. by split.
Qed.

Lemma write_loop_spec fuel : forall r offset address input,
  reader_good r -> bytes_ok input -> 0 <= offset -> Z.of_nat (length input) < 2 ^ 32 ->
  offset + Z.of_nat (length input) <= size r -> (length input < fuel)%nat ->
  let '(r', ok) := write_loop fuel r offset address input in
  if ok then wrote r r' offset input else disturbed r r'.
Proof.
  induction fuel as [|fuel IH]; intros r offset address input Hr Hb Ho Hc Hs Hf; [lia|]. cbn [write_loop].
  set (count := Z.of_nat (length input)) in *.
  destruct (Z.eqb_spec count 0) as [Hz|Hnz].
  { destruct input; [by apply wrote_nil|]. cbn in count. lia. }
  destruct (sector_of offset Ho) as (Eo & Hw & Hd & ->). pose proof (size_bound r Hr) as [Hsz Hsc].
  pose proof sector_size_range as Hss.
  assert (Hstep : forall r1 n a, wrote r r1 offset (take (Z.to_nat n) input) -> 0 < n <= count ->
    let '(r', ok) := write_loop fuel r1 (u64 (offset + n)) a (drop (Z.to_nat n) input) in
    if ok then wrote r r' offset input else disturbed r r').
  { intros r1 n a Hk Hn. rewrite -> (wrap_small 64) by (unfold in_u in *; lia).
    pose proof Hk as (Hg1 & Hc1 & _ & Hrel).
    specialize (IH r1 (offset + n) a (drop (Z.to_nat n) input) Hg1 ltac:(by apply Forall_drop) ltac:(lia)).
    rewrite -> length_drop, (wrote_size r r1 _ _ Hk) in IH. specialize (IH ltac:(lia) ltac:(lia) ltac:(lia)).
    destruct (write_loop _ _ _ _ _) as [r' ok]. destruct ok.
    - rewrite <- (take_drop (Z.to_nat n) input). eapply wrote_app; [exact Hk|].
      rewrite -> length_take. replace (Z.of_nat _) with n by lia. done.
    - destruct IH as (? & ? & ?). split; [done|]. split; [congruence|auto]. }
  destruct ((offset mod sector_size =? 0) && (sector_size <=? count) && (Z.land address 7 =? 0)) eqn:E.
  - apply andb_prop in E as [[E1%Z.eqb_eq E2%Z.leb_le]%andb_prop _].
    destruct (direct_run count E2) as [Hdr Hmod]. set (direct := count - count mod sector_size) in *.
    assert (Z.of_nat (length (take (Z.to_nat direct) input)) = direct) as Hlt by (rewrite -> length_take; lia).
    pose proof (direct_write r (offset / sector_size) (take (Z.to_nat direct) input) Hr ltac:(by apply Forall_take) Hd) as L.
    rewrite -> Hlt in L. specialize (L ltac:(lia) Hmod ltac:(lia)).
    destruct (write_sectors _ _ _) as [d ok]. destruct ok; cbn [negb]; [|done].
    apply (Hstep _ direct); [|lia]. by replace (offset / sector_size * sector_size) with offset in L by lia.
  - clear E. assert (offset / sector_size < sector_count (device_ r)) as Hlt.
    { apply Z.div_lt_upper_bound; [lia|]. lia. }
    pose proof (load_spec r (offset / sector_size) Hr (conj Hd Hlt)) as L.
    destruct (load r (offset / sector_size)) as [r1 ok]. destruct L as (Hk & Hrel & Hok).
    destruct ok; cbn [negb].
    2: { destruct Hk as (? & ? & ?). split; [done|]. split; [done|]. by intros ?%Hrel. }
    destruct (Hok eq_refl) as [Hv Hcs]. pose proof Hk as (Hg1 & Hn1 & Hb1 & Hr1).
    set (chunk := Z.min (sector_size - offset mod sector_size) count) in *.
    pose proof (cached_write r1 (offset / sector_size) (Z.to_nat (offset mod sector_size)) (take (Z.to_nat chunk) input) Hg1
      ltac:(by apply Forall_take) ltac:(lia) Hv Hcs ltac:(rewrite -> length_take; lia)) as L. cbn zeta in L.
    rewrite -> Z2Nat.id, <- Eo in L by lia.
    destruct (write_sector _ _ _) as [d ok]. destruct ok; cbn [negb].
    + apply (Hstep _ chunk); [|lia]. destruct L as (L1 & L2 & L3 & L4). split; [done|]. split; [congruence|].
      split; [|auto]. eapply stored_same; [exact L3|intros; by rewrite Hb1|done].
    + destruct L as (L1 & L2 & L3). split; [done|]. split; [congruence|auto].
Qed.
Lemma reader_read_spec r offset address count :
  reader_good r -> 0 <= offset -> 0 <= count < 2 ^ 32 -> 0 < address ->
  let '(r', data, ok) := read r offset address count in
  kept r r' /\ received data count /\
  (ok = true -> offset + count <= size r /\ data = bytes_at (reader_bytes r) offset (Z.to_nat count)) /\
  (reader_reliable r -> ok = bool_decide (offset + count <= size r)).
Proof.
  intros Hr Ho Hc Ha. unfold read. rewrite -> (proj2 (Z.eqb_neq address 0)) by lia. cbn [andb orb].
  destruct (Z.gtb_spec offset (size r)); cbn [orb].
  { split; [by apply kept_refl|]. split; [split; [cbn; lia|by apply Forall_nil]|]. split; [done|]. intros _. by rewrite -> bool_decide_eq_false_2 by lia. }
  destruct (Z.gtb_spec count (size r - offset)).
  { split; [by apply kept_refl|]. split; [split; [cbn; lia|by apply Forall_nil]|]. split; [done|]. intros _. by rewrite -> bool_decide_eq_false_2 by lia. }
  pose proof (read_loop_spec (S (Z.to_nat count)) r offset address count [] Hr Ho Hc ltac:(lia) ltac:(lia)) as L.
  destruct (read_loop _ _ _ _ _ _) as [[r' data] ok]. destruct L as (Hk & Hrel & extra & -> & Hle & Hok).
  split; [done|]. split; [done|]. split; [intros E; split; [lia|by apply Hok]|].
  intros E. rewrite -> bool_decide_eq_true_2 by lia. by apply Hrel.
Qed.

Lemma reader_write_spec r offset address input :
  reader_good r -> bytes_ok input -> 0 <= offset -> Z.of_nat (length input) < 2 ^ 32 -> 0 < address ->
  let '(r', ok) := write r offset address input in
  if ok then wrote r r' offset input /\ offset + Z.of_nat (length input) <= size r
  else disturbed r r' \/ (r' = r /\ size r < offset + Z.of_nat (length input)).
Proof.
  intros Hr Hb Ho Hc Ha. unfold write. rewrite -> (proj2 (Z.eqb_neq address 0)) by lia. cbn [andb orb].
  destruct (Z.gtb_spec offset (size r)); cbn [orb]; [by right; split; [|lia]|].
  destruct (Z.gtb_spec (Z.of_nat (length input)) (size r - offset)); [by right; split; [|lia]|].
  pose proof (write_loop_spec (S (length input)) r offset address input Hr Hb Ho Hc ltac:(lia) ltac:(lia)) as L.
  destruct (write_loop _ _ _ _ _) as [r' [|]]; [split; [done|lia]|by left].
Qed.

Lemma reader_flush_spec r : reader_good r ->
  let '(r', ok) := flush r in kept r r' /\ (reader_reliable r -> ok = true).
Proof.
  intros (Hg & Hl & Hv). unfold flush. pose proof (sector_flush_law (device_ r) Hg) as L.
  destruct (sector_flush _) as [d ok]. destruct L as (Hg' & Hc & Hd & Hrel). split; [|by intros [? _]%Hrel].
  split; [|split; [done|split; [done|by intros [_ ?]%Hrel]]]. split; [done|]. split; [done|]. cbn. intros Hcv.
  destruct (Hv Hcv) as [? Hc']. rewrite Hc. split; [done|]. rewrite -> Hc' at 1. apply bytes_at_ext. intros. by rewrite Hd.
Qed.

(** The contract of a volume's device, whatever the alignment of its buffers. *)
#[global] Program Instance reader_laws (address : Z) (Ha : 0 < address) : @DeviceLaws SectorReader (reader_device address) := {|
  contents := reader_bytes;
  good := reader_good;
  reliable := reader_reliable;
|}.
Next Obligation. intros address Ha r o [H _]. by apply disk_byte. Qed.
Next Obligation. intros address Ha r H. by apply size_bound. Qed.
Next Obligation.
  intros address Ha r offset count Hr Ho Hc Hs. cbn [dev_read dev_size reader_device] in *.
  pose proof (reader_read_spec r offset address count Hr Ho Hc Ha) as L.
  destruct (read r offset address count) as [[r' data] ok]. destruct L as (Hk & Hle & Hok & Hrel).
  pose proof (kept_size r r' Hk). destruct Hk as (? & ? & ? & ?).
  split; [done|]. split; [done|]. split; [done|]. split; [|split; [done|by intros [_ ?]%Hok]].
  intros E. rewrite -> (Hrel E), bool_decide_eq_true_2 by lia. auto.
Qed.
Next Obligation.
  intros address Ha r offset input Hr Hb Ho Hc Hs. cbn [dev_write dev_size reader_device] in *.
  pose proof (reader_write_spec r offset address input Hr Hb Ho Hc Ha) as L.
  destruct (write r offset address input) as [r' [|]].
  - destruct L as [L _]. pose proof (wrote_size r r' _ _ L). destruct L as (? & ? & ? & ?). split_and!; auto.
  - destruct L as [(H1 & H2 & H3)|[_ ?]]; [|lia]. split; [done|]. split; [|by split; [intros ?%H3|]].
    unfold size. by rewrite H2.
Qed.
Next Obligation.
  intros address Ha r Hr. cbn [dev_flush dev_size reader_device]. pose proof (reader_flush_spec r Hr) as L.
  destruct (flush r) as [r' ok]. destruct L as [Hk Hrel]. pose proof (kept_size r r' Hk).
  destruct Hk as (? & ? & ? & ?). split_and!; auto.
Qed.

(** ** Histories *)

(** A request, with the address of its buffer. *)
Inductive request := RRead (offset address count : Z) | RWrite (offset address : Z) (input : list Z) | RFlush.

Definition request_ok (q : request) : Prop :=
  match q with
  | RRead offset address count => 0 <= offset /\ 0 < address /\ 0 <= count < 2 ^ 32
  | RWrite offset address input => 0 <= offset /\ 0 < address /\ bytes_ok input /\ Z.of_nat (length input) < 2 ^ 32
  | RFlush => True
  end.

(** The answers of the reader: the bytes of a read that succeeded. *)
Fixpoint serve (r : SectorReader) (qs : list request) : list (option (list Z)) :=
  match qs with
  | [] => []
  | RRead offset address count :: qs =>
      let '(r, data, ok) := read r offset address count in
      (if ok : bool then Some data else None) :: serve r qs
  | RWrite offset address input :: qs =>
      let '(r, ok) := write r offset address input in
      (if ok : bool then Some [] else None) :: serve r qs
  | RFlush :: qs => let '(r, ok) := flush r in (if ok : bool then Some [] else None) :: serve r qs
  end.

(** A flat array of [n] bytes answering the same requests. *)
Fixpoint serve_flat (f : Z -> Z) (n : Z) (qs : list request) : list (option (list Z)) :=
  match qs with
  | [] => []
  | RRead offset _ count :: qs =>
      (if decide (offset + count <= n) then Some (bytes_at f offset (Z.to_nat count)) else None) :: serve_flat f n qs
  | RWrite offset _ input :: qs =>
      if decide (offset + Z.of_nat (length input) <= n)
      then Some [] :: serve_flat (fun o => if decide (offset <= o < offset + Z.of_nat (length input))
                                           then byte input (Z.to_nat (o - offset)) else f o) n qs
      else None :: serve_flat f n qs
  | RFlush :: qs => Some [] :: serve_flat f n qs
  end.

Lemma serve_flat_ext qs : forall f g n, (forall o, f o = g o) -> serve_flat f n qs = serve_flat g n qs.
Proof.
  induction qs as [|[offset address count|offset address input|] qs IH]; intros f g n H; [done|..]; cbn [serve_flat].
  - rewrite -> (IH f g) by done. by rewrite -> (bytes_at_ext f g) by done.
  - destruct (decide _); f_equal; apply IH; [|done]. intros o. by rewrite H.
  - f_equal. by apply IH.
Qed.

Lemma serve_refines qs : forall r, reader_good r -> reader_reliable r -> Forall request_ok qs ->
  serve r qs = serve_flat (reader_bytes r) (size r) qs.
Proof.
  induction qs as [|[offset address count|offset address input|] qs IH]; intros r Hr Hrel Hq;
    [done|apply Forall_cons in Hq as [Hq Hqs]..]; cbn [serve serve_flat].
  - destruct Hq as (Ho & Ha & Hc). pose proof (reader_read_spec r offset address count Hr Ho Hc Ha) as L.
    destruct (read r offset address count) as [[r' data] ok]. destruct L as (Hk & _ & Hok & E).
    pose proof (kept_size r r' Hk) as Hsz. destruct Hk as (Hg & _ & Hb & Hrel').
    rewrite -> (IH r'), Hsz, (serve_flat_ext qs (reader_bytes r') (reader_bytes r)) by auto. f_equal.
    rewrite -> (E Hrel) in Hok |- *. destruct (decide _) as [Hd|Hd].
    + rewrite -> bool_decide_eq_true_2 in Hok |- * by done. by destruct (Hok eq_refl) as [_ ->].
    + by rewrite -> bool_decide_eq_false_2 by done.
  - destruct Hq as (Ho & Ha & Hi & Hc). pose proof (reader_write_spec r offset address input Hr Hi Ho Hc Ha) as L.
    destruct (write r offset address input) as [r' [|]].
    + destruct L as [Hw Hin]. pose proof (wrote_size r r' _ _ Hw) as Hsz. destruct Hw as (Hg & _ & Hst & Hrel').
      rewrite -> decide_True by done. rewrite -> (IH r'), Hsz by auto. f_equal. apply serve_flat_ext. intros o.
      destruct Hst as [H1 H2]. destruct (decide _) as [Hd|Hd]; [|by apply H2].
      unfold byte. rewrite <- H1, lookup_bytes_at by lia. cbn. f_equal. lia.
    + destruct L as [(_ & _ & Hn)|[-> Hout]]; [by destruct Hn|]. rewrite -> decide_False by lia. f_equal. by apply IH.
  - pose proof (reader_flush_spec r Hr) as L. destruct (flush r) as [r' ok]. destruct L as [Hk Hok].
    rewrite -> (Hok Hrel). pose proof (kept_size r r' Hk) as Hsz. destruct Hk as (Hg & _ & Hb & Hrel').
    rewrite -> (IH r'), Hsz by auto. f_equal. by apply serve_flat_ext.
Qed.
End reader.
#[global] Arguments SectorReader D : clear implicits.

(** C18: over a sector device that keeps its contract, the reader answers any
    history of reads, writes and flushes, at any offsets, lengths and buffer
    alignments, as one flat array of bytes would: the sector cache, the direct
    transfers and the read-modify-write of partial sectors never show. *)
Theorem sector_reader_refines {D} {sectors : SectorDevice D} {laws : SectorLaws D} (d : D) qs :
  sector_good d -> sector_reliable d -> Forall request_ok qs ->
  serve (initial d) qs = serve_flat (disk d) (size (initial d)) qs.
Proof.
  intros Hg Hr Hq. apply (serve_refines qs (initial d)); [|done|done].
  split; [done|]. split; [apply length_replicate|done].
Qed.
End SectorReader.

(** ** A sector device in memory *)

Module SectorMemory.
Definition sector := 16.
Definition count (l : list Z) : Z := Z.of_nat (length l) / sector.
Definition start (s : Z) : nat := Z.to_nat (s * sector).

#[global] Instance device : SectorDevice (list Z) := {|
  sector_size := sector;
  sector_count := count;
  read_sector l s := (l, slice l (start s) 16, true);
  read_sectors l s n := (l, slice l (start s) (Z.to_nat n), true);
  write_sector l s data := (patch l (start s) data, true);
  write_sectors l s data := (patch l (start s) data, true);
  sector_flush l := (l, true);
|}.

Lemma inside l s n : 0 <= s -> 0 <= n -> s * sector + n <= count l * sector -> (start s + Z.to_nat n <= length l)%nat.
Proof. intros Hs Hn H. unfold start, count, sector in *. pose proof (Z.mul_div_le (Z.of_nat (length l)) 16). lia. Qed.

#[global] Program Instance laws : SectorLaws (list Z) := {|
  disk := memory;
  sector_good := bytes_ok;
  sector_reliable l := True;
|}.
Next Obligation. done. Qed.
Next Obligation. intros l H. cbn. unfold count, sector. apply Z.div_pos; lia. Qed.
Next Obligation. intros l o H. by apply memory_byte. Qed.
Next Obligation.
  intros l s H Hs. cbn -[slice bytes_at Z.to_nat count Z.mul] in *. pose proof (inside l s 16 ltac:(lia) ltac:(lia) ltac:(unfold sector; lia)) as Hi.
  split; [done|]. split; [done|]. split; [done|]. split; [done|]. split; [split; [rewrite -> length_slice; [done|exact Hi]|by apply bytes_ok_slice]|].
  intros _. unfold start, sector in *. by rewrite -> memory_bytes_at by (lia || exact Hi).
Qed.
Next Obligation.
  intros l s n H Hs Hn _ Hb. cbn -[slice bytes_at Z.to_nat count Z.mul] in *. pose proof (inside l s n ltac:(lia) ltac:(lia) Hb) as Hi.
  split; [done|]. split; [done|]. split; [done|]. split; [done|]. split; [split; [rewrite -> length_slice; [done|exact Hi]|by apply bytes_ok_slice]|].
  intros _. unfold start, sector in *. by rewrite -> memory_bytes_at by (lia || exact Hi).
Qed.
Next Obligation.
  intros l s data H Hd Hs Hl. cbn -[patch Z.to_nat count Z.mul] in *. pose proof (inside l s 16 ltac:(lia) ltac:(lia) ltac:(unfold sector; lia)) as Hi.
  unfold count. rewrite -> length_patch by (rewrite -> Hl; exact Hi).
  split; [by apply bytes_ok_patch|]. split; [done|]. split; [done|]. intros _.
  apply memory_stored; [unfold sector; lia|]. rewrite -> Hl. exact Hi.
Qed.
Next Obligation.
  intros l s data H Hd Hs Hl _ Hb. cbn -[patch Z.to_nat count Z.mul] in *. pose proof (inside l s (Z.of_nat (length data)) ltac:(lia) ltac:(lia) Hb) as Hi.
  rewrite -> Nat2Z.id in Hi. unfold count. rewrite -> length_patch by exact Hi.
  split; [by apply bytes_ok_patch|]. split; [done|]. split; [done|]. intros _.
  apply memory_stored; [unfold sector; lia|exact Hi].
Qed.
Next Obligation. intros l H. cbn. by split; [|split; [|split]]. Qed.

Lemma sector_reader_refines_witness :
  let d := replicate 64 7 in
  let qs := [SectorReader.RRead 3 1001 5; SectorReader.RWrite 14 1000 (Z.of_nat <$> seq 0 40); SectorReader.RRead 0 1008 64] in
  SectorReader.serve (SectorReader.initial d) qs = SectorReader.serve_flat (memory d) (SectorReader.size (SectorReader.initial d)) qs.
Proof.
  intros d qs. apply (SectorReader.sector_reader_refines (laws := laws) d qs).
  - by apply Forall_replicate.
  - exact I.
  - repeat (apply Forall_cons; split); try apply Forall_nil; cbn; try done.
    split; [done|]. split; [done|]. split; [|done]. by repeat (apply Forall_cons; split).
Defined.
End SectorMemory.
