(* ===== verification/Ext4.v ===== *)
(** * [drivers/fs/ext4/ext4.hpp]: the ext4 volume

    [Volume] is a record with the device, the geometry and the three buffers
    the methods share; a method is a state transformer on it.  Buffers that
    are local arrays are values.  A C string is the list of its characters, a
    null pointer [None]. *)

From S2P Require Import Prelude Filesystem.
Import Fs.
Local Open Scope Z_scope.

Module Ext4.

Module Type_.
Inductive t := regular | directory | symbolic_link | other.
#[global] Instance eq_dec : EqDecision t.
Proof. solve_decision. Defined.
End Type_.

Record Node := mkNode {
  inode : Z; mode : Z; links : Z; flags : Z; size : Z; allocated_sectors : Z; generation : Z;
  inode_offset : Z; directory_entry_offset : Z; block_data : list Z; type : Type_.t;
}.
#[global] Instance node_eta : Eta Node := fun n =>
  mkNode (inode n) (mode n) (links n) (flags n) (size n) (allocated_sectors n) (generation n)
    (inode_offset n) (directory_entry_offset n) (block_data n) (type n).
Definition node_default : Node := mkNode 0 0 0 0 0 0 0 0 0 (replicate 60 0) Type_.other.
Definition directory (n : Node) : bool := bool_decide (type n = Type_.directory).

Record Entry := mkEntry { entry_name : Name; entry_node : Node; directory_type : Z }.

Record Geometry := mkGeometry {
  block_size : Z; block_count : Z; first_data_block : Z; blocks_per_group : Z; inodes_per_group : Z;
  inode_count : Z; inode_size : Z; descriptor_size : Z; group_count : Z;
  compatible_features : Z; incompatible_features : Z; read_only_features : Z;
  free_blocks : Z; free_inodes : Z; first_inode : Z;
  metadata_checksums : bool; integrity_verified : bool;
}.
#[global] Instance geometry_eta : Eta Geometry := fun g =>
  mkGeometry (block_size g) (block_count g) (first_data_block g) (blocks_per_group g) (inodes_per_group g)
    (inode_count g) (inode_size g) (descriptor_size g) (group_count g)
    (compatible_features g) (incompatible_features g) (read_only_features g)
    (free_blocks g) (free_inodes g) (first_inode g) (metadata_checksums g) (integrity_verified g).
Definition geometry_default : Geometry := mkGeometry 0 0 0 0 0 0 0 0 0 0 0 0 0 0 0 false false.

Module Group.
Record GroupDescriptor := mkGroup {
  block_bitmap : Z; inode_bitmap : Z; inode_table : Z;
  free_blocks : Z; free_inodes : Z; used_directories : Z;
}.
#[global] Instance eta : Eta GroupDescriptor := fun d =>
  mkGroup (block_bitmap d) (inode_bitmap d) (inode_table d) (free_blocks d) (free_inodes d) (used_directories d).
End Group.

Record BlockMapping := mkMapping { physical : Z; zero : bool }.
Definition hole : BlockMapping := mkMapping 0 true.

(** ** Constants *)

Definition magic := 0xef53.
Definition extent_magic := 0xf30a.
Definition root_inode := 2.
Definition compatible_journal := 0x0004.
Definition incompat_file_type := 0x0002.
Definition incompat_recover := 0x0004.
Definition incompat_meta_bg := 0x0010.
Definition incompat_extents := 0x0040.
Definition incompat_64_bit := 0x0080.
Definition incompat_flex_bg := 0x0200.
Definition incompat_checksum_seed := 0x2000.
Definition incompat_large_directory := 0x4000.
Definition incompat_inline_data := 0x8000.
Definition incompat_encrypt := 0x10000.
Definition incompat_casefold := 0x20000.
Definition read_only_bigalloc := 0x0200.
Definition read_only_metadata_checksum := 0x0400.
Definition inode_extents := 0x00080000.
Definition inode_inline_data := 0x10000000.
Definition mode_type_mask := 0xf000.
Definition mode_directory := 0x4000.
Definition mode_regular := 0x8000.
Definition mode_symbolic_link := 0xa000.

(** [(flags & bit) != 0] *)
Definition has (flags bit : Z) : bool := negb (Z.land flags bit =? 0).

Definition type_from_mode (mode : Z) : Type_.t :=
  let t := Z.land mode mode_type_mask in
  if t =? mode_directory then Type_.directory
  else if t =? mode_regular then Type_.regular
  else if t =? mode_symbolic_link then Type_.symbolic_link
  else Type_.other.

Definition supported_incompatible : Z :=
  Z.lor incompat_file_type (Z.lor incompat_recover (Z.lor incompat_extents (Z.lor incompat_64_bit
    (Z.lor incompat_flex_bg (Z.lor incompat_checksum_seed incompat_large_directory))))).

(** Bit [bit] of a bitmap block. *)
Definition bit_mask (bit : nat) : Z := u8 (Z.shiftl 1 (Z.of_nat (bit mod 8))).
Definition bit_set (bitmap : list Z) (bit : nat) : bool := negb (Z.land (byte bitmap (bit / 8)) (bit_mask bit) =? 0).
Definition set_bit (bitmap : list Z) (bit : nat) : list Z := alter (fun b => Z.lor b (bit_mask bit)) (bit / 8)%nat bitmap.
Definition clear_bit (bitmap : list Z) (bit : nat) : list Z :=
  alter (fun b => Z.land b (u8 (Z.lnot (bit_mask bit)))) (bit / 8)%nat bitmap.

Section volume.
Context {D : Type} {device : Device D}.

Record Volume := mkVolume {
  device_ : D; geometry_ : Geometry; mounted_ : bool;
  superblock_ : list Z; block_ : list Z; directory_block_ : list Z;
}.
#[global] Instance volume_eta : Eta Volume := fun v =>
  mkVolume (device_ v) (geometry_ v) (mounted_ v) (superblock_ v) (block_ v) (directory_block_ v).
Definition volume_default (d : D) : Volume :=
  mkVolume d geometry_default false (replicate 1024 0) (replicate 4096 0) (replicate 4096 0).

(** ** Device access *)

(** [read_exact] into a local array; into [block_]; into [directory_block_].
    A failed read leaves what the device put there. *)
Definition read_local (offset size : Z) : io Volume (list Z) := fun v =>
  let '(d, data, e) := read_exact (device_ v) offset size in
  (v <| device_ := d |>, if decide (e = Error.none) then expected data else unexpected e).
Definition read_block (offset size : Z) : io Volume unit := fun v =>
  let '(d, data, e) := read_exact (device_ v) offset size in
  (v <| device_ := d |> <| block_ ::= fun b => patch b 0 data |>,
   if decide (e = Error.none) then expected tt else unexpected e).
Definition read_directory (offset size : Z) : io Volume unit := fun v =>
  let '(d, data, e) := read_exact (device_ v) offset size in
  (v <| device_ := d |> <| directory_block_ ::= fun b => patch b 0 data |>,
   if decide (e = Error.none) then expected tt else unexpected e).
Definition write_bytes (offset : Z) (data : list Z) : io Volume unit := fun v =>
  let '(d, e) := write_exact (device_ v) offset data in
  (v <| device_ := d |>, if decide (e = Error.none) then expected tt else unexpected e).
(** [if (!device_->flush()) return Error::io;] *)
Definition flush : io Volume unit := fun v =>
  let '(d, ok) := dev_flush (device_ v) in
  (v <| device_ := d |>, if ok : bool then expected tt else unexpected Error.io).

Definition set_geometry (f : Geometry -> Geometry) : io Volume unit := modify (fun v => v <| geometry_ ::= f |>).
Definition set_block (f : list Z -> list Z) : io Volume unit := modify (fun v => v <| block_ ::= f |>).
Definition set_directory_block (f : list Z -> list Z) : io Volume unit := modify (fun v => v <| directory_block_ ::= f |>).

Definition valid_physical_block (g : Geometry) (block : Z) : bool := negb (block =? 0) && (block <? block_count g).

Definition read_physical_block (block : Z) : io Volume unit :=
  g ← gets geometry_;
  stop_if (negb (valid_physical_block g block)) Error.corrupt;;
  read_block (u64 (block * block_size g)) (block_size g).
Definition read_physical_directory (block : Z) : io Volume unit :=
  g ← gets geometry_;
  stop_if (negb (valid_physical_block g block)) Error.corrupt;;
  read_directory (u64 (block * block_size g)) (block_size g).
(** ** Mounting *)

Definition load_superblock : io Volume unit := fun v =>
  let '(d, data, e) := read_exact (device_ v) 1024 1024 in
  (v <| device_ := d |> <| superblock_ ::= fun b => patch b 0 data |>,
   if decide (e = Error.none) then expected tt else unexpected e).

(** The fields [initialize] copies before its first test. *)
Definition superblock_fields (sb : list Z) (g : Geometry) : Geometry :=
  let revision := little_u32 sb 0x4c in
  g <| inode_count := little_u32 sb 0x00 |> <| first_data_block := little_u32 sb 0x14 |>
    <| blocks_per_group := little_u32 sb 0x20 |> <| inodes_per_group := little_u32 sb 0x28 |>
    <| inode_size := if revision =? 0 then 128 else little_u16 sb 0x58 |>
    <| compatible_features := little_u32 sb 0x5c |> <| incompatible_features := little_u32 sb 0x60 |>
    <| read_only_features := little_u32 sb 0x64 |> <| free_blocks := little_u32 sb 0x0c |>
    <| free_inodes := little_u32 sb 0x10 |>
    <| first_inode := if revision =? 0 then 11 else little_u32 sb 0x54 |>.

Definition unsupported_features (g : Geometry) : bool :=
  negb (Z.land (incompatible_features g) (u32 (Z.lnot supported_incompatible)) =? 0) ||
  has (incompatible_features g) incompat_meta_bg || has (incompatible_features g) incompat_inline_data ||
  has (incompatible_features g) incompat_encrypt || has (incompatible_features g) incompat_casefold ||
  has (read_only_features g) read_only_bigalloc.

Definition malformed_layout (g : Geometry) : bool :=
  (inode_count g <? root_inode) || (blocks_per_group g =? 0) || (inodes_per_group g =? 0) ||
  (inode_size g <? 128) || (inode_size g >? block_size g) || negb (Z.land (inode_size g) 3 =? 0).

(** The 64-bit block count and the descriptor size. *)
Definition initialize_blocks (sb : list Z) : io Volume unit :=
  set_geometry (fun g => g <| block_count := little_u32 sb 0x04 |>);;
  g ← gets geometry_;
  (if has (incompatible_features g) incompat_64_bit then
     set_geometry (fun g => g <| block_count ::= Z.lor (u64 (Z.shiftl (little_u32 sb 0x150) 32)) |>
                              <| descriptor_size := little_u16 sb 0xfe |>);;
     g ← gets geometry_;
     stop_if ((descriptor_size g <? 64) || (descriptor_size g >? block_size g)) Error.invalid_format
   else set_geometry (fun g => g <| descriptor_size := 32 |>));;
  if has (incompatible_features g) incompat_64_bit
  then set_geometry (fun g => g <| free_blocks ::= Z.lor (u64 (Z.shiftl (little_u32 sb 0x158) 32)) |>)
  else mret tt.

(** The group count and the size of the volume. *)
Definition initialize_groups : io Volume unit :=
  g ← gets geometry_;
  stop_if (block_count g <=? first_data_block g) Error.invalid_format;;
  let data_blocks := u64 (block_count g - first_data_block g) in
  let groups := u64 (u64 (data_blocks + blocks_per_group g) - 1) / blocks_per_group g in
  stop_if ((groups =? 0) || (groups >? 0xffffffff)) Error.unsupported;;
  set_geometry (fun g => g <| group_count := u32 groups |>);;
  let inode_capacity := u64 (groups * inodes_per_group g) in
  device_size ← gets (fun v => dev_size (device_ v));
  stop_if ((inode_capacity <? inode_count g) || multiply_overflows (block_count g) (block_size g) ||
           (u64 (block_count g * block_size g) >? device_size)) Error.out_of_bounds.

(** The geometry, once the magic number is there. *)
Definition initialize_geometry (sb : list Z) : io Volume unit :=
  set_geometry (superblock_fields sb);;
  g ← gets geometry_;
  stop_if (unsupported_features g) Error.unsupported;;
  let log_block_size := little_u32 sb 0x18 in
  stop_if (log_block_size >? 2) Error.unsupported;;
  set_geometry (fun g => g <| block_size := u32 (Z.shiftl 1024 log_block_size) |>);;
  g ← gets geometry_;
  stop_if (malformed_layout g) Error.invalid_format;;
  initialize_blocks sb;;
  initialize_groups;;
  set_geometry (fun g => g <| metadata_checksums := has (read_only_features g) read_only_metadata_checksum |>);;
  set_geometry (fun g => g <| integrity_verified := negb (metadata_checksums g) |>).

(** The volume's [device_] is the device given. *)
Definition initialize : io Volume unit :=
  modify (fun v => v <| mounted_ := false |>);;
  load_superblock;;
  sb ← gets superblock_;
  stop_if (negb (little_u16 sb 0x38 =? magic)) Error.invalid_format;;
  initialize_geometry sb;;
  modify (fun v => v <| mounted_ := true |>).

Definition mount (d : D) : Volume * Result unit := initialize (volume_default d).

(** ** Inodes *)

Definition decode_inode (raw : list Z) (inode_number offset : Z) : Node :=
  let mode := little_u16 raw 0x00 in
  {| inode := inode_number; mode := mode; links := little_u16 raw 0x1a; flags := little_u32 raw 0x20;
     size := Z.lor (little_u32 raw 0x04) (u64 (Z.shiftl (little_u32 raw 0x6c) 32));
     allocated_sectors := little_u32 raw 0x1c; generation := little_u32 raw 0x64;
     inode_offset := offset; directory_entry_offset := 0;
     block_data := slice raw 0x28 60; type := type_from_mode mode |}.

(** A local array of [n] zeros into which [data] was read. *)
Definition into (n : nat) (data : list Z) : list Z := patch (replicate n 0) 0 data.

Definition read_inode (inode_number : Z) : io Volume Node :=
  m ← gets mounted_; g ← gets geometry_;
  stop_if (negb m || (inode_number =? 0) || (inode_number >? inode_count g)) Error.out_of_bounds;;
  let group := (inode_number - 1) / inodes_per_group g in
  let index := (inode_number - 1) mod inodes_per_group g in
  stop_if (group >=? group_count g) Error.corrupt;;
  let descriptor_table_block := u64 (first_data_block g + 1) in
  let descriptor_offset := u64 (u64 (descriptor_table_block * block_size g) + u64 (group * descriptor_size g)) in
  raw ← read_local descriptor_offset (Z.min (descriptor_size g) 64);
  let descriptor := into 64 raw in
  let inode_table := little_u32 descriptor 0x08 in
  let inode_table := if has (incompatible_features g) incompat_64_bit
    then Z.lor inode_table (u64 (Z.shiftl (little_u32 descriptor 0x28) 32)) else inode_table in
  stop_if (negb (valid_physical_block g inode_table)) Error.corrupt;;
  let offset := u64 (u64 (inode_table * block_size g) + u64 (index * inode_size g)) in
  raw ← read_local offset 128;
  let node := decode_inode (into 128 raw) inode_number offset in
  stop_if (bool_decide (type node = Type_.other) || (mode node =? 0)) Error.corrupt;;
  mret node.

Definition root : io Volume Node := read_inode root_inode.

(** ** Logical to physical blocks *)

Definition indirect_pointer (block : Z) (index : Z) : io Volume Z :=
  if block =? 0 then mret 0 else
  read_physical_block block;;
  g ← gets geometry_; b ← gets block_;
  stop_if (index >=? block_size g / 4) Error.corrupt;;
  let value := little_u32 b (Z.to_nat (index * 4)) in
  stop_if (negb (value =? 0) && negb (valid_physical_block g value)) Error.corrupt;;
  mret value.

Definition mapped (block : Z) : BlockMapping := mkMapping block (block =? 0).

Definition map_legacy (node : Node) (logical : Z) : io Volume BlockMapping :=
  g ← gets geometry_;
  let pointers := block_size g / 4 in
  if logical <? 12 then
    let block := little_u32 (block_data node) (Z.to_nat (logical * 4)) in
    stop_if (negb (block =? 0) && negb (valid_physical_block g block)) Error.corrupt;;
    mret (mapped block)
  else
  let remaining := logical - 12 in
  if remaining <? pointers then
    block ← indirect_pointer (little_u32 (block_data node) 48) remaining;
    mret (mapped block)
  else
  let remaining := remaining - pointers in
  let double_capacity := pointers * pointers in
  if remaining <? double_capacity then
    indirect ← indirect_pointer (little_u32 (block_data node) 52) (remaining / pointers);
    block ← indirect_pointer indirect (remaining mod pointers);
    mret (mapped block)
  else
  let remaining := remaining - double_capacity in
  let triple_capacity := double_capacity * pointers in
  stop_if (remaining >=? triple_capacity) Error.out_of_bounds;;
  double_block ← indirect_pointer (little_u32 (block_data node) 56) (remaining / double_capacity);
  let within_double := remaining mod double_capacity in
  indirect ← indirect_pointer double_block (within_double / pointers);
  block ← indirect_pointer indirect (within_double mod pointers);
  mret (mapped block).

(** The extents of a leaf: [index] the next one, [previous_end] of the one
    before it. *)
Fixpoint leaf_scan (g : Geometry) (extent_node : list Z) (logical : Z) (n index : nat)
    (previous_end : option Z) : Result BlockMapping :=
  match n with
  | O => expected hole
  | S n =>
      let extent := (12 + index * 12)%nat in
      let first := little_u32 extent_node extent in
      let raw_length := little_u16 extent_node (extent + 4) in
      if raw_length =? 0 then unexpected Error.corrupt else
      let uninitialized := raw_length >? 32768 in
      let length := if uninitialized then raw_length - 32768 else raw_length in
      let end_ := first + length in
      if match previous_end with Some p => first <? p | None => false end || (end_ >? 0x100000000)
      then unexpected Error.corrupt else
      if (logical <? first) || (end_ <=? logical)
      then leaf_scan g extent_node logical n (S index) (Some end_)
      else if uninitialized then expected hole else
      let physical := Z.lor (u64 (Z.shiftl (little_u16 extent_node (extent + 6)) 32)) (little_u32 extent_node (extent + 8)) in
      let mapped := physical + (logical - first) in
      if valid_physical_block g mapped then expected (mkMapping mapped false) else unexpected Error.corrupt
  end.

(** The last index entry that does not start after [logical]. *)
Fixpoint index_scan (extent_node : list Z) (logical : Z) (n index : nat) (previous : Z) (selected : option nat)
    : Result (option nat) :=
  match n with
  | O => expected selected
  | S n =>
      let extent_index := (12 + index * 12)%nat in
      let first := little_u32 extent_node extent_index in
      if negb (index =? 0)%nat && (first <=? previous) then unexpected Error.corrupt else
      if first <=? logical then index_scan extent_node logical n (S index) first (Some extent_index)
      else expected selected
  end.

(** The loop of [map_extents] with [expected_depth] levels to go. *)
Fixpoint map_extents_loop (expected_depth : nat) (extent_node : list Z) (capacity : Z) (logical : Z)
    : io Volume BlockMapping :=
  stop_if ((capacity <? 12) || negb (little_u16 extent_node 0 =? extent_magic)) Error.corrupt;;
  let entries := little_u16 extent_node 2 in
  let maximum := little_u16 extent_node 4 in
  let depth := little_u16 extent_node 6 in
  let capacity_entries := (capacity - 12) / 12 in
  stop_if (negb (depth =? Z.of_nat expected_depth) || (entries >? maximum) || (maximum >? capacity_entries)) Error.corrupt;;
  g ← gets geometry_;
  match expected_depth with
  | O => of_result (leaf_scan g extent_node logical (Z.to_nat entries) 0 None)
  | S expected_depth =>
      selected ← of_result (index_scan extent_node logical (Z.to_nat entries) 0 0 None);
      match selected with
      | None => mret hole
      | Some s =>
          let child := Z.lor (u64 (Z.shiftl (little_u16 extent_node (s + 8)) 32)) (little_u32 extent_node (s + 4)) in
          read_physical_block child;;
          b ← gets block_;
          map_extents_loop expected_depth b (block_size g) logical
      end
  end.

Definition map_extents (node : Node) (logical : Z) : io Volume BlockMapping :=
  let expected_depth := little_u16 (block_data node) 6 in
  stop_if (expected_depth >? 5) Error.corrupt;;
  map_extents_loop (Z.to_nat expected_depth) (block_data node) 60 logical.

Definition map_block (node : Node) (logical : Z) : io Volume BlockMapping :=
  stop_if (has (flags node) inode_inline_data) Error.unsupported;;
  if has (flags node) inode_extents then map_extents node logical else map_legacy node logical.

(** ** Directories and paths *)

(** A method run inside a visit, whose state also holds the visitor's. *)
Definition lift {A X} (m : io Volume X) : io (Volume * A) X := fun '(v, a) =>
  let '(v, r) := m v in ((v, a), r).

Section visit.
Context {A : Type} (directory_node : Node) (visitor : A -> Entry -> A * bool).

(** The visitor sees an entry and says whether to go on. *)
Definition visit (entry : Entry) : io (Volume * A) bool := fun '(v, a) =>
  let '(a, more) := visitor a entry in ((v, a), expected more).

(** The records of one directory block; [false] when the visitor stopped. *)
Fixpoint record_loop (fuel : nat) (block : Z) (block_bytes : Z) (offset : Z) : io (Volume * A) bool :=
  match fuel with
  | O => mret true
  | S fuel =>
      if negb (offset <? block_bytes) then mret true else
      stop_if (block_bytes - offset <? 8) Error.corrupt;;
      db ← gets (fun s => directory_block_ s.1); g ← gets (fun s => geometry_ s.1);
      let raw := drop (Z.to_nat offset) db in
      let inode_number := little_u32 raw 0 in
      let record_size := little_u16 raw 4 in
      let has_file_type := has (incompatible_features g) incompat_file_type in
      let name_size := if has_file_type then byte raw 6 else little_u16 raw 6 in
      stop_if ((record_size <? 8) || negb (Z.land record_size 3 =? 0) || (record_size >? block_bytes - offset) ||
               (name_size >? 255) || (name_size >? record_size - 8)) Error.corrupt;;
      if negb (inode_number =? 0) then
        stop_if (inode_number >? inode_count g) Error.corrupt;;
        node ← lift (read_inode inode_number);
        let entry := mkEntry (slice raw 8 (Z.to_nat name_size))
          (node <| directory_entry_offset := u64 (u64 (block * block_size g) + offset) |>)
          (if has_file_type then byte raw 7 else 0) in
        more ← visit entry;
        if negb more then mret false else record_loop fuel block block_bytes (offset + record_size)
      else record_loop fuel block block_bytes (offset + record_size)
  end.

Fixpoint block_loop (n : nat) (logical : Z) : io (Volume * A) unit :=
  match n with
  | O => mret tt
  | S n =>
      stop_if (logical >? 0xffffffff) Error.unsupported;;
      mapping ← lift (map_block directory_node (u32 logical));
      if zero mapping then block_loop n (logical + 1) else
      lift (read_physical_directory (physical mapping));;
      g ← gets (fun s => geometry_ s.1);
      let consumed := u64 (logical * block_size g) in
      let left := u64 (size directory_node - consumed) in
      let block_bytes := if left <? block_size g then left else block_size g in
      more ← record_loop (S (Z.to_nat block_bytes)) (physical mapping) block_bytes 0;
      if more : bool then block_loop n (logical + 1) else mret tt
  end.

Definition logical_blocks (g : Geometry) (n : Node) : Z := u64 (u64 (size n + block_size g) - 1) / block_size g.

Definition for_each : io (Volume * A) unit :=
  m ← gets (fun s => mounted_ s.1); g ← gets (fun s => geometry_ s.1);
  stop_if (negb m) Error.invalid_argument;;
  stop_if (negb (directory directory_node)) Error.not_directory;;
  stop_if (has (flags directory_node) inode_inline_data) Error.unsupported;;
  block_loop (Z.to_nat (logical_blocks g directory_node)) 0.
End visit.

(** [for_each] with a visitor that starts in [a]; the error and the visitor. *)
Definition visiting {A} (directory_node : Node) (visitor : A -> Entry -> A * bool) (a : A) : io Volume A := fun v =>
  let '((v, a), r) := for_each directory_node visitor (v, a) in
  (v, match r with expected _ => expected a | unexpected e => unexpected e end).

Definition match_name (name : list Z) (found : option Node) (entry : Entry) : option Node * bool :=
  if equals (entry_name entry) (Some name) false then (Some (entry_node entry), false) else (found, true).

Definition lookup (directory_node : Node) (name : option (list Z)) : io Volume Node :=
  match name with
  | None | Some [] => fail Error.invalid_argument
  | Some name =>
      found ← visiting directory_node (match_name name) None;
      match found with Some node => mret node | None => fail Error.not_found end
  end.

Fixpoint lookup_components (fuel : nat) (current : Node) (path : list Z) : io Volume Node :=
  match fuel with
  | O => mret current
  | S fuel =>
      match path with
      | [] => mret current
      | _ =>
          let '(name, rest) := component path in
          stop_if (name_capacity <? length name)%nat Error.invalid_argument;;
          let rest := skip_slashes rest in
          if bool_decide (name = [dot]) then lookup_components fuel current rest else
          stop_if (negb (directory current)) Error.not_directory;;
          child ← lookup current (Some name);
          lookup_components fuel child rest
      end
  end.

Definition lookup_path (path : option (list Z)) : io Volume Node :=
  m ← gets mounted_;
  match path with
  | None => fail Error.invalid_argument
  | Some path =>
      stop_if (negb m) Error.invalid_argument;;
      current ← root;
      lookup_components (S (length path)) current (skip_slashes path)
  end.

(** The parent directory and the last component of a path. *)
Definition resolve_parent (path : option (list Z)) : io Volume (Node * list Z) :=
  m ← gets mounted_;
  match path with
  | None => fail Error.invalid_argument
  | Some path =>
      stop_if (negb m) Error.invalid_argument;;
      stop_if (name_capacity <? length path)%nat Error.invalid_argument;;
      let length := back_while (fun c => c =? slash) path (length path) in
      let start := back_while (fun c => negb (c =? slash)) path length in
      let name := slice path start (length - start) in
      let name_size := (length - start)%nat in
      stop_if ((name_size =? 0)%nat || (255 <? name_size)%nat || bool_decide (name = [dot]) ||
               bool_decide (name = [dot; dot])) Error.invalid_argument;;
      if (start <=? 1)%nat then r ← root; mret (r, name) else
      let parent_size := S (back_while (fun c => c =? slash) (drop 1 path) (start - 1)) in
      found ← lookup_path (Some (take parent_size path));
      stop_if (negb (directory found)) Error.not_directory;;
      mret (found, name)
  end.

(** ** Reading files *)

(** How far the blocks after [logical] follow each other on the device. *)
Fixpoint extend_run (fuel : nat) (file : Node) (logical start : Z) (remaining count following : Z) : io Volume Z :=
  match fuel with
  | O => mret count
  | S fuel =>
      g ← gets geometry_;
      if (count <=? remaining - block_size g) && (logical + following <=? 0xffffffff) then
        next ← attempt (map_block file (u32 (logical + following)));
        match next with
        | expected next =>
            if zero next || negb (physical next =? u64 (start + following)) then mret count
            else extend_run fuel file logical start remaining (count + block_size g) (following + 1)
        | unexpected _ => mret count
        end
      else mret count
  end.

(** The loop of [read]; [output] is what it has stored. *)
Fixpoint read_loop (fuel : nat) (file : Node) (offset remaining : Z) (output : list Z) : io Volume (list Z) :=
  match fuel with
  | O => mret output
  | S fuel =>
      if remaining =? 0 then mret output else
      g ← gets geometry_;
      let logical := offset / block_size g in
      stop_if (logical >? 0xffffffff) Error.unsupported;;
      let within := u32 (offset mod block_size g) in
      let count := Z.min remaining (block_size g - within) in
      mapping ← map_block file (u32 logical);
      if zero mapping
      then read_loop fuel file (u64 (offset + count)) (remaining - count) (output ++ zero_bytes count)
      else
        count ← (if (within =? 0) && (count =? block_size g)
                 then extend_run (Z.to_nat remaining) file logical (physical mapping) remaining count 1
                 else mret count);
        data ← read_local (u64 (u64 (physical mapping * block_size g) + within)) count;
        read_loop fuel file (u64 (offset + count)) (remaining - count) (output ++ data)
  end.

(** The bytes [read] stores in its buffer, as many as it returns. *)
Definition read (file : Node) (offset : Z) (null : bool) (count : Z) : io Volume (list Z) :=
  m ← gets mounted_;
  stop_if (negb m || (null && negb (count =? 0))) Error.invalid_argument;;
  stop_if (directory file) Error.is_directory;;
  stop_if (negb (bool_decide (type file = Type_.regular))) Error.unsupported;;
  stop_if (has (flags file) inode_inline_data) Error.unsupported;;
  if (offset >=? size file) || (count =? 0) then mret [] else
  let available := size file - offset in
  let remaining := if available <? count then u32 available else count in
  read_loop (S (Z.to_nat remaining)) file offset remaining [].

Definition read_path (path : option (list Z)) (offset : Z) (null : bool) (count : Z) : io Volume (list Z) :=
  file ← lookup_path path; read file offset null count.

Definition file_size (path : option (list Z)) : io Volume Z :=
  file ← lookup_path path;
  if bool_decide (type file = Type_.regular) then mret (u32 (size file)) else fail Error.is_directory.

(** ** Group descriptors and the superblock *)

Definition writable_format (v : Volume) : bool :=
  mounted_ v && negb (metadata_checksums (geometry_ v)) &&
  (Z.land (compatible_features (geometry_ v)) compatible_journal =? 0) &&
  (Z.land (incompatible_features (geometry_ v)) incompat_recover =? 0).

Definition group_descriptor_offset (g : Geometry) (group : Z) : Z :=
  u64 (u64 ((first_data_block g + 1) * block_size g) + u64 (group * descriptor_size g)).

Definition decode_group (wide : bool) (raw : list Z) : Group.GroupDescriptor :=
  let high32 o := if wide then u64 (Z.shiftl (little_u32 raw o) 32) else 0 in
  let high16 o := if wide then u32 (Z.shiftl (little_u16 raw o) 16) else 0 in
  Group.mkGroup (Z.lor (little_u32 raw 0x00) (high32 0x20%nat)) (Z.lor (little_u32 raw 0x04) (high32 0x24%nat))
    (Z.lor (little_u32 raw 0x08) (high32 0x28%nat)) (Z.lor (little_u16 raw 0x0c) (high16 0x2c%nat))
    (Z.lor (little_u16 raw 0x0e) (high16 0x2e%nat)) (Z.lor (little_u16 raw 0x10) (high16 0x30%nat)).

Definition read_group_descriptor (group : Z) : io Volume Group.GroupDescriptor :=
  g ← gets geometry_;
  stop_if (group >=? group_count g) Error.out_of_bounds;;
  raw ← read_local (group_descriptor_offset g group) (Z.min (descriptor_size g) 64);
  let output := decode_group (has (incompatible_features g) incompat_64_bit) (into 64 raw) in
  stop_if (negb (valid_physical_block g (Group.block_bitmap output)) ||
           negb (valid_physical_block g (Group.inode_bitmap output)) ||
           negb (valid_physical_block g (Group.inode_table output))) Error.corrupt;;
  mret output.

(** The descriptor bytes with the counts of [d]. *)
Definition encode_group_counts (wide : bool) (raw : list Z) (d : Group.GroupDescriptor) : list Z :=
  let raw := put16 raw 0x0c (Group.free_blocks d) in
  let raw := put16 raw 0x0e (Group.free_inodes d) in
  let raw := put16 raw 0x10 (Group.used_directories d) in
  if wide then
    let raw := put16 raw 0x2c (Z.shiftr (Group.free_blocks d) 16) in
    let raw := put16 raw 0x2e (Z.shiftr (Group.free_inodes d) 16) in
    put16 raw 0x30 (Z.shiftr (Group.used_directories d) 16)
  else raw.

Definition write_group_free_counts (group : Z) (d : Group.GroupDescriptor) : io Volume unit :=
  g ← gets geometry_;
  let offset := group_descriptor_offset g group in
  let size := Z.min (descriptor_size g) 64 in
  raw ← read_local offset size;
  let raw := encode_group_counts (has (incompatible_features g) incompat_64_bit) (into 64 raw) d in
  write_bytes offset (take (Z.to_nat size) raw).

Definition encode_superblock_counts (g : Geometry) (sb : list Z) : list Z :=
  let sb := put32 sb 0x0c (free_blocks g) in
  let sb := put32 sb 0x10 (free_inodes g) in
  if has (incompatible_features g) incompat_64_bit then put32 sb 0x158 (u32 (Z.shiftr (free_blocks g) 32)) else sb.

Definition write_superblock_free_counts : io Volume unit :=
  modify (fun v => v <| superblock_ ::= encode_superblock_counts (geometry_ v) |>);;
  sb ← gets superblock_;
  write_bytes 1024 sb.
(** ** Allocation *)

Definition assert_writable (e : Error) : io Volume unit :=
  w ← gets writable_format; stop_if (negb w) e.

(** [block_[0 .. size)] is written to the device at [offset]. *)
Definition write_block (offset size : Z) : io Volume unit :=
  b ← gets block_; write_bytes offset (take (Z.to_nat size) b).
Definition write_directory (offset size : Z) : io Volume unit :=
  b ← gets directory_block_; write_bytes offset (take (Z.to_nat size) b).

(** The counts of a group and of the superblock reach the device. *)
Definition commit_counts (group : Z) (d : Group.GroupDescriptor) : io Volume unit :=
  write_group_free_counts group d;; write_superblock_free_counts;; flush.

(** The claim of bit [bit] of the bitmap in [block_]. *)
Definition claim_block (group : Z) (d : Group.GroupDescriptor) (first : Z) (bit : nat) : io Volume Z :=
  g ← gets geometry_;
  set_block (fun b => set_bit b bit);;
  write_block (u64 (Group.block_bitmap d * block_size g)) (block_size g);;
  let d := Group.mkGroup (Group.block_bitmap d) (Group.inode_bitmap d) (Group.inode_table d)
             (u32 (Group.free_blocks d - 1)) (Group.free_inodes d) (Group.used_directories d) in
  set_geometry (fun g => g <| free_blocks ::= fun n => u64 (n - 1) |>);;
  commit_counts group d;;
  set_block (fun b => patch b 0 (zero_bytes (block_size g)));;
  let allocated := u64 (first + Z.of_nat bit) in
  write_block (u64 (allocated * block_size g)) (block_size g);;
  flush;;
  mret allocated.

Fixpoint allocate_block_loop (n : nat) (group : Z) : io Volume Z :=
  match n with
  | O => fail Error.no_space
  | S n =>
      d ← read_group_descriptor group;
      if Group.free_blocks d =? 0 then allocate_block_loop n (group + 1) else
      read_physical_block (Group.block_bitmap d);;
      g ← gets geometry_; b ← gets block_;
      let first := u64 (first_data_block g + u64 (group * blocks_per_group g)) in
      let left := u64 (block_count g - first) in
      let count := if left <? blocks_per_group g then u32 left else blocks_per_group g in
      match first_slot (fun bit => negb (bit_set b bit)) (seq 0 (Z.to_nat count)) with
      | Some bit => claim_block group d first bit
      | None => fail Error.corrupt
      end
  end.

Definition allocate_block : io Volume Z :=
  assert_writable Error.unsupported;;
  g ← gets geometry_;
  allocate_block_loop (Z.to_nat (group_count g)) 0.

Definition claim_inode (group : Z) (d : Group.GroupDescriptor) (first : Z) (bit : nat) : io Volume Z :=
  g ← gets geometry_;
  set_block (fun b => set_bit b bit);;
  write_block (u64 (Group.inode_bitmap d * block_size g)) (block_size g);;
  let d := Group.mkGroup (Group.block_bitmap d) (Group.inode_bitmap d) (Group.inode_table d)
             (Group.free_blocks d) (u32 (Group.free_inodes d - 1)) (Group.used_directories d) in
  set_geometry (fun g => g <| free_inodes ::= fun n => u32 (n - 1) |>);;
  commit_counts group d;;
  set_block (fun b => patch b 0 (zero_bytes (inode_size g)));;
  let offset := u64 (u64 (Group.inode_table d * block_size g) + u64 (Z.of_nat bit * inode_size g)) in
  write_block offset (inode_size g);;
  flush;;
  mret (u32 (first + Z.of_nat bit)).

Fixpoint allocate_inode_loop (n : nat) (group : Z) : io Volume Z :=
  match n with
  | O => fail Error.no_space
  | S n =>
      d ← read_group_descriptor group;
      if Group.free_inodes d =? 0 then allocate_inode_loop n (group + 1) else
      read_physical_block (Group.inode_bitmap d);;
      g ← gets geometry_; b ← gets block_;
      let first := u32 (group * inodes_per_group g + 1) in
      let left := u32 (inode_count g - first + 1) in
      let count := if left <? inodes_per_group g then left else inodes_per_group g in
      match first_slot (fun bit => negb (u32 (first + Z.of_nat bit) <? first_inode g) && negb (bit_set b bit))
              (seq 0 (Z.to_nat count)) with
      | Some bit => claim_inode group d first bit
      | None => fail Error.corrupt
      end
  end.

Definition allocate_inode : io Volume Z :=
  assert_writable Error.unsupported;;
  g ← gets geometry_;
  allocate_inode_loop (Z.to_nat (group_count g)) 0.

Definition release_block (block : Z) : io Volume unit :=
  w ← gets writable_format; g ← gets geometry_;
  stop_if (negb w || negb (valid_physical_block g block) || (block <? first_data_block g)) Error.invalid_argument;;
  let group := u32 ((block - first_data_block g) / blocks_per_group g) in
  let bit := Z.to_nat ((block - first_data_block g) mod blocks_per_group g) in
  d ← read_group_descriptor group;
  let inode_table_blocks :=
    u64 (u64 (u64 (inodes_per_group g * inode_size g) + block_size g) - 1) / block_size g in
  stop_if ((block =? Group.block_bitmap d) || (block =? Group.inode_bitmap d) ||
           ((Group.inode_table d <=? block) && (block <? u64 (Group.inode_table d + inode_table_blocks))))
    Error.invalid_argument;;
  read_physical_block (Group.block_bitmap d);;
  b ← gets block_;
  stop_if (negb (bit_set b bit)) Error.corrupt;;
  set_directory_block (fun b => patch b 0 (zero_bytes (block_size g)));;
  write_directory (u64 (block * block_size g)) (block_size g);;
  flush;;
  set_block (fun b => clear_bit b bit);;
  write_block (u64 (Group.block_bitmap d * block_size g)) (block_size g);;
  let d := Group.mkGroup (Group.block_bitmap d) (Group.inode_bitmap d) (Group.inode_table d)
             (u32 (Group.free_blocks d + 1)) (Group.free_inodes d) (Group.used_directories d) in
  set_geometry (fun g => g <| free_blocks ::= fun n => u64 (n + 1) |>);;
  commit_counts group d.

Definition release_inode (inode : Z) : io Volume unit :=
  w ← gets writable_format; g ← gets geometry_;
  stop_if (negb w || (inode <? first_inode g) || (inode >? inode_count g)) Error.invalid_argument;;
  let group := u32 (inode - 1) / inodes_per_group g in
  let bit := Z.to_nat (u32 (inode - 1) mod inodes_per_group g) in
  d ← read_group_descriptor group;
  read_physical_block (Group.inode_bitmap d);;
  b ← gets block_;
  stop_if (negb (bit_set b bit)) Error.corrupt;;
  set_directory_block (fun b => patch b 0 (zero_bytes (inode_size g)));;
  let offset := u64 (u64 (Group.inode_table d * block_size g) + u64 (Z.of_nat bit * inode_size g)) in
  write_directory offset (inode_size g);;
  flush;;
  set_block (fun b => clear_bit b bit);;
  write_block (u64 (Group.inode_bitmap d * block_size g)) (block_size g);;
  let d := Group.mkGroup (Group.block_bitmap d) (Group.inode_bitmap d) (Group.inode_table d)
             (Group.free_blocks d) (u32 (Group.free_inodes d + 1)) (Group.used_directories d) in
  set_geometry (fun g => g <| free_inodes ::= fun n => u32 (n + 1) |>);;
  commit_counts group d.

(** ** Inodes and extents *)

Definition initialize_extent_inode (number mode : Z) (type : Type_.t) : io Volume Node :=
  let data := patch (patch (replicate 60 0) 0 (bytes16 extent_magic)) 4 [4] in
  let node := mkNode number mode 1 inode_extents 0 0 0 0 0 data type in
  g ← gets geometry_;
  let group := u32 (number - 1) / inodes_per_group g in
  let index := u32 (number - 1) mod inodes_per_group g in
  d ← attempt (read_group_descriptor group);
  mret (match d with
        | expected d => node <| inode_offset := u64 (u64 (Group.inode_table d * block_size g) + u64 (index * inode_size g)) |>
        | unexpected _ => node
        end).

(** The inode's fields written over its [raw] bytes. *)
Definition encode_inode (node : Node) (raw : list Z) : list Z :=
  let raw := put16 raw 0x00 (mode node) in
  let raw := put32 raw 0x04 (u32 (size node)) in
  let raw := put16 raw 0x1a (links node) in
  let raw := put32 raw 0x1c (u32 (allocated_sectors node)) in
  let raw := put32 raw 0x20 (flags node) in
  let raw := patch raw 0x28 (block_data node) in
  let raw := put32 raw 0x64 (generation node) in
  put32 raw 0x6c (u32 (Z.shiftr (size node) 32)).

Definition persist_inode (node : Node) : io Volume unit :=
  g ← gets geometry_;
  stop_if ((inode_offset node =? 0) || (inode_size g >? 4096)) Error.corrupt;;
  read_block (inode_offset node) (inode_size g);;
  set_block (encode_inode node);;
  write_block (inode_offset node) (inode_size g).

(** The extent in bytes [12 + 12 * index ..) of a node. *)
Definition extent_first (data : list Z) (index : nat) : Z := little_u32 data (12 + index * 12).
Definition extent_length (data : list Z) (index : nat) : Z := little_u16 data (12 + index * 12 + 4).
Definition extent_start (data : list Z) (index : nat) : Z :=
  Z.lor (u64 (Z.shiftl (little_u16 data (12 + index * 12 + 6)) 32)) (little_u32 data (12 + index * 12 + 8)).

Definition append_extent (node : Node) (logical physical : Z) : Node * Error :=
  let root := block_data node in
  if negb (little_u16 root 0 =? extent_magic) || negb (little_u16 root 6 =? 0) then (node, Error.unsupported) else
  let entries := little_u16 root 2 in
  let last := Z.to_nat (entries - 1) in
  let length := extent_length root last in
  if negb (entries =? 0) && (u32 (extent_first root last + length) =? logical) &&
     (u64 (extent_start root last + length) =? physical) && (length <? 32768)
  then (node <| block_data := put16 root (12 + last * 12 + 4) (u16 (length + 1)) |>, Error.none)
  else if 4 <=? entries then (node, Error.no_space) else
  let extent := bytes32 logical ++ [1; 0] ++ bytes16 (Z.shiftr physical 32) ++ bytes32 physical in
  let root := patch root (Z.to_nat (12 + entries * 12)) extent in
  let root := put16 root 2 (u16 (entries + 1)) in
  (node <| block_data := root |>, Error.none).

(** The blocks [logical ..) of a file up to [n] more; the node as it is left. *)
Fixpoint ensure_loop (n : nat) (node : Node) (logical : Z) : Volume -> Volume * Node * Error := fun v =>
  match n with
  | O => (v, node, Error.none)
  | S n =>
      match allocate_block v with
      | (v, unexpected e) => (v, node, e)
      | (v, expected block) =>
          match append_extent node logical block with
          | (node, Error.none) =>
              let sectors := block_size (geometry_ v) / 512 in
              ensure_loop n (node <| allocated_sectors ::= fun s => u64 (s + sectors) |>) (logical + 1) v
          | (node, e) => ((release_block block v).1, node, e)
          end
      end
  end.

Definition blocks_for (g : Geometry) (size : Z) : Z := u32 (u64 (u64 (size + block_size g) - 1) / block_size g).

Definition ensure_file_blocks (node : Node) (size_ : Z) : Volume -> Volume * Node * Error := fun v =>
  let current := blocks_for (geometry_ v) (size node) in
  let required := blocks_for (geometry_ v) size_ in
  ensure_loop (Z.to_nat (required - current)) node current v.

Fixpoint release_run (n : nat) (block : Z) : io Volume unit :=
  match n with
  | O => mret tt
  | S n => release_block (u64 block);; release_run n (block + 1)
  end.

Fixpoint release_extents (n index : nat) (data : list Z) : io Volume unit :=
  match n with
  | O => mret tt
  | S n =>
      release_run (Z.to_nat (extent_length data index)) (extent_start data index);;
      release_extents n (S index) data
  end.

Definition release_file_blocks (node : Node) : io Volume unit :=
  let data := block_data node in
  if negb (has (flags node) inode_extents) || negb (little_u16 data 0 =? extent_magic) ||
     negb (little_u16 data 6 =? 0)
  then if size node =? 0 then mret tt else fail Error.unsupported
  else release_extents (Z.to_nat (little_u16 data 2)) 0 data.
(** ** Writing files *)

Fixpoint write_loop (fuel : nat) (file : Node) (offset : Z) (input : list Z) : io Volume unit :=
  match fuel with
  | O => mret tt
  | S fuel =>
      let remaining := Z.of_nat (length input) in
      if remaining =? 0 then mret tt else
      g ← gets geometry_;
      let logical := u32 (offset / block_size g) in
      let within := u32 (offset mod block_size g) in
      let count := Z.min remaining (block_size g - within) in
      mapping ← map_block file logical;
      stop_if (zero mapping) Error.corrupt;;
      write_bytes (u64 (u64 (physical mapping * block_size g) + within)) (take (Z.to_nat count) input);;
      write_loop fuel file (u64 (offset + count)) (drop (Z.to_nat count) input)
  end.

(** [write]; [Node& file] as it is left comes back with the result. *)
Definition write (file : Node) (offset : Z) (input : option (list Z)) (count : Z) : Volume -> Volume * Node * Result Z := fun v =>
  if negb (writable_format v) || (bool_decide (input = None) && negb (count =? 0)) ||
     negb (bool_decide (type file = Type_.regular)) || (offset >? 0xffffffff) || (count >? 0xffffffff - offset)
  then (v, file, unexpected Error.invalid_argument) else
  if count =? 0 then (v, file, expected 0) else
  let end_ := offset + count in
  match ensure_file_blocks file end_ v with
  | (v, file, Error.none) =>
      let input := take (Z.to_nat count) (default [] input) in
      match (write_loop (S (Z.to_nat count)) file offset input;; flush) v with
      | (v, unexpected e) => (v, file, unexpected e)
      | (v, expected _) =>
          if end_ >? size file then
            let file := file <| size := end_ |> in
            match (persist_inode file;; flush) v with
            | (v, unexpected e) => (v, file, unexpected e)
            | (v, expected _) => (v, file, expected count)
            end
          else (v, file, expected count)
      end
  | (v, file, e) => (v, file, unexpected e)
  end.

(** A [Result<void>] as an error code. *)
Definition error_of {A} (r : Result A) : Error := match r with expected _ => Error.none | unexpected e => e end.

Definition truncate (file : Node) (new_size : Z) : Volume -> Volume * Node * Error := fun v =>
  if negb (writable_format v) || negb (bool_decide (type file = Type_.regular)) || (new_size >? 0xffffffff)
  then (v, file, Error.invalid_argument) else
  if new_size =? size file then (v, file, Error.none) else
  if new_size >? size file then
    match ensure_file_blocks file new_size v with
    | (v, file, Error.none) =>
        let file := file <| size := new_size |> in
        let '(v, r) := (persist_inode file;; flush) v in (v, file, error_of r)
    | (v, file, e) => (v, file, e)
    end
  else if negb (new_size =? 0) then (v, file, Error.unsupported) else
    let old := file in
    let file := file <| size := 0 |> <| allocated_sectors := 0 |> <| block_data ::= fun b => patch b 2 [0; 0] |> in
    let '(v, r) := (persist_inode file;; flush;; release_file_blocks old) v in (v, file, error_of r).

Definition sync : io Volume unit := flush.

(** ** Directory records *)

(** Where a record of [needed] bytes fits in a directory block. *)
Record Slot := mkSlot { slot_offset : Z; slot_available : Z; slot_shrink : option (Z * Z) }.

(** [(8 + n + 3) & ~3] *)
Definition record_length (n : Z) : Z := Z.land (8 + n + 3) (u32 (Z.lnot 3)).

Fixpoint find_slot (fuel : nat) (block_size needed : Z) (db : list Z) (offset : Z) : Result (option Slot) :=
  match fuel with
  | O => expected None
  | S fuel =>
      if negb (offset <? block_size) then expected None else
      let at_ := Z.to_nat offset in
      let inode := little_u32 db at_ in
      let record := little_u16 db (at_ + 4) in
      if (record <? 8) || negb (Z.land record 3 =? 0) || (record >? block_size - offset)
      then unexpected Error.corrupt else
      if negb (inode =? 0) then
        let actual := record_length (byte db (at_ + 6)) in
        if (record <? actual) || (record - actual <? needed)
        then find_slot fuel block_size needed db (offset + record)
        else expected (Some (mkSlot (offset + actual) (record - actual) (Some (offset, actual))))
      else if record <? needed
      then find_slot fuel block_size needed db (offset + record)
      else expected (Some (mkSlot offset record None))
  end.

Definition type_code (g : Geometry) (t : Type_.t) : Z :=
  if negb (has (incompatible_features g) incompat_file_type) then 0 else
  match t with Type_.directory => 2 | Type_.symbolic_link => 7 | _ => 1 end.

(** The block with the record of [child] in [slot]. *)
Definition place_record (g : Geometry) (name : list Z) (child : Node) (slot : Slot) (db : list Z) : list Z :=
  let db := match slot_shrink slot with
            | Some (offset, actual) => put16 db (Z.to_nat offset + 4) actual
            | None => db
            end in
  let at_ := Z.to_nat (slot_offset slot) in
  let db := patch db at_ (zero_bytes (slot_available slot)) in
  patch db at_ (bytes32 (inode child) ++ bytes16 (slot_available slot) ++
                [u8 (Z.of_nat (length name)); type_code g (type child)] ++ name).

Fixpoint insert_loop (n : nat) (directory_node : Node) (name : list Z) (child : Node) (needed logical : Z) : io Volume unit :=
  match n with
  | O => fail Error.no_space
  | S n =>
      mapping ← map_block directory_node logical;
      stop_if (zero mapping) Error.corrupt;;
      read_physical_directory (physical mapping);;
      g ← gets geometry_; db ← gets directory_block_;
      slot ← of_result (find_slot (S (Z.to_nat (block_size g))) (block_size g) needed db 0);
      match slot with
      | Some slot =>
          set_directory_block (place_record g name child slot);;
          write_directory (u64 (physical mapping * block_size g)) (block_size g);;
          flush
      | None => insert_loop n directory_node name child needed (logical + 1)
      end
  end.

Definition insert_directory_entry (directory_node : Node) (name : list Z) (child : Node) : io Volume unit :=
  stop_if ((length name =? 0)%nat || (255 <? length name)%nat) Error.invalid_argument;;
  let needed := record_length (Z.of_nat (length name)) in
  g ← gets geometry_;
  insert_loop (Z.to_nat (blocks_for g (size directory_node))) directory_node name child needed 0.

(** The records "." and ".." of a new directory. *)
Definition dot_record (g : Geometry) (number record_size : Z) (name : list Z) : list Z :=
  bytes32 number ++ bytes16 record_size ++
  [Z.of_nat (length name); if has (incompatible_features g) incompat_file_type then 2 else 0] ++ name.

Definition initialize_directory_block (directory_node parent : Node) (block : Z) : io Volume unit :=
  g ← gets geometry_;
  set_directory_block (fun b => patch b 0 (zero_bytes (block_size g)));;
  set_directory_block (fun b => patch b 0 (dot_record g (inode directory_node) 12 [dot]));;
  set_directory_block (fun b => patch b 12 (dot_record g (inode parent) (u16 (block_size g - 12)) [dot; dot]));;
  write_directory (u64 (block * block_size g)) (block_size g).

Definition increment_used_directories (number : Z) : io Volume unit :=
  g ← gets geometry_;
  let group := u32 (number - 1) / inodes_per_group g in
  d ← read_group_descriptor group;
  stop_if (Group.used_directories d =? 0xffffffff) Error.no_space;;
  write_group_free_counts group
    (Group.mkGroup (Group.block_bitmap d) (Group.inode_bitmap d) (Group.inode_table d)
       (Group.free_blocks d) (Group.free_inodes d) (u32 (Group.used_directories d + 1))).

Definition erase_directory_entry (directory_node : Node) (entry_offset : Z) : io Volume unit :=
  stop_if (negb (directory directory_node) || (entry_offset =? 0)) Error.invalid_argument;;
  g ← gets geometry_;
  let block_offset := entry_offset - entry_offset mod block_size g in
  read_directory block_offset (block_size g);;
  db ← gets directory_block_;
  let within := u32 (entry_offset - block_offset) in
  stop_if ((within >? block_size g - 8) || (little_u32 db (Z.to_nat within) =? 0)) Error.corrupt;;
  set_directory_block (fun b => patch b (Z.to_nat within) [0; 0; 0; 0]);;
  write_directory block_offset (block_size g).

(** ** Names *)

(** [lookup] must not find the name. *)
Definition must_be_absent (parent : Node) (name : list Z) : io Volume unit :=
  duplicate ← attempt (lookup parent (Some name));
  match duplicate with
  | expected _ => fail Error.already_exists
  | unexpected e => stop_if (negb (bool_decide (e = Error.not_found))) e
  end.

(** The inode, the content and the entry of a new file. *)
Definition create_body (parent : Node) (name : list Z) (file : Node) (input : option (list Z)) (count : Z)
    : Volume -> Volume * Node * Error := fun v =>
  let '(v, r) := persist_inode file v in
  let '(v, file, e) :=
    match error_of r with
    | Error.none =>
        if count =? 0 then (v, file, Error.none) else
        let '(v, file, stored) := write file 0 input count v in (v, file, error_of stored)
    | e => (v, file, e)
    end in
  match e with
  | Error.none => let '(v, r) := insert_directory_entry parent name file v in (v, file, error_of r)
  | e => (v, file, e)
  end.

(** ... undone on failure. *)
Definition create_finish (parent : Node) (name : list Z) (file : Node) (input : option (list Z)) (count : Z)
    : io Volume unit := fun v =>
  match create_body parent name file input count v with
  | (v, file, Error.none) => (v, expected tt)
  | (v, file, e) =>
      let '(v, _) := release_file_blocks file v in
      let '(v, _) := release_inode (inode file) v in
      (v, unexpected e)
  end.

Definition create (path : option (list Z)) (input : option (list Z)) (count : Z) : io Volume unit :=
  w ← gets writable_format;
  stop_if (negb w || bool_decide (path = None) || (bool_decide (input = None) && negb (count =? 0))) Error.invalid_argument;;
  '(parent, name) ← resolve_parent path;
  must_be_absent parent name;;
  number ← allocate_inode;
  file ← initialize_extent_inode number 0x81a4 Type_.regular;
  create_finish parent name file input count.

(** The first block, the inode and the entry of a new directory. *)
Definition mkdir_body (parent : Node) (name : list Z) (directory_node : Node) (block : Z) : io Volume unit :=
  g ← gets geometry_;
  let '(directory_node, e) := append_extent directory_node 0 block in
  stop_if (negb (bool_decide (e = Error.none))) e;;
  let directory_node := directory_node <| size := block_size g |> <| allocated_sectors := block_size g / 512 |> in
  initialize_directory_block directory_node parent block;;
  persist_inode directory_node;;
  insert_directory_entry parent name directory_node.

Definition mkdir (path : option (list Z)) (mode_ : Z) : io Volume unit :=
  assert_writable Error.unsupported;;
  stop_if (bool_decide (path = None)) Error.invalid_argument;;
  '(parent, name) ← resolve_parent path;
  stop_if (negb (directory parent)) Error.not_directory;;
  stop_if (links parent =? 0xffff) Error.no_space;;
  must_be_absent parent name;;
  number ← allocate_inode;
  directory_node ← initialize_extent_inode number (u16 (Z.lor mode_directory (Z.land mode_ 0x0fff))) Type_.directory;
  let directory_node := directory_node <| links := 2 |> in
  allocated ← attempt allocate_block;
  match allocated with
  | unexpected e => attempt (release_inode number);; fail e
  | expected block =>
      done ← attempt (mkdir_body parent name directory_node block);
      match done with
      | unexpected e => attempt (release_block block);; attempt (release_inode number);; fail e
      | expected _ =>
          persist_inode (parent <| links ::= fun n => u16 (n + 1) |>);;
          increment_used_directories number;;
          flush
      end
  end.

Definition remove (path : option (list Z)) : io Volume unit :=
  '(parent, name) ← resolve_parent path;
  file ← lookup parent (Some name);
  stop_if (directory file) Error.is_directory;;
  erase_directory_entry parent (directory_entry_offset file);;
  flush;;
  release_file_blocks file;;
  release_inode (inode file).

Definition move (source destination : option (list Z)) : io Volume unit :=
  '(source_parent, source_name) ← resolve_parent source;
  '(destination_parent, destination_name) ← resolve_parent destination;
  file ← lookup source_parent (Some source_name);
  must_be_absent destination_parent destination_name;;
  insert_directory_entry destination_parent destination_name file;;
  erase_directory_entry source_parent (directory_entry_offset file);;
  flush.

(** The copying loop of [concatenate], one block at a time through
    [directory_block_]. *)
Fixpoint concatenate_loop (fuel : nat) (target origin : Node) (target_size source_size copied : Z) : io Volume unit := fun v =>
  match fuel with
  | O => (v, expected tt)
  | S fuel =>
      if negb (copied <? source_size) then (v, expected tt) else
      let count := Z.min (source_size - copied) (block_size (geometry_ v)) in
      match read origin copied false count v with
      | (v, unexpected e) => (v, unexpected e)
      | (v, expected data) =>
          let v := v <| directory_block_ ::= fun b => patch b 0 data |> in
          if negb (Z.of_nat (length data) =? count) then (v, unexpected Error.io) else
          match write target (u32 (target_size + copied)) (Some (directory_block_ v)) count v with
          | (v, target, unexpected e) => (v, unexpected e)
          | (v, target, expected n) =>
              if negb (n =? count) then (v, unexpected Error.io)
              else concatenate_loop fuel target origin target_size source_size (copied + count) v
          end
      end
  end.

Definition concatenate (destination source : option (list Z)) : io Volume unit :=
  target ← attempt (lookup_path destination);
  origin ← attempt (lookup_path source);
  target ← of_result target;
  origin ← of_result origin;
  stop_if ((size target >? 0xffffffff) || (size origin >? 0xffffffff) || (size origin >? 0xffffffff - size target)) Error.no_space;;
  concatenate_loop (S (Z.to_nat (size origin))) target origin (size target) (size origin) 0.

Definition consistent : Volume -> Volume * bool := fun v =>
  match (r ← root; visiting r (fun (_ : unit) _ => (tt, true)) tt) v with
  | (v, expected _) => (v, true)
  | (v, unexpected _) => (v, false)
  end.
End volume.
#[global] Arguments Volume D : clear implicits.
End Ext4.
