(* ===== verification/Ext4Image.v ===== *)
(** * A small ext4 image

    One group of fifteen blocks of 1024 bytes and sixteen inodes, with an
    empty root directory: the concrete volume of the witnesses. *)

From S2P Require Import Prelude Filesystem Ext4.
Import Fs Ext4.
Local Open Scope Z_scope.

Module Ext4Image.

Definition write_all (l : list Z) (ws : list (Z * list Z)) : list Z :=
  foldl (fun l w => patch l (Z.to_nat w.1) w.2) l ws.

Definition super (o : Z) (v : Z) : Z * list Z := (1024 + o, bytes32 v).
Definition descriptor (o : Z) (v : Z) : Z * list Z := (2048 + o, bytes16 v).
Definition table : Z := 5 * 1024.
Definition root_field (o : Z) (bytes : list Z) : Z * list Z := (table + 128 + o, bytes).

(** Blocks: 1 superblock, 2 descriptors, 3 and 4 bitmaps, 5 and 6 inodes,
    7 the root directory, 8 to 15 free. *)
Definition image : list Z := write_all (replicate (16 * 1024)%nat 0) [
  super 0x00 16; super 0x04 16; super 0x0c 8; super 0x10 5; super 0x14 1; super 0x18 0; super 0x20 8192;
  super 0x28 16; (1024 + 0x38, bytes16 magic); super 0x4c 1; super 0x54 11; (1024 + 0x58, bytes16 128);
  super 0x60 (Z.lor incompat_file_type incompat_extents);
  descriptor 0 3; descriptor 4 4; descriptor 8 5; descriptor 0x0c 8; descriptor 0x0e 5; descriptor 0x10 1;
  (3 * 1024, [127; 0]);
  (4 * 1024, [255; 3]);
  root_field 0 (bytes16 0x41ed); root_field 4 (bytes32 1024); root_field 0x1a (bytes16 2);
  root_field 0x1c (bytes32 2); root_field 0x20 (bytes32 inode_extents);
  root_field 0x28 (bytes16 extent_magic ++ bytes16 1 ++ bytes16 4 ++ bytes16 0 ++ bytes32 0 ++
                   bytes32 0 ++ bytes16 1 ++ bytes16 0 ++ bytes32 7);
  (7 * 1024, bytes32 2 ++ bytes16 12 ++ [1; 2; 46; 0; 0; 0] ++ bytes32 2 ++ bytes16 1012 ++ [2; 2; 46; 46])].

Definition mounted : Volume (list Z) * Result unit := mount image.

(** "/f" and its content. *)
Definition path_f : list Z := [47; 102].
Definition path_g : list Z := [47; 103].

Example image_mounts : mounted.2 = expected tt.
Proof. vm_compute. reflexivity. Qed.

Definition after_create : Volume (list Z) * Result unit := create (Some path_f) (Some [1; 2; 3; 4; 5]) 5 mounted.1.
Example image_create : after_create.2 = expected tt.
Proof. vm_compute. reflexivity. Qed.
Example image_read : (read_path (Some path_f) 1 false 100 after_create.1).2 = expected [2; 3; 4; 5].
Proof. vm_compute. reflexivity. Qed.
Example image_remove : (remove (Some path_f) after_create.1).2 = expected tt.
Proof. vm_compute. reflexivity. Qed.
Example image_mkdir : (mkdir (Some path_g) 0x1ed after_create.1).2 = expected tt.
Proof. vm_compute. reflexivity. Qed.
End Ext4Image.
