(* ===== verification/Ext4Laws.v ===== *)
(** * The ext4 volume: mounting, and what reading keeps

    [volume_ok] is the type of a mounted volume; [reads_only] relates the
    states around a method that writes nothing. *)

From S2P Require Import Prelude Filesystem Ext4.
Import Fs Ext4.
Local Open Scope Z_scope.

Module Ext4Laws.

(** ** Well-formed volumes *)

(** What [initialize] establishes of the geometry on a device of [n] bytes. *)
Record geometry_ok (g : Geometry) (n : Z) : Prop := {
  ok_block_size : exists k, 0 <= k <= 2 /\ block_size g = 1024 * 2 ^ k;
  ok_first_data_block : 0 <= first_data_block g < block_count g;
  ok_volume : block_count g * block_size g <= n;
  ok_blocks_per_group : 0 < blocks_per_group g < 2 ^ 32;
  ok_inodes_per_group : 0 < inodes_per_group g < 2 ^ 32;
  ok_inode_count : root_inode <= inode_count g < 2 ^ 32;
  ok_inode_size : 128 <= inode_size g <= block_size g;
  ok_descriptor_size : 32 <= descriptor_size g <= block_size g;
  ok_descriptor_wide : has (incompatible_features g) incompat_64_bit = true -> 64 <= descriptor_size g;
  ok_group_count : 0 < group_count g < 2 ^ 32 /\
    (group_count g - 1) * blocks_per_group g < block_count g - first_data_block g <= group_count g * blocks_per_group g;
  ok_inode_capacity : inode_count g <= group_count g * inodes_per_group g;
}.

Section laws.
Context {D : Type} {device : Device D} {laws : DeviceLaws D}.

(** A buffer of [n] bytes. *)
Definition buffer (n : nat) (l : list Z) : Prop := length l = n /\ bytes_ok l.

Lemma buffer_patch n l k data : buffer n l -> bytes_ok data -> (k + length data <= n)%nat -> buffer n (patch l k data).
Proof. intros [Hl Hb] Hd Hk. split; [rewrite -> length_patch; lia|by apply bytes_ok_patch]. Qed.

Record volume_ok (v : Volume D) : Prop := {
  volume_good : good (device_ v);
  volume_block : buffer 4096 (block_ v);
  volume_directory_block : buffer 4096 (directory_block_ v);
  volume_superblock : buffer 1024 (superblock_ v);
  volume_mounted : mounted_ v = true;
  volume_geometry : geometry_ok (geometry_ v) (dev_size (device_ v));
}.

Lemma block_size_range g n : geometry_ok g n -> 1024 <= block_size g <= 4096.
Proof. intros H. destruct (ok_block_size _ _ H) as (k & Hk & ->). assert (k = 0 \/ k = 1 \/ k = 2) as [->|[->| ->]] by lia; cbn; lia. Qed.

Definition bytes (v : Volume D) : Z -> Z := contents (device_ v).

(** ** Reading *)

Definition reads_only (v v' : Volume D) : Prop :=
  same_bytes (device_ v) (device_ v') /\ geometry_ v' = geometry_ v /\ mounted_ v' = mounted_ v /\
  superblock_ v' = superblock_ v /\ (buffer 4096 (block_ v) -> buffer 4096 (block_ v')) /\
  (buffer 4096 (directory_block_ v) -> buffer 4096 (directory_block_ v')).

Lemma reads_only_refl v : good (device_ v) -> reads_only v v.
Proof. intros H. split; [by apply same_bytes_refl|done]. Qed.
Lemma reads_only_trans v1 v2 v3 : reads_only v1 v2 -> reads_only v2 v3 -> reads_only v1 v3.
Proof.
  intros (A1 & A2 & A3 & A4 & A5 & A6) (B1 & B2 & B3 & B4 & B5 & B6).
  split; [by eapply same_bytes_trans|]. split; [congruence|]. split; [congruence|]. split; [congruence|].
  split; auto.
Qed.
Lemma reads_only_ok v v' : reads_only v v' -> volume_ok v -> volume_ok v'.
Proof.
  intros ((Hg & Hz & _) & Eg & Em & Es & Eb & Ed) [H1 H2 H3 H4 H5 H6].
  split; [done|auto|auto|congruence|congruence|]. by rewrite -> Eg, Hz.
Qed.
Lemma reads_only_bytes v v' o : reads_only v v' -> bytes v' o = bytes v o.
Proof. intros ((_ & _ & _ & H) & _). apply H. Qed.
Lemma reads_only_bytes_at v v' o n : reads_only v v' -> bytes_at (bytes v') o n = bytes_at (bytes v) o n.
Proof. intros H. apply bytes_at_ext. intros i _. by apply reads_only_bytes. Qed.
Lemma reads_only_reliable v v' : reads_only v v' -> reliable (device_ v) -> reliable (device_ v').
Proof. intros ((_ & _ & H & _) & _). done. Qed.
Lemma reads_only_geometry v v' : reads_only v v' -> geometry_ v' = geometry_ v.
Proof. by intros (_ & ? & _). Qed.

(** Why a transfer inside the device fails. *)
Definition io_failure (v : Volume D) (e : Error) : Prop := e = Error.io /\ ~ reliable (device_ v).

Lemma io_failure_mono v v' e : reads_only v v' -> io_failure v' e -> io_failure v e.
Proof. intros H [-> Hn]. split; [done|]. intros ?. by apply Hn, (reads_only_reliable v v'). Qed.

Lemma patch_prefix (l data : list Z) n : n = length data -> take n (patch l 0 data) = data.
Proof. intros ->. unfold patch. by rewrite -> take_0, app_nil_l, take_app_length. Qed.

(** A read inside the device: local, into [block_], into [directory_block_]. *)
Lemma read_local_spec v offset size :
  good (device_ v) -> 0 <= offset -> 0 <= size < 2 ^ 32 -> offset + size <= dev_size (device_ v) ->
  wp (read_local offset size) v (fun v' r => reads_only v v' /\
    match r with
    | expected data => data = bytes_at (bytes v) offset (Z.to_nat size)
    | unexpected e => io_failure v e
    end).
Proof.
  intros Hg Ho Hs Hb. unfold wp, read_local.
  pose proof (read_exact_spec (device_ v) offset size Hg Ho Hs) as L.
  destruct (read_exact (device_ v) offset size) as [[d data] e]. destruct L as [Hd He]. cbn.
  split; [by split|]. destruct e; cbn; try done; [by destruct He|by destruct He|lia].
Qed.

Lemma read_block_spec v offset size :
  good (device_ v) -> buffer 4096 (block_ v) -> 0 <= offset -> 0 <= size <= 4096 ->
  offset + size <= dev_size (device_ v) ->
  wp (read_block offset size) v (fun v' r => reads_only v v' /\ directory_block_ v' = directory_block_ v /\
    match r with
    | expected _ => take (Z.to_nat size) (block_ v') = bytes_at (bytes v) offset (Z.to_nat size)
    | unexpected e => io_failure v e
    end).
Proof.
  intros Hg Hl Ho Hs Hb. unfold wp, read_block.
  pose proof (read_exact_spec (device_ v) offset size Hg Ho ltac:(lia)) as L.
  pose proof (read_exact_received (device_ v) offset size Hg Ho ltac:(lia)) as Hrec.
  destruct (read_exact (device_ v) offset size) as [[d data] e]. destruct L as [Hd He], Hrec as [Hlen Hdb].
  cbn -[patch] in Hlen, Hdb |- *.
  split; [do 4 (split; [done|]); split; cbn -[patch]; [intros Hbuf|done]; apply buffer_patch; [done|done|cbn; lia]|]. split; [done|].
  destruct e; cbn -[patch]; try done; [|by destruct He|lia].
  destruct He as [_ ->]. apply patch_prefix. by rewrite length_bytes_at.
Qed.

Lemma read_directory_spec v offset size :
  good (device_ v) -> buffer 4096 (directory_block_ v) -> 0 <= offset -> 0 <= size <= 4096 ->
  offset + size <= dev_size (device_ v) ->
  wp (read_directory offset size) v (fun v' r => reads_only v v' /\ block_ v' = block_ v /\
    match r with
    | expected _ => take (Z.to_nat size) (directory_block_ v') = bytes_at (bytes v) offset (Z.to_nat size)
    | unexpected e => io_failure v e
    end).
Proof.
  intros Hg Hl Ho Hs Hb. unfold wp, read_directory.
  pose proof (read_exact_spec (device_ v) offset size Hg Ho ltac:(lia)) as L.
  pose proof (read_exact_received (device_ v) offset size Hg Ho ltac:(lia)) as Hrec.
  destruct (read_exact (device_ v) offset size) as [[d data] e]. destruct L as [Hd He], Hrec as [Hlen Hdb].
  cbn -[patch] in Hlen, Hdb |- *.
  split; [do 4 (split; [done|]); split; cbn -[patch]; [done|intros Hbuf]; apply buffer_patch; [done|done|cbn; lia]|]. split; [done|].
  destruct e; cbn -[patch]; try done; [|by destruct He|lia].
  destruct He as [_ ->]. apply patch_prefix. by rewrite length_bytes_at.
Qed.

Lemma volume_ok_device v d : volume_ok v -> good d -> dev_size d = dev_size (device_ v) -> volume_ok (v <| device_ := d |>).
Proof. intros [H1 H2 H3 H4 H5 H6] Hd Hs. split; [done..|]. cbn. by rewrite Hs. Qed.

(** ** Blocks *)

Lemma valid_block g n p : geometry_ok g n -> valid_physical_block g p = true -> 0 <= p ->
  0 < p < block_count g /\ 0 <= p * block_size g /\ p * block_size g + block_size g <= n /\
  (n < 2 ^ 64 -> u64 (p * block_size g) = p * block_size g).
Proof.
  intros Hg Hv Hp. unfold valid_physical_block in Hv. apply andb_prop in Hv as [H1%negb_true_iff H2%Z.ltb_lt].
  apply Z.eqb_neq in H1. pose proof (block_size_range g n Hg). pose proof (ok_volume g n Hg).
  assert (p * block_size g + block_size g <= n) by nia. split; [lia|]. split; [nia|]. split; [done|].
  intros Hn. apply wrap_small. unfold in_u. nia.
Qed.

Lemma device_size_word v : volume_ok v -> 0 <= dev_size (device_ v) < 2 ^ 64.
Proof. intros H. apply (size_word (device_ v)), volume_good, H. Qed.

Lemma read_physical_block_spec v p :
  volume_ok v -> 0 <= p -> valid_physical_block (geometry_ v) p = true ->
  wp (read_physical_block p) v (fun v' r => reads_only v v' /\ directory_block_ v' = directory_block_ v /\
    match r with
    | expected _ => take (Z.to_nat (block_size (geometry_ v))) (block_ v') =
        bytes_at (bytes v) (p * block_size (geometry_ v)) (Z.to_nat (block_size (geometry_ v)))
    | unexpected e => io_failure v e
    end).
Proof.
  intros Hv Hp Hval. pose proof (volume_geometry v Hv) as Hg. pose proof (block_size_range _ _ Hg).
  destruct (valid_block _ _ p Hg Hval Hp) as (Hr & H0 & Hb & Hw).
  unfold read_physical_block. apply wp_bind, wp_gets, wp_bind, wp_stop_if; rewrite Hval; [done|]. intros _.
  rewrite -> Hw by (apply device_size_word; done).
  apply read_block_spec; [apply Hv|apply Hv|done|lia|done].
Qed.

Lemma read_physical_directory_spec v p :
  volume_ok v -> 0 <= p -> valid_physical_block (geometry_ v) p = true ->
  wp (read_physical_directory p) v (fun v' r => reads_only v v' /\ block_ v' = block_ v /\
    match r with
    | expected _ => take (Z.to_nat (block_size (geometry_ v))) (directory_block_ v') =
        bytes_at (bytes v) (p * block_size (geometry_ v)) (Z.to_nat (block_size (geometry_ v)))
    | unexpected e => io_failure v e
    end).
Proof.
  intros Hv Hp Hval. pose proof (volume_geometry v Hv) as Hg. pose proof (block_size_range _ _ Hg).
  destruct (valid_block _ _ p Hg Hval Hp) as (Hr & H0 & Hb & Hw).
  unfold read_physical_directory. apply wp_bind, wp_gets, wp_bind, wp_stop_if; rewrite Hval; [done|]. intros _.
  rewrite -> Hw by (apply device_size_word; done).
  apply read_directory_spec; [apply Hv|apply Hv|done|lia|done].
Qed.
End laws.
End Ext4Laws.
