(* ===== verification/Ext4Mount.v ===== *)
(** * Mounting an ext4 volume

    Whatever bytes the device holds, [initialize] either refuses them and
    leaves the volume unmounted or yields a well-formed volume. *)

From S2P Require Import Prelude Ethernet Filesystem Ext4 Ext4Image Ext4Laws.
Import Fs Ext4 Ext4Laws.
Local Open Scope Z_scope.

Module Ext4Mount.
Section mount.
Context {D : Type} {device : Device D} {laws : DeviceLaws D}.

(** The volume while it is being mounted over [d]. *)
Record mounting (d : D) (v : Volume D) : Prop := {
  mounting_device : same_bytes d (device_ v);
  mounting_off : mounted_ v = false;
  mounting_block : buffer 4096 (block_ v);
  mounting_directory_block : buffer 4096 (directory_block_ v);
  mounting_superblock : buffer 1024 (superblock_ v);
}.

(** The outcome of a step: refused, or [Q] of the geometry. *)
Definition outcome (d : D) (Q : Geometry -> Prop) (v : Volume D) (r : Result unit) : Prop :=
  mounting d v /\ match r with expected _ => Q (geometry_ v) | unexpected _ => True end.

Lemma set_geometry_step (d : D) v f : mounting d v -> wp (set_geometry f) v (fun v' r => mounting d v' /\ r = expected tt /\ geometry_ v' = f (geometry_ v)).
Proof. intros [H1 H2 H3 H4 H5]. apply wp_modify. by split. Qed.

Lemma stop_step (v : Volume D) b e (Q : Volume D -> Result unit -> Prop) :
  (b = false -> Q v (expected tt)) -> Q v (unexpected e) -> wp (stop_if b e) v Q.
Proof. intros H1 H2. apply wp_stop_if; [done|exact H1]. Qed.

Lemma load_superblock_spec (d : D) : good d ->
  wp load_superblock (volume_default d <| mounted_ := false |>) (fun v _ => mounting d v).
Proof.
  intros Hd. unfold wp, load_superblock. change (device_ (volume_default d <| mounted_ := false |>)) with d.
  pose proof (read_exact_spec d 1024 1024 Hd ltac:(lia) ltac:(lia)) as L.
  pose proof (read_exact_received d 1024 1024 Hd ltac:(lia) ltac:(lia)) as Hrec.
  destruct (read_exact d 1024 1024) as [[d' data] e]. destruct L as [Hs _], Hrec as [Hl Hb].
  cbn -[patch replicate] in Hl, Hb |- *.
  split; cbn -[patch replicate]; [done|done|by split; [|apply Forall_replicate]..|].
  apply buffer_patch; [by split; [|apply Forall_replicate]|done|cbn; lia].
Qed.

(** The geometry after each stage. *)
Record fields_ok (g : Geometry) : Prop := {
  fields_inode_count : in_u 32 (inode_count g);
  fields_first_data_block : in_u 32 (first_data_block g);
  fields_blocks_per_group : in_u 32 (blocks_per_group g);
  fields_inodes_per_group : in_u 32 (inodes_per_group g);
}.
Record layout_ok (g : Geometry) : Prop := {
  layout_fields : fields_ok g;
  layout_block_size : exists k, 0 <= k <= 2 /\ block_size g = 1024 * 2 ^ k;
  layout_shape : malformed_layout g = false;
}.
Record blocks_ok (g : Geometry) : Prop := {
  blocks_layout : layout_ok g;
  blocks_count : in_u 64 (block_count g);
  blocks_descriptor : 32 <= descriptor_size g <= block_size g;
  blocks_wide : has (incompatible_features g) incompat_64_bit = true -> 64 <= descriptor_size g;
}.

Lemma layout_range g : layout_ok g -> 1024 <= block_size g <= 4096.
Proof. intros [_ (k & Hk & ->) _]. assert (k = 0 \/ k = 1 \/ k = 2) as [->|[->| ->]] by lia; cbn; lia. Qed.

(** A stage that only updates the geometry. *)
Definition stage (d : D) (P Q : Geometry -> Prop) (m : io (Volume D) unit) : Prop :=
  forall v, mounting d v -> P (geometry_ v) -> wp m v (outcome d Q).

Lemma stage_set d (P Q : Geometry -> Prop) f : (forall g, P g -> Q (f g)) -> stage d P Q (set_geometry f).
Proof. intros H v [H1 H2 H3 H4 H5] Hp. apply wp_modify. split; [by split|]. by apply H. Qed.
Lemma stage_bind d (P Q R : Geometry -> Prop) m k : stage d P Q m -> stage d Q R k -> stage d P R (m;; k).
Proof.
  intros Hm Hk v Hv Hp. apply wp_bind. eapply wp_mono; [by apply Hm|]. intros v' [_|e] [Hv' Hq]; [by apply Hk|by split].
Qed.
Lemma stage_gets d (P Q : Geometry -> Prop) (k : Geometry -> io (Volume D) unit) :
  (forall g, stage d (fun g' => P g' /\ g' = g) Q (k g)) -> stage d P Q (g ← gets geometry_; k g).
Proof. intros H v Hv Hp. apply wp_bind, wp_gets. by apply H. Qed.
Lemma stage_stop d (P Q : Geometry -> Prop) b e : (forall g, P g -> b = false -> Q g) -> stage d P Q (stop_if b e).
Proof. intros H v Hv Hp. apply wp_stop_if; intros E; split; [done|done|done|by apply H]. Qed.
Lemma stage_weaken d (P P' Q : Geometry -> Prop) m : (forall g, P' g -> P g) -> stage d P Q m -> stage d P' Q m.
Proof. intros H Hm v Hv Hp. apply Hm; [done|by apply H]. Qed.

Lemma initialize_blocks_stage d sb : bytes_ok sb -> stage d layout_ok blocks_ok (initialize_blocks sb).
Proof.
  intros Hb. pose proof (little_u32_in_u sb 0x04 Hb) as Hlo. pose proof (little_u32_in_u sb 0x150 Hb) as Hhi.
  pose proof (little_u16_in_u sb 0xfe Hb) as Hds.
  unfold initialize_blocks.
  apply (stage_bind _ _ (fun g => layout_ok g /\ in_u 32 (block_count g))).
  { apply stage_set. intros g [[] ? ?]. by split; [|done]. }
  apply stage_gets. intros g0. destruct (has (incompatible_features g0) incompat_64_bit) eqn:Hw.
  - apply (stage_bind _ _ blocks_ok); [|by apply stage_set; intros g [[[] ? ?] ? ? ?]].
    apply (stage_bind _ _ (fun g => layout_ok g /\ in_u 64 (block_count g) /\ 0 <= descriptor_size g)).
    { apply stage_set. intros g [[[[] ? ?] Hc] ->]. split; [by split|]. cbn. split; [|unfold in_u in Hds; lia].
      unfold in_u in *. rewrite -> wrap_small; [|unfold in_u; rewrite -> Z.shiftl_mul_pow2 by lia; lia].
      rewrite -> lor_shiftl by lia. lia. }
    apply stage_gets. intros g1. apply stage_stop. intros g [(Hl & Hc & Hd) ->] [H1%Z.ltb_ge H2]%orb_false_iff.
    rewrite Z.gtb_ltb in H2. apply Z.ltb_ge in H2. split; [done|done|lia|done].
  - apply (stage_bind _ _ blocks_ok); [|by intros v Hv Hp; apply wp_ret].
    apply stage_set. intros g [[Hl Hc] ->]. pose proof (layout_range g0 Hl) as Hr. destruct Hl as [[] ? ?].
    split; cbn; [by split|unfold in_u in *; lia|lia|]. by rewrite Hw.
Qed.

Lemma initialize_groups_stage d : good d ->
  stage d blocks_ok (fun g => geometry_ok g (dev_size d)) initialize_groups.
Proof.
  intros Hd. unfold initialize_groups. apply stage_gets. intros g.
  apply (stage_bind _ _ (fun g' => (blocks_ok g' /\ g' = g) /\ first_data_block g < block_count g)).
  { apply stage_stop. intros g' Hg'%id. rewrite Z.leb_gt. by split. }
  cbn zeta. set (groups := _ / blocks_per_group g).
  apply (stage_bind _ _ (fun g' => (blocks_ok g' /\ g' = g) /\ first_data_block g < block_count g /\
    (groups =? 0) || (groups >? 0xffffffff) = false)).
  { apply stage_stop. by intros g' [? ?]. }
  apply (stage_bind _ _ (fun g' => (exists gc, g' = g <| group_count := gc |> /\ gc = u32 groups) /\ blocks_ok g /\
    first_data_block g < block_count g /\ (groups =? 0) || (groups >? 0xffffffff) = false)).
  { apply stage_set. intros g' [[Hb ->] H]. split; [by eexists|done]. }
  intros v [Hm1 Hm2 Hm3 Hm4 Hm5] ((gc & Eg & ->) & Hb & Hf & Hgr). apply wp_bind, wp_gets, wp_stop_if; intros E; [by split|].
  split; [by split|]. rewrite Eg. destruct Hm1 as (_ & Hsz & _). rewrite Hsz in E.
  apply orb_false_iff in E as [[E1%Z.ltb_ge E2]%orb_false_iff E3]. rewrite Z.gtb_ltb in E3. apply Z.ltb_ge in E3.
  pose proof (size_word d Hd) as Hn. pose proof (layout_range g (blocks_layout g Hb)) as Hr.
  destruct Hb as [[[F1 F2 F3 F4] Hk Hs] Hc Hds Hw].
  assert (block_count g * block_size g < 2 ^ 64) as Hvol.
  { unfold multiply_overflows in E2. apply andb_false_iff in E2 as [E2|E2].
    - apply negb_false_iff, Z.eqb_eq in E2. unfold in_u in *. lia.
    - change (u64 (Z.lnot 0)) with (2 ^ 64 - 1) in E2. rewrite Z.gtb_ltb in E2. apply Z.ltb_ge in E2.
      unfold in_u in *. pose proof (Z.mul_div_le (2 ^ 64 - 1) (block_count g) ltac:(lia)).
      pose proof (Z.mul_le_mono_nonneg_l (block_size g) ((2 ^ 64 - 1) / block_count g) (block_count g)). lia. }
  rewrite -> wrap_small in E3 by (unfold in_u in *; nia).
  unfold malformed_layout in Hs. rewrite !orb_false_iff in Hs. destruct Hs as (((((S1 & S2) & S3) & S4) & S5) & _).
  apply Z.ltb_ge in S1, S4. apply Z.eqb_neq in S2, S3. rewrite Z.gtb_ltb in S5. apply Z.ltb_ge in S5.
  apply orb_false_iff in Hgr as [G1%Z.eqb_neq G2]. rewrite Z.gtb_ltb in G2. apply Z.ltb_ge in G2.
  assert (groups = (block_count g - first_data_block g + blocks_per_group g - 1) / blocks_per_group g) as Egr.
  { subst groups. unfold in_u in *. assert (block_count g < 2 ^ 54) by nia.
    rewrite -> (wrap_small 64 (block_count g - _)) by (unfold in_u; lia).
    rewrite -> (wrap_small 64 (_ + blocks_per_group g)) by (unfold in_u; lia).
    rewrite -> wrap_small by (unfold in_u; lia). done. }
  clearbody groups. unfold in_u in *.
  assert (0 <= groups) by (rewrite Egr; apply Z.div_pos; lia).
  rewrite -> (wrap_small 64 (groups * _)) in E1 by (unfold in_u; nia).
  split; cbn; try done; try lia.
  - rewrite -> wrap_small by (unfold in_u; lia). split; [lia|].
    pose proof (Z.div_mod (block_count g - first_data_block g + blocks_per_group g - 1) (blocks_per_group g) ltac:(lia)) as Hdm.
    pose proof (Z.mod_pos_bound (block_count g - first_data_block g + blocks_per_group g - 1) (blocks_per_group g) ltac:(lia)).
    rewrite <- Egr in Hdm. nia.
  - rewrite -> wrap_small by (unfold in_u; lia). done.
Qed.

Lemma initialize_geometry_stage d sb : good d -> bytes_ok sb ->
  stage d (fun _ => True) (fun g => geometry_ok g (dev_size d)) (initialize_geometry sb).
Proof.
  intros Hd Hb. unfold initialize_geometry. pose proof (fun i => little_u32_in_u sb i Hb) as H32.
  apply (stage_bind _ _ fields_ok).
  { apply stage_set. intros g _. split; cbn -[little_u32 in_u]; apply H32. }
  apply stage_gets. intros g0. apply (stage_bind _ _ fields_ok); [apply stage_stop; by intros g [? _]|].
  cbn zeta. apply (stage_bind _ _ (fun g => fields_ok g /\ little_u32 sb 0x18 <= 2)).
  { apply stage_stop. intros g Hg E. rewrite Z.gtb_ltb in E. apply Z.ltb_ge in E. by split. }
  apply (stage_bind _ _ (fun g => fields_ok g /\ exists k, 0 <= k <= 2 /\ block_size g = 1024 * 2 ^ k)).
  { apply stage_set. intros g [[] Hk]. split; [by split|]. exists (little_u32 sb 0x18). pose proof (H32 0x18%nat).
    unfold in_u in *. split; [lia|]. cbn -[Z.pow Z.mul]. rewrite -> Z.shiftl_mul_pow2 by lia. apply wrap_small. unfold in_u.
    assert (little_u32 sb 0x18 = 0 \/ little_u32 sb 0x18 = 1 \/ little_u32 sb 0x18 = 2) as [->|[->| ->]] by lia; cbn; lia. }
  apply stage_gets. intros g1.
  apply (stage_bind _ _ layout_ok).
  { apply stage_stop. intros g [[Hf Hk] ->] E. by split. }
  apply (stage_bind _ _ blocks_ok); [by apply initialize_blocks_stage|].
  apply (stage_bind _ _ (fun g => geometry_ok g (dev_size d))); [by apply initialize_groups_stage|].
  apply (stage_bind _ _ (fun g => geometry_ok g (dev_size d))); apply stage_set; intros g []; by split.
Qed.

Lemma initialize_spec d : good d ->
  wp initialize (volume_default d) (fun v r => same_bytes d (device_ v) /\
    match r with expected _ => volume_ok v | unexpected _ => mounted_ v = false end).
Proof.
  intros Hd. unfold initialize. apply wp_bind, wp_modify, wp_bind.
  eapply wp_mono; [by apply load_superblock_spec|]. intros v [_|e] Hm; [|by destruct Hm].
  apply wp_bind, wp_gets, wp_bind, wp_stop_if; intros _; [by destruct Hm|].
  apply wp_bind. eapply wp_mono; [apply initialize_geometry_stage; [done|apply Hm|done|done]|].
  intros v' [_|e] [[H1 H2 H3 H4 H5] Hg]; [|done].
  apply wp_modify. split; [done|]. destruct H1 as (Hg1 & Hs1 & _). split; try done. by cbn; rewrite Hs1.
Qed.

(** C25: whatever bytes the device holds, [mount] writes none of them and either
    reports an error and leaves the volume unmounted, or yields a well-formed
    volume: its blocks lie on the device, its block size is one the buffers
    hold, and its groups and inodes cover exactly the counts of the
    superblock. *)
Theorem ext4_mount_sound d : good d ->
  let '(v, r) := mount d in
  same_bytes d (device_ v) /\
  match r with expected _ => volume_ok v | unexpected _ => mounted_ v = false end.
Proof.
  intros Hd. pose proof (initialize_spec d Hd) as L. unfold wp, mount in *.
  destruct (initialize (volume_default d)). exact L.
Qed.
End mount.

Lemma image_good : good Ext4Image.image.
Proof. split; [apply Ethernet.Ethernet.bytes_ok_check; vm_compute; reflexivity|vm_compute; reflexivity]. Qed.

Lemma image_ok : volume_ok Ext4Image.mounted.1.
Proof.
  pose proof (initialize_spec Ext4Image.image image_good) as [_ H].
  assert ((initialize (volume_default Ext4Image.image)).2 = expected tt) as E by (vm_compute; reflexivity).
  rewrite E in H. exact H.
Qed.

Lemma ext4_mount_sound_witness :
  let '(v, r) := mount Ext4Image.image in r = expected tt /\ volume_ok v.
Proof.
  pose proof (ext4_mount_sound Ext4Image.image image_good) as L.
  destruct (mount Ext4Image.image) as [v r] eqn:E.
  assert (r = expected tt) as -> by (change r with (v, r).2; rewrite <- E; vm_compute; reflexivity).
  split; [reflexivity|apply L].
Defined.
End Ext4Mount.
