(* ===== verification/Ext4Map.v ===== *)
(** * From logical to physical blocks

    An extent tree of depth [d] as data, the bytes that encode it on the
    device, and [map_extents] as the search in that data; the block pointers
    of the older format likewise. *)

From S2P Require Import Prelude Ethernet Filesystem Ext4 Ext4Image Ext4Laws Ext4Mount.
Import Fs Ext4 Ext4Laws.
Local Open Scope Z_scope.

Module Ext4Map.

(** ** Extent trees *)

Record Extent := mkExtent { extent_from : Z; extent_blocks : Z; extent_written : bool; extent_to : Z }.

(** The index entries of an inner node carry the first logical block and the
    block of the child. *)
Fixpoint tree (depth : nat) : Type :=
  match depth with
  | O => list Extent
  | S depth => list (Z * Z * tree depth)
  end.

Definition covers (e : Extent) (logical : Z) : bool :=
  (extent_from e <=? logical) && (logical <? extent_from e + extent_blocks e).

Fixpoint leaf_find (es : list Extent) (logical : Z) : BlockMapping :=
  match es with
  | [] => hole
  | e :: es =>
      if covers e logical
      then if extent_written e then mkMapping (extent_to e + (logical - extent_from e)) false else hole
      else leaf_find es logical
  end.

(** The child for [logical]: of the last entry that does not start after it. *)
Fixpoint select {T} (ns : list (Z * Z * T)) (logical : Z) (selected : option (Z * T)) : option (Z * T) :=
  match ns with
  | [] => selected
  | (first, child, t) :: ns => if first <=? logical then select ns logical (Some (child, t)) else selected
  end.

Fixpoint find (depth : nat) : tree depth -> Z -> BlockMapping :=
  match depth with
  | O => leaf_find
  | S depth => fun ns logical =>
      match select ns logical None with
      | Some (_, t) => find depth t logical
      | None => hole
      end
  end.

(** ** The encoding *)

Definition raw_length (e : Extent) : Z := if extent_written e then extent_blocks e else extent_blocks e + 32768.

Definition header (node : list Z) (capacity : Z) (n : nat) (depth : nat) : Prop :=
  12 <= capacity /\ little_u16 node 0 = extent_magic /\ little_u16 node 2 = Z.of_nat n /\
  Z.of_nat n <= little_u16 node 4 <= (capacity - 12) / 12 /\ little_u16 node 6 = Z.of_nat depth.

Definition extent_encoded (node : list Z) (i : nat) (e : Extent) : Prop :=
  extent_first node i = extent_from e /\ extent_length node i = raw_length e /\ extent_start node i = extent_to e.

(** An extent in range that starts at [from] or later. *)
Definition extent_ok (g : Geometry) (from : Z) (e : Extent) : Prop :=
  from <= extent_from e /\ extent_from e + extent_blocks e <= 2 ^ 32 /\
  (if extent_written e then 0 < extent_blocks e <= 32768 else 0 < extent_blocks e < 32768) /\
  (extent_written e = true -> 0 < extent_to e /\ extent_to e + extent_blocks e <= block_count g).

Fixpoint leaf_ok (g : Geometry) (from : Z) (es : list Extent) : Prop :=
  match es with
  | [] => True
  | e :: es => extent_ok g from e /\ leaf_ok g (extent_from e + extent_blocks e) es
  end.

Definition index_first (node : list Z) (i : nat) : Z := little_u32 node (12 + i * 12).
Definition index_child (node : list Z) (i : nat) : Z :=
  Z.lor (u64 (Z.shiftl (little_u16 node (12 + i * 12 + 8)) 32)) (little_u32 node (12 + i * 12 + 4)).

Fixpoint increasing (previous : option Z) {T} (ns : list (Z * Z * T)) : Prop :=
  match ns with
  | [] => True
  | (first, _, _) :: ns => match previous with Some p => p < first | None => True end /\ increasing (Some first) ns
  end.

(** [node], the first [capacity] bytes of a buffer, encodes a tree whose inner
    nodes are blocks of [f]. *)
Fixpoint encoded (f : Z -> Z) (g : Geometry) (depth : nat) (node : list Z) (capacity : Z) : tree depth -> Prop :=
  match depth with
  | O => fun es =>
      header node capacity (length es) 0 /\ leaf_ok g 0 es /\
      forall i e, es !! i = Some e -> extent_encoded node i e
  | S depth => fun ns =>
      header node capacity (length ns) (S depth) /\ increasing None ns /\
      forall i first child t, ns !! i = Some (first, child, t) ->
        index_first node i = first /\ index_child node i = child /\
        0 <= child /\ valid_physical_block g child = true /\
        encoded f g depth (bytes_at f (child * block_size g) (Z.to_nat (block_size g))) (block_size g) t
  end.

(** ** Buffers that agree on their first bytes *)

Lemma byte_take n l i : (i < n)%nat -> byte (take n l) i = byte l i.
Proof. intros H. unfold byte. by rewrite -> lookup_take_lt. Qed.
Lemma little_u16_take n l i : (i + 2 <= n)%nat -> little_u16 (take n l) i = little_u16 l i.
Proof. intros H. unfold little_u16. by rewrite -> !byte_take by lia. Qed.
Lemma little_u32_take n l i : (i + 4 <= n)%nat -> little_u32 (take n l) i = little_u32 l i.
Proof. intros H. unfold little_u32. by rewrite -> !byte_take by lia. Qed.

Lemma header_room node capacity n depth i : header node capacity n depth -> (i < n)%nat ->
  (12 + i * 12 + 12 <= Z.to_nat capacity)%nat.
Proof.
  intros (H1 & _ & _ & H2 & _) Hi. pose proof (Z.mul_div_le (capacity - 12) 12 ltac:(lia)). lia.
Qed.

Lemma header_take node capacity n depth : header (take (Z.to_nat capacity) node) capacity n depth <-> header node capacity n depth.
Proof.
  unfold header. split; intros (H1 & H2); rewrite -> !little_u16_take in * by lia; done.
Qed.

Lemma encoded_take f g depth node capacity t :
  encoded f g depth (take (Z.to_nat capacity) node) capacity t <-> encoded f g depth node capacity t.
Proof.
  destruct depth as [|depth]; cbn [encoded]; rewrite -> header_take; split; intros (H1 & H2 & H3); (split; [done|split; [done|]]).
  - intros i e Hi. destruct (H3 i e Hi) as (E1 & E2 & E3). pose proof (lookup_lt_Some _ _ _ Hi) as Hlt.
    pose proof (header_room _ _ _ _ i H1 Hlt). unfold extent_encoded, extent_first, extent_length, extent_start in *.
    rewrite -> !little_u16_take, !little_u32_take in * by lia. done.
  - intros i e Hi. destruct (H3 i e Hi) as (E1 & E2 & E3). pose proof (lookup_lt_Some _ _ _ Hi) as Hlt.
    pose proof (header_room _ _ _ _ i H1 Hlt). unfold extent_encoded, extent_first, extent_length, extent_start in *.
    rewrite -> !little_u16_take, !little_u32_take in * by lia. done.
  - intros i first child c Hi. destruct (H3 i first child c Hi) as (E1 & E2 & E3). pose proof (lookup_lt_Some _ _ _ Hi) as Hlt.
    pose proof (header_room _ _ _ _ i H1 Hlt). unfold index_first, index_child in *.
    rewrite -> !little_u16_take, !little_u32_take in * by lia. done.
  - intros i first child c Hi. destruct (H3 i first child c Hi) as (E1 & E2 & E3). pose proof (lookup_lt_Some _ _ _ Hi) as Hlt.
    pose proof (header_room _ _ _ _ i H1 Hlt). unfold index_first, index_child in *.
    rewrite -> !little_u16_take, !little_u32_take in * by lia. done.
Qed.

(** ** Scanning a node *)

Lemma leaf_scan_spec g node logical es : forall index previous,
  leaf_ok g (default 0 previous) es -> (forall p, previous = Some p -> 0 <= p) -> 0 <= logical ->
  (forall i e, es !! i = Some e -> extent_encoded node (index + i) e) ->
  leaf_scan g node logical (length es) index previous = expected (leaf_find es logical).
Proof.
  induction es as [|e es IH]; intros index previous Hok Hp Hlog He; [done|]. cbn [leaf_scan length leaf_find].
  destruct Hok as [(H1 & H2 & H3 & H4) Hok].
  destruct (He 0%nat e eq_refl) as (E1 & E2 & E3). rewrite -> Nat.add_0_r in E1, E2, E3.
  unfold extent_first, extent_length, extent_start in E1, E2, E3. rewrite -> E1, E2, E3.
  assert (0 < extent_blocks e) as Hpos by (destruct (extent_written e); lia).
  assert (0 <= default 0 previous) as H0 by (destruct previous as [p|]; cbn; [by apply Hp|lia]).
  assert (raw_length e <> 0 /\ (raw_length e >? 32768) = negb (extent_written e) /\
    (if raw_length e >? 32768 then raw_length e - 32768 else raw_length e) = extent_blocks e) as (R1 & R2 & R3).
  { unfold raw_length in *. destruct (extent_written e); rewrite -> Z.gtb_ltb; [rewrite -> (proj2 (Z.ltb_ge _ _)) by lia|rewrite -> (proj2 (Z.ltb_lt _ _)) by lia]; cbn; lia. }
  rewrite -> (proj2 (Z.eqb_neq _ _)), R3, R2 by done.
  assert (match previous with Some p => extent_from e <? p | None => false end = false) as ->.
  { destruct previous; [apply Z.ltb_ge; cbn in H1; lia|done]. }
  rewrite -> Z.gtb_ltb, (proj2 (Z.ltb_ge _ _)) by lia. cbn [orb]. unfold covers.
  destruct (Z.ltb_spec logical (extent_from e)) as [Hlt|Hge]; cbn [orb].
  { rewrite -> (proj2 (Z.leb_gt _ _)) by lia. cbn [andb]. apply IH; [done|by intros p [= <-]; lia|done|].
    intros i e' Hi. rewrite -> Nat.add_succ_l, <- Nat.add_succ_r. by apply He. }
  rewrite -> (proj2 (Z.leb_le (extent_from e) _)) by lia. cbn [andb]. rewrite -> Z.leb_antisym.
  destruct (Z.ltb_spec logical (extent_from e + extent_blocks e)) as [Hin|Hout]; cbn [negb].
  - destruct (extent_written e) eqn:Ew; cbn [negb]; [|done].
    destruct (H4 eq_refl). unfold valid_physical_block.
    by rewrite -> (proj2 (Z.eqb_neq _ _)), (proj2 (Z.ltb_lt _ _)) by lia.
  - apply IH; [done|by intros p [= <-]; lia|done|]. intros i e' Hi. rewrite -> Nat.add_succ_l, <- Nat.add_succ_r. by apply He.
Qed.

Lemma index_scan_spec {T} node logical (ns : list (Z * Z * T)) : forall index previous selected,
  increasing (if (index =? 0)%nat then None else Some previous) ns ->
  (forall i first child t, ns !! i = Some (first, child, t) -> index_first node (index + i) = first) ->
  exists s, index_scan node logical (length ns) index previous selected = expected s /\
    match select ns logical None with
    | Some (child, t) => exists i first, ns !! i = Some (first, child, t) /\ s = Some (12 + (index + i) * 12)%nat
    | None => s = selected
    end.
Proof.
  assert (Hsel : forall (ns : list (Z * Z * T)) acc, select ns logical acc = match select ns logical None with Some r => Some r | None => acc end).
  { clear. induction ns as [|[[first child] t] ns IH]; intros acc; [done|]. cbn [select].
    destruct (first <=? logical); [|done]. rewrite -> (IH (Some (child, t))). by destruct (select ns logical None). }
  induction ns as [|[[first child] t] ns IH]; intros index previous selected Hinc He; [by exists selected|].
  cbn [index_scan length select]. destruct Hinc as [H1 Hinc].
  pose proof (He 0%nat first child t eq_refl) as E. rewrite -> Nat.add_0_r in E. unfold index_first in E. rewrite E.
  assert (negb (index =? 0)%nat && (first <=? previous) = false) as ->.
  { destruct (Nat.eqb_spec index 0); [done|]. cbn. apply Z.leb_gt. done. }
  destruct (Z.leb_spec first logical) as [Hle|Hgt]; [|by exists selected].
  destruct (IH (S index) first (Some (12 + index * 12)%nat)) as (s & Hs & Hm).
  { done. }
  { intros i f c t' Hi. rewrite -> Nat.add_succ_l, <- Nat.add_succ_r. by eapply He. }
  exists s. split; [done|]. rewrite -> (Hsel ns (Some (child, t))). destruct (select ns logical None) as [[c' t']|].
  - destruct Hm as (i & f & Hi & ->). exists (S i), f. split; [done|]. do 2 f_equal. lia.
  - exists 0%nat, first. rewrite Nat.add_0_r. done.
Qed.

(** ** [map_extents] *)

Section map.
Context {D : Type} {device : Device D} {laws : DeviceLaws D}.

(** A search that only reads: its answer, or the failure of the device. *)
Definition answers (v : Volume D) (m : BlockMapping) (v' : Volume D) (r : Result BlockMapping) : Prop :=
  reads_only v v' /\ match r with expected m' => m' = m | unexpected e => io_failure v e end.

Lemma map_extents_loop_spec f depth : forall v node capacity t logical,
  volume_ok v -> (forall o, bytes v o = f o) -> encoded f (geometry_ v) depth node capacity t -> 0 <= logical ->
  wp (map_extents_loop depth node capacity logical) v (answers v (find depth t logical)).
Proof.
  induction depth as [|depth IH]; intros v node capacity t logical Hv Hf Hen Hlog; cbn [map_extents_loop encoded find] in *.
  - destruct Hen as ((H1 & H2 & H3 & H4 & H5) & Hok & He).
    apply wp_bind, wp_stop_if; rewrite -> (proj2 (Z.ltb_ge _ _)), H2, Z.eqb_refl by lia; [done|intros _].
    apply wp_bind, wp_stop_if; rewrite -> H3, H5, !Z.gtb_ltb, !(proj2 (Z.ltb_ge _ _)) by lia; [done|intros _].
    apply wp_bind, wp_gets. rewrite -> Nat2Z.id, (leaf_scan_spec (geometry_ v) node logical t 0 None) by done.
    split; [by apply reads_only_refl, Hv|done].
  - destruct Hen as ((H1 & H2 & H3 & H4 & H5) & Hinc & He).
    apply wp_bind, wp_stop_if; rewrite -> (proj2 (Z.ltb_ge _ _)), H2, Z.eqb_refl by lia; [done|intros _].
    apply wp_bind, wp_stop_if; rewrite -> H3, H5, !Z.gtb_ltb, !(proj2 (Z.ltb_ge _ _)), Z.eqb_refl by lia; [done|intros _].
    apply wp_bind, wp_gets. rewrite -> Nat2Z.id.
    destruct (index_scan_spec node logical t 0 0 None Hinc) as (s & -> & Hs); [by intros; eapply He|].
    apply wp_bind. unfold wp at 1. cbn [of_result fst snd]. destruct (select t logical None) as [[child c]|].
    2: { rewrite Hs. split; [by apply reads_only_refl, Hv|done]. }
    destruct Hs as (i & first & Hi & ->). cbn [Nat.add]. destruct (He i first child c Hi) as (_ & Ec & Hc0 & Hcv & Hce).
    unfold index_child in Ec. cbn [Nat.add] in Ec. rewrite Ec.
    apply wp_bind. eapply wp_mono; [by apply read_physical_block_spec|]. intros v1 [_|e] (Hro & _ & Hb); [|by split].
    apply wp_bind, wp_gets.
    eapply wp_mono; [apply (IH v1 _ _ c)|].
    + by apply (reads_only_ok v).
    + intros o. by rewrite -> (reads_only_bytes _ _ _ Hro).
    + rewrite -> (reads_only_geometry _ _ Hro). apply encoded_take. rewrite Hb.
      by rewrite -> (bytes_at_ext (bytes v) f) by done.
    + done.
    + intros v2 r [Hro2 Hr]. split; [by eapply reads_only_trans|]. destruct r; [done|by eapply io_failure_mono].
Qed.

(** [M] is the mapping of [file], for every state that holds the same bytes. *)
Definition maps (v : Volume D) (file : Node) (M : Z -> BlockMapping) : Prop :=
  forall v' logical, reads_only v v' -> 0 <= logical < 2 ^ 32 -> wp (map_block file logical) v' (answers v' (M logical)).

Lemma maps_reads_only v v' file M : maps v file M -> reads_only v v' -> maps v' file M.
Proof. intros H Hr v2 logical Hr2. apply H. by eapply reads_only_trans. Qed.

Lemma answers_weaken v0 v m v' r : reads_only v0 v -> answers v m v' r -> answers v0 m v' r.
Proof.
  intros H [H1 H2]. split; [by eapply reads_only_trans|]. destruct r; [done|by eapply io_failure_mono].
Qed.

(** The inode of a file whose extent tree is [t]. *)
Definition extent_file (v : Volume D) (file : Node) (depth : nat) (t : tree depth) : Prop :=
  has (flags file) inode_inline_data = false /\ has (flags file) inode_extents = true /\ (depth <= 5)%nat /\
  encoded (bytes v) (geometry_ v) depth (block_data file) 60 t.

Lemma extent_file_maps v file depth t : volume_ok v -> extent_file v file depth t -> maps v file (find depth t).
Proof.
  intros Hv (Hi & He & Hd & Henc) v' logical Hr Hl. unfold map_block. rewrite Hi.
  apply wp_bind, wp_stop_if; [done|]. intros _. rewrite He. unfold map_extents.
  assert (little_u16 (block_data file) 6 = Z.of_nat depth) as E by (destruct depth; apply Henc).
  apply wp_bind, wp_stop_if; rewrite -> E, Z.gtb_ltb, (proj2 (Z.ltb_ge _ _)) by lia; [done|intros _].
  rewrite Nat2Z.id. apply (map_extents_loop_spec (bytes v)); [by apply (reads_only_ok v)| | |lia].
  - intros o. by apply reads_only_bytes.
  - by rewrite -> (reads_only_geometry _ _ Hr).
Qed.

(** ** Block pointers *)

(** A pointer of the pointer block [block]. *)
Definition pointer (f : Z -> Z) (g : Geometry) (block index : Z) : Z :=
  little_u32 (bytes_at f (block * block_size g) (Z.to_nat (block_size g))) (Z.to_nat (index * 4)).

(** Following pointers: a zero pointer ends at a hole, a pointer out of the
    volume is corrupt. *)
Fixpoint follow (f : Z -> Z) (g : Geometry) (block : Z) (indices : list Z) : option Z :=
  if block =? 0 then Some 0
  else if negb (valid_physical_block g block) then None
  else match indices with
       | [] => Some block
       | i :: indices => follow f g (pointer f g block i) indices
       end.

(** The slot of the inode and the indices on the way to block [logical], with
    [p] pointers in a block. *)
Definition legacy_path (p logical : Z) : option (Z * list Z) :=
  if logical <? 12 then Some (logical, []) else
  let r := logical - 12 in
  if r <? p then Some (12, [r]) else
  let r := r - p in
  if r <? p * p then Some (13, [r / p; r mod p]) else
  let r := r - p * p in
  if r <? p * p * p then Some (14, [r / (p * p); r mod (p * p) / p; r mod (p * p) mod p]) else None.

Definition legacy_find (f : Z -> Z) (g : Geometry) (node : Node) (logical : Z) : Result BlockMapping :=
  match legacy_path (block_size g / 4) logical with
  | None => unexpected Error.out_of_bounds
  | Some (slot, indices) =>
      match follow f g (little_u32 (block_data node) (Z.to_nat (slot * 4))) indices with
      | Some block => expected (mapped block)
      | None => unexpected Error.corrupt
      end
  end.

Definition pointers_ok (v : Volume D) (b : Z) (v' : Volume D) (r : Result Z) (indices : list Z) : Prop :=
  reads_only v v' /\
  match r with
  | expected b' => follow (bytes v) (geometry_ v) b' indices = follow (bytes v) (geometry_ v) b indices
  | unexpected e => io_failure v e
  end.

(** One step along a path. *)
Lemma indirect_pointer_spec v b i indices :
  volume_ok v -> 0 <= b -> 0 <= i < block_size (geometry_ v) / 4 ->
  wp (indirect_pointer b i) v (fun v' r => reads_only v v' /\
    match r with
    | expected b' => 0 <= b' /\ (b' = 0 \/ valid_physical_block (geometry_ v) b' = true) /\
        follow (bytes v) (geometry_ v) b (i :: indices) = follow (bytes v) (geometry_ v) b' indices
    | unexpected e => io_failure v e \/
        (e = Error.corrupt /\ follow (bytes v) (geometry_ v) b (i :: indices) = None)
    end).
Proof.
  intros Hv Hb Hi. unfold indirect_pointer. cbn [follow]. destruct (Z.eqb_spec b 0) as [->|Hnz].
  { apply wp_ret. split; [by apply reads_only_refl, Hv|]. split; [done|]. split; [by left|]. by destruct indices. }
  destruct (valid_physical_block (geometry_ v) b) eqn:Hval; cbn [negb].
  2: { unfold read_physical_block. apply wp_bind, wp_bind, wp_gets, wp_bind, wp_stop_if; rewrite Hval; [|done].
       intros _. split; [by apply reads_only_refl, Hv|]. by right. }
  pose proof (block_size_range _ _ (volume_geometry v Hv)) as Hbs.
  pose proof (Z.mul_div_le (block_size (geometry_ v)) 4 ltac:(lia)) as H4.
  apply wp_bind. eapply wp_mono; [by apply read_physical_block_spec|]. intros v1 [_|e] (Hro & _ & Hl); [|by split; [|left]].
  apply wp_bind, wp_gets, wp_bind, wp_gets. rewrite -> (reads_only_geometry _ _ Hro).
  apply wp_bind, wp_stop_if; rewrite -> Z.geb_leb, (proj2 (Z.leb_gt _ _)) by lia; [done|intros _].
  assert (little_u32 (block_ v1) (Z.to_nat (i * 4)) = pointer (bytes v) (geometry_ v) b i) as E.
  { unfold pointer. rewrite <- Hl, little_u32_take by lia. done. }
  rewrite E. assert (0 <= pointer (bytes v) (geometry_ v) b i) as H0.
  { unfold pointer. apply little_u32_in_u, bytes_at_ok. intros. apply contents_byte, Hv. }
  assert (forall b', (b' = 0 \/ valid_physical_block (geometry_ v) b' = true) <-> negb (b' =? 0) && negb (valid_physical_block (geometry_ v) b') = false) as Hor.
  { intros b'. destruct (Z.eqb_spec b' 0), (valid_physical_block (geometry_ v) b'); cbn; intuition; lia. }
  apply wp_bind, wp_stop_if; intros Ec.
  - split; [done|]. right. split; [done|]. apply andb_prop in Ec as [E1%negb_true_iff E2%negb_true_iff].
    destruct indices; cbn [follow]; by rewrite -> E1, E2.
  - apply wp_ret. split; [done|]. split; [done|]. split; [by apply Hor|done].
Qed.

Lemma legacy_step {X} v v1 b i indices (k : Z -> io (Volume D) X) (Q : Volume D -> Result X -> Prop) :
  volume_ok v -> reads_only v v1 -> 0 <= b -> 0 <= i < block_size (geometry_ v) / 4 ->
  (forall v2 b', reads_only v v2 -> 0 <= b' -> (b' = 0 \/ valid_physical_block (geometry_ v) b' = true) ->
     follow (bytes v) (geometry_ v) b (i :: indices) = follow (bytes v) (geometry_ v) b' indices -> wp (k b') v2 Q) ->
  (forall v2 e, reads_only v v2 -> io_failure v e \/
     (e = Error.corrupt /\ follow (bytes v) (geometry_ v) b (i :: indices) = None) -> Q v2 (unexpected e)) ->
  wp (b' ← indirect_pointer b i; k b') v1 Q.
Proof.
  intros Hv Hr Hb Hi Hk He. apply wp_bind.
  pose proof (reads_only_ok _ _ Hr Hv) as Hv1. pose proof (reads_only_geometry _ _ Hr) as Eg.
  assert (Ef : forall b js, follow (bytes v1) (geometry_ v1) b js = follow (bytes v) (geometry_ v) b js).
  { clear -Hr Eg. intros b js. revert b. induction js as [|i js IH]; intros b; cbn [follow]; rewrite Eg; [done|].
    case_match; [done|]. case_match; [done|]. rewrite Eg in IH. rewrite IH. unfold pointer.
    by rewrite -> (reads_only_bytes_at _ _ _ _ Hr). }
  eapply wp_mono; [apply (indirect_pointer_spec v1 b i indices Hv1 Hb); by rewrite Eg|].
  intros v2 [b'|e] [Hr2 H]; rewrite -> !Ef in H; rewrite ?Eg in H.
  - destruct H as (? & ? & ?). apply Hk; [by eapply reads_only_trans|done..].
  - apply He; [by eapply reads_only_trans|]. destruct H; [left; by eapply io_failure_mono|by right].
Qed.

Definition agrees {A} (v : Volume D) (m : Result A) (v' : Volume D) (r : Result A) : Prop :=
  reads_only v v' /\ (r = m \/ exists e, r = unexpected e /\ io_failure v e).

(** The last pointer of a path, as a mapping. *)
Lemma legacy_last v b v2 : reads_only v v2 -> b = 0 \/ valid_physical_block (geometry_ v) b = true ->
  wp (mret (mapped b)) v2 (agrees v
    match follow (bytes v) (geometry_ v) b [] with Some block => expected (mapped block) | None => unexpected Error.corrupt end).
Proof.
  intros Hr Hb. apply wp_ret. split; [done|]. left. cbn [follow].
  destruct (Z.eqb_spec b 0) as [->|Hnz]; [done|]. destruct Hb as [|Hb]; [lia|]. by rewrite Hb.
Qed.

Lemma legacy_error {A} v v2 e (o : option Z) (k : Z -> Result A) : reads_only v v2 ->
  io_failure v e \/ (e = Error.corrupt /\ o = None) ->
  agrees v match o with Some block => k block | None => unexpected Error.corrupt end v2 (unexpected e).
Proof. intros Hr [H|[-> ->]]; (split; [done|]); [right; by exists e|by left]. Qed.

Lemma slot_pointer node i : bytes_ok (block_data node) -> 0 <= little_u32 (block_data node) i.
Proof. intros H. by apply little_u32_in_u. Qed.

Lemma map_legacy_spec v node logical : volume_ok v -> bytes_ok (block_data node) -> 0 <= logical ->
  wp (map_legacy node logical) v (agrees v (legacy_find (bytes v) (geometry_ v) node logical)).
Proof.
  intros Hv Hb Hl. unfold map_legacy, legacy_find, legacy_path. apply wp_bind, wp_gets.
  pose proof (reads_only_refl v (volume_good v Hv)) as Hrefl.
  pose proof (block_size_range _ _ (volume_geometry v Hv)) as Hbs.
  assert (0 < block_size (geometry_ v) / 4) as Hp by (apply Z.div_str_pos; lia).
  set (p := block_size (geometry_ v) / 4) in *.
  destruct (Z.ltb_spec logical 12).
  { set (b := little_u32 _ _). cbn [follow]. destruct (Z.eqb_spec b 0) as [Hz|Hz].
    { apply wp_bind, wp_stop_if; cbn; [done|]. intros _. apply wp_ret. split; [done|]. left. by rewrite Hz. }
    destruct (valid_physical_block (geometry_ v) b) eqn:E; cbn [negb andb]; apply wp_bind, wp_stop_if; try done; intros _.
    - apply wp_ret. split; [done|by left].
    - split; [done|by left]. }
  destruct (Z.ltb_spec (logical - 12) p).
  { change (Z.to_nat (12 * 4)) with 48%nat. apply (legacy_step v v _ _ []); [done|done|by apply slot_pointer|lia| |].
    - intros v2 b' Hr _ Hval ->. by apply legacy_last.
    - intros v2 e Hr He. by apply legacy_error. }
  set (r := logical - 12 - p).
  destruct (Z.ltb_spec r (p * p)).
  { change (Z.to_nat (13 * 4)) with 52%nat. pose proof (Z.mod_pos_bound r p Hp). assert (0 <= r / p < p).
    { split; [apply Z.div_pos; lia|apply Z.div_lt_upper_bound; lia]. }
    apply (legacy_step v v _ _ [r mod p]); [done|done|by apply slot_pointer|done| |].
    - intros v2 b1 Hr1 Hb1 _ E1. apply (legacy_step v v2 _ _ []); [done|done|done|done| |].
      + intros v3 b2 Hr2 _ Hval E2. rewrite -> E1, E2. by apply legacy_last.
      + intros v3 e Hr2 He. rewrite E1. by apply legacy_error.
    - intros v2 e Hr He. by apply legacy_error. }
  set (r2 := r - p * p) in *.
  apply wp_bind, wp_stop_if; rewrite -> Z.geb_leb, Z.leb_antisym; destruct (Z.ltb_spec r2 (p * p * p)) as [Hlt|Hge];
    cbn [negb]; try done; intros _; [by split; [|left]|].
  change (Z.to_nat (14 * 4)) with 56%nat. pose proof (Z.mul_pos_pos p p Hp Hp) as Hpp. pose proof (Z.mod_pos_bound r2 (p * p) Hpp).
  pose proof (Z.mod_pos_bound (r2 mod (p * p)) p Hp).
  assert (0 <= r2 / (p * p) < p) by (split; [apply Z.div_pos; lia|apply Z.div_lt_upper_bound; lia]).
  assert (0 <= r2 mod (p * p) / p < p) by (split; [apply Z.div_pos; lia|apply Z.div_lt_upper_bound; lia]).
  apply (legacy_step v v _ _ [r2 mod (p * p) / p; r2 mod (p * p) mod p]); [done|done|by apply slot_pointer|done| |].
  - intros v2 b1 Hr1 Hb1 _ E1. rewrite E1.
    apply (legacy_step v v2 _ _ [r2 mod (p * p) mod p]); [done|done|done|done| |].
    + intros v3 b2 Hr2 Hb2 _ E2. rewrite E2. apply (legacy_step v v3 _ _ []); [done|done|done|done| |].
      * intros v4 b3 Hr3 _ Hval ->. by apply legacy_last.
      * intros v4 e Hr3 He. by apply legacy_error.
    + intros v3 e Hr2 He. by apply legacy_error.
  - intros v2 e Hr He. by apply legacy_error.
Qed.

(** ** Any inode *)

(** A mapping that leads somewhere leads into the volume. *)
Definition mapping_ok (g : Geometry) (m : BlockMapping) : Prop :=
  zero m = true \/ (0 < physical m /\ physical m < block_count g).

(** Outcome of a search in bytes that may be anything. *)
Definition safe_answer (v : Volume D) (v' : Volume D) (r : Result BlockMapping) : Prop :=
  reads_only v v' /\
  match r with
  | expected m => mapping_ok (geometry_ v) m
  | unexpected e => e = Error.corrupt \/ e = Error.unsupported \/ e = Error.out_of_bounds \/ io_failure v e
  end.

Lemma valid_mapping g block : 0 <= block -> block = 0 \/ valid_physical_block g block = true -> mapping_ok g (mapped block).
Proof.
  intros H0 [->|H]; [by left|]. unfold valid_physical_block in H. apply andb_prop in H as [H1%negb_true_iff H2%Z.ltb_lt].
  apply Z.eqb_neq in H1. right. cbn. lia.
Qed.

Lemma leaf_scan_safe g node logical n : forall index previous m, bytes_ok node -> 0 <= logical ->
  leaf_scan g node logical n index previous = expected m -> mapping_ok g m.
Proof.
  induction n as [|n IH]; intros index previous m Hb Hl E; cbn [leaf_scan] in E; [by simplify_eq; left|].
  destruct (_ =? 0) in E; [done|]. destruct (_ || _) in E; [done|].
  destruct (_ || _) eqn:Eo in E; [by eapply IH|].
  apply orb_false_iff in Eo as [E1%Z.ltb_ge _].
  destruct (_ >? 32768) in E; [by simplify_eq; left|].
  destruct (valid_physical_block g _) eqn:Ev in E; [|done].
  match type of E with expected ?x = _ => assert (m = x) as -> by congruence end. clear E.
  unfold valid_physical_block in Ev. apply andb_prop in Ev as [V1%negb_true_iff V2%Z.ltb_lt]. apply Z.eqb_neq in V1.
  right. unfold physical. split; [|done]. apply Z.le_neq. split; [|done].
  apply Z.add_nonneg_nonneg; [|lia]. apply Z.lor_nonneg. split; [apply wrap_in_u; lia|by apply little_u32_in_u].
Qed.

Lemma leaf_scan_error g node logical n : forall index previous e,
  leaf_scan g node logical n index previous = unexpected e -> e = Error.corrupt.
Proof.
  induction n as [|n IH]; intros index previous e E; cbn [leaf_scan] in E; [done|].
  destruct (_ =? 0) in E; [by simplify_eq|]. destruct (_ || _) in E; [by simplify_eq|].
  destruct (_ || _) in E; [by eapply IH|]. destruct (_ >? 32768) in E; [done|].
  destruct (valid_physical_block g _) in E; by simplify_eq.
Qed.

Lemma index_scan_error node logical n : forall index previous s e,
  index_scan node logical n index previous s = unexpected e -> e = Error.corrupt.
Proof.
  induction n as [|n IH]; intros index previous s e E; cbn [index_scan] in E; [done|].
  destruct (_ && _) in E; [by simplify_eq|]. destruct (_ <=? logical) in E; [by eapply IH|done].
Qed.

Lemma refused v e : volume_ok v -> e = Error.corrupt \/ e = Error.unsupported \/ e = Error.out_of_bounds ->
  safe_answer v v (unexpected e).
Proof. intros Hv He. split; [by apply reads_only_refl, Hv|]. tauto. Qed.

Lemma safe_trans v v1 v2 r : reads_only v v1 -> safe_answer v1 v2 r -> safe_answer v v2 r.
Proof.
  intros H [H1 H2]. split; [by eapply reads_only_trans|]. destruct r as [m|e].
  - by rewrite -> (reads_only_geometry _ _ H) in H2.
  - destruct H2 as [|[|[|]]]; auto. do 3 right. by eapply io_failure_mono.
Qed.

Lemma map_extents_loop_safe depth : forall v node capacity logical,
  volume_ok v -> bytes_ok node -> 0 <= logical ->
  wp (map_extents_loop depth node capacity logical) v (safe_answer v).
Proof.
  induction depth as [|depth IH]; intros v node capacity logical Hv Hb Hl; cbn [map_extents_loop];
    (apply wp_bind, wp_stop_if; intros _; [apply refused; auto|]; apply wp_bind, wp_stop_if; intros _; [apply refused; auto|];
     apply wp_bind, wp_gets).
  - unfold wp. cbn [of_result fst snd]. split; [by apply reads_only_refl, Hv|].
    destruct (leaf_scan _ _ _ _ _ _) eqn:E; [by eapply leaf_scan_safe|]. left. by eapply leaf_scan_error.
  - apply wp_bind. unfold wp at 1. cbn [of_result fst snd].
    destruct (index_scan _ _ _ _ _ _) as [[s|]|e] eqn:E.
    + set (child := Z.lor _ _).
      assert (0 <= child) as Hc by (apply Z.lor_nonneg; split; [apply wrap_in_u; lia|by apply little_u32_in_u]).
      clearbody child. destruct (valid_physical_block (geometry_ v) child) eqn:Hval.
      2: { apply wp_bind. unfold read_physical_block. apply wp_bind, wp_gets, wp_bind, wp_stop_if; rewrite Hval; [|done].
           intros _. apply refused; auto. }
      apply wp_bind. eapply wp_mono; [by apply read_physical_block_spec|]. intros v1 [_|e] (Hro & _ & H).
      2: { split; [done|auto]. }
      apply wp_bind, wp_gets. pose proof (reads_only_ok _ _ Hro Hv) as Hv1.
      eapply wp_mono; [apply IH; [done|apply Hv1|done]|]. intros v2 r. by apply safe_trans.
    + split; [by apply reads_only_refl, Hv|]. by left.
    + apply refused; [done|]. left. by eapply index_scan_error.
Qed.

Lemma follow_safe f g : forall indices b b', (forall o, in_u 8 (f o)) -> 0 <= b ->
  follow f g b indices = Some b' -> mapping_ok g (mapped b').
Proof.
  induction indices as [|i indices IH]; intros b b' Hf Hb E; cbn [follow] in E;
    (destruct (b =? 0) eqn:Ez; [by simplify_eq; left|]; destruct (valid_physical_block g b) eqn:Hv; cbn [negb] in E; [|done]).
  - simplify_eq. apply valid_mapping; [done|by right].
  - eapply IH; [done| |exact E]. unfold pointer. by apply little_u32_in_u, bytes_at_ok.
Qed.

Lemma map_block_safe v node logical : volume_ok v -> bytes_ok (block_data node) -> 0 <= logical ->
  wp (map_block node logical) v (safe_answer v).
Proof.
  intros Hv Hb Hl. unfold map_block. apply wp_bind, wp_stop_if; intros _; [apply refused; auto|].
  destruct (has (flags node) inode_extents).
  - unfold map_extents. apply wp_bind, wp_stop_if; intros _; [apply refused; auto|]. by apply map_extents_loop_safe.
  - eapply wp_mono; [by apply map_legacy_spec|]. intros v' r [Hr [->|(e & -> & He)]]; (split; [done|]); [|auto].
    unfold legacy_find. destruct (legacy_path _ _) as [[slot indices]|]; [|auto].
    destruct (follow _ _ _ _) eqn:E; [|auto]. eapply follow_safe; [|by apply slot_pointer|exact E].
    intros o. apply contents_byte, Hv.
Qed.

(** C19: on an inode whose extent tree, of any depth up to five, encodes the data
    [t], [map_block] computes the search in [t]: the physical block of the
    extent that covers the logical block, a hole where no extent covers it or
    the extent is uninitialized.  Nothing is written, and the only other
    outcome is a device that fails. *)
Theorem ext4_map_extents_spec v file depth (t : tree depth) logical :
  volume_ok v -> extent_file v file depth t -> 0 <= logical < 2 ^ 32 ->
  let '(v', r) := map_block file logical v in
  reads_only v v' /\
  match r with expected m => m = find depth t logical | unexpected e => io_failure v e end.
Proof.
  intros Hv Hf Hl. pose proof (extent_file_maps v file depth t Hv Hf v logical) as L.
  unfold wp, answers in L. destruct (map_block file logical v).
  by apply L; [apply reads_only_refl, Hv|].
Qed.

(** On an inode with block pointers, [map_block] follows exactly the pointer
    path of the logical block (twelve direct pointers, then the blocks behind
    the single, double and triple indirect pointer): a zero pointer on the way
    is a hole, a pointer out of the volume is reported as corruption, and a
    logical block past the triple range is out of bounds. *)
Theorem ext4_map_legacy_spec v file logical :
  volume_ok v -> bytes_ok (block_data file) -> 0 <= logical ->
  has (flags file) inode_inline_data = false -> has (flags file) inode_extents = false ->
  let '(v', r) := map_block file logical v in
  reads_only v v' /\
  (r = legacy_find (bytes v) (geometry_ v) file logical \/ exists e, r = unexpected e /\ io_failure v e).
Proof.
  intros Hv Hb Hl Hi He. pose proof (map_legacy_spec v file logical Hv Hb Hl) as L.
  unfold map_block, wp, agrees, mbind, io_bind, stop_if in *. rewrite -> Hi, He. cbn [mret io_ret].
  destruct (map_legacy file logical v). exact L.
Qed.

(** C30: whatever an inode holds, [map_block] terminates, writes nothing, and
    yields a hole, an error or a block of the volume: never a block beyond
    its end and never block zero. *)
Theorem ext4_map_block_safe v file logical :
  volume_ok v -> bytes_ok (block_data file) -> 0 <= logical ->
  let '(v', r) := map_block file logical v in
  reads_only v v' /\
  match r with
  | expected m => zero m = true \/ 0 < physical m < block_count (geometry_ v)
  | unexpected e => e = Error.corrupt \/ e = Error.unsupported \/ e = Error.out_of_bounds \/ io_failure v e
  end.
Proof.
  intros Hv Hb Hl. pose proof (map_block_safe v file logical Hv Hb Hl) as L. unfold wp, safe_answer in L.
  destruct (map_block file logical v). exact L.
Qed.
End map.

(** ** A tree of depth one *)

Definition example_leaf : list Z :=
  bytes16 extent_magic ++ bytes16 2 ++ bytes16 84 ++ bytes16 0 ++ bytes32 0 ++
  bytes32 0 ++ bytes16 2 ++ bytes16 0 ++ bytes32 10 ++
  bytes32 5 ++ bytes16 32769 ++ bytes16 0 ++ bytes32 12.
Definition example_root : list Z :=
  patch (replicate 60 0) 0 (bytes16 extent_magic ++ bytes16 1 ++ bytes16 4 ++ bytes16 1 ++ bytes32 0 ++
                            bytes32 0 ++ bytes32 9 ++ bytes16 0).
Definition example_tree : tree 1 := [(0, 9, [mkExtent 0 2 true 10; mkExtent 5 1 false 12])].
Definition example_volume : Volume (list Z) :=
  Ext4Image.mounted.1 <| device_ := patch Ext4Image.image (9 * 1024) example_leaf |>.
Definition example_file : Node := node_default <| flags := inode_extents |> <| block_data := example_root |>.

Lemma example_volume_ok : volume_ok example_volume.
Proof.
  apply volume_ok_device; [exact Ext4Mount.image_ok| |vm_compute; reflexivity].
  split; [apply Ethernet.Ethernet.bytes_ok_check; vm_compute; reflexivity|vm_compute; reflexivity].
Qed.

Lemma example_encoded : extent_file example_volume example_file 1 example_tree.
Proof.
  split; [reflexivity|]. split; [reflexivity|]. split; [lia|]. cbn [encoded example_tree length].
  assert (header (block_data example_file) 60 1 1) as Hh by (unfold header; vm_compute; repeat split; discriminate).
  split; [exact Hh|]. split; [by split|]. intros i first child t Hi.
  destruct i as [|i]; [|by destruct i]. injection Hi as <- <- <-. split; [vm_compute; reflexivity|].
  split; [vm_compute; reflexivity|]. split; [lia|]. split; [vm_compute; reflexivity|].
  split; [unfold header; vm_compute; repeat split; discriminate|].
  split; [split; [|split; [|exact I]]; unfold extent_ok; vm_compute; repeat split; discriminate|].
  intros j e Hj. destruct j as [|[|j]]; [injection Hj as <-..|by destruct j]; vm_compute; repeat split.
Qed.

Lemma ext4_map_extents_spec_witness :
  let '(v', r) := map_block example_file 1 example_volume in
  reads_only example_volume v' /\
  match r with expected m => m = mkMapping 11 false | unexpected e => io_failure example_volume e end.
Proof. exact (ext4_map_extents_spec example_volume example_file 1 example_tree 1 example_volume_ok example_encoded ltac:(lia)). Defined.

Definition example_legacy : Node := node_default <| block_data := patch (replicate 60 0) 48 (bytes32 9) |>.

Lemma ext4_map_legacy_spec_witness :
  let '(v', r) := map_block example_legacy 13 example_volume in
  reads_only example_volume v' /\
  (r = legacy_find (bytes example_volume) (geometry_ example_volume) example_legacy 13 \/
   exists e, r = unexpected e /\ io_failure example_volume e).
Proof.
  apply (ext4_map_legacy_spec example_volume example_legacy 13 example_volume_ok).
  - apply Ethernet.Ethernet.bytes_ok_check. vm_compute. reflexivity.
  - lia.
  - reflexivity.
  - reflexivity.
Defined.

Lemma ext4_map_block_safe_witness :
  let '(v', r) := map_block example_legacy 13 example_volume in
  reads_only example_volume v' /\
  match r with
  | expected m => zero m = true \/ 0 < physical m < block_count (geometry_ example_volume)
  | unexpected e => e = Error.corrupt \/ e = Error.unsupported \/ e = Error.out_of_bounds \/ io_failure example_volume e
  end.
Proof.
  apply (ext4_map_block_safe example_volume example_legacy 13 example_volume_ok).
  - apply Ethernet.Ethernet.bytes_ok_check. vm_compute. reflexivity.
  - lia.
Defined.
End Ext4Map.
