(* ===== verification/Ext4Read.v ===== *)
(** * Reading an ext4 file

    [read] joins blocks that follow each other on the device into one
    transfer; what it stores is nevertheless the file's bytes, block by
    block. *)

From S2P Require Import Prelude Ethernet Filesystem Ext4 Ext4Image Ext4Laws Ext4Mount Ext4Map.
Import Fs Ext4 Ext4Laws Ext4Map.
Local Open Scope Z_scope.

Module Ext4Read.

(** The bytes of a file with mapping [M]: holes read as zeros. *)
Definition file_byte (f : Z -> Z) (g : Geometry) (M : Z -> BlockMapping) (o : Z) : Z :=
  let m := M (o / block_size g) in
  if zero m then 0 else f (physical m * block_size g + o mod block_size g).

Section read.
Context {D : Type} {device : Device D} {laws : DeviceLaws D}.

(** A run of blocks that follow each other on the device. *)
Definition run (M : Z -> BlockMapping) (logical start n : Z) : Prop :=
  forall i, 0 <= i < n -> M (logical + i) = mkMapping (start + i) false.

Lemma run_bytes f g M logical start n count : 0 < block_size g -> run M logical start n ->
  0 <= count <= n * block_size g ->
  bytes_at f (start * block_size g) (Z.to_nat count) = bytes_at (file_byte f g M) (logical * block_size g) (Z.to_nat count).
Proof.
  intros Hb Hr Hc. apply bytes_at_shift. intros i Hi. unfold file_byte.
  pose proof (Z.div_mod i (block_size g) ltac:(lia)). pose proof (Z.mod_pos_bound i (block_size g) Hb).
  assert (0 <= i / block_size g < n) by (split; [apply Z.div_pos; lia|apply Z.div_lt_upper_bound; lia]).
  rewrite -> (Z.add_comm (logical * _)), Z.div_add, Z.mod_add, (Z.add_comm (i / _)) by lia.
  rewrite -> (Hr (i / block_size g)) by done. cbn. f_equal. lia.
Qed.

Definition block_ok (g : Geometry) (M : Z -> BlockMapping) : Prop := forall l, 0 <= l < 2 ^ 32 -> mapping_ok g (M l).

Lemma run_valid g M logical start n : block_ok g M -> run M logical start n -> 0 < n -> 0 <= logical -> logical + n <= 2 ^ 32 ->
  0 < start /\ start + n <= block_count g.
Proof.
  intros Hok Hr Hn Hl Hm. pose proof (Hr 0 ltac:(lia)) as H0. pose proof (Hr (n - 1) ltac:(lia)) as H1.
  pose proof (Hok (logical + 0) ltac:(lia)) as [K0|K0]; rewrite H0 in K0; [done|]. cbn in K0.
  pose proof (Hok (logical + (n - 1)) ltac:(lia)) as [K1|K1]; rewrite H1 in K1; [done|]. cbn in K1. lia.
Qed.

Lemma extend_run_spec fuel file M logical start remaining : forall v count following,
  volume_ok v -> maps v file M -> block_ok (geometry_ v) M -> run M logical start following -> 0 < following ->
  count = following * block_size (geometry_ v) -> count <= remaining < 2 ^ 32 ->
  0 <= logical -> logical + following <= 2 ^ 32 ->
  wp (extend_run fuel file logical start remaining count following) v (fun v' r => reads_only v v' /\
    exists n, r = expected (n * block_size (geometry_ v)) /\ run M logical start n /\ 0 < n /\
      n * block_size (geometry_ v) <= remaining /\ logical + n <= 2 ^ 32).
Proof.
  induction fuel as [|fuel IH]; intros v count following Hv Hm Hok Hr Hf Hc Hrem Hl Hlf; cbn [extend_run].
  { apply wp_ret. split; [by apply reads_only_refl, Hv|]. exists following. split; [by rewrite Hc|]. split; [done|]. lia. }
  pose proof (block_size_range _ _ (volume_geometry v Hv)) as Hbs.
  assert (Hstop : forall v', reads_only v v' -> wp (mret count) v' (fun v' r => reads_only v v' /\
    exists n, r = expected (n * block_size (geometry_ v)) /\ run M logical start n /\ 0 < n /\
      n * block_size (geometry_ v) <= remaining /\ logical + n <= 2 ^ 32)).
  { intros v' Hv'. apply wp_ret. split; [done|]. exists following. split; [by rewrite Hc|]. split; [done|]. lia. }
  apply wp_bind, wp_gets. destruct (Z.leb_spec count (remaining - block_size (geometry_ v))) as [Hle|]; cbn [andb].
  2: { by apply Hstop, reads_only_refl, Hv. }
  destruct (Z.leb_spec (logical + following) 0xffffffff) as [Hle2|]; [|by apply Hstop, reads_only_refl, Hv].
  rewrite -> (wrap_small 32 (logical + following)) by (unfold in_u; lia).
  apply wp_bind, wp_attempt. eapply wp_mono; [apply (Hm v (logical + following)); [by apply reads_only_refl, Hv|lia]|].
  intros v1 [m|e] [Hro Hans]; [|by apply Hstop]. subst m.
  destruct (zero (M (logical + following))) eqn:Hz; cbn [orb]; [by apply Hstop|].
  destruct (Z.eqb_spec (physical (M (logical + following))) (u64 (start + following))) as [He|]; cbn [negb]; [|by apply Hstop].
  destruct (run_valid _ _ _ _ _ Hok Hr Hf Hl Hlf) as [Hs1 Hs2].
  assert (start + following < 2 ^ 64) as Hsw.
  { pose proof (device_size_word v Hv). pose proof (ok_volume _ _ (volume_geometry v Hv)). nia. }
  rewrite -> wrap_small in He by (unfold in_u; lia).
  pose proof (reads_only_geometry _ _ Hro) as Eg. rewrite <- Eg at 1.
  eapply wp_mono; [apply (IH v1)|].
  - by apply (reads_only_ok v).
  - by eapply maps_reads_only.
  - by rewrite Eg.
  - intros i Hi. destruct (decide (i < following)); [apply Hr; lia|]. replace i with following by lia.
    rewrite <- He, <- Hz. by destruct (M (logical + following)).
  - lia.
  - rewrite Eg. lia.
  - rewrite Eg. lia.
  - done.
  - lia.
  - rewrite Eg. intros v2 r (Hro2 & H). split; [by eapply reads_only_trans|done].
Qed.

(** What a read of [n] bytes at [offset] gives. *)
Definition reads (v : Volume D) (M : Z -> BlockMapping) (output : list Z) (offset n : Z)
    (v' : Volume D) (r : Result (list Z)) : Prop :=
  reads_only v v' /\
  match r with
  | expected data => data = output ++ bytes_at (file_byte (bytes v) (geometry_ v) M) offset (Z.to_nat n)
  | unexpected e => io_failure v e
  end.

Lemma file_byte_ext f f' g M o : (forall o, f' o = f o) -> file_byte f' g M o = file_byte f g M o.
Proof. intros H. unfold file_byte. by rewrite H. Qed.

(** A part read, then the rest. *)
Lemma reads_step v v1 M output offset n k part v' r :
  reads_only v v1 -> 0 <= k <= n -> part = bytes_at (file_byte (bytes v) (geometry_ v) M) offset (Z.to_nat k) ->
  reads v1 M (output ++ part) (offset + k) (n - k) v' r -> reads v M output offset n v' r.
Proof.
  intros Hro Hk -> [H1 H2]. split; [by eapply reads_only_trans|]. destruct r as [data|e]; [|by eapply io_failure_mono].
  rewrite -> H2, <- app_assoc. f_equal. rewrite -> (reads_only_geometry _ _ Hro).
  replace (Z.to_nat n) with (Z.to_nat k + Z.to_nat (n - k))%nat by lia. rewrite -> bytes_at_app, Z2Nat.id by lia.
  f_equal. apply bytes_at_ext. intros i _. apply file_byte_ext. intros o. by apply reads_only_bytes.
Qed.

Lemma file_read_loop fuel file M : forall v offset remaining output,
  volume_ok v -> maps v file M -> block_ok (geometry_ v) M -> 0 <= offset -> 0 <= remaining < 2 ^ 32 ->
  offset + remaining <= 2 ^ 32 * block_size (geometry_ v) -> (Z.to_nat remaining < fuel)%nat ->
  wp (read_loop fuel file offset remaining output) v (reads v M output offset remaining).
Proof.
  induction fuel as [|fuel IH]; intros v offset remaining output Hv Hm Hok Ho Hr Hmax Hf; [lia|]. cbn [read_loop].
  destruct (Z.eqb_spec remaining 0) as [->|Hnz].
  { apply wp_ret. split; [by apply reads_only_refl, Hv|]. by rewrite app_nil_r. }
  pose proof (block_size_range _ _ (volume_geometry v Hv)) as Hbs. apply wp_bind, wp_gets.
  set (bs := block_size (geometry_ v)) in *. set (logical := offset / bs).
  pose proof (Z.div_mod offset bs ltac:(lia)) as Ed. pose proof (Z.mod_pos_bound offset bs ltac:(lia)) as Hw.
  fold logical in Ed. assert (0 <= logical) by (apply Z.div_pos; lia).
  assert (logical < 2 ^ 32) as Hll by (apply Z.div_lt_upper_bound; lia).
  apply wp_bind, wp_stop_if; rewrite -> Z.gtb_ltb, (proj2 (Z.ltb_ge _ _)) by lia; [done|intros _].
  rewrite -> (wrap_small 32 (offset mod bs)), (wrap_small 32 logical) by (unfold in_u; lia).
  set (within := offset mod bs) in *. set (count := Z.min remaining (bs - within)).
  apply wp_bind. eapply wp_mono; [apply (Hm v logical); [by apply reads_only_refl, Hv|lia]|].
  intros v1 [m|e] [Hro Hans]; [|by split]. subst m.
  pose proof (reads_only_ok _ _ Hro Hv) as Hv1. pose proof (reads_only_geometry _ _ Hro) as Eg.
  assert (Hnext : forall v2 k part, reads_only v v2 -> 0 < k <= remaining ->
    part = bytes_at (file_byte (bytes v) (geometry_ v) M) offset (Z.to_nat k) ->
    wp (read_loop fuel file (u64 (offset + k)) (remaining - k) (output ++ part)) v2 (reads v M output offset remaining)).
  { intros v2 k part Hro2 Hk Hpart. rewrite -> wrap_small by (unfold in_u; lia).
    pose proof (reads_only_geometry _ _ Hro2) as Eg2.
    eapply wp_mono; [apply IH|intros v' r Hreads; eapply reads_step; [exact Hro2| |exact Hpart|exact Hreads]; lia].
    - by apply (reads_only_ok v).
    - by eapply maps_reads_only.
    - by rewrite Eg2.
    - lia.
    - lia.
    - rewrite Eg2. fold bs. lia.
    - lia. }
  destruct (zero (M logical)) eqn:Hz.
  { apply Hnext; [done|lia|]. apply list_eq. intros i. unfold zero_bytes.
    destruct (decide (i < Z.to_nat count)%nat).
    - rewrite -> lookup_replicate_2, lookup_bytes_at by done. f_equal. unfold file_byte. fold bs.
      assert ((offset + Z.of_nat i) / bs = logical) as ->.
      { symmetry. apply (Z.div_unique _ _ _ (within + Z.of_nat i)); lia. }
      by rewrite Hz.
    - rewrite -> !lookup_ge_None_2; [done|rewrite length_bytes_at; lia|rewrite length_replicate; lia]. }
  destruct (M logical) as [p z] eqn:Em. cbn in Hz. subst z. cbn [physical].
  assert (run M logical p 1) as Hrun1 by (intros i Hi; replace i with 0 by lia; rewrite -> !Z.add_0_r; done).
  assert (wp (if (within =? 0) && (count =? bs)
      then extend_run (Z.to_nat remaining) file logical p remaining count 1 else mret count) v1
    (fun v' r => reads_only v v' /\ exists k n, r = expected k /\ run M logical p n /\ 0 < n /\ 0 < k <= remaining /\
       logical + n <= 2 ^ 32 /\ within + k <= n * bs)) as Hcount.
  { destruct (Z.eqb_spec within 0) as [Hw0|]; cbn [andb].
    2: { apply wp_ret. split; [done|]. exists count, 1. split; [done|]. split; [done|]. lia. }
    destruct (Z.eqb_spec count bs) as [Hcb|].
    2: { apply wp_ret. split; [done|]. exists count, 1. split; [done|]. split; [done|]. lia. }
    eapply wp_mono; [apply (extend_run_spec _ file M logical p remaining v1 count 1)|].
    - done.
    - by eapply maps_reads_only.
    - by rewrite Eg.
    - done.
    - lia.
    - rewrite Eg. fold bs. lia.
    - lia.
    - done.
    - lia.
    - rewrite Eg. fold bs. intros v2 r (Hro2 & n & -> & Hn). split; [by eapply reads_only_trans|].
      exists (n * bs), n. split; [done|]. split; [tauto|]. nia. }
  apply wp_bind. eapply wp_mono; [exact Hcount|]. intros v2 r (Hro2 & k & n & -> & Hrun & Hn & Hk & Hln & Hkn).
  destruct (run_valid _ _ _ _ _ Hok Hrun Hn ltac:(lia) Hln) as [Hp1 Hp2].
  pose proof (ok_volume _ _ (volume_geometry v Hv)) as Hvol. pose proof (device_size_word v Hv) as Hdw. fold bs in Hvol.
  assert (0 <= p * bs) as Hpb by (apply Z.mul_nonneg_nonneg; lia).
  assert (p * bs + within + k <= dev_size (device_ v)) as Hin.
  { pose proof (Z.mul_le_mono_nonneg_r (p + n) (block_count (geometry_ v)) bs ltac:(lia) Hp2). lia. }
  rewrite -> (wrap_small 64 (p * bs)) by (clear -Hdw Hin Hk Hw Hpb; unfold in_u; lia).
  rewrite -> (wrap_small 64 (p * bs + within)) by (clear -Hdw Hin Hk Hw Hpb; unfold in_u; lia).
  pose proof (reads_only_ok _ _ Hro2 Hv) as Hv2.
  assert (dev_size (device_ v2) = dev_size (device_ v)) as Hsz by apply Hro2.
  apply wp_bind. eapply wp_mono; [apply read_local_spec; [apply Hv2|lia|lia|lia]|].
  intros v3 [data|e] [Hro3 Hdata]; [|by split; [eapply reads_only_trans|eapply io_failure_mono]].
  apply Hnext; [by eapply reads_only_trans|lia|]. rewrite -> Hdata, (reads_only_bytes_at _ _ _ _ Hro2).
  pose proof (run_bytes (bytes v) (geometry_ v) M logical p n (within + k) ltac:(fold bs; lia) Hrun ltac:(fold bs; lia)) as E.
  fold bs in E. replace (Z.to_nat (within + k)) with (Z.to_nat within + Z.to_nat k)%nat in E by lia.
  rewrite -> !bytes_at_app, Z2Nat.id in E by lia. apply app_inj_1 in E as [_ E]; [|by rewrite !length_bytes_at].
  rewrite E. f_equal. lia.
Qed.

Lemma file_read v file M offset count :
  volume_ok v -> maps v file M -> block_ok (geometry_ v) M ->
  type file = Type_.regular -> has (flags file) inode_inline_data = false ->
  0 <= size file <= 2 ^ 32 * block_size (geometry_ v) -> 0 <= offset -> 0 <= count < 2 ^ 32 ->
  wp (read file offset false count) v (reads v M [] offset (Z.max 0 (Z.min count (size file - offset)))).
Proof.
  intros Hv Hm Hok Ht Hi Hs Ho Hc. pose proof (block_size_range _ _ (volume_geometry v Hv)) as Hbs. unfold read.
  apply wp_bind, wp_gets. rewrite -> (volume_mounted v Hv). apply wp_bind, wp_stop_if; cbn; [done|intros _].
  unfold directory. rewrite Ht. apply wp_bind, wp_stop_if; [done|intros _]. apply wp_bind, wp_stop_if; [done|intros _].
  apply wp_bind, wp_stop_if; [by rewrite Hi|intros _].
  destruct (Z.geb_spec offset (size file)); cbn [orb].
  { apply wp_ret. split; [by apply reads_only_refl, Hv|]. by replace (Z.max 0 _) with 0 by lia. }
  destruct (Z.eqb_spec count 0) as [->|].
  { apply wp_ret. split; [by apply reads_only_refl, Hv|]. by replace (Z.max 0 _) with 0 by lia. }
  assert ((if size file - offset <? count then u32 (size file - offset) else count) = Z.max 0 (Z.min count (size file - offset))) as ->.
  { destruct (Z.ltb_spec (size file - offset) count); [rewrite -> wrap_small by (unfold in_u; lia)|]; lia. }
  set (k := Z.max 0 _). apply (file_read_loop (S (Z.to_nat k)) file M v offset k []); try done; lia.
Qed.

(** ** The blocks of an encoded tree *)

Lemma leaf_find_ok g es : forall from logical, leaf_ok g from es -> mapping_ok g (leaf_find es logical).
Proof.
  induction es as [|e es IH]; intros from logical H; cbn [leaf_find]; [by left|].
  destruct H as [(H1 & H2 & H3 & H4) H]. unfold covers.
  destruct (Z.leb_spec (extent_from e) logical); cbn [andb]; [|by eapply IH].
  destruct (Z.ltb_spec logical (extent_from e + extent_blocks e)); [|by eapply IH].
  destruct (extent_written e); [|by left]. right. cbn. lia.
Qed.

Lemma select_member {T} (ns : list (Z * Z * T)) logical : forall selected child t,
  select ns logical selected = Some (child, t) -> selected = Some (child, t) \/ exists i first, ns !! i = Some (first, child, t).
Proof.
  induction ns as [|[[f c] u] ns IH]; intros selected child t E; cbn [select] in E; [by left|].
  destruct (f <=? logical); [|by left]. destruct (IH _ _ _ E) as [H|(i & first & H)].
  - right. exists 0%nat, f. by simplify_eq.
  - right. by exists (S i), first.
Qed.

Lemma find_ok f g depth : forall node capacity t logical, encoded f g depth node capacity t -> mapping_ok g (find depth t logical).
Proof.
  induction depth as [|depth IH]; intros node capacity t logical H; cbn [encoded find] in *.
  - destruct H as (_ & H & _). by eapply leaf_find_ok.
  - destruct H as (_ & _ & H). destruct (select t logical None) as [[child u]|] eqn:E; [|by left].
    apply select_member in E as [?|(i & first & Hi)]; [done|]. destruct (H i first child u Hi) as (_ & _ & _ & _ & Henc).
    by eapply IH.
Qed.

(** C8: reading a regular file, at any offset and for any count, stores exactly
    the bytes the extent tree gives from the offset on, holes as zeros, up to
    the end of the file; joining neighbouring blocks into one transfer does not
    show.  Nothing is written, and the only error is a failing device. *)
Theorem ext4_read_spec v file depth (t : tree depth) offset count :
  volume_ok v -> extent_file v file depth t -> type file = Type_.regular ->
  0 <= size file <= 2 ^ 32 * block_size (geometry_ v) -> 0 <= offset -> 0 <= count < 2 ^ 32 ->
  let '(v', r) := read file offset false count v in
  reads_only v v' /\
  match r with
  | expected data => data = bytes_at (file_byte (bytes v) (geometry_ v) (find depth t)) offset
                              (Z.to_nat (Z.min count (size file - offset)))
  | unexpected e => io_failure v e
  end.
Proof.
  intros Hv Hf Ht Hs Ho Hc. pose proof Hf as (Hi & _ & _ & Henc).
  assert (block_ok (geometry_ v) (find depth t)) as Hok by (intros l _; by eapply find_ok).
  pose proof (file_read v file (find depth t) offset count Hv (extent_file_maps v file depth t Hv Hf) Hok Ht Hi Hs Ho Hc) as L.
  unfold wp, reads in L. destruct (read file offset false count v) as [v' r]. destruct L as [Hr L].
  split; [done|]. destruct r as [data|]; [|done]. replace (Z.to_nat (Z.min count (size file - offset)))
    with (Z.to_nat (Z.max 0 (Z.min count (size file - offset)))) by lia. exact L.
Qed.
End read.

(** A file over the tree of depth one, with a hole and an uninitialized block. *)
Definition example_regular : Node := example_file <| type := Type_.regular |> <| size := 5500 |>.

Lemma ext4_read_spec_witness :
  let '(v', r) := read example_regular 1000 false 9000 example_volume in
  reads_only example_volume v' /\
  match r with
  | expected data => data = bytes_at (file_byte (bytes example_volume) (geometry_ example_volume) (find 1 example_tree)) 1000 4500
  | unexpected e => io_failure example_volume e
  end.
Proof.
  pose proof (ext4_read_spec example_volume example_regular 1 example_tree 1000 9000 example_volume_ok example_encoded
    eq_refl ltac:(vm_compute; split; discriminate) ltac:(lia) ltac:(lia)) as L.
  change (Z.to_nat (Z.min 9000 (size example_regular - 1000))) with (4500%nat) in L. exact L.
Defined.
End Ext4Read.
