(* ===== verification/Ext4Extent.v ===== *)
(** * Growing the extents of a file

    [append_extent] on an inode that keeps its extents in the root node. *)

From S2P Require Import Prelude Ethernet Filesystem Ext4 Ext4Image Ext4Laws Ext4Mount Ext4Map Ext4Read.
Import Fs Ext4 Ext4Laws Ext4Map.
Local Open Scope Z_scope.

Module Ext4Extent.

(** The sixty bytes of a root that lists the extents [es] and has room for four. *)
Record root_extents (g : Geometry) (data : list Z) (es : list Extent) : Prop := {
  root_buffer : buffer 60 data;
  root_header : header data 60 (length es) 0;
  root_ok : leaf_ok g 0 es;
  root_cells : forall i e, es !! i = Some e -> extent_encoded data i e;
  root_maximum : little_u16 data 4 = 4;
}.

Lemma root_extents_encoded f g data es : root_extents g data es -> encoded f g 0 data 60 es.
Proof. intros [H1 H2 H3 H4 _]. done. Qed.

Lemma root_length g data es : root_extents g data es -> (length es <= 4)%nat.
Proof. intros [_ (_ & _ & _ & H & _) _ _ H4]. lia. Qed.

(** The logical block after the last extent of a leaf that starts at [from]. *)
Fixpoint leaf_end (from : Z) (es : list Extent) : Z :=
  match es with
  | [] => from
  | e :: es => leaf_end (extent_from e + extent_blocks e) es
  end.

Lemma leaf_end_snoc from es e : leaf_end from (es ++ [e]) = extent_from e + extent_blocks e.
Proof. revert from. induction es as [|d es IH]; intros from; [done|apply IH]. Qed.

Lemma extent_ok_blocks g from e : extent_ok g from e -> 0 < extent_blocks e /\ from < extent_from e + extent_blocks e.
Proof. intros (H1 & H2 & H3 & H4). destruct (extent_written e); lia. Qed.

Lemma leaf_ok_snoc g from es e : leaf_ok g from (es ++ [e]) <-> leaf_ok g from es /\ extent_ok g (leaf_end from es) e.
Proof.
  revert from. induction es as [|d es IH]; intros from; cbn [app leaf_ok leaf_end]; [tauto|]. rewrite -> IH. tauto.
Qed.

(** Extents end before the end of the leaf. *)
Lemma leaf_end_le g from es : leaf_ok g from es -> from <= leaf_end from es /\
  forall e, e ∈ es -> extent_from e + extent_blocks e <= leaf_end from es.
Proof.
  revert from. induction es as [|d es IH]; intros from H; cbn [leaf_end]; [split; [lia|by intros e He%not_elem_of_nil]|].
  destruct H as [Hd Hok]. destruct (extent_ok_blocks _ _ _ Hd). destruct (IH _ Hok) as [H1 H2].
  split; [lia|]. intros e [->|He]%elem_of_cons; [done|by apply H2].
Qed.

(** The last extent is found from its first block on, the others before it. *)
Lemma leaf_find_before es e logical : logical < extent_from e -> leaf_find (es ++ [e]) logical = leaf_find es logical.
Proof.
  intros H. induction es as [|d es IH]; cbn [app leaf_find]; [|by rewrite IH].
  unfold covers. by rewrite -> (proj2 (Z.leb_gt (extent_from e) logical)).
Qed.

Lemma leaf_find_after es es' logical : (forall e, e ∈ es -> extent_from e + extent_blocks e <= logical) ->
  leaf_find (es ++ es') logical = leaf_find es' logical.
Proof.
  induction es as [|d es IH]; intros H; [done|]. cbn [app leaf_find]. unfold covers.
  rewrite -> (proj2 (Z.ltb_ge logical _)), andb_false_r by (apply H; by left). apply IH. intros e He. apply H. by right.
Qed.

(** The sixteen-bit and thirty-two-bit cells of an extent. *)
Lemma start_cells physical : 0 <= physical < 2 ^ 48 ->
  Z.lor (u64 (Z.shiftl (u16 (Z.shiftr physical 32)) 32)) (u32 physical) = physical.
Proof.
  intros H. rewrite -> Z.shiftr_div_pow2 by done. unfold wrap.
  assert (0 <= physical / 2 ^ 32 < 2 ^ 16) by (split; [apply Z.div_pos; lia|apply Z.div_lt_upper_bound; lia]).
  rewrite -> (Z.mod_small (physical / 2 ^ 32)), Z.shiftl_mul_pow2 by lia.
  rewrite -> (Z.mod_small (_ * _)) by lia. rewrite <- Z.shiftl_mul_pow2 by lia.
  rewrite -> lor_shiftl by (lia || apply Z.mod_pos_bound; lia). pose proof (Z.div_mod physical (2 ^ 32)). lia.
Qed.

(** The bytes of a new extent of one block. *)
Definition one_block (logical physical : Z) : list Z :=
  bytes32 logical ++ [1; 0] ++ bytes16 (Z.shiftr physical 32) ++ bytes32 physical.

Lemma one_block_ok logical physical : bytes_ok (one_block logical physical).
Proof.
  unfold one_block. apply Forall_app. split; [apply bytes32_ok|]. apply Forall_app. split; [|apply Forall_app; split; [apply bytes16_ok|apply bytes32_ok]].
  repeat (apply Forall_cons; split; [word|]). by apply Forall_nil.
Qed.

Lemma one_block_cells logical physical : in_u 32 logical -> 0 <= physical < 2 ^ 48 ->
  little_u32 (one_block logical physical) 0 = logical /\ little_u16 (one_block logical physical) 4 = 1 /\
  Z.lor (u64 (Z.shiftl (little_u16 (one_block logical physical) 6) 32)) (little_u32 (one_block logical physical) 8) = physical.
Proof.
  intros Hl Hp. pose proof (one_block_ok logical physical) as Hb.
  rewrite -> (little_u32_bytes _ 0 logical Hb eq_refl), (little_u16_bytes _ 6 (Z.shiftr physical 32) Hb eq_refl), (little_u32_bytes _ 8 physical Hb eq_refl).
  split; [by apply wrap_small|]. split; [done|by apply start_cells].
Qed.

(** What [append_extent] does to a list of extents: the last one grows when the
    block follows it on both sides, otherwise a new one is added if it fits. *)
Definition extendable (e : Extent) (logical physical : Z) : bool :=
  extent_written e && (extent_from e + extent_blocks e =? logical) &&
  (extent_to e + extent_blocks e =? physical) && (extent_blocks e <? 32768).

Definition longer (e : Extent) : Extent := mkExtent (extent_from e) (extent_blocks e + 1) true (extent_to e).

Definition added (es : list Extent) (logical physical : Z) : option (list Extent) :=
  if (4 <=? length es)%nat then None else Some (es ++ [mkExtent logical 1 true physical]).

(** The block can follow the extents. *)
Definition block_follows (g : Geometry) (es : list Extent) (logical physical : Z) : Prop :=
  leaf_end 0 es <= logical /\ logical + 1 < 2 ^ 32 /\ 0 < physical < block_count g /\ block_count g <= 2 ^ 48.

Lemma new_extent_ok g es logical physical : block_follows g es logical physical ->
  extent_ok g (leaf_end 0 es) (mkExtent logical 1 true physical).
Proof. intros (H1 & H2 & H3 & H4). unfold extent_ok. cbn. lia. Qed.

(** The mapping with one more block. *)
Definition extends (es es' : list Extent) (logical physical : Z) : Prop :=
  forall l, leaf_find es' l = if l =? logical then mkMapping physical false else leaf_find es l.

Lemma added_extends g es logical physical : leaf_ok g 0 es -> block_follows g es logical physical ->
  extends es (es ++ [mkExtent logical 1 true physical]) logical physical.
Proof.
  intros Hok (H1 & H2) l. destruct (leaf_end_le _ _ _ Hok) as [_ Hle].
  destruct (Z.ltb_spec l logical) as [Hlt|Hge].
  { rewrite -> leaf_find_before by done. by rewrite -> (proj2 (Z.eqb_neq l logical)) by lia. }
  rewrite -> leaf_find_after by (intros e He; specialize (Hle e He); lia). cbn [leaf_find]. unfold covers. cbn.
  rewrite -> (proj2 (Z.leb_le logical l)) by done. destruct (Z.eqb_spec l logical) as [->|Hne].
  - rewrite -> (proj2 (Z.ltb_lt _ _)) by lia. cbn. f_equal. lia.
  - rewrite -> (proj2 (Z.ltb_ge _ _)) by lia. cbn. rewrite <- (app_nil_r es), leaf_find_after; [done|].
    intros e He; specialize (Hle e He); lia.
Qed.

Lemma longer_extends g es e logical physical : leaf_ok g 0 (es ++ [e]) -> extendable e logical physical = true ->
  extends (es ++ [e]) (es ++ [longer e]) logical physical.
Proof.
  intros [Hok He]%leaf_ok_snoc Hx l. destruct (leaf_end_le _ _ _ Hok) as [_ Hle]. destruct (extent_ok_blocks _ _ _ He) as [Hb _].
  unfold extendable in Hx. apply andb_prop in Hx as [[[Hw Hl%Z.eqb_eq]%andb_prop Hp%Z.eqb_eq]%andb_prop _]. destruct He as (H1 & _).
  destruct (Z.ltb_spec l (extent_from e)) as [Hlt|Hge].
  { rewrite -> !leaf_find_before by done. by rewrite -> (proj2 (Z.eqb_neq l logical)) by lia. }
  rewrite -> !leaf_find_after by (intros d Hd; specialize (Hle d Hd); lia). cbn [leaf_find]. unfold covers, longer. cbn.
  rewrite -> Hw, (proj2 (Z.leb_le _ l)) by done. cbn [andb].
  destruct (Z.eqb_spec l logical) as [->|Hne].
  - rewrite -> (proj2 (Z.ltb_lt _ _)) by lia. f_equal. lia.
  - destruct (Z.ltb_spec l (extent_from e + extent_blocks e)).
    + by rewrite -> (proj2 (Z.ltb_lt _ _)) by lia.
    + by rewrite -> (proj2 (Z.ltb_ge _ _)) by lia.
Qed.

Lemma longer_ok g es e logical physical : leaf_ok g 0 (es ++ [e]) -> block_follows g (es ++ [e]) logical physical ->
  extendable e logical physical = true -> leaf_ok g 0 (es ++ [longer e]).
Proof.
  intros [Hok He]%leaf_ok_snoc (F1 & F2 & F3 & F4) Hx. apply leaf_ok_snoc. split; [done|].
  unfold extendable in Hx. apply andb_prop in Hx as [[[Hw Hl%Z.eqb_eq]%andb_prop Hp%Z.eqb_eq]%andb_prop H8%Z.ltb_lt].
  destruct He as (H1 & H2 & H3 & H4). destruct (H4 Hw). rewrite Hw in H3. unfold extent_ok, longer. cbn. lia.
Qed.

(** A cell of the root overwritten in place of the [i]th extent's bytes. *)
Lemma encoded_patch_other data k d j : length data = 60%nat -> (12 + j * 12 + 12 <= 60)%nat -> (k + length d <= 60)%nat ->
  (k + length d <= 12 + j * 12 \/ 12 + j * 12 + 12 <= k)%nat ->
  extent_first (patch data k d) j = extent_first data j /\
  extent_length (patch data k d) j = extent_length data j /\
  extent_start (patch data k d) j = extent_start data j.
Proof.
  intros Hl Hj Hk Hd. unfold extent_first, extent_length, extent_start.
  by rewrite -> !little_u32_patch_out, !little_u16_patch_out by lia.
Qed.

(** The header with a new count of entries. *)
Lemma header_count data n : length data = 60%nat -> (n <= 4)%nat -> header data 60 n 0 ->
  little_u16 data 4 = 4 -> forall m, (m <= 4)%nat -> header (put16 data 2 (u16 (Z.of_nat m))) 60 m 0.
Proof.
  intros Hl Hn (H1 & H2 & H3 & H4 & H5) Hmax m Hm. unfold header, put16.
  assert (length (bytes16 (u16 (Z.of_nat m))) = 2%nat) as Hlen by done.
  rewrite -> (little_u16_patch_out data 2 _ 0), (little_u16_patch_out data 2 _ 4), (little_u16_patch_out data 2 _ 6) by lia.
  rewrite -> little_u16_patch_in by lia. cbn [Nat.sub].
  rewrite -> (little_u16_bytes _ 0 (u16 (Z.of_nat m)) (bytes16_ok _) eq_refl), wrap_wrap, wrap_small by word.
  rewrite Hmax. split; [done|]. split; [done|]. split; [done|]. split; [lia|done].
Qed.

(** *** The bytes *)

Lemma header_patch data k d n : length data = 60%nat -> (8 <= k)%nat -> (k + length d <= 60)%nat ->
  header data 60 n 0 -> header (patch data k d) 60 n 0.
Proof.
  intros Hl Hk Hd (H1 & H2 & H3 & H4 & H5). unfold header.
  rewrite -> (little_u16_patch_out data k d 0), (little_u16_patch_out data k d 2), (little_u16_patch_out data k d 4),
    (little_u16_patch_out data k d 6) by lia. done.
Qed.

(** The last of the extents replaced. *)
Lemma root_last g data data' es es' e : root_extents g data (es ++ es') -> length data' = 60%nat -> bytes_ok data' ->
  little_u16 data' 4 = 4 -> header data' 60 (S (length es)) 0 -> leaf_ok g 0 (es ++ [e]) ->
  (forall j, (j < length es)%nat -> extent_first data' j = extent_first data j /\
    extent_length data' j = extent_length data j /\ extent_start data' j = extent_start data j) ->
  extent_encoded data' (length es) e -> root_extents g data' (es ++ [e]).
Proof.
  intros [_ _ _ Hc _] Hl Hb H4 Hh Hok Hsame He. constructor; [done| |done| |done].
  - by rewrite -> length_app, Nat.add_comm.
  - intros i d Hi. apply lookup_app_Some in Hi as [Hi|[Hge Hi]].
    + unfold extent_encoded. destruct (Hsame i (lookup_lt_Some _ _ _ Hi)) as (-> & -> & ->). apply Hc. by apply lookup_app_l_Some.
    + apply list_lookup_singleton_Some in Hi as [Hz <-]. by replace i with (length es) by lia.
Qed.

(** The last extent with one more block. *)
Lemma root_longer g data es e : root_extents g data (es ++ [e]) -> leaf_ok g 0 (es ++ [longer e]) ->
  extent_written e = true -> extent_blocks e < 32768 ->
  root_extents g (put16 data (12 + length es * 12 + 4) (u16 (extent_length data (length es) + 1))) (es ++ [longer e]).
Proof.
  intros Hr Hok Hw Hlt. pose proof (root_length g data _ Hr) as Hroom. rewrite -> length_app in Hroom. cbn in Hroom.
  assert (bytes_ok (bytes16 (u16 (extent_length data (length es) + 1)))) as Hb16 by apply bytes16_ok.
  destruct Hr as [[Hl Hb] Hh Hok0 He H4] eqn:E. clear E.
  destruct (He (length es) e) as (E1 & E2 & E3); [by rewrite -> lookup_app_r, Nat.sub_diag by done|].
  unfold raw_length in E2. rewrite Hw in E2. apply leaf_ok_snoc in Hok0 as [_ Hok0].
  destruct (extent_ok_blocks _ _ _ Hok0) as [Hpos _].
  eapply root_last; [exact Hr| | | | |done| |]; unfold put16 in *.
  - by rewrite -> length_patch by (cbn; lia).
  - by apply bytes_ok_patch.
  - by rewrite -> little_u16_patch_out by (cbn; lia).
  - apply header_patch; [done|lia|cbn; lia|]. by rewrite -> length_app, Nat.add_comm in Hh.
  - intros j Hj. by apply encoded_patch_other; cbn; lia.
  - unfold extent_encoded, extent_first, extent_length, extent_start, raw_length in *. cbn [longer extent_from extent_blocks extent_written extent_to].
    rewrite -> little_u32_patch_out, little_u16_patch_in by (cbn; lia).
    rewrite -> little_u16_patch_out, little_u32_patch_out by (cbn; lia).
    split; [done|]. split; [|done]. rewrite -> Nat.sub_diag, (little_u16_bytes _ 0 _ Hb16 eq_refl), wrap_wrap, E2.
    apply wrap_small. word.
Qed.

(** A new extent of one block. *)
Lemma root_added g data es logical physical : root_extents g data es -> (length es < 4)%nat -> block_follows g es logical physical ->
  root_extents g (put16 (patch data (12 + length es * 12) (one_block logical physical)) 2 (u16 (Z.of_nat (length es) + 1)))
    (es ++ [mkExtent logical 1 true physical]).
Proof.
  intros Hr Hlt Hf. pose proof (one_block_ok logical physical) as Hob.
  assert (length (one_block logical physical) = 12%nat) as Hol by done. pose proof (new_extent_ok g es _ _ Hf) as Hnew.
  assert (0 <= leaf_end 0 es) as H0 by (by destruct (leaf_end_le g 0 es (root_ok _ _ _ Hr))). destruct Hf as (F1 & F2 & F3 & F4).
  destruct Hr as [[Hl Hb] Hh Hok0 He H4] eqn:E. clear E.
  set (mid := patch data (12 + length es * 12) (one_block logical physical)).
  assert (length mid = 60%nat) as Hml by (unfold mid; rewrite -> length_patch by lia; done).
  assert (bytes_ok mid) as Hmb by (by apply bytes_ok_patch).
  assert (little_u16 mid 4 = 4) as Hm4 by (unfold mid; by rewrite -> little_u16_patch_out by lia).
  assert (header mid 60 (length es) 0) as Hmh by (apply header_patch; [done|lia|lia|done]).
  assert (length (bytes16 (u16 (Z.of_nat (length es) + 1))) = 2%nat) as Hlen by done.
  eapply root_last with (es' := []); [by rewrite app_nil_r| | | | | | |].
  - unfold put16. by rewrite -> length_patch by lia.
  - apply bytes_ok_patch; [done|apply bytes16_ok].
  - unfold put16. by rewrite -> little_u16_patch_out by lia.
  - replace (Z.of_nat (length es) + 1) with (Z.of_nat (S (length es))) by lia. by apply (header_count mid (length es)); [|lia| | |lia].
  - by apply leaf_ok_snoc.
  - intros j Hj. unfold put16. destruct (encoded_patch_other mid 2 (bytes16 (u16 (Z.of_nat (length es) + 1))) j) as (-> & -> & ->); [lia..|].
    by apply encoded_patch_other; lia.
  - unfold extent_encoded, put16. destruct (encoded_patch_other mid 2 (bytes16 (u16 (Z.of_nat (length es) + 1))) (length es)) as (-> & -> & ->); [lia..|].
    destruct (one_block_cells logical physical) as (C1 & C2 & C3); [word|word|].
    unfold extent_first, extent_length, extent_start, mid. rewrite -> !little_u32_patch_in, !little_u16_patch_in by lia.
    replace (12 + length es * 12 - (12 + length es * 12))%nat with 0%nat by lia.
    replace (12 + length es * 12 + 4 - (12 + length es * 12))%nat with 4%nat by lia.
    replace (12 + length es * 12 + 6 - (12 + length es * 12))%nat with 6%nat by lia.
    replace (12 + length es * 12 + 8 - (12 + length es * 12))%nat with 8%nat by lia. done.
Qed.

(** ** [append_extent] *)

(** The extents after one more block, if there is room for it. *)
Definition grown (es : list Extent) (logical physical : Z) : option (list Extent) :=
  match last es with
  | Some e => if extendable e logical physical then Some (take (length es - 1) es ++ [longer e]) else added es logical physical
  | None => added es logical physical
  end.

Lemma grown_spec g es logical physical : leaf_ok g 0 es -> block_follows g es logical physical ->
  match grown es logical physical with
  | Some es' => leaf_ok g 0 es' /\ leaf_end 0 es' = logical + 1 /\ extends es es' logical physical
  | None => (4 <= length es)%nat
  end.
Proof.
  intros Hok Hf.
  assert (match added es logical physical with
    | Some es' => leaf_ok g 0 es' /\ leaf_end 0 es' = logical + 1 /\ extends es es' logical physical
    | None => (4 <= length es)%nat end) as Hadd.
  { unfold added. destruct (Nat.leb_spec 4 (length es)); [done|]. split; [|split].
    - apply leaf_ok_snoc. split; [done|by apply new_extent_ok].
    - by rewrite leaf_end_snoc.
    - by eapply added_extends. }
  unfold grown. destruct es as [|e es _] using rev_ind; [done|]. rewrite last_snoc.
  destruct (extendable e logical physical) eqn:Ex; [|done].
  rewrite -> length_app, Nat.add_sub, take_app_length. split; [by eapply longer_ok|]. split; [|by eapply longer_extends].
  rewrite leaf_end_snoc. unfold extendable in Ex. apply andb_prop in Ex as [[[_ Hl%Z.eqb_eq]%andb_prop _]%andb_prop _]. cbn. lia.
Qed.

(** The test for a block that continues the last extent. *)
Lemma extendable_test g data es e logical physical : root_extents g data (es ++ [e]) -> block_follows g (es ++ [e]) logical physical ->
  (u32 (extent_first data (length es) + extent_length data (length es)) =? logical) &&
  (u64 (extent_start data (length es) + extent_length data (length es)) =? physical) &&
  (extent_length data (length es) <? 32768) = extendable e logical physical.
Proof.
  intros Hr (F1 & F2 & F3 & F4). rewrite leaf_end_snoc in F1.
  destruct (root_cells _ _ _ Hr (length es) e) as (-> & -> & ->); [by rewrite -> lookup_app_r, Nat.sub_diag by done|].
  apply root_ok, leaf_ok_snoc in Hr as [H0 He]. destruct (extent_ok_blocks _ _ _ He) as [Hpos _].
  apply leaf_end_le in H0 as [H0 _]. destruct He as (H1 & H2 & H3 & H4). unfold raw_length, extendable.
  destruct (extent_written e).
  - destruct (H4 eq_refl). by rewrite -> !wrap_small by word.
  - rewrite -> (proj2 (Z.ltb_ge _ 32768)) by lia. by rewrite andb_false_r.
Qed.

Lemma append_extent_spec g node es logical physical : root_extents g (block_data node) es -> block_follows g es logical physical ->
  match grown es logical physical with
  | Some es' => exists data, append_extent node logical physical = (node <| block_data := data |>, Error.none) /\ root_extents g data es'
  | None => append_extent node logical physical = (node, Error.no_space)
  end.
Proof.
  intros Hr Hf. pose proof (root_header _ _ _ Hr) as (_ & M & N & _ & Dp). unfold append_extent. rewrite -> M, N, Dp. cbn [negb orb Z.eqb Z.of_nat].
  rewrite Z.eqb_refl. cbn [negb orb].
  assert (match added es logical physical with
    | Some es' => exists data, (if 4 <=? Z.of_nat (length es) then (node, Error.no_space) else
        (node <| block_data := put16 (patch (block_data node) (Z.to_nat (12 + Z.of_nat (length es) * 12)) (one_block logical physical)) 2
           (u16 (Z.of_nat (length es) + 1)) |>, Error.none)) = (node <| block_data := data |>, Error.none) /\ root_extents g data es'
    | None => (if 4 <=? Z.of_nat (length es) then (node, Error.no_space) else
        (node <| block_data := put16 (patch (block_data node) (Z.to_nat (12 + Z.of_nat (length es) * 12)) (one_block logical physical)) 2
           (u16 (Z.of_nat (length es) + 1)) |>, Error.none)) = (node, Error.no_space)
    end) as Hadd.
  { unfold added. destruct (Nat.leb_spec 4 (length es)).
    - by rewrite -> (proj2 (Z.leb_le _ _)) by lia.
    - rewrite -> (proj2 (Z.leb_gt _ _)) by lia. eexists. split; [done|].
      replace (Z.to_nat (12 + Z.of_nat (length es) * 12)) with (12 + length es * 12)%nat by lia. by apply root_added. }
  unfold one_block in Hadd. unfold grown. destruct es as [|e es _] using rev_ind; [exact Hadd|].
  rewrite last_snoc. rewrite -> length_app in *. cbn [length] in *.
  rewrite -> (proj2 (Z.eqb_neq (Z.of_nat (length es + 1)) 0)) by lia.
  replace (Z.to_nat (Z.of_nat (length es + 1) - 1)) with (length es) by lia. cbn [negb andb].
  rewrite -> (extendable_test g _ es e logical physical Hr Hf). destruct (extendable e logical physical) eqn:Ex; [|exact Hadd].
  rewrite -> Nat.add_sub, take_app_length. eexists. split; [done|]. pose proof Ex as Hx.
  unfold extendable in Hx. apply andb_prop in Hx as [[[Hw _]%andb_prop _]%andb_prop Hb%Z.ltb_lt].
  apply root_longer; [done| |done|done]. by eapply longer_ok; [apply (root_ok _ _ _ Hr)| |].
Qed.

(** C14: appending a block to a file whose extents are in its inode adds exactly
    that block to the mapping: the last extent grows when the block continues
    it on both sides, otherwise a new extent is written, and the result encodes
    the new list.  With four extents that do not continue, the inode is left as
    it was and the error is [no_space]. *)
Theorem ext4_append_extent_spec g node es logical physical :
  root_extents g (block_data node) es -> block_follows g es logical physical ->
  let '(node', e) := append_extent node logical physical in
  (e = Error.none /\ exists es', node' = node <| block_data := block_data node' |> /\
     root_extents g (block_data node') es' /\ leaf_end 0 es' = logical + 1 /\
     forall l, leaf_find es' l = if l =? logical then mkMapping physical false else leaf_find es l) \/
  (e = Error.no_space /\ node' = node /\ length es = 4%nat /\
     forall e, last es = Some e -> extendable e logical physical = false).
Proof.
  intros Hr Hf. pose proof (append_extent_spec g node es logical physical Hr Hf) as H.
  pose proof (grown_spec g es logical physical (root_ok _ _ _ Hr) Hf) as Hg.
  destruct (grown es logical physical) as [es'|] eqn:E.
  - destruct H as (data & -> & Hr'). left. split; [done|]. exists es'. destruct Hg as (_ & Hg). by destruct node.
  - rewrite H. right. pose proof (root_length _ _ _ Hr). split; [done|]. split; [done|]. split; [lia|].
    intros e He. unfold grown in E. rewrite He in E. by destruct (extendable e logical physical).
Qed.

(** An inode with blocks 5 and 6 at the start of the file. *)
Definition example_extents : list Extent := [mkExtent 0 2 true 5].
Definition example_root : list Z :=
  bytes16 extent_magic ++ [1; 0; 4; 0; 0; 0] ++ replicate 4 0 ++ bytes32 0 ++ [2; 0] ++ bytes16 0 ++ bytes32 5 ++ replicate 36 0.
Definition example_growing : Node := example_file <| block_data := example_root |>.

Lemma example_root_ok : root_extents (geometry_ example_volume) example_root example_extents.
Proof.
  constructor; [split; [done|]| | | |done].
  - apply Forall_forall. intros x Hx. repeat (apply elem_of_cons in Hx as [->|Hx]; [vm_compute; split; congruence|]). by apply not_elem_of_nil in Hx.
  - vm_compute. repeat split; congruence.
  - vm_compute. repeat split; congruence.
  - intros [|[|i]] e [= <-]. vm_compute. done.
Qed.

Lemma ext4_append_extent_spec_witness :
  let '(node', e) := append_extent example_growing 2 7 in
  (e = Error.none /\ exists es', node' = example_growing <| block_data := block_data node' |> /\
     root_extents (geometry_ example_volume) (block_data node') es' /\ leaf_end 0 es' = 2 + 1 /\
     forall l, leaf_find es' l = if l =? 2 then mkMapping 7 false else leaf_find example_extents l) \/
  (e = Error.no_space /\ node' = example_growing /\ length example_extents = 4%nat /\
     forall e, last example_extents = Some e -> extendable e 2 7 = false).
Proof.
  apply (ext4_append_extent_spec (geometry_ example_volume) example_growing example_extents 2 7 example_root_ok).
  vm_compute. repeat split; congruence.
Defined.
End Ext4Extent.
