(* ===== verification/Fat32Name.v ===== *)
(** * [drivers/fs/fat32/fat32.hpp]: long and short names

    The namespace [detail] of the file, which turns directory records into
    names, and the parts of [Volume] that turn names into records.  A record
    is its 32 bytes, a [Name] the list of its bytes, a UTF-16 name the list of
    its units. *)

From S2P Require Import Prelude Filesystem.
Import Fs.
Local Open Scope Z_scope.

Module FatName.

Definition attribute_long_name := 0x0f.
Definition space := 32.

(** ** Reading names *)

(** [characters] has 260 units. *)
Record LongNameState := mkLongName {
  characters : list Z; checksum : Z; expected_ : Z; parts : Z; active : bool;
}.
#[global] Instance long_name_eta : Eta LongNameState := fun s =>
  mkLongName (characters s) (checksum s) (expected_ s) (parts s) (active s).
(** [state.reset()] *)
Definition reset : LongNameState := mkLongName (replicate 260 0xffff) 0 0 0 false.

(** Over the eleven bytes of a short name. *)
Definition short_checksum (name : list Z) : Z :=
  foldl (fun sum c => u8 ((if negb (Z.land sum 1 =? 0) then 0x80 else 0) + Z.shiftr sum 1 + c)) 0 (take 11 name).

(** The bytes of a code point, [None] above the last one. *)
Definition utf8_bytes (codepoint : Z) : option (list Z) :=
  let low shift := u8 (Z.lor 0x80 (Z.land (Z.shiftr codepoint shift) 0x3f)) in
  if codepoint <=? 0x7f then Some [u8 codepoint]
  else if codepoint <=? 0x7ff then Some [u8 (Z.lor 0xc0 (Z.shiftr codepoint 6)); low 0]
  else if codepoint <=? 0xffff then Some [u8 (Z.lor 0xe0 (Z.shiftr codepoint 12)); low 6; low 0]
  else if codepoint <=? 0x10ffff then Some [u8 (Z.lor 0xf0 (Z.shiftr codepoint 18)); low 12; low 6; low 0]
  else None.

(** Bytes beyond the capacity are dropped and make the name invalid. *)
Definition append_utf8 (name : Name) (codepoint : Z) : Name * bool :=
  match utf8_bytes codepoint with
  | None => (name, false)
  | Some bytes => (take name_capacity (name ++ bytes), (length name + length bytes <=? name_capacity)%nat)
  end.

(** The loop of [decode_long_name] over the units that are left. *)
Fixpoint decode_units (units : list Z) (output : Name) : Name * bool :=
  match units with
  | [] => (output, true)
  | first :: units =>
      if (first =? 0) || (first =? 0xffff) then (output, true)
      else if (0xd800 <=? first) && (first <=? 0xdbff) then
        match units with
        | [] => (output, false)
        | second :: units =>
            if (second <? 0xdc00) || (0xdfff <? second) then (output, false) else
            let '(output, valid) := append_utf8 output
              (0x10000 + Z.shiftl (first - 0xd800) 10 + (second - 0xdc00)) in
            if valid then decode_units units output else (output, false)
        end
      else if (0xdc00 <=? first) && (first <=? 0xdfff) then (output, false)
      else
        let '(output, valid) := append_utf8 output first in
        if valid then decode_units units output else (output, false)
  end.

Definition decode_long_name (state : LongNameState) : Name * bool :=
  if active state && (expected_ state =? 0) && negb (parts state =? 0) then
    let '(output, valid) := decode_units (take (Z.to_nat (parts state * 13)) (characters state)) [] in
    (output, valid && negb (length output =? 0)%nat)
  else ([], false).

Definition lower (lowercase : bool) (value : Z) : Z :=
  if lowercase && (65 <=? value) && (value <=? 90) then u8 (value + 32) else value.
Definition append_short (lowercase : bool) (output : Name) (value : Z) : Name :=
  output ++ [lower lowercase (if (value =? 0x05) && (length output =? 0)%nat then 0xe5 else value)].

Definition decode_short_name (entry : list Z) : Name :=
  let lowercase_base := negb (Z.land (byte entry 12) 0x08 =? 0) in
  let lowercase_extension := negb (Z.land (byte entry 12) 0x10 =? 0) in
  let base_size := back_while (fun c => c =? space) entry 8 in
  let output := foldl (append_short lowercase_base) [] (take base_size entry) in
  let extension_size := back_while (fun c => c =? space) (drop 8 entry) 3 in
  if (extension_size =? 0)%nat then output
  else foldl (append_short lowercase_extension) (output ++ [46]) (slice entry 8 extension_size).

Definition offsets : list nat := [1; 3; 5; 7; 9; 14; 16; 18; 20; 22; 24; 28; 30]%nat.

Definition consume_long_entry (entry : list Z) (state : LongNameState) : LongNameState :=
  let raw_ordinal := byte entry 0 in
  let ordinal := Z.land raw_ordinal 0x1f in
  let last := negb (Z.land raw_ordinal 0x40 =? 0) in
  if (ordinal =? 0) || (ordinal >? 20) || negb (byte entry 11 =? attribute_long_name) ||
     negb (byte entry 12 =? 0) || negb (little_u16 entry 26 =? 0)
  then reset else
  let state := if last then mkLongName (characters reset) (byte entry 13) ordinal ordinal true else state in
  if negb (active state) || negb (ordinal =? expected_ state) || negb (byte entry 13 =? checksum state) ||
     (ordinal >? parts state)
  then reset else
  state <| characters ::= fun c => patch c (Z.to_nat ((ordinal - 1) * 13)) (little_u16 entry <$> offsets) |>
        <| expected_ ::= fun e => u8 (e - 1) |>.

(** ** Writing names *)

Definition forbidden_name_byte (value : Z) : bool :=
  (value <? 0x20) || existsb (Z.eqb value) [34; 42; 47; 58; 60; 62; 63; 92; 124].

(** [continuation] more bytes of a sequence; a string that ends there has its
    NUL read instead. *)
Fixpoint continue_utf8 (continuation : nat) (name : list Z) (codepoint : Z) : option (Z * list Z) :=
  match continuation with
  | O => Some (codepoint, name)
  | S continuation =>
      match name with
      | [] => None
      | b :: name =>
          if negb (Z.land b 0xc0 =? 0x80) then None
          else continue_utf8 continuation name (Z.lor (u32 (Z.shiftl codepoint 6)) (Z.land b 0x3f))
      end
  end.

Definition utf8_lead (first : Z) : option (Z * nat) :=
  if first <? 0x80 then Some (first, 0%nat)
  else if Z.land first 0xe0 =? 0xc0 then Some (Z.land first 0x1f, 1%nat)
  else if Z.land first 0xf0 =? 0xe0 then Some (Z.land first 0x0f, 2%nat)
  else if Z.land first 0xf8 =? 0xf0 then Some (Z.land first 0x07, 3%nat)
  else None.

Definition bad_codepoint (continuation : nat) (codepoint : Z) : bool :=
  ((continuation =? 1)%nat && (codepoint <? 0x80)) || ((continuation =? 2)%nat && (codepoint <? 0x800)) ||
  ((continuation =? 3)%nat && (codepoint <? 0x10000)) || (codepoint >? 0x10ffff) ||
  ((0xd800 <=? codepoint) && (codepoint <=? 0xdfff)).

(** [Utf16Name] holds 255 units. *)
Definition push_codepoint (output : list Z) (codepoint : Z) : option (list Z) :=
  if codepoint <=? 0xffff then
    if (length output =? 255)%nat then None else Some (output ++ [u16 codepoint])
  else if (253 <? length output)%nat then None else
    let codepoint := codepoint - 0x10000 in
    Some (output ++ [u16 (0xd800 + Z.shiftr codepoint 10); u16 (0xdc00 + Z.land codepoint 0x3ff)]).

Fixpoint decode_utf8_loop (fuel : nat) (name : list Z) (output : list Z) : option (list Z) :=
  match fuel with
  | O => Some output
  | S fuel =>
      match name with
      | [] => Some output
      | first :: name =>
          if forbidden_name_byte first then None else
          '(codepoint, continuation) ← utf8_lead first;
          '(codepoint, name) ← continue_utf8 continuation name codepoint;
          if bad_codepoint continuation codepoint then None else
          output ← push_codepoint output codepoint;
          decode_utf8_loop fuel name output
      end
  end.

Definition decode_utf8_name (name : list Z) : option (list Z) :=
  if (length name =? 0)%nat then None else
  output ← decode_utf8_loop (length name) name [];
  match last output with
  | Some c => if (c =? 32) || (c =? 46) then None else Some output
  | None => None
  end.

(** The unit at [index] of a name padded with a zero and then ones. *)
Definition padded (utf16 : list Z) (index : nat) : Z :=
  match utf16 !! index with
  | Some value => value
  | None => if (index =? length utf16)%nat then 0 else 0xffff
  end.

(** The record [ordinal] of the [parts] of a long name. *)
Definition long_record (utf16 : list Z) (parts ordinal : Z) (checksum : Z) : list Z :=
  let raw := replicate 32 0xff in
  let raw := <[0%nat := u8 (Z.lor ordinal (if ordinal =? parts then 0x40 else 0))]> raw in
  let raw := <[11%nat := attribute_long_name]> raw in
  let raw := <[12%nat := 0]> raw in
  let raw := <[13%nat := checksum]> raw in
  let raw := patch raw 26 [0; 0] in
  let base := Z.to_nat ((ordinal - 1) * 13) in
  foldl (fun raw '(index, at_) => put16 raw at_ (padded utf16 (base + index))) raw (imap pair offsets).

Definition long_parts (utf16 : list Z) : Z := Z.of_nat ((length utf16 + 12) / 13).

(** The long-name records of a name in the order of the disk. *)
Definition long_records (utf16 : list Z) (checksum : Z) : list (list Z) :=
  (fun disk_part => long_record utf16 (long_parts utf16) (long_parts utf16 - Z.of_nat disk_part) checksum)
    <$> seq 0 (Z.to_nat (long_parts utf16)).

(** What [for_each] makes of them. *)
Definition consume_all (records : list (list Z)) (state : LongNameState) : LongNameState :=
  foldl (fun state raw => consume_long_entry raw state) state records.

(* "naïve.txt" followed by U+1F600 *)
Definition example_name : list Z := [110; 97; 195; 175; 118; 101; 46; 116; 120; 116; 240; 159; 152; 128; 97; 98; 99; 100; 101].

Example long_name_example :
  match decode_utf8_name example_name with
  | Some utf16 => decode_long_name (consume_all (long_records utf16 77) reset) = (example_name, true) /\ length (long_records utf16 77) = 2%nat
  | None => False
  end.
Proof. vm_compute. done. Qed.
End FatName.
