(* ===== verification/Fat32NameLaws.v ===== *)
(** * Long names survive the directory

    A name goes through [decode_utf8_name] and the long-name records of
    [insert_directory_record], and comes back through [consume_long_entry] and
    [decode_long_name] byte for byte. *)

From S2P Require Import Prelude Filesystem Fat32Name.
Import Fs FatName.
Local Open Scope Z_scope.

Module FatNameLaws.

(** ** UTF-8 *)

(** A property of every byte, by evaluation. *)
Lemma all_bytes (P : Z -> bool) : forallb P (seqZ 0 256) = true -> forall b, in_u 8 b -> P b = true.
Proof. intros H b Hb. rewrite -> forallb_forall in H. apply H. apply list_elem_of_In, elem_of_seqZ. word. Qed.

Lemma lead_spec first c n : in_u 8 first -> utf8_lead first = Some (c, n) ->
  (n = 0%nat /\ first = c /\ c < 0x80) \/ (n = 1%nat /\ first = 0xc0 + c /\ c < 32) \/
  (n = 2%nat /\ first = 0xe0 + c /\ c < 16) \/ (n = 3%nat /\ first = 0xf0 + c /\ c < 8).
Proof.
  intros Hf H.
  pose proof (all_bytes (fun first => match utf8_lead first with
    | None => true
    | Some (c, O) => (first =? c) && (c <? 0x80)
    | Some (c, S O) => (first =? 0xc0 + c) && (c <? 32)
    | Some (c, S (S O)) => (first =? 0xe0 + c) && (c <? 16)
    | Some (c, _) => (first =? 0xf0 + c) && (c <? 8)
    end) eq_refl first Hf) as L. cbn beta in L. rewrite H in L.
  unfold utf8_lead in H. repeat case_match; simplify_eq; apply andb_prop in L as [L1%Z.eqb_eq L2%Z.ltb_lt]; lia.
Qed.

Lemma lead_nonneg first c n : in_u 8 first -> utf8_lead first = Some (c, n) -> 0 <= c.
Proof. unfold utf8_lead. intros Hf H. repeat case_match; simplify_eq; rewrite -> ?Z.land_nonneg; word. Qed.

Lemma land_ones6 z : Z.land z 0x3f = z mod 64.
Proof. apply (Z.land_ones z 6). lia. Qed.

(** One continuation byte adds six bits. *)
Lemma continuation_step c b : in_u 8 b -> Z.land b 0xc0 = 0x80 -> 0 <= c < 2 ^ 20 ->
  exists x, b = 0x80 + x /\ 0 <= x < 64 /\ Z.lor (u32 (Z.shiftl c 6)) (Z.land b 0x3f) = c * 64 + x.
Proof.
  intros Hb H Hc. exists (b mod 64).
  assert (b = 0x80 + b mod 64) as Hx.
  { pose proof (all_bytes (fun b => negb (Z.land b 0xc0 =? 0x80) || (b =? 0x80 + b mod 64)) eq_refl b Hb) as L.
    cbn beta in L. rewrite -> H in L. apply Z.eqb_eq, L. }
  split; [done|]. pose proof (Z.mod_pos_bound b 64 ltac:(lia)). split; [done|].
  rewrite -> land_ones6, wrap_small by (rewrite -> Z.shiftl_mul_pow2 by done; word).
  by rewrite -> lor_shiftl by lia.
Qed.

Lemma utf8_low cp shift : 0 <= shift -> u8 (Z.lor 0x80 (Z.land (Z.shiftr cp shift) 0x3f)) = 0x80 + (cp / 2 ^ shift) mod 64.
Proof.
  intros Hs. rewrite -> Z.shiftr_div_pow2, land_ones6 by done.
  assert (0 <= (cp / 2 ^ shift) mod 64 < 64) as Hm by (apply Z.mod_pos_bound; lia).
  generalize dependent ((cp / 2 ^ shift) mod 64). intros x Hx.
  pose proof (all_bytes (fun x => negb (x <? 64) || (u8 (Z.lor 0x80 x) =? 0x80 + x)) eq_refl x ltac:(word)) as L.
  cbn beta in L. rewrite -> (proj2 (Z.ltb_lt _ _)) in L by lia. by apply Z.eqb_eq.
Qed.

Lemma utf8_lead_byte base x bound : (base, bound) ∈ [(0xc0, 32); (0xe0, 16); (0xf0, 8)] -> 0 <= x < bound ->
  u8 (Z.lor base x) = base + x.
Proof.
  intros Hb Hx.
  pose proof (all_bytes (fun x => forallb (fun '(base, bound) => negb (x <? bound) || (u8 (Z.lor base x) =? base + x))
    [(0xc0, 32); (0xe0, 16); (0xf0, 8)]) eq_refl x) as L.
  assert (bound <= 32) by (repeat (apply elem_of_cons in Hb as [[= -> ->]|Hb]; [lia|]); by apply not_elem_of_nil in Hb).
  specialize (L ltac:(word)). cbn beta in L. rewrite -> forallb_forall in L. specialize (L _ ltac:(by apply list_elem_of_In)).
  cbn in L. rewrite -> (proj2 (Z.ltb_lt x bound)) in L by lia. by apply Z.eqb_eq.
Qed.

Definition codepoint_ok (cp : Z) : Prop := 0 <= cp <= 0x10ffff /\ ~ (0xd800 <= cp <= 0xdfff).

Lemma continue_step n name c r : continue_utf8 (S n) name c = Some r -> bytes_ok name -> 0 <= c < 2 ^ 20 ->
  exists x name', name = 0x80 + x :: name' /\ 0 <= x < 64 /\ continue_utf8 n name' (c * 64 + x) = Some r /\ bytes_ok name'.
Proof.
  intros H Hb Hc. cbn [continue_utf8] in H. destruct name as [|b name]; [done|]. apply Forall_cons in Hb as [Hb Hn].
  destruct (Z.eqb_spec (Z.land b 0xc0) 0x80) as [E|]; [|done]. cbn [negb] in H.
  destruct (continuation_step c b Hb E Hc) as (x & -> & Hx & Hl). rewrite Hl in H. by exists x, name.
Qed.

(** The encoding of a code point given by its digits in base 64. *)
Lemma utf8_bytes_1 c : 0 <= c < 0x80 -> utf8_bytes c = Some [c].
Proof. intros H. unfold utf8_bytes. rewrite -> (proj2 (Z.leb_le _ _)) by lia. do 2 f_equal. apply wrap_small. word. Qed.

Lemma utf8_bytes_2 c x : 0 <= c < 32 -> 0 <= x < 64 -> 0x80 <= c * 64 + x -> utf8_bytes (c * 64 + x) = Some [0xc0 + c; 0x80 + x].
Proof.
  intros Hc Hx Hr. unfold utf8_bytes. rewrite -> (proj2 (Z.leb_gt _ _)), (proj2 (Z.leb_le _ 0x7ff)) by lia.
  rewrite -> utf8_low, Z.shiftr_div_pow2 by done. replace ((c * 64 + x) / 2 ^ 6) with c by (change (2 ^ 6) with 64; word).
  rewrite -> (utf8_lead_byte 0xc0 c 32) by (try done; set_solver). repeat f_equal. change (2 ^ 0) with 1. word.
Qed.

Lemma utf8_bytes_3 c x y : 0 <= c < 16 -> 0 <= x < 64 -> 0 <= y < 64 -> 0x800 <= (c * 64 + x) * 64 + y ->
  utf8_bytes ((c * 64 + x) * 64 + y) = Some [0xe0 + c; 0x80 + x; 0x80 + y].
Proof.
  intros Hc Hx Hy Hr. unfold utf8_bytes.
  rewrite -> (proj2 (Z.leb_gt _ _)), (proj2 (Z.leb_gt _ _)), (proj2 (Z.leb_le _ 0xffff)) by lia.
  rewrite -> !utf8_low, Z.shiftr_div_pow2 by done.
  replace (((c * 64 + x) * 64 + y) / 2 ^ 12) with c by (change (2 ^ 12) with 4096; word).
  rewrite -> (utf8_lead_byte 0xe0 c 16) by (try done; set_solver). change (2 ^ 0) with 1. change (2 ^ 6) with 64.
  repeat f_equal; word.
Qed.

Lemma utf8_bytes_4 c x y z : 0 <= c < 8 -> 0 <= x < 64 -> 0 <= y < 64 -> 0 <= z < 64 ->
  0x10000 <= ((c * 64 + x) * 64 + y) * 64 + z <= 0x10ffff ->
  utf8_bytes (((c * 64 + x) * 64 + y) * 64 + z) = Some [0xf0 + c; 0x80 + x; 0x80 + y; 0x80 + z].
Proof.
  intros Hc Hx Hy Hz Hr. unfold utf8_bytes.
  rewrite -> (proj2 (Z.leb_gt _ _)), (proj2 (Z.leb_gt _ _)), (proj2 (Z.leb_gt _ _)), (proj2 (Z.leb_le _ 0x10ffff)) by lia.
  rewrite -> !utf8_low, Z.shiftr_div_pow2 by done.
  replace ((((c * 64 + x) * 64 + y) * 64 + z) / 2 ^ 18) with c by (change (2 ^ 18) with 262144; word).
  rewrite -> (utf8_lead_byte 0xf0 c 8) by (try done; set_solver). change (2 ^ 0) with 1. change (2 ^ 6) with 64. change (2 ^ 12) with 4096.
  repeat f_equal; word.
Qed.

(** What the decoder accepts is the encoding of the code point. *)
Lemma utf8_decode_encode first c n name cp rest :
  bytes_ok (first :: name) -> utf8_lead first = Some (c, n) -> continue_utf8 n name c = Some (cp, rest) ->
  bad_codepoint n cp = false ->
  codepoint_ok cp /\ bytes_ok rest /\ exists bs, utf8_bytes cp = Some bs /\ first :: name = bs ++ rest.
Proof.
  intros [Hf Hb]%Forall_cons Hl Hc Hbad. pose proof (lead_nonneg _ _ _ Hf Hl) as H0.
  unfold bad_codepoint in Hbad. apply orb_false_iff in Hbad as [Hbad Hsur]. apply orb_false_iff in Hbad as [Hbad Hmax].
  rewrite -> Z.gtb_ltb, Z.ltb_ge in Hmax. apply andb_false_iff in Hsur. rewrite -> !Z.leb_gt in Hsur. unfold codepoint_ok.
  destruct (lead_spec _ _ _ Hf Hl) as [(-> & -> & Hc1)|[(-> & -> & Hc1)|[(-> & -> & Hc1)|(-> & -> & Hc1)]]]; cbn in Hbad.
  - injection Hc as <- <-. split; [lia|]. split; [done|]. exists [c]. by rewrite -> utf8_bytes_1 by lia.
  - apply continue_step in Hc as (x & rest' & -> & Hx & [= <- <-] & Hr); [|done|lia].
    rewrite -> ?orb_false_r, Z.ltb_ge in Hbad. split; [lia|]. split; [done|]. eexists. by rewrite -> utf8_bytes_2 by lia.
  - apply continue_step in Hc as (x & rest' & -> & Hx & Hc & Hr); [|done|lia].
    apply continue_step in Hc as (y & rest'' & -> & Hy & [= <- <-] & Hr'); [|done|lia].
    rewrite -> ?orb_false_r, Z.ltb_ge in Hbad. split; [lia|]. split; [done|]. eexists. by rewrite -> utf8_bytes_3 by lia.
  - apply continue_step in Hc as (x & rest' & -> & Hx & Hc & Hr); [|done|lia].
    apply continue_step in Hc as (y & rest'' & -> & Hy & Hc & Hr'); [|done|lia].
    apply continue_step in Hc as (z & rest3 & -> & Hz & [= <- <-] & Hr''); [|done|lia].
    rewrite -> ?orb_false_r, Z.ltb_ge in Hbad. split; [lia|]. split; [done|]. eexists. by rewrite -> utf8_bytes_4 by lia.
Qed.

(** ** UTF-16 *)

(** The units of a code point. *)
Definition utf16_units (cp : Z) : list Z :=
  if cp <=? 0xffff then [u16 cp]
  else [u16 (0xd800 + Z.shiftr (cp - 0x10000) 10); u16 (0xdc00 + Z.land (cp - 0x10000) 0x3ff)].

Lemma push_units output cp output' : push_codepoint output cp = Some output' -> (length output <= 255)%nat ->
  output' = output ++ utf16_units cp /\ (length output' <= 255)%nat.
Proof.
  unfold push_codepoint, utf16_units. intros H Hl. destruct (cp <=? 0xffff).
  - destruct (Nat.eqb_spec (length output) 255); simplify_eq. split; [done|]. rewrite -> length_app. cbn. lia.
  - destruct (Nat.ltb_spec 253 (length output)); simplify_eq. split; [done|]. rewrite -> length_app. cbn. lia.
Qed.

(** The surrogates of a code point above the first plane. *)
Lemma surrogates cp : 0x10000 <= cp <= 0x10ffff ->
  exists hi lo, utf16_units cp = [0xd800 + hi; 0xdc00 + lo] /\ 0 <= hi < 1024 /\ 0 <= lo < 1024 /\ cp = 0x10000 + hi * 1024 + lo.
Proof.
  intros H. exists ((cp - 0x10000) / 1024), ((cp - 0x10000) mod 1024). unfold utf16_units.
  rewrite -> (proj2 (Z.leb_gt _ _)) by lia. rewrite -> Z.shiftr_div_pow2 by done. rewrite -> (Z.land_ones _ 10) by lia.
  change (2 ^ 10) with 1024. rewrite -> !wrap_small by word. split; [done|]. word.
Qed.

Lemma append_utf8_fits acc cp bs : utf8_bytes cp = Some bs -> (length acc + length bs <= name_capacity)%nat ->
  append_utf8 acc cp = (acc ++ bs, true).
Proof.
  intros H Hl. unfold append_utf8. rewrite -> H, (proj2 (Nat.leb_le _ _)) by done.
  rewrite -> take_ge by (rewrite length_app; done). done.
Qed.

(** Reading the units of a code point appends its bytes. *)
Lemma decode_units_step cp bs acc tail : codepoint_ok cp -> cp <> 0 -> cp <> 0xffff -> utf8_bytes cp = Some bs ->
  (length acc + length bs <= name_capacity)%nat ->
  decode_units (utf16_units cp ++ tail) acc = decode_units tail (acc ++ bs).
Proof.
  intros [Hr Hs] H0 Hf Hb Hl. destruct (Z.le_gt_cases cp 0xffff) as [Hle|Hgt].
  - unfold utf16_units. rewrite -> (proj2 (Z.leb_le _ _)), wrap_small by word. cbn [app decode_units].
    rewrite -> (proj2 (Z.eqb_neq cp 0)), (proj2 (Z.eqb_neq cp 0xffff)) by done. cbn [orb].
    assert ((0xd800 <=? cp) && (cp <=? 0xdbff) = false) as ->.
    { apply andb_false_iff. rewrite -> !Z.leb_gt. lia. }
    assert ((0xdc00 <=? cp) && (cp <=? 0xdfff) = false) as ->.
    { apply andb_false_iff. rewrite -> !Z.leb_gt. lia. }
    by rewrite -> (append_utf8_fits acc cp bs).
  - destruct (surrogates cp ltac:(lia)) as (hi & lo & -> & Hhi & Hlo & E). cbn [app decode_units].
    rewrite -> (proj2 (Z.eqb_neq _ 0)), (proj2 (Z.eqb_neq _ 0xffff)), (proj2 (Z.leb_le 0xd800 _)), (proj2 (Z.leb_le _ 0xdbff)) by lia.
    cbn [orb andb]. rewrite -> (proj2 (Z.ltb_ge _ 0xdc00)), (proj2 (Z.ltb_ge 0xdfff _)) by lia. cbn [orb].
    rewrite -> Z.shiftl_mul_pow2 by done. change (2 ^ 10) with 1024.
    replace (0x10000 + (0xd800 + hi - 0xd800) * 1024 + (0xdc00 + lo - 0xdc00)) with cp by lia.
    by rewrite -> (append_utf8_fits acc cp bs).
Qed.

Lemma utf8_bytes_length cp bs : codepoint_ok cp -> utf8_bytes cp = Some bs -> (1 <= length bs <= 3 * length (utf16_units cp))%nat.
Proof.
  intros [Hr _]. unfold utf8_bytes, utf16_units. intros H.
  destruct (Z.leb_spec cp 0x7f); [simplify_eq; rewrite -> (proj2 (Z.leb_le _ _)) by lia; cbn; lia|].
  destruct (Z.leb_spec cp 0x7ff); [simplify_eq; rewrite -> (proj2 (Z.leb_le _ _)) by lia; cbn; lia|].
  destruct (Z.leb_spec cp 0xffff); [simplify_eq; cbn; lia|].
  destruct (Z.leb_spec cp 0x10ffff); [simplify_eq; cbn; lia|done].
Qed.

Lemma units_unit cp : codepoint_ok cp -> Forall (in_u 16) (utf16_units cp) /\
  (~ 0xffff ∈ utf16_units cp -> cp <> 0xffff).
Proof.
  intros [Hr _]. split.
  - unfold utf16_units. destruct (cp <=? 0xffff); repeat (apply Forall_cons; split; [apply wrap_in_u; lia|]); by apply Forall_nil.
  - intros H ->. apply H. vm_compute. left.
Qed.

(** A name is forbidden or starts with a code point that is not zero. *)
Lemma forbidden_zero c n name cp rest first : in_u 8 first -> forbidden_name_byte first = false -> utf8_lead first = Some (c, n) ->
  continue_utf8 n name c = Some (cp, rest) -> bad_codepoint n cp = false -> cp <> 0.
Proof.
  intros Hf Hfb Hl Hc Hb ->. unfold forbidden_name_byte in Hfb. apply orb_false_iff in Hfb as [Hfb _]. apply Z.ltb_ge in Hfb.
  destruct (lead_spec _ _ _ Hf Hl) as [(-> & -> & Hc1)|[(-> & -> & Hc1)|[(-> & -> & Hc1)|(-> & -> & Hc1)]]]; [|done..].
  injection Hc as -> ->. lia.
Qed.

(** The names [decode_utf8_loop] accepts and the units it stores. *)
Lemma decode_utf8_loop_spec fuel : forall name output utf16,
  decode_utf8_loop fuel name output = Some utf16 -> bytes_ok name -> (length name <= fuel)%nat -> (length output <= 255)%nat ->
  exists units, utf16 = output ++ units /\ (length utf16 <= 255)%nat /\ (length name <= 3 * length units)%nat /\
    Forall (in_u 16) units /\
    (~ 0xffff ∈ units -> forall acc tail, (length acc + length name <= name_capacity)%nat ->
       decode_units (units ++ tail) acc = decode_units tail (acc ++ name)).
Proof.
  induction fuel as [|fuel IH]; intros name output utf16 H Hb Hf Hl; cbn [decode_utf8_loop] in H.
  { destruct name; [|cbn in Hf; lia]. injection H as <-. exists []. rewrite app_nil_r. split; [done|]. split; [done|].
    split; [cbn; lia|]. split; [by apply Forall_nil|]. intros _ acc tail _. by rewrite app_nil_r. }
  destruct name as [|first name].
  { injection H as <-. exists []. rewrite app_nil_r. split; [done|]. split; [done|]. split; [cbn; lia|].
    split; [by apply Forall_nil|]. intros _ acc tail _. by rewrite app_nil_r. }
  destruct (forbidden_name_byte first) eqn:Hfb; [done|].
  destruct (utf8_lead first) as [[c n]|] eqn:Hlead; [|done]. cbn [mbind option_bind] in H.
  destruct (continue_utf8 n name c) as [[cp rest]|] eqn:Hcont; [|done]. cbn [mbind option_bind] in H.
  destruct (bad_codepoint n cp) eqn:Hbad; [done|].
  destruct (push_codepoint output cp) as [output'|] eqn:Hpush; [|done]. cbn [mbind option_bind] in H.
  destruct (utf8_decode_encode _ _ _ _ _ _ Hb Hlead Hcont Hbad) as (Hcp & Hbr & bs & Hbs & Eb).
  destruct (push_units _ _ _ Hpush Hl) as [-> Hl']. pose proof (utf8_bytes_length _ _ Hcp Hbs) as Hlen.
  assert (length (first :: name) = (length bs + length rest)%nat) as El by (rewrite Eb; apply length_app).
  destruct (IH _ _ _ H Hbr ltac:(cbn in *; lia) Hl') as (units & -> & Hl2 & Hn & Hu & Hd).
  destruct (units_unit cp Hcp) as [Hu1 Hu2].
  exists (utf16_units cp ++ units). rewrite -> app_assoc, El, (length_app (utf16_units cp)). split; [done|]. split; [done|]. split; [lia|].
  split; [by apply Forall_app|]. intros Hnf acc tail Hcap. rewrite -> not_elem_of_app in Hnf. destruct Hnf as [Hnf1 Hnf2].
  rewrite <- app_assoc, (decode_units_step cp bs); [|done| |by apply Hu2|done|lia].
  - rewrite -> Hd by (try done; rewrite length_app; lia). by rewrite -> Eb, <- app_assoc.
  - apply Forall_cons in Hb as [Hb _]. by eapply forbidden_zero.
Qed.

(** ** Records *)

Lemma padded_unit utf16 i : Forall (in_u 16) utf16 -> in_u 16 (padded utf16 i).
Proof.
  intros H. unfold padded. destruct (utf16 !! i) eqn:E; [by eapply Forall_lookup_1|]. case_match; word.
Qed.

(** The bytes of a record. *)
Lemma long_record_bytes utf16 parts ordinal sum :
  let p i := bytes16 (padded utf16 (Z.to_nat ((ordinal - 1) * 13) + i)) in
  long_record utf16 parts ordinal sum =
    [u8 (Z.lor ordinal (if ordinal =? parts then 0x40 else 0))] ++ p 0%nat ++ p 1%nat ++ p 2%nat ++ p 3%nat ++ p 4%nat ++
    [attribute_long_name; 0; sum] ++ p 5%nat ++ p 6%nat ++ p 7%nat ++ p 8%nat ++ p 9%nat ++ p 10%nat ++ [0; 0] ++ p 11%nat ++ p 12%nat.
Proof. reflexivity. Qed.

(** The fields [consume_long_entry] reads of a record. *)
Lemma long_record_fields utf16 parts ordinal sum :
  Forall (in_u 16) utf16 -> in_u 8 sum -> 1 <= ordinal <= parts -> parts <= 20 ->
  let raw := long_record utf16 parts ordinal sum in
  Z.land (byte raw 0) 0x1f = ordinal /\ negb (Z.land (byte raw 0) 0x40 =? 0) = (ordinal =? parts) /\
  byte raw 11 = attribute_long_name /\ byte raw 12 = 0 /\ byte raw 13 = sum /\ little_u16 raw 26 = 0 /\
  little_u16 raw <$> offsets = (fun i => padded utf16 (Z.to_nat ((ordinal - 1) * 13) + i)) <$> seq 0 13.
Proof.
  intros Hu Hs Ho Hp raw.
  assert (bytes_ok raw) as Hb.
  { unfold raw. rewrite long_record_bytes. repeat (apply Forall_app; split); try apply bytes16_ok;
      repeat (apply Forall_cons; split; [first [done|apply wrap_in_u; lia|word]|]); by apply Forall_nil. }
  assert (byte raw 0 = u8 (Z.lor ordinal (if ordinal =? parts then 0x40 else 0))) as E0 by (unfold raw; by rewrite long_record_bytes).
  assert (forall ordinal last, 1 <= ordinal <= 20 -> let b := u8 (Z.lor ordinal (if last : bool then 0x40 else 0)) in
    Z.land b 0x1f = ordinal /\ negb (Z.land b 0x40 =? 0) = last) as Hord.
  { clear. intros o last Ho. assert (o ∈ seqZ 1 20) as Hin by (apply elem_of_seqZ; lia).
    pose proof (eq_refl : forallb (fun o => forallb (fun last : bool => let b := u8 (Z.lor o (if last then 0x40 else 0)) in
      (Z.land b 0x1f =? o) && eqb (negb (Z.land b 0x40 =? 0)) last) [true; false]) (seqZ 1 20) = true) as L.
    rewrite -> forallb_forall in L. specialize (L o ltac:(by apply list_elem_of_In)). cbn beta in L. rewrite -> forallb_forall in L.
    specialize (L last ltac:(destruct last; cbn; tauto)). apply andb_prop in L as [L1%Z.eqb_eq L2%eqb_prop]. done. }
  destruct (Hord ordinal (ordinal =? parts) ltac:(lia)) as [H1 H2]. rewrite <- E0 in H1, H2.
  split; [done|]. split; [done|].
  split; [unfold raw; by rewrite long_record_bytes|]. split; [unfold raw; by rewrite long_record_bytes|].
  split; [unfold raw; by rewrite long_record_bytes|]. split; [unfold raw; by rewrite long_record_bytes|].
  assert (forall at_ i, slice raw at_ 2 = bytes16 (padded utf16 (Z.to_nat ((ordinal - 1) * 13) + i)) ->
    little_u16 raw at_ = padded utf16 (Z.to_nat ((ordinal - 1) * 13) + i)) as Hw.
  { intros at_ i E. rewrite -> (little_u16_bytes _ _ _ Hb E). by apply wrap_small, padded_unit. }
  unfold offsets. cbn [fmap list_fmap seq].
  repeat (f_equal; [apply Hw; unfold raw; rewrite long_record_bytes; reflexivity|]).
  f_equal. apply Hw. unfold raw. by rewrite long_record_bytes.
Qed.

(** One record consumed. *)
Lemma consume_record utf16 parts_ ordinal sum state :
  Forall (in_u 16) utf16 -> in_u 8 sum -> 1 <= ordinal <= parts_ -> parts_ <= 20 ->
  (ordinal = parts_ \/ (active state = true /\ expected_ state = ordinal /\ checksum state = sum /\ parts state = parts_)) ->
  consume_long_entry (long_record utf16 parts_ ordinal sum) state =
    mkLongName (patch (if ordinal =? parts_ then characters reset else characters state) (Z.to_nat ((ordinal - 1) * 13))
      ((fun i => padded utf16 (Z.to_nat ((ordinal - 1) * 13) + i)) <$> seq 0 13)) sum (ordinal - 1) parts_ true.
Proof.
  intros Hu Hs Ho Hp Hst.
  destruct (long_record_fields utf16 parts_ ordinal sum Hu Hs Ho Hp) as (F1 & F2 & F3 & F4 & F5 & F6 & F7).
  unfold consume_long_entry. rewrite -> F1, F2, F3, F4, F5, F6, F7.
  rewrite -> (proj2 (Z.eqb_neq ordinal 0)), Z.gtb_ltb, (proj2 (Z.ltb_ge 20 _)), !Z.eqb_refl by lia. cbn [negb orb].
  destruct (Z.eqb_spec ordinal parts_) as [->|Hne]; cbn [active expected_ checksum parts].
  - rewrite -> !Z.eqb_refl, Z.gtb_ltb, Z.ltb_irrefl. cbn [negb orb]. unfold set. cbn [characters checksum expected_ parts active].
    f_equal. apply wrap_small. word.
  - destruct Hst as [?|(A1 & A2 & A3 & A4)]; [done|]. rewrite -> A1, A2, A3, A4, !Z.eqb_refl, Z.gtb_ltb, (proj2 (Z.ltb_ge _ _)) by lia.
    cbn [negb orb]. unfold set. cbn [characters checksum expected_ parts active]. rewrite -> A1, A2, A3, A4. f_equal.
    apply wrap_small. word.
Qed.

(** The units from position [k] on, up to [n]. *)
Definition padded_from (utf16 : list Z) (k n : nat) : list Z := padded utf16 <$> seq k (n - k).

Lemma padded_from_step utf16 k n c : (k + 13 <= n <= 260)%nat -> length c = 260%nat -> take (n - (k + 13)) (drop (k + 13) c) = padded_from utf16 (k + 13) n ->
  take (n - k) (drop k (patch c k ((fun i => padded utf16 (k + i)) <$> seq 0 13))) = padded_from utf16 k n.
Proof.
  intros Hk Hl H. unfold patch, padded_from in *. rewrite -> drop_app_length' by (rewrite -> length_take; lia).
  assert ((fun i => padded utf16 (k + i)) <$> seq 0 13 = padded utf16 <$> seq k 13) as ->.
  { replace (seq k 13) with (seq (k + 0) 13) by (by rewrite Nat.add_0_r). by rewrite <- fmap_add_seq, <- list_fmap_compose. }
  replace (n - k)%nat with (13 + (n - (k + 13)))%nat by lia. rewrite -> seq_app, fmap_app, <- H.
  rewrite -> take_app_add' by (by rewrite -> length_fmap, length_seq). by rewrite -> length_fmap, length_seq.
Qed.

(** All records consumed, in the order of the disk. *)
Lemma consume_prefix utf16 sum state n : Forall (in_u 16) utf16 -> in_u 8 sum -> long_parts utf16 <= 20 ->
  (n <= Z.to_nat (long_parts utf16))%nat -> n <> 0%nat ->
  let k := (Z.to_nat (long_parts utf16) - n)%nat in
  let s := consume_all (take n (long_records utf16 sum)) state in
  checksum s = sum /\ expected_ s = Z.of_nat k /\ parts s = long_parts utf16 /\ active s = true /\ length (characters s) = 260%nat /\
  take (Z.to_nat (long_parts utf16) * 13 - k * 13) (drop (k * 13) (characters s)) = padded_from utf16 (k * 13) (Z.to_nat (long_parts utf16) * 13).
Proof.
  intros Hu Hs Hp Hn Hz. assert (0 <= long_parts utf16) as Hp0 by (unfold long_parts; lia).
  set (p := Z.to_nat (long_parts utf16)) in *. assert (long_parts utf16 = Z.of_nat p) as Ep by lia.
  induction n as [|n IH]; [done|]. intros k s.
  assert (s = consume_long_entry (long_record utf16 (Z.of_nat p) (Z.of_nat (S k)) sum) (consume_all (take n (long_records utf16 sum)) state)) as Es.
  { unfold s, consume_all. rewrite -> (take_S_r _ n (long_record utf16 (Z.of_nat p) (Z.of_nat (S k)) sum)).
    - by rewrite -> foldl_app.
    - unfold long_records. rewrite -> list_lookup_fmap, lookup_seq_lt by (fold p; lia). cbn. rewrite Ep. by replace (Z.of_nat p - Z.of_nat n) with (Z.of_nat (S k)) by lia. }
  rewrite -> Es, Ep. clear Es s.
  assert (Z.to_nat ((Z.of_nat (S k) - 1) * 13) = (k * 13)%nat) as Ek by lia.
  destruct (decide (n = 0)%nat) as [->|Hn0].
  - rewrite -> consume_record by (try done; lia). cbn [checksum expected_ parts active characters].
    rewrite -> (proj2 (Z.eqb_eq (Z.of_nat (S k)) (Z.of_nat p))) by lia. rewrite Ek.
    split; [done|]. split; [lia|]. split; [done|]. split; [done|].
    assert (length (characters reset) = 260%nat) as Hl by done.
    split; [rewrite -> length_patch; [done|rewrite -> length_fmap, length_seq; lia]|].
    apply padded_from_step; [lia|done|]. unfold padded_from. by replace (p * 13 - (k * 13 + 13))%nat with 0%nat by lia.
  - destruct (IH ltac:(lia) Hn0) as (I1 & I2 & I3 & I4 & I5 & I6).
    rewrite -> consume_record by (try done; try lia; right; rewrite -> I2, I3; split_and!; try done; lia).
    cbn [checksum expected_ parts active characters].
    rewrite -> (proj2 (Z.eqb_neq (Z.of_nat (S k)) (Z.of_nat p))) by lia. rewrite Ek.
    split; [done|]. split; [lia|]. split; [done|]. split; [done|].
    split; [rewrite -> length_patch; [done|rewrite -> length_fmap, length_seq; lia]|].
    apply padded_from_step; [lia|done|]. replace (k * 13 + 13)%nat with ((p - n) * 13)%nat by lia. exact I6.
Qed.

(** The units, then the padding, which ends the name. *)
Lemma padded_from_units utf16 n : (length utf16 <= n)%nat ->
  exists tail, padded_from utf16 0 n = utf16 ++ tail /\ forall acc, decode_units tail acc = (acc, true).
Proof.
  intros Hn. unfold padded_from. replace (n - 0)%nat with (length utf16 + (n - length utf16))%nat by lia.
  rewrite -> seq_app, fmap_app. exists (padded utf16 <$> seq (0 + length utf16) (n - length utf16)). split.
  - f_equal. apply list_eq. intros i. rewrite -> list_lookup_fmap. destruct (decide (i < length utf16)%nat) as [Hi|Hi].
    + rewrite -> lookup_seq_lt by done. cbn. unfold padded. by destruct (lookup_lt_is_Some_2 utf16 i Hi) as [x ->].
    + rewrite -> lookup_seq_ge, lookup_ge_None_2 by lia. done.
  - intros acc. destruct (n - length utf16)%nat; [done|]. cbn [seq fmap list_fmap decode_units]. unfold padded at 1.
    cbn [Nat.add]. by rewrite -> lookup_ge_None_2, Nat.eqb_refl by lia.
Qed.

Lemma long_parts_range utf16 : (1 <= length utf16 <= 255)%nat ->
  1 <= long_parts utf16 <= 20 /\ (length utf16 <= Z.to_nat (long_parts utf16) * 13)%nat.
Proof.
  intros H. unfold long_parts. rewrite Nat2Z.id. pose proof (Nat.div_mod (length utf16 + 12) 13 ltac:(lia)).
  pose proof (Nat.mod_upper_bound (length utf16 + 12) 13 ltac:(lia)). lia.
Qed.

(** C27: a name written as long-name records is read back as it was: every
    UTF-8 name the volume accepts becomes at most twenty records, and reading
    these in the order of the disk, whatever records came before, yields the
    bytes of the name and the checksum of the short name they belong to.  The
    exception is U+FFFF, which the code stores although it ends a name. *)
Theorem fat_long_name_round_trip name utf16 sum state :
  bytes_ok name -> decode_utf8_name name = Some utf16 -> ~ 0xffff ∈ utf16 -> in_u 8 sum ->
  Z.of_nat (length (long_records utf16 sum)) = long_parts utf16 /\ 1 <= long_parts utf16 <= 20 /\
  let s := consume_all (long_records utf16 sum) state in
  checksum s = sum /\ decode_long_name s = (name, true).
Proof.
  intros Hb H Hf Hs. unfold decode_utf8_name in H. destruct (Nat.eqb_spec (length name) 0) as [|Hne]; [done|].
  destruct (decode_utf8_loop (length name) name []) as [units|] eqn:E; [|done]. cbn [mbind option_bind] in H.
  destruct (decode_utf8_loop_spec _ _ _ _ E Hb ltac:(lia) ltac:(cbn; lia)) as (u & -> & Hl & Hn & Hu & Hd).
  cbn [app] in *. assert (utf16 = u) as -> by (destruct (last u) as [c|]; [destruct ((c =? 32) || (c =? 46)); congruence|done]).
  destruct (long_parts_range u ltac:(lia)) as [Hp Hfit].
  assert (length (long_records u sum) = Z.to_nat (long_parts u)) as Hlen by (unfold long_records; by rewrite -> length_fmap, length_seq).
  split; [lia|]. split; [done|]. cbv zeta.
  pose proof (consume_prefix u sum state (Z.to_nat (long_parts u)) Hu Hs ltac:(lia) ltac:(lia) ltac:(lia)) as (C1 & C2 & C3 & C4 & C5 & C6).
  rewrite -> take_ge in C1, C2, C3, C4, C5, C6 by lia. rewrite -> Nat.sub_diag in C2, C6.
  split; [done|]. unfold decode_long_name. rewrite -> C4, C2, C3, (proj2 (Z.eqb_neq (long_parts u) 0)) by lia. cbn [Z.of_nat Z.eqb negb andb].
  cbn [Nat.mul] in C6. rewrite -> drop_0, Nat.sub_0_r in C6.
  replace (Z.to_nat (long_parts u * 13)) with (Z.to_nat (long_parts u) * 13)%nat by lia. rewrite C6.
  destruct (padded_from_units u _ Hfit) as (tail & -> & Ht).
  rewrite -> Hd, Ht by (try done; unfold name_capacity; cbn; lia). cbn [app]. by rewrite -> (proj2 (Nat.eqb_neq _ 0)).
Qed.

Definition example_utf16 : list Z := default [] (decode_utf8_name example_name).

Lemma fat_long_name_round_trip_witness :
  Z.of_nat (length (long_records example_utf16 77)) = long_parts example_utf16 /\ 1 <= long_parts example_utf16 <= 20 /\
  let s := consume_all (long_records example_utf16 77) reset in
  checksum s = 77 /\ decode_long_name s = (example_name, true).
Proof.
  apply (fat_long_name_round_trip example_name example_utf16 77 reset).
  - apply Forall_forall. intros x Hx. repeat (apply elem_of_cons in Hx as [->|Hx]; [vm_compute; split; congruence|]). by apply not_elem_of_nil in Hx.
  - vm_compute. reflexivity.
  - assert (forallb (fun u => negb (u =? 0xffff)) example_utf16 = true) as H by (vm_compute; reflexivity).
    intros Hin%list_elem_of_In. rewrite -> forallb_forall in H. by apply H in Hin.
  - vm_compute. split; congruence.
Defined.

(** A name of U+FFFF alone is accepted and does not come back. *)
Lemma fat_name_ffff : decode_utf8_name [0xef; 0xbf; 0xbf] = Some [0xffff] /\
  decode_long_name (consume_all (long_records [0xffff] 77) reset) = ([], false).
Proof. vm_compute. done. Qed.
End FatNameLaws.
