(* ===== verification/Fat32.v ===== *)
(** * [drivers/fs/fat32/fat32.hpp]: the FAT32 volume

    [Volume] is a record with the device, the geometry, the allocation state
    and the sector buffer; a method is a state transformer on it.  A method
    with a [Node&] parameter works on the pair of the volume and that node. *)

From S2P Require Import Prelude Filesystem Fat32Name.
Import Fs FatName.
Local Open Scope Z_scope.

Module Fat32.

(** ** Data *)

Inductive NodeType := file | directory.
#[global] Instance node_type_eq : EqDecision NodeType.
Proof. solve_decision. Defined.

Record Node := mkNode { first_cluster : Z; size : Z; type : NodeType; attributes : Z; entry_offset : Z }.
#[global] Instance node_eta : Eta Node := fun n =>
  mkNode (first_cluster n) (size n) (type n) (attributes n) (entry_offset n).
Definition node_default : Node := mkNode 0 0 file 0 0.
Definition is_directory (n : Node) : bool := bool_decide (type n = directory).

Record Entry := mkEntry { entry_name : Name; short_name : Name; entry_node : Node }.

Record Geometry := mkGeometry {
  bytes_per_sector : Z; sectors_per_cluster : Z; bytes_per_cluster : Z; reserved_sectors : Z; fat_sectors : Z;
  fat_count : Z; active_fat : Z; first_data_sector : Z; cluster_count : Z; root_cluster : Z; total_sectors : Z;
  fs_info_sector : Z; mirror_fats : bool;
}.
#[global] Instance geometry_eta : Eta Geometry := fun g =>
  mkGeometry (bytes_per_sector g) (sectors_per_cluster g) (bytes_per_cluster g) (reserved_sectors g) (fat_sectors g)
    (fat_count g) (active_fat g) (first_data_sector g) (cluster_count g) (root_cluster g) (total_sectors g)
    (fs_info_sector g) (mirror_fats g).
Definition geometry_default : Geometry := mkGeometry 0 0 0 0 0 0 0 0 0 0 0 0 false.

Definition attribute_volume := 0x08.
Definition attribute_directory := 0x10.
Definition fat_mask := 0x0fffffff.
Definition bad_cluster := 0x0ffffff7.
Definition end_of_chain := 0x0ffffff8.
Definition reserved_cluster := 0x0ffffff0.

(** [bit] is set in [flags]. *)
Definition has (flags bit : Z) : bool := negb (Z.land flags bit =? 0).

Definition valid_cluster (g : Geometry) (cluster : Z) : bool := (2 <=? cluster) && (cluster <=? u32 (cluster_count g + 1)).
Definition cluster_byte_offset (g : Geometry) (cluster : Z) : Z :=
  let sector := u64 (first_data_sector g + u64 (u32 (cluster - 2) * sectors_per_cluster g)) in
  u64 (sector * bytes_per_sector g).
Definition clusters_for_size (g : Geometry) (size : Z) : Z :=
  if size =? 0 then 0 else 1 + (size - 1) / bytes_per_cluster g.
Definition root (g : Geometry) : Node := mkNode (root_cluster g) 0 directory attribute_directory 0.

(** [None] is the end of the chain. *)
Abbreviation ClusterLink := (option Z).

Section volume.
Context {D : Type} {device : Device D}.

Record Volume := mkVolume {
  device_ : D; geometry_ : Geometry; mounted_ : bool; fs_info_valid_ : bool; free_clusters_known_ : bool;
  free_clusters_ : Z; allocation_hint_ : Z; sector_ : list Z;
}.
#[global] Instance volume_eta : Eta Volume := fun v =>
  mkVolume (device_ v) (geometry_ v) (mounted_ v) (fs_info_valid_ v) (free_clusters_known_ v) (free_clusters_ v)
    (allocation_hint_ v) (sector_ v).
Definition volume_default (d : D) : Volume := mkVolume d geometry_default false false false 0 2 (replicate 4096 0).

(** ** Device access *)

(** [read_exact] into a local array and into [sector_]. *)
Definition read_local (offset size : Z) : io Volume (list Z) := fun v =>
  let '(d, data, e) := read_exact (device_ v) offset size in
  (v <| device_ := d |>, if decide (e = Error.none) then expected data else unexpected e).
Definition read_sector (offset size : Z) : io Volume unit := fun v =>
  let '(d, data, e) := read_exact (device_ v) offset size in
  (v <| device_ := d |> <| sector_ ::= fun b => patch b 0 data |>,
   if decide (e = Error.none) then expected tt else unexpected e).
Definition write_bytes (offset : Z) (data : list Z) : io Volume unit := fun v =>
  let '(d, e) := write_exact (device_ v) offset data in
  (v <| device_ := d |>, if decide (e = Error.none) then expected tt else unexpected e).
(** [sector_[0 .. size)] is written. *)
Definition write_sector (offset size : Z) : io Volume unit :=
  b ← gets sector_; write_bytes offset (take (Z.to_nat size) b).
Definition flush : io Volume unit := fun v =>
  let '(d, ok) := dev_flush (device_ v) in
  (v <| device_ := d |>, if ok : bool then expected tt else unexpected Error.io).
Definition set_sector (f : list Z -> list Z) : io Volume unit := modify (fun v => v <| sector_ ::= f |>).

(** ** Mounting *)

(** The fields of the boot sector; the last three are the 16-bit counts FAT32
    leaves at zero, the flags and the version. *)
Definition boot_fields (boot : list Z) (g : Geometry) : Geometry :=
  g <| bytes_per_sector := little_u16 boot 11 |> <| sectors_per_cluster := byte boot 13 |>
    <| reserved_sectors := little_u16 boot 14 |> <| fat_count := byte boot 16 |>
    <| total_sectors := little_u32 boot 32 |> <| fat_sectors := little_u32 boot 36 |>
    <| root_cluster := Z.land (little_u32 boot 44) fat_mask |> <| fs_info_sector := little_u16 boot 48 |>.

Definition malformed_boot (boot : list Z) (g : Geometry) : bool :=
  (negb (bytes_per_sector g =? 512) && negb (bytes_per_sector g =? 1024) && negb (bytes_per_sector g =? 2048) &&
   negb (bytes_per_sector g =? 4096)) ||
  negb (power_of_two (sectors_per_cluster g)) || (sectors_per_cluster g >? 128) || (reserved_sectors g =? 0) ||
  (fat_count g =? 0) || negb (little_u16 boot 17 =? 0) || negb (little_u16 boot 19 =? 0) ||
  negb (little_u16 boot 22 =? 0) || (total_sectors g =? 0) || (fat_sectors g =? 0) || negb (little_u16 boot 42 =? 0).

Definition set_geometry (f : Geometry -> Geometry) : io Volume unit := modify (fun v => v <| geometry_ ::= f |>).

(** The sizes computed from the fields. *)
Definition layout (boot : list Z) : io Volume unit :=
  set_geometry (fun g => g <| bytes_per_cluster := u32 (bytes_per_sector g * sectors_per_cluster g) |>);;
  g ← gets geometry_;
  stop_if (bytes_per_cluster g >? 32 * 1024) Error.unsupported;;
  let extended_flags := little_u16 boot 40 in
  set_geometry (fun g => g <| active_fat := if has extended_flags 0x80 then Z.land extended_flags 0x0f else 0 |>
                           <| mirror_fats := negb (has extended_flags 0x80) |>);;
  g ← gets geometry_;
  stop_if (active_fat g >=? fat_count g) Error.invalid_format;;
  let fat_region := u64 (fat_count g * fat_sectors g) in
  let metadata_sectors := u64 (reserved_sectors g + fat_region) in
  stop_if (metadata_sectors >=? total_sectors g) Error.invalid_format;;
  set_geometry (fun g => g <| first_data_sector := u32 metadata_sectors |>);;
  set_geometry (fun g => g <| cluster_count := u32 (total_sectors g - first_data_sector g) / sectors_per_cluster g |>);;
  g ← gets geometry_;
  stop_if ((cluster_count g <? 65525) || (cluster_count g >? reserved_cluster - 2)) Error.invalid_format;;
  let maximum_cluster := u32 (cluster_count g + 1) in
  stop_if ((root_cluster g <? 2) || (root_cluster g >? maximum_cluster)) Error.invalid_format;;
  let fat_bytes := u64 (fat_sectors g * bytes_per_sector g) in
  let required_fat_bytes := u64 (u32 (cluster_count g + 2) * 4) in
  let volume_bytes := u64 (total_sectors g * bytes_per_sector g) in
  device_size ← gets (fun v => dev_size (device_ v));
  stop_if ((fat_bytes <? required_fat_bytes) || (volume_bytes >? device_size)) Error.out_of_bounds.

Definition succeeded {A} (r : Result A) : bool := match r with expected _ => true | unexpected _ => false end.

(** The file-system information sector, if it can be read and is one. *)
Definition load_fs_info : io Volume unit :=
  g ← gets geometry_;
  if negb (fs_info_sector g =? 0xffff) && (fs_info_sector g <? reserved_sectors g) then
    done ← attempt (read_sector (u64 (fs_info_sector g * bytes_per_sector g)) (bytes_per_sector g));
    s ← gets sector_;
    if succeeded done && (little_u32 s 0 =? 0x41615252) && (little_u32 s 484 =? 0x61417272) &&
       (little_u32 s 508 =? 0xaa550000) then
      let free_count := little_u32 s 488 in
      let next_free := little_u32 s 492 in
      (if free_count <=? cluster_count g
       then modify (fun v => v <| free_clusters_ := free_count |> <| free_clusters_known_ := true |>) else mret tt);;
      (if (2 <=? next_free) && (next_free <=? u32 (cluster_count g + 1))
       then modify (fun v => v <| allocation_hint_ := next_free |>) else mret tt);;
      modify (fun v => v <| fs_info_valid_ := true |>)
    else mret tt
  else mret tt.

Definition initialize : io Volume unit :=
  read_sector 0 4096;;
  boot ← gets sector_;
  stop_if (negb (byte boot 510 =? 0x55) || negb (byte boot 511 =? 0xaa)) Error.invalid_format;;
  set_geometry (boot_fields boot);;
  g ← gets geometry_;
  stop_if (malformed_boot boot g) Error.invalid_format;;
  layout boot;;
  load_fs_info;;
  modify (fun v => v <| mounted_ := true |>).

(** The local volume and the result; the source returns the one or the other. *)
Definition mount (d : D) : Volume * Result unit := initialize (volume_default d).

(** ** The allocation table *)

Definition fat_offset (g : Geometry) (fat cluster : Z) : Z :=
  u64 (u64 (u64 (reserved_sectors g + u64 (fat * fat_sectors g)) * bytes_per_sector g) + u64 (cluster * 4)).

Definition fat_entry (cluster : Z) : io Volume Z :=
  g ← gets geometry_;
  stop_if (negb (valid_cluster g cluster)) Error.corrupt;;
  raw ← read_local (fat_offset g (active_fat g) cluster) 4;
  mret (Z.land (little_u32 raw 0) fat_mask).

(** A link that leads nowhere. *)
Definition bad_link (g : Geometry) (value : Z) : bool :=
  (value =? 0) || (value =? 1) || (value =? bad_cluster) || (value >=? reserved_cluster) || negb (valid_cluster g value).

Definition next_cluster (cluster : Z) : io Volume ClusterLink :=
  g ← gets geometry_;
  stop_if (negb (valid_cluster g cluster)) Error.corrupt;;
  raw ← read_local (fat_offset g (active_fat g) cluster) 4;
  let value := Z.land (little_u32 raw 0) fat_mask in
  if value >=? end_of_chain then mret None else
  stop_if (bad_link g value) Error.corrupt;;
  mret (Some value).

(** [next_cluster] where the chain must go on. *)
Definition follow (cluster : Z) : io Volume Z :=
  next ← next_cluster cluster;
  match next with Some c => mret c | None => fail Error.corrupt end.

(** One entry of one table: the four bits above the mask are kept. *)
Definition write_fat (fat cluster value : Z) : io Volume unit :=
  g ← gets geometry_;
  let offset := fat_offset g fat cluster in
  raw ← read_local offset 4;
  write_bytes offset (bytes32 (Z.lor (Z.land (little_u32 raw 0) 0xf0000000) (Z.land value fat_mask))).

Fixpoint write_fats (n : nat) (fat cluster value : Z) : io Volume unit :=
  match n with
  | O => mret tt
  | S n => write_fat fat cluster value;; write_fats n (fat + 1) cluster value
  end.

Definition write_fat_entry (cluster value : Z) : io Volume unit :=
  g ← gets geometry_;
  stop_if (negb (valid_cluster g cluster)) Error.corrupt;;
  let first_fat := if mirror_fats g then 0 else active_fat g in
  let fat_limit := if mirror_fats g then fat_count g else active_fat g + 1 in
  write_fats (Z.to_nat (fat_limit - first_fat)) first_fat cluster value.

(** *** Allocation *)

(** The sectors of a cluster zeroed from [sector_]. *)
Fixpoint zero_sectors (n : nat) (base sector : Z) : io Volume unit :=
  match n with
  | O => mret tt
  | S n =>
      g ← gets geometry_;
      write_sector (u64 (base + u64 (sector * bytes_per_sector g))) (bytes_per_sector g);;
      zero_sectors n base (sector + 1)
  end.

Definition after (g : Geometry) (cluster : Z) : Z := if cluster =? u32 (cluster_count g + 1) then 2 else cluster + 1.

(** A free cluster becomes a chain of its own, zeroed. *)
Definition claim_cluster (candidate : Z) : io Volume Z :=
  g ← gets geometry_;
  write_fat_entry candidate end_of_chain;;
  set_sector (fun b => patch b 0 (zero_bytes (bytes_per_sector g)));;
  zeroed ← attempt (zero_sectors (Z.to_nat (sectors_per_cluster g)) (cluster_byte_offset g candidate) 0);
  match zeroed with
  | unexpected e => attempt (write_fat_entry candidate 0);; fail e
  | expected _ =>
      modify (fun v => v <| allocation_hint_ := after g candidate |>);;
      modify (fun v => if free_clusters_known_ v && negb (free_clusters_ v =? 0)
                       then v <| free_clusters_ ::= fun n => n - 1 |> else v);;
      mret candidate
  end.

Fixpoint allocate_scan (n : nat) (candidate : Z) : io Volume Z :=
  match n with
  | O => fail Error.no_space
  | S n =>
      value ← fat_entry candidate;
      g ← gets geometry_;
      if value =? 0 then claim_cluster candidate else allocate_scan n (after g candidate)
  end.

Definition allocate_cluster : io Volume Z :=
  g ← gets geometry_; hint ← gets allocation_hint_;
  allocate_scan (Z.to_nat (cluster_count g)) (if valid_cluster g hint then hint else 2).

Fixpoint free_loop (n : nat) (cluster : Z) : io Volume unit :=
  match n with
  | O => fail Error.loop
  | S n =>
      value ← fat_entry cluster;
      write_fat_entry cluster 0;;
      modify (fun v => if free_clusters_known_ v && (free_clusters_ v <? cluster_count (geometry_ v))
                       then v <| free_clusters_ ::= fun n => n + 1 |> else v);;
      modify (fun v => if cluster <? allocation_hint_ v then v <| allocation_hint_ := cluster |> else v);;
      if value >=? end_of_chain then mret tt else
      g ← gets geometry_;
      stop_if (bad_link g value) Error.corrupt;;
      free_loop n value
  end.

Definition free_chain (first : Z) : io Volume unit :=
  if first =? 0 then mret tt else
  g ← gets geometry_; free_loop (Z.to_nat (cluster_count g)) first.

(** Linking the next cluster of a new chain; undone on failure. *)
Definition link (first last allocated : Z) : io Volume unit :=
  done ← attempt (write_fat_entry last allocated);
  match done with
  | unexpected e => attempt (write_fat_entry allocated 0);; attempt (free_chain first);; fail e
  | expected _ => mret tt
  end.

Fixpoint allocate_loop (n : nat) (first last : Z) : io Volume (Z * Z) :=
  match n with
  | O => mret (first, last)
  | S n =>
      allocated ← attempt allocate_cluster;
      match allocated with
      | unexpected e => (if first =? 0 then mret tt else attempt (free_chain first);; mret tt);; fail e
      | expected c =>
          if first =? 0 then allocate_loop n c c
          else link first last c;; allocate_loop n first c
      end
  end.

(** The first and the last cluster of a new chain of [count]. *)
Definition allocate_chain (count : Z) : io Volume (Z * Z) := allocate_loop (Z.to_nat count) 0 0.

Definition commit_fs_info : io Volume unit :=
  valid ← gets fs_info_valid_;
  if negb valid then flush else
  g ← gets geometry_;
  let offset := u64 (fs_info_sector g * bytes_per_sector g) in
  read_sector offset (bytes_per_sector g);;
  modify (fun v => if free_clusters_known_ v then v <| sector_ ::= fun s => put32 s 488 (free_clusters_ v) |> else v);;
  modify (fun v => v <| sector_ ::= fun s => put32 s 492 (allocation_hint_ v) |>);;
  write_sector offset (bytes_per_sector g);;
  flush.

(** ** Reading directories *)

(** A method run inside a visit, whose state also holds the visitor's; or
    beside a [Node&]. *)
Definition lift {A X} (m : io Volume X) : io (Volume * A) X := fun '(v, a) =>
  let '(v, r) := m v in ((v, a), r).

(** The names of a record, given the long-name records before it. *)
Definition decode_names (long_name : LongNameState) (raw : list Z) : Name * Name :=
  let short := decode_short_name raw in
  let '(long, valid) := decode_long_name long_name in
  if active long_name && (expected_ long_name =? 0) && (checksum long_name =? short_checksum raw) && valid
  then (long, short) else (short, short).

Definition decode_node (raw : list Z) (offset : Z) : Node :=
  mkNode (Z.land (Z.lor (u32 (Z.shiftl (little_u16 raw 20) 16)) (little_u16 raw 26)) fat_mask) (little_u32 raw 28)
    (if has (byte raw 11) attribute_directory then directory else file) (byte raw 11) offset.

(** The node of a record is out of the volume. *)
Definition bad_node (g : Geometry) (e : Entry) : bool :=
  let n := entry_node e in
  (negb (first_cluster n =? 0) && negb (valid_cluster g (first_cluster n))) ||
  (is_directory n && (first_cluster n =? 0) && negb (equals (entry_name e) (Some [dot; dot]) false)).

Section visit.
Context {A : Type} (visitor : A -> Entry -> A * bool).

Definition visit (entry : Entry) : io (Volume * A) bool := fun '(v, a) =>
  let '(a, more) := visitor a entry in ((v, a), expected more).

(** The records of a sector; [None] when the directory or the visit ends. *)
Fixpoint record_loop (n : nat) (base offset : Z) (long_name : LongNameState) : io (Volume * A) (option LongNameState) :=
  match n with
  | O => mret (Some long_name)
  | S n =>
      g ← gets (fun s => geometry_ s.1); s ← gets (fun s => sector_ s.1);
      let raw := slice s (Z.to_nat offset) 32 in
      if byte raw 0 =? 0 then mret None
      else if byte raw 0 =? 0xe5 then record_loop n base (offset + 32) reset
      else if byte raw 11 =? attribute_long_name then record_loop n base (offset + 32) (consume_long_entry raw long_name)
      else if has (byte raw 11) attribute_volume then record_loop n base (offset + 32) reset
      else
        let '(name, short) := decode_names long_name raw in
        let entry := mkEntry name short (decode_node raw (u64 (base + offset))) in
        stop_if (bad_node g entry) Error.corrupt;;
        more ← visit entry;
        if more : bool then record_loop n base (offset + 32) reset else mret None
  end.

Fixpoint sector_loop (n : nat) (cluster_offset sector : Z) (long_name : LongNameState) : io (Volume * A) (option LongNameState) :=
  match n with
  | O => mret (Some long_name)
  | S n =>
      g ← gets (fun s => geometry_ s.1);
      let base := u64 (cluster_offset + u64 (sector * bytes_per_sector g)) in
      lift (read_sector base (bytes_per_sector g));;
      l ← record_loop (Z.to_nat (bytes_per_sector g / 32)) base 0 long_name;
      match l with Some l => sector_loop n cluster_offset (sector + 1) l | None => mret None end
  end.

Fixpoint cluster_loop (n : nat) (cluster : Z) (long_name : LongNameState) : io (Volume * A) unit :=
  match n with
  | O => fail Error.loop
  | S n =>
      g ← gets (fun s => geometry_ s.1);
      l ← sector_loop (Z.to_nat (sectors_per_cluster g)) (cluster_byte_offset g cluster) 0 long_name;
      match l with
      | None => mret tt
      | Some l =>
          next ← lift (next_cluster cluster);
          match next with Some c => cluster_loop n c l | None => mret tt end
      end
  end.

Definition for_each (directory_node : Node) : io (Volume * A) unit :=
  m ← gets (fun s => mounted_ s.1); g ← gets (fun s => geometry_ s.1);
  stop_if (negb m) Error.invalid_argument;;
  stop_if (negb (is_directory directory_node)) Error.not_directory;;
  stop_if (negb (valid_cluster g (first_cluster directory_node))) Error.corrupt;;
  cluster_loop (Z.to_nat (cluster_count g)) (first_cluster directory_node) reset.
End visit.

(** [for_each] with a visitor that starts in [a]; the error and the visitor. *)
Definition visiting {A} (directory_node : Node) (visitor : A -> Entry -> A * bool) (a : A) : io Volume A := fun v =>
  let '((v, a), r) := for_each visitor directory_node (v, a) in
  (v, match r with expected _ => expected a | unexpected e => unexpected e end).

Definition match_name (name : list Z) (found : option Node) (entry : Entry) : option Node * bool :=
  if equals (entry_name entry) (Some name) true || equals (short_name entry) (Some name) true
  then (Some (entry_node entry), false) else (found, true).

Definition lookup (directory_node : Node) (name : option (list Z)) : io Volume Node :=
  match name with
  | None | Some [] => fail Error.invalid_argument
  | Some name =>
      found ← visiting directory_node (match_name name) None;
      match found with Some node => mret node | None => fail Error.not_found end
  end.

Fixpoint lookup_components (fuel : nat) (current : Node) (path : list Z) : io Volume Node :=
  match fuel with
  | O => mret current
  | S fuel =>
      match path with
      | [] => mret current
      | _ =>
          let '(name, rest) := component path in
          stop_if (name_capacity <? length name)%nat Error.invalid_argument;;
          let rest := skip_slashes rest in
          if bool_decide (name = [dot]) then lookup_components fuel current rest else
          stop_if (bool_decide (name = [dot; dot])) Error.unsupported;;
          stop_if (negb (is_directory current)) Error.not_directory;;
          child ← lookup current (Some name);
          lookup_components fuel child rest
      end
  end.

Definition lookup_path (path : option (list Z)) : io Volume Node :=
  m ← gets mounted_; g ← gets geometry_;
  match path with
  | None => fail Error.invalid_argument
  | Some path =>
      stop_if (negb m) Error.invalid_argument;;
      lookup_components (S (length path)) (root g) (skip_slashes path)
  end.

(** The parent directory and the last component of a path. *)
Definition resolve_parent (path : option (list Z)) : io Volume (Node * list Z) :=
  m ← gets mounted_; g ← gets geometry_;
  match path with
  | None => fail Error.invalid_argument
  | Some path =>
      stop_if (negb m) Error.invalid_argument;;
      stop_if (name_capacity <? length path)%nat Error.invalid_argument;;
      let length := back_while (fun c => c =? slash) path (length path) in
      stop_if (length =? 0)%nat Error.invalid_argument;;
      let leaf_start := back_while (fun c => negb (c =? slash)) path length in
      let leaf := slice path leaf_start (length - leaf_start) in
      stop_if ((length - leaf_start =? 0)%nat || bool_decide (leaf = [dot]) || bool_decide (leaf = [dot; dot]))
        Error.invalid_argument;;
      if (leaf_start =? 0)%nat || ((leaf_start =? 1)%nat && (byte path 0 =? slash)) then mret (root g, leaf) else
      let parent_size := S (back_while (fun c => c =? slash) (drop 1 path) (leaf_start - 1)) in
      found ← lookup_path (Some (take parent_size path));
      stop_if (negb (is_directory found)) Error.not_directory;;
      mret (found, leaf)
  end.

(** ** Reading files *)

(** Skipping clusters; [traversed] counts the links followed. *)
Fixpoint skip_loop (n : nat) (cluster traversed : Z) : io Volume (Z * Z) :=
  match n with
  | O => mret (cluster, traversed)
  | S n =>
      g ← gets geometry_;
      stop_if (traversed + 1 >? cluster_count g) Error.loop;;
      next ← follow cluster;
      skip_loop n next (traversed + 1)
  end.

Fixpoint read_loop (fuel : nat) (cluster within remaining traversed : Z) (output : list Z) : io Volume (list Z) :=
  match fuel with
  | O => mret output
  | S fuel =>
      if remaining =? 0 then mret output else
      g ← gets geometry_;
      let available_in_cluster := bytes_per_cluster g - within in
      let count := if remaining <? available_in_cluster then remaining else available_in_cluster in
      data ← read_local (u64 (cluster_byte_offset g cluster + within)) count;
      let output := output ++ data in
      let remaining := remaining - count in
      if remaining =? 0 then mret output else
      stop_if (traversed + 1 >? cluster_count g) Error.loop;;
      next ← follow cluster;
      read_loop fuel next 0 remaining (traversed + 1) output
  end.

(** [null]: the output pointer is null. *)
Definition read (node : Node) (offset : Z) (null : bool) (count : Z) : io Volume (list Z) :=
  m ← gets mounted_; g ← gets geometry_;
  stop_if (negb m || (null && negb (count =? 0))) Error.invalid_argument;;
  stop_if (is_directory node) Error.is_directory;;
  if (offset >=? size node) || (count =? 0) then mret [] else
  let available := size node - offset in
  let remaining := if count >? available then available else count in
  stop_if (negb (remaining =? 0) && negb (valid_cluster g (first_cluster node))) Error.corrupt;;
  '(cluster, traversed) ← skip_loop (Z.to_nat (offset / bytes_per_cluster g)) (first_cluster node) 0;
  read_loop (S (Z.to_nat remaining)) cluster (offset mod bytes_per_cluster g) remaining traversed [].

Definition read_path (path : option (list Z)) (offset : Z) (null : bool) (count : Z) : io Volume (list Z) :=
  node ← lookup_path path; read node offset null count.

Definition file_size (path : option (list Z)) : io Volume Z :=
  node ← lookup_path path;
  if is_directory node then fail Error.is_directory else mret (size node).

(** ** Writing files *)

(** [next] taken [n] times. *)
Fixpoint walk (n : nat) (cluster : Z) : io Volume Z :=
  match n with
  | O => mret cluster
  | S n => next ← follow cluster; walk n next
  end.

(** Zeros from [sector_] over [left] bytes at [target]. *)
Fixpoint zero_within (fuel : nat) (target left : Z) : io Volume unit :=
  match fuel with
  | O => mret tt
  | S fuel =>
      if left =? 0 then mret tt else
      g ← gets geometry_;
      let count := Z.min left (bytes_per_sector g) in
      write_sector target count;;
      zero_within fuel (u64 (target + count)) (left - count)
  end.

Fixpoint zero_loop (fuel : nat) (cluster within remaining : Z) : io Volume unit :=
  match fuel with
  | O => mret tt
  | S fuel =>
      if remaining =? 0 then mret tt else
      g ← gets geometry_;
      let cluster_count := Z.min (bytes_per_cluster g - within) remaining in
      zero_within (S (Z.to_nat cluster_count)) (u64 (cluster_byte_offset g cluster + within)) cluster_count;;
      let remaining := remaining - cluster_count in
      if remaining =? 0 then mret tt else
      next ← follow cluster;
      zero_loop fuel next 0 remaining
  end.

Definition zero_file_range (first offset count : Z) : io Volume unit :=
  if count =? 0 then mret tt else
  g ← gets geometry_;
  stop_if (negb (valid_cluster g first)) Error.corrupt;;
  set_sector (fun b => patch b 0 (zero_bytes (bytes_per_sector g)));;
  cluster ← walk (Z.to_nat (offset / bytes_per_cluster g)) first;
  zero_loop (S (Z.to_nat count)) cluster (offset mod bytes_per_cluster g) count.

(** The cluster and the size of a record, in bytes [20 .. 32). *)
Definition encode_metadata (first size : Z) (raw : list Z) : list Z :=
  let raw := put16 raw 0 (Z.shiftr first 16) in
  let raw := put16 raw 6 first in
  put32 raw 8 size.

Definition write_node_metadata (node : Node) (first size : Z) : io Volume unit :=
  stop_if (entry_offset node =? 0) Error.invalid_argument;;
  raw ← read_local (u64 (entry_offset node + 20)) 12;
  write_bytes (u64 (entry_offset node + 20)) (encode_metadata first size raw).

(** Truncation works on the caller's node. *)
Definition set_node (f : Node -> Node) : io (Volume * Node) unit := modify (fun s => (s.1, f s.2)).

(** [body], and on failure [undo], whose own error is ignored. *)
Definition or_undo {S : Type} (body undo : io S unit) : io S unit :=
  done ← attempt body;
  match done with
  | expected _ => mret tt
  | unexpected e => attempt undo;; fail e
  end.

(** The clusters stay; new bytes in the last one are zeroed. *)
Definition resize_in_place (new_size : Z) : io (Volume * Node) unit :=
  node ← gets snd;
  (if new_size >? size node
   then lift (zero_file_range (first_cluster node) (size node) (new_size - size node)) else mret tt);;
  lift (write_node_metadata node (first_cluster node) new_size);;
  set_node (fun n => n <| size := new_size |>);;
  lift flush.

Definition make_empty : io (Volume * Node) unit :=
  node ← gets snd;
  lift (write_node_metadata node 0 0);;
  lift flush;;
  set_node (fun n => n <| first_cluster := 0 |> <| size := 0 |>);;
  lift (free_chain (first_cluster node));;
  lift commit_fs_info.

Definition make_chain (new_clusters new_size : Z) : io (Volume * Node) unit :=
  node ← gets snd;
  '(first, _) ← lift (allocate_chain new_clusters);
  lift (or_undo (flush;; write_node_metadata node first new_size;; flush) (free_chain first));;
  set_node (fun n => n <| first_cluster := first |> <| size := new_size |>);;
  lift commit_fs_info.

Definition extend_chain (last_kept added new_size : Z) : io (Volume * Node) unit :=
  node ← gets snd;
  '(added_first, _) ← lift (allocate_chain added);
  lift (or_undo
    (flush;; write_fat_entry last_kept added_first;; flush;;
     zero_file_range (first_cluster node) (size node) (new_size - size node);;
     write_node_metadata node (first_cluster node) new_size;; flush)
    (attempt (write_fat_entry last_kept end_of_chain);; free_chain added_first));;
  set_node (fun n => n <| size := new_size |>);;
  lift commit_fs_info.

Definition cut_chain (last_kept new_size : Z) : io (Volume * Node) unit :=
  node ← gets snd;
  tail ← lift (follow last_kept);
  lift (write_fat_entry last_kept end_of_chain);;
  lift (write_node_metadata node (first_cluster node) new_size);;
  lift flush;;
  lift (free_chain tail);;
  set_node (fun n => n <| size := new_size |>);;
  lift commit_fs_info.

Definition truncate (new_size : Z) : io (Volume * Node) unit :=
  m ← gets (fun s => mounted_ s.1); g ← gets (fun s => geometry_ s.1); node ← gets snd;
  stop_if (negb m) Error.invalid_argument;;
  stop_if (is_directory node) Error.is_directory;;
  stop_if ((entry_offset node =? 0) && negb (new_size =? size node)) Error.invalid_argument;;
  let old_clusters := clusters_for_size g (size node) in
  let new_clusters := clusters_for_size g new_size in
  if old_clusters =? new_clusters then resize_in_place new_size
  else if new_clusters =? 0 then make_empty
  else if old_clusters =? 0 then make_chain new_clusters new_size
  else
    last_kept ← lift (walk (Z.to_nat (Z.min old_clusters new_clusters - 1)) (first_cluster node));
    if new_clusters >? old_clusters then extend_chain last_kept (new_clusters - old_clusters) new_size
    else cut_chain last_kept new_size.

Fixpoint write_loop (fuel : nat) (cluster within : Z) (input : list Z) : io Volume unit :=
  match fuel with
  | O => mret tt
  | S fuel =>
      let remaining := Z.of_nat (length input) in
      if remaining =? 0 then mret tt else
      g ← gets geometry_;
      let count := Z.min remaining (bytes_per_cluster g - within) in
      write_bytes (u64 (cluster_byte_offset g cluster + within)) (take (Z.to_nat count) input);;
      if remaining - count =? 0 then mret tt else
      next ← follow cluster;
      write_loop fuel next 0 (drop (Z.to_nat count) input)
  end.

Definition write (offset : Z) (input : option (list Z)) (count : Z) : io (Volume * Node) Z :=
  m ← gets (fun s => mounted_ s.1); g ← gets (fun s => geometry_ s.1); node ← gets snd;
  stop_if (negb m || (bool_decide (input = None) && negb (count =? 0)) || (offset >? 0xffffffff) ||
           (count >? 0xffffffff - offset)) Error.invalid_argument;;
  stop_if (is_directory node) Error.is_directory;;
  if count =? 0 then mret 0 else
  let end_ := offset + count in
  (if end_ >? size node then truncate end_ else mret tt);;
  node ← gets snd;
  cluster ← lift (walk (Z.to_nat (offset / bytes_per_cluster g)) (first_cluster node));
  lift (write_loop (S (Z.to_nat count)) cluster (offset mod bytes_per_cluster g) (take (Z.to_nat count) (default [] input)));;
  lift flush;;
  mret count.

(** A method with a [Node&] called on a local node. *)
Definition on_node {X} (m : io (Volume * Node) X) (node : Node) : Volume -> Volume * Node * Result X := fun v =>
  m (v, node).

(** ** Directory records *)

Definition upper (value : Z) : Z := if (97 <=? value) && (value <=? 122) then u8 (value - 32) else value.
(** The character of a short name, if it may have it. *)
Definition alias_char (value : Z) : option Z :=
  let value := upper value in
  if ((65 <=? value) && (value <=? 90)) || ((48 <=? value) && (value <=? 57)) || (value =? 95) then Some value else None.

(** The index of the last dot. *)
Fixpoint last_dot (name : list Z) (index : nat) : option nat :=
  match name with
  | [] => None
  | c :: name => match last_dot name (S index) with
                 | Some d => Some d
                 | None => if c =? dot then Some index else None
                 end
  end.

Definition alias_base (name : list Z) : list Z :=
  let base_end := default (length name) (last_dot name 0) in
  let base := take 6 (omap alias_char (take base_end name)) in
  if (length base =? 0)%nat then [95] else base.
Definition alias_extension (name : list Z) : list Z :=
  match last_dot name 0 with
  | Some d => take 3 (omap alias_char (drop (S d) name))
  | None => []
  end.

(** The alias number [sequence]: its extension is written last. *)
Definition alias_candidate (name : list Z) (sequence : Z) : list Z :=
  let base := alias_base name in
  let n := length base in
  let alias := patch (replicate 11 space) 0 base in
  let alias := <[n := 126]> alias in
  let alias :=
    if sequence <? 10 then <[(n + 1)%nat := u8 (48 + sequence)]> alias
    else <[(n + 2)%nat := u8 (48 + sequence mod 10)]> (<[(n + 1)%nat := u8 (48 + sequence / 10)]> alias) in
  patch alias 8 (alias_extension name).

(** What is before the first dot and from it on. *)
Fixpoint split_dot (name : list Z) : list Z * list Z :=
  match name with
  | [] => ([], [])
  | c :: rest => if c =? dot then ([], name) else let '(a, b) := split_dot rest in (c :: a, b)
  end.

(** The eleven bytes of a short name as it is listed. *)
Definition existing_alias (short : Name) : list Z :=
  let '(base, extension) := split_dot short in
  patch (replicate 8 space) 0 (upper <$> take 8 base) ++ patch (replicate 3 space) 0 (take 3 (drop 1 extension)).

Definition collides (alias : list Z) (_ : bool) (entry : Entry) : bool * bool :=
  let collision := bool_decide (existing_alias (short_name entry) = alias) in (collision, negb collision).

Fixpoint alias_loop (n : nat) (sequence : Z) (directory_node : Node) (name : list Z) : io Volume (list Z) :=
  match n with
  | O => fail Error.no_space
  | S n =>
      let alias := alias_candidate name sequence in
      collision ← visiting directory_node (collides alias) false;
      if collision : bool then alias_loop n (sequence + 1) directory_node name else mret alias
  end.

Definition make_short_alias (directory_node : Node) (name : list Z) : io Volume (list Z) :=
  alias_loop 99 1 directory_node name.

(** The slots of one cluster: the run of free ones so far, and whether it is
    long enough. *)
Fixpoint free_slots (n : nat) (base slot : Z) (needed : nat) (offsets : list Z) : io Volume (list Z * bool) :=
  match n with
  | O => mret (offsets, false)
  | S n =>
      let offset := u64 (base + slot * 32) in
      raw ← read_local offset 1;
      let marker := byte raw 0 in
      if (marker =? 0) || (marker =? 0xe5) then
        stop_if (length offsets =? 21)%nat Error.no_space;;
        let offsets := offsets ++ [offset] in
        if (length offsets =? needed)%nat then mret (offsets, true) else free_slots n base (slot + 1) needed offsets
      else free_slots n base (slot + 1) needed []
  end.

(** A cluster added to a directory whose last one is [cluster]. *)
Definition grow_directory (cluster : Z) : io Volume Z :=
  added ← allocate_cluster;
  or_undo (flush;; write_fat_entry cluster added;; flush) (write_fat_entry added 0);;
  mret added.

Fixpoint find_slots_loop (n : nat) (cluster : Z) (needed : nat) (offsets : list Z) : io Volume (list Z) :=
  match n with
  | O => fail Error.loop
  | S n =>
      g ← gets geometry_;
      '(offsets, found) ← free_slots (Z.to_nat (bytes_per_cluster g / 32)) (cluster_byte_offset g cluster) 0 needed offsets;
      if found : bool then mret offsets else
      next ← next_cluster cluster;
      match next with
      | Some c => find_slots_loop n c needed offsets
      | None => added ← grow_directory cluster; find_slots_loop n added needed offsets
      end
  end.

Definition find_free_directory_slots (directory_node : Node) (needed : Z) : io Volume (list Z) :=
  stop_if (negb (is_directory directory_node) || (needed =? 0) || (needed >? 21)) Error.invalid_argument;;
  g ← gets geometry_;
  find_slots_loop (Z.to_nat (cluster_count g)) (first_cluster directory_node) (Z.to_nat needed) [].

(** Records written one after the other to the slots found. *)
Fixpoint write_records (records : list (list Z)) (offsets : list Z) : io Volume unit :=
  match records, offsets with
  | raw :: records, offset :: offsets => write_bytes offset raw;; write_records records offsets
  | _, _ => mret tt
  end.

(** The short record of a node. *)
Definition short_record (alias : list Z) (node : Node) : list Z :=
  let raw := patch (replicate 32 0) 0 alias in
  let raw := <[11%nat := attributes node]> raw in
  let raw := put16 raw 20 (Z.shiftr (first_cluster node) 16) in
  let raw := put16 raw 26 (first_cluster node) in
  put32 raw 28 (size node).

(** [node.entry_offset] as it is set comes back. *)
Definition insert_directory_record (directory_node : Node) (name : list Z) (node : Node) : io Volume Z :=
  match decode_utf8_name name with
  | None => fail Error.invalid_argument
  | Some utf16 =>
      alias ← make_short_alias directory_node name;
      let parts := long_parts utf16 in
      offsets ← find_free_directory_slots directory_node (parts + 1);
      write_records (long_records utf16 (short_checksum alias)) offsets;;
      flush;;
      let offset := default 0 (offsets !! Z.to_nat parts) in
      write_bytes offset (short_record alias node);;
      flush;;
      mret offset
  end.

(** The slots of one cluster: [Some] offset list to go on, [None] once the
    record is erased. *)
Fixpoint erase_slots (n : nat) (base slot entry_offset : Z) (long_offsets : list Z) : io Volume (option (list Z)) :=
  match n with
  | O => mret (Some long_offsets)
  | S n =>
      let offset := u64 (base + slot * 32) in
      header ← read_local offset 14;
      stop_if (byte header 0 =? 0) Error.not_found;;
      if byte header 0 =? 0xe5 then erase_slots n base (slot + 1) entry_offset []
      else if byte header 11 =? attribute_long_name then
        erase_slots n base (slot + 1) entry_offset
          (if (length long_offsets =? 20)%nat then [] else long_offsets ++ [offset])
      else if offset =? entry_offset then
        write_records (replicate (length long_offsets) [0xe5]) long_offsets;;
        write_bytes offset [0xe5];;
        mret None
      else erase_slots n base (slot + 1) entry_offset []
  end.

Fixpoint erase_loop (n : nat) (cluster entry_offset : Z) (long_offsets : list Z) : io Volume unit :=
  match n with
  | O => fail Error.loop
  | S n =>
      g ← gets geometry_;
      l ← erase_slots (Z.to_nat (bytes_per_cluster g / 32)) (cluster_byte_offset g cluster) 0 entry_offset long_offsets;
      match l with
      | None => mret tt
      | Some l =>
          next ← next_cluster cluster;
          match next with Some c => erase_loop n c entry_offset l | None => fail Error.not_found end
      end
  end.

Definition erase_directory_record (directory_node : Node) (entry_offset : Z) : io Volume unit :=
  stop_if (negb (is_directory directory_node) || (entry_offset =? 0)) Error.invalid_argument;;
  g ← gets geometry_;
  erase_loop (Z.to_nat (cluster_count g)) (first_cluster directory_node) entry_offset [].

(** ** Names *)

Definition must_be_absent (parent : Node) (name : list Z) : io Volume unit :=
  existing ← attempt (lookup parent (Some name));
  match existing with
  | expected _ => fail Error.already_exists
  | unexpected e => stop_if (negb (bool_decide (e = Error.not_found))) e
  end.

(** The content of a new file, or its removal. *)
Definition fill (parent node : Node) (input : option (list Z)) (count : Z) : io Volume unit := fun v =>
  match on_node (write 0 input count) node v with
  | (v, _, expected _) => (v, expected tt)
  | (v, node, unexpected e) =>
      (attempt (erase_directory_record parent (entry_offset node));;
       (if negb (first_cluster node =? 0) then attempt (free_chain (first_cluster node));; mret tt else mret tt);;
       fail e) v
  end.

Definition create (path : option (list Z)) (input : option (list Z)) (count : Z) : io Volume unit :=
  stop_if ((bool_decide (input = None) && negb (count =? 0)) || bool_decide (path = None)) Error.invalid_argument;;
  '(parent, leaf) ← resolve_parent path;
  must_be_absent parent leaf;;
  let node := node_default <| attributes := 0x20 |> in
  offset ← insert_directory_record parent leaf node;
  if count =? 0 then mret tt else fill parent (node <| entry_offset := offset |>) input count.

Definition is_other (nonempty : bool) (entry : Entry) : bool * bool :=
  if negb (equals (entry_name entry) (Some [dot]) false) && negb (equals (entry_name entry) (Some [dot; dot]) false)
  then (true, false) else (nonempty, true).

Definition remove (path : option (list Z)) : io Volume unit :=
  '(parent, leaf) ← resolve_parent path;
  found ← lookup parent (Some leaf);
  (if is_directory found then
     nonempty ← visiting found is_other false;
     stop_if nonempty Error.unsupported
   else mret tt);;
  erase_directory_record parent (entry_offset found);;
  flush;;
  free_chain (first_cluster found);;
  commit_fs_info.

Definition move (source destination : option (list Z)) : io Volume unit :=
  '(source_parent, source_leaf) ← resolve_parent source;
  '(destination_parent, destination_leaf) ← resolve_parent destination;
  source_node ← lookup source_parent (Some source_leaf);
  must_be_absent destination_parent destination_leaf;;
  insert_directory_record destination_parent destination_leaf (source_node <| entry_offset := 0 |>);;
  erase_directory_record source_parent (entry_offset source_node);;
  flush.

(** The copying loop of [concatenate], a sector at a time through [sector_]. *)
Fixpoint concatenate_loop (fuel : nat) (origin : Node) (target_size source_size copied : Z) : io (Volume * Node) unit :=
  match fuel with
  | O => mret tt
  | S fuel =>
      if negb (copied <? source_size) then mret tt else
      g ← gets (fun s => geometry_ s.1);
      let count := Z.min (source_size - copied) (bytes_per_sector g) in
      data ← lift (read origin copied false count);
      lift (set_sector (fun b => patch b 0 data));;
      stop_if (negb (Z.of_nat (length data) =? count)) Error.io;;
      s ← gets (fun s => sector_ s.1);
      n ← write (u32 (target_size + copied)) (Some s) count;
      stop_if (negb (n =? count)) Error.io;;
      concatenate_loop fuel origin target_size source_size (copied + count)
  end.

Definition append_file (target origin : Node) : io Volume unit := fun v =>
  let '(v, _, r) := on_node (truncate (size target + size origin);;
                             concatenate_loop (S (Z.to_nat (size origin))) origin (size target) (size origin) 0) target v in
  (v, r).

Definition concatenate (destination source : option (list Z)) : io Volume unit :=
  target ← attempt (lookup_path destination);
  origin ← attempt (lookup_path source);
  target ← of_result target;
  origin ← of_result origin;
  stop_if (is_directory target || is_directory origin) Error.is_directory;;
  stop_if ((size target >? 0xffffffff) || (size origin >? 0xffffffff - size target)) Error.no_space;;
  append_file target origin.

Definition consistent : Volume -> Volume * bool := fun v =>
  let g := geometry_ v in
  if negb (mounted_ v) || negb (valid_cluster g (root_cluster g)) then (v, false) else
  match fat_entry (root_cluster g) v with
  | (v, unexpected _) => (v, false)
  | (v, expected link) =>
      if (link =? 0) || (link =? bad_cluster) then (v, false) else
      let '(v, r) := visiting (root g) (fun (_ : unit) _ => (tt, true)) tt v in (v, succeeded r)
  end.
End volume.
#[global] Arguments Volume D : clear implicits.
End Fat32.
