(* ===== verification/Fat32Image.v ===== *)
(** * A small FAT32 image

    The smallest volume that counts as FAT32: 65525 clusters of one sector of
    512 bytes, two tables, an information sector and an empty root directory
    in cluster 2. *)

From S2P Require Import Prelude Filesystem Fat32Name Fat32.
Import Fs Fat32.
Local Open Scope Z_scope.

Module Fat32Image.

Definition put (l : list Z) (at_ : nat) (data : list Z) : list Z := patch l at_ data.

Definition boot : list Z :=
  let b := replicate 512 0 in
  let b := put b 11 (bytes16 512) in
  let b := put b 13 [1] in
  let b := put b 14 (bytes16 32) in
  let b := put b 16 [2] in
  let b := put b 32 (bytes32 66581) in
  let b := put b 36 (bytes32 512) in
  let b := put b 44 (bytes32 2) in
  let b := put b 48 (bytes16 1) in
  put b 510 [0x55; 0xaa].

Definition information : list Z :=
  let b := replicate 512 0 in
  let b := put b 0 (bytes32 0x41615252) in
  let b := put b 484 (bytes32 0x61417272) in
  let b := put b 488 (bytes32 65524) in
  let b := put b 492 (bytes32 3) in
  put b 508 (bytes32 0xaa550000).

Definition table : list Z := bytes32 0x0ffffff8 ++ bytes32 0x0fffffff ++ bytes32 0x0fffffff.

Definition image : Sparse := mkSparse (66581 * 512)
  [(0, boot); (512, information); (32 * 512, table); ((32 + 512) * 512, table)].

Definition volume : Volume Sparse := (mount image).1.

Example fat_image_mounts : (mount image).2 = expected tt /\ cluster_count (geometry_ volume) = 65525 /\ (consistent volume).2 = true.
Proof. vm_compute. done. Qed.

(** "/Hello world.txt" *)
Definition path : list Z := [47; 72; 101; 108; 108; 111; 32; 119; 111; 114; 108; 100; 46; 116; 120; 116].
Definition content : list Z := (fun i => Z.of_nat i mod 251) <$> seq 0 1200.
Definition created : Volume Sparse := (create (Some path) (Some content) 1200 volume).1.

Example create_read : (create (Some path) (Some content) 1200 volume).2 = expected tt /\
  (read_path (Some path) 100 false 2000 created).2 = expected (drop 100 content) /\
  (create (Some path) None 0 created).2 = unexpected Error.already_exists /\
  free_clusters_ created = 65521.
Proof. vm_compute. done. Qed.

Definition removed : Volume Sparse := (remove (Some path) created).1.

Example remove_frees : (remove (Some path) created).2 = expected tt /\
  (lookup_path (Some path) removed).2 = unexpected Error.not_found /\ free_clusters_ removed = 65524.
Proof. vm_compute. done. Qed.
(** A base of six characters leaves no room for the second digit of an alias:
    with an extension the alias number ten is the alias number one again. *)
Definition long_base : list Z := [65; 66; 67; 68; 69; 70; 71; 46; 84; 88; 84].
Example alias_ten_is_one : alias_candidate long_base 10 = alias_candidate long_base 1 /\
  alias_candidate long_base 99 = alias_candidate long_base 9.
Proof. vm_compute. done. Qed.
End Fat32Image.
