(* ===== verification/Fat32Laws.v ===== *)
(** * The FAT32 volume: its type, the tables and the chains

    [volume_ok] is the type of a mounted volume.  The allocation table is a
    function from clusters to values, a chain the list of the clusters it
    leads through. *)

From S2P Require Import Prelude Ethernet Filesystem Fat32Name Fat32.
Import Fs Fat32.
Local Open Scope Z_scope.

Module Fat32Laws.

(** ** Well-formed volumes *)

(** What [mount] establishes of the geometry on a device of [n] bytes. *)
Record geometry_ok (g : Geometry) (n : Z) : Prop := {
  ok_sector : exists k, 0 <= k <= 3 /\ bytes_per_sector g = 512 * 2 ^ k;
  ok_cluster : 1 <= sectors_per_cluster g <= 128;
  ok_bytes_per_cluster : bytes_per_cluster g = bytes_per_sector g * sectors_per_cluster g /\ bytes_per_cluster g <= 32768;
  ok_reserved : 0 < reserved_sectors g < 2 ^ 16;
  ok_fats : 0 < fat_count g < 2 ^ 8 /\ 0 < fat_sectors g < 2 ^ 32;
  ok_active : 0 <= active_fat g < fat_count g /\ (mirror_fats g = true -> active_fat g = 0);
  ok_first_data : first_data_sector g = reserved_sectors g + fat_count g * fat_sectors g;
  ok_total : first_data_sector g < total_sectors g < 2 ^ 32;
  ok_clusters : 65525 <= cluster_count g <= reserved_cluster - 2;
  ok_data : first_data_sector g + cluster_count g * sectors_per_cluster g <= total_sectors g;
  ok_root : 2 <= root_cluster g <= cluster_count g + 1;
  ok_table : (cluster_count g + 2) * 4 <= fat_sectors g * bytes_per_sector g;
  ok_device : total_sectors g * bytes_per_sector g <= n;
  ok_fs_info : 0 <= fs_info_sector g < 2 ^ 16;
}.

Lemma sector_range g n : geometry_ok g n -> 512 <= bytes_per_sector g <= 4096 /\ (32 | bytes_per_sector g).
Proof.
  intros H. destruct (ok_sector _ _ H) as (k & Hk & ->).
  assert (k = 0 \/ k = 1 \/ k = 2 \/ k = 3) as [->|[->|[->| ->]]] by lia; (split; [cbn; lia|]).
  - by exists 16.
  - by exists 32.
  - by exists 64.
  - by exists 128.
Qed.

(** Where the parts of the volume lie. *)
Definition table_start (g : Geometry) (fat : Z) : Z := (reserved_sectors g + fat * fat_sectors g) * bytes_per_sector g.
Definition data_start (g : Geometry) : Z := first_data_sector g * bytes_per_sector g.
Definition cluster_start (g : Geometry) (cluster : Z) : Z := data_start g + (cluster - 2) * bytes_per_cluster g.

Lemma valid_cluster_iff g n c : geometry_ok g n -> valid_cluster g c = true <-> 2 <= c <= cluster_count g + 1.
Proof.
  intros H. pose proof (ok_clusters _ _ H) as Hc. unfold reserved_cluster in Hc. unfold valid_cluster.
  rewrite -> wrap_small by word. rewrite -> andb_true_iff, !Z.leb_le. done.
Qed.

(** An entry of a table lies in that table, before the data. *)
Lemma entry_bounds g n fat c : geometry_ok g n -> 0 <= fat < fat_count g -> 2 <= c <= cluster_count g + 1 -> n < 2 ^ 64 ->
  fat_offset g fat c = table_start g fat + c * 4 /\ 0 < table_start g fat /\
  table_start g fat + c * 4 + 4 <= table_start g (fat + 1) /\ table_start g (fat + 1) <= data_start g /\ data_start g <= n.
Proof.
  intros H Hf Hc Hn. pose proof (sector_range _ _ H) as [Hs _]. destruct H as [_ _ _ H1 [H2 H3] _ H4 H5 _ _ _ H6 H7 _].
  unfold table_start, data_start, fat_offset in *.
  assert (fat * fat_sectors g + fat_sectors g <= fat_count g * fat_sectors g).
  { pose proof (Z.mul_le_mono_nonneg_r (fat + 1) (fat_count g) (fat_sectors g)). lia. }
  assert (0 <= fat * fat_sectors g) by (apply Z.mul_nonneg_nonneg; lia).
  assert (first_data_sector g * bytes_per_sector g <= n).
  { pose proof (Z.mul_le_mono_nonneg_r (first_data_sector g) (total_sectors g) (bytes_per_sector g)). lia. }
  assert ((reserved_sectors g + fat * fat_sectors g) * bytes_per_sector g + fat_sectors g * bytes_per_sector g <= first_data_sector g * bytes_per_sector g).
  { rewrite <- Z.mul_add_distr_r. apply Z.mul_le_mono_nonneg_r; lia. }
  assert (0 < (reserved_sectors g + fat * fat_sectors g) * bytes_per_sector g) by (apply Z.mul_pos_pos; lia).
  rewrite -> (wrap_small 64 (fat * _)), (wrap_small 64 (reserved_sectors g + _)), (wrap_small 64 (_ * bytes_per_sector g)),
    (wrap_small 64 (c * 4)), (wrap_small 64 (_ + _)) by (unfold in_u; lia).
  split; [done|]. split; [done|]. split; [lia|]. split; [|done]. rewrite -> H4. apply Z.mul_le_mono_nonneg_r; lia.
Qed.

(** A cluster lies in the data region. *)
Lemma cluster_bounds g n c : geometry_ok g n -> 2 <= c <= cluster_count g + 1 -> n < 2 ^ 64 ->
  cluster_byte_offset g c = cluster_start g c /\ data_start g <= cluster_start g c /\ cluster_start g c + bytes_per_cluster g <= n.
Proof.
  intros H Hc Hn. pose proof (sector_range _ _ H) as [Hs _]. destruct H as [_ Hspc [Hbpc _] H1 [H2 H3] _ H4 H5 H8 H9 _ H6 H7 _].
  unfold reserved_cluster in H8. unfold cluster_byte_offset, cluster_start, data_start. rewrite Hbpc.
  assert ((c - 2) * sectors_per_cluster g + sectors_per_cluster g <= cluster_count g * sectors_per_cluster g).
  { pose proof (Z.mul_le_mono_nonneg_r (c - 2 + 1) (cluster_count g) (sectors_per_cluster g)). lia. }
  assert (0 <= (c - 2) * sectors_per_cluster g) by (apply Z.mul_nonneg_nonneg; lia).
  assert (0 < fat_count g * fat_sectors g) by (apply Z.mul_pos_pos; lia).
  pose proof (Z.mul_le_mono_nonneg_r (first_data_sector g + (c - 2) * sectors_per_cluster g + sectors_per_cluster g) (total_sectors g) (bytes_per_sector g)).
  assert (0 <= (first_data_sector g + (c - 2) * sectors_per_cluster g) * bytes_per_sector g) by (apply Z.mul_nonneg_nonneg; lia).
  rewrite -> (wrap_small 32 (c - 2)), (wrap_small 64 (_ * sectors_per_cluster g)), (wrap_small 64 (first_data_sector g + _)),
    (wrap_small 64 (_ * bytes_per_sector g)) by word.
  split; [lia|]. split; [|lia].
  pose proof (Z.mul_nonneg_nonneg (c - 2) (bytes_per_sector g * sectors_per_cluster g)). lia.
Qed.

Section laws.
Context {D : Type} {device : Device D} {laws : DeviceLaws D}.

Definition bytes (v : Volume D) : Z -> Z := contents (device_ v).

Record volume_ok (v : Volume D) : Prop := {
  volume_good : good (device_ v);
  volume_sector : length (sector_ v) = 4096%nat /\ bytes_ok (sector_ v);
  volume_mounted : mounted_ v = true;
  volume_geometry : geometry_ok (geometry_ v) (dev_size (device_ v));
  volume_hint : 2 <= allocation_hint_ v <= cluster_count (geometry_ v) + 1;
  volume_free : free_clusters_known_ v = true -> 0 <= free_clusters_ v <= cluster_count (geometry_ v);
  volume_fs_info : fs_info_valid_ v = true -> fs_info_sector (geometry_ v) < reserved_sectors (geometry_ v);
}.

Lemma fat_device_size_word v : volume_ok v -> dev_size (device_ v) < 2 ^ 64.
Proof. intros H. apply (size_word (device_ v)), volume_good, H. Qed.

(** Why a transfer inside the device fails. *)
Definition io_failure (v : Volume D) (e : Error) : Prop := e = Error.io /\ ~ reliable (device_ v).

(** ** Reading *)

Definition reads_only (v v' : Volume D) : Prop :=
  same_bytes (device_ v) (device_ v') /\ geometry_ v' = geometry_ v /\ mounted_ v' = mounted_ v /\
  fs_info_valid_ v' = fs_info_valid_ v /\ free_clusters_known_ v' = free_clusters_known_ v /\
  free_clusters_ v' = free_clusters_ v /\ allocation_hint_ v' = allocation_hint_ v /\ sector_ v' = sector_ v.

Lemma fat_reads_only_refl v : good (device_ v) -> reads_only v v.
Proof. intros H. split; [by apply same_bytes_refl|done]. Qed.
Lemma fat_reads_only_trans v1 v2 v3 : reads_only v1 v2 -> reads_only v2 v3 -> reads_only v1 v3.
Proof.
  intros (A1 & A2 & A3 & A4 & A5 & A6 & A7 & A8) (B1 & B2 & B3 & B4 & B5 & B6 & B7 & B8).
  split; [by eapply same_bytes_trans|]. by rewrite -> B2, B3, B4, B5, B6, B7, B8.
Qed.
Lemma fat_reads_only_ok v v' : reads_only v v' -> volume_ok v -> volume_ok v'.
Proof.
  intros ((Hg & Hz & _) & A2 & A3 & A4 & A5 & A6 & A7 & A8) [H1 H2 H3 H4 H5 H6 H7].
  constructor; [done|..]; by rewrite -> ?A2, ?A3, ?A4, ?A5, ?A6, ?A7, ?A8, ?Hz.
Qed.
Lemma fat_reads_only_bytes v v' o : reads_only v v' -> bytes v' o = bytes v o.
Proof. intros ((_ & _ & _ & H) & _). apply H. Qed.
Lemma fat_reads_only_bytes_at v v' o n : reads_only v v' -> bytes_at (bytes v') o n = bytes_at (bytes v) o n.
Proof. intros H. apply bytes_at_ext. intros i _. by apply fat_reads_only_bytes. Qed.
Lemma fat_reads_only_geometry v v' : reads_only v v' -> geometry_ v' = geometry_ v.
Proof. by intros (_ & ? & _). Qed.
Lemma fat_io_failure_mono v v' e : reads_only v v' -> io_failure v' e -> io_failure v e.
Proof. intros ((_ & _ & H & _) & _) [-> Hn]. split; [done|]. intros ?. by apply Hn, H. Qed.

Lemma fat_read_local_spec v offset size :
  good (device_ v) -> 0 <= offset -> 0 <= size < 2 ^ 32 -> offset + size <= dev_size (device_ v) ->
  wp (read_local offset size) v (fun v' r => reads_only v v' /\
    match r with
    | expected data => data = bytes_at (bytes v) offset (Z.to_nat size)
    | unexpected e => io_failure v e
    end).
Proof.
  intros Hg Ho Hs Hb. unfold wp, read_local.
  pose proof (read_exact_spec (device_ v) offset size Hg Ho Hs) as L.
  destruct (read_exact (device_ v) offset size) as [[d data] e]. destruct L as [Hd He]. cbn.
  split; [by split|]. destruct e; cbn; try done; [by destruct He|by destruct He|lia].
Qed.

(** ** The table and its chains *)

Definition table_value (g : Geometry) (f : Z -> Z) (fat c : Z) : Z :=
  Z.land (little_u32 (bytes_at f (table_start g fat + c * 4) 4) 0) fat_mask.
(** The value of [c] in the table in use. *)
Definition fat_value (g : Geometry) (f : Z -> Z) (c : Z) : Z := table_value g f (active_fat g) c.

(** [l] is the chain from [c]. *)
Fixpoint chain (g : Geometry) (f : Z -> Z) (c : Z) (l : list Z) : Prop :=
  match l with
  | [] => False
  | d :: l =>
      d = c /\ 2 <= c <= cluster_count g + 1 /\
      match l with
      | [] => end_of_chain <= fat_value g f c
      | next :: _ => 2 <= next <= cluster_count g + 1 /\ fat_value g f c = next /\ chain g f next l
      end
  end.

Lemma fat_entry_spec v c : volume_ok v -> 2 <= c <= cluster_count (geometry_ v) + 1 ->
  wp (fat_entry c) v (fun v' r => reads_only v v' /\
    match r with expected value => value = fat_value (geometry_ v) (bytes v) c | unexpected e => io_failure v e end).
Proof.
  intros Hv Hc. pose proof (volume_geometry v Hv) as Hg. unfold fat_entry. apply wp_bind, wp_gets, wp_bind, wp_stop_if;
    rewrite -> (proj2 (valid_cluster_iff _ _ c Hg)) by done; [done|intros _].
  destruct (ok_active _ _ Hg) as [Ha _].
  destruct (entry_bounds _ _ _ _ Hg Ha Hc (fat_device_size_word v Hv)) as (E & B1 & B2 & B3 & B4).
  apply wp_bind. eapply wp_mono; [apply fat_read_local_spec; [apply Hv|rewrite E; lia|lia|rewrite E; lia]|].
  intros v' [raw|e] [Hr Hd]; [|done]. split; [done|]. subst raw. rewrite E. done.
Qed.

Lemma next_cluster_spec v c : volume_ok v -> 2 <= c <= cluster_count (geometry_ v) + 1 ->
  wp (next_cluster c) v (fun v' r => reads_only v v' /\
    match r with
    | expected None => end_of_chain <= fat_value (geometry_ v) (bytes v) c
    | expected (Some n) => 2 <= n <= cluster_count (geometry_ v) + 1 /\ fat_value (geometry_ v) (bytes v) c = n
    | unexpected e => io_failure v e \/
        (e = Error.corrupt /\ fat_value (geometry_ v) (bytes v) c < end_of_chain /\
         ~ 2 <= fat_value (geometry_ v) (bytes v) c <= cluster_count (geometry_ v) + 1)
    end).
Proof.
  intros Hv Hc. pose proof (volume_geometry v Hv) as Hg. unfold next_cluster. apply wp_bind, wp_gets, wp_bind, wp_stop_if;
    rewrite -> (proj2 (valid_cluster_iff _ _ c Hg)) by done; [done|intros _].
  destruct (ok_active _ _ Hg) as [Ha _].
  destruct (entry_bounds _ _ _ _ Hg Ha Hc (fat_device_size_word v Hv)) as (E & B1 & B2 & B3 & B4).
  apply wp_bind. eapply wp_mono; [apply fat_read_local_spec; [apply Hv|rewrite E; lia|lia|rewrite E; lia]|].
  intros v' [raw|e] [Hr Hd]; [|by split; [|left]]. subst raw. rewrite E.
  match goal with |- context [Z.land ?x fat_mask] => change (Z.land x fat_mask) with (fat_value (geometry_ v) (bytes v) c) end.
  set (value := fat_value (geometry_ v) (bytes v) c). pose proof (ok_clusters _ _ Hg) as Hcc.
  unfold reserved_cluster, end_of_chain in *.
  destruct (Z.geb_spec value 0x0ffffff8); [by apply wp_ret|].
  apply wp_bind, wp_stop_if; unfold bad_link, bad_cluster, reserved_cluster; intros Hb.
  - split; [done|]. right. split; [done|]. split; [done|]. intros Hval.
    rewrite -> (proj2 (valid_cluster_iff _ _ value Hg)), Z.geb_leb, (proj2 (Z.leb_gt _ value)), !(proj2 (Z.eqb_neq value _)) in Hb by lia. done.
  - apply wp_ret. split; [done|]. apply orb_false_iff in Hb as [_ Hb%negb_false_iff]. by apply (valid_cluster_iff _ _ _ Hg) in Hb.
Qed.

(** One step along a chain. *)
Lemma follow_chain v c next l : volume_ok v -> chain (geometry_ v) (bytes v) c (c :: next :: l) ->
  wp (follow c) v (fun v' r => reads_only v v' /\ match r with expected n => n = next | unexpected e => io_failure v e end).
Proof.
  intros Hv (_ & Hc & Hn & Hf & _). unfold follow. apply wp_bind. eapply wp_mono; [by apply next_cluster_spec|].
  pose proof (ok_clusters _ _ (volume_geometry v Hv)) as Hcc. unfold reserved_cluster, end_of_chain in *.
  intros v' [[n|]|e] [Hr H].
  - apply wp_ret. split; [done|]. destruct H. congruence.
  - lia.
  - split; [done|]. destruct H as [H|(_ & _ & H)]; [done|]. lia.
Qed.

Lemma chain_ext g f f' c l : (forall d, d ∈ l -> fat_value g f' d = fat_value g f d) -> chain g f c l -> chain g f' c l.
Proof.
  revert c. induction l as [|d l IH]; intros c H; [done|]. cbn [chain]. intros (-> & Hc & Hl). split; [done|]. split; [done|].
  rewrite -> H by left. destruct l as [|next l]; [done|]. destruct Hl as (Hn & Hv & Hl). split; [done|]. split; [done|].
  apply IH; [|done]. intros x Hx. apply H. by right.
Qed.

Lemma fat_value_ext g f f' c : (forall o, f' o = f o) -> fat_value g f' c = fat_value g f c.
Proof. intros H. unfold fat_value, table_value. by rewrite -> (bytes_at_ext f' f) by (intros; apply H). Qed.

Lemma chain_reads_only v v' c l : reads_only v v' -> chain (geometry_ v) (bytes v) c l -> chain (geometry_ v') (bytes v') c l.
Proof.
  intros H. rewrite -> (fat_reads_only_geometry _ _ H). apply chain_ext. intros d _. apply fat_value_ext. intros o. by apply fat_reads_only_bytes.
Qed.

Lemma chain_tail g f c next l : chain g f c (c :: next :: l) -> chain g f next (next :: l).
Proof. by intros (_ & _ & _ & _ & H). Qed.

Lemma chain_head g f c l : chain g f c l -> exists t, l = c :: t.
Proof. destruct l as [|d l]; [done|]. intros (-> & _). by eexists. Qed.

Lemma chain_valid g f c l d : chain g f c l -> d ∈ l -> 2 <= d <= cluster_count g + 1.
Proof.
  revert c. induction l as [|x l IH]; intros c; [done|]. intros (-> & Hc & Hl) [->|Hd]%elem_of_cons; [done|].
  destruct l as [|next l]; [by apply not_elem_of_nil in Hd|]. eapply IH; [apply Hl|done].
Qed.

(** The chain from a cluster is determined by the table ... *)
Lemma chain_unique g f l1 : forall l2 c, cluster_count g <= reserved_cluster - 2 -> chain g f c l1 -> chain g f c l2 -> l1 = l2.
Proof.
  induction l1 as [|d1 l1 IH]; intros l2 c Hcc; [done|]. destruct l2 as [|d2 l2]; [done|].
  intros (-> & H1 & K1) (-> & _ & K2). f_equal. unfold reserved_cluster, end_of_chain in *.
  destruct l1 as [|n1 l1], l2 as [|n2 l2]; [done|lia|lia|]. destruct K1 as (_ & E1 & C1), K2 as (_ & E2 & C2).
  assert (n2 = n1) as -> by congruence. by eapply IH.
Qed.

Lemma chain_suffix g f l1 : forall c l2 d, chain g f c (l1 ++ d :: l2) -> chain g f d (d :: l2).
Proof.
  induction l1 as [|x l1 IH]; intros c l2 d; cbn [app chain].
  - intros (<- & H). by split.
  - intros (-> & Hc & H). destruct (l1 ++ d :: l2) as [|next l] eqn:E; [by destruct l1|].
    eapply (IH next). rewrite E. apply H.
Qed.

(** ... so it visits no cluster twice, and is not longer than the volume. *)
Lemma chain_nodup g f l : forall c, cluster_count g <= reserved_cluster - 2 -> chain g f c l -> NoDup l.
Proof.
  induction l as [|d l IH]; intros c Hcc H; [done|]. apply NoDup_cons. split.
  - intros Hin. apply list_elem_of_split in Hin as (l1 & l2 & ->). destruct H as [-> H].
    pose proof (chain_suffix g f (c :: l1) c l2 c (conj eq_refl H)) as K.
    pose proof (chain_unique g f _ _ c Hcc (conj eq_refl H : chain g f c (c :: l1 ++ c :: l2)) K) as E.
    apply (f_equal length) in E. cbn in E. rewrite -> length_app in E. cbn in E. lia.
  - destruct H as (_ & _ & H). destruct l as [|next l]; [apply NoDup_nil_2|]. eapply (IH next); [done|apply H].
Qed.

Lemma chain_length g f c l : 0 <= cluster_count g <= reserved_cluster - 2 -> chain g f c l -> Z.of_nat (length l) <= cluster_count g.
Proof.
  intros Hcc H. pose proof (chain_nodup g f l c ltac:(lia) H) as Hnd.
  assert (l ⊆+ seqZ 2 (cluster_count g)) as Hs.
  { apply NoDup_submseteq; [done|]. intros d Hd. apply elem_of_seqZ. pose proof (chain_valid _ _ _ _ _ H Hd). lia. }
  apply submseteq_length in Hs. rewrite -> length_seqZ in Hs. lia.
Qed.
End laws.
End Fat32Laws.
