(* ===== verification/Fat32Mount.v ===== *)
(** * Mounting a FAT32 volume

    Whatever bytes the device holds, [mount] either refuses them or yields a
    well-formed volume. *)

From S2P Require Import Prelude Ethernet Filesystem Fat32Name Fat32 Fat32Image Fat32Laws.
Import Fs Fat32 Fat32Laws Fat32Image.
Local Open Scope Z_scope.

Module Fat32Mount.
Section mount.
Context {D : Type} {device : Device D} {laws : DeviceLaws D}.

(** The volume while it is being mounted over [d]. *)
Record mounting (d : D) (v : Volume D) : Prop := {
  mounting_device : same_bytes d (device_ v);
  mounting_off : mounted_ v = false;
  mounting_sector : length (sector_ v) = 4096%nat /\ bytes_ok (sector_ v);
  mounting_info : fs_info_valid_ v = false /\ free_clusters_known_ v = false /\ allocation_hint_ v = 2;
}.

Lemma read_sector_spec v offset size :
  good (device_ v) -> length (sector_ v) = 4096%nat /\ bytes_ok (sector_ v) -> 0 <= offset -> 0 <= size <= 4096 ->
  wp (read_sector offset size) v (fun v' _ => exists d s, v' = v <| device_ := d |> <| sector_ := s |> /\
    same_bytes (device_ v) d /\ length s = 4096%nat /\ bytes_ok s).
Proof.
  intros Hg [Hl Hb] Ho Hs. unfold wp, read_sector.
  pose proof (read_exact_spec (device_ v) offset size Hg Ho ltac:(lia)) as L.
  pose proof (read_exact_received (device_ v) offset size Hg Ho ltac:(lia)) as Hrec.
  destruct (read_exact (device_ v) offset size) as [[d data] e]. destruct L as [Hd He], Hrec as [Hlen Hdb]. cbn -[patch] in Hlen, Hdb |- *.
  eexists d, (patch (sector_ v) 0 data). split; [done|]. split; [done|]. split; [rewrite -> length_patch; [done|lia]|by apply bytes_ok_patch].
Qed.

(** A stage that only updates the geometry. *)
Definition stage (d : D) (P Q : Geometry -> Prop) (m : io (Volume D) unit) : Prop :=
  forall v, mounting d v -> P (geometry_ v) -> wp m v (fun v' r => mounting d v' /\
    match r with expected _ => Q (geometry_ v') | unexpected _ => True end).

Lemma fat_stage_set d (P Q : Geometry -> Prop) f : (forall g, P g -> Q (f g)) -> stage d P Q (set_geometry f).
Proof. intros H v [H1 H2 H3 H4] Hp. apply wp_modify. split; [by split|]. by apply H. Qed.
Lemma fat_stage_bind d (P Q R : Geometry -> Prop) m k : stage d P Q m -> stage d Q R k -> stage d P R (m;; k).
Proof.
  intros Hm Hk v Hv Hp. apply wp_bind. eapply wp_mono; [by apply Hm|]. intros v' [_|e] [Hv' Hq]; [by apply Hk|by split].
Qed.
Lemma fat_stage_gets d (P Q : Geometry -> Prop) (k : Geometry -> io (Volume D) unit) :
  (forall g, P g -> stage d (fun g' => g' = g) Q (k g)) -> stage d P Q (g ← gets geometry_; k g).
Proof. intros H v Hv Hp. apply wp_bind, wp_gets. by apply (H (geometry_ v)). Qed.
Lemma fat_stage_stop d (P Q : Geometry -> Prop) b e : (b = false -> forall g, P g -> Q g) -> stage d P Q (stop_if b e).
Proof. intros H v Hv Hp. apply wp_stop_if; intros E; split; [done|done|done|by apply H]. Qed.

(** What the checks of the boot sector establish. *)
Record fields_ok (g : Geometry) : Prop := {
  fields_sector : exists k, 0 <= k <= 3 /\ bytes_per_sector g = 512 * 2 ^ k;
  fields_cluster : 1 <= sectors_per_cluster g <= 128;
  fields_reserved : 0 < reserved_sectors g < 2 ^ 16;
  fields_fats : 0 < fat_count g < 2 ^ 8 /\ 0 < fat_sectors g < 2 ^ 32;
  fields_total : 0 < total_sectors g < 2 ^ 32;
  fields_root : 0 <= root_cluster g;
  fields_info : 0 <= fs_info_sector g < 2 ^ 16;
}.

Lemma boot_fields_values boot g : let g' := boot_fields boot g in
  bytes_per_sector g' = little_u16 boot 11 /\ sectors_per_cluster g' = byte boot 13 /\ reserved_sectors g' = little_u16 boot 14 /\
  fat_count g' = byte boot 16 /\ total_sectors g' = little_u32 boot 32 /\ fat_sectors g' = little_u32 boot 36 /\
  root_cluster g' = Z.land (little_u32 boot 44) fat_mask /\ fs_info_sector g' = little_u16 boot 48.
Proof. done. Qed.

Lemma boot_fields_ok boot g : bytes_ok boot -> malformed_boot boot (boot_fields boot g) = false -> fields_ok (boot_fields boot g).
Proof.
  intros Hb H. destruct (boot_fields_values boot g) as (E1 & E2 & E3 & E4 & E5 & E6 & E7 & E8).
  generalize dependent (boot_fields boot g). intros f H E1 E2 E3 E4 E5 E6 E7 E8.
  unfold malformed_boot in H. rewrite -> !orb_false_iff, !negb_false_iff in H.
  destruct H as ((((((((((H1 & H2) & H3) & H4) & H5) & H6) & H7) & H8) & H9) & H10) & H11).
  pose proof (little_u16_in_u boot 14 Hb) as B1. pose proof (byte_in_u boot 16 Hb) as B2. pose proof (little_u32_in_u boot 32 Hb) as B3.
  pose proof (little_u32_in_u boot 36 Hb) as B4. pose proof (little_u16_in_u boot 48 Hb) as B5. pose proof (byte_in_u boot 13 Hb) as B6.
  pose proof (little_u32_in_u boot 44 Hb) as B7.
  rewrite <- E3 in B1. rewrite <- E4 in B2. rewrite <- E5 in B3. rewrite <- E6 in B4. rewrite <- E8 in B5. rewrite <- E2 in B6.
  rewrite -> Z.gtb_ltb, Z.ltb_ge in H3. unfold power_of_two in H2. apply andb_prop in H2 as [H2%negb_true_iff _].
  rewrite -> ?Z.eqb_neq in *. unfold in_u in *. constructor; try lia.
  - rewrite -> !andb_false_iff, !negb_false_iff, !Z.eqb_eq in H1.
    destruct H1 as [[[E|E]|E]|E]; rewrite E; [exists 0|exists 1|exists 2|exists 3]; lia.
  - rewrite E7. apply Z.land_nonneg. lia.
Qed.

Lemma layout_stage d boot : good d -> bytes_ok boot ->
  stage d fields_ok (fun g => geometry_ok g (dev_size d)) (layout boot).
Proof.
  intros Hd Hb. unfold layout.
  apply (fat_stage_bind _ _ (fun g => fields_ok g /\ bytes_per_cluster g = bytes_per_sector g * sectors_per_cluster g)).
  { apply fat_stage_set. intros g [H1 H2 H3 H4 H5 H6 H7]. split; [by split|]. cbn. apply wrap_small.
    destruct H1 as (k & Hk & ->). assert (k = 0 \/ k = 1 \/ k = 2 \/ k = 3) as [->|[->|[->| ->]]] by lia; cbn; word. }
  apply fat_stage_gets. intros g1 [F1 E1]. apply (fat_stage_bind _ _ (fun g => g = g1 /\ bytes_per_cluster g <= 32768)).
  { apply fat_stage_stop. intros H g ->. rewrite -> Z.gtb_ltb in H. by apply Z.ltb_ge in H. }
  cbn zeta. set (flags := little_u16 boot 40).
  apply (fat_stage_bind _ _ (fun g => fields_ok g /\ bytes_per_cluster g = bytes_per_sector g * sectors_per_cluster g /\ bytes_per_cluster g <= 32768 /\
    0 <= active_fat g /\ (mirror_fats g = true -> active_fat g = 0))).
  { apply fat_stage_set. intros g [-> Hle]. split; [by destruct F1; split|]. split; [done|]. split; [done|]. cbn.
    destruct (has flags 0x80); [|done]. split; [apply Z.land_nonneg; lia|done]. }
  clear g1 F1 E1. apply fat_stage_gets. intros g1 (F1 & E1 & E2 & E3 & E4). apply (fat_stage_bind _ _ (fun g => g = g1 /\ active_fat g1 < fat_count g1)).
  { apply fat_stage_stop. intros H g ->. rewrite -> Z.geb_leb in H. by apply Z.leb_gt in H. }
  pose proof F1 as [G1 G2 G3 [G4 G5] G6 G7 G8].
  assert (0 < fat_count g1 * fat_sectors g1 < 2 ^ 40) as Hfr by nia.
  rewrite -> (wrap_small 64 (fat_count g1 * _)), (wrap_small 64 (_ + _)) by word.
  apply (fat_stage_bind _ _ (fun g => g = g1 /\ active_fat g1 < fat_count g1 /\ reserved_sectors g1 + fat_count g1 * fat_sectors g1 < total_sectors g1)).
  { apply fat_stage_stop. intros H g [-> ?]. rewrite -> Z.geb_leb in H. by apply Z.leb_gt in H. }
  set (fd := reserved_sectors g1 + _) in *.
  apply (fat_stage_bind _ _ (fun g => g = g1 <| first_data_sector := fd |> /\ active_fat g1 < fat_count g1 /\ fd < total_sectors g1)).
  { apply fat_stage_set. intros g (-> & ? & ?). rewrite -> wrap_small by word. done. }
  apply (fat_stage_bind _ _ (fun g => g = g1 <| first_data_sector := fd |> <| cluster_count := (total_sectors g1 - fd) / sectors_per_cluster g1 |> /\
    active_fat g1 < fat_count g1 /\ fd < total_sectors g1)).
  { apply fat_stage_set. intros g (-> & ? & ?). cbn. rewrite -> wrap_small by word. done. }
  set (cc := _ / sectors_per_cluster g1).
  apply fat_stage_gets. intros g (Eg0 & L1 & L2).
  assert (bytes_per_sector g = bytes_per_sector g1 /\ sectors_per_cluster g = sectors_per_cluster g1 /\ bytes_per_cluster g = bytes_per_cluster g1 /\
    reserved_sectors g = reserved_sectors g1 /\ fat_sectors g = fat_sectors g1 /\ fat_count g = fat_count g1 /\ active_fat g = active_fat g1) as
    (A1 & A2 & A3 & A4 & A5 & A6 & A7) by (by rewrite Eg0).
  assert (first_data_sector g = fd /\ cluster_count g = cc /\ root_cluster g = root_cluster g1 /\ total_sectors g = total_sectors g1 /\
    fs_info_sector g = fs_info_sector g1 /\ mirror_fats g = mirror_fats g1) as (A8 & A9 & A10 & A11 & A12 & A13) by (by rewrite Eg0).
  clear Eg0. assert (0 <= cc < 2 ^ 32) as Hcc32.
  { split; [apply Z.div_pos; lia|]. apply Z.div_lt_upper_bound; nia. }
  intros v Hv Eg. apply wp_bind, wp_stop_if; [by split|]. intros [S1%Z.ltb_ge S2]%orb_false_iff. rewrite -> Z.gtb_ltb, Z.ltb_ge in S2.
  rewrite -> A9 in *. unfold reserved_cluster in S2. rewrite -> (wrap_small 32 (cc + 1)), (wrap_small 32 (cc + 2)), (wrap_small 64 (_ * 4)) by word.
  destruct G1 as (k & Hk & Ek).
  assert (512 <= bytes_per_sector g1 <= 4096) as Hbps.
  { rewrite Ek. assert (k = 0 \/ k = 1 \/ k = 2 \/ k = 3) as [->|[->|[->| ->]]] by lia; cbn; lia. }
  apply wp_bind, wp_stop_if; [by split|]. intros [R1%Z.ltb_ge R2]%orb_false_iff. rewrite -> Z.gtb_ltb, Z.ltb_ge in R2.
  apply wp_bind, wp_gets, wp_stop_if; [by split|]. intros [T1%Z.ltb_ge T2]%orb_false_iff. rewrite -> Z.gtb_ltb, Z.ltb_ge in T2.
  rewrite -> A1, A5, A11, !(wrap_small 64) in * by (unfold in_u; nia).
  split; [done|]. rewrite Eg. destruct Hv as [(_ & Hsz & _) _ _ _]. rewrite Hsz in T2.
  pose proof (Z.mul_div_le (total_sectors g1 - fd) (sectors_per_cluster g1) ltac:(lia)) as Hcc. fold cc in Hcc.
  constructor; rewrite -> ?A1, ?A2, ?A3, ?A4, ?A5, ?A6, ?A7, ?A8, ?A9, ?A10, ?A11, ?A12, ?A13; try done; try lia.
  by exists k.
Qed.

Lemma load_fs_info_spec d v : good d -> mounting d v -> geometry_ok (geometry_ v) (dev_size d) ->
  wp load_fs_info v (fun v' r => (same_bytes d (device_ v') /\ volume_ok (v' <| mounted_ := true |>)) /\ r = expected tt).
Proof.
  intros Hd [H1 H2 H3 (H4 & H5 & H6)] Hg. pose proof H1 as (Hgood & Hsz & _). pose proof (ok_clusters _ _ Hg) as Hcc.
  unfold reserved_cluster in Hcc. pose proof (ok_fs_info _ _ Hg) as Hfi. destruct (sector_range _ _ Hg) as [Hbps _].
  assert (forall (w : Volume D), same_bytes d (device_ w) -> length (sector_ w) = 4096%nat /\ bytes_ok (sector_ w) -> geometry_ w = geometry_ v ->
    2 <= allocation_hint_ w <= cluster_count (geometry_ v) + 1 ->
    (free_clusters_known_ w = true -> 0 <= free_clusters_ w <= cluster_count (geometry_ v)) ->
    (fs_info_valid_ w = true -> fs_info_sector (geometry_ v) < reserved_sectors (geometry_ v)) ->
    same_bytes d (device_ w) /\ volume_ok (w <| mounted_ := true |>)) as Hok.
  { intros w W1 W2 W3 W4 W5 W6. split; [done|]. destruct W1 as (G1 & G2 & _). constructor; cbn; rewrite -> ?W3, ?G2; done. }
  unfold load_fs_info. apply wp_bind, wp_gets. destruct (negb (fs_info_sector (geometry_ v) =? 0xffff)); cbn [andb].
  2: { apply wp_ret. split; [|done]. by apply Hok; rewrite -> ?H4, ?H5, ?H6; try lia. }
  destruct (Z.ltb_spec (fs_info_sector (geometry_ v)) (reserved_sectors (geometry_ v))).
  2: { apply wp_ret. split; [|done]. by apply Hok; rewrite -> ?H4, ?H5, ?H6; try lia. }
  apply wp_bind, wp_attempt. eapply wp_mono; [apply read_sector_spec; [done|done| |lia]|].
  { apply Z.mod_pos_bound. lia. }
  intros v1 r (d1 & s & -> & Hd1 & Hs1 & Hs2). apply wp_bind, wp_gets. cbn [sector_].
  set (w := v <| device_ := d1 |> <| sector_ := s |>).
  assert (same_bytes d (device_ w)) as W1 by (by eapply same_bytes_trans).
  assert (geometry_ w = geometry_ v /\ allocation_hint_ w = 2 /\ free_clusters_known_ w = false /\ fs_info_valid_ w = false /\ sector_ w = s) as (W2 & W3 & W4 & W5 & W6) by done.
  clearbody w. rewrite W6. destruct (succeeded r && _ && _ && _).
  2: { apply wp_ret. split; [|done]. by apply Hok; rewrite -> ?W3, ?W4, ?W5, ?W6; try lia. }
  cbn zeta. pose proof (little_u32_in_u s 488 Hs2) as Hfree.
  apply wp_bind. apply (wp_mono _ _ (fun w' r => exists fc fk, w' = w <| free_clusters_ := fc |> <| free_clusters_known_ := fk |> /\
    (fk = true -> 0 <= fc <= cluster_count (geometry_ v)) /\ r = expected tt)).
  { destruct (Z.leb_spec (little_u32 s 488) (cluster_count (geometry_ v))).
    - apply wp_modify. exists (little_u32 s 488), true. split; [by destruct w|]. split; [unfold in_u in Hfree; lia|done].
    - apply wp_ret. exists (free_clusters_ w), (free_clusters_known_ w). split; [by destruct w|]. split; [by rewrite W4|done]. }
  intros w1 r1 (fc & fk & -> & Hfk & ->).
  apply wp_bind. apply (wp_mono _ _ (fun w' r => exists h, w' = w <| free_clusters_ := fc |> <| free_clusters_known_ := fk |> <| allocation_hint_ := h |> /\
    2 <= h <= cluster_count (geometry_ v) + 1 /\ r = expected tt)).
  { rewrite -> (wrap_small 32 (cluster_count (geometry_ v) + 1)) by word.
    destruct (Z.leb_spec 2 (little_u32 s 492)); cbn [andb]; [destruct (Z.leb_spec (little_u32 s 492) (cluster_count (geometry_ v) + 1))|].
    - apply wp_modify. by eexists.
    - apply wp_ret. exists 2. split; [rewrite <- W3; by destruct w|]. split; [lia|done].
    - apply wp_ret. exists 2. split; [rewrite <- W3; by destruct w|]. split; [lia|done]. }
  intros w2 r2 (h & -> & Hh & ->). apply wp_modify. split; [|done]. apply Hok; cbn; try done. by rewrite W6.
Qed.

Lemma fat_mounted (d : D) : good d ->
  let '(v, r) := mount d in
  same_bytes d (device_ v) /\ match r with expected _ => volume_ok v | unexpected _ => mounted_ v = false end.
Proof.
  intros Hd. enough (wp initialize (volume_default d) (fun v r => same_bytes d (device_ v) /\
    match r with expected _ => volume_ok v | unexpected _ => mounted_ v = false end)) as H.
  { unfold wp in H. unfold mount. by destruct (initialize (volume_default d)). }
  assert (length (replicate 4096 0) = 4096%nat /\ bytes_ok (replicate 4096 0)) as Hz.
  { split; [apply length_replicate|]. apply Forall_replicate. word. }
  unfold initialize. apply wp_bind. eapply wp_mono; [apply (read_sector_spec (volume_default d) 0 4096 Hd Hz); lia|].
  intros v r (d1 & s & -> & Hd1 & Hs1 & Hs2). change (device_ (volume_default d)) with d in Hd1.
  set (v1 := volume_default d <| device_ := d1 |> <| sector_ := s |>).
  assert (mounting d v1) as Hm1 by (constructor; done). destruct r as [_|e]; [|by split].
  apply wp_bind, wp_gets. change (sector_ v1) with s. apply wp_bind, wp_stop_if; [by split|intros _].
  apply wp_bind, wp_modify. set (v2 := v1 <| geometry_ ::= boot_fields s |>).
  assert (mounting d v2) as Hm2 by (by destruct Hm1; constructor).
  apply wp_bind, wp_gets, wp_bind, wp_stop_if; [by split; [apply Hm2|]|intros Hb].
  apply wp_bind. eapply wp_mono; [apply (layout_stage d s Hd Hs2 v2 Hm2); by apply boot_fields_ok|].
  intros v3 [_|e] [Hm3 Hg]; [|by split; [exact (mounting_device _ _ Hm3)|exact (mounting_off _ _ Hm3)]].
  apply wp_bind. eapply wp_mono; [by apply load_fs_info_spec|]. intros v4 r4 (Hm4 & ->).
  apply wp_modify. exact Hm4.
Qed.
(** C26: whatever the device holds, mounting either reports an error or yields a
    well-formed volume: the tables, the information sector and every cluster
    lie inside the device, the tables cover every cluster, and the allocation
    hint and the count of free clusters are in range. *)
Theorem fat_mount_sound (d : D) : good d ->
  let '(v, r) := mount d in
  same_bytes d (device_ v) /\ match r with expected _ => volume_ok v | unexpected _ => mounted_ v = false end.
Proof. apply fat_mounted. Qed.
End mount.

Lemma fat_bytes_ok_check l : forallb (fun b => (0 <=? b) && (b <? 256)) l = true -> bytes_ok l.
Proof.
  intros H. apply Forall_forall. intros x Hx. rewrite -> forallb_forall in H. specialize (H x (proj1 (list_elem_of_In _ _) Hx)).
  apply andb_prop in H as [H1%Z.leb_le H2%Z.ltb_lt]. unfold in_u. lia.
Qed.

Lemma writes_ok_check writes : forallb (fun w : Z * list Z => forallb (fun b => (0 <=? b) && (b <? 256)) w.2) writes = true ->
  Forall (fun w => bytes_ok w.2) writes.
Proof.
  intros H. apply Forall_forall. intros w Hw. rewrite -> forallb_forall in H. apply fat_bytes_ok_check, H. by apply list_elem_of_In.
Qed.

Lemma fat_image_good : good image.
Proof. split; [vm_compute; split; congruence|]. apply writes_ok_check. vm_compute. reflexivity. Qed.

Lemma fat_mount_sound_witness :
  let '(v, r) := mount image in
  same_bytes image (device_ v) /\ match r with expected _ => volume_ok v | unexpected _ => mounted_ v = false end.
Proof. exact (fat_mount_sound image fat_image_good). Defined.

Lemma volume_well_formed : volume_ok volume.
Proof.
  pose proof (fat_mounted image fat_image_good) as H. unfold volume. destruct (mount image) as [v r] eqn:E.
  assert (r = expected tt) as -> by (change r with (v, r).2; rewrite <- E; vm_compute; reflexivity). apply H.
Qed.
End Fat32Mount.
