(* ===== verification/Fat32Read.v ===== *)
(** * Reading a FAT32 file

    [read] follows the chain of the file and stores the bytes of its clusters
    in their order. *)

From S2P Require Import Prelude Ethernet Filesystem Fat32Name Fat32 Fat32Image Fat32Laws Fat32Mount.
Import Fs Fat32 Fat32Image Fat32Laws Fat32Mount.
Local Open Scope Z_scope.

Module Fat32Read.

(** Byte [o] of the clusters [l]. *)
Definition file_byte (g : Geometry) (f : Z -> Z) (l : list Z) (o : Z) : Z :=
  match l !! Z.to_nat (o / bytes_per_cluster g) with
  | Some c => f (cluster_start g c + o mod bytes_per_cluster g)
  | None => 0
  end.

Lemma file_byte_drop g f l k o : 0 < bytes_per_cluster g -> 0 <= o ->
  file_byte g f (drop k l) o = file_byte g f l (Z.of_nat k * bytes_per_cluster g + o).
Proof.
  intros Hb Ho. unfold file_byte. rewrite -> lookup_drop, Z.add_comm, Z.div_add, Z.mod_add by lia.
  assert (0 <= o / bytes_per_cluster g) by (apply Z.div_pos; lia).
  by replace (Z.to_nat (o / bytes_per_cluster g + Z.of_nat k)) with (k + Z.to_nat (o / bytes_per_cluster g))%nat by lia.
Qed.

Lemma bytes_at_drop g f l k o n : 0 < bytes_per_cluster g -> 0 <= o ->
  bytes_at (file_byte g f (drop k l)) o n = bytes_at (file_byte g f l) (Z.of_nat k * bytes_per_cluster g + o) n.
Proof.
  intros Hb Ho. apply bytes_at_shift. intros i Hi. rewrite -> file_byte_drop by lia. f_equal. lia.
Qed.

(** The bytes of the first cluster. *)
Lemma file_byte_head g f c l o : 0 <= o < bytes_per_cluster g -> file_byte g f (c :: l) o = f (cluster_start g c + o).
Proof. intros H. unfold file_byte. by rewrite -> Z.div_small, Z.mod_small by done. Qed.

Lemma bytes_at_head g f c l o n : 0 <= o -> o + Z.of_nat n <= bytes_per_cluster g ->
  bytes_at (file_byte g f (c :: l)) o n = bytes_at f (cluster_start g c + o) n.
Proof. intros Ho Hn. apply bytes_at_shift. intros i Hi. rewrite -> file_byte_head by lia. f_equal. lia. Qed.

Section read.
Context {D : Type} {device : Device D} {laws : DeviceLaws D}.

Lemma cluster_size v : volume_ok v -> 512 <= bytes_per_cluster (geometry_ v) <= 32768.
Proof.
  intros Hv. pose proof (volume_geometry v Hv) as Hg. destruct (sector_range _ _ Hg) as [Hs _].
  destruct (ok_bytes_per_cluster _ _ Hg) as [E Hl]. pose proof (ok_cluster _ _ Hg). nia.
Qed.

Lemma skip_loop_spec n : forall v c l traversed,
  volume_ok v -> chain (geometry_ v) (bytes v) c l -> (n < length l)%nat -> traversed + Z.of_nat n <= cluster_count (geometry_ v) ->
  wp (skip_loop n c traversed) v (fun v' r => reads_only v v' /\
    match r with
    | expected (d, t) => t = traversed + Z.of_nat n /\ chain (geometry_ v) (bytes v) d (drop n l)
    | unexpected e => io_failure v e
    end).
Proof.
  induction n as [|n IH]; intros v c l traversed Hv Hc Hn Ht; cbn [skip_loop].
  { apply wp_ret. split; [by apply fat_reads_only_refl, Hv|]. split; [lia|done]. }
  destruct (chain_head _ _ _ _ Hc) as (t & ->). destruct t as [|next l]; [cbn in Hn; lia|].
  apply wp_bind, wp_gets, wp_bind, wp_stop_if; rewrite -> Z.gtb_ltb, (proj2 (Z.ltb_ge _ _)) by lia; [done|intros _].
  apply wp_bind. eapply wp_mono; [by eapply follow_chain|]. intros v1 [next'|e] [Hr H]; [|done]. subst next'.
  eapply wp_mono; [eapply (IH v1 next (next :: l))|].
  - by eapply fat_reads_only_ok.
  - eapply chain_reads_only; [done|]. by eapply chain_tail.
  - cbn in *. lia.
  - rewrite -> (fat_reads_only_geometry _ _ Hr). lia.
  - rewrite -> (fat_reads_only_geometry _ _ Hr). intros v2 [[d t]|e] [Hr2 H].
    + split; [by eapply fat_reads_only_trans|]. destruct H as [-> H]. split; [lia|]. cbn [drop].
      eapply chain_ext; [|exact H]. intros x _. apply fat_value_ext. intros o. symmetry. by apply fat_reads_only_bytes.
    + split; [by eapply fat_reads_only_trans|by eapply fat_io_failure_mono].
Qed.

(** What a read of [n] bytes at [offset] of the clusters [l] gives. *)
Definition reads (v : Volume D) (l : list Z) (output : list Z) (offset n : Z) (v' : Volume D) (r : Result (list Z)) : Prop :=
  reads_only v v' /\
  match r with
  | expected data => data = output ++ bytes_at (file_byte (geometry_ v) (bytes v) l) offset (Z.to_nat n)
  | unexpected e => io_failure v e
  end.

Lemma read_loop_reads fuel : forall v c l within remaining traversed output,
  volume_ok v -> chain (geometry_ v) (bytes v) c l -> 0 <= within < bytes_per_cluster (geometry_ v) ->
  0 < remaining < 2 ^ 32 -> within + remaining <= Z.of_nat (length l) * bytes_per_cluster (geometry_ v) ->
  traversed + Z.of_nat (length l) <= cluster_count (geometry_ v) -> (Z.to_nat remaining < fuel)%nat ->
  wp (read_loop fuel c within remaining traversed output) v (reads v l output within remaining).
Proof.
  induction fuel as [|fuel IH]; intros v c l within remaining traversed output Hv Hc Hw Hr Hl Ht Hf; [lia|]. cbn [read_loop].
  rewrite -> (proj2 (Z.eqb_neq _ _)) by lia. pose proof (cluster_size v Hv) as Hbs. apply wp_bind, wp_gets.
  set (bpc := bytes_per_cluster (geometry_ v)) in *. cbn zeta. set (count := if remaining <? bpc - within then _ else _).
  assert (count = Z.min remaining (bpc - within)) as Ecount by (unfold count; destruct (Z.ltb_spec remaining (bpc - within)); lia).
  clearbody count. destruct (chain_head _ _ _ _ Hc) as (t & ->). pose proof (volume_geometry v Hv) as Hg.
  pose proof (chain_valid _ _ _ _ c Hc ltac:(by left)) as Hcv.
  destruct (cluster_bounds _ _ _ Hg Hcv (fat_device_size_word v Hv)) as (Ec & B1 & B2). fold bpc in B2.
  assert (0 <= data_start (geometry_ v)) as Hds.
  { destruct (sector_range _ _ Hg). pose proof (ok_first_data _ _ Hg). pose proof (ok_reserved _ _ Hg). destruct (ok_fats _ _ Hg).
    unfold data_start. apply Z.mul_nonneg_nonneg; [|lia]. pose proof (Z.mul_nonneg_nonneg (fat_count (geometry_ v)) (fat_sectors (geometry_ v))). lia. }
  rewrite Ec. pose proof (fat_device_size_word v Hv) as Hdw. rewrite -> (wrap_small 64) by (unfold in_u; lia).
  apply wp_bind. eapply wp_mono; [apply fat_read_local_spec; [apply Hv|lia|lia|lia]|].
  intros v1 [data|e] [Hr1 Hd]; [|by split].
  assert (data = bytes_at (file_byte (geometry_ v) (bytes v) (c :: t)) within (Z.to_nat count)) as Edata.
  { rewrite -> bytes_at_head by (fold bpc; lia). done. }
  cbn zeta. destruct (Z.eqb_spec (remaining - count) 0) as [E0|Hne].
  { apply wp_ret. split; [done|]. rewrite Edata. by replace remaining with count by lia. }
  destruct t as [|next t]; [cbn in Hl; lia|].
  apply wp_bind, wp_stop_if; rewrite -> Z.gtb_ltb, (proj2 (Z.ltb_ge _ _)) by (cbn [length] in Ht; lia); [done|intros _].
  apply wp_bind. eapply wp_mono; [eapply (follow_chain v1 c next t)|].
  { by eapply fat_reads_only_ok. }
  { by eapply chain_reads_only. }
  intros v2 [next'|e] [Hr2 H2]; [subst next'|by split; [eapply fat_reads_only_trans|eapply fat_io_failure_mono]].
  assert (reads_only v v2) as Hr02 by (by eapply fat_reads_only_trans).
  eapply wp_mono; [eapply (IH v2 next (next :: t))|].
  - by eapply fat_reads_only_ok.
  - eapply chain_reads_only; [exact Hr02|]. by eapply chain_tail.
  - rewrite -> (fat_reads_only_geometry _ _ Hr02). fold bpc. lia.
  - lia.
  - rewrite -> (fat_reads_only_geometry _ _ Hr02). fold bpc. cbn [length] in Hl |- *. lia.
  - rewrite -> (fat_reads_only_geometry _ _ Hr02). cbn [length] in Ht |- *. lia.
  - lia.
  - intros v3 r [Hr3 H3]. split; [by eapply fat_reads_only_trans|]. destruct r as [data'|e]; [|by eapply fat_io_failure_mono].
    rewrite -> H3, <- app_assoc. f_equal. rewrite -> (fat_reads_only_geometry _ _ Hr02), Edata.
    replace (Z.to_nat remaining) with (Z.to_nat count + Z.to_nat (remaining - count))%nat by lia.
    rewrite -> bytes_at_app, Z2Nat.id by lia. f_equal.
    assert (within + count = bpc) as -> by lia.
    pose proof (bytes_at_drop (geometry_ v) (bytes v) (c :: next :: t) 1 0 (Z.to_nat (remaining - count)) ltac:(fold bpc; lia) ltac:(lia)) as E.
    cbn [drop] in E. fold bpc in E. replace (Z.of_nat 1 * bpc + 0) with bpc in E by lia. rewrite <- E.
    apply bytes_at_ext. intros i _. unfold file_byte. case_match; [|done]. by apply fat_reads_only_bytes.
Qed.

(** C12: reading a file of a FAT32 volume, at any offset and for any count,
    stores exactly the bytes of the clusters of its chain from the offset on, up
    to the end of the file.  Nothing is written, and the only error is a failing
    device: the bound on the links followed never stops a chain that ends. *)
Theorem fat_read_spec v node l offset count :
  volume_ok v -> type node = file -> chain (geometry_ v) (bytes v) (first_cluster node) l ->
  0 <= size node < 2 ^ 32 -> size node <= Z.of_nat (length l) * bytes_per_cluster (geometry_ v) ->
  0 <= offset -> 0 <= count < 2 ^ 32 ->
  let '(v', r) := read node offset false count v in
  reads_only v v' /\
  match r with
  | expected data => data = bytes_at (file_byte (geometry_ v) (bytes v) l) offset (Z.to_nat (Z.min count (size node - offset)))
  | unexpected e => io_failure v e
  end.
Proof.
  intros Hv Ht Hc Hs Hl Ho Hn.
  enough (wp (read node offset false count) v (reads v l [] offset (Z.min count (size node - offset)))) as H.
  { unfold wp, reads in H. by destruct (read node offset false count v). }
  pose proof (cluster_size v Hv) as Hbs. unfold read. apply wp_bind, wp_gets, wp_bind, wp_gets.
  rewrite -> (volume_mounted v Hv). apply wp_bind, wp_stop_if; cbn [negb andb orb]; [done|intros _].
  apply wp_bind, wp_stop_if; unfold is_directory; rewrite Ht; [done|intros _].
  assert (forall n, n <= 0 -> wp (mret []) v (reads v l [] offset n)) as Hempty.
  { intros n Hn0. apply wp_ret. split; [by apply fat_reads_only_refl, Hv|]. by replace (Z.to_nat n) with 0%nat by lia. }
  destruct (Z.geb_spec offset (size node)); cbn [orb]; [apply Hempty; lia|].
  destruct (Z.eqb_spec count 0); [apply Hempty; lia|].
  cbn zeta. set (remaining := if count >? _ then _ else _).
  assert (remaining = Z.min count (size node - offset)) as Er by (unfold remaining; destruct (Z.gtb_spec count (size node - offset)); lia).
  clearbody remaining. rewrite <- Er. destruct (chain_head _ _ _ _ Hc) as (t & El).
  pose proof (chain_valid _ _ _ _ (first_cluster node) Hc ltac:(rewrite El; by left)) as Hcv.
  apply wp_bind, wp_stop_if; rewrite -> (proj2 (valid_cluster_iff _ _ _ (volume_geometry v Hv))), andb_false_r by done; [done|intros _].
  set (bpc := bytes_per_cluster (geometry_ v)) in *.
  pose proof (ok_clusters _ _ (volume_geometry v Hv)) as Hcc.
  pose proof (chain_length (geometry_ v) _ _ _ ltac:(lia) Hc) as Hlen.
  pose proof (Z.div_mod offset bpc ltac:(lia)) as Ed. pose proof (Z.mod_pos_bound offset bpc ltac:(lia)) as Hm.
  assert (0 <= offset / bpc) by (apply Z.div_pos; lia).
  assert (offset / bpc < Z.of_nat (length l)) as Hk by (apply Z.div_lt_upper_bound; lia).
  set (k := offset / bpc) in *.
  apply wp_bind. eapply wp_mono; [eapply (skip_loop_spec (Z.to_nat k) v _ l 0); [done|done|lia|lia]|].
  intros v1 [[d tr]|e] [Hr1 H1]; [|by split]. destruct H1 as [-> Hd]. pose proof (fat_reads_only_geometry _ _ Hr1) as Eg.
  eapply wp_mono; [eapply (read_loop_reads _ v1 d (drop (Z.to_nat k) l))|].
  - by eapply fat_reads_only_ok.
  - eapply chain_reads_only; [exact Hr1|done].
  - rewrite Eg. fold bpc. lia.
  - lia.
  - rewrite -> Eg, length_drop. fold bpc. nia.
  - rewrite -> Eg, length_drop. lia.
  - lia.
  - intros v2 r [Hr2 H2]. split; [by eapply fat_reads_only_trans|]. destruct r as [data|e]; [|by eapply fat_io_failure_mono].
    rewrite H2. cbn [app]. rewrite -> Eg, bytes_at_drop by (fold bpc; lia). fold bpc.
    replace (Z.of_nat (Z.to_nat k) * bpc + offset mod bpc) with offset by lia.
    apply bytes_at_ext. intros i _. unfold file_byte. case_match; [|done]. by apply fat_reads_only_bytes.
Qed.
End read.

(** A volume with a file of 700 bytes in the clusters 3 and 5. *)
Definition file_image : Sparse := mkSparse (66581 * 512)
  ((32 * 512 + 12, bytes32 5 ++ bytes32 0 ++ bytes32 0x0fffffff) :: (1057 * 512, take 512 content) :: (1059 * 512, slice content 512 188) ::
   sparse_writes image).
Definition file_volume : Volume Sparse := (mount file_image).1.
Definition file_node : Node := mkNode 3 700 file 0x20 (1056 * 512).

Lemma file_volume_ok : volume_ok file_volume.
Proof.
  assert (good file_image) as Hg by (split; [vm_compute; split; congruence|apply writes_ok_check; vm_compute; reflexivity]).
  pose proof (fat_mounted file_image Hg) as H. unfold file_volume. destruct (mount file_image) as [v r] eqn:E.
  assert (r = expected tt) as -> by (change r with (v, r).2; rewrite <- E; vm_compute; reflexivity). apply H.
Qed.

Lemma file_chain : chain (geometry_ file_volume) (bytes file_volume) 3 [3; 5].
Proof. vm_compute. repeat split; congruence. Qed.

Lemma fat_read_spec_witness :
  let '(v', r) := read file_node 500 false 1000 file_volume in
  reads_only file_volume v' /\
  match r with
  | expected data => data = bytes_at (file_byte (geometry_ file_volume) (bytes file_volume) [3; 5]) 500 (Z.to_nat (Z.min 1000 (size file_node - 500)))
  | unexpected e => io_failure file_volume e
  end.
Proof.
  apply (fat_read_spec file_volume file_node [3; 5] 500 1000 file_volume_ok eq_refl file_chain).
  - vm_compute. split; congruence.
  - vm_compute. congruence.
  - lia.
  - lia.
Defined.
End Fat32Read.
