(* ===== verification/Fat32Table.v ===== *)
(** * Writing the FAT32 tables

    [rewritten] says what a change of the device did to the volume: which
    entries of the tables it set, and in which clusters it may have changed
    data.  Such changes compose, and an entry written to all mirrored tables
    is one. *)

From stdpp Require Import gmap.
From S2P Require Import Prelude Ethernet Filesystem Fat32Name Fat32 Fat32Laws.
Import Fs Fat32 Fat32Laws.
Local Open Scope Z_scope.

Module Fat32Table.

(** The tables that are kept up to date. *)
Definition maintained (g : Geometry) (fat : Z) : Prop :=
  if mirror_fats g then 0 <= fat < fat_count g else fat = active_fat g.
#[global] Instance maintained_dec g fat : Decision (maintained g fat).
Proof. unfold maintained. destruct (mirror_fats g); apply _. Defined.

(** The bits of an entry above the mask. *)
Definition reserved_bits (g : Geometry) (f : Z -> Z) (fat c : Z) : Z :=
  Z.land (little_u32 (bytes_at f (table_start g fat + c * 4) 4) 0) 0xf0000000.

Definition in_cluster (g : Geometry) (c o : Z) : Prop := cluster_start g c <= o < cluster_start g c + bytes_per_cluster g.

(** From the bytes [f] to [f']: the entries [W] are set in the maintained
    tables, the data of the clusters [X] may be different, and all else is
    as it was. *)
Record rewritten (g : Geometry) (f f' : Z -> Z) (W : gmap Z Z) (X : gset Z) : Prop := {
  rewritten_tables fat c : 0 <= fat < fat_count g -> 2 <= c <= cluster_count g + 1 ->
    table_value g f' fat c =
      if decide (maintained g fat) then default (table_value g f fat c) (W !! c) else table_value g f fat c;
  rewritten_reserved fat c : 0 <= fat < fat_count g -> 2 <= c <= cluster_count g + 1 ->
    reserved_bits g f' fat c = reserved_bits g f fat c;
  rewritten_rest o : o < table_start g 0 \/ data_start g <= o -> (forall c, c ∈ X -> ~ in_cluster g c o) -> f' o = f o;
}.

Lemma rewritten_refl g f f' : (forall o, f' o = f o) -> rewritten g f f' ∅ ∅.
Proof.
  intros H. split.
  - intros fat c _ _. rewrite -> lookup_empty. cbn. unfold table_value. rewrite -> (bytes_at_ext f' f) by (intros; apply H).
    by destruct (decide _).
  - intros fat c _ _. unfold reserved_bits. by rewrite -> (bytes_at_ext f' f) by (intros; apply H).
  - intros. apply H.
Qed.

Lemma rewritten_trans g f1 f2 f3 W1 W2 X1 X2 :
  rewritten g f1 f2 W1 X1 -> rewritten g f2 f3 W2 X2 -> rewritten g f1 f3 (W2 ∪ W1) (X1 ∪ X2).
Proof.
  intros [A1 A2 A3] [B1 B2 B3]. split.
  - intros fat c Hf Hc. rewrite -> B1, A1 by done. destruct (decide _); [|done]. rewrite -> lookup_union.
    by destruct (W2 !! c), (W1 !! c).
  - intros fat c Hf Hc. by rewrite -> B2, A2.
  - intros o Ho Hx. rewrite -> B3, A3; [done|done| |done|]; intros c Hc; apply Hx; set_solver.
Qed.

Lemma rewritten_ext g f1 f2 f3 W X : (forall o, f2 o = f1 o) -> rewritten g f2 f3 W X -> rewritten g f1 f3 W X.
Proof.
  intros H K. pose proof (rewritten_trans _ _ _ _ _ _ _ _ (rewritten_refl g f1 f2 H) K) as L.
  by rewrite -> map_union_empty, union_empty_l_L in L.
Qed.
Lemma rewritten_ext_r g f1 f2 f3 W X : (forall o, f3 o = f2 o) -> rewritten g f1 f2 W X -> rewritten g f1 f3 W X.
Proof.
  intros H K. pose proof (rewritten_trans _ _ _ _ _ _ _ _ K (rewritten_refl g f2 f3 H)) as L.
  by rewrite -> map_empty_union, union_empty_r_L in L.
Qed.

(** The table in use is maintained. *)
Lemma active_maintained g n : geometry_ok g n -> maintained g (active_fat g).
Proof. intros H. destruct (ok_active _ _ H). unfold maintained. by destruct (mirror_fats g). Qed.

Lemma rewritten_value g n f f' W X c : geometry_ok g n -> rewritten g f f' W X -> 2 <= c <= cluster_count g + 1 ->
  fat_value g f' c = default (fat_value g f c) (W !! c).
Proof.
  intros Hg H Hc. unfold fat_value. rewrite -> (rewritten_tables _ _ _ _ _ H) by (try done; apply (ok_active _ _ Hg)).
  by rewrite -> decide_True by (by eapply active_maintained).
Qed.

(** Chains through unchanged entries stay. *)
Lemma rewritten_chain g n f f' W X c l : geometry_ok g n -> rewritten g f f' W X -> (forall d, d ∈ l -> W !! d = None) ->
  chain g f c l -> chain g f' c l.
Proof.
  intros Hg H Hw Hc. eapply chain_ext; [|done]. intros d Hd.
  rewrite -> (rewritten_value _ _ _ _ _ _ _ Hg H) by (by eapply chain_valid). by rewrite -> Hw.
Qed.

(** ** The data *)

(** Clusters do not overlap. *)
Lemma in_cluster_disjoint g n c d o : geometry_ok g n -> in_cluster g c o -> in_cluster g d o -> c = d.
Proof.
  intros Hg. destruct (sector_range _ _ Hg) as [Hs _]. destruct (ok_bytes_per_cluster _ _ Hg) as [E _]. pose proof (ok_cluster _ _ Hg).
  assert (0 < bytes_per_cluster g) by (rewrite E; apply Z.mul_pos_pos; lia). unfold in_cluster, cluster_start. nia.
Qed.

Lemma cluster_bytes_kept g n f f' W X c : geometry_ok g n -> n < 2 ^ 64 -> rewritten g f f' W X -> 2 <= c <= cluster_count g + 1 -> c ∉ X ->
  bytes_at f' (cluster_start g c) (Z.to_nat (bytes_per_cluster g)) = bytes_at f (cluster_start g c) (Z.to_nat (bytes_per_cluster g)).
Proof.
  intros Hg Hn Hr Hc Hx. destruct (cluster_bounds _ _ _ Hg Hc Hn) as (_ & B & _). apply bytes_at_ext. intros o Ho.
  assert (in_cluster g c o) as Hin by (unfold in_cluster; lia).
  apply (rewritten_rest _ _ _ _ _ Hr); [lia|]. intros d Hd Hind. apply Hx. by rewrite -> (in_cluster_disjoint g n c d o).
Qed.

Lemma data_start_nonneg g n : geometry_ok g n -> table_start g 0 <= data_start g /\ 0 <= data_start g.
Proof.
  intros Hg. destruct (sector_range _ _ Hg). pose proof (ok_first_data _ _ Hg). pose proof (ok_reserved _ _ Hg). destruct (ok_fats _ _ Hg).
  pose proof (Z.mul_nonneg_nonneg (fat_count g) (fat_sectors g)).
  unfold table_start, data_start. split; [apply Z.mul_le_mono_nonneg_r; lia|apply Z.mul_nonneg_nonneg; lia].
Qed.

(** Bytes stored in a cluster. *)
Lemma stored_rewritten g n f f' c o data : geometry_ok g n -> n < 2 ^ 64 -> 2 <= c <= cluster_count g + 1 ->
  cluster_start g c <= o -> o + Z.of_nat (length data) <= cluster_start g c + bytes_per_cluster g ->
  stored f f' o data -> rewritten g f f' ∅ {[c]}.
Proof.
  intros Hg Hn Hc Ho Hl Hs. destruct (cluster_bounds _ _ _ Hg Hc Hn) as (_ & B & _).
  assert (K : forall fat d, 0 <= fat < fat_count g -> 2 <= d <= cluster_count g + 1 ->
    bytes_at f' (table_start g fat + d * 4) 4 = bytes_at f (table_start g fat + d * 4) 4).
  { intros fat d Hf Hd. destruct (entry_bounds _ _ _ _ Hg Hf Hd Hn) as (_ & _ & B1 & B2 & _).
    apply (stored_frame _ _ _ _ _ _ Hs). lia. }
  split.
  - intros fat d Hf Hd. unfold table_value. rewrite -> K, lookup_empty by done. by destruct (decide _).
  - intros fat d Hf Hd. unfold reserved_bits. by rewrite -> K.
  - intros p Hp Hx. apply Hs. intros Hin. apply (Hx c); [set_solver|]. unfold in_cluster. lia.
Qed.

(** ** One entry *)

(** The tables lie one after the other. *)
Lemma table_start_mono g n a b : geometry_ok g n -> a <= b -> table_start g a <= table_start g b.
Proof.
  intros H Hab. destruct (ok_fats _ _ H). destruct (sector_range _ _ H). unfold table_start.
  apply Z.mul_le_mono_nonneg_r; [lia|]. pose proof (Z.mul_le_mono_nonneg_r a b (fat_sectors g)). lia.
Qed.

(** Entries do not overlap. *)
Lemma entries_disjoint g n fat c fat' d : geometry_ok g n -> n < 2 ^ 64 -> 0 <= fat < fat_count g -> 0 <= fat' < fat_count g ->
  2 <= c <= cluster_count g + 1 -> 2 <= d <= cluster_count g + 1 -> (fat, c) <> (fat', d) ->
  table_start g fat + c * 4 + 4 <= table_start g fat' + d * 4 \/ table_start g fat' + d * 4 + 4 <= table_start g fat + c * 4.
Proof.
  intros Hg Hn Hf Hf' Hc Hd Hne. destruct (entry_bounds g n fat c Hg Hf Hc Hn) as (_ & _ & B1 & _).
  destruct (entry_bounds g n fat' d Hg Hf' Hd Hn) as (_ & _ & B2 & _).
  destruct (Z.lt_trichotomy fat fat') as [Hlt|[->|Hlt]].
  - pose proof (table_start_mono g n (fat + 1) fat' Hg ltac:(lia)). lia.
  - assert (c <> d) by congruence. lia.
  - pose proof (table_start_mono g n (fat' + 1) fat Hg ltac:(lia)). lia.
Qed.

(** The word an entry is given. *)
Definition entry_word (old value : Z) : Z := Z.lor (Z.land old 0xf0000000) (Z.land value fat_mask).

Lemma entry_word_range old value : in_u 32 old -> in_u 32 (entry_word old value).
Proof.
  intros Ho. unfold entry_word. pose proof (Z.land_nonneg old 0xf0000000). pose proof (Z.land_nonneg value fat_mask).
  assert (Z.land (Z.lor (Z.land old 0xf0000000) (Z.land value fat_mask)) (Z.ones 32) =
    Z.lor (Z.land old 0xf0000000) (Z.land value fat_mask)) as <-.
  { rewrite -> Z.land_lor_distr_l, <- !Z.land_assoc. done. }
  rewrite -> Z.land_ones by done. apply Z.mod_pos_bound. done.
Qed.

Lemma entry_word_value old value : Z.land (entry_word old value) fat_mask = Z.land value fat_mask.
Proof. unfold entry_word. rewrite -> Z.land_lor_distr_l, <- !Z.land_assoc. change (Z.land 0xf0000000 fat_mask) with 0. by rewrite -> Z.land_0_r. Qed.

Lemma entry_word_reserved old value : Z.land (entry_word old value) 0xf0000000 = Z.land old 0xf0000000.
Proof.
  unfold entry_word. rewrite -> Z.land_lor_distr_l, <- !Z.land_assoc. change (Z.land fat_mask 0xf0000000) with 0.
  by rewrite -> Z.land_0_r, Z.lor_0_r.
Qed.

(** The entries of [fat] in [lo, hi) set to [value]. *)
Record entry_set (g : Geometry) (f f' : Z -> Z) (lo hi c value : Z) : Prop := {
  entry_set_value fat d : 0 <= fat < fat_count g -> 2 <= d <= cluster_count g + 1 ->
    table_value g f' fat d = if decide (lo <= fat < hi /\ d = c) then Z.land value fat_mask else table_value g f fat d;
  entry_set_reserved fat d : 0 <= fat < fat_count g -> 2 <= d <= cluster_count g + 1 ->
    reserved_bits g f' fat d = reserved_bits g f fat d;
  entry_set_rest o : o < table_start g 0 \/ data_start g <= o -> f' o = f o;
}.

Lemma entry_set_one g n f f' fat c value : geometry_ok g n -> n < 2 ^ 64 -> (forall o, in_u 8 (f o)) ->
  0 <= fat < fat_count g -> 2 <= c <= cluster_count g + 1 ->
  stored f f' (table_start g fat + c * 4) (bytes32 (entry_word (little_u32 (bytes_at f (table_start g fat + c * 4) 4) 0) value)) ->
  entry_set g f f' fat (fat + 1) c value.
Proof.
  intros Hg Hn Hb Hf Hc Hs. set (o := table_start g fat + c * 4) in *. set (old := little_u32 (bytes_at f o 4) 0) in *.
  assert (in_u 32 old) as Hold by (apply little_u32_in_u, bytes_at_ok, Hb).
  assert (little_u32 (bytes_at f' o 4) 0 = entry_word old value) as Hnew.
  { change 4%nat with (length (bytes32 (entry_word old value))). rewrite -> (proj1 Hs).
    rewrite -> (little_u32_bytes _ 0 (entry_word old value)); [|apply bytes32_ok|done].
    by apply wrap_small, entry_word_range. }
  assert (Hother : forall fat' d, 0 <= fat' < fat_count g -> 2 <= d <= cluster_count g + 1 -> (fat, c) <> (fat', d) ->
    bytes_at f' (table_start g fat' + d * 4) 4 = bytes_at f (table_start g fat' + d * 4) 4).
  { intros fat' d Hf' Hd Hne. apply (stored_frame _ _ _ _ _ _ Hs).
    pose proof (entries_disjoint g n fat c fat' d Hg Hn Hf Hf' Hc Hd Hne). fold o in H. cbn [bytes32 length]. lia. }
  split.
  - intros fat' d Hf' Hd. unfold table_value. destruct (decide _) as [[H1 ->]|Hne].
    + replace fat' with fat by lia. fold o. by rewrite -> Hnew, entry_word_value.
    + rewrite -> Hother; [done|done|done|]. intros [= <- <-]. apply Hne. lia.
  - intros fat' d Hf' Hd. unfold reserved_bits. destruct (decide ((fat, c) = (fat', d))) as [[= <- <-]|Hne].
    + fold o. by rewrite -> Hnew, entry_word_reserved.
    + by rewrite -> Hother.
  - intros p Hp. apply Hs. destruct (entry_bounds g n fat c Hg Hf Hc Hn) as (_ & _ & B1 & B2 & _). fold o in B1.
    pose proof (table_start_mono g n 0 fat Hg ltac:(lia)). cbn [bytes32 length]. unfold o in *. lia.
Qed.

Lemma entry_set_snoc g f1 f2 f3 lo mid hi c value : lo <= mid <= hi ->
  entry_set g f1 f2 lo mid c value -> entry_set g f2 f3 mid hi c value -> entry_set g f1 f3 lo hi c value.
Proof.
  intros Hm [A1 A2 A3] [B1 B2 B3]. split.
  - intros fat d Hf Hd. rewrite -> B1, A1 by done. repeat destruct (decide _); done || lia.
  - intros fat d Hf Hd. by rewrite -> B2, A2.
  - intros o Ho. by rewrite -> B3, A3.
Qed.

(** Written to the tables that are kept up to date. *)
Lemma entry_set_rewritten g n f f' c value : geometry_ok g n -> 0 <= value <= fat_mask ->
  entry_set g f f' (if mirror_fats g then 0 else active_fat g) (if mirror_fats g then fat_count g else active_fat g + 1) c value ->
  rewritten g f f' {[c := value]} ∅.
Proof.
  intros Hg Hval [A1 A2 A3]. assert (Z.land value fat_mask = value) as E.
  { unfold fat_mask in *. change 0x0fffffff with (2 ^ 28 - 1). apply land_ones_small; lia. }
  split; [|done|by intros; apply A3].
  intros fat d Hf Hd. rewrite -> A1, E by done.
  assert (maintained g fat <-> (if mirror_fats g then 0 else active_fat g) <= fat < (if mirror_fats g then fat_count g else active_fat g + 1)) as Hm.
  { unfold maintained. destruct (mirror_fats g); lia. }
  destruct (decide (maintained g fat)) as [H|H]; rewrite -> Hm in H; destruct (decide (d = c)) as [->|Hne].
  - by rewrite -> decide_True, lookup_singleton_eq.
  - by rewrite -> decide_False, lookup_singleton_ne by (congruence || by intros []).
  - by rewrite -> decide_False by (by intros []).
  - by rewrite -> decide_False by (by intros []).
Qed.
End Fat32Table.
