(* ===== verification/Fat32Alloc.v ===== *)
(** * Allocating and freeing FAT32 clusters

    [allocate_cluster] takes a free cluster, from the hint around the volume,
    and zeroes it; [free_chain] frees exactly a chain.  The count of free
    clusters, when it is exact, stays exact. *)

From stdpp Require Import gmap.
From S2P Require Import Prelude Ethernet Filesystem Fat32Name Fat32 Fat32Laws Fat32Table.
Import Fs Fat32 Fat32Laws Fat32Table.
Local Open Scope Z_scope.

Module Fat32Alloc.

Lemma filter_agree {A} (P Q : A -> Prop) `{!forall x, Decision (P x)} `{!forall x, Decision (Q x)} (l : list A) :
  (forall x, x ∈ l -> P x <-> Q x) -> filter P l = filter Q l.
Proof.
  induction l as [|x l IH]; intros Hag; [done|]. rewrite -> !filter_cons, IH by (intros; apply Hag; by right).
  by rewrite -> (decide_ext (P x) (Q x)) by (apply Hag; by left).
Qed.

(** Elements satisfying [P] but one satisfy [Q]. *)
Lemma filter_flip {A} (P Q : A -> Prop) `{!forall x, Decision (P x)} `{!forall x, Decision (Q x)} (l : list A) c :
  NoDup l -> c ∈ l -> P c -> ~ Q c -> (forall x, x ∈ l -> x <> c -> P x <-> Q x) -> length (filter P l) = S (length (filter Q l)).
Proof.
  intros Hnd. induction Hnd as [|x l Hx Hnd IH]; intros Hin Hp Hq Hag; [by apply not_elem_of_nil in Hin|].
  rewrite -> !filter_cons. apply elem_of_cons in Hin as [<-|Hin].
  - rewrite -> decide_True, decide_False by done. cbn. do 2 f_equal. apply filter_agree.
    intros y Hy. apply Hag; [by right|]. by intros ->.
  - specialize (IH Hin Hp Hq (fun y Hy => Hag y ltac:(by right))). pose proof (Hag x ltac:(by left) ltac:(by intros ->)) as Hx'.
    rewrite -> (decide_ext (P x) (Q x)) by done. destruct (decide (Q x)); cbn; lia.
Qed.

Section alloc.
Context {D : Type} {device : Device D} {laws : DeviceLaws D}.

(** ** What a failing operation keeps *)

Record keeps (v v' : Volume D) : Prop := {
  keeps_ok : volume_ok v';
  keeps_size : dev_size (device_ v') = dev_size (device_ v);
  keeps_reliable : reliable (device_ v) -> reliable (device_ v');
  keeps_geometry : geometry_ v' = geometry_ v;
}.

Lemma keeps_refl v : volume_ok v -> keeps v v.
Proof. by split. Qed.
Lemma keeps_trans v1 v2 v3 : keeps v1 v2 -> keeps v2 v3 -> keeps v1 v3.
Proof. intros [A1 A2 A3 A4] [B1 B2 B3 B4]. split; [done|congruence|auto|congruence]. Qed.
Lemma reads_only_keeps v v' : volume_ok v -> reads_only v v' -> keeps v v'.
Proof. intros Hv Hr. split; [by eapply fat_reads_only_ok|apply Hr..]. Qed.
Lemma keeps_failure v v' e : keeps v v' -> io_failure v' e -> io_failure v e.
Proof. intros H [-> Hn]. split; [done|]. intros Hr. by apply Hn, (keeps_reliable _ _ H). Qed.

(** The volume object is the same but for the device. *)
Record only_device (v v' : Volume D) : Prop := {
  device_good : good (device_ v');
  device_size : dev_size (device_ v') = dev_size (device_ v);
  device_reliable : reliable (device_ v) -> reliable (device_ v');
  device_fields : exists d, v' = v <| device_ := d |>;
}.

Lemma only_device_keeps v v' : volume_ok v -> only_device v v' -> keeps v v'.
Proof.
  intros [H1 H2 H3 H4 H5 H6 H7] [A1 A2 A3 [d ->]]. split; [|done..].
  constructor; cbn in *; [done..| |done|done|done]. by rewrite -> A2.
Qed.
Lemma only_device_trans v1 v2 v3 : only_device v1 v2 -> only_device v2 v3 -> only_device v1 v3.
Proof.
  intros [A1 A2 A3 [d ->]] [B1 B2 B3 [d' ->]]. split; [done|cbn in *; congruence|auto|]. by exists d'.
Qed.
Lemma reads_only_device v v' : reads_only v v' -> only_device v v'.
Proof.
  intros ((H1 & H2 & H3 & _) & A2 & A3 & A4 & A5 & A6 & A7 & A8). split; [done..|]. exists (device_ v').
  destruct v, v'. cbn in *. by subst.
Qed.
Lemma only_device_refl v : good (device_ v) -> only_device v v.
Proof. intros H. by apply reads_only_device, fat_reads_only_refl. Qed.

(** ** Writing *)

Lemma write_bytes_spec v offset data :
  good (device_ v) -> bytes_ok data -> 0 <= offset -> Z.of_nat (length data) < 2 ^ 32 ->
  offset + Z.of_nat (length data) <= dev_size (device_ v) ->
  wp (write_bytes offset data) v (fun v' r => only_device v v' /\
    match r with expected _ => stored (bytes v) (bytes v') offset data | unexpected e => io_failure v e end).
Proof.
  intros Hg Hd Ho Hl Hb. unfold wp, write_bytes.
  pose proof (write_exact_spec (device_ v) offset data Hg Hd Ho Hl) as L.
  destruct (write_exact (device_ v) offset data) as [d e]. destruct L as (H1 & H2 & H3 & He). cbn.
  split; [split; [done..|by exists d]|]. destruct e; cbn; try done; [by destruct He|lia].
Qed.

Lemma table_in_word v fat c : volume_ok v -> 0 <= fat < fat_count (geometry_ v) -> 2 <= c <= cluster_count (geometry_ v) + 1 ->
  fat_offset (geometry_ v) fat c = table_start (geometry_ v) fat + c * 4 /\
  0 <= table_start (geometry_ v) fat + c * 4 /\ table_start (geometry_ v) fat + c * 4 + 4 <= dev_size (device_ v).
Proof.
  intros Hv Hf Hc. destruct (entry_bounds _ _ _ _ (volume_geometry v Hv) Hf Hc (fat_device_size_word v Hv)) as (E & B1 & B2 & B3 & B4).
  rewrite E. lia.
Qed.

Lemma write_fat_spec v fat c value : volume_ok v -> 0 <= fat < fat_count (geometry_ v) -> 2 <= c <= cluster_count (geometry_ v) + 1 ->
  wp (write_fat fat c value) v (fun v' r => only_device v v' /\
    match r with expected _ => entry_set (geometry_ v) (bytes v) (bytes v') fat (fat + 1) c value | unexpected e => io_failure v e end).
Proof.
  intros Hv Hf Hc. unfold write_fat. apply wp_bind, wp_gets. cbn zeta.
  destruct (table_in_word v fat c Hv Hf Hc) as (E & B1 & B2). rewrite E. pose proof (volume_good v Hv) as Hg.
  apply wp_bind. eapply wp_mono; [apply fat_read_local_spec; [done|lia..]|].
  intros v1 [raw|e] [Hr H]; [subst raw|by split; [apply reads_only_device|]].
  pose proof (reads_only_device _ _ Hr) as Hod.
  eapply wp_mono; [apply write_bytes_spec|].
  - apply Hod.
  - apply bytes32_ok.
  - done.
  - cbn. lia.
  - rewrite -> (device_size _ _ Hod). cbn [bytes32 length]. lia.
  - intros v2 r [Hod2 H2]. split; [by eapply only_device_trans|]. destruct r as [_|e].
    + eapply (entry_set_one _ (dev_size (device_ v))); [apply Hv|by apply fat_device_size_word|intros; by apply contents_byte|done|done|].
      eapply stored_same; [exact H2|intros o; symmetry; by apply fat_reads_only_bytes|done].
    + by eapply fat_io_failure_mono.
Qed.

Lemma write_fats_spec n : forall v fat c value, volume_ok v -> 0 <= fat -> fat + Z.of_nat n <= fat_count (geometry_ v) ->
  2 <= c <= cluster_count (geometry_ v) + 1 ->
  wp (write_fats n fat c value) v (fun v' r => only_device v v' /\
    match r with
    | expected _ => entry_set (geometry_ v) (bytes v) (bytes v') fat (fat + Z.of_nat n) c value
    | unexpected e => io_failure v e
    end).
Proof.
  induction n as [|n IH]; intros v fat c value Hv Hf Hn Hc; cbn [write_fats].
  { apply wp_ret. split; [by apply only_device_refl, Hv|]. split; [|done..]. intros fat' d _ _. by rewrite -> decide_False by lia. }
  apply wp_bind. eapply wp_mono; [apply write_fat_spec; [done|lia|done]|]. intros v1 [_|e] [Hr H]; [|done].
  pose proof (only_device_keeps _ _ Hv Hr) as Hk. pose proof (keeps_geometry _ _ Hk) as Hg.
  eapply wp_mono; [apply (IH v1 (fat + 1)); [apply Hk|lia|rewrite Hg; lia|by rewrite Hg]|].
  intros v2 r [Hr2 H2]. split; [by eapply only_device_trans|]. destruct r as [_|e].
  - rewrite -> Hg in H2. replace (fat + 1 + Z.of_nat n) with (fat + Z.of_nat (S n)) in H2 by lia.
    eapply entry_set_snoc; [|exact H|exact H2]. lia.
  - by eapply keeps_failure.
Qed.

(** A written entry holds the value in every maintained table. *)
Lemma write_fat_entry_spec v c value : volume_ok v -> 2 <= c <= cluster_count (geometry_ v) + 1 -> 0 <= value <= fat_mask ->
  wp (write_fat_entry c value) v (fun v' r => only_device v v' /\
    match r with expected _ => rewritten (geometry_ v) (bytes v) (bytes v') {[c := value]} ∅ | unexpected e => io_failure v e end).
Proof.
  intros Hv Hc Hval. pose proof (volume_geometry v Hv) as Hg. unfold write_fat_entry. apply wp_bind, wp_gets, wp_bind, wp_stop_if;
    rewrite -> (proj2 (valid_cluster_iff _ _ c Hg)) by done; [done|intros _]. cbn zeta.
  destruct (ok_active _ _ Hg) as [Ha _]. pose proof (ok_fats _ _ Hg) as [Hf _].
  eapply wp_mono; [apply write_fats_spec; [done|destruct (mirror_fats _); lia..|done]|].
  intros v' r [Hr H]. split; [done|]. destruct r as [_|e]; [|done].
  eapply entry_set_rewritten; [done|done|]. revert H. destruct (mirror_fats (geometry_ v)).
  - by replace (0 + Z.of_nat (Z.to_nat (fat_count (geometry_ v) - 0))) with (fat_count (geometry_ v)) by lia.
  - by replace (active_fat (geometry_ v) + Z.of_nat (Z.to_nat (active_fat (geometry_ v) + 1 - active_fat (geometry_ v))))
      with (active_fat (geometry_ v) + 1) by lia.
Qed.

(** ** Zeroing a cluster *)

Lemma zero_sectors_spec n : forall v base sector c, volume_ok v -> 2 <= c <= cluster_count (geometry_ v) + 1 ->
  base = cluster_start (geometry_ v) c -> 0 <= sector -> sector + Z.of_nat n <= sectors_per_cluster (geometry_ v) ->
  take (Z.to_nat (bytes_per_sector (geometry_ v))) (sector_ v) = zero_bytes (bytes_per_sector (geometry_ v)) ->
  wp (zero_sectors n base sector) v (fun v' r => only_device v v' /\
    match r with
    | expected _ => stored (bytes v) (bytes v') (base + sector * bytes_per_sector (geometry_ v)) (zero_bytes (Z.of_nat n * bytes_per_sector (geometry_ v)))
    | unexpected e => io_failure v e
    end).
Proof.
  induction n as [|n IH]; intros v base sector c Hv Hc Hb Hs Hn Hz; cbn [zero_sectors].
  { apply wp_ret. split; [by apply only_device_refl, Hv|]. by apply stored_nil. }
  pose proof (volume_geometry v Hv) as Hg. destruct (sector_range _ _ Hg) as [Hbs _].
  destruct (cluster_bounds _ _ _ Hg Hc (fat_device_size_word v Hv)) as (_ & B1 & B2).
  destruct (data_start_nonneg _ _ Hg) as [_ B0]. pose proof (fat_device_size_word v Hv) as Hw. destruct (ok_bytes_per_cluster _ _ Hg) as [Hbpc _].
  set (bps := bytes_per_sector (geometry_ v)) in *.
  assert (sector * bps + bps + Z.of_nat n * bps <= bytes_per_cluster (geometry_ v)) as Hfit.
  { rewrite Hbpc. pose proof (Z.mul_le_mono_nonneg_r (sector + 1 + Z.of_nat n) (sectors_per_cluster (geometry_ v)) bps). lia. }
  assert (0 <= sector * bps) by (apply Z.mul_nonneg_nonneg; lia). assert (0 <= Z.of_nat n * bps) by (apply Z.mul_nonneg_nonneg; lia).
  apply wp_bind, wp_gets, wp_bind. unfold write_sector. apply wp_bind, wp_gets. fold bps. rewrite Hz.
  rewrite -> (wrap_small 64 (sector * bps)), (wrap_small 64) by (unfold in_u; lia).
  eapply wp_mono; [apply write_bytes_spec|].
  { apply Hv. } { by apply Forall_replicate. } { lia. } { unfold zero_bytes. rewrite -> length_replicate. lia. }
  { unfold zero_bytes. rewrite -> length_replicate. lia. }
  intros v1 [_|e] [Hr Hst]; [|done]. pose proof (only_device_keeps _ _ Hv Hr) as Hk. pose proof (keeps_geometry _ _ Hk) as Eg.
  eapply wp_mono; [eapply (IH v1 base (sector + 1) c)|].
  { apply Hk. } { by rewrite Eg. } { by rewrite Eg. } { lia. } { rewrite Eg. lia. }
  { rewrite Eg. destruct (device_fields _ _ Hr) as [d ->]. done. }
  intros v2 r [Hr2 H2]. split; [by eapply only_device_trans|]. destruct r as [_|e]; [|by eapply keeps_failure].
  rewrite -> Eg in H2. fold bps in H2.
  replace (zero_bytes (Z.of_nat (S n) * bps)) with (zero_bytes bps ++ zero_bytes (Z.of_nat n * bps)).
  2: { unfold zero_bytes. rewrite <- replicate_add. f_equal. lia. }
  eapply stored_app; [exact Hst|]. replace (base + sector * bps + Z.of_nat (length (zero_bytes bps))) with (base + (sector + 1) * bps); [done|].
  unfold zero_bytes. rewrite -> length_replicate. lia.
Qed.

(** ** The count of free clusters *)

Definition free_count (g : Geometry) (f : Z -> Z) : Z :=
  Z.of_nat (length (filter (fun c => fat_value g f c = 0) (seqZ 2 (cluster_count g)))).
(** The count the volume keeps, when it knows it, is that of the table. *)
Definition exact (v : Volume D) : Prop :=
  free_clusters_known_ v = true -> free_clusters_ v = free_count (geometry_ v) (bytes v).

Lemma elem_of_clusters g c : c ∈ seqZ 2 (cluster_count g) <-> 2 <= c <= cluster_count g + 1.
Proof. rewrite -> elem_of_seqZ. lia. Qed.

Lemma free_count_take g n f f' c x X : geometry_ok g n -> 2 <= c <= cluster_count g + 1 -> fat_value g f c = 0 -> x <> 0 ->
  rewritten g f f' {[c := x]} X -> free_count g f = free_count g f' + 1.
Proof.
  intros Hg Hc H0 Hx Hr. pose proof (fun d => rewritten_value g n f f' _ X d Hg Hr) as V. unfold free_count.
  rewrite -> (filter_flip (fun c => fat_value g f c = 0) (fun c => fat_value g f' c = 0) _ c); [lia|apply NoDup_seqZ|by apply elem_of_clusters|done|..].
  - rewrite -> V by done. by rewrite -> lookup_singleton_eq.
  - intros y Hy%elem_of_clusters Hne. rewrite -> V, lookup_singleton_ne by done. done.
Qed.

Lemma free_count_give g n f f' c X : geometry_ok g n -> 2 <= c <= cluster_count g + 1 -> fat_value g f c <> 0 ->
  rewritten g f f' {[c := 0]} X -> free_count g f' = free_count g f + 1.
Proof.
  intros Hg Hc H0 Hr. pose proof (fun d => rewritten_value g n f f' _ X d Hg Hr) as V. unfold free_count.
  rewrite -> (filter_flip (fun c => fat_value g f' c = 0) (fun c => fat_value g f c = 0) _ c); [lia|apply NoDup_seqZ|by apply elem_of_clusters|..|done|].
  - rewrite -> V by done. by rewrite -> lookup_singleton_eq.
  - intros y Hy%elem_of_clusters Hne. rewrite -> V, lookup_singleton_ne by done. done.
Qed.

Lemma free_count_ext g f f' : (forall o, f' o = f o) -> free_count g f' = free_count g f.
Proof. intros H. unfold free_count. do 2 f_equal. apply filter_agree. intros c _. by rewrite -> (fat_value_ext g f f'). Qed.

Lemma exact_reads_only v v' : reads_only v v' -> exact v -> exact v'.
Proof.
  intros (H & H1 & _ & _ & H2 & H3 & _) He. unfold exact. rewrite -> H1, H2, H3. intros K. rewrite -> (He K). symmetry.
  apply free_count_ext. apply H.
Qed.

(** ** One cluster *)

(** [c] was free; now it is a chain of its own, and zero. *)
Definition taken (v v' : Volume D) (c : Z) : Prop :=
  let g := geometry_ v in
  2 <= c <= cluster_count g + 1 /\ fat_value g (bytes v) c = 0 /\
  rewritten g (bytes v) (bytes v') {[c := end_of_chain]} {[c]} /\
  bytes_at (bytes v') (cluster_start g c) (Z.to_nat (bytes_per_cluster g)) = zero_bytes (bytes_per_cluster g).

Lemma zeroed_sector v : volume_ok v ->
  volume_ok (v <| sector_ ::= fun b => patch b 0 (zero_bytes (bytes_per_sector (geometry_ v))) |>) /\
  take (Z.to_nat (bytes_per_sector (geometry_ v))) (patch (sector_ v) 0 (zero_bytes (bytes_per_sector (geometry_ v)))) =
    zero_bytes (bytes_per_sector (geometry_ v)).
Proof.
  intros Hv. destruct (sector_range _ _ (volume_geometry v Hv)) as [Hb _]. destruct Hv as [H1 [H2 H2'] H3 H4 H5 H6 H7]. split.
  - constructor; [done| |done..]. cbn. split.
    + rewrite -> length_patch; [done|]. unfold zero_bytes. rewrite -> length_replicate, H2. lia.
    + apply bytes_ok_patch; [done|]. by apply Forall_replicate.
  - unfold patch, zero_bytes. rewrite -> take_0, app_nil_l. by rewrite -> take_app_length' by (by rewrite -> length_replicate).
Qed.

(** The bookkeeping after a cluster is taken. *)
Lemma taken_counts v v1 c : volume_ok v -> taken v v1 c -> keeps v v1 ->
  free_clusters_known_ v1 = free_clusters_known_ v -> free_clusters_ v1 = free_clusters_ v ->
  let v2 := v1 <| allocation_hint_ := after (geometry_ v) c |> in
  let v3 := if free_clusters_known_ v2 && negb (free_clusters_ v2 =? 0) then v2 <| free_clusters_ ::= fun n => n - 1 |> else v2 in
  keeps v v3 /\ taken v v3 c /\ (exact v -> exact v3).
Proof.
  intros Hv Ht [[K1 K2 K3 K4 K5 K6 K7] Ks Kr Kg] Ek Ef v2 v3. pose proof (volume_geometry v Hv) as Hg.
  destruct Ht as (Hc & H0 & Hr & Hz). pose proof (ok_clusters _ _ Hg) as Hcc. unfold reserved_cluster in Hcc.
  assert (2 <= after (geometry_ v) c <= cluster_count (geometry_ v) + 1) as Ha.
  { unfold after. rewrite -> wrap_small by word. destruct (Z.eqb_spec c (cluster_count (geometry_ v) + 1)); lia. }
  assert (keeps v v2) as Hk2 by (split; [constructor; cbn; rewrite -> ?Kg in *; done|done..]).
  assert (geometry_ v3 = geometry_ v /\ bytes v3 = bytes v1 /\ keeps v v3) as (Eg & Eb & Hk3).
  { unfold v3. destruct (free_clusters_known_ v2) eqn:E1, (Z.eqb_spec (free_clusters_ v2) 0) as [E2|E2]; cbn [andb negb]; try done.
    split; [done|]. split; [done|]. destruct Hk2 as [[? ? ? ? ? Hfr ?] ? ? ?]. specialize (Hfr E1). split; [constructor; cbn in *; try done|done..]. lia. }
  split; [done|]. unfold taken. rewrite Eb. split; [done|]. intros He Hk. rewrite -> Eg, Eb.
  pose proof (free_count_take _ _ _ _ _ end_of_chain _ Hg Hc H0 ltac:(done) Hr) as Hcount.
  assert (free_clusters_known_ v = true) as Hkv.
  { rewrite <- Ek. unfold v3 in Hk. destruct (free_clusters_known_ v2) eqn:E1; cbn [andb] in Hk; [done|]. by rewrite -> E1 in Hk. }
  pose proof (He Hkv) as Hfc. assert (0 <= free_count (geometry_ v) (bytes v1)) by (unfold free_count; lia).
  unfold v3. assert (free_clusters_known_ v2 = true) as -> by (unfold v2; cbn; congruence). cbn [andb].
  destruct (Z.eqb_spec (free_clusters_ v2) 0) as [E2|E2]; unfold v2 in *; cbn in *; lia.
Qed.

Lemma claim_cluster_spec v c : volume_ok v -> 2 <= c <= cluster_count (geometry_ v) + 1 -> fat_value (geometry_ v) (bytes v) c = 0 ->
  wp (claim_cluster c) v (fun v' r => keeps v v' /\
    match r with expected d => d = c /\ taken v v' c /\ (exact v -> exact v') | unexpected e => io_failure v e end).
Proof.
  intros Hv Hc H0. pose proof (volume_geometry v Hv) as Hg. pose proof (fat_device_size_word v Hv) as Hw.
  unfold claim_cluster. apply wp_bind, wp_gets, wp_bind.
  eapply wp_mono; [by apply write_fat_entry_spec|]. intros v1 [_|e] [Hd1 H1]; [|by split; [apply only_device_keeps|]].
  pose proof (only_device_keeps _ _ Hv Hd1) as Hk1. pose proof (keeps_geometry _ _ Hk1) as Eg.
  apply wp_bind, wp_modify. rewrite <- Eg. destruct (zeroed_sector v1 (keeps_ok _ _ Hk1)) as [Hv2 Hz2].
  set (v2 := v1 <| sector_ ::= _ |>) in *. apply wp_bind, wp_attempt.
  destruct (cluster_bounds _ _ _ Hg Hc Hw) as (Ec & B1 & B2).
  eapply wp_mono; [apply (zero_sectors_spec _ v2 _ 0 c)|].
  { done. } { cbn. by rewrite Eg. } { cbn. by rewrite Eg. } { done. } { pose proof (ok_cluster _ _ Hg). cbn. rewrite Eg. lia. } { done. }
  assert (keeps v v2) as Hk2 by (split; [done|apply Hk1..]).
  intros v3 [_|e] [Hd3 H3].
  2: { apply wp_bind, wp_attempt. pose proof (only_device_keeps _ _ Hv2 Hd3) as Hk3.
       pose proof (keeps_trans _ _ _ Hk2 Hk3) as Hk.
       eapply wp_mono; [apply write_fat_entry_spec; [apply Hk|by rewrite -> (keeps_geometry _ _ Hk)|done]|].
       intros v4 r [Hd4 _]. apply wp_fail. split; [|by apply (keeps_failure v v2)]. eapply keeps_trans; [done|]. apply only_device_keeps; [apply Hk|done]. }
  assert (taken v v3 c) as Ht.
  { destruct (ok_bytes_per_cluster _ _ Hg) as [Ebpc _]. pose proof (ok_cluster _ _ Hg) as Hspc.
    change (geometry_ v2) with (geometry_ v1) in H3. rewrite -> Eg, Z2Nat.id, Z.mul_0_l, Z.add_0_r, (Z.mul_comm (sectors_per_cluster _)), <- Ebpc in H3 by lia.
    change (bytes v2) with (bytes v1) in H3. destruct (sector_range _ _ Hg) as [Hbs _].
    assert (0 <= bytes_per_cluster (geometry_ v)) by (rewrite Ebpc; apply Z.mul_nonneg_nonneg; lia).
    assert (length (zero_bytes (bytes_per_cluster (geometry_ v))) = Z.to_nat (bytes_per_cluster (geometry_ v))) as El by apply length_replicate.
    rewrite -> Ec in H3.
    split; [done|]. split; [done|]. split; [|rewrite <- El at 1; apply H3].
    assert (rewritten (geometry_ v) (bytes v1) (bytes v3) ∅ {[c]}) as K by (eapply (stored_rewritten _ _ _ _ _ _ _ Hg Hw Hc); [ | |exact H3]; [done|rewrite El; lia]).
    apply (rewritten_trans _ _ _ _ _ _ _ _ H1) in K.
    by rewrite -> map_empty_union, union_empty_l_L in K. }
  assert (keeps v v3) as Hk by (eapply keeps_trans; [done|by apply only_device_keeps]).
  assert (free_clusters_known_ v3 = free_clusters_known_ v /\ free_clusters_ v3 = free_clusters_ v) as [E1 E2].
  { destruct (device_fields _ _ Hd3) as [d ->], (device_fields _ _ Hd1) as [d' E]. unfold v2. rewrite E. done. }
  destruct (taken_counts v v3 c Hv Ht Hk E1 E2) as (R1 & R2 & R3).
  apply wp_bind, wp_modify, wp_bind, wp_modify, wp_ret. rewrite -> Eg. done.
Qed.

Lemma taken_reads_only v v1 v2 c : reads_only v v1 -> taken v1 v2 c -> taken v v2 c.
Proof.
  intros Hr. pose proof (fun o => fat_reads_only_bytes v v1 o Hr) as Hb. unfold taken. rewrite -> (fat_reads_only_geometry _ _ Hr).
  intros (H1 & H2 & H3 & H4). split; [done|]. split; [by rewrite -> (fat_value_ext _ (bytes v1)) by done|]. split; [|done].
  by eapply rewritten_ext.
Qed.

(** ** The search *)

(** The [i]-th cluster from [c] around the volume. *)
Definition around (g : Geometry) (c i : Z) : Z := 2 + (c - 2 + i) mod cluster_count g.

Lemma around_valid g c i : 0 < cluster_count g -> 2 <= around g c i <= cluster_count g + 1.
Proof. intros H. unfold around. pose proof (Z.mod_pos_bound (c - 2 + i) (cluster_count g) H). lia. Qed.

Lemma around_after g c i : 0 < cluster_count g -> cluster_count g <= reserved_cluster -> 2 <= c <= cluster_count g + 1 ->
  around g (after g c) i = around g c (i + 1).
Proof.
  intros H Hcc Hc. unfold reserved_cluster in Hcc. unfold around, after. rewrite -> wrap_small by word. f_equal.
  destruct (Z.eqb_spec c (cluster_count g + 1)) as [->|]; [|f_equal; lia].
  rewrite <- (Z.mod_add (2 - 2 + i) 1) by lia. f_equal. lia.
Qed.

(** Going round once meets every cluster. *)
Lemma around_all g c d : 2 <= d <= cluster_count g + 1 -> exists i, 0 <= i < cluster_count g /\ around g c i = d.
Proof.
  intros Hd. exists ((d - c) mod cluster_count g). split; [apply Z.mod_pos_bound; lia|]. unfold around.
  rewrite -> Zplus_mod_idemp_r. replace (c - 2 + (d - c)) with (d - 2) by lia. rewrite -> Z.mod_small by lia. lia.
Qed.

Lemma allocate_scan_spec n : forall v c, volume_ok v -> 2 <= c <= cluster_count (geometry_ v) + 1 ->
  wp (allocate_scan n c) v (fun v' r => keeps v v' /\
    match r with
    | expected d => taken v v' d /\ (exact v -> exact v')
    | unexpected e => io_failure v e \/
        (e = Error.no_space /\ reads_only v v' /\
         forall i, 0 <= i < Z.of_nat n -> fat_value (geometry_ v) (bytes v) (around (geometry_ v) c i) <> 0)
    end).
Proof.
  induction n as [|n IH]; intros v c Hv Hc; cbn [allocate_scan].
  { apply wp_fail. split; [by apply keeps_refl|]. right. split; [done|]. split; [by apply fat_reads_only_refl, Hv|lia]. }
  pose proof (volume_geometry v Hv) as Hg. pose proof (ok_clusters _ _ Hg) as Hcc.
  apply wp_bind. eapply wp_mono; [by apply fat_entry_spec|].
  intros v1 [value|e] [Hr H]; [subst value|by split; [apply reads_only_keeps|left]].
  pose proof (fat_reads_only_ok _ _ Hr Hv) as Hv1. pose proof (fat_reads_only_geometry _ _ Hr) as Eg.
  pose proof (reads_only_keeps _ _ Hv Hr) as Hk. pose proof (fun o => fat_reads_only_bytes _ _ o Hr) as Hb.
  assert (Hval : forall d, fat_value (geometry_ v) (bytes v1) d = fat_value (geometry_ v) (bytes v) d) by (intros; by apply fat_value_ext).
  apply wp_bind, wp_gets. destruct (Z.eqb_spec (fat_value (geometry_ v) (bytes v) c) 0) as [E|Hne].
  - eapply wp_mono; [apply claim_cluster_spec; [done|by rewrite Eg|by rewrite -> Eg, Hval]|].
    intros v2 r [Hk2 H2]. split; [by eapply keeps_trans|]. destruct r as [d|e]; [|left; by eapply keeps_failure].
    destruct H2 as (-> & Ht & He). split; [by eapply taken_reads_only|]. intros. apply He. by eapply exact_reads_only.
  - assert (2 <= after (geometry_ v) c <= cluster_count (geometry_ v) + 1) as Ha.
    { unfold reserved_cluster in Hcc. unfold after. rewrite -> wrap_small by word. destruct (Z.eqb_spec c (cluster_count (geometry_ v) + 1)); lia. }
    rewrite Eg. eapply wp_mono; [apply IH; [done|by rewrite Eg]|].
    rewrite Eg. intros v2 r [Hk2 H2]. split; [by eapply keeps_trans|]. destruct r as [d|e].
    + destruct H2 as [Ht He]. split; [by eapply taken_reads_only|]. intros. apply He. by eapply exact_reads_only.
    + destruct H2 as [H2|(-> & Hr2 & Hall)]; [left; by eapply keeps_failure|right]. split; [done|].
      split; [by eapply fat_reads_only_trans|]. intros i Hi. destruct (decide (i = 0)) as [->|].
      * unfold around. rewrite -> Z.mod_small by lia. by replace (2 + (c - 2 + 0)) with c by lia.
      * specialize (Hall (i - 1) ltac:(lia)). rewrite -> Hval, around_after in Hall by lia.
        by replace (i - 1 + 1) with i in Hall by lia.
Qed.

(** A free cluster is found when there is one. *)
Lemma allocate_cluster_spec v : volume_ok v ->
  wp allocate_cluster v (fun v' r => keeps v v' /\
    match r with
    | expected c => taken v v' c /\ (exact v -> exact v')
    | unexpected e => io_failure v e \/
        (e = Error.no_space /\ reads_only v v' /\
         forall c, 2 <= c <= cluster_count (geometry_ v) + 1 -> fat_value (geometry_ v) (bytes v) c <> 0)
    end).
Proof.
  intros Hv. pose proof (volume_geometry v Hv) as Hg. pose proof (ok_clusters _ _ Hg) as Hcc.
  unfold allocate_cluster. apply wp_bind, wp_gets, wp_bind, wp_gets.
  rewrite -> (proj2 (valid_cluster_iff _ _ _ Hg)) by apply (volume_hint v Hv).
  eapply wp_mono; [apply allocate_scan_spec; [done|apply (volume_hint v Hv)]|].
  intros v' r [Hk H]. split; [done|]. destruct r as [c|e]; [done|]. destruct H as [H|(-> & Hr & Hall)]; [by left|right].
  split; [done|]. split; [done|]. intros c Hc. destruct (around_all _ (allocation_hint_ v) _ Hc) as (i & Hi & <-).
  apply Hall. lia.
Qed.

(** ** Freeing a chain *)

(** The clusters [l] set to [x]. *)
Definition all_set (x : Z) (l : list Z) : gmap Z Z := gset_to_gmap x (list_to_set l).

Lemma lookup_all_set x l c : all_set x l !! c = if decide (c ∈ l) then Some x else None.
Proof.
  unfold all_set. rewrite -> lookup_gset_to_gmap. destruct (decide (c ∈ l)).
  - case_guard; [done|set_solver].
  - case_guard; [set_solver|done].
Qed.

Lemma all_set_cons x c l : all_set x l ∪ {[c := x]} = all_set x (c :: l).
Proof.
  apply map_eq. intros d. rewrite -> lookup_union, !lookup_all_set.
  destruct (decide (d = c)) as [->|].
  - rewrite -> lookup_singleton_eq. repeat case_decide; set_solver.
  - rewrite -> lookup_singleton_ne by done. repeat case_decide; set_solver.
Qed.

(** The bookkeeping after a cluster is given back. *)
Definition count_freed (c : Z) (v : Volume D) : Volume D :=
  let v := if free_clusters_known_ v && (free_clusters_ v <? cluster_count (geometry_ v)) then v <| free_clusters_ ::= fun n => n + 1 |> else v in
  if c <? allocation_hint_ v then v <| allocation_hint_ := c |> else v.

Lemma count_freed_keeps v c : volume_ok v -> 2 <= c <= cluster_count (geometry_ v) + 1 ->
  keeps v (count_freed c v) /\ bytes (count_freed c v) = bytes v.
Proof.
  intros Hv Hc. unfold count_freed. set (v2 := if _ && _ then _ else _). cbn zeta.
  assert (keeps v v2 /\ bytes v2 = bytes v) as [Hk2 E2].
  { unfold v2. destruct (free_clusters_known_ v) eqn:E1, (Z.ltb_spec (free_clusters_ v) (cluster_count (geometry_ v))); cbn [andb];
      try by split; [apply keeps_refl|].
    split; [|done]. destruct Hv as [? ? ? ? ? Hfr ?]. specialize (Hfr E1). split; [constructor; cbn in *; try done|done..]. lia. }
  destruct (c <? _); [|done]. split; [|done]. destruct Hk2 as [[] ? ? Hg2]. split; [constructor; cbn in *; try done|done..]. by rewrite Hg2.
Qed.

Lemma count_freed_exact v v1 c : volume_ok v -> 2 <= c <= cluster_count (geometry_ v) + 1 -> fat_value (geometry_ v) (bytes v) c <> 0 ->
  only_device v v1 -> rewritten (geometry_ v) (bytes v) (bytes v1) {[c := 0]} ∅ -> exact v -> exact (count_freed c v1).
Proof.
  intros Hv Hc H0 Hd Hr He Hkn. pose proof (volume_geometry v Hv) as Hg. pose proof (only_device_keeps _ _ Hv Hd) as Hk1.
  destruct (count_freed_keeps v1 c (keeps_ok _ _ Hk1) ltac:(by rewrite -> (keeps_geometry _ _ Hk1))) as [Hk2 E2].
  rewrite -> (keeps_geometry _ _ Hk2), (keeps_geometry _ _ Hk1), E2.
  pose proof (free_count_give _ _ _ _ _ _ Hg Hc H0 Hr) as Hcount. destruct (device_fields _ _ Hd) as [d Ed].
  assert (free_count (geometry_ v) (bytes v1) <= cluster_count (geometry_ v)) as Hle.
  { unfold free_count. etrans; [apply inj_le, length_filter|]. rewrite -> length_seqZ. pose proof (ok_clusters _ _ Hg). lia. }
  clear Hk1 Hk2 E2. unfold exact in He. unfold count_freed in *.
  generalize dependent (free_count (geometry_ v) (bytes v1)). intros z Hz Hzl. revert Hkn. clear Hr Hd. subst v1. cbn.
  destruct (free_clusters_known_ v) eqn:E1; cbn [andb].
  - specialize (He eq_refl). rewrite -> (proj2 (Z.ltb_lt (free_clusters_ v) (cluster_count (geometry_ v)))) by lia. intros _. cbn. destruct (c <? _); cbn; lia.
  - destruct (c <? _); cbn; congruence.
Qed.

Lemma valid_link g n value : geometry_ok g n -> 2 <= value <= cluster_count g + 1 -> bad_link g value = false /\ value < end_of_chain.
Proof.
  intros Hg Hv. pose proof (ok_clusters _ _ Hg) as Hcc. unfold reserved_cluster in Hcc. unfold bad_link, bad_cluster, reserved_cluster, end_of_chain.
  rewrite -> (proj2 (valid_cluster_iff _ _ value Hg)), Z.geb_leb, (proj2 (Z.leb_gt _ value)), !(proj2 (Z.eqb_neq value _)) by lia. by split; [|lia].
Qed.

(** An entry on a chain is in use. *)
Lemma chain_used g n f c l d : geometry_ok g n -> chain g f c l -> d ∈ l -> fat_value g f d <> 0.
Proof.
  intros Hg. revert c. induction l as [|x l IH]; intros c; [done|]. intros (-> & Hc & Hl) [->|Hd]%elem_of_cons.
  - destruct l as [|next l]; [unfold end_of_chain in Hl; lia|]. destruct Hl as (Hn & -> & _). lia.
  - destruct l as [|next l]; [by apply not_elem_of_nil in Hd|]. eapply IH; [apply Hl|done].
Qed.

Lemma free_loop_spec n : forall v c l, volume_ok v -> chain (geometry_ v) (bytes v) c l -> (length l <= n)%nat ->
  wp (free_loop n c) v (fun v' r => keeps v v' /\
    match r with
    | expected _ => rewritten (geometry_ v) (bytes v) (bytes v') (all_set 0 l) ∅ /\ (exact v -> exact v')
    | unexpected e => io_failure v e
    end).
Proof.
  induction n as [|n IH]; intros v c l Hv Hc Hn.
  { destruct (chain_head _ _ _ _ Hc) as [t ->]. cbn in Hn. lia. }
  destruct (chain_head _ _ _ _ Hc) as [t ->]. pose proof (volume_geometry v Hv) as Hg. cbn [free_loop].
  pose proof (chain_valid _ _ _ _ c Hc ltac:(by left)) as Hcv. pose proof (chain_used _ _ _ _ _ c Hg Hc ltac:(by left)) as Hused.
  apply wp_bind. eapply wp_mono; [by apply fat_entry_spec|]. intros v0 [value|e] [Hr0 H0]; [|by split; [apply reads_only_keeps|]].
  pose proof (fat_reads_only_ok _ _ Hr0 Hv) as Hv0. pose proof (fat_reads_only_geometry _ _ Hr0) as Eg0.
  pose proof (reads_only_keeps _ _ Hv Hr0) as Hk0. pose proof (fun o => fat_reads_only_bytes _ _ o Hr0) as Hb0.
  apply wp_bind. eapply wp_mono; [apply (write_fat_entry_spec v0 c 0); [done|by rewrite Eg0|done]|].
  intros v1 [_|e] [Hd1 H1]; [|split; [eapply keeps_trans; [done|by apply only_device_keeps]|by eapply keeps_failure]].
  apply wp_bind, wp_modify, wp_bind, wp_modify.
  pose proof (only_device_keeps _ _ Hv0 Hd1) as Hk1.
  destruct (count_freed_keeps v1 c (keeps_ok _ _ Hk1) ltac:(by rewrite -> (keeps_geometry _ _ Hk1), Eg0)) as (Hk3 & Eb3).
  pose proof (count_freed_exact v0 v1 c Hv0 ltac:(by rewrite Eg0) ltac:(by rewrite -> Eg0, (fat_value_ext _ (bytes v))) Hd1 H1) as He3.
  unfold count_freed in Hk3, Eb3, He3. cbn zeta in Hk3, Eb3, He3.
  set (v2 := if free_clusters_known_ v1 && _ then _ else _) in *. set (v3 := if c <? _ then _ else _) in *.
  assert (keeps v v3) as Hk by (eapply keeps_trans; [done|by eapply keeps_trans]). pose proof (keeps_geometry _ _ Hk) as Eg.
  assert (rewritten (geometry_ v) (bytes v) (bytes v3) {[c := 0]} ∅) as Hw.
  { rewrite Eb3. rewrite <- Eg0. by eapply rewritten_ext. }
  assert (exact v -> exact v3) as He by (intros; apply He3; by eapply exact_reads_only).
  pose proof (ok_clusters _ _ Hg) as Hcc. pose proof (chain_nodup _ _ _ _ (proj2 Hcc) Hc) as [Hnin Hnd]%NoDup_cons.
  destruct Hc as (_ & _ & Ht). destruct t as [|next t].
  - rewrite H0. rewrite -> Z.geb_leb, (proj2 (Z.leb_le _ _)) by done. apply wp_ret. split; [done|]. split; [|done].
    rewrite <- all_set_cons. assert (all_set 0 [] = ∅) as -> by done. by rewrite -> map_empty_union.
  - destruct Ht as (Hnv & Hfv & Ht). rewrite -> H0, Hfv. destruct (valid_link _ _ _ Hg Hnv) as [Hbl Hlt].
    rewrite -> Z.geb_leb, (proj2 (Z.leb_gt _ _)) by done. apply wp_bind, wp_gets, wp_bind, wp_stop_if; rewrite -> Eg, Hbl; [done|intros _].
    eapply wp_mono; [apply (IH v3 next (next :: t)); [apply Hk| |cbn in *; lia]|].
    { rewrite Eg. eapply rewritten_chain; [done|exact Hw| |done]. intros d Hd. apply lookup_singleton_ne. congruence. }
    rewrite Eg. intros v4 r [Hk4 H4]. split; [by eapply keeps_trans|]. destruct r as [_|e]; [|by eapply keeps_failure].
    destruct H4 as [Hw4 He4]. split; [|auto]. rewrite <- all_set_cons. pose proof (rewritten_trans _ _ _ _ _ _ _ _ Hw Hw4) as K.
    by rewrite -> union_empty_l_L in K.
Qed.

Lemma free_chain_frees v c l : volume_ok v -> chain (geometry_ v) (bytes v) c l ->
  wp (free_chain c) v (fun v' r => keeps v v' /\
    match r with
    | expected _ => rewritten (geometry_ v) (bytes v) (bytes v') (all_set 0 l) ∅ /\ (exact v -> exact v')
    | unexpected e => io_failure v e
    end).
Proof.
  intros Hv Hc. pose proof (volume_geometry v Hv) as Hg. pose proof (ok_clusters _ _ Hg) as Hcc.
  destruct (chain_head _ _ _ _ Hc) as [t E]. pose proof (chain_valid _ _ _ _ c Hc ltac:(rewrite E; by left)) as Hcv.
  unfold free_chain. rewrite -> (proj2 (Z.eqb_neq _ _)) by lia. apply wp_bind, wp_gets. apply free_loop_spec; [done|done|].
  pose proof (chain_length _ _ _ _ (conj (Z.le_trans 0 65525 _ ltac:(done) (proj1 Hcc)) (proj2 Hcc)) Hc). lia.
Qed.

(** On any chain, sound or not, freeing keeps the volume well formed. *)
Lemma fat_entry_keeps v c : volume_ok v ->
  wp (fat_entry c) v (fun v' r => reads_only v v' /\ match r with expected _ => 2 <= c <= cluster_count (geometry_ v) + 1 | unexpected _ => True end).
Proof.
  intros Hv. pose proof (volume_geometry v Hv) as Hg. destruct (decide (2 <= c <= cluster_count (geometry_ v) + 1)) as [Hc|Hc].
  { eapply wp_mono; [by apply fat_entry_spec|]. by intros v' [] []. }
  unfold fat_entry. apply wp_bind, wp_gets, wp_bind. destruct (valid_cluster (geometry_ v) c) eqn:E; [by apply (valid_cluster_iff _ _ _ Hg) in E|].
  cbn. split; [by apply fat_reads_only_refl, Hv|done].
Qed.

Lemma write_fat_entry_keeps v c value : volume_ok v -> 0 <= value <= fat_mask -> wp (write_fat_entry c value) v (fun v' _ => keeps v v').
Proof.
  intros Hv Hval. pose proof (volume_geometry v Hv) as Hg. destruct (decide (2 <= c <= cluster_count (geometry_ v) + 1)) as [Hc|Hc].
  { eapply wp_mono; [by apply write_fat_entry_spec|]. intros v' r [H _]. by apply only_device_keeps. }
  unfold write_fat_entry. apply wp_bind, wp_gets, wp_bind. destruct (valid_cluster (geometry_ v) c) eqn:E; [by apply (valid_cluster_iff _ _ _ Hg) in E|].
  by apply keeps_refl.
Qed.

Lemma free_loop_keeps n : forall v c, volume_ok v -> wp (free_loop n c) v (fun v' _ => keeps v v').
Proof.
  induction n as [|n IH]; intros v c Hv; cbn [free_loop]; [by apply keeps_refl|].
  apply wp_bind. eapply wp_mono; [by apply fat_entry_keeps|]. intros v0 [value|e] [Hr0 Hc]; [|by apply reads_only_keeps].
  pose proof (reads_only_keeps _ _ Hv Hr0) as Hk0.
  apply wp_bind. eapply wp_mono; [apply write_fat_entry_keeps; [apply Hk0|done]|]. intros v1 [_|e] Hk1; [|by eapply keeps_trans].
  apply wp_bind, wp_modify, wp_bind, wp_modify. pose proof (keeps_trans _ _ _ Hk0 Hk1) as Hk01.
  destruct (count_freed_keeps v1 c (keeps_ok _ _ Hk1) ltac:(by rewrite -> (keeps_geometry _ _ Hk01))) as (Hk3 & _).
  unfold count_freed in Hk3. cbn zeta in Hk3.
  set (v2 := if free_clusters_known_ v1 && _ then _ else _) in *. set (v3 := if c <? _ then _ else _) in *.
  assert (keeps v v3) as Hk by (by eapply keeps_trans).
  destruct (value >=? end_of_chain); [by apply wp_ret|].
  apply wp_bind, wp_gets, wp_bind, wp_stop_if; [done|intros _]. eapply wp_mono; [apply IH, Hk|]. intros v4 r Hk4. by eapply keeps_trans.
Qed.

Lemma free_chain_keeps v c : volume_ok v -> wp (free_chain c) v (fun v' _ => keeps v v').
Proof.
  intros Hv. unfold free_chain. destruct (c =? 0); [by apply keeps_refl|]. apply wp_bind, wp_gets. by apply free_loop_keeps.
Qed.
End alloc.
End Fat32Alloc.
