(* ===== verification/Fat32Chain.v ===== *)
(** * Building FAT32 chains

    [allocate_chain] links free clusters to a chain and gives them all back
    when the volume is full; freeing the chain restores the table. *)

From stdpp Require Import gmap.
From S2P Require Import Prelude Ethernet Filesystem Fat32Name Fat32 Fat32Image Fat32Laws Fat32Mount Fat32Read Fat32Table Fat32Alloc.
Import Fs Fat32 Fat32Image Fat32Laws Fat32Mount Fat32Read Fat32Table Fat32Alloc.
Local Open Scope Z_scope.

Module Fat32Chain.

Section chain.
Context {D : Type} {device : Device D} {laws : DeviceLaws D}.
Implicit Types v : Volume D.

(** ** Building a chain *)

Lemma chain_snoc g f f' c x l : forall first, chain g f first l -> last l = Some x -> NoDup l -> c ∉ l -> 2 <= c <= cluster_count g + 1 ->
  (forall d, d ∈ l -> d <> x -> fat_value g f' d = fat_value g f d) -> fat_value g f' x = c -> end_of_chain <= fat_value g f' c ->
  chain g f' first (l ++ [c]).
Proof.
  induction l as [|d l IH]; intros first; [done|]. intros (-> & Hc & Hl) Hlast Hnd Hnin Hcv Hsame Hx He.
  apply NoDup_cons in Hnd as [Hd Hnd]. destruct l as [|next l].
  - injection Hlast as [= ->]. cbn. split; [done|]. split; [done|]. split; [done|]. split; [done|]. by split.
  - destruct Hl as (Hn & Hf & Hl). change ((first :: next :: l) ++ [c]) with (first :: next :: (l ++ [c])). cbn [chain].
    split; [done|]. split; [done|]. split; [done|]. split.
    + rewrite -> Hsame; [done|by left|]. intros ->. apply Hd. by apply last_Some_elem_of.
    + apply (IH next); [done|done|done| |done| |done|done].
      * intros H. apply Hnin. by right.
      * intros y Hy. apply Hsame. by right.
Qed.

(** [l] was free in [v]; in [v'] it is a chain from [first] to [last], all
    zero, and nothing else is different. *)
Record fresh (v v' : Volume D) (first last_ : Z) (l : list Z) : Prop := {
  fresh_free d : d ∈ l -> 2 <= d <= cluster_count (geometry_ v) + 1 /\ fat_value (geometry_ v) (bytes v) d = 0;
  fresh_written : exists W : gmap Z Z, dom W = (list_to_set l : gset Z) /\ rewritten (geometry_ v) (bytes v) (bytes v') W (list_to_set l);
  fresh_chain : if l is [] then first = 0 else chain (geometry_ v) (bytes v') first l /\ last l = Some last_;
  fresh_zero d : d ∈ l -> bytes_at (bytes v') (cluster_start (geometry_ v) d) (Z.to_nat (bytes_per_cluster (geometry_ v))) = zero_bytes (bytes_per_cluster (geometry_ v));
  fresh_exact : exact v -> exact v';
}.

Lemma list_to_set_snoc (l : list Z) c : (list_to_set (l ++ [c]) : gset Z) = list_to_set l ∪ {[c]}.
Proof. set_solver. Qed.

(** One more cluster is taken. *)
Lemma fresh_taken v v1 v2 first last_ l c : volume_ok v -> keeps v v1 -> fresh v v1 first last_ l -> taken v1 v2 c ->
  c ∉ l /\ 2 <= c <= cluster_count (geometry_ v) + 1 /\ fat_value (geometry_ v) (bytes v) c = 0 /\
  (exists W : gmap Z Z, dom W = (list_to_set (l ++ [c]) : gset Z) /\ rewritten (geometry_ v) (bytes v) (bytes v2) W (list_to_set (l ++ [c]))) /\
  (if l is [] then first = 0 else chain (geometry_ v) (bytes v2) first l /\ last l = Some last_) /\
  fat_value (geometry_ v) (bytes v2) c = end_of_chain /\
  (forall d, d ∈ l ++ [c] -> bytes_at (bytes v2) (cluster_start (geometry_ v) d) (Z.to_nat (bytes_per_cluster (geometry_ v))) = zero_bytes (bytes_per_cluster (geometry_ v))).
Proof.
  intros Hv Hk [F1 [W [Hdom Hw]] F3 F4 F5]. pose proof (volume_geometry v Hv) as Hg. unfold taken. rewrite -> (keeps_geometry _ _ Hk). intros (Hc & H0 & Hr & Hz).
  assert (c ∉ l) as Hnin.
  { intros Hin. destruct l as [|x l]; [by apply not_elem_of_nil in Hin|]. by apply (chain_used _ _ _ _ _ c Hg (proj1 F3) Hin). }
  split; [done|]. split; [done|]. split.
  { rewrite -> (rewritten_value _ _ _ _ _ _ c Hg Hw) in H0 by done. rewrite -> (not_elem_of_dom_1 W) in H0 by set_solver. done. }
  split.
  { exists ({[c := end_of_chain]} ∪ W). split; [rewrite -> dom_union_L, dom_singleton_L, Hdom, list_to_set_snoc; set_solver|].
    pose proof (rewritten_trans _ _ _ _ _ _ _ _ Hw Hr) as K. by rewrite -> list_to_set_snoc. }
  split.
  { destruct l as [|x l]; [done|]. split; [|apply F3]. eapply rewritten_chain; [done|exact Hr| |apply F3].
    intros d Hd. apply lookup_singleton_ne. congruence. }
  split; [rewrite -> (rewritten_value _ _ _ _ _ _ c Hg Hr) by done; by rewrite -> lookup_singleton_eq|].
  intros d [Hd| ->%list_elem_of_singleton]%elem_of_app; [|done].
  rewrite -> (cluster_bytes_kept _ _ _ _ _ _ d Hg (fat_device_size_word v Hv) Hr); [by apply F4|by apply F1|set_solver].
Qed.

Lemma free_count_zeroness g f f' : (forall d, 2 <= d <= cluster_count g + 1 -> fat_value g f' d = 0 <-> fat_value g f d = 0) ->
  free_count g f' = free_count g f.
Proof. intros H. unfold free_count. do 2 f_equal. apply filter_agree. intros d Hd%elem_of_clusters. by apply H. Qed.

(** An entry in use is given another value. *)
Lemma relink_exact v v1 c x : volume_ok v -> only_device v v1 -> fat_value (geometry_ v) (bytes v) c <> 0 -> x <> 0 ->
  rewritten (geometry_ v) (bytes v) (bytes v1) {[c := x]} ∅ -> exact v -> exact v1.
Proof.
  intros Hv Hd Hused Hx Hr He. pose proof (volume_geometry v Hv) as Hg.
  assert (free_count (geometry_ v) (bytes v1) = free_count (geometry_ v) (bytes v)) as E.
  { apply free_count_zeroness. intros d Hdv. rewrite -> (rewritten_value _ _ _ _ _ _ d Hg Hr) by done.
    destruct (decide (d = c)) as [->|]; [by rewrite -> lookup_singleton_eq|by rewrite -> lookup_singleton_ne]. }
  destruct (device_fields _ _ Hd) as [d ->]. intros Hk. specialize (He Hk). cbn in *. congruence.
Qed.

Lemma fresh_first v v1 first last_ l : volume_ok v -> fresh v v1 first last_ l -> (first =? 0) = bool_decide (l = []).
Proof.
  intros Hv [F1 _ F3 _ _]. destruct l as [|x l]; [by subst first|].
  pose proof (chain_valid _ _ _ _ x (proj1 F3) ltac:(by left)). destruct (chain_head _ _ _ _ (proj1 F3)) as [t [= -> _]].
  rewrite -> bool_decide_eq_false_2 by done. apply Z.eqb_neq. lia.
Qed.

Lemma fresh_nodup v v1 first last_ l : volume_ok v -> fresh v v1 first last_ l -> NoDup l.
Proof.
  intros Hv [_ _ F3 _ _]. destruct l as [|x l]; [by apply NoDup_nil|]. eapply chain_nodup; [|apply F3].
  apply (ok_clusters _ _ (volume_geometry v Hv)).
Qed.

(** The chain grows by [link]. *)
Lemma link_spec v v1 v2 first last_ l c : volume_ok v -> keeps v v1 -> fresh v v1 first last_ l -> l <> [] ->
  taken v1 v2 c -> keeps v v2 -> (exact v -> exact v2) ->
  wp (link first last_ c) v2 (fun v3 r => keeps v v3 /\
    match r with expected _ => fresh v v3 first c (l ++ [c]) | unexpected e => io_failure v e end).
Proof.
  intros Hv Hk1 Hf Hl Ht Hk2 He2. pose proof (volume_geometry v Hv) as Hg. pose proof (fresh_nodup _ _ _ _ _ Hv Hf) as Hnd.
  destruct (fresh_taken v v1 v2 first last_ l c Hv Hk1 Hf Ht) as (Hnin & Hc & H0 & (W & Hdom & Hw) & Hch & Hend & Hz).
  assert (chain (geometry_ v) (bytes v2) first l /\ last l = Some last_) as [Hchain Hlast] by (by destruct l).
  assert (last_ ∈ l) as Hin by (by apply last_Some_elem_of). pose proof (chain_valid _ _ _ _ _ Hchain Hin) as Hlv.
  assert (0 <= c <= fat_mask) as Hcm by (pose proof (ok_clusters _ _ Hg) as Hcc; unfold reserved_cluster in Hcc; unfold fat_mask; lia).
  pose proof (keeps_geometry _ _ Hk2) as Eg. pose proof (keeps_ok _ _ Hk2) as Hv2. unfold link. apply wp_bind, wp_attempt.
  eapply wp_mono; [apply write_fat_entry_spec; [done|by rewrite Eg|done]|]. intros v3 [_|e] [Hd3 H3];
    assert (keeps v v3) as Hk3 by (eapply keeps_trans; [done|by apply only_device_keeps]).
  - rewrite -> Eg in H3. apply wp_ret. split; [done|].
    assert (forall d, 2 <= d <= cluster_count (geometry_ v) + 1 -> d <> last_ -> fat_value (geometry_ v) (bytes v3) d = fat_value (geometry_ v) (bytes v2) d) as Hother.
    { intros d Hd Hne. rewrite -> (rewritten_value _ _ _ _ _ _ d Hg H3) by done. by rewrite -> lookup_singleton_ne. }
    split.
    + intros d [Hd| ->%list_elem_of_singleton]%elem_of_app; [by apply Hf|done].
    + exists ({[last_ := c]} ∪ W). split; [rewrite -> dom_union_L, dom_singleton_L, Hdom; set_solver|].
      pose proof (rewritten_trans _ _ _ _ _ _ _ _ Hw H3) as K. by rewrite -> union_empty_r_L in K.
    + destruct (l ++ [c]) eqn:E; [by destruct l|]. rewrite <- E. split; [|by rewrite -> last_snoc].
      eapply (chain_snoc _ (bytes v2)); [done|done|done|done|done| | |].
      * intros d Hd Hne. apply Hother; [by eapply chain_valid|done].
      * rewrite -> (rewritten_value _ _ _ _ _ _ last_ Hg H3) by done. by rewrite -> lookup_singleton_eq.
      * rewrite -> Hother, Hend; [lia|done|]. by intros ->.
    + intros d Hd. rewrite -> (cluster_bytes_kept _ _ _ _ _ _ d Hg (fat_device_size_word v Hv) H3); [by apply Hz| |set_solver].
      apply elem_of_app in Hd as [Hd| ->%list_elem_of_singleton]; [by eapply chain_valid|done].
    + intros He. eapply (relink_exact v2 v3 last_ c); [done|done| |lia|by rewrite Eg|by apply He2].
      rewrite Eg. by eapply chain_used.
  - apply wp_bind, wp_attempt. eapply wp_mono; [apply write_fat_entry_keeps; [apply Hk3|done]|]. intros v4 r4 Hk4.
    pose proof (keeps_trans _ _ _ Hk3 Hk4) as Hk04.
    apply wp_bind, wp_attempt. eapply wp_mono; [apply free_chain_keeps, Hk4|]. intros v5 r5 Hk5. apply wp_fail.
    split; [by eapply keeps_trans|by apply (keeps_failure v v2)].
Qed.

(** The volume is full and what was taken is given back. *)
Record given_back (v v' : Volume D) (l : list Z) : Prop := {
  given_free d : d ∈ l <-> 2 <= d <= cluster_count (geometry_ v) + 1 /\ fat_value (geometry_ v) (bytes v) d = 0;
  given_count : free_count (geometry_ v) (bytes v) = Z.of_nat (length l);
  given_written : rewritten (geometry_ v) (bytes v) (bytes v') (all_set 0 l) (list_to_set l);
  given_exact : exact v -> exact v';
}.

Lemma free_count_list g f l : NoDup l -> (forall d, d ∈ l <-> 2 <= d <= cluster_count g + 1 /\ fat_value g f d = 0) ->
  free_count g f = Z.of_nat (length l).
Proof.
  intros Hnd H. unfold free_count. f_equal. apply Permutation_length, NoDup_Permutation; [by apply NoDup_filter, NoDup_seqZ|done|].
  intros d. rewrite -> list_elem_of_filter, elem_of_clusters, H. tauto.
Qed.

Lemma fresh_full v v1 v2 first last_ l : volume_ok v -> keeps v v1 -> fresh v v1 first last_ l -> reads_only v1 v2 ->
  (forall c, 2 <= c <= cluster_count (geometry_ v) + 1 -> fat_value (geometry_ v) (bytes v1) c <> 0) ->
  forall d, d ∈ l <-> 2 <= d <= cluster_count (geometry_ v) + 1 /\ fat_value (geometry_ v) (bytes v) d = 0.
Proof.
  intros Hv Hk [F1 [W [Hdom Hw]] _ _ _] Hr Hfull d. split; [apply F1|]. intros [Hd H0].
  pose proof (Hfull d Hd) as Hne. rewrite -> (rewritten_value _ _ _ _ _ _ d (volume_geometry v Hv) Hw), H0 in Hne by done.
  destruct (W !! d) as [x|] eqn:E; [|done]. apply elem_of_dom_2 in E. set_solver.
Qed.

(** The outcome of taking [n] more clusters. *)
Definition chained (v v' : Volume D) (n : nat) (r : Result (Z * Z)) : Prop :=
  match r with
  | expected (first, last_) => exists l, length l = n /\ fresh v v' first last_ l
  | unexpected e => ~ reliable (device_ v) \/ e = Error.no_space /\ exists l, (length l < n)%nat /\ given_back v v' l
  end.

(** The end of a failed [allocate_chain]. *)
Lemma give_back_spec v v1 v2 first last_ l e n (Q : Volume D -> Result (Z * Z) -> Prop) : volume_ok v -> keeps v v1 -> fresh v v1 first last_ l ->
  (length l < n)%nat -> keeps v1 v2 ->
  io_failure v1 e \/ (e = Error.no_space /\ reads_only v1 v2 /\
    forall c, 2 <= c <= cluster_count (geometry_ v1) + 1 -> fat_value (geometry_ v1) (bytes v1) c <> 0) ->
  (forall v' r, keeps v v' /\ chained v v' n r -> Q v' r) ->
  wp ((if first =? 0 then mret tt else attempt (free_chain first);; mret tt);; fail e) v2 Q.
Proof.
  intros Hv Hk1 Hf Hn Hk12 He HQ. pose proof (keeps_trans _ _ _ Hk1 Hk12) as Hk2. rewrite -> (fresh_first v v1 first last_ l) by done.
  destruct He as [[_ Hio]|(-> & Hr & Hfull)].
  { assert (~ reliable (device_ v)) as Hnr by (intros H; by apply Hio, (keeps_reliable _ _ Hk1)). apply wp_bind. destruct (bool_decide (l = [])).
    { apply wp_ret, wp_fail, HQ. by split; [|left]. }
    apply wp_bind, wp_attempt. eapply wp_mono; [apply free_chain_keeps, Hk2|]. intros v3 r Hk3. apply wp_ret, wp_fail, HQ.
    split; [by eapply keeps_trans|by left]. }
  pose proof (keeps_geometry _ _ Hk1) as Eg1. rewrite -> Eg1 in Hfull. pose proof (volume_geometry v Hv) as Hg.
  pose proof (fresh_full v v1 v2 first last_ l Hv Hk1 Hf Hr Hfull) as Hfree. pose proof (fresh_nodup _ _ _ _ _ Hv Hf) as Hnd.
  pose proof (free_count_list _ _ _ Hnd Hfree) as Hcount. destruct Hf as [F1 [W [Hdom Hw]] F3 F4 F5].
  assert (rewritten (geometry_ v) (bytes v) (bytes v2) W (list_to_set l)) as Hw2.
  { eapply rewritten_ext_r; [|exact Hw]. intros o. by apply fat_reads_only_bytes. }
  apply wp_bind. case_bool_decide as Hl.
  { apply wp_ret, wp_fail, HQ. split; [done|]. right. split; [done|]. exists l. split; [done|]. split; [done|done| |].
    - subst l. assert (W = ∅) as -> by (by apply dom_empty_inv_L). exact Hw2.
    - intros. eapply exact_reads_only; [exact Hr|]. by apply F5. }
  assert (chain (geometry_ v) (bytes v1) first l) as Hchain by (by destruct l; [|apply F3]).
  apply wp_bind, wp_attempt. eapply wp_mono; [apply (free_chain_frees v2 first l); [apply Hk2|]|].
  { eapply chain_reads_only; [exact Hr|]. by rewrite Eg1. }
  intros v3 r [Hk3 H3]. apply wp_ret, wp_fail, HQ. pose proof (keeps_trans _ _ _ Hk2 Hk3) as Hk03. split; [done|]. destruct r as [_|e].
  - right. split; [done|]. exists l. split; [done|]. destruct H3 as [Hw3 He3]. rewrite -> (keeps_geometry _ _ Hk2) in Hw3.
    split; [done|done| |intros; apply He3; eapply exact_reads_only; [exact Hr|by apply F5]].
    pose proof (rewritten_trans _ _ _ _ _ _ _ _ Hw2 Hw3) as K. rewrite -> union_empty_r_L in K.
    replace (all_set 0 l ∪ W) with (all_set 0 l) in K; [done|]. apply map_eq. intros d. rewrite -> lookup_union, lookup_all_set.
    destruct (decide (d ∈ l)); [by destruct (W !! d)|]. rewrite -> (not_elem_of_dom_1 W) by set_solver. done.
  - left. intros H. destruct H3 as [_ H3]. apply H3. by apply (keeps_reliable _ _ Hk2).
Qed.

Lemma allocate_loop_spec n : forall v v1 first last_ l, volume_ok v -> keeps v v1 -> fresh v v1 first last_ l ->
  wp (allocate_loop n first last_) v1 (fun v' r => keeps v v' /\ chained v v' (length l + n) r).
Proof.
  induction n as [|n IH]; intros v v1 first last_ l Hv Hk1 Hf; cbn [allocate_loop].
  { apply wp_ret. split; [done|]. exists l. by rewrite Nat.add_0_r. }
  pose proof (keeps_geometry _ _ Hk1) as Eg1. pose proof (volume_geometry v Hv) as Hg.
  apply wp_bind, wp_attempt. eapply wp_mono; [by apply allocate_cluster_spec, Hk1|]. intros v2 [c|e] [Hk12 H2].
  2: { eapply (give_back_spec v v1 v2 first last_ l e (length l + S n)); [done|done|done|lia|done|done|done]. }
  pose proof (keeps_trans _ _ _ Hk1 Hk12) as Hk2. destruct H2 as [Ht He]. rewrite -> (fresh_first v v1 first last_ l) by done.
  pose proof (fresh_exact _ _ _ _ _ Hf) as Hef.
  case_bool_decide as Hl.
  - destruct (fresh_taken v v1 v2 first last_ l c Hv Hk1 Hf Ht) as (Hnin & Hc & H0 & (W & Hdom & Hw) & Hch & Hend & Hz). subst l.
    eapply wp_mono; [apply (IH v v2 c c [c]); [done|done|]|done]. split.
    + by intros d ->%list_elem_of_singleton.
    + by exists W.
    + cbn. rewrite Hend. done.
    + done.
    + auto.
  - apply wp_bind. eapply wp_mono; [apply (link_spec v v1 v2 first last_ l c); [done|done|done|done|done|done|auto]|].
    intros v3 [_|e] [Hk3 H3]; [|split; [done|left; apply H3]].
    eapply wp_mono; [apply (IH v v3 first c (l ++ [c])); [done|done|done]|]. intros v4 r. rewrite -> length_app. cbn [length].
    by rewrite <- Nat.add_assoc.
Qed.

Lemma allocate_chain_fresh v count : volume_ok v ->
  wp (allocate_chain count) v (fun v' r => keeps v v' /\ chained v v' (Z.to_nat count) r).
Proof.
  intros Hv. apply (allocate_loop_spec _ v v 0 0 []); [done|by apply keeps_refl|]. split.
  - by intros d Hd%not_elem_of_nil.
  - exists ∅. split; [done|]. by apply rewritten_refl.
  - done.
  - by intros d Hd%not_elem_of_nil.
  - done.
Qed.

(** A chain that was built did fit. *)
Lemma fresh_count v v' first last_ l : volume_ok v -> fresh v v' first last_ l -> Z.of_nat (length l) <= free_count (geometry_ v) (bytes v).
Proof.
  intros Hv Hf. unfold free_count. apply inj_le, submseteq_length, NoDup_submseteq; [by eapply fresh_nodup|].
  intros d Hd. apply list_elem_of_filter. destruct (fresh_free _ _ _ _ _ Hf d Hd). split; [done|]. by apply elem_of_clusters.
Qed.

(** C17: building a chain of [count] clusters.  On a device that works it
    succeeds exactly when the volume has that many free clusters.  The chain
    then has [count] clusters, all free before and all zero now, in every
    maintained table, and no other entry, reserved bit or byte of data is
    different; when it fails for want of space every cluster it took is free
    again.  The count of free clusters stays exact either way. *)
Theorem fat_allocate_chain_spec v count : volume_ok v -> 0 <= count ->
  let '(v', r) := allocate_chain count v in
  volume_ok v' /\ geometry_ v' = geometry_ v /\
  match r with
  | expected (first, last_) => exists l, Z.of_nat (length l) = count /\ fresh v v' first last_ l
  | unexpected e => ~ reliable (device_ v) \/
      e = Error.no_space /\ free_count (geometry_ v) (bytes v) < count /\ exists l, given_back v v' l
  end /\
  (reliable (device_ v) -> count <= free_count (geometry_ v) (bytes v) <-> exists x, r = expected x).
Proof.
  intros Hv Hcount. pose proof (allocate_chain_fresh v count Hv) as H. unfold wp in H.
  destruct (allocate_chain count v) as [v' r]. destruct H as [[Hok _ _ Hg] H]. cbn in *. split; [done|]. split; [done|].
  destruct r as [[first last_]|e].
  - destruct H as (l & Hl & Hf). split; [exists l; split; [lia|done]|]. intros _. pose proof (fresh_count _ _ _ _ _ Hv Hf).
    split; [by eexists|intros; lia].
  - destruct H as [H|(-> & l & Hl & Hb)]; [split; [by left|done]|]. pose proof (given_count _ _ _ Hb) as Hc.
    split; [right; split; [done|]; split; [lia|by eexists]|]. intros _. split; [lia|by intros [? ?]].
Qed.

(** Freeing a chain sets exactly its entries to zero, in every maintained
    table, and changes no other entry, no reserved bit and no byte outside the
    tables; the count of free clusters stays exact, and the only error is a
    failing device. *)
Theorem fat_free_chain_spec v first l : volume_ok v -> chain (geometry_ v) (bytes v) first l ->
  let '(v', r) := free_chain first v in
  volume_ok v' /\ geometry_ v' = geometry_ v /\
  match r with
  | expected _ => rewritten (geometry_ v) (bytes v) (bytes v') (all_set 0 l) ∅ /\ (exact v -> exact v')
  | unexpected e => io_failure v e
  end.
Proof.
  intros Hv Hc. pose proof (free_chain_frees v first l Hv Hc) as H. unfold wp in H.
  destruct (free_chain first v) as [v' r]. destruct H as [[Hok _ _ Hg] H]. done.
Qed.
End chain.

Lemma fat_allocate_chain_spec_witness :
  let '(v', r) := allocate_chain 3 volume in
  volume_ok v' /\ geometry_ v' = geometry_ volume /\
  match r with
  | expected (first, last_) => exists l, Z.of_nat (length l) = 3 /\ fresh volume v' first last_ l
  | unexpected e => ~ reliable (device_ volume) \/
      e = Error.no_space /\ free_count (geometry_ volume) (bytes volume) < 3 /\ exists l, given_back volume v' l
  end /\
  (reliable (device_ volume) -> 3 <= free_count (geometry_ volume) (bytes volume) <-> exists x, r = expected x).
Proof. exact (fat_allocate_chain_spec volume 3 volume_well_formed ltac:(done)). Defined.

Lemma fat_free_chain_spec_witness :
  (free_chain 3 file_volume).2 = expected tt /\
  let '(v', r) := free_chain 3 file_volume in
  volume_ok v' /\ geometry_ v' = geometry_ file_volume /\
  match r with
  | expected _ => rewritten (geometry_ file_volume) (bytes file_volume) (bytes v') (all_set 0 [3; 5]) ∅ /\ (exact file_volume -> exact v')
  | unexpected e => io_failure file_volume e
  end.
Proof. split; [vm_compute; reflexivity|]. exact (fat_free_chain_spec file_volume 3 [3; 5] file_volume_ok file_chain). Defined.
End Fat32Chain.
