(* ===== verification/Fat32File.v ===== *)
(** * Writing into the clusters of a FAT32 file

    The clusters of a chain read as one array of bytes; storing into them,
    with data or with zeros, is storing into that array. *)

From stdpp Require Import gmap.
From S2P Require Import Prelude Ethernet Filesystem Fat32Name Fat32 Fat32Image Fat32Laws Fat32Mount Fat32Read Fat32Table Fat32Alloc.
Import Fs Fat32 Fat32Laws Fat32Read Fat32Table Fat32Alloc.
Local Open Scope Z_scope.

Module Fat32File.

(** Every index of the array lies in one cluster of the chain. *)
Lemma file_byte_at g f l k c o : 0 < bytes_per_cluster g -> l !! k = Some c -> 0 <= o < bytes_per_cluster g ->
  file_byte g f l (Z.of_nat k * bytes_per_cluster g + o) = f (cluster_start g c + o).
Proof.
  intros Hb Hk Ho. unfold file_byte. rewrite -> Z.add_comm, Z.div_add, Z.mod_add, Z.div_small, Z.mod_small by lia.
  replace (Z.to_nat (0 + Z.of_nat k)) with k by lia. by rewrite Hk.
Qed.

(** [data] stored at [offset] of the clusters [l], and nowhere else. *)
Record file_stored (g : Geometry) (f f' : Z -> Z) (l : list Z) (offset : Z) (data : list Z) : Prop := {
  file_stored_bytes o : 0 <= o -> file_byte g f' l o =
    if decide (offset <= o < offset + Z.of_nat (length data)) then byte data (Z.to_nat (o - offset)) else file_byte g f l o;
  file_stored_rest : rewritten g f f' ∅ (list_to_set l);
}.

Lemma rewritten_weaken g f f' W X Y : X ⊆ Y -> rewritten g f f' W X -> rewritten g f f' W Y.
Proof. intros Hxy [A1 A2 A3]. split; [done..|]. intros o Ho Hy. apply A3; [done|]. intros c Hc. apply Hy. set_solver. Qed.

(** Storing in one cluster of a file. *)
Lemma cluster_stored g n f f' l k c within data : geometry_ok g n -> n < 2 ^ 64 -> NoDup l -> l !! k = Some c ->
  2 <= c <= cluster_count g + 1 -> 0 <= within -> within + Z.of_nat (length data) <= bytes_per_cluster g -> 0 < bytes_per_cluster g ->
  stored f f' (cluster_start g c + within) data ->
  file_stored g f f' l (Z.of_nat k * bytes_per_cluster g + within) data.
Proof.
  intros Hg Hn Hnd Hk Hc Hw Hl Hb Hs. pose proof Hs as [H1 H2]. split.
  - intros o Ho. pose proof (Z.div_mod o (bytes_per_cluster g) ltac:(lia)) as Ed. pose proof (Z.mod_pos_bound o (bytes_per_cluster g) Hb) as Hm.
    assert (0 <= o / bytes_per_cluster g) as Hq by (apply Z.div_pos; lia).
    destruct (decide _) as [Hin|Hout].
    + assert (o / bytes_per_cluster g = Z.of_nat k) as Eq by nia. rewrite -> Ed, Z.mul_comm, Eq, (file_byte_at _ _ _ _ c) by (done || lia).
      rewrite Eq in Ed. unfold byte. rewrite <- H1, lookup_bytes_at by lia. cbn. f_equal. lia.
    + unfold file_byte. destruct (l !! Z.to_nat (o / bytes_per_cluster g)) as [d|] eqn:E; [|done]. apply H2. intros Hin.
      assert (c = d) as <- by (apply (in_cluster_disjoint g n c d (cluster_start g d + o mod bytes_per_cluster g)); unfold in_cluster; [done|lia|lia]).
      pose proof (NoDup_lookup _ _ _ _ Hnd Hk E) as ->. apply Hout. rewrite -> Z2Nat.id by done. lia.
  - apply (rewritten_weaken _ _ _ _ {[c]}); [apply list_elem_of_lookup_2 in Hk; set_solver|].
    eapply (stored_rewritten _ _ _ _ _ _ _ Hg Hn Hc); [| |exact Hs]; lia.
Qed.

Lemma file_stored_nil g f f' l offset : (forall o, f' o = f o) -> file_stored g f f' l offset [].
Proof.
  intros H. split.
  - intros o _. rewrite -> decide_False by (cbn; lia). unfold file_byte. by destruct (_ !! _).
  - apply (rewritten_weaken _ _ _ _ ∅); [set_solver|]. by apply rewritten_refl.
Qed.

Lemma file_stored_app g f1 f2 f3 l offset a b : file_stored g f1 f2 l offset a ->
  file_stored g f2 f3 l (offset + Z.of_nat (length a)) b -> file_stored g f1 f3 l offset (a ++ b).
Proof.
  intros [A1 A2] [B1 B2]. split.
  - intros o Ho. rewrite -> B1, A1 by done. rewrite -> length_app. unfold byte.
    destruct (decide (offset + Z.of_nat (length a) <= o < offset + Z.of_nat (length a) + Z.of_nat (length b))) as [H|H].
    + rewrite -> decide_True, lookup_app_r by lia. do 2 f_equal. lia.
    + destruct (decide (offset <= o < offset + Z.of_nat (length a))).
      * by rewrite -> decide_True, lookup_app_l by lia.
      * by rewrite -> decide_False by lia.
  - pose proof (rewritten_trans _ _ _ _ _ _ _ _ A2 B2) as K. by rewrite -> map_empty_union, union_idemp_L in K.
Qed.

Lemma file_stored_ext g f1 f2 f3 l offset data : (forall o, f2 o = f1 o) -> file_stored g f2 f3 l offset data -> file_stored g f1 f3 l offset data.
Proof. intros H K. exact (file_stored_app _ _ _ _ _ _ [] data (file_stored_nil g f1 f2 l offset H) ltac:(by rewrite Z.add_0_r)). Qed.

(** A chain is not touched. *)
Lemma file_stored_chain g n f f' l offset data c m : geometry_ok g n -> file_stored g f f' l offset data -> chain g f c m -> chain g f' c m.
Proof. intros Hg [_ H]. by eapply rewritten_chain; [done|exact H|]. Qed.

Lemma chain_at g f first l k c : chain g f first l -> l !! k = Some c -> chain g f c (drop k l).
Proof.
  intros H Hk. rewrite <- (take_drop_middle l k c Hk) in H. apply chain_suffix in H. by rewrite -> (drop_S _ c) by done.
Qed.

Section file.
Context {D : Type} {device : Device D} {laws : DeviceLaws D}.
Implicit Types v : Volume D.

Lemma follow_at v first l k c next : volume_ok v -> chain (geometry_ v) (bytes v) first l -> l !! k = Some c -> l !! S k = Some next ->
  wp (follow c) v (fun v' r => reads_only v v' /\ match r with expected n => n = next | unexpected e => io_failure v e end).
Proof.
  intros Hv Hc Hk Hn. eapply follow_chain; [done|]. pose proof (chain_at _ _ _ _ _ _ Hc Hk) as H.
  rewrite -> (drop_S _ c), (drop_S _ next) in H by done. exact H.
Qed.

(** Walking along a chain. *)
Lemma walk_spec n : forall v first l k c d, volume_ok v -> chain (geometry_ v) (bytes v) first l -> l !! k = Some c -> l !! (k + n)%nat = Some d ->
  wp (walk n c) v (fun v' r => reads_only v v' /\ match r with expected x => x = d | unexpected e => io_failure v e end).
Proof.
  induction n as [|n IH]; intros v first l k c d Hv Hc Hk Hd; cbn [walk].
  { rewrite -> Nat.add_0_r in Hd. apply wp_ret. split; [by apply fat_reads_only_refl, Hv|congruence]. }
  destruct (lookup_lt_is_Some_2 l (S k)) as [next Hn]; [apply lookup_lt_Some in Hd; lia|].
  apply wp_bind. eapply wp_mono; [by eapply follow_at|]. intros v1 [x|e] [Hr H]; [subst x|done].
  eapply wp_mono; [eapply (IH v1 first l (S k)); [by eapply fat_reads_only_ok|by eapply chain_reads_only|done|]|].
  { rewrite <- Hd. f_equal. lia. }
  intros v2 r [Hr2 H2]. split; [by eapply fat_reads_only_trans|]. destruct r; [done|by eapply fat_io_failure_mono].
Qed.

(** A transfer into the cluster at index [k] of a file. *)
Lemma write_cluster_spec v first l k c within data : volume_ok v -> chain (geometry_ v) (bytes v) first l -> l !! k = Some c ->
  bytes_ok data -> 0 <= within -> within + Z.of_nat (length data) <= bytes_per_cluster (geometry_ v) ->
  u64 (cluster_byte_offset (geometry_ v) c + within) = cluster_start (geometry_ v) c + within /\
  wp (write_bytes (cluster_start (geometry_ v) c + within) data) v (fun v' r => only_device v v' /\
    match r with
    | expected _ => file_stored (geometry_ v) (bytes v) (bytes v') l (Z.of_nat k * bytes_per_cluster (geometry_ v) + within) data
    | unexpected e => io_failure v e
    end).
Proof.
  intros Hv Hc Hk Hd Hw Hl. pose proof (volume_geometry v Hv) as Hg. pose proof (fat_device_size_word v Hv) as Hn. pose proof (cluster_size v Hv) as Hbs.
  pose proof (chain_valid _ _ _ _ c Hc ltac:(by eapply list_elem_of_lookup_2)) as Hcv.
  destruct (cluster_bounds _ _ _ Hg Hcv Hn) as (Ec & B1 & B2). destruct (data_start_nonneg _ _ Hg) as [_ B0]. rewrite Ec.
  split; [apply wrap_small; unfold in_u; lia|]. eapply wp_mono; [apply write_bytes_spec; [apply Hv|done|lia..]|].
  intros v' r [Hr H]. split; [done|]. destruct r as [_|e]; [|done].
  eapply (cluster_stored _ _ _ _ _ _ _ _ _ Hg Hn); [|done|done|done|done|lia|done].
  eapply chain_nodup; [apply (ok_clusters _ _ Hg)|done].
Qed.

Lemma file_stored_kept v v' l offset data first m : volume_ok v -> keeps v v' -> file_stored (geometry_ v) (bytes v) (bytes v') l offset data ->
  chain (geometry_ v) (bytes v) first m -> chain (geometry_ v') (bytes v') first m.
Proof. intros Hv Hk Hs Hc. rewrite -> (keeps_geometry _ _ Hk). eapply file_stored_chain; [apply Hv|done|done]. Qed.

(** ** Writing data *)

Lemma file_write_loop_spec fuel : forall v first l k c within data, volume_ok v -> chain (geometry_ v) (bytes v) first l -> l !! k = Some c ->
  bytes_ok data -> 0 <= within < bytes_per_cluster (geometry_ v) ->
  Z.of_nat k * bytes_per_cluster (geometry_ v) + within + Z.of_nat (length data) <= Z.of_nat (length l) * bytes_per_cluster (geometry_ v) ->
  (length data < fuel)%nat ->
  wp (write_loop fuel c within data) v (fun v' r => only_device v v' /\
    match r with
    | expected _ => file_stored (geometry_ v) (bytes v) (bytes v') l (Z.of_nat k * bytes_per_cluster (geometry_ v) + within) data
    | unexpected e => io_failure v e
    end).
Proof.
  induction fuel as [|fuel IH]; intros v first l k c within data Hv Hc Hk Hd Hw Hl Hf; [lia|]. cbn [write_loop]. cbn zeta.
  pose proof (cluster_size v Hv) as Hbs. destruct (Z.eqb_spec (Z.of_nat (length data)) 0) as [E|E].
  { destruct data; [|cbn in E; lia]. apply wp_ret. split; [by apply only_device_refl, Hv|by apply file_stored_nil]. }
  apply wp_bind, wp_gets. set (bpc := bytes_per_cluster (geometry_ v)) in *. set (count := Z.min (Z.of_nat (length data)) (bpc - within)).
  set (n := Z.to_nat count). assert (Z.of_nat n = count) as En by (unfold n, count; lia).
  assert (length (take n data) = n) as Hn by (rewrite -> length_take; unfold n, count; lia).
  destruct (write_cluster_spec v first l k c within (take n data) Hv Hc Hk ltac:(by apply Forall_take) ltac:(lia) ltac:(fold bpc; unfold count in *; lia)) as [Eo Hwr].
  rewrite Eo. apply wp_bind. eapply wp_mono; [exact Hwr|]. intros v1 [_|e] [Hr1 H1]; [|done]. fold bpc in H1.
  pose proof (only_device_keeps _ _ Hv Hr1) as Hk1. pose proof (keeps_geometry _ _ Hk1) as Eg.
  destruct (Z.eqb_spec (Z.of_nat (length data) - count) 0) as [E0|E0].
  { apply wp_ret. split; [done|]. by rewrite -> take_ge in H1 by lia. }
  assert (count = bpc - within) as Ecount by (unfold count in *; lia).
  destruct (lookup_lt_is_Some_2 l (S k)) as [next Hnext]; [nia|].
  pose proof (file_stored_kept _ _ _ _ _ _ _ Hv Hk1 H1 Hc) as Hc1.
  apply wp_bind. eapply wp_mono; [eapply (follow_at v1 first l k c next); [apply Hk1|done|done|done]|].
  intros v2 [x|e] [Hr2 H2]; [subst x|split; [eapply only_device_trans; [done|by apply reads_only_device]|by eapply keeps_failure]].
  pose proof (fat_reads_only_ok _ _ Hr2 (keeps_ok _ _ Hk1)) as Hv2. pose proof (fat_reads_only_geometry _ _ Hr2) as Eg2.
  assert (keeps v v2) as Hk2 by (eapply keeps_trans; [done|by apply reads_only_keeps; [apply Hk1|]]).
  eapply wp_mono; [eapply (IH v2 first l (S k) next 0 (drop n data))|].
  - done.
  - by eapply chain_reads_only.
  - done.
  - by apply Forall_drop.
  - rewrite -> Eg2, Eg. fold bpc. lia.
  - rewrite -> Eg2, Eg, length_drop. fold bpc. lia.
  - rewrite -> length_drop. unfold n, count in *. lia.
  - rewrite -> Eg2, Eg. fold bpc. intros v3 r [Hr3 H3].
    split; [eapply only_device_trans; [done|]; eapply only_device_trans; [by apply reads_only_device|done]|].
    destruct r as [_|e]; [|by eapply keeps_failure]. rewrite <- (take_drop n data). eapply file_stored_app; [exact H1|].
    rewrite -> Hn. replace (Z.of_nat k * bpc + within + Z.of_nat n) with (Z.of_nat (S k) * bpc + 0) by lia.
    eapply file_stored_ext; [|exact H3]. intros o. by apply fat_reads_only_bytes.
Qed.

(** ** Zeroing a range *)

(** [sector_] begins with a sector of zeros. *)
Definition zero_sector (v : Volume D) : Prop :=
  take (Z.to_nat (bytes_per_sector (geometry_ v))) (sector_ v) = zero_bytes (bytes_per_sector (geometry_ v)).

Lemma zero_sector_device v v' : only_device v v' -> zero_sector v -> zero_sector v'.
Proof. intros H. destruct (device_fields _ _ H) as [d ->]. done. Qed.

Lemma zero_within_spec fuel : forall v first l k c within left, volume_ok v -> zero_sector v -> chain (geometry_ v) (bytes v) first l -> l !! k = Some c ->
  0 <= within -> 0 <= left -> within + left <= bytes_per_cluster (geometry_ v) -> (Z.to_nat left < fuel)%nat ->
  wp (zero_within fuel (cluster_start (geometry_ v) c + within) left) v (fun v' r => only_device v v' /\
    match r with
    | expected _ => file_stored (geometry_ v) (bytes v) (bytes v') l (Z.of_nat k * bytes_per_cluster (geometry_ v) + within) (zero_bytes left)
    | unexpected e => io_failure v e
    end).
Proof.
  induction fuel as [|fuel IH]; intros v first l k c within left Hv Hz Hc Hk Hw Hl Hb Hf; [lia|]. cbn [zero_within].
  destruct (Z.eqb_spec left 0) as [->|Hne].
  { apply wp_ret. split; [by apply only_device_refl, Hv|by apply file_stored_nil]. }
  pose proof (volume_geometry v Hv) as Hg. destruct (sector_range _ _ Hg) as [Hbs _].
  apply wp_bind, wp_gets. cbn zeta. set (bps := bytes_per_sector (geometry_ v)) in *. set (count := Z.min left bps).
  assert (length (zero_bytes count) = Z.to_nat count) as Elen by apply length_replicate.
  unfold write_sector. apply wp_bind, wp_bind, wp_gets.
  assert (take (Z.to_nat count) (sector_ v) = zero_bytes count) as ->.
  { unfold zero_sector in Hz. fold bps in Hz. transitivity (take (Z.to_nat count) (take (Z.to_nat bps) (sector_ v))).
    - rewrite -> take_take. f_equal. unfold count. lia.
    - rewrite Hz. unfold zero_bytes. rewrite -> take_replicate. f_equal. unfold count. lia. }
  destruct (write_cluster_spec v first l k c within (zero_bytes count) Hv Hc Hk ltac:(by apply Forall_replicate) ltac:(lia) ltac:(unfold count in *; lia)) as [_ Hwr].
  eapply wp_mono; [exact Hwr|]. intros v1 [_|e] [Hr1 H1]; [|done].
  pose proof (only_device_keeps _ _ Hv Hr1) as Hk1. pose proof (keeps_geometry _ _ Hk1) as Eg.
  pose proof (chain_valid _ _ _ _ c Hc ltac:(by eapply list_elem_of_lookup_2)) as Hcv. pose proof (fat_device_size_word v Hv) as Hn.
  destruct (cluster_bounds _ _ _ Hg Hcv Hn) as (_ & B1 & B2). destruct (data_start_nonneg _ _ Hg) as [_ B0].
  rewrite -> (wrap_small 64) by (unfold in_u, count; lia). rewrite <- Z.add_assoc, <- Eg.
  eapply wp_mono; [eapply (IH v1 first l k c (within + count) (left - count))|].
  - apply Hk1.
  - by eapply zero_sector_device.
  - by eapply file_stored_kept.
  - done.
  - unfold count. lia.
  - unfold count. lia.
  - rewrite Eg. lia.
  - unfold count. lia.
  - rewrite Eg. intros v2 r [Hr2 H2]. split; [by eapply only_device_trans|]. destruct r as [_|e]; [|by eapply keeps_failure].
    replace (zero_bytes left) with (zero_bytes count ++ zero_bytes (left - count)).
    2: { unfold zero_bytes. rewrite <- replicate_add. f_equal. unfold count. lia. }
    eapply file_stored_app; [exact H1|]. rewrite -> Elen, Z2Nat.id by (unfold count; lia). by rewrite -> Z.add_assoc in H2.
Qed.

Lemma zero_loop_spec fuel : forall v first l k c within remaining, volume_ok v -> zero_sector v -> chain (geometry_ v) (bytes v) first l -> l !! k = Some c ->
  0 <= within < bytes_per_cluster (geometry_ v) -> 0 <= remaining ->
  Z.of_nat k * bytes_per_cluster (geometry_ v) + within + remaining <= Z.of_nat (length l) * bytes_per_cluster (geometry_ v) ->
  (Z.to_nat remaining < fuel)%nat ->
  wp (zero_loop fuel c within remaining) v (fun v' r => only_device v v' /\
    match r with
    | expected _ => file_stored (geometry_ v) (bytes v) (bytes v') l (Z.of_nat k * bytes_per_cluster (geometry_ v) + within) (zero_bytes remaining)
    | unexpected e => io_failure v e
    end).
Proof.
  induction fuel as [|fuel IH]; intros v first l k c within remaining Hv Hz Hc Hk Hw H0 Hl Hf; [lia|]. cbn [zero_loop].
  pose proof (cluster_size v Hv) as Hbs. destruct (Z.eqb_spec remaining 0) as [->|E].
  { apply wp_ret. split; [by apply only_device_refl, Hv|by apply file_stored_nil]. }
  apply wp_bind, wp_gets. cbn zeta. set (bpc := bytes_per_cluster (geometry_ v)) in *. set (count := Z.min (bpc - within) remaining).
  assert (0 < count <= bpc - within) as Hcount by (unfold count; lia).
  destruct (write_cluster_spec v first l k c within [] Hv Hc Hk ltac:(by apply Forall_nil) ltac:(lia) ltac:(fold bpc; cbn; lia)) as [Eo _].
  rewrite Eo. apply wp_bind. eapply wp_mono; [apply (zero_within_spec _ v first l k c within count); [done|done|done|done|lia|lia|fold bpc; lia|lia]|].
  intros v1 [_|e] [Hr1 H1]; [|done]. fold bpc in H1.
  pose proof (only_device_keeps _ _ Hv Hr1) as Hk1. pose proof (keeps_geometry _ _ Hk1) as Eg.
  destruct (Z.eqb_spec (remaining - count) 0) as [E0|E0].
  { apply wp_ret. split; [done|]. by replace remaining with count by lia. }
  assert (count = bpc - within) as Ecount by (unfold count in *; lia).
  destruct (lookup_lt_is_Some_2 l (S k)) as [next Hnext]; [nia|].
  pose proof (file_stored_kept _ _ _ _ _ _ _ Hv Hk1 H1 Hc) as Hc1.
  apply wp_bind. eapply wp_mono; [eapply (follow_at v1 first l k c next); [apply Hk1|done|done|done]|].
  intros v2 [x|e] [Hr2 H2]; [subst x|split; [eapply only_device_trans; [done|by apply reads_only_device]|by eapply keeps_failure]].
  pose proof (fat_reads_only_ok _ _ Hr2 (keeps_ok _ _ Hk1)) as Hv2. pose proof (fat_reads_only_geometry _ _ Hr2) as Eg2.
  assert (keeps v v2) as Hk2 by (eapply keeps_trans; [done|by apply reads_only_keeps; [apply Hk1|]]).
  assert (only_device v v2) as Hod2 by (eapply only_device_trans; [done|by apply reads_only_device]).
  eapply wp_mono; [eapply (IH v2 first l (S k) next 0 (remaining - count))|].
  - done.
  - by eapply zero_sector_device.
  - by eapply chain_reads_only.
  - done.
  - rewrite -> Eg2, Eg. fold bpc. lia.
  - unfold count. lia.
  - rewrite -> Eg2, Eg. fold bpc. lia.
  - lia.
  - rewrite -> Eg2, Eg. fold bpc. intros v3 r [Hr3 H3]. split; [by eapply only_device_trans|].
    destruct r as [_|e]; [|by eapply keeps_failure].
    replace (zero_bytes remaining) with (zero_bytes count ++ zero_bytes (remaining - count)).
    2: { unfold zero_bytes. rewrite <- replicate_add. f_equal. unfold count. lia. }
    eapply file_stored_app; [exact H1|]. unfold zero_bytes at 1. rewrite -> length_replicate, Z2Nat.id by lia.
    replace (Z.of_nat k * bpc + within + count) with (Z.of_nat (S k) * bpc + 0) by lia.
    eapply file_stored_ext; [|exact H3]. intros o. by apply fat_reads_only_bytes.
Qed.

(** Storing data changes no count. *)
Lemma exact_stored v v' X : volume_ok v -> geometry_ v' = geometry_ v -> rewritten (geometry_ v) (bytes v) (bytes v') ∅ X ->
  free_clusters_known_ v' = free_clusters_known_ v -> free_clusters_ v' = free_clusters_ v -> exact v -> exact v'.
Proof.
  intros Hv Eg Hr E1 E2 He. unfold exact. rewrite -> Eg, E1, E2. intros K. rewrite -> (He K). unfold free_count. do 2 f_equal.
  apply filter_agree. intros c Hc%elem_of_clusters. by rewrite -> (rewritten_value _ _ _ _ _ _ c (volume_geometry v Hv) Hr).
Qed.

Lemma exact_device v v' X : volume_ok v -> only_device v v' -> rewritten (geometry_ v) (bytes v) (bytes v') ∅ X -> exact v -> exact v'.
Proof.
  intros Hv Hd Hr. destruct (device_fields _ _ Hd) as [d E]. eapply exact_stored; [done| |exact Hr| |]; by rewrite E.
Qed.

Lemma zero_file_range_spec v first l offset count : volume_ok v -> chain (geometry_ v) (bytes v) first l ->
  0 <= offset -> 0 <= count -> offset + count <= Z.of_nat (length l) * bytes_per_cluster (geometry_ v) ->
  wp (zero_file_range first offset count) v (fun v' r => keeps v v' /\
    match r with
    | expected _ => file_stored (geometry_ v) (bytes v) (bytes v') l offset (zero_bytes count) /\ (exact v -> exact v')
    | unexpected e => io_failure v e
    end).
Proof.
  intros Hv Hc Ho Hn Hl. pose proof (volume_geometry v Hv) as Hg. pose proof (cluster_size v Hv) as Hbs. unfold zero_file_range.
  destruct (Z.eqb_spec count 0) as [->|E]; [by apply wp_ret; split; [apply keeps_refl|split; [apply file_stored_nil|]]|].
  apply wp_bind, wp_gets. destruct (chain_head _ _ _ _ Hc) as [t El].
  pose proof (chain_valid _ _ _ _ first Hc ltac:(rewrite El; by left)) as Hcv.
  apply wp_bind, wp_stop_if; rewrite -> (proj2 (valid_cluster_iff _ _ first Hg)) by done; [done|intros _].
  apply wp_bind, wp_modify. destruct (zeroed_sector v Hv) as [Hv0 Hz0]. set (v0 := v <| sector_ ::= _ |>) in *.
  assert (keeps v v0) as Hk0 by by split.
  set (bpc := bytes_per_cluster (geometry_ v)) in *. pose proof (Z.div_mod offset bpc ltac:(lia)) as Ed. pose proof (Z.mod_pos_bound offset bpc ltac:(lia)) as Hm.
  assert (0 <= offset / bpc) as Hq by (apply Z.div_pos; lia). set (k := Z.to_nat (offset / bpc)) in *.
  assert (Z.of_nat k = offset / bpc) as Ek by (unfold k; lia).
  destruct (lookup_lt_is_Some_2 l k) as [c Hk]; [nia|].
  apply wp_bind. eapply wp_mono; [apply (walk_spec k v0 first l 0 first c); [done|done|by rewrite El|done]|].
  intros v1 [x|e] [Hr1 H1]; [subst x|split; [eapply keeps_trans; [done|by apply reads_only_keeps]|done]].
  pose proof (fat_reads_only_ok _ _ Hr1 Hv0) as Hv1. pose proof (fat_reads_only_geometry _ _ Hr1) as Eg. change (geometry_ v0) with (geometry_ v) in Eg.
  assert (keeps v v1) as Hk1 by (eapply keeps_trans; [done|by apply reads_only_keeps]).
  eapply wp_mono; [eapply (zero_loop_spec _ v1 first l k c)|].
  - done.
  - eapply zero_sector_device; [by apply reads_only_device|exact Hz0].
  - eapply chain_reads_only; [exact Hr1|done].
  - done.
  - rewrite Eg. fold bpc. lia.
  - done.
  - rewrite Eg. fold bpc. lia.
  - lia.
  - rewrite Eg. fold bpc. intros v2 r [Hr2 H2]. assert (keeps v v2) as Hk2 by (eapply keeps_trans; [done|by apply only_device_keeps]).
    split; [done|]. destruct r as [_|e]; [|by apply (keeps_failure v v1)].
    assert (file_stored (geometry_ v) (bytes v) (bytes v2) l offset (zero_bytes count)) as Hst.
    { replace offset with (Z.of_nat k * bpc + offset mod bpc) by lia. eapply file_stored_ext; [|exact H2].
      intros o. apply (fat_reads_only_bytes v0 v1 o Hr1). }
    split; [done|]. pose proof Hr1 as (_ & _ & _ & _ & R1 & R2 & _). destruct (device_fields _ _ Hr2) as [d E2].
    eapply exact_stored; [done|by apply Hk2|apply (file_stored_rest _ _ _ _ _ _ Hst)|rewrite -> E2; exact R1|rewrite -> E2; exact R2].
Qed.
End file.
End Fat32File.
