(* ===== verification/Fat32Truncate.v ===== *)
(** * Truncating FAT32 files

    [truncate] gives a file another size: its bytes are kept up to the smaller
    of the two sizes and zero beyond, its directory record shows the new size
    and cluster, clusters it no longer needs are free, and no other file is
    touched. *)

From stdpp Require Import gmap.
From S2P Require Import Prelude Ethernet Filesystem Fat32Name Fat32 Fat32Image Fat32Laws Fat32Mount Fat32Read Fat32Table Fat32Alloc Fat32Chain Fat32File.
Import Fs Fat32 Fat32Image Fat32Laws Fat32Mount Fat32Read Fat32Table Fat32Alloc Fat32Chain Fat32File.
Local Open Scope Z_scope.

Module Fat32Truncate.

(** ** Changes with exceptions *)

(** From [f] to [f'] the entries [W] are set and other bytes than those of
    the tables differ only where [E] holds. *)
Record edited (g : Geometry) (f f' : Z -> Z) (W : gmap Z Z) (E : Z -> Prop) : Prop := {
  edited_tables fat c : 0 <= fat < fat_count g -> 2 <= c <= cluster_count g + 1 ->
    table_value g f' fat c =
      if decide (maintained g fat) then default (table_value g f fat c) (W !! c) else table_value g f fat c;
  edited_rest o : o < table_start g 0 \/ data_start g <= o -> ~ E o -> f' o = f o;
}.

Lemma rewritten_edited g f f' W X : rewritten g f f' W X -> edited g f f' W (fun o => exists c, c ∈ X /\ in_cluster g c o).
Proof. intros [A1 A2 A3]. split; [done|]. intros o Ho He. apply A3; [done|]. intros c Hc Hin. apply He. by exists c. Qed.

Lemma edited_trans g f1 f2 f3 W1 W2 (E1 E2 : Z -> Prop) : edited g f1 f2 W1 E1 -> edited g f2 f3 W2 E2 ->
  edited g f1 f3 (W2 ∪ W1) (fun o => E1 o \/ E2 o).
Proof.
  intros [A1 A2] [B1 B2]. split.
  - intros fat c Hf Hc. rewrite -> B1, A1 by done. destruct (decide _); [|done]. rewrite -> lookup_union.
    by destruct (W2 !! c), (W1 !! c).
  - intros o Ho He. rewrite -> B2, A2; [done|done|tauto|done|tauto].
Qed.

Lemma edited_weaken g f f' W (E E' : Z -> Prop) : (forall o, E o -> E' o) -> edited g f f' W E -> edited g f f' W E'.
Proof. intros H [A1 A2]. split; [done|]. intros o Ho He. apply A2; [done|]. intros K. by apply He, H. Qed.

Lemma edited_value g n f f' W E c : geometry_ok g n -> edited g f f' W E -> 2 <= c <= cluster_count g + 1 ->
  fat_value g f' c = default (fat_value g f c) (W !! c).
Proof.
  intros Hg H Hc. unfold fat_value. rewrite -> (edited_tables _ _ _ _ _ H) by (try done; apply (ok_active _ _ Hg)).
  by rewrite -> decide_True by (by eapply active_maintained).
Qed.

Lemma edited_chain g n f f' W E c l : geometry_ok g n -> edited g f f' W E -> (forall d, d ∈ l -> W !! d = None) ->
  chain g f c l -> chain g f' c l.
Proof.
  intros Hg H Hw Hc. eapply chain_ext; [|done]. intros d Hd.
  rewrite -> (edited_value _ _ _ _ _ _ _ Hg H) by (by eapply chain_valid). by rewrite -> Hw.
Qed.

(** Bytes outside the tables only. *)
Lemma outside_edited g n f f' (E : Z -> Prop) : geometry_ok g n -> n < 2 ^ 64 ->
  (forall o, ~ E o -> f' o = f o) -> (forall o, E o -> o < table_start g 0 \/ data_start g <= o) -> edited g f f' ∅ E.
Proof.
  intros Hg Hn H Hout. split; [|by intros; apply H].
  intros fat c Hf Hc. rewrite -> lookup_empty. destruct (entry_bounds _ _ _ _ Hg Hf Hc Hn) as (_ & _ & B1 & B2 & _).
  pose proof (table_start_mono g n 0 fat Hg ltac:(lia)).
  unfold table_value. rewrite -> (bytes_at_ext f' f); [by destruct (decide _)|].
  intros o Ho. apply H. intros He. apply Hout in He. lia.
Qed.

Section steps.
Context {D : Type} {device : Device D} {laws : DeviceLaws D}.
Implicit Types v : Volume D.

(** ** The remaining device operations *)

Lemma flush_spec v : good (device_ v) -> wp flush v (fun v' r => reads_only v v' /\
  match r with expected _ => True | unexpected e => io_failure v e end).
Proof.
  intros Hg. unfold wp, flush. pose proof (flush_law (device_ v) Hg) as L. destruct (dev_flush (device_ v)) as [d ok].
  destruct L as (H1 & H2 & H3 & H4). cbn. split.
  - split; [|done]. split; [done|]. split; [done|]. split; [by intros [_ ?]%H3|done].
  - destruct ok; [done|]. split; [done|]. by intros [? _]%H3.
Qed.

Lemma load_sector_spec v offset size : volume_ok v -> 0 <= offset -> 0 <= size <= 4096 -> offset + size <= dev_size (device_ v) ->
  wp (read_sector offset size) v (fun v' r => keeps v v' /\ (forall o, bytes v' o = bytes v o) /\
    (exists d s, v' = v <| device_ := d |> <| sector_ := s |>) /\
    match r with
    | expected _ => take (Z.to_nat size) (sector_ v') = bytes_at (bytes v) offset (Z.to_nat size)
    | unexpected e => io_failure v e
    end).
Proof.
  intros Hv Ho Hs Hb. unfold wp, read_sector. pose proof (volume_good v Hv) as Hg. destruct (volume_sector v Hv) as [Hlen Hok].
  pose proof (read_exact_spec (device_ v) offset size Hg Ho ltac:(lia)) as L.
  pose proof (read_exact_received (device_ v) offset size Hg Ho ltac:(lia)) as [R1 R2].
  destruct (read_exact (device_ v) offset size) as [[d data] e]. destruct L as [(H1 & H2 & H3 & H4) He]. cbn [fst snd] in *.
  split.
  { destruct Hv as [? ? ? K4 ? ? ?]. split; [constructor; try done|done..]; [|cbn; by rewrite H2].
    cbn [sector_ set]. change (length (patch (sector_ v) 0 data) = 4096%nat /\ bytes_ok (patch (sector_ v) 0 data)).
    split; [rewrite -> length_patch; [done|lia]|by apply bytes_ok_patch]. }
  split; [done|]. split; [by eexists _, _|]. destruct e; cbn; try done.
  - destruct He as [_ ->]. unfold patch. rewrite -> take_0, app_nil_l. apply take_app_length'. by rewrite -> length_bytes_at.
  - by destruct He.
  - lia.
Qed.

(** The bytes of the information sector. *)
Definition in_info (g : Geometry) (o : Z) : Prop :=
  fs_info_sector g * bytes_per_sector g <= o < fs_info_sector g * bytes_per_sector g + bytes_per_sector g.

Lemma exact_edited v v' E : volume_ok v -> geometry_ v' = geometry_ v -> edited (geometry_ v) (bytes v) (bytes v') ∅ E ->
  free_clusters_known_ v' = free_clusters_known_ v -> free_clusters_ v' = free_clusters_ v -> exact v -> exact v'.
Proof.
  intros Hv Eg Hr E1 E2 He. unfold exact. rewrite -> Eg, E1, E2. intros K. rewrite -> (He K). unfold free_count. do 2 f_equal.
  apply filter_agree. intros c Hc%elem_of_clusters. by rewrite -> (edited_value _ _ _ _ _ _ c (volume_geometry v Hv) Hr).
Qed.

Lemma sector_update_ok v s : volume_ok v -> length s = 4096%nat -> bytes_ok s -> volume_ok (v <| sector_ := s |>).
Proof. intros [H1 H2 H3 H4 H5 H6 H7] Hl Hs. constructor; done. Qed.

Lemma info_bounds v : volume_ok v -> fs_info_valid_ v = true ->
  u64 (fs_info_sector (geometry_ v) * bytes_per_sector (geometry_ v)) = fs_info_sector (geometry_ v) * bytes_per_sector (geometry_ v) /\
  0 <= fs_info_sector (geometry_ v) * bytes_per_sector (geometry_ v) /\
  fs_info_sector (geometry_ v) * bytes_per_sector (geometry_ v) + bytes_per_sector (geometry_ v) <= table_start (geometry_ v) 0 /\
  table_start (geometry_ v) 0 <= dev_size (device_ v).
Proof.
  intros Hv Hi. pose proof (volume_geometry v Hv) as Hg. pose proof (volume_fs_info v Hv Hi) as Hlt. destruct (sector_range _ _ Hg) as [Hs _].
  pose proof (ok_fs_info _ _ Hg) as Hf. pose proof (fat_device_size_word v Hv) as Hw. destruct (ok_fats _ _ Hg) as [Hfc _].
  pose proof (ok_clusters _ _ Hg) as Hcc.
  destruct (entry_bounds _ _ 0 2 Hg ltac:(lia) ltac:(lia) Hw) as (_ & B1 & B2 & B3 & B4).
  set (bps := bytes_per_sector (geometry_ v)) in *. set (k := fs_info_sector (geometry_ v)) in *.
  assert (0 <= k * bps) by (apply Z.mul_nonneg_nonneg; lia).
  assert (k * bps + bps <= table_start (geometry_ v) 0).
  { unfold table_start. fold bps. rewrite -> Z.mul_0_l, Z.add_0_r. pose proof (Z.mul_le_mono_nonneg_r (k + 1) (reserved_sectors (geometry_ v)) bps). lia. }
  split; [apply wrap_small; unfold in_u; lia|]. lia.
Qed.

(** The counts of the information sector. *)
Definition counts_patched (v : Volume D) (s : list Z) : list Z :=
  put32 (if free_clusters_known_ v then put32 s 488 (free_clusters_ v) else s) 492 (allocation_hint_ v).

Lemma counts_patched_ok v s : length s = 4096%nat -> bytes_ok s -> length (counts_patched v s) = 4096%nat /\ bytes_ok (counts_patched v s).
Proof.
  intros Hl Hs. unfold counts_patched, put32.
  assert (forall l k x, length l = 4096%nat -> (k + 4 <= 4096)%nat -> bytes_ok l ->
    length (patch l k (bytes32 x)) = 4096%nat /\ bytes_ok (patch l k (bytes32 x))) as H.
  { intros l k x El Hk Hlk. rewrite -> length_patch by (cbn [bytes32 length]; lia). split; [done|]. apply bytes_ok_patch; [done|apply bytes32_ok]. }
  destruct (free_clusters_known_ v).
  - destruct (H s 488%nat (free_clusters_ v) Hl ltac:(lia) Hs). apply H; [done|lia|done].
  - apply H; [done|lia|done].
Qed.

Lemma commit_fs_info_spec v : volume_ok v ->
  wp commit_fs_info v (fun v' r => keeps v v' /\
    match r with
    | expected _ => edited (geometry_ v) (bytes v) (bytes v') ∅ (in_info (geometry_ v)) /\
        (forall o, data_start (geometry_ v) <= o -> bytes v' o = bytes v o) /\ (exact v -> exact v')
    | unexpected e => io_failure v e
    end).
Proof.
  intros Hv. pose proof (volume_geometry v Hv) as Hg. pose proof (fat_device_size_word v Hv) as Hw. destruct (sector_range _ _ Hg) as [Hs _].
  unfold commit_fs_info. apply wp_bind, wp_gets. destruct (fs_info_valid_ v) eqn:Hi; cbn [negb].
  2: { eapply wp_mono; [apply flush_spec, Hv|]. intros v' r [Hr H]. split; [by apply reads_only_keeps|]. destruct r as [_|e]; [|done].
       assert (forall o, bytes v' o = bytes v o) as Hb by (intros; by apply fat_reads_only_bytes).
       split; [apply (edited_weaken _ _ _ _ (fun _ => False)); [done|by eapply outside_edited]|]. split; [auto|by apply exact_reads_only]. }
  destruct (info_bounds v Hv Hi) as (Eo & B1 & B2 & B3).
  apply wp_bind, wp_gets. cbn zeta. rewrite Eo. set (offset := fs_info_sector (geometry_ v) * bytes_per_sector (geometry_ v)) in *.
  apply wp_bind. eapply wp_mono; [apply load_sector_spec; [done|lia..]|]. intros v1 [_|e] (Hk1 & Hb1 & (d & s & E1) & H1); [|done].
  destruct (volume_sector v1 (keeps_ok _ _ Hk1)) as [L1 K1]. destruct (counts_patched_ok v1 (sector_ v1) L1 K1) as [L2 K2].
  apply wp_bind, wp_modify, wp_bind, wp_modify.
  match goal with |- wp _ ?x _ => set (v2 := x) end.
  assert (v2 = v1 <| sector_ := counts_patched v1 (sector_ v1) |>) as E2.
  { unfold v2, counts_patched. subst v1. cbn. by destruct (free_clusters_known_ v). }
  clearbody v2. subst v2. set (s2 := counts_patched v1 (sector_ v1)) in *. pose proof (sector_update_ok v1 s2 (keeps_ok _ _ Hk1) L2 K2) as Hv2.
  set (v2 := v1 <| sector_ := s2 |>) in *. assert (keeps v v2) as Hk2 by (eapply keeps_trans; [exact Hk1|by split]).
  apply wp_bind. unfold write_sector. apply wp_bind, wp_gets. change (sector_ v2) with s2.
  assert (length (take (Z.to_nat (bytes_per_sector (geometry_ v))) s2) = Z.to_nat (bytes_per_sector (geometry_ v))) as Lt by (rewrite -> length_take; lia).
  eapply wp_mono; [apply write_bytes_spec|].
  - apply Hv2.
  - by apply Forall_take.
  - done.
  - lia.
  - rewrite -> (keeps_size _ _ Hk2). lia.
  - intros v3 [_|e] [Hr3 H3]; [|split; [eapply keeps_trans; [done|by apply only_device_keeps]|by apply (keeps_failure v v2)]].
    assert (keeps v v3) as Hk3 by (eapply keeps_trans; [done|by apply only_device_keeps]).
    eapply wp_mono; [apply flush_spec, Hk3|]. intros v4 r [Hr4 H4].
    assert (keeps v v4) as Hk4 by (eapply keeps_trans; [done|by apply reads_only_keeps; [apply Hk3|]]). split; [done|].
    destruct r as [_|e]; [|by apply (keeps_failure v v3)].
    assert (forall o, ~ in_info (geometry_ v) o -> bytes v4 o = bytes v o) as Hsame.
    { intros o Ho. rewrite -> (fat_reads_only_bytes v3 v4) by done. rewrite -> (proj2 H3); [apply Hb1|]. rewrite -> Lt. unfold in_info in Ho. lia. }
    assert (edited (geometry_ v) (bytes v) (bytes v4) ∅ (in_info (geometry_ v))) as Hed.
    { eapply outside_edited; [done|done|done|]. unfold in_info. intros o Ho. left. lia. }
    split; [done|]. split.
    + intros o Ho. apply Hsame. unfold in_info; fold offset. destruct (data_start_nonneg _ _ Hg). lia.
    + destruct (device_fields _ _ Hr3) as [d3 E3]. pose proof Hr4 as (_ & _ & _ & _ & R1 & R2 & _).
      eapply exact_edited; [done|apply Hk4|exact Hed|rewrite -> R1, E3|rewrite -> R2, E3]; unfold v2; by rewrite E1.
Qed.

(** The record of a node. *)
Definition in_record (node : Node) (o : Z) : Prop := entry_offset node + 20 <= o < entry_offset node + 32.

Lemma encode_metadata_ok first size raw : length raw = 12%nat -> bytes_ok raw ->
  length (encode_metadata first size raw) = 12%nat /\ bytes_ok (encode_metadata first size raw).
Proof.
  intros Hl Hr. unfold encode_metadata, put16, put32. split.
  - rewrite -> length_patch; rewrite -> length_patch; rewrite -> ?length_patch; cbn [bytes16 bytes32 length]; lia.
  - apply bytes_ok_patch; [apply bytes_ok_patch; [apply bytes_ok_patch; [done|apply bytes16_ok]|apply bytes16_ok]|apply bytes32_ok].
Qed.

Lemma write_node_metadata_spec v node first size c : volume_ok v -> 2 <= c <= cluster_count (geometry_ v) + 1 ->
  cluster_start (geometry_ v) c <= entry_offset node -> entry_offset node + 32 <= cluster_start (geometry_ v) c + bytes_per_cluster (geometry_ v) ->
  wp (write_node_metadata node first size) v (fun v' r => only_device v v' /\
    match r with
    | expected _ => stored (bytes v) (bytes v') (entry_offset node + 20) (encode_metadata first size (bytes_at (bytes v) (entry_offset node + 20) 12))
    | unexpected e => io_failure v e
    end).
Proof.
  intros Hv Hc H1 H2. pose proof (volume_geometry v Hv) as Hg. pose proof (fat_device_size_word v Hv) as Hw.
  destruct (cluster_bounds _ _ _ Hg Hc Hw) as (_ & B1 & B2). destruct (data_start_nonneg _ _ Hg) as [_ B0].
  destruct (entry_bounds _ _ 0 2 Hg ltac:(pose proof (ok_fats _ _ Hg); lia) ltac:(pose proof (ok_clusters _ _ Hg); lia) Hw) as (_ & C1 & C2 & C3 & C4).
  unfold write_node_metadata. apply wp_bind, wp_stop_if; rewrite -> (proj2 (Z.eqb_neq _ _)) by lia; [done|intros _].
  rewrite -> (wrap_small 64) by (unfold in_u; lia).
  apply wp_bind. eapply wp_mono; [apply fat_read_local_spec; [apply Hv|lia..]|].
  intros v1 [raw|e] [Hr H]; [subst raw|by split; [apply reads_only_device|]]. pose proof (reads_only_device _ _ Hr) as Hod.
  change (Z.to_nat 12) with 12%nat. set (raw := bytes_at (bytes v) (entry_offset node + 20) 12).
  assert (length raw = 12%nat /\ bytes_ok raw) as [Hl Hraw].
  { unfold raw. rewrite -> length_bytes_at. split; [done|]. apply bytes_at_ok. intros. apply contents_byte, Hv. }
  destruct (encode_metadata_ok first size raw Hl Hraw) as [Hle Hoke].
  eapply wp_mono; [apply write_bytes_spec|].
  - apply Hod.
  - done.
  - lia.
  - lia.
  - rewrite -> (device_size _ _ Hod). lia.
  - intros v2 r [Hod2 H3]. split; [by eapply only_device_trans|]. destruct r as [_|e]; [|by eapply fat_io_failure_mono].
    eapply stored_same; [exact H3|intros o; symmetry; by apply fat_reads_only_bytes|done].
Qed.
End steps.
End Fat32Truncate.
