(* ===== verification/Fat32Resize.v ===== *)
(** * What truncating a FAT32 file gives

    The specification of [truncate]: the file, its record and the other files
    before and after. *)

From stdpp Require Import gmap.
From S2P Require Import Prelude Ethernet Filesystem Fat32Name Fat32 Fat32Laws Fat32Read Fat32Table Fat32Alloc Fat32Chain Fat32File Fat32Truncate.
Import Fs Fat32 Fat32Laws Fat32Read Fat32Table Fat32Alloc Fat32Chain Fat32File Fat32Truncate.
Local Open Scope Z_scope.

Module Fat32Resize.

(** The chain of a file; an empty one has none. *)
Definition linked (g : Geometry) (f : Z -> Z) (first : Z) (l : list Z) : Prop :=
  match l with [] => first = 0 | _ => chain g f first l end.

(** ** Files other than the one in [l] *)

Lemma edited_others g n f f' W (E rec : Z -> Prop) (l : list Z) c (m : list Z) : geometry_ok g n -> n < 2 ^ 64 -> edited g f f' W E ->
  (forall d x, W !! d = Some x -> d ∈ l \/ fat_value g f d = 0) ->
  (forall o, data_start g <= o -> E o -> rec o \/ exists d, in_cluster g d o /\ (d ∈ l \/ fat_value g f d = 0)) ->
  chain g f c m -> (forall d, d ∈ m -> d ∉ l) ->
  chain g f' c m /\ forall d o, d ∈ m -> in_cluster g d o -> ~ rec o -> f' o = f o.
Proof.
  intros Hg Hn He HW HE Hc Hm. pose proof (fun d => chain_used g n f c m d Hg Hc) as Hu. split.
  - eapply edited_chain; [done|exact He| |done]. intros d Hd. destruct (W !! d) as [x|] eqn:K; [|done].
    destruct (HW d x K) as [H|H]; [by apply Hm in H|by apply Hu in H].
  - intros d o Hd Ho Hr. pose proof (chain_valid _ _ _ _ d Hc Hd) as Hdv. destruct (cluster_bounds _ _ _ Hg Hdv Hn) as (_ & B & _).
    assert (data_start g <= o) as Hds by (unfold in_cluster in Ho; lia). apply (edited_rest _ _ _ _ _ He); [by right|].
    intros H. destruct (HE o Hds H) as [K|(x & Hx & K)]; [done|]. rewrite -> (in_cluster_disjoint g n x d o) in K by done.
    destruct K as [K|K]; [by apply (Hm d)|by apply (Hu d)].
Qed.

(** ** The record of a file *)

Lemma metadata_decoded raw r first size o : bytes_ok raw -> length r = 12%nat -> bytes_ok r -> 0 <= first <= fat_mask -> in_u 32 size ->
  slice raw 20 12 = encode_metadata first size r ->
  first_cluster (decode_node raw o) = first /\ Fat32.size (decode_node raw o) = size.
Proof.
  intros Hraw Hl Hr Hf Hs E. unfold decode_node. cbn [first_cluster Fat32.size].
  assert (forall i, (i + 2 <= 12)%nat -> little_u16 raw (20 + i) = little_u16 (encode_metadata first size r) i) as H16.
  { intros i Hi. by rewrite <- E, little_u16_slice by done. }
  assert (forall i, (i + 4 <= 12)%nat -> little_u32 raw (20 + i) = little_u32 (encode_metadata first size r) i) as H32.
  { intros i Hi. by rewrite <- E, little_u32_slice by done. }
  pose proof (H16 0%nat ltac:(lia)) as A. pose proof (H16 6%nat ltac:(lia)) as B. pose proof (H32 8%nat ltac:(lia)) as C.
  cbn [Nat.add] in A, B, C. rewrite -> A, B, C. unfold encode_metadata, put16, put32.
  set (r1 := patch r 0 _). assert (length r1 = 12%nat) as L1 by (unfold r1; rewrite -> length_patch; cbn [bytes16 length]; lia).
  set (r2 := patch r1 6 _). assert (length r2 = 12%nat) as L2 by (unfold r2; rewrite -> length_patch; cbn [bytes16 length]; lia).
  rewrite -> !(little_u16_patch_out r2) by (cbn [bytes32 length]; lia). rewrite -> little_u32_patch_in by (cbn [bytes32 length]; lia).
  unfold r2. rewrite -> (little_u16_patch_in r1 6 _ 6), (little_u16_patch_out r1 6 _ 0) by (cbn [bytes16 length]; lia).
  unfold r1. rewrite -> little_u16_patch_in by (cbn [bytes16 length]; lia). cbn [Nat.sub].
  rewrite -> (little_u16_bytes _ 0 (Z.shiftr first 16)), (little_u16_bytes _ 0 first), (little_u32_bytes _ 0 size) by (apply bytes16_ok || apply bytes32_ok || done).
  split; [|by apply wrap_small]. unfold fat_mask in *. rewrite -> Z.shiftr_div_pow2 by done.
  rewrite -> (wrap_small 16 (first / _)), (wrap_small 32) by (rewrite -> ?Z.shiftl_mul_pow2 by done; word).
  rewrite -> lor_shiftl by (lia || word). change 0x0fffffff with (2 ^ 28 - 1). rewrite -> land_ones_small by word. word.
Qed.

(** ** The file before and after *)

Section resize.
Context {D : Type} {device : Device D} {laws : DeviceLaws D}.
Implicit Types v : Volume D.

(** The directory record shows the cluster and the size. *)
Definition shows v (node : Node) : Prop :=
  let shown := decode_node (bytes_at (bytes v) (entry_offset node) 32) (entry_offset node) in
  first_cluster shown = first_cluster node /\ size shown = size node.

(** [node] is a file in the clusters [l], recorded in the cluster [c] of a
    directory. *)
Record file_ok v (node : Node) (l : list Z) : Prop := {
  file_type : type node = file;
  file_size : in_u 32 (size node);
  file_clusters : Z.of_nat (length l) = clusters_for_size (geometry_ v) (size node);
  file_linked : linked (geometry_ v) (bytes v) (first_cluster node) l;
  file_shown : shows v node;
  file_record : exists c, 2 <= c <= cluster_count (geometry_ v) + 1 /\ c ∉ l /\ fat_value (geometry_ v) (bytes v) c <> 0 /\
    cluster_start (geometry_ v) c <= entry_offset node /\
    entry_offset node + 32 <= cluster_start (geometry_ v) c + bytes_per_cluster (geometry_ v);
}.

(** The bytes of the file. *)
Definition content v (l : list Z) (node : Node) : list Z := bytes_at (file_byte (geometry_ v) (bytes v) l) 0 (Z.to_nat (size node)).

(** The file in [l] became the file in [l'], with the bytes [c]. *)
Record updated v v' (node node' : Node) (l l' : list Z) (c : list Z) : Prop := {
  updated_file : file_ok v' node' l';
  updated_node : node' = node <| first_cluster := first_cluster node' |> <| size := size node' |>;
  updated_content : content v' l' node' = c;
  updated_taken d : d ∈ l' -> d ∈ l \/ fat_value (geometry_ v) (bytes v) d = 0;
  updated_freed d : d ∈ l -> d ∉ l' -> fat_value (geometry_ v) (bytes v') d = 0;
  updated_others c m : chain (geometry_ v) (bytes v) c m -> (forall d, d ∈ m -> d ∉ l) ->
    chain (geometry_ v) (bytes v') c m /\
    forall d o, d ∈ m -> in_cluster (geometry_ v) d o -> ~ in_record node o -> bytes v' o = bytes v o;
  updated_exact : exact v -> exact v';
}.

(** It has another size: its bytes are kept and zeros come after them. *)
Definition resized v v' (node node' : Node) (l l' : list Z) : Prop :=
  updated v v' node node' l l' (resize (Z.to_nat (size node')) 0 (content v l node)).

Lemma content_resize (F F' : Z -> Z) m n : (forall o, 0 <= o < Z.of_nat (Nat.min m n) -> F' o = F o) ->
  (forall o, Z.of_nat m <= o < Z.of_nat n -> F' o = 0) -> bytes_at F' 0 n = resize n 0 (bytes_at F 0 m).
Proof.
  intros H1 H2. apply list_eq. intros i. destruct (decide (i < n)%nat) as [Hi|Hi].
  - rewrite -> lookup_bytes_at by done. destruct (decide (i < m)%nat).
    + rewrite -> lookup_resize, lookup_bytes_at by (rewrite -> ?length_bytes_at; lia). f_equal. apply H1. lia.
    + rewrite -> lookup_resize_new by (rewrite -> ?length_bytes_at; lia). f_equal. apply H2. lia.
  - rewrite -> !lookup_ge_None_2; [done|rewrite -> length_resize; lia|rewrite -> length_bytes_at; lia].
Qed.

(** What is left to show of a truncation. *)
Lemma resized_intro v v' node l l' first' size' W E raw :
  volume_ok v -> file_ok v node l -> keeps v v' -> in_u 32 size' -> Z.of_nat (length l') = clusters_for_size (geometry_ v) size' ->
  linked (geometry_ v) (bytes v') first' l' -> edited (geometry_ v) (bytes v) (bytes v') W E ->
  (forall d x, W !! d = Some x -> d ∈ l \/ fat_value (geometry_ v) (bytes v) d = 0) ->
  (forall o, data_start (geometry_ v) <= o -> E o ->
    in_record node o \/ exists d, in_cluster (geometry_ v) d o /\ (d ∈ l \/ fat_value (geometry_ v) (bytes v) d = 0)) ->
  (forall d, d ∈ l' -> d ∈ l \/ fat_value (geometry_ v) (bytes v) d = 0) ->
  length raw = 12%nat -> bytes_ok raw -> bytes_at (bytes v') (entry_offset node + 20) 12 = encode_metadata first' size' raw ->
  (forall o, 0 <= o < Z.min (size node) size' -> file_byte (geometry_ v) (bytes v') l' o = file_byte (geometry_ v) (bytes v) l o) ->
  (forall o, size node <= o < size' -> file_byte (geometry_ v) (bytes v') l' o = 0) ->
  (forall d, d ∈ l -> d ∉ l' -> fat_value (geometry_ v) (bytes v') d = 0) -> (exact v -> exact v') ->
  resized v v' node (node <| first_cluster := first' |> <| size := size' |>) l l'.
Proof.
  intros Hv [F1 F2 F3 F4 _ (c & Hc & Hcl & Hcu & R1 & R2)] Hk Hs Hl Hlink He HW HE Hl' Hraw Hrawok Hmeta Hsame Hzero Hfreed Hex.
  pose proof (volume_geometry v Hv) as Hg. pose proof (fat_device_size_word v Hv) as Hw. pose proof (keeps_geometry _ _ Hk) as Eg.
  assert (W !! c = None) as HWc. { destruct (W !! c) as [x|] eqn:K; [|done]. by destruct (HW c x K). }
  assert (fat_value (geometry_ v) (bytes v') c = fat_value (geometry_ v) (bytes v) c) as Ec.
  { rewrite -> (edited_value _ _ _ _ _ _ c Hg He) by done. by rewrite HWc. }
  assert (0 <= first' <= fat_mask) as Hfirst.
  { destruct l' as [|x l']; [unfold linked in Hlink; subst first'; done|]. destruct (chain_head _ _ _ _ Hlink) as [t Et].
    pose proof (chain_valid _ _ _ _ first' Hlink ltac:(rewrite Et; by left)). pose proof (ok_clusters _ _ Hg) as Hcc.
    unfold reserved_cluster in Hcc. unfold fat_mask. lia. }
  unfold resized. split; cbn [first_cluster size].
  - split; cbn [first_cluster size type entry_offset]; rewrite -> ?Eg; [done|done|done|done| |].
    + unfold shows. cbn [first_cluster size entry_offset].
      eapply (metadata_decoded _ raw); [apply bytes_at_ok; intros; apply contents_byte, (keeps_ok _ _ Hk)|done|done|done|done|].
      rewrite -> bytes_at_slice by lia. exact Hmeta.
    + exists c. split; [done|]. split; [|by rewrite Ec]. intros Hin. by destruct (Hl' c Hin).
  - done.
  - unfold content. change (size (node <| first_cluster := first' |> <| size := size' |>)) with size'. rewrite Eg. unfold in_u in *.
    apply content_resize; intros o Ho; [apply Hsame|apply Hzero]; lia.
  - done.
  - done.
  - intros d m Hm Hd. by eapply edited_others.
  - done.
Qed.
End resize.
End Fat32Resize.
