(* ===== verification/Fat32TruncateSpec.v ===== *)
(** * The specification of FAT32 truncation

    The five ways [truncate] takes, each shown to give the file its new size
    and leave the other files alone. *)

From stdpp Require Import gmap.
From S2P Require Import Prelude Ethernet Filesystem Fat32Name Fat32 Fat32Image Fat32Laws Fat32Mount Fat32Read Fat32Table Fat32Alloc Fat32Chain Fat32File Fat32Truncate Fat32Resize.
Import Fs Fat32 Fat32Image Fat32Laws Fat32Mount Fat32Read Fat32Table Fat32Alloc Fat32Chain Fat32File Fat32Truncate Fat32Resize.
Local Open Scope Z_scope.

Module Fat32TruncateSpec.

Lemma NoDup_app_disjoint_spec (l : list Z) k d : NoDup l -> d ∈ take k l -> d ∈ drop k l -> False.
Proof. intros H. rewrite <- (take_drop k l) in H. apply NoDup_app in H as (_ & H & _). intros H1 H2. by apply (H d). Qed.

Lemma linked_chain g f c l : chain g f c l -> linked g f c l.
Proof. by destruct l. Qed.

Lemma in_drop (l : list Z) k d : d ∈ drop k l -> d ∈ l.
Proof. intros H. rewrite <- (take_drop k l). apply elem_of_app. by right. Qed.
Lemma in_take (l : list Z) k d : d ∈ take k l -> d ∈ l.
Proof. intros H. rewrite <- (take_drop k l). apply elem_of_app. by left. Qed.

(** Clusters whose data is not touched read the same. *)
Lemma file_byte_kept g n f f' W X l o : geometry_ok g n -> n < 2 ^ 64 -> rewritten g f f' W X -> 0 < bytes_per_cluster g ->
  (forall d, d ∈ l -> 2 <= d <= cluster_count g + 1 /\ d ∉ X) -> file_byte g f' l o = file_byte g f l o.
Proof.
  intros Hg Hn Hr Hb Hl. unfold file_byte. destruct (l !! Z.to_nat (o / bytes_per_cluster g)) as [d|] eqn:E; [|done].
  apply list_elem_of_lookup_2 in E. destruct (Hl d E) as [Hd Hx]. destruct (cluster_bounds _ _ _ Hg Hd Hn) as (_ & B & _).
  pose proof (Z.mod_pos_bound o (bytes_per_cluster g) Hb) as Hm. apply (rewritten_rest _ _ _ _ _ Hr); [right; lia|].
  intros c Hc Hin. rewrite -> (in_cluster_disjoint g n c d (cluster_start g d + o mod bytes_per_cluster g)) in Hc by (unfold in_cluster; done || lia).
  done.
Qed.

Lemma file_byte_prefix g f l m o : 0 < bytes_per_cluster g -> 0 <= o < Z.of_nat (length l) * bytes_per_cluster g ->
  file_byte g f l o = file_byte g f (l ++ m) o.
Proof.
  intros Hb Ho. unfold file_byte. rewrite -> lookup_app_l; [done|].
  assert (0 <= o / bytes_per_cluster g < Z.of_nat (length l)) by (split; [apply Z.div_pos|apply Z.div_lt_upper_bound]; lia). lia.
Qed.

Section truncate.
Context {D : Type} {device : Device D} {laws : DeviceLaws D}.
Implicit Types v : Volume D.

Lemma wp_lift {A X} (m : io (Volume D) X) v (a : A) Q : wp m v (fun v' r => Q (v', a) r) -> wp (lift m) (v, a) Q.
Proof. unfold wp, lift. by destruct (m v). Qed.

Lemma wp_or_undo {S : Type} (body undo : io S unit) s Q :
  wp body s (fun s' r => match r with expected _ => Q s' (expected tt) | unexpected e => wp undo s' (fun s'' _ => Q s'' (unexpected e)) end) ->
  wp (or_undo body undo) s Q.
Proof.
  intros H. unfold or_undo. apply wp_bind, wp_attempt. eapply wp_mono; [exact H|]. intros s' [[]|e] Hr; [done|].
  apply wp_bind, wp_attempt. exact Hr.
Qed.

Lemma edited_same g f f1 f2 W E : (forall o, f2 o = f1 o) -> edited g f f1 W E -> edited g f f2 W E.
Proof.
  intros H [A1 A2]. split.
  - intros fat c Hf Hc. rewrite <- A1 by done. unfold table_value. by rewrite -> (bytes_at_ext f2 f1) by (intros; apply H).
  - intros o Ho He. by rewrite -> H, A2.
Qed.

Lemma edited_refl g f E : edited g f f ∅ E.
Proof. split; [|done]. intros fat c _ _. rewrite -> lookup_empty. by destruct (decide _). Qed.

(** Changes of the tables and below the data only. *)
Definition low (g : Geometry) (o : Z) : Prop := o < data_start g.

Lemma rewritten_low g f f' W : rewritten g f f' W ∅ -> edited g f f' W (low g).
Proof. intros H. eapply edited_weaken; [|by apply rewritten_edited]. intros o (c & Hc & _). set_solver. Qed.

Lemma commit_low v : volume_ok v ->
  wp commit_fs_info v (fun v' r => keeps v v' /\
    match r with
    | expected _ => edited (geometry_ v) (bytes v) (bytes v') ∅ (low (geometry_ v)) /\ (exact v -> exact v')
    | unexpected e => ~ reliable (device_ v)
    end).
Proof.
  intros Hv. eapply wp_mono; [by apply commit_fs_info_spec|]. intros v' [_|e] [Hk H]; (split; [done|]); [|apply H].
  destruct H as (He & Hs & Hx). split; [|done]. split; [apply (edited_tables _ _ _ _ _ He)|].
  intros o _ Ho. apply Hs. unfold low in Ho. lia.
Qed.

Lemma flush_low v v0 : volume_ok v -> keeps v v0 -> 
  wp flush v0 (fun v' r => keeps v v' /\ (forall o, bytes v' o = bytes v0 o) /\ (exact v0 -> exact v') /\
    match r with expected _ => True | unexpected e => ~ reliable (device_ v) end).
Proof.
  intros Hv Hk. eapply wp_mono; [apply flush_spec, (keeps_ok _ _ Hk)|]. intros v' r [Hr H].
  split; [eapply keeps_trans; [done|by apply reads_only_keeps; [apply Hk|]]|]. split; [by intros o; apply fat_reads_only_bytes|].
  split; [by apply exact_reads_only|]. destruct r as [_|e]; [done|]. destruct H as [_ H]. intros K. by apply H, (keeps_reliable _ _ Hk).
Qed.

(** The record rewritten, from [v1] to [v2]. *)
Record recorded (v v1 v2 : Volume D) (node : Node) (first size : Z) : Prop := {
  recorded_bytes : exists raw, length raw = 12%nat /\ bytes_ok raw /\
    bytes_at (bytes v2) (entry_offset node + 20) 12 = encode_metadata first size raw;
  recorded_rest o : ~ in_record node o -> bytes v2 o = bytes v1 o;
  recorded_edit : edited (geometry_ v) (bytes v1) (bytes v2) ∅ (in_record node);
  recorded_exact : exact v1 -> exact v2;
}.

Lemma recorded_same v v1 v2 v3 node first size : recorded v v1 v2 node first size -> (forall o, bytes v3 o = bytes v2 o) -> (exact v2 -> exact v3) ->
  recorded v v1 v3 node first size.
Proof.
  intros [(raw & H1 & H2 & H3) A B C] H Hx. split.
  - exists raw. split; [done|]. split; [done|]. by rewrite -> (bytes_at_ext _ (bytes v2)) by (intros; apply H).
  - intros o Ho. by rewrite -> H, A.
  - by eapply edited_same.
  - auto.
Qed.

Lemma metadata_step v v1 node l first size : volume_ok v -> file_ok v node l -> keeps v v1 ->
  wp (write_node_metadata node first size) v1 (fun v2 r => keeps v v2 /\
    match r with expected _ => recorded v v1 v2 node first size | unexpected e => ~ reliable (device_ v) end).
Proof.
  intros Hv [_ _ _ _ _ (c & Hc & _ & _ & R1 & R2)] Hk. pose proof (keeps_geometry _ _ Hk) as Eg. pose proof (volume_geometry v Hv) as Hg.
  pose proof (fat_device_size_word v Hv) as Hw. destruct (cluster_bounds _ _ _ Hg Hc Hw) as (_ & B1 & B2).
  eapply wp_mono; [apply (write_node_metadata_spec v1 node first size c); [apply Hk|by rewrite Eg..]|].
  intros v2 r [Hd H]. split; [eapply keeps_trans; [done|by apply only_device_keeps; [apply Hk|]]|]. destruct r as [_|e].
  2: { destruct H as [_ H]. intros K. by apply H, (keeps_reliable _ _ Hk). }
  set (raw := bytes_at (bytes v1) (entry_offset node + 20) 12) in *.
  assert (length raw = 12%nat /\ bytes_ok raw) as [Hl Hraw].
  { unfold raw. rewrite -> length_bytes_at. split; [done|]. apply bytes_at_ok. intros. apply contents_byte, (keeps_ok _ _ Hk). }
  destruct (encode_metadata_ok first size raw Hl Hraw) as [Le _]. destruct H as [H1 H2]. rewrite -> Le in H1, H2.
  assert (forall o, ~ in_record node o -> bytes v2 o = bytes v1 o) as Hrest by (intros o Ho; apply H2; unfold in_record in Ho; lia).
  assert (edited (geometry_ v) (bytes v1) (bytes v2) ∅ (in_record node)) as Hed.
  { eapply outside_edited; [done|done|done|]. unfold in_record. intros o Ho. right. lia. }
  split; [by exists raw|done|done|]. destruct (device_fields _ _ Hd) as [d E]. apply exact_edited with (in_record node); [apply Hk|by rewrite E|by rewrite Eg|by rewrite E..].
Qed.

(** The parts of a truncation put together: the data and the tables from [v]
    to [v1], the record to [v2], tables again to [v3]. *)
Lemma finish v v1 v2 v3 node l l' first' size' W1 E1 W3 :
  volume_ok v -> file_ok v node l -> keeps v v3 -> in_u 32 size' -> Z.of_nat (length l') = clusters_for_size (geometry_ v) size' ->
  linked (geometry_ v) (bytes v3) first' l' ->
  edited (geometry_ v) (bytes v) (bytes v1) W1 E1 -> recorded v v1 v2 node first' size' ->
  edited (geometry_ v) (bytes v2) (bytes v3) W3 (low (geometry_ v)) ->
  (forall d x, W1 !! d = Some x -> d ∈ l \/ fat_value (geometry_ v) (bytes v) d = 0) ->
  (forall d x, W3 !! d = Some x -> d ∈ l \/ fat_value (geometry_ v) (bytes v) d = 0) ->
  (forall o, data_start (geometry_ v) <= o -> E1 o -> exists d, d ∈ l' /\ in_cluster (geometry_ v) d o) ->
  (forall d, d ∈ l' -> d ∈ l \/ fat_value (geometry_ v) (bytes v) d = 0) ->
  (forall o, 0 <= o < Z.min (size node) size' -> file_byte (geometry_ v) (bytes v1) l' o = file_byte (geometry_ v) (bytes v) l o) ->
  (forall o, size node <= o < size' -> file_byte (geometry_ v) (bytes v1) l' o = 0) ->
  (forall d, d ∈ l -> d ∉ l' -> fat_value (geometry_ v) (bytes v3) d = 0) -> (exact v -> exact v3) ->
  resized v v3 node (node <| first_cluster := first' |> <| size := size' |>) l l'.
Proof.
  intros Hv Hf Hk Hs Hl Hlink He1 [(raw & Hr1 & Hr2 & Hraw) Hrest He2 _] He3 HW1 HW3 HE1 Hl' Hsame Hzero Hfreed Hex.
  pose proof (volume_geometry v Hv) as Hg. pose proof (fat_device_size_word v Hv) as Hw. pose proof (keeps_geometry _ _ Hk) as Eg.
  pose proof Hf as [_ F2 _ _ _ (c & Hc & Hcl & Hcu & R1 & R2)]. destruct (cluster_bounds _ _ _ Hg Hc Hw) as (_ & B1 & _).
  assert (forall o, data_start (geometry_ v) <= o -> bytes v3 o = bytes v2 o) as H32.
  { intros o Ho. apply (edited_rest _ _ _ _ _ He3); [by right|]. unfold low. lia. }
  assert (forall d, d ∈ l' -> 2 <= d <= cluster_count (geometry_ v) + 1) as Hvalid.
  { intros d Hd. destruct l' as [|x l']; [by apply not_elem_of_nil in Hd|]. by eapply chain_valid. }
  assert (forall o, file_byte (geometry_ v) (bytes v3) l' o = file_byte (geometry_ v) (bytes v1) l' o) as Hfb.
  { intros o. unfold file_byte. destruct (l' !! _) as [d|] eqn:E; [|done]. apply list_elem_of_lookup_2 in E.
    destruct (cluster_bounds _ _ _ Hg (Hvalid d E) Hw) as (_ & B & _). pose proof (cluster_size v Hv) as Hbs.
    pose proof (Z.mod_pos_bound o (bytes_per_cluster (geometry_ v)) ltac:(lia)) as Hm. rewrite -> H32, Hrest; [done| |lia].
    unfold in_record. intros Ho. assert (d = c) as ->; [|by destruct (Hl' c E)].
    apply (in_cluster_disjoint (geometry_ v) _ d c (cluster_start (geometry_ v) d + o mod bytes_per_cluster (geometry_ v)) Hg); unfold in_cluster; lia. }
  eapply (resized_intro v v3 node l l' first' size' _ _ raw); [done|done|done|done|done|done| | | |done|done|done| | | |done|done].
  - eapply edited_trans; [|exact He3]. eapply edited_trans; [exact He1|exact He2].
  - intros d x. rewrite -> lookup_union_Some_raw. intros [H|[_ H]]; [by eapply HW3|]. rewrite -> map_empty_union in H. by eapply HW1.
  - intros o Ho [[H|H]|H]; [|by left|unfold low in H; lia]. right. destruct (HE1 o Ho H) as (d & Hd & Hin). exists d. split; [done|]. by apply Hl'.
  - rewrite <- Hraw. apply bytes_at_ext. intros o Ho. apply H32. lia.
  - intros o Ho. rewrite Hfb. by apply Hsame.
  - intros o Ho. rewrite Hfb. by apply Hzero.
Qed.

(** ** The five ways *)

(** What [truncate] promises: the file resized; or nothing done for want of
    space; or the device failed. *)
Definition outcome v (node : Node) (l : list Z) (new_size : Z) (s : Volume D * Node) (r : Result unit) : Prop :=
  keeps v s.1 /\
  match r with
  | expected _ => size s.2 = new_size /\ exists l', resized v s.1 node s.2 l l'
  | unexpected e => ~ reliable (device_ v) \/
      e = Error.no_space /\ s.2 = node /\
      free_count (geometry_ v) (bytes v) < clusters_for_size (geometry_ v) new_size - clusters_for_size (geometry_ v) (size node) /\
      exists m, given_back v s.1 m
  end.

Lemma file_bytes_beyond g f l o : 0 < bytes_per_cluster g -> Z.of_nat (length l) * bytes_per_cluster g <= o -> file_byte g f l o = 0.
Proof.
  intros Hb Ho. unfold file_byte. rewrite -> lookup_ge_None_2; [done|].
  assert (Z.of_nat (length l) <= o / bytes_per_cluster g) by (apply Z.div_le_lower_bound; lia). lia.
Qed.

Lemma clusters_bound g n : 0 < bytes_per_cluster g -> 0 <= n -> 0 <= clusters_for_size g n /\ n <= clusters_for_size g n * bytes_per_cluster g /\
  (clusters_for_size g n = 0 -> n = 0) /\ (0 < n -> (clusters_for_size g n - 1) * bytes_per_cluster g < n).
Proof.
  intros Hb Hn. unfold clusters_for_size. destruct (Z.eqb_spec n 0) as [->|]; [lia|].
  pose proof (Z.div_mod (n - 1) (bytes_per_cluster g) ltac:(lia)). pose proof (Z.mod_pos_bound (n - 1) (bytes_per_cluster g) Hb).
  assert (0 <= (n - 1) / bytes_per_cluster g) by (apply Z.div_pos; lia). lia.
Qed.

(** Zeros stored behind the end of the file. *)
Lemma zeroed_tail g f f' l old new : file_stored g f f' l old (zero_bytes (new - old)) -> 0 <= old <= new ->
  (forall o, 0 <= o < Z.min old new -> file_byte g f' l o = file_byte g f l o) /\ (forall o, old <= o < new -> file_byte g f' l o = 0).
Proof.
  intros [H _] Ho. unfold zero_bytes in H. split; intros o Hb; rewrite -> H by lia; rewrite -> length_replicate.
  - by rewrite -> decide_False by lia.
  - rewrite -> decide_True by lia. unfold byte. rewrite -> lookup_replicate_2 by lia. done.
Qed.

Lemma resize_in_place_spec v node l new_size : volume_ok v -> file_ok v node l -> in_u 32 new_size ->
  clusters_for_size (geometry_ v) (size node) = clusters_for_size (geometry_ v) new_size ->
  wp (resize_in_place new_size) (v, node) (outcome v node l new_size).
Proof.
  intros Hv Hf Hs Hc. pose proof Hf as [_ F2 F3 F4 _ _]. pose proof (cluster_size v Hv) as Hbs. pose proof (volume_geometry v Hv) as Hg.
  destruct (clusters_bound (geometry_ v) (size node) ltac:(lia) (proj1 F2)) as (C1 & C2 & C3 & C4).
  destruct (clusters_bound (geometry_ v) new_size ltac:(lia) (proj1 Hs)) as (N1 & N2 & N3 & N4).
  unfold resize_in_place. apply wp_bind, wp_gets. cbn [snd]. apply wp_bind.
  (* the bytes in the last cluster *)
  eapply (wp_mono _ _ (fun s r => s.2 = node /\ keeps v s.1 /\ match r with
    | expected _ => rewritten (geometry_ v) (bytes v) (bytes s.1) ∅ (list_to_set l) /\ (exact v -> exact s.1) /\
        (forall o, 0 <= o < Z.min (size node) new_size -> file_byte (geometry_ v) (bytes s.1) l o = file_byte (geometry_ v) (bytes v) l o) /\
        (forall o, size node <= o < new_size -> file_byte (geometry_ v) (bytes s.1) l o = 0)
    | unexpected _ => ~ reliable (device_ v) end)).
  { destruct (Z.gtb_spec new_size (size node)) as [Hgrow|Hshrink].
    - assert (chain (geometry_ v) (bytes v) (first_cluster node) l) as Hchain.
      { destruct l as [|x l]; [cbn in F3; lia|exact F4]. }
      apply wp_lift. eapply wp_mono; [apply (zero_file_range_spec v _ l); [done|done|unfold in_u in F2; lia|lia|lia]|].
      intros v1 [_|e] [Hk H]; (split; [done|]; split; [done|]); [|apply H]. destruct H as [Hst Hx].
      split; [apply Hst|]. split; [done|]. apply zeroed_tail; [done|]. unfold in_u in F2. lia.
    - apply wp_ret. split; [done|]. split; [by apply keeps_refl|]. split; [eapply rewritten_weaken; [|by apply rewritten_refl]; set_solver|].
      split; [done|]. split; [done|]. intros o Ho. lia. }
  intros [v1 n1] [_|e] (En & Hk1 & H); cbn [fst snd] in *; [|split; [done|by left]]. subst n1. destruct H as (Hw1 & Hx1 & Hsame & Hzero).
  apply wp_bind, wp_lift. eapply wp_mono; [by apply (metadata_step v v1 node l)|]. intros v2 [_|e] [Hk2 H2]; [|split; [done|by left]].
  apply wp_bind, wp_modify. cbn [fst snd]. apply wp_lift. eapply wp_mono; [by apply (flush_low v v2)|].
  intros v3 [[]|e] (Hk3 & Hb3 & Hx3 & H3); (split; [done|]); [|by left]. cbn [fst snd]. split; [done|]. exists l.
  pose proof (recorded_exact _ _ _ _ _ _ H2) as Hx2.
  change (node <| size := new_size |>) with (node <| first_cluster := first_cluster node |> <| size := new_size |>).
  eapply (finish v v1 v2 v3 node l l (first_cluster node) new_size _ _ ∅); [done|done|done|done|lia| |by eapply rewritten_edited|done| |done|done| | |done|done|done|auto].
  - destruct l as [|x l]; [exact F4|]. cbn [linked] in *. eapply edited_chain; [done| | |done].
    + eapply edited_same; [exact Hb3|]. eapply edited_trans; [by eapply rewritten_edited|apply H2].
    + intros d _. by rewrite -> map_union_empty, lookup_empty.
  - eapply edited_same; [exact Hb3|apply edited_refl].
  - intros o _ (c & Hin & Ho). exists c. split; [set_solver|done].
  - intros d Hd. by left.
Qed.

Lemma make_empty_spec v node l : volume_ok v -> file_ok v node l -> l <> [] ->
  wp make_empty (v, node) (outcome v node l 0).
Proof.
  intros Hv Hf Hl. pose proof Hf as [_ F2 F3 F4 _ _]. pose proof (volume_geometry v Hv) as Hg.
  assert (chain (geometry_ v) (bytes v) (first_cluster node) l) as Hchain by (by destruct l).
  unfold make_empty. apply wp_bind, wp_gets. cbn [snd]. apply wp_bind, wp_lift.
  eapply wp_mono; [by apply (metadata_step v v node l); [| |apply keeps_refl]|]. intros v1 [_|e] [Hk1 H1]; [|split; [done|by left]].
  apply wp_bind, wp_lift. eapply wp_mono; [by apply (flush_low v v1)|]. intros v2 [_|e] (Hk2 & Hb2 & Hx2 & H2); [|split; [done|by left]].
  pose proof (recorded_same _ _ _ _ _ _ _ H1 Hb2 Hx2) as Hrec. pose proof (keeps_geometry _ _ Hk2) as Eg2.
  apply wp_bind, wp_modify. cbn [fst snd]. apply wp_bind, wp_lift.
  eapply wp_mono; [apply (free_chain_frees v2 (first_cluster node) l); [apply Hk2|]|].
  { rewrite Eg2. eapply edited_chain; [done|apply Hrec|done|done]. }
  intros v3 [_|e] [Hk23 H3]; (assert (keeps v v3) as Hk3 by (by eapply keeps_trans));
    [|split; [done|left; destruct H3 as [_ H3]; intros K; by apply H3, (keeps_reliable _ _ Hk2)]].
  rewrite -> Eg2 in H3. destruct H3 as [Hw3 Hx3].
  apply wp_lift. eapply wp_mono; [by apply commit_low, Hk3|]. rewrite -> (keeps_geometry _ _ Hk3).
  intros v4 [[]|e] [Hk34 H4]; (assert (keeps v v4) as Hk4 by (by eapply keeps_trans));
    [|split; [done|left; intros K; by apply H4, (keeps_reliable _ _ Hk3)]].
  destruct H4 as [He4 Hx4]. split; [done|]. split; [done|]. exists []. cbn [fst snd].
  assert (edited (geometry_ v) (bytes v2) (bytes v4) (all_set 0 l) (low (geometry_ v))) as He.
  { pose proof (edited_trans _ _ _ _ _ _ _ _ (rewritten_low _ _ _ _ Hw3) He4) as K. rewrite -> map_empty_union in K.
    eapply edited_weaken; [|exact K]. intros o Ho. by destruct Ho. }
  pose proof (recorded_exact _ _ _ _ _ _ Hrec) as Hxr.
  eapply (finish v v v2 v4 node l [] 0 0 ∅ (fun _ => False)); [done|done|done|done|done|done|apply edited_refl|done|exact He|done| |done| | | | |auto].
  - intros d x. rewrite -> lookup_all_set. destruct (decide (d ∈ l)); [by left|done].
  - by intros d Hd%not_elem_of_nil.
  - intros o Ho. lia.
  - unfold in_u in F2. intros o Ho. lia.
  - intros d Hd _. pose proof (edited_trans _ _ _ _ _ _ _ _ (recorded_edit _ _ _ _ _ _ Hrec) He) as K.
    rewrite -> (edited_value _ _ _ _ _ _ d Hg K) by (by eapply chain_valid).
    rewrite -> map_union_empty, lookup_all_set, decide_True by done. done.
Qed.

Lemma no_room v v1 node l new_size e n : Z.of_nat n = clusters_for_size (geometry_ v) new_size - clusters_for_size (geometry_ v) (size node) ->
  keeps v v1 -> chained v v1 n (unexpected e) -> outcome v node l new_size (v1, node) (unexpected e).
Proof.
  intros Hn Hk [H|(-> & m & Hm & Hb)]; (split; [done|]); [by left|right]. split; [done|]. split; [done|].
  rewrite -> (given_count _ _ _ Hb). split; [lia|by exists m].
Qed.

(** The zeros of a new chain. *)
Lemma fresh_zeros v v1 first last_ m o : volume_ok v -> fresh v v1 first last_ m -> 0 <= o < Z.of_nat (length m) * bytes_per_cluster (geometry_ v) ->
  file_byte (geometry_ v) (bytes v1) m o = 0.
Proof.
  intros Hv Hf Ho. pose proof (cluster_size v Hv) as Hbs. set (bpc := bytes_per_cluster (geometry_ v)) in *.
  assert (0 <= o / bpc < Z.of_nat (length m)) as Hq by (split; [apply Z.div_pos|apply Z.div_lt_upper_bound]; lia).
  pose proof (Z.mod_pos_bound o bpc ltac:(lia)) as Hm. destruct (lookup_lt_is_Some_2 m (Z.to_nat (o / bpc))) as [c Hc]; [lia|].
  unfold file_byte. fold bpc. rewrite Hc. pose proof (fresh_zero _ _ _ _ _ Hf c ltac:(by eapply list_elem_of_lookup_2)) as Hz. fold bpc in Hz.
  replace (o mod bpc) with (Z.of_nat (Z.to_nat (o mod bpc))) by lia.
  apply (f_equal (fun b => b !! Z.to_nat (o mod bpc))) in Hz. rewrite -> lookup_bytes_at in Hz by lia. unfold zero_bytes in Hz.
  rewrite -> lookup_replicate_2 in Hz by lia. congruence.
Qed.

(** From the record on: both flushes and the counts. *)
Lemma record_and_commit v v1 node l first' size' W1 E1 (l' : list Z) :
  volume_ok v -> file_ok v node l -> keeps v v1 -> (exact v -> exact v1) -> in_u 32 size' ->
  Z.of_nat (length l') = clusters_for_size (geometry_ v) size' -> linked (geometry_ v) (bytes v1) first' l' ->
  edited (geometry_ v) (bytes v) (bytes v1) W1 E1 ->
  (forall d x, W1 !! d = Some x -> d ∈ l \/ fat_value (geometry_ v) (bytes v) d = 0) ->
  (forall o, data_start (geometry_ v) <= o -> E1 o -> exists d, d ∈ l' /\ in_cluster (geometry_ v) d o) ->
  (forall d, d ∈ l' -> d ∈ l \/ fat_value (geometry_ v) (bytes v) d = 0) ->
  (forall o, 0 <= o < Z.min (size node) size' -> file_byte (geometry_ v) (bytes v1) l' o = file_byte (geometry_ v) (bytes v) l o) ->
  (forall o, size node <= o < size' -> file_byte (geometry_ v) (bytes v1) l' o = 0) ->
  (forall d, d ∈ l -> d ∈ l') ->
  wp (write_node_metadata node first' size';; flush) v1 (fun v2 r => keeps v v2 /\
    match r with
    | expected _ => wp commit_fs_info v2 (fun v3 r => keeps v v3 /\
        match r with
        | expected _ => resized v v3 node (node <| first_cluster := first' |> <| size := size' |>) l l'
        | unexpected _ => ~ reliable (device_ v)
        end)
    | unexpected _ => ~ reliable (device_ v)
    end).
Proof.
  intros Hv Hf Hk1 Hx1 Hs Hl Hlink He1 HW HE Hl' Hsame Hzero Hincl. pose proof (volume_geometry v Hv) as Hg.
  apply wp_bind. eapply wp_mono; [by apply (metadata_step v v1 node l)|]. intros v2 [[]|e] [Hk2 H2]; [|done].
  eapply wp_mono; [by apply (flush_low v v2)|]. intros v3 [[]|e] (Hk3 & Hb3 & Hx3 & H3); [|done].
  split; [done|]. pose proof (recorded_same _ _ _ _ _ _ _ H2 Hb3 Hx3) as Hrec.
  eapply wp_mono; [apply commit_low, Hk3|]. rewrite -> (keeps_geometry _ _ Hk3). intros v4 [_|e] [Hk34 H4];
    (split; [by eapply keeps_trans|]); [|intros K; by apply H4, (keeps_reliable _ _ Hk3)].
  destruct H4 as [He4 Hx4]. pose proof (recorded_exact _ _ _ _ _ _ Hrec) as Hxr.
  eapply (finish v v1 v3 v4 node l l' first' size' W1 E1 ∅); [done|done|by eapply keeps_trans|done|done| |done|done|done|done|done|done|done|done|done| |auto].
  - destruct l' as [|x l']; [done|]. cbn [linked] in *. eapply edited_chain; [done|exact He4|done|].
    eapply edited_chain; [done|apply Hrec|done|done].
  - intros d Hd Hn. by destruct (Hn (Hincl d Hd)).
Qed.

(** An operation undone on failure, where the failure is the device's. *)
Lemma undone v v1 (body undo : io (Volume D) unit) (P : Volume D -> Prop) :
  wp body v1 (fun v2 r => keeps v v2 /\ match r with expected _ => P v2 | unexpected _ => ~ reliable (device_ v) end) ->
  (forall v2, keeps v v2 -> wp undo v2 (fun v3 _ => keeps v v3)) ->
  wp (or_undo body undo) v1 (fun v2 r => keeps v v2 /\ match r with expected _ => P v2 | unexpected _ => ~ reliable (device_ v) end).
Proof.
  intros Hb Hu. apply wp_or_undo. eapply wp_mono; [exact Hb|]. intros v2 [[]|e] [Hk H]; [done|].
  eapply wp_mono; [by apply Hu|]. done.
Qed.

Lemma free_chain_undo v v1 c : keeps v v1 -> wp (free_chain c) v1 (fun v2 _ => keeps v v2).
Proof. intros Hk. eapply wp_mono; [apply free_chain_keeps, (keeps_ok _ _ Hk)|]. intros v2 r H. by eapply keeps_trans. Qed.

Lemma make_chain_spec v node new_size : volume_ok v -> file_ok v node [] -> in_u 32 new_size -> new_size <> 0 ->
  wp (make_chain (clusters_for_size (geometry_ v) new_size) new_size) (v, node) (outcome v node [] new_size).
Proof.
  intros Hv Hf Hs Hne. pose proof Hf as [_ F2 F3 F4 _ _]. pose proof (volume_geometry v Hv) as Hg. pose proof (cluster_size v Hv) as Hbs.
  destruct (clusters_bound (geometry_ v) (size node) ltac:(lia) (proj1 F2)) as (C1 & C2 & C3 & C4). cbn [length] in F3.
  destruct (clusters_bound (geometry_ v) new_size ltac:(lia) (proj1 Hs)) as (N1 & N2 & N3 & N4). set (n := clusters_for_size _ new_size) in *.
  unfold make_chain. apply wp_bind, wp_gets. cbn [snd]. apply wp_bind, wp_lift.
  eapply wp_mono; [by apply allocate_chain_fresh|]. intros v1 [[first last_]|e] [Hk1 H1].
  2: { eapply no_room; [|done|done]. fold n. lia. }
  destruct H1 as (m & Hm & Hfr). destruct (fresh_written _ _ _ _ _ Hfr) as (W & Hdom & Hw).
  assert (m <> []) as Hmne by (intros ->; cbn in Hm; lia).
  assert (chain (geometry_ v) (bytes v1) first m) as Hchain by (pose proof (fresh_chain _ _ _ _ _ Hfr); destruct m; [done|apply H]).
  apply wp_bind, wp_lift. eapply wp_mono; [apply (undone v)|].
  - apply wp_bind. eapply wp_mono; [by apply (flush_low v v1)|]. intros v2 [[]|e] (Hk2 & Hb2 & Hx2 & H2); [|done].
    eapply (record_and_commit v v2 node [] first new_size W _ m); [done|done|done| |done| | | | | | | | |].
    + intros Hx. by apply Hx2, (fresh_exact _ _ _ _ _ Hfr).
    + fold n. lia.
    + destruct m as [|x m]; [done|]. cbn [linked]. eapply chain_ext; [|exact Hchain]. intros d _. by apply fat_value_ext.
    + eapply edited_same; [exact Hb2|by eapply rewritten_edited].
    + intros d x Hd. apply elem_of_dom_2 in Hd. right. apply (fresh_free _ _ _ _ _ Hfr). set_solver.
    + intros o _ (d & Hd & Ho). exists d. split; [set_solver|done].
    + intros d Hd. right. by apply (fresh_free _ _ _ _ _ Hfr).
    + intros o Ho. lia.
    + intros o Ho. unfold in_u in F2. transitivity (file_byte (geometry_ v) (bytes v1) m o); [|by apply (fresh_zeros _ _ _ _ _ _ Hv Hfr); lia].
      unfold file_byte. destruct (m !! _); [|done]. apply Hb2.
    + by intros d Hd%not_elem_of_nil.
  - intros v2 Hk2. by apply free_chain_undo.
  - intros v2 [[]|e] [Hk2 H2]; [|split; [done|by left]]. cbn [fst snd]. apply wp_bind, wp_modify. cbn [fst snd]. apply wp_lift.
    eapply wp_mono; [exact H2|]. intros v3 [[]|e] [Hk3 H3]; (split; [done|]); [|by left]. split; [done|]. by exists m.
Qed.

(** A chain cut behind its cluster [x]. *)
Lemma chain_take g f f' x l : forall first k, chain g f first l -> NoDup l -> l !! k = Some x ->
  (forall d, d ∈ l -> d <> x -> fat_value g f' d = fat_value g f d) -> end_of_chain <= fat_value g f' x -> chain g f' first (take (S k) l).
Proof.
  induction l as [|d l IH]; intros first k; [done|]. intros (-> & Hc & Hl) Hnd Hk Hsame He. apply NoDup_cons in Hnd as [Hd Hnd].
  destruct k as [|k].
  - injection Hk as [= ->]. by cbn.
  - cbn [lookup list_lookup] in Hk. destruct l as [|next l]; [done|]. destruct Hl as (Hn & Hf & Hl).
    change (take (S (S k)) (first :: next :: l)) with (first :: next :: take k l). cbn [chain].
    split; [done|]. split; [done|]. split; [done|]. split.
    + rewrite -> Hsame; [done|by left|]. intros ->. apply Hd. by eapply list_elem_of_lookup_2.
    + apply (IH next k); [done|done|done| |done]. intros y Hy. apply Hsame. by right.
Qed.

(** Two chains joined at the end [x] of the first. *)
Lemma chain_joined g f f' x c m l : forall first, chain g f first l -> last l = Some x -> NoDup l ->
  (forall d, d ∈ l -> d <> x -> fat_value g f' d = fat_value g f d) -> fat_value g f' x = c -> chain g f' c m -> chain g f' first (l ++ m).
Proof.
  induction l as [|d l IH]; intros first; [done|]. intros (-> & Hc & Hl) Hlast Hnd Hsame Hx Hm. apply NoDup_cons in Hnd as [Hd Hnd].
  destruct (chain_head _ _ _ _ Hm) as [t ->]. pose proof (chain_valid _ _ _ _ c Hm ltac:(by left)) as Hcv.
  destruct l as [|next l].
  - injection Hlast as [= ->]. cbn [app chain]. by split.
  - destruct Hl as (Hn & Hf & Hl). change ((first :: next :: l) ++ c :: t) with (first :: next :: (l ++ c :: t)). cbn [chain].
    split; [done|]. split; [done|]. split; [done|]. split.
    + rewrite -> Hsame; [done|by left|]. intros ->. apply Hd. by apply last_Some_elem_of.
    + apply (IH next); [done|done|done| |done|done]. intros y Hy. apply Hsame. by right.
Qed.

(** The table entry behind [last_] set, in the terms of [v]. *)
Lemma entry_step v v1 c value : volume_ok v -> keeps v v1 -> 2 <= c <= cluster_count (geometry_ v) + 1 -> 0 <= value <= fat_mask ->
  wp (write_fat_entry c value) v1 (fun v2 r => keeps v v2 /\
    match r with
    | expected _ => rewritten (geometry_ v) (bytes v1) (bytes v2) {[c := value]} ∅ /\
        (fat_value (geometry_ v) (bytes v1) c <> 0 -> value <> 0 -> exact v1 -> exact v2)
    | unexpected _ => ~ reliable (device_ v)
    end).
Proof.
  intros Hv Hk Hc Hval. pose proof (keeps_geometry _ _ Hk) as Eg.
  eapply wp_mono; [apply write_fat_entry_spec; [apply Hk|by rewrite Eg|done]|]. rewrite Eg. intros v2 r [Hd H].
  split; [eapply keeps_trans; [done|by apply only_device_keeps; [apply Hk|]]|]. destruct r as [_|e].
  - split; [done|]. intros Hu Hne. eapply (relink_exact v1 v2 c value); [apply Hk|done|by rewrite Eg|done|by rewrite Eg].
  - destruct H as [_ H]. intros K. by apply H, (keeps_reliable _ _ Hk).
Qed.

Lemma cut_chain_spec v node l new_size k last_ tail : volume_ok v -> file_ok v node l -> in_u 32 new_size ->
  Z.of_nat (S k) = clusters_for_size (geometry_ v) new_size -> l !! k = Some last_ -> l !! S k = Some tail ->
  wp (cut_chain last_ new_size) (v, node) (outcome v node l new_size).
Proof.
  intros Hv Hf Hs Hk Hlast Htail. pose proof Hf as [_ F2 F3 F4 _ _]. pose proof (volume_geometry v Hv) as Hg. pose proof (cluster_size v Hv) as Hbs.
  assert (chain (geometry_ v) (bytes v) (first_cluster node) l) as Hchain by (by destruct l).
  pose proof (chain_nodup _ _ _ _ (proj2 (ok_clusters _ _ Hg)) Hchain) as Hnd.
  pose proof (chain_valid _ _ _ _ last_ Hchain ltac:(by eapply list_elem_of_lookup_2)) as Hlv.
  pose proof (chain_used _ _ _ _ _ last_ Hg Hchain ltac:(by eapply list_elem_of_lookup_2)) as Hlu.
  destruct (clusters_bound (geometry_ v) new_size ltac:(lia) (proj1 Hs)) as (N1 & N2 & N3 & N4).
  destruct (clusters_bound (geometry_ v) (size node) ltac:(lia) (proj1 F2)) as (C1 & C2 & C3 & C4).
  assert (S k < length l)%nat as Hkl by (by apply lookup_lt_Some in Htail).
  unfold cut_chain. apply wp_bind, wp_gets. cbn [snd]. apply wp_bind, wp_lift.
  eapply wp_mono; [by apply (follow_at v (first_cluster node) l k last_ tail)|].
  intros v1 [x|e] [Hr1 H1]; [subst x|split; [by apply reads_only_keeps|left; apply H1]].
  pose proof (reads_only_keeps _ _ Hv Hr1) as Hk1. pose proof (fun o => fat_reads_only_bytes _ _ o Hr1) as Hb1.
  apply wp_bind, wp_lift. eapply wp_mono; [by apply (entry_step v v1 last_ end_of_chain)|].
  intros v2 [_|e] [Hk2 H2]; [|split; [done|by left]]. destruct H2 as [Hw2 Hx2].
  assert (rewritten (geometry_ v) (bytes v) (bytes v2) {[last_ := end_of_chain]} ∅) as Hw by (by eapply rewritten_ext).
  assert (exact v -> exact v2) as Hx02.
  { intros Hx. apply Hx2; [by rewrite -> (fat_value_ext _ (bytes v))|done|by eapply exact_reads_only]. }
  apply wp_bind, wp_lift. eapply wp_mono; [by apply (metadata_step v v2 node l)|]. intros v3 [_|e] [Hk3 H3]; [|split; [done|by left]].
  apply wp_bind, wp_lift. eapply wp_mono; [by apply (flush_low v v3)|]. intros v4 [_|e] (Hk4 & Hb4 & Hx4 & H4); [|split; [done|by left]].
  pose proof (recorded_same _ _ _ _ _ _ _ H3 Hb4 Hx4) as Hrec. pose proof (keeps_geometry _ _ Hk4) as Eg4. clear H3 H4.
  pose proof (fun d => NoDup_app_disjoint_spec l (S k) d Hnd) as Hdis.
  assert (last_ ∈ take (S k) l) as Hlt by (by apply (list_elem_of_lookup_2 _ k); rewrite -> lookup_take_lt by lia).
  assert (forall d, d <> last_ -> 2 <= d <= cluster_count (geometry_ v) + 1 -> fat_value (geometry_ v) (bytes v4) d = fat_value (geometry_ v) (bytes v) d) as Hother.
  { intros d Hd Hdv. rewrite -> (edited_value _ _ _ _ _ _ d Hg (recorded_edit _ _ _ _ _ _ Hrec)) by done. rewrite -> lookup_empty. cbn.
    rewrite -> (rewritten_value _ _ _ _ _ _ d Hg Hw) by done. by rewrite -> lookup_singleton_ne. }
  assert (fat_value (geometry_ v) (bytes v4) last_ = end_of_chain) as Hend.
  { rewrite -> (edited_value _ _ _ _ _ _ last_ Hg (recorded_edit _ _ _ _ _ _ Hrec)) by done. rewrite -> lookup_empty. cbn.
    rewrite -> (rewritten_value _ _ _ _ _ _ last_ Hg Hw) by done. by rewrite -> lookup_singleton_eq. }
  assert (chain (geometry_ v) (bytes v4) (first_cluster node) (take (S k) l)) as Hc4.
  { eapply (chain_take _ (bytes v) _ last_); [done|done|done| |lia]. intros d Hd Hne. apply Hother; [done|by eapply chain_valid]. }
  apply wp_bind, wp_lift. eapply wp_mono; [apply (free_chain_frees v4 tail (drop (S k) l)); [apply Hk4|]|].
  { rewrite Eg4. eapply chain_ext; [|by eapply chain_at]. intros d Hd. apply Hother.
    - intros ->. by apply (Hdis last_).
    - eapply chain_valid; [exact Hchain|]. by eapply in_drop. }
  intros v5 [_|e] [Hk45 H5]; (assert (keeps v v5) as Hk5 by (by eapply keeps_trans));
    [|split; [done|left; destruct H5 as [_ H5]; intros K; by apply H5, (keeps_reliable _ _ Hk4)]].
  rewrite -> Eg4 in H5. destruct H5 as [Hw5 Hx5]. apply wp_bind, wp_modify. cbn [fst snd]. apply wp_lift.
  eapply wp_mono; [by apply commit_low, Hk5|]. rewrite -> (keeps_geometry _ _ Hk5).
  intros v6 [[]|e] [Hk56 H6]; (assert (keeps v v6) as Hk6 by (by eapply keeps_trans));
    [|split; [done|left; intros K; by apply H6, (keeps_reliable _ _ Hk5)]].
  destruct H6 as [He6 Hx6]. split; [done|]. split; [done|]. exists (take (S k) l). cbn [fst snd].
  assert (edited (geometry_ v) (bytes v4) (bytes v6) (all_set 0 (drop (S k) l)) (low (geometry_ v))) as He.
  { pose proof (edited_trans _ _ _ _ _ _ _ _ (rewritten_low _ _ _ _ Hw5) He6) as K. rewrite -> map_empty_union in K.
    eapply edited_weaken; [|exact K]. intros o Ho. by destruct Ho. }
  pose proof (recorded_exact _ _ _ _ _ _ Hrec) as Hxr.
  change (node <| size := new_size |>) with (node <| first_cluster := first_cluster node |> <| size := new_size |>).
  eapply (finish v v2 v4 v6 node l _ (first_cluster node) new_size _ _ _ Hv Hf Hk6 Hs); [| |by eapply rewritten_edited|exact Hrec|exact He| | | | | | | |auto].
  - rewrite -> length_take. lia.
  - apply linked_chain.
    eapply edited_chain; [done|exact He| |exact Hc4]. intros d Hd. rewrite -> lookup_all_set, decide_False; [done|]. intros Hd'. by apply (Hdis d).
  - intros d x [<- _]%lookup_singleton_Some. left. by eapply list_elem_of_lookup_2.
  - intros d x. rewrite -> lookup_all_set. destruct (decide _) as [Hd|]; [|done]. intros _. left. by eapply in_drop.
  - intros o _ (c & Hc & _). set_solver.
  - intros d Hd. left. by eapply in_take.
  - intros o Ho. rewrite -> (file_byte_prefix _ _ (take (S k) l) (drop (S k) l)), take_drop by (rewrite -> ?length_take; lia).
    eapply (file_byte_kept _ _ _ _ _ _ _ _ Hg (fat_device_size_word v Hv) Hw); [lia|]. intros d Hd. split; [by apply (chain_valid _ _ _ _ d Hchain)|set_solver].
  - intros o Ho. unfold in_u in *. destruct (decide (size node = 0)) as [E0|E0]; [rewrite E0 in F3; unfold clusters_for_size in F3; cbn in F3; lia|].
    specialize (C4 ltac:(lia)). nia.
  - intros d Hd Hn. assert (d ∈ drop (S k) l) as Hdd.
    { rewrite <- (take_drop (S k) l) in Hd. by apply elem_of_app in Hd as [?|?]. }
    pose proof (chain_valid _ _ _ _ d Hchain Hd) as Hdv.
    rewrite -> (edited_value _ _ _ _ _ _ d Hg He), lookup_all_set, decide_True by done. done.
Qed.

Lemma extend_chain_spec v node l new_size last_ : volume_ok v -> file_ok v node l -> in_u 32 new_size ->
  clusters_for_size (geometry_ v) (size node) < clusters_for_size (geometry_ v) new_size -> last l = Some last_ ->
  wp (extend_chain last_ (clusters_for_size (geometry_ v) new_size - clusters_for_size (geometry_ v) (size node)) new_size) (v, node)
    (outcome v node l new_size).
Proof.
  intros Hv Hf Hs Hgrow Hlast. pose proof Hf as [_ F2 F3 F4 _ _]. pose proof (volume_geometry v Hv) as Hg. pose proof (cluster_size v Hv) as Hbs.
  pose proof (fat_device_size_word v Hv) as Hw64.
  assert (chain (geometry_ v) (bytes v) (first_cluster node) l) as Hchain by (by destruct l).
  pose proof (chain_nodup _ _ _ _ (proj2 (ok_clusters _ _ Hg)) Hchain) as Hnd.
  assert (last_ ∈ l) as Hlin by (by apply last_Some_elem_of).
  pose proof (chain_valid _ _ _ _ last_ Hchain Hlin) as Hlv. pose proof (fun d => chain_used _ _ _ _ _ d Hg Hchain) as Hlu.
  destruct (clusters_bound (geometry_ v) new_size ltac:(lia) (proj1 Hs)) as (N1 & N2 & N3 & N4).
  destruct (clusters_bound (geometry_ v) (size node) ltac:(lia) (proj1 F2)) as (C1 & C2 & C3 & C4).
  assert (size node < new_size) as Hsz.
  { destruct (decide (new_size = 0)) as [->|]; [unfold clusters_for_size at 2 in Hgrow; cbn in Hgrow; lia|]. unfold in_u in *. specialize (N4 ltac:(lia)). nia. }
  unfold extend_chain. apply wp_bind, wp_gets. cbn [snd]. set (added := _ - _). apply wp_bind, wp_lift.
  eapply wp_mono; [by apply allocate_chain_fresh|]. intros v1 [[first last2]|e] [Hk1 H1].
  2: { eapply no_room; [|done|exact H1]. unfold added. lia. }
  destruct H1 as (m & Hm & Hfr). destruct (fresh_written _ _ _ _ _ Hfr) as (W & Hdom & Hw).
  assert (chain (geometry_ v) (bytes v1) first m) as Hcm by (pose proof (fresh_chain _ _ _ _ _ Hfr); destruct m; [cbn in Hm; unfold added in Hm; lia|apply H]).
  pose proof (chain_valid _ _ _ _ first Hcm ltac:(destruct (chain_head _ _ _ _ Hcm) as [t ->]; by left)) as Hfv.
  assert (forall d, d ∈ l -> d ∉ m) as Hdis.
  { intros d Hd Hd'. apply (Hlu d Hd). by apply (fresh_free _ _ _ _ _ Hfr). }
  assert (0 <= first <= fat_mask) as Hfm by (pose proof (ok_clusters _ _ Hg) as Hcc; unfold reserved_cluster in Hcc; unfold fat_mask; lia).
  apply wp_bind, wp_lift. eapply wp_mono; [apply (undone v)|].
  - apply wp_bind. eapply wp_mono; [by apply (flush_low v v1)|]. intros v2 [[]|e] (Hk2 & Hb2 & Hx2 & Hr2); [|done].
    apply wp_bind. eapply wp_mono; [by apply (entry_step v v2 last_ first)|]. intros v3 [[]|e] [Hk3 H3]; [|done]. destruct H3 as [Hw3 Hx3].
    apply wp_bind. eapply wp_mono; [by apply (flush_low v v3)|]. intros v4 [[]|e] (Hk4 & Hb4 & Hx4 & Hr4); [|done].
    (* the tables and the chain after the link *)
    assert (rewritten (geometry_ v) (bytes v) (bytes v4) ({[last_ := first]} ∪ W) (list_to_set m)) as Hw4.
    { eapply rewritten_ext_r; [exact Hb4|]. pose proof (rewritten_trans _ _ _ _ _ _ _ _ (rewritten_ext_r _ _ _ _ _ _ Hb2 Hw) Hw3) as K.
      by rewrite -> union_empty_r_L in K. }
    assert (forall d, d ∉ l -> fat_value (geometry_ v) (bytes v4) d = fat_value (geometry_ v) (bytes v1) d \/ ~ 2 <= d <= cluster_count (geometry_ v) + 1) as Hm4.
    { intros d Hd. destruct (decide (2 <= d <= cluster_count (geometry_ v) + 1)) as [Hdv|]; [left|by right].
      rewrite -> (fat_value_ext _ (bytes v3)) by done. rewrite -> (rewritten_value _ _ _ _ _ _ d Hg Hw3) by done.
      rewrite -> lookup_singleton_ne by (intros ->; by apply Hd). cbn. by apply fat_value_ext. }
    assert (forall d, d ∈ l -> d <> last_ -> fat_value (geometry_ v) (bytes v4) d = fat_value (geometry_ v) (bytes v) d) as Hl4.
    { intros d Hd Hne. rewrite -> (rewritten_value _ _ _ _ _ _ d Hg Hw4) by (by apply (chain_valid _ _ _ _ d Hchain)).
      rewrite -> lookup_union, lookup_singleton_ne by done. rewrite -> (not_elem_of_dom_1 W); [done|]. rewrite Hdom. pose proof (Hdis d Hd). set_solver. }
    assert (chain (geometry_ v) (bytes v4) (first_cluster node) (l ++ m)) as Hc4.
    { eapply (chain_joined _ (bytes v) _ last_ first); [done|done|done|done| |].
      - rewrite -> (rewritten_value _ _ _ _ _ _ last_ Hg Hw4) by done. rewrite -> lookup_union, lookup_singleton_eq. by destruct (W !! last_).
      - eapply chain_ext; [|exact Hcm]. intros d Hd. destruct (Hm4 d) as [|Hn]; [|done|]; [intros K; by apply (Hdis d)|].
        destruct Hn. by apply (chain_valid _ _ _ _ d Hcm). }
    assert (Z.of_nat (length (l ++ m)) = clusters_for_size (geometry_ v) new_size) as Hlen by (rewrite -> length_app, Hm; unfold added; lia).
    pose proof (keeps_geometry _ _ Hk4) as Eg4.
    apply wp_bind. eapply wp_mono; [apply (zero_file_range_spec v4 _ (l ++ m)); [apply Hk4|by rewrite Eg4|unfold in_u in F2; lia|lia|]|].
    { rewrite -> Eg4, Hlen. lia. }
    rewrite Eg4. intros v5 [[]|e] [Hk45 H5]; (assert (keeps v v5) as Hk5 by (by eapply keeps_trans));
      [|split; [done|]; destruct H5 as [_ H5]; intros K; by apply H5, (keeps_reliable _ _ Hk4)].
    destruct H5 as [Hst Hx5]. destruct (zeroed_tail _ _ _ _ _ _ Hst ltac:(unfold in_u in F2; lia)) as [Hsame Hzero].
    pose proof (rewritten_trans _ _ _ _ _ _ _ _ Hw4 (file_stored_rest _ _ _ _ _ _ Hst)) as Hw5. rewrite -> map_empty_union in Hw5.
    eapply (record_and_commit v v5 node l (first_cluster node) new_size _ _ (l ++ m)); [done|done|done| |done|done| |by eapply rewritten_edited| | | | |done|].
    + intros Hx. apply Hx5, Hx4, Hx3; [|lia|by apply Hx2, (fresh_exact _ _ _ _ _ Hfr)].
      rewrite -> (fat_value_ext _ (bytes v1)), (rewritten_value _ _ _ _ _ _ last_ Hg Hw) by done.
      rewrite -> (not_elem_of_dom_1 W); [by apply Hlu|]. rewrite Hdom. pose proof (Hdis last_ Hlin). set_solver.
    + apply linked_chain. by eapply file_stored_chain.
    + intros d x. rewrite -> lookup_union_Some_raw. intros [[<- _]%lookup_singleton_Some|[_ Hd%elem_of_dom_2]]; [by left|right].
      apply (fresh_free _ _ _ _ _ Hfr). set_solver.
    + intros o _ (d & Hd & Ho). exists d. split; [set_solver|done].
    + intros d [Hd|Hd]%elem_of_app; [by left|right]. by apply (fresh_free _ _ _ _ _ Hfr).
    + intros o Ho. rewrite -> Hsame by done. rewrite <- (file_byte_prefix _ _ l m) by lia.
      eapply (file_byte_kept _ _ _ _ _ _ _ _ Hg Hw64 Hw4); [lia|]. intros d Hd. split; [by apply (chain_valid _ _ _ _ d Hchain)|].
      pose proof (Hdis d Hd). set_solver.
    + intros d Hd. apply elem_of_app. by left.
  - intros v2 Hk2. apply wp_bind, wp_attempt. eapply wp_mono; [apply write_fat_entry_keeps; [apply Hk2|done]|].
    intros v3 r Hk3. apply free_chain_undo. by eapply keeps_trans.
  - intros v2 [[]|e] [Hk2 H2]; [|split; [done|by left]]. cbn [fst snd]. apply wp_bind, wp_modify. cbn [fst snd]. apply wp_lift.
    eapply wp_mono; [exact H2|]. intros v3 [[]|e] [Hk3 H3]; (split; [done|]); [|by left]. split; [done|]. by exists (l ++ m).
Qed.
End truncate.
End Fat32TruncateSpec.
