(* ===== verification/Fat32Write.v ===== *)
(** * Truncating and writing FAT32 files

    [truncate] by its five ways, and [write]: the bytes written are in the
    file, the others are as before, a gap is zero, and no other file is
    touched. *)

From stdpp Require Import gmap.
From S2P Require Import Prelude Ethernet Filesystem Fat32Name Fat32 Fat32Image Fat32Laws Fat32Mount Fat32Read Fat32Table Fat32Alloc Fat32Chain Fat32File Fat32Truncate Fat32Resize Fat32TruncateSpec.
Import Fs Fat32 Fat32Image Fat32Laws Fat32Mount Fat32Read Fat32Table Fat32Alloc Fat32Chain Fat32File Fat32Truncate Fat32Resize Fat32TruncateSpec.
Local Open Scope Z_scope.

Module Fat32Write.

Section write.
Context {D : Type} {device : Device D} {laws : DeviceLaws D}.
Implicit Types v : Volume D.

Lemma file_chain_of v node l : volume_ok v -> file_ok v node l -> 0 < clusters_for_size (geometry_ v) (size node) ->
  chain (geometry_ v) (bytes v) (first_cluster node) l /\ l <> [].
Proof. intros Hv [_ _ F3 F4 _ _] Hc. destruct l as [|x l]; [cbn in F3; lia|]. by split. Qed.

(** A read in between does not matter. *)
Lemma updated_reads_only v v1 v2 node node' l l' c : reads_only v v1 -> updated v1 v2 node node' l l' c -> updated v v2 node node' l l' c.
Proof.
  intros Hr [H1 H2 H3 H4 H5 H6 H7]. pose proof (fat_reads_only_geometry _ _ Hr) as Eg. rewrite -> Eg in *.
  pose proof (fun o => fat_reads_only_bytes _ _ o Hr) as Hb.
  assert (forall d, fat_value (geometry_ v) (bytes v1) d = fat_value (geometry_ v) (bytes v) d) as Hval by (intros; by apply fat_value_ext).
  split; [done..| | | |].
  - intros d Hd. rewrite <- Hval. by apply H4.
  - done.
  - intros d m Hm Hd. assert (chain (geometry_ v) (bytes v1) d m) as Hm1 by (eapply chain_ext; [intros; apply Hval|exact Hm]).
    destruct (H6 d m Hm1 Hd) as [K1 K2]. split; [done|].
    intros x o Hx Ho Hn. rewrite <- Hb. by eapply K2.
  - intros Hx. apply H7. by eapply exact_reads_only.
Qed.

Lemma content_reads_only v v1 l node : reads_only v v1 -> content v1 l node = content v l node.
Proof.
  intros Hr. unfold content. rewrite -> (fat_reads_only_geometry _ _ Hr). apply bytes_at_ext. intros o _. unfold file_byte.
  destruct (l !! _); [|done]. by apply fat_reads_only_bytes.
Qed.

Lemma given_back_reads_only v v1 v2 m : reads_only v v1 -> given_back v1 v2 m -> given_back v v2 m.
Proof.
  intros Hr [H1 H2 H3 H4]. pose proof (fun o => fat_reads_only_bytes _ _ o Hr) as Hb. rewrite -> (fat_reads_only_geometry _ _ Hr) in *. split.
  - intros d. by rewrite -> H1, (fat_value_ext _ (bytes v)).
  - by rewrite <- H2, (free_count_ext _ (bytes v) (bytes v1)).
  - by eapply rewritten_ext.
  - intros Hx. apply H4. by eapply exact_reads_only.
Qed.

Lemma outcome_reads_only v v1 node l new_size s r : volume_ok v -> reads_only v v1 -> outcome v1 node l new_size s r -> outcome v node l new_size s r.
Proof.
  intros Hv Hr [Hk H]. pose proof (reads_only_keeps _ _ Hv Hr) as Hk1. split; [by eapply keeps_trans|]. destruct r as [_|e].
  - destruct H as (E & l' & H). split; [done|]. exists l'. unfold resized in *. rewrite -> (content_reads_only v v1) in H by done.
    by eapply updated_reads_only.
  - destruct H as [H|(-> & E & Hc & m & Hm)]; [left; intros K; by apply H, (keeps_reliable _ _ Hk1)|right].
    rewrite -> (fat_reads_only_geometry _ _ Hr) in Hc. split; [done|]. split; [done|]. split.
    + rewrite -> (free_count_ext _ (bytes v) (bytes v1)) in Hc by (intros; by apply fat_reads_only_bytes). done.
    + exists m. by eapply given_back_reads_only.
Qed.

Lemma file_ok_reads_only v v1 node l : reads_only v v1 -> file_ok v node l -> file_ok v1 node l.
Proof.
  intros Hr [H1 H2 H3 H4 H5 (c & H6)]. pose proof (fun o => fat_reads_only_bytes _ _ o Hr) as Hb.
  assert (forall d, fat_value (geometry_ v) (bytes v1) d = fat_value (geometry_ v) (bytes v) d) as Hval by (intros; by apply fat_value_ext).
  split; rewrite -> ?(fat_reads_only_geometry _ _ Hr); [done|done|done| | |].
  - destruct l as [|x l]; [done|]. cbn [linked] in *. eapply chain_ext; [by intros; apply Hval|done].
  - unfold shows. by rewrite -> (fat_reads_only_bytes_at v v1).
  - exists c. by rewrite Hval.
Qed.

Lemma truncates v node l new_size : volume_ok v -> file_ok v node l -> in_u 32 new_size ->
  wp (truncate new_size) (v, node) (outcome v node l new_size).
Proof.
  intros Hv Hf Hs. pose proof Hf as [F1 F2 F3 F4 _ (c & Hc & _ & _ & R1 & R2)]. pose proof (volume_geometry v Hv) as Hg.
  pose proof (cluster_size v Hv) as Hbs. destruct (cluster_bounds _ _ _ Hg Hc (fat_device_size_word v Hv)) as (_ & B1 & _).
  destruct (data_start_nonneg _ _ Hg) as [B2 B3].
  destruct (entry_bounds _ _ 0 2 Hg ltac:(pose proof (ok_fats _ _ Hg); lia) ltac:(pose proof (ok_clusters _ _ Hg); lia) (fat_device_size_word v Hv)) as (_ & C1 & _).
  destruct (clusters_bound (geometry_ v) new_size ltac:(lia) (proj1 Hs)) as (N1 & N2 & N3 & N4).
  destruct (clusters_bound (geometry_ v) (size node) ltac:(lia) (proj1 F2)) as (O1 & O2 & O3 & O4).
  unfold truncate. apply wp_bind, wp_gets, wp_bind, wp_gets, wp_bind, wp_gets. cbn [fst snd].
  apply wp_bind, wp_stop_if; rewrite -> (volume_mounted v Hv); [done|intros _].
  apply wp_bind, wp_stop_if; unfold is_directory; rewrite F1; [done|intros _].
  apply wp_bind, wp_stop_if; rewrite -> (proj2 (Z.eqb_neq (entry_offset node) 0)) by lia; [done|intros _]. cbn zeta.
  destruct (Z.eqb_spec (clusters_for_size (geometry_ v) (size node)) (clusters_for_size (geometry_ v) new_size)) as [E|E]; [by apply resize_in_place_spec|].
  destruct (Z.eqb_spec (clusters_for_size (geometry_ v) new_size) 0) as [E1|E1].
  { pose proof (N3 E1) as ->. apply make_empty_spec; [done|done|]. apply (file_chain_of v node l Hv Hf). lia. }
  destruct (Z.eqb_spec (clusters_for_size (geometry_ v) (size node)) 0) as [E2|E2].
  { assert (l = []) as -> by (destruct l; [done|cbn in F3; lia]). apply make_chain_spec; [done|done|done|].
    intros ->. by apply E1. }
  destruct (file_chain_of v node l Hv Hf ltac:(lia)) as [Hchain Hl].
  set (k := Z.to_nat (Z.min _ _ - 1)). destruct (lookup_lt_is_Some_2 l k) as [last_ Hk]; [unfold k; lia|].
  destruct (chain_head _ _ _ _ Hchain) as [t Et].
  apply wp_bind, wp_lift. eapply wp_mono; [apply (walk_spec k v (first_cluster node) l 0 (first_cluster node) last_); [done|done|by rewrite Et|done]|].
  intros v1 [x|e] [Hr H]; [subst x|split; [by apply reads_only_keeps|left; apply H]].
  pose proof (fat_reads_only_ok _ _ Hr Hv) as Hv1. pose proof (file_ok_reads_only _ _ _ _ Hr Hf) as Hf1. pose proof (fat_reads_only_geometry _ _ Hr) as Eg.
  eapply wp_mono; [|intros s r; by apply (outcome_reads_only v v1)]. rewrite <- Eg.
  destruct (Z.gtb_spec (clusters_for_size (geometry_ v1) new_size) (clusters_for_size (geometry_ v1) (size node))) as [Hgt|Hle].
  - apply extend_chain_spec; [done|done|done|lia|]. rewrite -> last_lookup. rewrite <- Hk. f_equal. unfold k. rewrite -> Eg in Hgt. lia.
  - destruct (lookup_lt_is_Some_2 l (S k)) as [tail Ht]; [unfold k; rewrite -> Eg in Hle; lia|].
    eapply (cut_chain_spec v1 node l new_size k last_ tail); [done|done|done| |done|done]. unfold k. rewrite -> Eg in *. lia.
Qed.

(** ** Writing *)

Lemma length_content v l node : length (content v l node) = Z.to_nat (size node).
Proof. unfold content. by rewrite -> length_bytes_at. Qed.

Lemma updated_refl v node l : volume_ok v -> file_ok v node l -> updated v v node node l l (content v l node).
Proof. intros Hv Hf. split; [done|by destruct node|done|by left|by intros d Hd Hn|done|done]. Qed.

Lemma file_byte_same_bytes g f f' l o : (forall i, f' i = f i) -> file_byte g f' l o = file_byte g f l o.
Proof. intros H. unfold file_byte. by destruct (l !! _). Qed.

(** Bytes patched into an array. *)
Lemma patched_bytes (F F' : Z -> Z) offset data n : 0 <= offset -> offset + Z.of_nat (length data) <= Z.of_nat n ->
  (forall o, 0 <= o -> F' o = if decide (offset <= o < offset + Z.of_nat (length data)) then byte data (Z.to_nat (o - offset)) else F o) ->
  bytes_at F' 0 n = patch (bytes_at F 0 n) (Z.to_nat offset) data.
Proof.
  intros Ho Hn H. apply list_eq. intros i. pose proof (length_bytes_at F 0 n) as L. destruct (decide (i < n)%nat) as [Hi|Hi].
  - rewrite -> lookup_bytes_at, H by lia. unfold patch. destruct (decide _) as [Hin|Hout].
    + rewrite -> lookup_app_r, lookup_app_l by (rewrite -> ?length_take; lia). rewrite -> length_take. unfold byte.
      replace (i - Z.to_nat offset `min` length (bytes_at F 0 n))%nat with (Z.to_nat (0 + Z.of_nat i - offset)) by lia.
      destruct (lookup_lt_is_Some_2 data (Z.to_nat (0 + Z.of_nat i - offset))) as [x ->]; [lia|done].
    + destruct (decide (i < Z.to_nat offset)%nat).
      * rewrite -> lookup_app_l, lookup_take_lt, lookup_bytes_at by (rewrite -> ?length_take; lia). done.
      * rewrite -> lookup_app_r, lookup_app_r, lookup_drop, lookup_bytes_at by (rewrite -> ?length_take; lia).
        do 2 f_equal. rewrite -> length_take. lia.
  - rewrite -> !lookup_ge_None_2; [done|rewrite -> length_patch by lia; lia|rewrite -> length_bytes_at; lia].
Qed.

(** Data stored into an updated file. *)
Lemma updated_stored v v1 v2 node node1 l l1 c offset data : volume_ok v -> file_ok v node l -> updated v v1 node node1 l l1 c ->
  keeps v v1 -> keeps v v2 -> file_stored (geometry_ v) (bytes v1) (bytes v2) l1 offset data -> (exact v1 -> exact v2) ->
  0 <= offset -> offset + Z.of_nat (length data) <= size node1 ->
  updated v v2 node node1 l l1 (patch c (Z.to_nat offset) data).
Proof.
  intros Hv Hf [U1 U2 U3 U4 U5 U6 U7] Hk1 Hk2 [Hst Hw] Hx Ho Hl. pose proof (volume_geometry v Hv) as Hg. pose proof (fat_device_size_word v Hv) as Hw64.
  pose proof (keeps_geometry _ _ Hk1) as Eg1. pose proof (keeps_geometry _ _ Hk2) as Eg2.
  assert (forall d, 2 <= d <= cluster_count (geometry_ v) + 1 -> fat_value (geometry_ v) (bytes v2) d = fat_value (geometry_ v) (bytes v1) d) as Hval.
  { intros d Hd. by rewrite -> (rewritten_value _ _ _ _ _ _ d Hg Hw). }
  assert (forall d o, 2 <= d <= cluster_count (geometry_ v) + 1 -> d ∉ l1 -> in_cluster (geometry_ v) d o -> bytes v2 o = bytes v1 o) as Hbytes.
  { intros d o Hd Hn Hin. destruct (cluster_bounds _ _ _ Hg Hd Hw64) as (_ & B & _).
    apply (rewritten_rest _ _ _ _ _ Hw); [right; unfold in_cluster in Hin; lia|]. intros x Hx' Hin'.
    rewrite -> (in_cluster_disjoint _ _ x d o Hg) in Hx' by done. set_solver. }
  pose proof U1 as [F1 F2 F3 F4 F5 (e & He & Hel & Heu & R1 & R2)]. rewrite -> Eg1 in *. split; rewrite -> ?Eg2; [|done| |done| | |auto].
  - split; rewrite -> ?Eg2; [done|done|done| | |].
    + destruct l1 as [|x l1]; [done|]. cbn [linked] in *. eapply file_stored_chain; [done| |exact F4]. by split.
    + unfold shows. rewrite -> (bytes_at_ext (bytes v2) (bytes v1)); [exact F5|]. intros o Hin. apply (Hbytes e); [done|done|]. unfold in_cluster. lia.
    + exists e. by rewrite Hval.
  - rewrite <- U3. unfold content. rewrite -> Eg1, Eg2. unfold in_u in F2. apply patched_bytes; [done|lia|done].
  - intros d Hd Hn. rewrite -> Hval; [by apply U5|]. destruct Hf as [_ _ _ L _ _]. destruct l as [|x l]; [by apply not_elem_of_nil in Hd|].
    by apply (chain_valid _ _ _ _ d L).
  - intros d m Hm Hd. destruct (U6 d m Hm Hd) as [K1 K2]. split.
    + eapply file_stored_chain; [done| |exact K1]. by split.
    + intros x o Hxm Hin Hn. rewrite -> (Hbytes x); [by eapply K2|by apply (chain_valid _ _ _ _ x Hm)| |done].
      intros Hx1. destruct (U4 x Hx1) as [Hxl|Hx0]; [by apply (Hd x)|]. by apply (chain_used _ _ _ _ _ x Hg Hm).
Qed.

(** What [write] gives: the file with [data] at [offset]; or, for want of
    space, nothing. *)
Definition overwritten v (node : Node) (l : list Z) (offset : Z) (data : list Z) (s : Volume D * Node) (r : Result Z) : Prop :=
  keeps v s.1 /\
  match r with
  | expected n => n = Z.of_nat (length data) /\ size s.2 = Z.max (size node) (offset + n) /\
      exists l', updated v s.1 node s.2 l l' (patch (resize (Z.to_nat (size s.2)) 0 (content v l node)) (Z.to_nat offset) data)
  | unexpected e => ~ reliable (device_ v) \/ e = Error.no_space /\ s.2 = node /\ exists m, given_back v s.1 m
  end.

Lemma writes v node l offset data : volume_ok v -> file_ok v node l -> data <> [] -> bytes_ok data -> 0 <= offset ->
  offset + Z.of_nat (length data) < 2 ^ 32 ->
  wp (write offset (Some data) (Z.of_nat (length data))) (v, node) (overwritten v node l offset data).
Proof.
  intros Hv Hf Hne Hd Ho Hend. pose proof Hf as [F1 F2 _ _ _ _]. pose proof (volume_geometry v Hv) as Hg.
  set (count := Z.of_nat (length data)) in *. assert (0 < count) as Hcount by (unfold count; destruct data; [done|cbn; lia]).
  unfold write. apply wp_bind, wp_gets, wp_bind, wp_gets, wp_bind, wp_gets. cbn [fst snd].
  apply wp_bind, wp_stop_if; rewrite -> (volume_mounted v Hv), bool_decide_eq_false_2, !Z.gtb_ltb, !(proj2 (Z.ltb_ge _ _)) by (done || lia); [done|intros _].
  apply wp_bind, wp_stop_if; unfold is_directory; rewrite F1; [done|intros _]. rewrite -> (proj2 (Z.eqb_neq _ _)) by lia. cbn zeta.
  (* the file is long enough *)
  apply wp_bind. eapply (wp_mono _ _ (fun s r => keeps v s.1 /\ match r with
    | expected _ => size s.2 = Z.max (size node) (offset + count) /\
        exists l', updated v s.1 node s.2 l l' (resize (Z.to_nat (size s.2)) 0 (content v l node))
    | unexpected e => ~ reliable (device_ v) \/ e = Error.no_space /\ s.2 = node /\ exists m, given_back v s.1 m
    end)).
  { destruct (Z.ltb_spec (size node) (offset + count)) as [Hgt|Hle].
    - eapply wp_mono; [apply (truncates v node l); [done|done|unfold in_u; lia]|]. intros s [_|e] [Hk H]; (split; [done|]).
      + destruct H as [E H]. split; [lia|exact H].
      + destruct H as [H|(-> & E & _ & H)]; [by left|by right].
    - apply wp_ret. split; [by apply keeps_refl|]. split; [cbn [snd]; lia|]. exists l. cbn [fst snd].
      rewrite -> resize_all_alt by (symmetry; apply length_content). by apply updated_refl. }
  intros [v1 n1] [_|e] [Hk1 H]; [|by split]. cbn [fst snd] in *. destruct H as (Esz & l1 & Hup).
  pose proof (keeps_geometry _ _ Hk1) as Eg1. pose proof (cluster_size v Hv) as Hbs. set (bpc := bytes_per_cluster (geometry_ v)) in *.
  pose proof (updated_file _ _ _ _ _ _ _ Hup) as Hf1. pose proof Hf1 as [_ F2' F3' _ _ _]. rewrite -> Eg1 in F3'.
  destruct (clusters_bound (geometry_ v) (size n1) ltac:(fold bpc; lia) (proj1 F2')) as (C1 & C2 & C3 & C4). fold bpc in C2, C4.
  destruct (file_chain_of v1 n1 l1 (keeps_ok _ _ Hk1) Hf1) as [Hchain Hl1]; [rewrite Eg1; lia|].
  pose proof (Z.div_mod offset bpc ltac:(lia)) as Ed. pose proof (Z.mod_pos_bound offset bpc ltac:(lia)) as Hm.
  assert (0 <= offset / bpc) as Hq by (apply Z.div_pos; lia). set (k := Z.to_nat (offset / bpc)).
  destruct (lookup_lt_is_Some_2 l1 k) as [c Hc]; [unfold k; nia|]. destruct (chain_head _ _ _ _ Hchain) as [t Et].
  apply wp_bind, wp_gets. cbn [snd]. fold k.
  apply wp_bind, wp_lift. eapply wp_mono; [apply (walk_spec k v1 (first_cluster n1) l1 0 (first_cluster n1) c); [apply Hk1|done|by rewrite Et|done]|].
  intros v2 [x|e] [Hr2 H2]; (assert (keeps v v2) as Hk2 by (eapply keeps_trans; [done|by apply reads_only_keeps; [apply Hk1|]]));
    [subst x|split; [done|left; destruct H2 as [_ H2]; intros K; by apply H2, (keeps_reliable _ _ Hk1)]].
  pose proof (keeps_geometry _ _ Hk2) as Eg2.
  apply wp_bind, wp_lift. cbn [default from_option id]. unfold count. rewrite -> Nat2Z.id, take_ge by lia.
  eapply wp_mono; [eapply (file_write_loop_spec _ v2 (first_cluster n1) l1 k c (offset mod bpc) data)|].
  { apply Hk2. } { by eapply chain_reads_only. } { done. } { done. } { rewrite Eg2. fold bpc. lia. }
  { rewrite Eg2. fold bpc. unfold k. nia. } { lia. }
  rewrite Eg2. fold bpc. intros v3 [_|e] [Hd3 H3]; (assert (keeps v v3) as Hk3 by (eapply keeps_trans; [done|by apply only_device_keeps; [apply Hk2|]]));
    [|split; [done|left; destruct H3 as [_ H3]; intros K; by apply H3, (keeps_reliable _ _ Hk2)]].
  replace (Z.of_nat k * bpc + offset mod bpc) with offset in H3 by (unfold k; lia).
  apply wp_bind, wp_lift. eapply wp_mono; [by apply (flush_low v v3)|].
  intros v4 [_|e] (Hk4 & Hb4 & Hx4 & H4); [|split; [done|by left]]. apply wp_ret. split; [done|]. cbn [fst snd].
  split; [done|]. split; [done|]. exists l1. eapply (updated_stored v v1 v4); [done|done|exact Hup|done|done| | |done|fold count; lia].
  - split; [intros o Ho'|].
    + rewrite -> (file_byte_same_bytes (geometry_ v) (bytes v3) (bytes v4)) by done. 
      rewrite -> (file_stored_bytes _ _ _ _ _ _ H3) by done. destruct (decide _); [done|].
      apply file_byte_same_bytes. intros i. by apply fat_reads_only_bytes.
    + eapply rewritten_ext_r; [exact Hb4|]. eapply rewritten_ext; [|exact (file_stored_rest _ _ _ _ _ _ H3)]. intros i. by apply fat_reads_only_bytes.
  - intros Hx. apply Hx4. eapply exact_device; [apply Hk2|exact Hd3| |by eapply exact_reads_only].
    rewrite Eg2. exact (file_stored_rest _ _ _ _ _ _ H3).
Qed.

(** C16: truncating a file, to a smaller or a larger size.  On success the file
    has the new size, its bytes are those it had, cut or followed by zeros,
    its chain has exactly the clusters the size needs and its directory record
    shows cluster and size; the clusters it lost are free; and every file
    whose chain shares no cluster with it keeps its chain and its bytes.  A
    device that works fails it only for want of free clusters, and then no
    table entry or byte of a file is different and the node is as it was. *)
Theorem fat_truncate_spec v node l new_size : volume_ok v -> file_ok v node l -> in_u 32 new_size ->
  let '((v', node'), r) := truncate new_size (v, node) in
  keeps v v' /\
  match r with
  | expected _ => size node' = new_size /\ exists l', resized v v' node node' l l'
  | unexpected e => ~ reliable (device_ v) \/
      e = Error.no_space /\ node' = node /\
      free_count (geometry_ v) (bytes v) < clusters_for_size (geometry_ v) new_size - clusters_for_size (geometry_ v) (size node) /\
      exists m, given_back v v' m
  end.
Proof.
  intros Hv Hf Hs. pose proof (truncates v node l new_size Hv Hf Hs) as H. unfold wp, outcome in H.
  destruct (truncate new_size (v, node)) as [[v' node'] r]. exact H.
Qed.

(** C13: writing into a file, inside it, over its end or behind it.  On success
    the file has the bytes written at the offset, its other bytes are as
    before and zero in a gap, and its size is the old one or the end of what
    was written; no file whose chain shares no cluster with it is touched.  A
    device that works fails it only for want of space, with no effect on any
    file. *)
Theorem fat_write_spec v node l offset data : volume_ok v -> file_ok v node l -> data <> [] -> bytes_ok data -> 0 <= offset ->
  offset + Z.of_nat (length data) < 2 ^ 32 ->
  let '((v', node'), r) := write offset (Some data) (Z.of_nat (length data)) (v, node) in
  keeps v v' /\
  match r with
  | expected n => n = Z.of_nat (length data) /\ size node' = Z.max (size node) (offset + n) /\
      exists l', updated v v' node node' l l' (patch (resize (Z.to_nat (size node')) 0 (content v l node)) (Z.to_nat offset) data)
  | unexpected e => ~ reliable (device_ v) \/ e = Error.no_space /\ node' = node /\ exists m, given_back v v' m
  end.
Proof.
  intros Hv Hf Hne Hd Ho Hend. pose proof (writes v node l offset data Hv Hf Hne Hd Ho Hend) as H. unfold wp, overwritten in H.
  destruct (write offset (Some data) (Z.of_nat (length data)) (v, node)) as [[v' node'] r]. exact H.
Qed.
End write.

(** The volume of [file_image] with the record of its file. *)
Definition record : list Z := replicate 11 65 ++ [0x20] ++ replicate 14 0 ++ bytes16 3 ++ bytes32 700.
Definition recorded_image : Sparse := mkSparse (66581 * 512) ((1056 * 512, record) :: sparse_writes file_image).
Definition recorded_volume : Volume Sparse := (mount recorded_image).1.

Lemma recorded_volume_ok : volume_ok recorded_volume.
Proof.
  assert (good recorded_image) as Hg by (split; [vm_compute; split; congruence|apply writes_ok_check; vm_compute; reflexivity]).
  pose proof (fat_mounted recorded_image Hg) as H. unfold recorded_volume. destruct (mount recorded_image) as [v r] eqn:E.
  assert (r = expected tt) as -> by (change r with (v, r).2; rewrite <- E; vm_compute; reflexivity). apply H.
Qed.

Lemma recorded_file_ok : file_ok recorded_volume file_node [3; 5].
Proof.
  split; [reflexivity|vm_compute; split; congruence|vm_compute; reflexivity| |vm_compute; split; reflexivity|].
  - vm_compute. repeat split; congruence.
  - exists 2. assert (2 ∉ [3; 5]) as H by (by rewrite -> !elem_of_cons, elem_of_nil; lia). split; [vm_compute; split; congruence|].
    split; [exact H|]. split; [vm_compute; congruence|]. vm_compute. split; congruence.
Qed.

Lemma fat_truncate_spec_witness :
  (truncate 1500 (recorded_volume, file_node)).2 = expected tt /\
  let '((v', node'), r) := truncate 1500 (recorded_volume, file_node) in
  keeps recorded_volume v' /\
  match r with
  | expected _ => size node' = 1500 /\ exists l', resized recorded_volume v' file_node node' [3; 5] l'
  | unexpected e => ~ reliable (device_ recorded_volume) \/
      e = Error.no_space /\ node' = file_node /\
      free_count (geometry_ recorded_volume) (bytes recorded_volume) <
        clusters_for_size (geometry_ recorded_volume) 1500 - clusters_for_size (geometry_ recorded_volume) (size file_node) /\
      exists m, given_back recorded_volume v' m
  end.
Proof.
  split; [vm_compute; reflexivity|].
  exact (fat_truncate_spec recorded_volume file_node [3; 5] 1500 recorded_volume_ok recorded_file_ok ltac:(unfold in_u; lia)).
Defined.

Lemma fat_write_spec_witness :
  (write 600 (Some [1; 2; 3; 4]) 4 (recorded_volume, file_node)).2 = expected 4 /\
  let '((v', node'), r) := write 600 (Some [1; 2; 3; 4]) 4 (recorded_volume, file_node) in
  keeps recorded_volume v' /\
  match r with
  | expected n => n = 4 /\ size node' = Z.max (size file_node) (600 + n) /\
      exists l', updated recorded_volume v' file_node node' [3; 5] l'
        (patch (resize (Z.to_nat (size node')) 0 (content recorded_volume [3; 5] file_node)) (Z.to_nat 600) [1; 2; 3; 4])
  | unexpected e => ~ reliable (device_ recorded_volume) \/ e = Error.no_space /\ node' = file_node /\ exists m, given_back recorded_volume v' m
  end.
Proof.
  split; [vm_compute; reflexivity|].
  exact (fat_write_spec recorded_volume file_node [3; 5] 600 [1; 2; 3; 4] recorded_volume_ok recorded_file_ok
    ltac:(done) ltac:(repeat constructor; lia) ltac:(lia) ltac:(cbn; lia)).
Defined.
End Fat32Write.
