(* ===== verification/Abi.v ===== *)
(** * [include/mikos/abi/riscv32.hpp], [kernel.hpp] and [scheduler.hpp]: the
    machine interface of a user program

    Error numbers, system call numbers and their names, the registers a trap
    saves, the memory a user program may name and the state of the process
    that is running. *)

From S2P Require Import Prelude Base Signal.
From stdpp Require Import strings.
Local Open Scope Z_scope.

Module Abi.

(** ** Error numbers *)

Module Errno.
Inductive errno :=
  | no_entry | interrupted | io | exec_format | bad_file_descriptor | no_child | try_again | access_denied
  | bad_address | file_exists | no_device | not_directory | is_directory | invalid_argument | not_a_tty
  | text_file_busy | no_space | broken_pipe | read_only_filesystem | no_syscall | no_memory | not_socket
  | destination_address_required | protocol_not_supported | operation_not_supported
  | address_family_not_supported | address_in_use | not_connected | timed_out.
#[global] Instance eq_dec : EqDecision errno.
Proof. solve_decision. Defined.
End Errno.

Definition errno_value (e : Errno.errno) : Z :=
  match e with
  | Errno.no_entry => 2
  | Errno.interrupted => 4
  | Errno.io => 5
  | Errno.exec_format => 8
  | Errno.bad_file_descriptor => 9
  | Errno.no_child => 10
  | Errno.try_again => 11
  | Errno.access_denied => 13
  | Errno.bad_address => 14
  | Errno.file_exists => 17
  | Errno.no_device => 19
  | Errno.not_directory => 20
  | Errno.is_directory => 21
  | Errno.invalid_argument => 22
  | Errno.not_a_tty => 25
  | Errno.text_file_busy => 26
  | Errno.no_space => 28
  | Errno.broken_pipe => 32
  | Errno.read_only_filesystem => 30
  | Errno.no_syscall => 38
  | Errno.no_memory => 12
  | Errno.not_socket => 88
  | Errno.destination_address_required => 89
  | Errno.protocol_not_supported => 93
  | Errno.operation_not_supported => 95
  | Errno.address_family_not_supported => 97
  | Errno.address_in_use => 98
  | Errno.not_connected => 107
  | Errno.timed_out => 110
  end.

(** A failed call returns the negated number. *)
Definition error (e : Errno.errno) : Z := - errno_value e.

(** ** System calls *)

Module Syscall.
Inductive syscall :=
  | getcwd | dup3 | fcntl | mkdirat | unlinkat | renameat | truncate | ftruncate | ioctl | statfs64
  | faccessat | chdir | fchmodat | openat | close | pipe2 | getdents64 | lseek | read | write | writev
  | pselect6 | ppoll | sync | fsync | fdatasync | readlinkat | fstatat64 | fstat64 | exit | exit_group
  | waitid | set_tid_address | futex | set_robust_list | clock_gettime32 | sched_getaffinity | kill
  | tgkill | sigaltstack | rt_sigaction | rt_sigprocmask | rt_sigreturn | setpgid | getpgid | getsid
  | setsid | uname | getrusage | umask | prctl | getcpu | gettimeofday | getpid | getppid | getuid
  | geteuid | getgid | getegid | gettid | sysinfo | socket | bind | listen | accept | getsockname
  | getpeername | setsockopt | shutdown | brk | munmap | clone | execve | mmap2 | mprotect | accept4
  | wait4 | riscv_hwprobe | prlimit64 | getrandom | statx | renameat2 | rseq | clock_gettime64
  | clock_nanosleep64 | pselect6_time64 | ppoll64 | futex_time64.
#[global] Instance eq_dec : EqDecision syscall.
Proof. solve_decision. Defined.
End Syscall.

(** The enumerators and their values. *)
Definition syscalls : list (Syscall.syscall * Z) := [
  (Syscall.getcwd, 17); (Syscall.dup3, 24); (Syscall.fcntl, 25); (Syscall.mkdirat, 34);
  (Syscall.unlinkat, 35); (Syscall.renameat, 38); (Syscall.truncate, 45); (Syscall.ftruncate, 46);
  (Syscall.ioctl, 29); (Syscall.statfs64, 43); (Syscall.faccessat, 48); (Syscall.chdir, 49);
  (Syscall.fchmodat, 53); (Syscall.openat, 56); (Syscall.close, 57); (Syscall.pipe2, 59);
  (Syscall.getdents64, 61); (Syscall.lseek, 62); (Syscall.read, 63); (Syscall.write, 64);
  (Syscall.writev, 66); (Syscall.pselect6, 72); (Syscall.ppoll, 73); (Syscall.sync, 81);
  (Syscall.fsync, 82); (Syscall.fdatasync, 83); (Syscall.readlinkat, 78); (Syscall.fstatat64, 79);
  (Syscall.fstat64, 80); (Syscall.exit, 93); (Syscall.exit_group, 94); (Syscall.waitid, 95);
  (Syscall.set_tid_address, 96); (Syscall.futex, 98); (Syscall.set_robust_list, 99);
  (Syscall.clock_gettime32, 113); (Syscall.sched_getaffinity, 123); (Syscall.kill, 129);
  (Syscall.tgkill, 131); (Syscall.sigaltstack, 132); (Syscall.rt_sigaction, 134);
  (Syscall.rt_sigprocmask, 135); (Syscall.rt_sigreturn, 139); (Syscall.setpgid, 154);
  (Syscall.getpgid, 155); (Syscall.getsid, 156); (Syscall.setsid, 157); (Syscall.uname, 160);
  (Syscall.getrusage, 165); (Syscall.umask, 166); (Syscall.prctl, 167); (Syscall.getcpu, 168);
  (Syscall.gettimeofday, 169); (Syscall.getpid, 172); (Syscall.getppid, 173); (Syscall.getuid, 174);
  (Syscall.geteuid, 175); (Syscall.getgid, 176); (Syscall.getegid, 177); (Syscall.gettid, 178);
  (Syscall.sysinfo, 179); (Syscall.socket, 198); (Syscall.bind, 200); (Syscall.listen, 201);
  (Syscall.accept, 202); (Syscall.getsockname, 204); (Syscall.getpeername, 205); (Syscall.setsockopt, 208);
  (Syscall.shutdown, 210); (Syscall.brk, 214); (Syscall.munmap, 215); (Syscall.clone, 220);
  (Syscall.execve, 221); (Syscall.mmap2, 222); (Syscall.mprotect, 226); (Syscall.accept4, 242);
  (Syscall.wait4, 260); (Syscall.riscv_hwprobe, 258); (Syscall.prlimit64, 261); (Syscall.getrandom, 278);
  (Syscall.statx, 291); (Syscall.renameat2, 276); (Syscall.rseq, 293); (Syscall.clock_gettime64, 403);
  (Syscall.clock_nanosleep64, 407); (Syscall.pselect6_time64, 413); (Syscall.ppoll64, 414);
  (Syscall.futex_time64, 422)].

(** [static_cast<Syscall>(number)], where it is an enumerator. *)
Definition syscall_of (number : Z) : option Syscall.syscall :=
  fst <$> find (fun p => snd p =? number) syscalls.

Definition syscall_number (s : Syscall.syscall) : Z :=
  match s with
  | Syscall.getcwd => 17
  | Syscall.dup3 => 24
  | Syscall.fcntl => 25
  | Syscall.mkdirat => 34
  | Syscall.unlinkat => 35
  | Syscall.renameat => 38
  | Syscall.truncate => 45
  | Syscall.ftruncate => 46
  | Syscall.ioctl => 29
  | Syscall.statfs64 => 43
  | Syscall.faccessat => 48
  | Syscall.chdir => 49
  | Syscall.fchmodat => 53
  | Syscall.openat => 56
  | Syscall.close => 57
  | Syscall.pipe2 => 59
  | Syscall.getdents64 => 61
  | Syscall.lseek => 62
  | Syscall.read => 63
  | Syscall.write => 64
  | Syscall.writev => 66
  | Syscall.pselect6 => 72
  | Syscall.ppoll => 73
  | Syscall.sync => 81
  | Syscall.fsync => 82
  | Syscall.fdatasync => 83
  | Syscall.readlinkat => 78
  | Syscall.fstatat64 => 79
  | Syscall.fstat64 => 80
  | Syscall.exit => 93
  | Syscall.exit_group => 94
  | Syscall.waitid => 95
  | Syscall.set_tid_address => 96
  | Syscall.futex => 98
  | Syscall.set_robust_list => 99
  | Syscall.clock_gettime32 => 113
  | Syscall.sched_getaffinity => 123
  | Syscall.kill => 129
  | Syscall.tgkill => 131
  | Syscall.sigaltstack => 132
  | Syscall.rt_sigaction => 134
  | Syscall.rt_sigprocmask => 135
  | Syscall.rt_sigreturn => 139
  | Syscall.setpgid => 154
  | Syscall.getpgid => 155
  | Syscall.getsid => 156
  | Syscall.setsid => 157
  | Syscall.uname => 160
  | Syscall.getrusage => 165
  | Syscall.umask => 166
  | Syscall.prctl => 167
  | Syscall.getcpu => 168
  | Syscall.gettimeofday => 169
  | Syscall.getpid => 172
  | Syscall.getppid => 173
  | Syscall.getuid => 174
  | Syscall.geteuid => 175
  | Syscall.getgid => 176
  | Syscall.getegid => 177
  | Syscall.gettid => 178
  | Syscall.sysinfo => 179
  | Syscall.socket => 198
  | Syscall.bind => 200
  | Syscall.listen => 201
  | Syscall.accept => 202
  | Syscall.getsockname => 204
  | Syscall.getpeername => 205
  | Syscall.setsockopt => 208
  | Syscall.shutdown => 210
  | Syscall.brk => 214
  | Syscall.munmap => 215
  | Syscall.clone => 220
  | Syscall.execve => 221
  | Syscall.mmap2 => 222
  | Syscall.mprotect => 226
  | Syscall.accept4 => 242
  | Syscall.wait4 => 260
  | Syscall.riscv_hwprobe => 258
  | Syscall.prlimit64 => 261
  | Syscall.getrandom => 278
  | Syscall.statx => 291
  | Syscall.renameat2 => 276
  | Syscall.rseq => 293
  | Syscall.clock_gettime64 => 403
  | Syscall.clock_nanosleep64 => 407
  | Syscall.pselect6_time64 => 413
  | Syscall.ppoll64 => 414
  | Syscall.futex_time64 => 422
  end.

Definition syscall_name (s : Syscall.syscall) : string :=
  match s with
  | Syscall.getcwd => "getcwd"
  | Syscall.dup3 => "dup3"
  | Syscall.fcntl => "fcntl"
  | Syscall.mkdirat => "mkdirat"
  | Syscall.unlinkat => "unlinkat"
  | Syscall.renameat => "renameat"
  | Syscall.truncate => "truncate"
  | Syscall.ftruncate => "ftruncate"
  | Syscall.ioctl => "ioctl"
  | Syscall.statfs64 => "statfs64"
  | Syscall.faccessat => "faccessat"
  | Syscall.chdir => "chdir"
  | Syscall.fchmodat => "fchmodat"
  | Syscall.openat => "openat"
  | Syscall.close => "close"
  | Syscall.pipe2 => "pipe2"
  | Syscall.getdents64 => "getdents64"
  | Syscall.lseek => "lseek"
  | Syscall.read => "read"
  | Syscall.write => "write"
  | Syscall.writev => "writev"
  | Syscall.pselect6 => "pselect6"
  | Syscall.ppoll => "ppoll"
  | Syscall.sync => "sync"
  | Syscall.fsync => "fsync"
  | Syscall.fdatasync => "fdatasync"
  | Syscall.readlinkat => "readlinkat"
  | Syscall.fstatat64 => "fstatat64"
  | Syscall.fstat64 => "fstat64"
  | Syscall.exit => "exit"
  | Syscall.exit_group => "exit_group"
  | Syscall.waitid => "waitid"
  | Syscall.set_tid_address => "set_tid_address"
  | Syscall.futex => "futex"
  | Syscall.set_robust_list => "set_robust_list"
  | Syscall.clock_gettime32 => "clock_gettime32"
  | Syscall.sched_getaffinity => "sched_getaffinity"
  | Syscall.kill => "kill"
  | Syscall.tgkill => "tgkill"
  | Syscall.sigaltstack => "sigaltstack"
  | Syscall.rt_sigaction => "rt_sigaction"
  | Syscall.rt_sigprocmask => "rt_sigprocmask"
  | Syscall.rt_sigreturn => "rt_sigreturn"
  | Syscall.setpgid => "setpgid"
  | Syscall.getpgid => "getpgid"
  | Syscall.getsid => "getsid"
  | Syscall.setsid => "setsid"
  | Syscall.uname => "uname"
  | Syscall.getrusage => "getrusage"
  | Syscall.umask => "umask"
  | Syscall.prctl => "prctl"
  | Syscall.getcpu => "getcpu"
  | Syscall.gettimeofday => "gettimeofday"
  | Syscall.getpid => "getpid"
  | Syscall.getppid => "getppid"
  | Syscall.getuid => "getuid"
  | Syscall.geteuid => "geteuid"
  | Syscall.getgid => "getgid"
  | Syscall.getegid => "getegid"
  | Syscall.gettid => "gettid"
  | Syscall.sysinfo => "sysinfo"
  | Syscall.socket => "socket"
  | Syscall.bind => "bind"
  | Syscall.listen => "listen"
  | Syscall.accept => "accept"
  | Syscall.getsockname => "getsockname"
  | Syscall.getpeername => "getpeername"
  | Syscall.setsockopt => "setsockopt"
  | Syscall.shutdown => "shutdown"
  | Syscall.brk => "brk"
  | Syscall.munmap => "munmap"
  | Syscall.clone => "clone"
  | Syscall.execve => "execve"
  | Syscall.mmap2 => "mmap2"
  | Syscall.mprotect => "mprotect"
  | Syscall.accept4 => "accept4"
  | Syscall.wait4 => "wait4"
  | Syscall.riscv_hwprobe => "riscv_hwprobe"
  | Syscall.prlimit64 => "prlimit64"
  | Syscall.getrandom => "getrandom"
  | Syscall.statx => "statx"
  | Syscall.renameat2 => "renameat2"
  | Syscall.rseq => "rseq"
  | Syscall.clock_gettime64 => "clock_gettime64"
  | Syscall.clock_nanosleep64 => "clock_nanosleep64"
  | Syscall.pselect6_time64 => "pselect6_time64"
  | Syscall.ppoll64 => "ppoll64"
  | Syscall.futex_time64 => "futex_time64"
  end.

Definition name (number : Z) : string :=
  match syscall_of number with Some s => syscall_name s | None => "unknown" end.

(** Two calls never share a number, and the number finds the call back. *)
Lemma syscall_of_number s : syscall_of (syscall_number s) = Some s.
Proof. by destruct s. Qed.

Lemma syscall_of_Some n s : syscall_of n = Some s -> n = syscall_number s.
Proof.
  unfold syscall_of. rw fmap_Some. intros ([s' m] & Hf & ->).
  destruct (find_some _ _ Hf) as [Hin He]. simpl in *.
  assert (Forall (fun p => snd p = syscall_number (fst p)) syscalls) as Hall by by repeat constructor.
  rewrite -> List.Forall_forall in Hall. specialize (Hall _ Hin). simpl in Hall. lia.
Qed.

(** ** The machine: [scheduler.hpp] and [kernel.hpp] *)

Record TrapFrame := mkFrame { x : list Z; mepc : Z; mstatus : Z; mcause : Z; mtval : Z }.
#[global] Instance frame_eta : Eta TrapFrame := fun f => mkFrame (x f) (mepc f) (mstatus f) (mcause f) (mtval f).
#[global] Instance frame_eq_dec : EqDecision TrapFrame.
Proof. solve_decision. Defined.

Definition frame_default : TrapFrame := mkFrame (replicate 32 0) 0 0 0 0.
(** [frame.x[i]] and the assignment to it. *)
Definition reg (f : TrapFrame) (i : nat) : Z := x f !!! i.
Definition set_reg (i : nat) (v : Z) (f : TrapFrame) : TrapFrame := f <| x ::= <[i := v]> |>.

Record frame_ok (f : TrapFrame) : Prop := {
  frame_length : length (x f) = 32%nat;
  frame_words : Forall (in_u 32) (x f);
  frame_mepc : in_u 32 (mepc f);
}.

Definition user_begin := 0x81000000.
Definition user_end := 0x82000000.
Definition user_stack_top := 0x81fff000.
Definition user_memory : Base.UserRange := Base.mkRange user_begin user_end.

Record Process := mkProcess {
  brk : Z; mmap_begin : Z; mmap_cursor : Z; mutable_begin : Z; exit_code : Z; image : Z;
  pid : Z; parent_pid : Z; process_group : Z; session : Z;
  current_directory : list Z; executable_path : list Z; image_replaced : bool;
}.
#[global] Instance process_eta : Eta Process := fun p =>
  mkProcess (brk p) (mmap_begin p) (mmap_cursor p) (mutable_begin p) (exit_code p) (image p)
    (pid p) (parent_pid p) (process_group p) (session p) (current_directory p) (executable_path p)
    (image_replaced p).
End Abi.
