(* ===== verification/PseudoFs.v ===== *)
(** * [kernel/pseudo_filesystem.cpp]: /proc and /sys

    A fixed tree of virtual files: [lookup] resolves a canonical path, [entry]
    lists a directory, [contents] is what a file holds.  A C string is the list
    of its characters, a null pointer is [None]. *)

From stdpp Require Import strings.
From S2P Require Import Prelude.
Local Open Scope Z_scope.

Module PseudoFs.

Module Node.
Inductive node :=
  | none | dev_null | proc | proc_pid1 | proc_pid2 | proc_net | proc_net_dev | proc_stat | proc_meminfo
  | proc_loadavg | proc_uptime | proc_version | proc_filesystems | proc_mounts | proc_pid1_stat
  | proc_pid2_stat | proc_pid1_cmdline | proc_pid2_cmdline | proc_net_tcp | proc_net_tcp6 | proc_net_udp
  | proc_net_udp6 | proc_net_raw | proc_net_raw6 | proc_net_unix | sys | sys_class | sys_devices
  | sys_devices_system | sys_devices_system_cpu | sys_kernel | sys_cpu_online | sys_cpu_present
  | sys_cpu_possible | sys_kernel_osrelease | sys_kernel_ostype | sys_kernel_hostname.
#[global] Instance eq_dec : EqDecision node.
Proof. solve_decision. Defined.
Definition all : list node := [
  none; dev_null; proc; proc_pid1; proc_pid2; proc_net; proc_net_dev; proc_stat; proc_meminfo;
  proc_loadavg; proc_uptime; proc_version; proc_filesystems; proc_mounts; proc_pid1_stat; proc_pid2_stat;
  proc_pid1_cmdline; proc_pid2_cmdline; proc_net_tcp; proc_net_tcp6; proc_net_udp; proc_net_udp6;
  proc_net_raw; proc_net_raw6; proc_net_unix; sys; sys_class; sys_devices; sys_devices_system;
  sys_devices_system_cpu; sys_kernel; sys_cpu_online; sys_cpu_present; sys_cpu_possible;
  sys_kernel_osrelease; sys_kernel_ostype; sys_kernel_hostname].
End Node.

Module Type_.
Inductive type := none | directory | regular.
#[global] Instance eq_dec : EqDecision type.
Proof. solve_decision. Defined.
End Type_.

Record Entry := mkEntry { entry_name : option (list Z); entry_node : Node.node; entry_type : Type_.type }.

(** The characters of a literal, and lines each ended by a newline. *)
Fixpoint text (s : string) : list Z :=
  match s with
  | EmptyString => []
  | String a s => Z.of_N (Ascii.N_of_ascii a) :: text s
  end.
Definition lines (l : list (list Z)) : list Z := l ≫= (fun s => s ++ [10]).

(** ** Strings *)

Definition text_is (actual expected : option (list Z)) : bool :=
  match actual, expected with
  | Some a, Some b => bool_decide (a = b)
  | _, _ => false
  end.

(** The loop stops where the path leaves the mount point; the mount point must
    be used up and the path end there or go on with a slash. *)
Fixpoint path_below_loop (path mount : list Z) : bool :=
  match mount with
  | [] => match path with [] => true | c :: _ => c =? 47 end
  | m :: mount' =>
      match path with
      | c :: path' => if c =? m then path_below_loop path' mount' else false
      | [] => false
      end
  end.
Definition path_below (path : option (list Z)) (mount : list Z) : bool :=
  match path with None => false | Some path => path_below_loop path mount end.

(** The characters before the first NUL. *)
Fixpoint text_size_loop (s : list Z) (result : Z) : Z :=
  match s with
  | [] => result
  | c :: s => if c =? 0 then result else text_size_loop s (u32 (result + 1))
  end.
Definition text_size (s : option (list Z)) : Z :=
  match s with None => 0 | Some s => text_size_loop s 0 end.

(** ** The tree *)

Definition nodes : list (list Z * Node.node) := [
  (text "/dev/null", Node.dev_null);
  (text "/proc", Node.proc);
  (text "/proc/1", Node.proc_pid1);
  (text "/proc/2", Node.proc_pid2);
  (text "/proc/net", Node.proc_net);
  (text "/proc/net/dev", Node.proc_net_dev);
  (text "/proc/stat", Node.proc_stat);
  (text "/proc/meminfo", Node.proc_meminfo);
  (text "/proc/loadavg", Node.proc_loadavg);
  (text "/proc/uptime", Node.proc_uptime);
  (text "/proc/version", Node.proc_version);
  (text "/proc/filesystems", Node.proc_filesystems);
  (text "/proc/mounts", Node.proc_mounts);
  (text "/proc/1/stat", Node.proc_pid1_stat);
  (text "/proc/2/stat", Node.proc_pid2_stat);
  (text "/proc/1/cmdline", Node.proc_pid1_cmdline);
  (text "/proc/2/cmdline", Node.proc_pid2_cmdline);
  (text "/proc/net/tcp", Node.proc_net_tcp);
  (text "/proc/net/tcp6", Node.proc_net_tcp6);
  (text "/proc/net/udp", Node.proc_net_udp);
  (text "/proc/net/udp6", Node.proc_net_udp6);
  (text "/proc/net/raw", Node.proc_net_raw);
  (text "/proc/net/raw6", Node.proc_net_raw6);
  (text "/proc/net/unix", Node.proc_net_unix);
  (text "/sys", Node.sys);
  (text "/sys/class", Node.sys_class);
  (text "/sys/devices", Node.sys_devices);
  (text "/sys/devices/system", Node.sys_devices_system);
  (text "/sys/devices/system/cpu", Node.sys_devices_system_cpu);
  (text "/sys/kernel", Node.sys_kernel);
  (text "/sys/devices/system/cpu/online", Node.sys_cpu_online);
  (text "/sys/devices/system/cpu/present", Node.sys_cpu_present);
  (text "/sys/devices/system/cpu/possible", Node.sys_cpu_possible);
  (text "/sys/kernel/osrelease", Node.sys_kernel_osrelease);
  (text "/sys/kernel/ostype", Node.sys_kernel_ostype);
  (text "/sys/kernel/hostname", Node.sys_kernel_hostname)].

Definition proc_entries : list Entry := [
  mkEntry (Some (text ".")) Node.proc Type_.directory;
  mkEntry (Some (text "..")) Node.proc Type_.directory;
  mkEntry (Some (text "1")) Node.proc_pid1 Type_.directory;
  mkEntry (Some (text "2")) Node.proc_pid2 Type_.directory;
  mkEntry (Some (text "net")) Node.proc_net Type_.directory;
  mkEntry (Some (text "stat")) Node.proc_stat Type_.regular;
  mkEntry (Some (text "meminfo")) Node.proc_meminfo Type_.regular;
  mkEntry (Some (text "loadavg")) Node.proc_loadavg Type_.regular;
  mkEntry (Some (text "uptime")) Node.proc_uptime Type_.regular;
  mkEntry (Some (text "version")) Node.proc_version Type_.regular;
  mkEntry (Some (text "filesystems")) Node.proc_filesystems Type_.regular;
  mkEntry (Some (text "mounts")) Node.proc_mounts Type_.regular].

Definition pid1_entries : list Entry := [
  mkEntry (Some (text ".")) Node.proc_pid1 Type_.directory;
  mkEntry (Some (text "..")) Node.proc Type_.directory;
  mkEntry (Some (text "stat")) Node.proc_pid1_stat Type_.regular;
  mkEntry (Some (text "cmdline")) Node.proc_pid1_cmdline Type_.regular].

Definition pid2_entries : list Entry := [
  mkEntry (Some (text ".")) Node.proc_pid2 Type_.directory;
  mkEntry (Some (text "..")) Node.proc Type_.directory;
  mkEntry (Some (text "stat")) Node.proc_pid2_stat Type_.regular;
  mkEntry (Some (text "cmdline")) Node.proc_pid2_cmdline Type_.regular].

Definition net_entries : list Entry := [
  mkEntry (Some (text ".")) Node.proc_net Type_.directory;
  mkEntry (Some (text "..")) Node.proc Type_.directory;
  mkEntry (Some (text "dev")) Node.proc_net_dev Type_.regular;
  mkEntry (Some (text "tcp")) Node.proc_net_tcp Type_.regular;
  mkEntry (Some (text "tcp6")) Node.proc_net_tcp6 Type_.regular;
  mkEntry (Some (text "udp")) Node.proc_net_udp Type_.regular;
  mkEntry (Some (text "udp6")) Node.proc_net_udp6 Type_.regular;
  mkEntry (Some (text "raw")) Node.proc_net_raw Type_.regular;
  mkEntry (Some (text "raw6")) Node.proc_net_raw6 Type_.regular;
  mkEntry (Some (text "unix")) Node.proc_net_unix Type_.regular].

Definition sys_entries : list Entry := [
  mkEntry (Some (text ".")) Node.sys Type_.directory;
  mkEntry (Some (text "..")) Node.sys Type_.directory;
  mkEntry (Some (text "class")) Node.sys_class Type_.directory;
  mkEntry (Some (text "devices")) Node.sys_devices Type_.directory;
  mkEntry (Some (text "kernel")) Node.sys_kernel Type_.directory].

Definition empty_directory_entries : list Entry := [
  mkEntry (Some (text ".")) Node.sys_class Type_.directory;
  mkEntry (Some (text "..")) Node.sys Type_.directory].

Definition devices_entries : list Entry := [
  mkEntry (Some (text ".")) Node.sys_devices Type_.directory;
  mkEntry (Some (text "..")) Node.sys Type_.directory;
  mkEntry (Some (text "system")) Node.sys_devices_system Type_.directory].

Definition system_entries : list Entry := [
  mkEntry (Some (text ".")) Node.sys_devices_system Type_.directory;
  mkEntry (Some (text "..")) Node.sys_devices Type_.directory;
  mkEntry (Some (text "cpu")) Node.sys_devices_system_cpu Type_.directory].

Definition cpu_entries : list Entry := [
  mkEntry (Some (text ".")) Node.sys_devices_system_cpu Type_.directory;
  mkEntry (Some (text "..")) Node.sys_devices_system Type_.directory;
  mkEntry (Some (text "online")) Node.sys_cpu_online Type_.regular;
  mkEntry (Some (text "present")) Node.sys_cpu_present Type_.regular;
  mkEntry (Some (text "possible")) Node.sys_cpu_possible Type_.regular].

Definition kernel_entries : list Entry := [
  mkEntry (Some (text ".")) Node.sys_kernel Type_.directory;
  mkEntry (Some (text "..")) Node.sys Type_.directory;
  mkEntry (Some (text "osrelease")) Node.sys_kernel_osrelease Type_.regular;
  mkEntry (Some (text "ostype")) Node.sys_kernel_ostype Type_.regular;
  mkEntry (Some (text "hostname")) Node.sys_kernel_hostname Type_.regular].

(** The entries of a directory; [None] is the null view of a node that is
    none. *)
Definition directory_view (node : Node.node) : option (list Entry) :=
  match node with
  | Node.proc => Some proc_entries
  | Node.proc_pid1 => Some pid1_entries
  | Node.proc_pid2 => Some pid2_entries
  | Node.proc_net => Some net_entries
  | Node.sys => Some sys_entries
  | Node.sys_class => Some empty_directory_entries
  | Node.sys_devices => Some devices_entries
  | Node.sys_devices_system => Some system_entries
  | Node.sys_devices_system_cpu => Some cpu_entries
  | Node.sys_kernel => Some kernel_entries
  | _ => None
  end.

Definition lookup (path : option (list Z)) : Node.node :=
  default Node.none (snd <$> find (fun candidate => text_is path (Some (fst candidate))) nodes).

Definition mounted (path : option (list Z)) : bool :=
  path_below path (text "/proc") || path_below path (text "/sys").

Definition directory (node : Node.node) : bool :=
  match directory_view node with Some _ => true | None => false end.

(** [static_cast<u32>(node)]: the position of the enumerator. *)
Definition node_number (node : Node.node) : Z :=
  match node with
  | Node.none => 0
  | Node.dev_null => 1
  | Node.proc => 2
  | Node.proc_pid1 => 3
  | Node.proc_pid2 => 4
  | Node.proc_net => 5
  | Node.proc_net_dev => 6
  | Node.proc_stat => 7
  | Node.proc_meminfo => 8
  | Node.proc_loadavg => 9
  | Node.proc_uptime => 10
  | Node.proc_version => 11
  | Node.proc_filesystems => 12
  | Node.proc_mounts => 13
  | Node.proc_pid1_stat => 14
  | Node.proc_pid2_stat => 15
  | Node.proc_pid1_cmdline => 16
  | Node.proc_pid2_cmdline => 17
  | Node.proc_net_tcp => 18
  | Node.proc_net_tcp6 => 19
  | Node.proc_net_udp => 20
  | Node.proc_net_udp6 => 21
  | Node.proc_net_raw => 22
  | Node.proc_net_raw6 => 23
  | Node.proc_net_unix => 24
  | Node.sys => 25
  | Node.sys_class => 26
  | Node.sys_devices => 27
  | Node.sys_devices_system => 28
  | Node.sys_devices_system_cpu => 29
  | Node.sys_kernel => 30
  | Node.sys_cpu_online => 31
  | Node.sys_cpu_present => 32
  | Node.sys_cpu_possible => 33
  | Node.sys_kernel_osrelease => 34
  | Node.sys_kernel_ostype => 35
  | Node.sys_kernel_hostname => 36
  end.

Definition inode (node : Node.node) : Z :=
  if bool_decide (node = Node.none) then 0 else u32 (0x70000000 + node_number node).

Definition entry_count (directory : Node.node) : Z :=
  match directory_view directory with Some l => Z.of_nat (length l) | None => 0 end.

Definition entry_none : Entry := mkEntry None Node.none Type_.none.
Definition entry (directory : Node.node) (index : Z) : Entry :=
  if index <? entry_count directory
  then default entry_none (default [] (directory_view directory) !! Z.to_nat index)
  else entry_none.

(** ** What the files hold *)

Definition cpu (multicore : bool) : list Z :=
  if multicore then
    lines [text "cpu  400 0 400 40000 0 0 0 0";
    text "cpu0 100 0 100 10000 0 0 0 0";
    text "cpu1 100 0 100 10000 0 0 0 0";
    text "cpu2 100 0 100 10000 0 0 0 0";
    text "cpu3 100 0 100 10000 0 0 0 0"]
  else
    lines [text "cpu  100 0 100 10000 0 0 0 0";
    text "cpu0 100 0 100 10000 0 0 0 0"].

Definition cpu_set (multicore : bool) : list Z :=
  if multicore then
    lines [text "0-3"]
  else
    lines [text "0"].

Definition memory : list Z :=
  lines [text "MemTotal:       16384 kB";
    text "MemFree:         4096 kB";
    text "MemShared:          0 kB";
    text "Buffers:          128 kB";
    text "Cached:          2048 kB";
    text "SReclaimable:       0 kB";
    text "Shmem:              0 kB";
    text "SwapTotal:          0 kB";
    text "SwapFree:           0 kB"].

Definition load : list Z :=
  lines [text "0.00 0.00 0.00 1/2 2"].

Definition uptime : list Z :=
  lines [text "0.00 0.00"].

Definition version : list Z :=
  lines [text "Linux version 0.1 (MikOS) #1 riscv32"].

Definition filesystems : list Z :=
  lines [text "nodev" ++ [9] ++ text "proc";
    text "nodev" ++ [9] ++ text "sysfs";
    text "" ++ [9] ++ text "ext4";
    text "" ++ [9] ++ text "vfat"].

Definition mounts : list Z :=
  lines [text "/dev/root / ext4 rw 0 0";
    text "proc /proc proc ro 0 0";
    text "sysfs /sys sysfs ro 0 0"].

Definition shell_stat : list Z :=
  lines [text "1 (sh) S 0 1 1 0 0 0 0 0 0 0 1 1 0 0 20 0 1 0 1 2500000 128 0 0 0 0 0 0 0 0 0 0 0 0 0 0 0 0"].

Definition top_stat : list Z :=
  lines [text "2 (top) R 1 2 2 0 0 0 0 0 0 0 2 1 0 0 20 0 1 0 1 2600000 144 0 0 0 0 0 0 0 0 0 0 0 0 0 0 0 0"].

Definition shell_command : list Z :=
  text "sh" ++ [0].

Definition top_command : list Z :=
  text "top" ++ [0].

Definition inet_sockets : list Z :=
  lines [text "  sl  local_address rem_address   st tx_queue rx_queue tr tm->when retrnsmt   uid  timeout inode"].

Definition unix_sockets : list Z :=
  lines [text "Num       RefCount Protocol Flags    Type St Inode Path"].

Definition network_devices : list Z :=
  lines [text "Inter-|   Receive                                                |  Transmit";
    text " face |bytes    packets errs drop fifo frame compressed multicast|bytes    packets errs drop fifo colls carrier compressed";
    text "  eth0:       0       0    0    0    0     0          0         0        0       0    0    0    0     0       0          0"].

Definition osrelease : list Z :=
  lines [text "0.1"].

Definition ostype : list Z :=
  lines [text "Linux"].

Definition hostname : list Z :=
  lines [text "mikos"].

(** [MIKOS_TRIBE_MULTICORE] is the build option of the four-core target. *)
Definition contents (multicore : bool) (node : Node.node) : option (list Z) :=
  match node with
  | Node.proc_stat => Some (cpu multicore)
  | Node.proc_meminfo => Some memory
  | Node.proc_loadavg => Some load
  | Node.proc_uptime => Some uptime
  | Node.proc_version => Some version
  | Node.proc_filesystems => Some filesystems
  | Node.proc_mounts => Some mounts
  | Node.proc_pid1_stat => Some shell_stat
  | Node.proc_pid2_stat => Some top_stat
  | Node.proc_pid1_cmdline => Some shell_command
  | Node.proc_pid2_cmdline => Some top_command
  | Node.proc_net_tcp | Node.proc_net_tcp6 | Node.proc_net_udp | Node.proc_net_udp6 | Node.proc_net_raw | Node.proc_net_raw6 => Some inet_sockets
  | Node.proc_net_unix => Some unix_sockets
  | Node.proc_net_dev => Some network_devices
  | Node.sys_cpu_online | Node.sys_cpu_present | Node.sys_cpu_possible => Some (cpu_set multicore)
  | Node.sys_kernel_osrelease => Some osrelease
  | Node.sys_kernel_ostype => Some ostype
  | Node.sys_kernel_hostname => Some hostname
  | _ => None
  end.

Definition size (multicore : bool) (node : Node.node) : Z :=
  match node with
  | Node.proc_pid1_cmdline => 3
  | Node.proc_pid2_cmdline => 4
  | _ => text_size (contents multicore node)
  end.

(** ** Listing and lookup agree *)

#[global] Instance entry_eq_dec : EqDecision Entry.
Proof. solve_decision. Defined.

(** The path of the entry [name] of the directory at [path]. *)
Definition below (path name : list Z) : list Z := path ++ 47 :: name.

Definition is_entry (l : list Entry) (name : list Z) : bool :=
  existsb (fun e => bool_decide (entry_name e = Some name)) l.

(** One entry other than "." and "..": its path resolves to its node, and it is
    typed a directory when the node is one. *)
Definition resolves (path : list Z) (e : Entry) : bool :=
  match entry_name e with
  | None => false
  | Some name => bool_decide (lookup (Some (below path name)) = entry_node e /\
      entry_type e = if directory (entry_node e) then Type_.directory else Type_.regular)
  end.

(** One known path: if it names something directly below [path], it is listed. *)
Definition listed (path : list Z) (l : list Entry) (candidate : list Z * Node.node) : bool :=
  let n := S (length path) in
  let name := drop n (fst candidate) in
  negb (bool_decide (take n (fst candidate) = path ++ [47])) || bool_decide (47 ∈ name) || is_entry l name.

Definition parent_node (path : list Z) (d : Node.node) (candidate : list Z * Node.node) : bool :=
  let n := length (fst candidate) in
  negb (bool_decide (take (S n) path = fst candidate ++ [47])) || bool_decide (47 ∈ drop (S n) path) ||
  bool_decide (d = snd candidate).

Definition tree_check (candidate : list Z * Node.node) : bool :=
  let '(path, d) := candidate in
  match directory_view d with
  | None => true
  | Some l =>
      mounted (Some path) && bool_decide (l !! 0%nat = Some (mkEntry (Some (text ".")) d Type_.directory)) &&
      bool_decide (entry_name <$> l !! 1%nat = Some (Some (text ".."))) &&
      forallb (resolves path) (drop 2 l) && forallb (listed path (drop 2 l)) nodes &&
      forallb (parent_node path (entry_node (entry d 1))) nodes
  end.

Lemma tree_checked : forallb tree_check nodes = true.
Proof. vm_compute. reflexivity. Qed.

Lemma nodes_distinct : NoDup (fst <$> nodes).
Proof. apply: bool_decide_unpack. vm_compute. done. Qed.

Lemma lookup_In path node :
  lookup (Some path) = node -> node <> Node.none -> In (path, node) nodes.
Proof.
  unfold lookup. destruct (find _ nodes) as [[q m]|] eqn:Hf; [|by intros <-].
  intros <- _. apply find_some in Hf as [Hin Ht]. simpl in *. apply bool_decide_eq_true in Ht. by subst.
Qed.

Lemma directory_not_none d : directory d = true -> d <> Node.none.
Proof. by intros H ->. Qed.

Lemma entry_lookup d l i :
  directory_view d = Some l -> 0 <= i < entry_count d -> l !! Z.to_nat i = Some (entry d i).
Proof.
  intros Hl Hi. unfold entry. rewrite -> (proj2 (Z.ltb_lt i (entry_count d))) by lia.
  unfold entry_count in Hi. rw Hl in Hi |- *. simpl.
  destruct (lookup_lt_is_Some_2 l (Z.to_nat i)) as [e He]; [lia|]. by rw He.
Qed.

Lemma In_lookup_drop {A} (l : list A) e k : In e (drop k l) -> exists i, (k <= i)%nat /\ l !! i = Some e.
Proof.
  intros Hin%list_elem_of_In. apply list_elem_of_lookup in Hin as [i Hi]. rewrite -> lookup_drop in Hi.
  exists (k + i)%nat. split; [lia|done].
Qed.

(** The checks of one directory, by its path. *)
Lemma tree_directory path d l :
  lookup (Some path) = d -> directory_view d = Some l ->
  mounted (Some path) = true /\ l !! 0%nat = Some (mkEntry (Some (text ".")) d Type_.directory) /\
  entry_name <$> l !! 1%nat = Some (Some (text "..")) /\
  (forall e, In e (drop 2 l) -> resolves path e = true) /\
  (forall c, In c nodes -> listed path (drop 2 l) c = true) /\
  (forall c, In c nodes -> parent_node path (entry_node (entry d 1)) c = true).
Proof.
  intros Hp Hl. assert (directory d = true) as Hd by (unfold directory; by rw Hl).
  pose proof tree_checked as Hc. rewrite -> forallb_forall in Hc.
  specialize (Hc (path, d) (lookup_In _ _ Hp (directory_not_none d Hd))). unfold tree_check in Hc. rw Hl in Hc.
  rewrite -> !andb_true_iff, !forallb_forall, !bool_decide_eq_true in Hc. tauto.
Qed.

Lemma below_take path name : take (S (length path)) (below path name) = path ++ [47].
Proof.
  unfold below. rewrite -> cons_middle, app_assoc.
  replace (S (length path)) with (length (path ++ [47])) by (rw length_app; simpl; lia). apply take_app_length.
Qed.

Lemma below_drop path name : drop (S (length path)) (below path name) = name.
Proof.
  unfold below. rewrite -> cons_middle, app_assoc.
  replace (S (length path)) with (length (path ++ [47])) by (rw length_app; simpl; lia). apply drop_app_length.
Qed.

Lemma listed_spec path l name n :
  listed path l (below path name, n) = true -> 47 ∉ name -> exists e, In e l /\ entry_name e = Some name.
Proof.
  unfold listed, is_entry. cbn [fst]. rewrite -> below_take, below_drop, bool_decide_true by done.
  intros H Hname. rewrite -> bool_decide_false in H by done. apply existsb_exists in H as (e & Hin & He).
  apply bool_decide_eq_true in He. eauto.
Qed.

Lemma parent_node_spec above name d n :
  parent_node (below above name) d (above, n) = true -> 47 ∉ name -> d = n.
Proof.
  unfold parent_node. cbn [fst snd]. rewrite -> below_take, below_drop, bool_decide_true by done.
  intros H Hname. rewrite -> bool_decide_false in H by done. by apply bool_decide_eq_true in H.
Qed.

(** Listing and lookup describe the same tree.  The directory at [path]
    starts with "." and "..", which are itself and the directory above it; every
    later entry is typed by what it is and its path resolves to it; and a name
    whose path resolves to anything is listed. *)
Theorem pseudo_tree path d :
  lookup (Some path) = d -> directory d = true ->
  mounted (Some path) = true /\
  entry d 0 = mkEntry (Some (text ".")) d Type_.directory /\
  entry_name (entry d 1) = Some (text "..") /\
  (forall above name, 47 ∉ name -> path = below above name -> lookup (Some above) <> Node.none ->
     entry_node (entry d 1) = lookup (Some above)) /\
  (forall i, 2 <= i < entry_count d -> exists name,
     entry_name (entry d i) = Some name /\ lookup (Some (below path name)) = entry_node (entry d i) /\
     (entry_type (entry d i) = if directory (entry_node (entry d i)) then Type_.directory else Type_.regular)) /\
  (forall name, 47 ∉ name -> lookup (Some (below path name)) <> Node.none ->
     exists i, 2 <= i < entry_count d /\ entry_name (entry d i) = Some name).
Proof.
  intros Hp Hd. unfold directory in Hd. destruct (directory_view d) as [l|] eqn:Hl; [clear Hd|done].
  destruct (tree_directory path d l Hp Hl) as (Hm & Hdot & Hdots & Hres & Hlisted & Hparent).
  assert (entry_count d = Z.of_nat (length l)) as Hn by (unfold entry_count; by rw Hl).
  apply fmap_Some in Hdots as (e1 & He1 & Hdots). pose proof (lookup_lt_Some _ _ _ He1) as Hlen.
  pose proof (entry_lookup d l 0 Hl ltac:(lia)) as E0. pose proof (entry_lookup d l 1 Hl ltac:(lia)) as E1.
  change (Z.to_nat 0) with 0%nat in E0. change (Z.to_nat 1) with 1%nat in E1. split_and!.
  - done.
  - congruence.
  - rw E1 in He1. by injection He1 as ->.
  - intros above name Hname -> Hup. eapply parent_node_spec; [|done]. by apply Hparent, lookup_In.
  - intros i Hi. pose proof (entry_lookup d l i Hl ltac:(lia)) as Ei.
    assert (In (entry d i) (drop 2 l)) as Hin.
    { apply list_elem_of_In, list_elem_of_lookup. exists (Z.to_nat i - 2)%nat. rw lookup_drop -Ei. f_equal. lia. }
    specialize (Hres _ Hin). unfold resolves in Hres. destruct (entry_name (entry d i)) as [name|]; [|done].
    apply bool_decide_eq_true in Hres. eauto.
  - intros name Hname Hup.
    destruct (listed_spec path (drop 2 l) name _ (Hlisted _ (lookup_In _ _ eq_refl Hup)) Hname) as (e & Hin & He).
    apply In_lookup_drop in Hin as (k & Hk & Hke). exists (Z.of_nat k). pose proof (lookup_lt_Some _ _ _ Hke).
    split; [lia|]. pose proof (entry_lookup d l (Z.of_nat k) Hl ltac:(lia)) as Ek. rw Nat2Z.id Hke in Ek.
    injection Ek as <-. done.
Qed.

Lemma pseudo_tree_witness :
  mounted (Some (text "/proc/net")) = true /\
  exists i, 2 <= i < entry_count Node.proc_net /\ entry_name (entry Node.proc_net i) = Some (text "tcp").
Proof.
  destruct (pseudo_tree (text "/proc/net") Node.proc_net eq_refl eq_refl) as (Hm & _ & _ & _ & _ & Hl).
  split; [exact Hm|]. apply Hl; [apply: bool_decide_unpack; vm_compute; done|vm_compute; discriminate].
Defined.

(** Inode numbers are unique. *)
Lemma inode_inj a b : inode a = inode b -> a = b.
Proof. by destruct a, b. Qed.

(** A file below a mount point is read in full: [size] is the number of bytes
    of its contents, those of a command line with its terminator. *)
Lemma pseudo_size m node s : contents m node = Some s -> size m node = Z.of_nat (length s).
Proof. destruct node; try done; destruct m; intros [= <-]; reflexivity. Qed.
End PseudoFs.
