(* ===== verification/Root.v ===== *)
(** * [drivers/fs/root.cpp]: the root file system

    One owner of the block device, its sector reader, the ext4 volume and
    whether it is ready.  The reader over the device is any byte device
    ([SectorReader] is one); [block_initialize] is what the platform's device
    does to come up. *)

From S2P Require Import Prelude Filesystem Ext4 Ext4Image Ext4Laws Ext4Mount.
Import Fs Ext4.
Local Open Scope Z_scope.

Class RootDevice (D : Type) := block_initialize : D -> D * bool.

Module Root.
Section root.
Context {D : Type} {device : Device D} {start : RootDevice D}.

(** The reader is the device of the volume. *)
Record RootFilesystem := mkRoot { volume : Volume D; ready : bool }.
#[global] Instance root_eta : Eta RootFilesystem := fun r => mkRoot (volume r) (ready r).

Definition initialize (fs : RootFilesystem) : RootFilesystem * bool :=
  let fs := fs <| ready := false |> in
  let '(d, started) := block_initialize (device_ (volume fs)) in
  let fs := fs <| volume ::= fun v => v <| device_ := d |> |> in
  if negb started then (fs, false) else
  let '(v, result) := Ext4.initialize (volume fs) in
  let fs := fs <| volume := v |> in
  if negb (bool_decide (error_of result = Error.none)) then (fs, false) else
  let '(v, root_node) := Ext4.root (volume fs) in
  let fs := fs <| volume := v |> in
  match root_node with
  | unexpected _ => (fs, false)
  | expected node =>
      if negb (bool_decide (type node = Type_.directory)) then (fs, false)
      else (fs <| ready := true |>, true)
  end.

(** [ready ? volume.operation(...) : Error::invalid_argument]. *)
Definition guarded {A} (m : io (Volume D) A) : io RootFilesystem A := fun fs =>
  if negb (ready fs) then (fs, unexpected Error.invalid_argument) else
  let '(v, r) := m (volume fs) in (fs <| volume := v |>, r).

Definition lookup (path : list Z) : io RootFilesystem Node := guarded (lookup_path (Some path)).
(** The visitor and its context are a function and its state; a null visitor is
    [None]. *)
Definition for_each {A} (directory_node : Node) (visitor : option (A -> Entry -> A * bool)) (a : A)
    : io RootFilesystem A := fun fs =>
  match visitor with
  | None => (fs, unexpected Error.invalid_argument)
  | Some visitor => guarded (visiting directory_node visitor a) fs
  end.
Definition read (file : Node) (offset : Z) (null : bool) (count : Z) : io RootFilesystem (list Z) :=
  guarded (Ext4.read file offset null count).
Definition write (file : Node) (offset : Z) (input : option (list Z)) (count : Z) (fs : RootFilesystem)
    : RootFilesystem * Node * Result Z :=
  if negb (ready fs) then (fs, file, unexpected Error.invalid_argument) else
  let '(v, file, r) := Ext4.write file offset input count (volume fs) in (fs <| volume := v |>, file, r).
Definition truncate (file : Node) (new_size : Z) (fs : RootFilesystem) : RootFilesystem * Node * Error :=
  if negb (ready fs) then (fs, file, Error.invalid_argument) else
  let '(v, file, e) := Ext4.truncate file new_size (volume fs) in (fs <| volume := v |>, file, e).
Definition create (path : list Z) (input : option (list Z)) (count : Z) : io RootFilesystem unit :=
  guarded (Ext4.create (Some path) input count).
Definition mkdir (path : list Z) (m : Z) : io RootFilesystem unit := guarded (Ext4.mkdir (Some path) m).
Definition remove (path : list Z) : io RootFilesystem unit := guarded (Ext4.remove (Some path)).
Definition move (from to : list Z) : io RootFilesystem unit := guarded (Ext4.move (Some from) (Some to)).
Definition sync : io RootFilesystem unit := guarded Ext4.sync.

(** Before [initialize] has succeeded every operation is refused and nothing
    is done. *)
Lemma guarded_not_ready {A} (m : io (Volume D) A) fs :
  ready fs = false -> guarded m fs = (fs, unexpected Error.invalid_argument).
Proof. intros H. unfold guarded. by rw H. Qed.

Lemma guarded_ready {A} (m : io (Volume D) A) fs :
  ready fs = true -> guarded m fs = (fs <| volume := (m (volume fs)).1 |>, (m (volume fs)).2).
Proof. intros H. unfold guarded. rw H. by destruct (m (volume fs)). Qed.
End root.
#[global] Arguments RootFilesystem D : clear implicits.
End Root.
