(* ===== verification/Memory.v ===== *)
(** * User memory

    The kernel and the program that runs share one flat address space; the
    code reaches it through pointers made of checked 32-bit addresses.  Here it
    is the function from an address to its byte; [memcpy] out of it is [load],
    [memcpy] and [memset] into it are [store]. *)

From S2P Require Import Prelude Base Filesystem Abi.
Import Fs.
Local Open Scope Z_scope.

Module Memory.

Abbreviation Memory := (Z -> Z).

Definition load (m : Memory) (address : Z) (n : nat) : list Z := bytes_at m address n.
Definition store (address : Z) (data : list Z) (m : Memory) : Memory := fun a =>
  if decide (address <= a < address + Z.of_nat (length data)) then data !!! Z.to_nat (a - address) else m a.

(** [*reinterpret_cast<const u32*>(address)] and the like. *)
Definition load_u16 (m : Memory) (address : Z) : Z := little_u16 (load m address 2) 0.
Definition load_u32 (m : Memory) (address : Z) : Z := little_u32 (load m address 4) 0.
Definition load_u64 (m : Memory) (address : Z) : Z := little_u64 (load m address 8) 0.
Definition bytes64 (value : Z) : list Z := bytes32 value ++ bytes32 (Z.shiftr value 32).
Definition store_u32 (address value : Z) (m : Memory) : Memory := store address (bytes32 value) m.
Definition store_u64 (address value : Z) (m : Memory) : Memory := store address (bytes64 value) m.

(** [user_memory.contains] and [user_memory.aligned]. *)
Definition contains (address size : Z) : bool := Base.contains Abi.user_memory address size.
Definition aligned (address alignment : Z) : bool := Base.aligned Abi.user_memory address alignment.

(** ** [copy_user_string]

    The characters up to the NUL, when all of them and the NUL are in user
    memory and fit the capacity.  What a failed copy leaves in the output is
    not used by any caller. *)
Fixpoint copy_string_loop (m : Memory) (address i : Z) (n : nat) : option (list Z) :=
  match n with
  | O => None
  | S n =>
      if negb (contains (u32 (address + i)) 1) then None else
      let c := m (u32 (address + i)) in
      if c =? 0 then Some [] else (fun rest => c :: rest) <$> copy_string_loop m address (i + 1) n
  end.
Definition copy_user_string (m : Memory) (address : Z) (capacity : nat) : option (list Z) :=
  if (address =? 0) || (Z.of_nat capacity =? 0) then None else copy_string_loop m address 0 capacity.

(** ** Lemmas *)

Lemma length_load m a n : length (load m a n) = n.
Proof. apply length_bytes_at. Qed.

Lemma user_contains_spec a n : in_u 32 a -> 0 <= n ->
  contains a n = true <-> Abi.user_begin <= a /\ a + n <= Abi.user_end.
Proof.
  intros Ha Hn. unfold contains, Base.contains, Abi.user_memory, Abi.user_begin, Abi.user_end. cbn [Base.begin Base.end_].
  rewrite -> !andb_true_iff, !Z.leb_le. unfold wrap, in_u in *. split.
  - intros [[H1 H2] H3]. rewrite -> Z.mod_small in H3 by lia. lia.
  - intros [H1 H2]. rewrite -> Z.mod_small by lia. lia.
Qed.

Lemma store_stored a l m : stored m (store a l m) a l.
Proof.
  split.
  - apply list_eq_same_length with (length l); [done|apply length_bytes_at|].
    intros i x y Hi Hx Hy. rewrite -> lookup_bytes_at in Hx by done. injection Hx as <-.
    unfold store. rewrite -> decide_True by lia. replace (Z.to_nat _) with i by lia.
    by apply list_lookup_total_correct.
  - intros o Ho. unfold store. by rewrite -> decide_False by done.
Qed.

Lemma memory_load_store a l m n : n = length l -> load (store a l m) a n = l.
Proof. intros ->. apply store_stored. Qed.

Lemma load_store_within a l m b n :
  a <= b -> b + Z.of_nat n <= a + Z.of_nat (length l) ->
  load (store a l m) b n = slice l (Z.to_nat (b - a)) n.
Proof.
  intros Hb Hn. rewrite <- (memory_load_store a l m (length l)) at 2 by done. unfold load.
  rewrite -> bytes_at_slice by lia. f_equal. lia.
Qed.

Lemma load_store_apart a l m b n :
  b + Z.of_nat n <= a \/ a + Z.of_nat (length l) <= b -> load (store a l m) b n = load m b n.
Proof. intros H. unfold load. eapply stored_frame; [apply store_stored|done]. Qed.

(** Storing what is loaded there changes nothing. *)
Lemma store_load a n m b : store a (load m a n) m b = m b.
Proof.
  unfold store. rewrite -> length_load. case_decide as H; [|done].
  apply list_lookup_total_correct. unfold load. rewrite -> lookup_bytes_at by lia. f_equal. f_equal. lia.
Qed.

Lemma load_app m a n k : load m a (n + k) = load m a n ++ load m (a + Z.of_nat n) k.
Proof. apply bytes_at_app. Qed.

Lemma load_ext m m' a n : (forall b, a <= b < a + Z.of_nat n -> m b = m' b) -> load m a n = load m' a n.
Proof. apply bytes_at_ext. Qed.

Lemma load_u32_store a v m : load_u32 (store_u32 a v m) a = u32 v.
Proof.
  unfold load_u32, store_u32. rewrite -> memory_load_store by done. apply little_u32_bytes; [apply bytes32_ok|done].
Qed.

Lemma little_u64_bytes v : in_u 64 v -> little_u64 (bytes64 v) 0 = v.
Proof.
  intros Hv. unfold bytes64, little_u64.
  assert (bytes_ok (bytes32 v ++ bytes32 (Z.shiftr v 32))) as Hok by (apply Forall_app; split; apply bytes32_ok).
  rewrite -> (little_u32_bytes _ 0 v), (little_u32_bytes _ (4 + 0) (Z.shiftr v 32)) by done.
  replace (u32 (Z.shiftr v 32)) with (Z.shiftr v 32) by (rewrite -> Z.shiftr_div_pow2 by lia; word).
  assert (u64 (Z.shiftl (Z.shiftr v 32) 32) = Z.shiftl (Z.shiftr v 32) 32) as ->
    by (rewrite -> Z.shiftl_mul_pow2, Z.shiftr_div_pow2 by lia; word).
  apply Z.bits_inj'. intros n Hn. rewrite -> Z.lor_spec, Z.shiftl_spec by lia. unfold wrap.
  destruct (Z.lt_ge_cases n 32).
  - rewrite -> Z.mod_pow2_bits_low by lia. by rewrite -> (Z.testbit_neg_r _ (n - 32)), orb_false_r by lia.
  - rewrite -> Z.mod_pow2_bits_high, Z.shiftr_spec by lia. cbn [orb]. f_equal. lia.
Qed.

Lemma load_u64_store a v m : in_u 64 v -> load_u64 (store_u64 a v m) a = v.
Proof. intros Hv. unfold load_u64, store_u64. rewrite -> memory_load_store by done. by apply little_u64_bytes. Qed.

(** A string is read when it and its NUL are in user memory and fit. *)
Lemma copy_string_loop_spec m a n : forall i s,
  in_u 32 a -> 0 <= i -> copy_string_loop m a i n = Some s ->
  (length s < n)%nat /\ Forall (fun c => c <> 0) s /\
  (forall k c, (s ++ [0]) !! k = Some c -> m (u32 (a + i + Z.of_nat k)) = c /\ contains (u32 (a + i + Z.of_nat k)) 1 = true).
Proof.
  induction n as [|n IH]; intros i s Ha Hi; [done|]. cbn [copy_string_loop].
  destruct (contains (u32 (a + i)) 1) eqn:Hc; [|done]. cbn [negb]. case_match eqn:E.
  { intros [= <-]. split_and!; [simpl; lia|done|]. intros [|k] c; simpl; [|done]. intros [= <-].
    rewrite -> Z.add_0_r. split; [lia|done]. }
  destruct (copy_string_loop m a (i + 1) n) as [rest|] eqn:Hr; [|done]. intros [= <-].
  apply IH in Hr as (H1 & H2 & H3); [|done|lia]. split_and!.
  - simpl. lia.
  - constructor; [lia|done].
  - intros [|k] c; cbn [app lookup list_lookup].
    + intros [= <-]. by rewrite -> Z.add_0_r.
    + intros Hk. apply H3 in Hk. by replace (a + i + Z.of_nat (S k)) with (a + (i + 1) + Z.of_nat k) by lia.
Qed.
End Memory.
