(* ===== verification/Runtime.v ===== *)
(** * [kernel/runtime.cpp]: the routines the compiler calls

    Copying, moving, filling and comparing memory, and the 64-bit division of
    a 32-bit machine.  Memory is the one of [Memory]; an assignment through a
    [u32*] moves four bytes. *)

From S2P Require Import Prelude Base Filesystem Abi Memory.
Local Open Scope Z_scope.

Module Runtime.
Import Memory.

(** ** [memcpy] *)

Definition word_size := 4.
Definition block_size := 32.

Definition copy_byte (out in_ : Z) (m : Memory) : Memory := store out [m in_] m.
Definition copy_word (out in_ : Z) (m : Memory) : Memory := store out (load m in_ 4) m.
(** [word_out[i] = word_in[i]] for 0 to 7. *)
Definition copy_block (out in_ : Z) (m : Memory) : Memory :=
  foldl (fun m i => copy_word (out + word_size * i) (in_ + word_size * i) m) m (seqZ 0 8).

(** [while (size >= step) { copy(out, in); out += step; in += step; size -= step; }]
    for [n] rounds at most; what is left to copy. *)
Fixpoint copy_loop (step : Z) (copy : Z -> Z -> Memory -> Memory) (n : nat) (out in_ size : Z) (m : Memory)
    : Z * Z * Z * Memory :=
  match n with
  | O => (out, in_, size, m)
  | S n => if size <? step then (out, in_, size, m)
           else copy_loop step copy n (out + step) (in_ + step) (size - step) (copy out in_ m)
  end.

Definition memcpy (destination source size : Z) (m : Memory) : Memory :=
  let n := Z.to_nat size in
  let '(out, in_, size, m) :=
    if Z.land (Z.lor destination source) (word_size - 1) =? 0 then
      let '(out, in_, size, m) := copy_loop block_size copy_block n destination source size m in
      copy_loop word_size copy_word n out in_ size m
    else (destination, source, size, m) in
  let '(_, _, _, m) := copy_loop 1 copy_byte n out in_ size m in m.

(** ** [memmove] *)

Definition memmove (destination source size : Z) (m : Memory) : Memory :=
  if destination <? source then
    foldl (fun m i => copy_byte (destination + i) (source + i) m) m (seqZ 0 size)
  else if source <? destination then
    foldl (fun m i => copy_byte (destination + i) (source + i) m) m (reverse (seqZ 0 size))
  else m.

(** ** [memset] *)

(** The loop that aligns the pointer. *)
Fixpoint set_head (n : nat) (out byte size : Z) (m : Memory) : Z * Z * Memory :=
  match n with
  | O => (out, size, m)
  | S n => if (size =? 0) || (Z.land out (word_size - 1) =? 0) then (out, size, m)
           else set_head n (out + 1) byte (size - 1) (store out [byte] m)
  end.

Fixpoint set_loop (step : Z) (data : list Z) (n : nat) (out size : Z) (m : Memory) : Z * Z * Memory :=
  match n with
  | O => (out, size, m)
  | S n => if size <? step then (out, size, m)
           else set_loop step data n (out + step) (size - step) (store out data m)
  end.

Definition memset (destination value size : Z) (m : Memory) : Memory :=
  let n := Z.to_nat size in
  let byte := u8 value in
  let '(out, size, m) := set_head n destination byte size m in
  let word := u32 (byte * 0x01010101) in
  let '(out, size, m) := set_loop word_size (Fs.bytes32 word) n out size m in
  let '(_, _, m) := set_loop 1 [byte] n out size m in m.

(** ** [memcmp] *)

Definition memcmp (left right size : Z) (m : Memory) : Z :=
  match list_find (fun i => m (left + i) <> m (right + i)) (seqZ 0 size) with
  | Some (_, i) => m (left + i) - m (right + i)
  | None => 0
  end.

(** ** [divide_u64] *)

Record Division := mkDivision { current : Z; dividend : Z; quotient : Z }.

Definition divide_step (divisor : Z) (d : Division) : Division :=
  let current_ := Z.lor (u64 (Z.shiftl (current d) 1)) (Z.shiftr (dividend d) 63) in
  let dividend_ := u64 (Z.shiftl (dividend d) 1) in
  let quotient_ := u64 (Z.shiftl (quotient d) 1) in
  if divisor <=? current_
  then mkDivision (current_ - divisor) dividend_ (Z.lor quotient_ 1)
  else mkDivision current_ dividend_ quotient_.

(** Quotient and remainder; a division by zero stops the machine. *)
Definition divide_u64 (dividend_ divisor : Z) : option (Z * Z) :=
  if divisor =? 0 then None else
  let d := Nat.iter 64 (divide_step divisor) (mkDivision 0 dividend_ 0) in
  Some (quotient d, current d).

Definition udivdi3 (dividend_ divisor : Z) : option Z := fst <$> divide_u64 dividend_ divisor.
Definition umoddi3 (dividend_ divisor : Z) : option Z := snd <$> divide_u64 dividend_ divisor.

(** ** The bytes a copy moves *)

(** [size] bytes of [m] at [source], placed at [destination], all at once. *)
Definition moved (destination source size : Z) (m : Memory) : Memory := fun a =>
  if decide (destination <= a < destination + size) then m (source + (a - destination)) else m a.

Lemma moved_store d s n m a : 0 <= n -> moved d s n m a = store d (load m s (Z.to_nat n)) m a.
Proof.
  intros Hn. unfold moved, store. rewrite -> length_load, Z2Nat.id by done. case_decide as H; [|done].
  symmetry. apply list_lookup_total_correct. unfold load. rewrite -> Fs.lookup_bytes_at by lia. f_equal. f_equal. lia.
Qed.

(** A chunk appended at the end of what has been moved forwards. *)
Lemma moved_step d s n c m m' :
  0 <= n -> d <= s \/ s + n + Z.of_nat c <= d -> (forall a, m' a = moved d s n m a) ->
  forall a, store (d + n) (load m' (s + n) c) m' a = moved d s (n + Z.of_nat c) m a.
Proof.
  intros Hn Hd Hm a. unfold store. rewrite -> length_load. case_decide as H.
  - unfold moved. rewrite -> decide_True by lia. apply list_lookup_total_correct. unfold load.
    rewrite -> Fs.lookup_bytes_at by lia. f_equal. rw Hm. unfold moved. rewrite -> decide_False by lia. f_equal. lia.
  - rw Hm. unfold moved. repeat case_decide; try done; lia.
Qed.

(** A copying step of [c] bytes does what one store of [c] bytes does. *)
Definition copies (step : Z) (copy : Z -> Z -> Memory -> Memory) : Prop :=
  forall d s n m m', 0 <= n -> d <= s \/ s + n + step <= d -> (forall a, m' a = moved d s n m a) ->
  forall a, copy (d + n) (s + n) m' a = moved d s (n + step) m a.

Lemma copies_byte : copies 1 copy_byte.
Proof.
  intros d s n m m' Hn Hd Hm a. unfold copy_byte.
  replace [m' (s + n)] with (load m' (s + n) 1) by (unfold load, Fs.bytes_at; cbn; by rewrite -> Z.add_0_r).
  by apply (moved_step d s n 1).
Qed.

Lemma copies_word : copies word_size copy_word.
Proof. intros d s n m m' Hn Hd Hm a. by apply (moved_step d s n 4). Qed.

Lemma copies_block : copies block_size copy_block.
Proof.
  intros d s n m m' Hn Hd Hm. unfold copy_block, block_size in *.
  enough (forall k, 0 <= k -> k <= 8 -> forall a,
    foldl (fun m i => copy_word (d + n + word_size * i) (s + n + word_size * i) m) m' (seqZ 0 k) a = moved d s (n + word_size * k) m a) as H
    by (by apply (H 8)).
  intros k Hk. pattern k. revert k Hk. apply Z_count_ind.
  - intros _ a. change (seqZ 0 0) with (@nil Z). cbn [foldl]. rw Hm. f_equal. lia.
  - intros k Hk IH Hk8 a. rewrite -> seqZ_snoc, foldl_app by done. cbn [foldl].
    rewrite <- !Z.add_assoc, (copies_word d s (n + word_size * k) m) by (done || unfold word_size; lia || by apply IH; lia).
    f_equal. unfold word_size. lia.
Qed.

Lemma copy_loop_spec step copy fuel : forall d s n size total m m',
  copies step copy -> 0 < step -> 0 <= n -> 0 <= size -> n + size <= total -> d <= s \/ s + total <= d ->
  (forall a, m' a = moved d s n m a) ->
  exists n' m1, copy_loop step copy fuel (d + n) (s + n) size m' = (d + n', s + n', size - (n' - n), m1) /\
    n <= n' <= n + size /\ (forall a, m1 a = moved d s n' m a) /\ (size < step * Z.of_nat (S fuel) -> size - (n' - n) < step).
Proof.
  induction fuel as [|fuel IH]; intros d s n size total m m' Hc Hstep Hn Hsize Htot Hd Hm; cbn [copy_loop].
  { exists n, m'. split_and!; [f_equal; f_equal; lia|lia|lia|done|lia]. }
  destruct (Z.ltb_spec size step) as [Hlt|Hge].
  { exists n, m'. split_and!; [f_equal; f_equal; lia|lia|lia|done|lia]. }
  destruct (IH d s (n + step) (size - step) total m (copy (d + n) (s + n) m')) as (n' & m1 & He & Hr & Hm1 & Hf);
    [done|done|lia|lia|lia|done|apply Hc; [done|lia|done]|].
  exists n', m1. replace (d + n + step) with (d + (n + step)) by lia. replace (s + n + step) with (s + (n + step)) by lia.
  rw He. split_and!; [f_equal; f_equal; lia|lia|lia|done|lia].
Qed.

(** [memcpy] copies in blocks of eight words, then words, then bytes when
    both pointers are aligned, and bytes otherwise; whatever the alignment, if
    the destination is below the source or behind it, memory is what one
    simultaneous move of the bytes gives. *)
Theorem memcpy_spec destination source size m a :
  0 <= size -> destination <= source \/ source + size <= destination ->
  memcpy destination source size m a = moved destination source size m a.
Proof.
  intros Hs Hd. unfold memcpy. cbv zeta.
  assert (forall n, (forall b, m b = moved destination source 0 m b) /\
    (forall m', (forall b, m' b = moved destination source n m b) -> 0 <= n <= size ->
      (let '(_, _, _, m) := copy_loop 1 copy_byte (Z.to_nat size) (destination + n) (source + n) (size - n) m' in m) a
        = moved destination source size m a)) as Hbytes.
  { intros n. split; [intros b; unfold moved; by rewrite -> decide_False by lia|]. intros m' Hm Hn.
    destruct (copy_loop_spec 1 copy_byte (Z.to_nat size) destination source n (size - n) size m m')
      as (n' & m1 & -> & Hr & Hm1 & Hf); [apply copies_byte|lia|lia|lia|lia|done|done|].
    rw Hm1. f_equal. lia. }
  destruct (Z.land (Z.lor destination source) (word_size - 1) =? 0).
  - destruct (copy_loop_spec block_size copy_block (Z.to_nat size) destination source 0 size size m m)
      as (n1 & m1 & H1 & Hr1 & Hm1 & _); [apply copies_block|done|lia|lia|lia|done|apply (Hbytes 0)|].
    rewrite -> !Z.add_0_r in H1. rw H1.
    destruct (copy_loop_spec word_size copy_word (Z.to_nat size) destination source n1 (size - (n1 - 0)) size m m1)
      as (n2 & m2 & H2 & Hr2 & Hm2 & _); [apply copies_word|done|lia|lia|lia|done|done|].
    rw H2. replace (size - (n1 - 0) - (n2 - n1)) with (size - n2) by lia. apply Hbytes; [done|lia].
  - pose proof (proj2 (Hbytes 0) m (proj1 (Hbytes 0))) as H0. rewrite -> !Z.add_0_r, Z.sub_0_r in H0. apply H0. lia.
Qed.

(** ** [memmove] *)

(** One byte at a time in the order [l]: a byte is copied before any other copy
    overwrites it. *)
Lemma move_bytes d s m l : forall done_ m',
  (forall a, m' a = if decide (a - d ∈ done_) then m (s + (a - d)) else m a) ->
  (forall i j, i ∈ l -> j ∈ done_ -> s + i <> d + j) -> NoDup l ->
  (forall k1 k2 i j, l !! k1 = Some i -> l !! k2 = Some j -> (k1 < k2)%nat -> d + i <> s + j) ->
  forall a, foldl (fun m i => copy_byte (d + i) (s + i) m) m' l a =
    if decide (a - d ∈ done_ ++ l) then m (s + (a - d)) else m a.
Proof.
  induction l as [|i l IH]; intros done_ m' Hm Hdone Hnd Hord a; cbn [foldl]; [by rewrite -> app_nil_r|].
  apply NoDup_cons in Hnd as [Hi Hnd]. replace (done_ ++ i :: l) with ((done_ ++ [i]) ++ l) by (by rewrite <- app_assoc).
  apply IH; [| |done|].
  - intros b. unfold copy_byte, store. cbn [length]. case_decide as H1.
    + replace (Z.to_nat (b - (d + i))) with 0%nat by lia. cbn. rw Hm.
      rewrite -> decide_False by (intros Hj; apply (Hdone i (s + i - d)); [by left|done|lia]).
      rewrite -> decide_True by (apply elem_of_app; right; apply list_elem_of_singleton; lia). f_equal. lia.
    + rw Hm. apply decide_ext. rewrite -> elem_of_app, list_elem_of_singleton. split; [by left|]. intros [Hj|Hj]; [done|lia].
  - intros j k Hj [Hk|Hk%list_elem_of_singleton]%elem_of_app; [apply Hdone; [by right|done]|subst k].
    apply list_elem_of_lookup in Hj as [n Hn]. intros He. by apply (Hord 0%nat (S n) i j); [|done|lia|lia].
  - intros k1 k2 j1 j2 H1 H2 Hlt. apply (Hord (S k1) (S k2)); [done|done|lia].
Qed.

(** [memmove] moves its bytes as if all of them were read before any is
    written, however the two ranges overlap. *)
Theorem memmove_spec destination source size m a :
  memmove destination source size m a = moved destination source size m a.
Proof.
  unfold memmove, moved.
  assert (forall l : list Z, (forall i, i ∈ l <-> 0 <= i < size) ->
    (if decide (a - destination ∈ [] ++ l) then m (source + (a - destination)) else m a) =
    (if decide (destination <= a < destination + size) then m (source + (a - destination)) else m a)) as Hdec.
  { intros l Hl. apply decide_ext. cbn [app]. rewrite -> Hl. lia. }
  destruct (Z.ltb_spec destination source); [|destruct (Z.ltb_spec source destination)].
  - rewrite <- (Hdec (seqZ 0 size)) by (intros i; rewrite -> elem_of_seqZ; lia).
    apply move_bytes; [intros b; by rewrite -> decide_False by apply not_elem_of_nil|intros i j _ Hj%elem_of_nil; done|apply NoDup_seqZ|].
    intros k1 k2 i j Hi Hj Hlt. apply lookup_seqZ in Hi, Hj. lia.
  - rewrite <- (Hdec (reverse (seqZ 0 size))) by (intros i; rewrite -> elem_of_reverse, elem_of_seqZ; lia).
    apply move_bytes; [intros b; by rewrite -> decide_False by apply not_elem_of_nil|intros i j _ Hj%elem_of_nil; done| |].
    + rewrite -> reverse_Permutation. apply NoDup_seqZ.
    + intros k1 k2 i j Hi Hj Hlt. pose proof (lookup_lt_Some _ _ _ Hi) as H1. pose proof (lookup_lt_Some _ _ _ Hj) as H2.
      rewrite -> length_reverse in H1, H2. rewrite -> reverse_lookup in Hi, Hj by done.
      apply lookup_seqZ in Hi, Hj. rewrite -> length_seqZ in *. lia.
  - case_decide; [|done]. f_equal. lia.
Qed.

(** ** [memset] *)

Definition filled (destination byte size : Z) (m : Memory) : Memory := fun a =>
  if decide (destination <= a < destination + size) then byte else m a.

Lemma filled_step d b n c m m' : 0 <= n -> (forall a, m' a = filled d b n m a) ->
  forall a, store (d + n) (replicate c b) m' a = filled d b (n + Z.of_nat c) m a.
Proof.
  intros Hn Hm a. unfold store. rewrite -> length_replicate. unfold filled. case_decide.
  - rewrite -> decide_True by lia. apply list_lookup_total_correct, lookup_replicate_2. lia.
  - rw Hm. unfold filled. repeat case_decide; try done; lia.
Qed.

Lemma set_loop_spec step b k fuel : forall d n size m m',
  0 < step -> k = Z.to_nat step -> 0 <= n -> 0 <= size -> (forall a, m' a = filled d b n m a) ->
  exists n' m1, set_loop step (replicate k b) fuel (d + n) size m' = (d + n', size - (n' - n), m1) /\
    n <= n' <= n + size /\ (forall a, m1 a = filled d b n' m a) /\ (size < step * Z.of_nat (S fuel) -> size - (n' - n) < step).
Proof.
  induction fuel as [|fuel IH]; intros d n size m m' Hstep Hk Hn Hsize Hm; cbn [set_loop].
  { exists n, m'. split_and!; [f_equal; f_equal; lia|lia|lia|done|lia]. }
  destruct (Z.ltb_spec size step) as [Hlt|Hge].
  { exists n, m'. split_and!; [f_equal; f_equal; lia|lia|lia|done|lia]. }
  destruct (IH d (n + step) (size - step) m (store (d + n) (replicate k b) m')) as (n' & m1 & He & Hr & Hm1 & Hf);
    [done|done|lia|lia|intros a; rewrite -> (filled_step d b n k m) by done; f_equal; lia|].
  exists n', m1. replace (d + n + step) with (d + (n + step)) by lia. rw He. split_and!; [f_equal; f_equal; lia|lia|lia|done|lia].
Qed.

Lemma set_head_spec b fuel : forall d n size m m',
  0 <= n -> 0 <= size -> (forall a, m' a = filled d b n m a) ->
  exists n' m1, set_head fuel (d + n) b size m' = (d + n', size - (n' - n), m1) /\
    n <= n' <= n + size /\ (forall a, m1 a = filled d b n' m a).
Proof.
  induction fuel as [|fuel IH]; intros d n size m m' Hn Hsize Hm; cbn [set_head].
  { exists n, m'. split_and!; [f_equal; f_equal; lia|lia|lia|done]. }
  case_match eqn:E.
  { exists n, m'. split_and!; [f_equal; f_equal; lia|lia|lia|done]. }
  apply orb_false_iff in E as [E _].
  destruct (IH d (n + 1) (size - 1) m (store (d + n) [b] m')) as (n' & m1 & He & Hr & Hm1);
    [lia|lia|intros a; apply (filled_step d b n 1 m); done|].
  exists n', m1. replace (d + n + 1) with (d + (n + 1)) by lia. rw He. split_and!; [f_equal; f_equal; lia|lia|lia|done].
Qed.

(** The four bytes of a word that repeats a byte. *)
Lemma word_of_byte b : in_u 8 b -> Fs.bytes32 (u32 (b * 0x01010101)) = replicate 4 b.
Proof. intros H. unfold Fs.bytes32. rewrite -> !Z.shiftr_div_pow2 by lia. cbn [replicate]. repeat f_equal; word. Qed.

Lemma memset_filled destination value size m a : 0 <= size ->
  memset destination value size m a = filled destination (u8 value) size m a.
Proof.
  intros Hs. unfold memset. cbv zeta. set (b := u8 value).
  assert (in_u 8 b) as Hb by (apply wrap_in_u; lia).
  destruct (set_head_spec b (Z.to_nat size) destination 0 size m m) as (n1 & m1 & H1 & Hr1 & Hm1);
    [lia|lia|intros c; unfold filled; by rewrite -> decide_False by lia|].
  rewrite -> Z.add_0_r in H1. rw H1. rewrite -> word_of_byte by done.
  destruct (set_loop_spec word_size b 4 (Z.to_nat size) destination n1 (size - (n1 - 0)) m m1) as (n2 & m2 & H2 & Hr2 & Hm2 & _);
    [done|done|lia|lia|done|].
  rw H2.
  destruct (set_loop_spec 1 b 1 (Z.to_nat size) destination n2 (size - (n1 - 0) - (n2 - n1)) m m2) as (n3 & m3 & H3 & Hr3 & Hm3 & Hf);
    [done|done|lia|lia|done|].
  cbn [replicate] in H3. rw H3. rw Hm3. f_equal. lia.
Qed.

(** ** Division *)

(** The dividend after [k] rounds: its next bit is at the top. *)
Lemma dividend_bit n p k : 0 <= p -> p + Z.of_nat (S k) = 64 ->
  let r := n mod 2 ^ (p + 1) * 2 ^ Z.of_nat k in
  Z.shiftr r 63 = n / 2 ^ p mod 2 /\ u64 (Z.shiftl r 1) = n mod 2 ^ p * 2 ^ Z.of_nat (S k).
Proof.
  intros Hp H64 r. set (bit := n / 2 ^ p mod 2).
  pose proof (Z.pow_pos_nonneg 2 p ltac:(lia) Hp) as Hpp. pose proof (Z.pow_pos_nonneg 2 (Z.of_nat k) ltac:(lia) ltac:(lia)) as Hkk.
  assert (2 ^ Z.of_nat (S k) = 2 * 2 ^ Z.of_nat k) as Hsk by (rewrite -> Nat2Z.inj_succ, Z.pow_succ_r by lia; lia).
  assert (2 ^ p * 2 ^ Z.of_nat k = 2 ^ 63) as H63 by (rewrite <- Z.pow_add_r by lia; f_equal; lia).
  assert (n mod 2 ^ (p + 1) = bit * 2 ^ p + n mod 2 ^ p) as Hmod.
  { unfold bit. rewrite -> Z.pow_add_r by lia. change (2 ^ 1) with 2. rewrite -> Z.rem_mul_r by lia. lia. }
  pose proof (Z.mod_pos_bound n (2 ^ p) Hpp) as Hm. assert (0 <= bit < 2) as Hbit by (apply Z.mod_pos_bound; lia).
  assert (2 ^ 64 = 2 * 2 ^ 63) as H64p by done. unfold r. rewrite -> Hmod, Z.shiftr_div_pow2, Z.shiftl_mul_pow2 by lia. split.
  - symmetry. apply (Z.div_unique _ _ _ (n mod 2 ^ p * 2 ^ Z.of_nat k)); [left; nia|]. rewrite <- H63. lia.
  - unfold wrap. rewrite -> Hsk, H64p, <- H63. change (2 ^ 1) with 2.
    replace ((bit * 2 ^ p + n mod 2 ^ p) * 2 ^ Z.of_nat k * 2)
      with (n mod 2 ^ p * (2 * 2 ^ Z.of_nat k) + bit * (2 * (2 ^ p * 2 ^ Z.of_nat k))) by lia.
    rewrite -> Z.mod_add by nia. apply Z.mod_small. nia.
Qed.

(** One round divides the next prefix of the dividend. *)
Lemma divide_step_spec divisor d t bit : 0 < divisor < 2 ^ 64 -> 0 <= t < 2 ^ 63 -> 0 <= bit < 2 ->
  quotient d = t / divisor -> current d = t mod divisor -> Z.shiftr (dividend d) 63 = bit ->
  let d' := divide_step divisor d in
  quotient d' = (2 * t + bit) / divisor /\ current d' = (2 * t + bit) mod divisor /\
  dividend d' = u64 (Z.shiftl (dividend d) 1).
Proof.
  intros Hd Ht Hbit Hq Hc Hb. pose proof (Z.mod_pos_bound t divisor ltac:(lia)) as Hcb. rewrite <- Hc in Hcb.
  assert (t = divisor * quotient d + current d) as Hdm by (rewrite -> Hq, Hc; apply Z.div_mod; lia).
  assert (0 <= current d <= t) as Hct by (rw Hc; split; [lia|apply Z.mod_le; lia]).
  assert (0 <= quotient d <= t) as Hqt by (rw Hq; split; [apply Z.div_pos; lia|apply Z.div_le_upper_bound; nia]).
  unfold divide_step. rewrite -> Hb, (Z.shiftl_mul_pow2 (current d)), (Z.shiftl_mul_pow2 (quotient d)) by lia.
  change (2 ^ 1) with 2. rewrite -> (wrap_small 64 (current d * 2)), (wrap_small 64 (quotient d * 2)) by (unfold in_u; lia).
  pose proof (lor_shiftl (current d) bit 1 ltac:(lia) ltac:(lia)) as Hl1. pose proof (lor_shiftl (quotient d) 1 1 ltac:(lia) ltac:(lia)) as Hl2.
  rewrite -> Z.shiftl_mul_pow2 in Hl1, Hl2 by lia. change (2 ^ 1) with 2 in Hl1, Hl2. rewrite -> Hl1, Hl2.
  destruct (Z.leb_spec divisor (current d * 2 + bit)); cbn [quotient current dividend]; (split_and!; [| |done]).
  - apply (Z.div_unique _ _ _ (current d * 2 + bit - divisor)); lia.
  - apply (Z.mod_unique _ _ (quotient d * 2 + 1)); lia.
  - apply (Z.div_unique _ _ _ (current d * 2 + bit)); lia.
  - apply (Z.mod_unique _ _ (quotient d * 2)); lia.
Qed.

(** After [k] rounds the first [k] bits of the dividend are divided. *)
Lemma divide_rounds n divisor k : in_u 64 n -> 0 < divisor < 2 ^ 64 -> (k <= 64)%nat ->
  let d := Nat.iter k (divide_step divisor) (mkDivision 0 n 0) in
  let top := n / 2 ^ (64 - Z.of_nat k) in
  quotient d = top / divisor /\ current d = top mod divisor /\
  dividend d = (n mod 2 ^ (64 - Z.of_nat k)) * 2 ^ Z.of_nat k.
Proof.
  intros Hn Hd. induction k as [|k IH]; intros Hk.
  { cbn. unfold in_u in Hn. rewrite -> Z.sub_0_r, (Z.div_small n), Zdiv_0_l, Zmod_0_l, (Z.mod_small n) by lia. lia. }
  destruct IH as (Hq & Hc & Hr); [lia|]. cbn [Nat.iter nat_rect].
  change (nat_rect _ _ _ k) with (Nat.iter k (divide_step divisor) (mkDivision 0 n 0)).
  set (d := Nat.iter k (divide_step divisor) (mkDivision 0 n 0)) in *.
  set (p := 64 - Z.of_nat (S k)). replace (64 - Z.of_nat k) with (p + 1) in * by lia.
  destruct (dividend_bit n p k) as [Hbit Hnext]; [lia|lia|]. rewrite <- Hr in Hbit, Hnext. unfold in_u in Hn.
  assert (2 ^ (p + 1) = 2 * 2 ^ p) as Hp1 by (rewrite -> Z.pow_add_r by lia; lia).
  pose proof (Z.pow_pos_nonneg 2 p ltac:(lia) ltac:(lia)) as Hpp.
  assert (n / 2 ^ p = 2 * (n / 2 ^ (p + 1)) + n / 2 ^ p mod 2) as Htop.
  { rewrite -> Hp1, (Z.mul_comm 2 (2 ^ p)), <- Z.div_div by lia. apply (Z.div_mod (n / 2 ^ p) 2). lia. }
  assert (0 <= n / 2 ^ (p + 1) < 2 ^ 63) as Ht.
  { split; [apply Z.div_pos; lia|]. apply Z.div_lt_upper_bound; [lia|]. assert (2 ^ 63 * 2 = 2 ^ 64) by done. nia. }
  assert (0 <= n / 2 ^ p mod 2 < 2) as Hb by (apply Z.mod_pos_bound; lia).
  destruct (divide_step_spec divisor d _ _ Hd Ht Hb Hq Hc Hbit) as (H1 & H2 & H3).
  rewrite -> H1, H2, H3, Hnext. by rewrite <- Htop.
Qed.

(** The shifting division of two 64-bit numbers gives the quotient and the
    remainder, without losing a bit when the divisor has its top bit set. *)
Theorem divide_u64_spec n divisor : in_u 64 n -> in_u 64 divisor -> divisor <> 0 ->
  divide_u64 n divisor = Some (n / divisor, n mod divisor).
Proof.
  intros Hn Hd Hne. unfold in_u in Hd. unfold divide_u64. rewrite -> (proj2 (Z.eqb_neq divisor 0) Hne). cbv zeta.
  destruct (divide_rounds n divisor 64 Hn ltac:(lia) ltac:(lia)) as (-> & -> & _).
  change (64 - Z.of_nat 64) with 0. change (2 ^ 0) with 1. by rewrite -> Z.div_1_r.
Qed.

Lemma divide_u64_spec_witness :
  divide_u64 18446744073709551615 10000000000000000000 = Some (1, 8446744073709551615).
Proof. exact (divide_u64_spec 18446744073709551615 10000000000000000000 ltac:(split; lia) ltac:(split; lia) ltac:(lia)). Defined.

Lemma memcpy_spec_witness : let m := (fun a => u8 a) in
  memcpy 100 104 40 m 131 = moved 100 104 40 m 131.
Proof. apply memcpy_spec; [lia|left; lia]. Defined.
End Runtime.
