(* ===== verification/Counts.v ===== *)
(** * Reference counts of the pipe and pseudo-terminal tables

    What [retain], [release] and the operations that open an end do to the
    number of references of each end of each handle, and to no other. *)

From S2P Require Import Prelude ByteQueue Pipe Pty.
Local Open Scope Z_scope.

(** 1 when the statement holds. *)
Abbreviation one P := (if decide P then 1 else 0).

Module PipeCount.
Import PipeTable.
Section pipes.
Context {Q : Type} `{!ByteQueue Q} {BufferCapacity : Z} `{!ByteQueueLaws Q BufferCapacity}.
Context (TableCapacity : Z) (Htable : 0 < TableCapacity <= 255).

Abbreviation references := (PipeTable.references TableCapacity).
Abbreviation inv := (PipeTable.inv TableCapacity BufferCapacity).
Abbreviation abs := (PipeTable.abs TableCapacity BufferCapacity).

Lemma atomic_zero : 0 <= 0 <= BufferCapacity.
Proof. pose proof bq_capacity_pos. lia. Qed.

(** The references of an end, through the abstract table. *)
Definition a_count (ap : option APipe) (e : PipeEnd) : Z := match ap with Some ap => a_refs ap e | None => 0 end.

Lemma references_abs (t : list Pipe) h e : handle_ok h -> references t h e = a_count (abs t h) e.
Proof.
  intros Hh. unfold PipeTable.references, PipeTable.abs. rewrite -> decide_True by done.
  destruct (find TableCapacity t h) as [i|]; [|done]. by destruct e.
Qed.

Lemma pipe_references_range (t : list Pipe) h e : inv t -> 0 <= references t h e <= 65535.
Proof.
  intros Hinv. unfold PipeTable.references. destruct (find TableCapacity t h) as [i|] eqn:Hf; [|lia].
  unfold find in Hf. destruct (TableCapacity <=? slot h) eqn:Hs; [done|].
  destruct (decide (i < length t)%nat) as [Hi|Hi].
  - pose proof (list_lookup_lookup_total_lt t i Hi) as Hp. pose proof (inv_pipes _ _ t Hinv i _ Hp) as Hok.
    pose proof (pipe_refs_in_u _ _ e Hok). unfold in_u in *. lia.
  - rewrite -> list_lookup_total_alt, lookup_ge_None_2 by lia. destruct e; simpl; lia.
Qed.

(** A table that changed at [h] only. *)
Lemma references_update (t t' : list Pipe) h ap' :
  handle_ok h -> (forall h', abs t' h' = if decide (h' = h) then ap' else abs t h') ->
  forall h' e', handle_ok h' ->
    references t' h' e' = if decide (h' = h) then a_count ap' e' else references t h' e'.
Proof.
  intros Hh Hall h' e' Hh'. rewrite -> !references_abs, Hall by done. by case_decide.
Qed.

Lemma a_count_set ap e n e' : a_count (Some (a_set_refs ap e n)) e' = if decide (e' = e) then n else a_refs ap e'.
Proof. by destruct e, e'. Qed.

Lemma pipe_retain_count (t : list Pipe) h e : inv t -> handle_ok h ->
  let '(t', r) := retain TableCapacity t h e in
  inv t' /\
  (forall h' e', handle_ok h' ->
     references t' h' e' = references t h' e' + one (r = success /\ h' = h /\ e' = e)) /\
  (0 < references t h e < 65535 -> r = success).
Proof.
  intros Hinv Hh. destruct (retain TableCapacity t h e) as [t' r] eqn:E.
  apply (retain_refines TableCapacity BufferCapacity 0 Htable atomic_zero) in E as [Hinv' Hs]; [|done..].
  split; [done|]. rewrite -> references_abs by done.
  inversion Hs as [| |A' o h0 ap Ht Ha Hall Ho Hr|A' o h0 Ht Ha Hall Ho Hr]; simpl in *; simplify_eq; rw Ha.
  - pose proof (references_update t t' h0 _ Hh Hall) as Hu. unfold spec_retain in *.
    destruct (decide (a_refs ap e = 65535)) as [Hm|Hm]; cbn [fst snd] in *; injection Hr as <-;
      (split; [intros h' e' Hh'; rewrite -> Hu, ?a_count_set, references_abs by done|simpl; try done; lia]);
      repeat case_decide; subst; rewrite -> ?Ha; cbn [a_count] in *; naive_solver lia.
  - split; [|simpl; lia]. intros h' e' Hh'. rewrite -> !references_abs, Hall by done. lia.
Qed.

Lemma pipe_release_count (t : list Pipe) h e : inv t -> handle_ok h -> 0 < references t h e ->
  let t' := (release TableCapacity t h e).1 in
  inv t' /\
  (forall h' e', handle_ok h' -> references t' h' e' = references t h' e' - one (h' = h /\ e' = e)).
Proof.
  intros Hinv Hh Hpos. destruct (release TableCapacity t h e) as [t' r] eqn:E. cbn [fst].
  apply (release_refines TableCapacity BufferCapacity 0 Htable atomic_zero) in E as [Hinv' Hs]; [|done..].
  split; [done|]. rewrite -> references_abs in Hpos by done.
  inversion Hs as [| |A' o h0 ap Ht Ha Hall Ho Hr|A' o h0 Ht Ha Hall Ho Hr]; simpl in *; simplify_eq; rw Ha in Hpos;
    [|simpl in Hpos; lia].
  pose proof (references_update t t' h0 _ Hh Hall) as Hu. unfold spec_release in Hu. simpl in Hpos.
  rewrite -> decide_False in Hu by lia. simpl in Hu. intros h' e' Hh'. rewrite -> Hu by done.
  destruct (decide (h' = h0)) as [->|]; [|rewrite -> decide_False by naive_solver; lia].
  rewrite -> references_abs, Ha by done. simpl.
  set (ap' := a_set_refs ap e (a_refs ap e - 1)) in *.
  assert (a_count (if decide (a_readers ap' = 0 /\ a_writers ap' = 0) then None else Some ap') e' = a_refs ap' e') as ->.
  { case_decide as Hz; [|done]. destruct e'; simpl; naive_solver. }
  change (a_refs ap' e') with (a_count (Some ap') e'). unfold ap'. rewrite -> a_count_set.
  repeat case_decide; naive_solver lia.
Qed.

Lemma pipe_create_count (t : list Pipe) : inv t ->
  let '(t', r) := create t in
  inv t' /\
  (cr_status r = success -> handle_ok (cr_handle r)) /\
  (forall h' e', handle_ok h' ->
     references t' h' e' = references t h' e' + one (cr_status r = success /\ h' = cr_handle r)).
Proof.
  intros Hinv. destruct (create t) as [t' r] eqn:E.
  apply (create_refines TableCapacity BufferCapacity 0 Htable atomic_zero) in E as [Hinv' Hs]; [|done..].
  split; [done|].
  inversion Hs as [A' h Hh Ha Hall|A' Hfull Hall|A' o h0 ap Ht Ha Hall Ho Hr|A' o h0 Ht Ha Hall Ho Hr];
    simpl in *; simplify_eq.
  - split; [done|]. intros h' e' Hh'. simpl. rewrite -> (references_update t t' h _ Hh Hall) by done.
    destruct (decide (h' = h)) as [->|]; [|rewrite -> decide_False by naive_solver; lia].
    rewrite -> references_abs, Ha, decide_True by done. by destruct e'.
  - split; [done|]. intros h' e' Hh'. simpl. rewrite -> !references_abs, Hall by done. lia.
Qed.

(** Reading and writing count nothing. *)
Lemma spec_read_count ap h n e : a_count (spec_op BufferCapacity 0 ap (ORead h n)).1 e = a_refs ap e.
Proof.
  cbn [spec_op]. unfold spec_read. case_decide; [done|]. case_decide; [done|]. destruct (a_queue ap); by destruct e.
Qed.

Lemma spec_write_count AtomicCapacity ap h input e :
  a_count (spec_op BufferCapacity AtomicCapacity ap (OWrite h input)).1 e = a_refs ap e.
Proof. cbn [spec_op]. unfold spec_write. repeat (case_decide; [done|]). by destruct e. Qed.

Lemma pipe_read_count (t : list Pipe) h n : inv t -> handle_ok h -> in_u 32 n ->
  let t' := (read TableCapacity t h n).1.1 in
  inv t' /\ forall h' e', handle_ok h' -> references t' h' e' = references t h' e'.
Proof.
  intros Hinv Hh Hn. destruct (read TableCapacity t h n) as [[t' r] out] eqn:E. cbn [fst].
  apply (read_refines TableCapacity BufferCapacity 0 Htable atomic_zero) in E as [Hinv' Hs]; [|done..].
  split; [done|]. intros h' e' Hh'.
  inversion Hs as [| |A' o h0 ap Ht Ha Hall Ho Hr|A' o h0 Ht Ha Hall Ho Hr]; cbn [target] in *; simplify_eq.
  - rewrite -> (references_update t t' h0 _ Hh Hall) by done. case_decide as He; [|done]. subst h'.
    rewrite -> references_abs, Ha by done. apply spec_read_count.
  - by rewrite -> !references_abs, Hall by done.
Qed.

Lemma pipe_write_count (t : list Pipe) AtomicCapacity h input : 0 <= AtomicCapacity <= BufferCapacity ->
  inv t -> handle_ok h -> Z.of_nat (length input) < 2 ^ 32 ->
  let t' := (write TableCapacity AtomicCapacity t h input (Z.of_nat (length input))).1 in
  inv t' /\ forall h' e', handle_ok h' -> references t' h' e' = references t h' e'.
Proof.
  intros Ha0 Hinv Hh Hn. destruct (write TableCapacity AtomicCapacity t h input _) as [t' r] eqn:E. cbn [fst].
  apply (write_refines TableCapacity BufferCapacity AtomicCapacity Htable Ha0) in E as [Hinv' Hs]; [|done..].
  split; [done|]. intros h' e' Hh'.
  inversion Hs as [| |A' o h0 ap Ht Ha Hall Ho Hr|A' o h0 Ht Ha Hall Ho Hr]; cbn [target] in *; simplify_eq.
  - rewrite -> (references_update t t' h0 _ Hh Hall) by done. case_decide as He; [|done]. subst h'.
    rewrite -> references_abs, Ha by done. apply spec_write_count.
  - by rewrite -> !references_abs, Hall by done.
Qed.
End pipes.
End PipeCount.

Module PtyCount.
Import PtyTable.
Section ptys.
Context {Q : Type} `{!ByteQueue Q} {BufferCapacity : Z} `{!ByteQueueLaws Q BufferCapacity}.
Context (TableCapacity : Z) (Htable : 0 < TableCapacity <= 255).

Abbreviation Pty := (PtyTable.Pty (Q := Q)).
Abbreviation inv := (PtyTable.inv TableCapacity BufferCapacity).
Abbreviation find := (PtyTable.find TableCapacity).

Definition references (t : list Pty) (h : PtyHandle) (e : PtyEnd) : Z :=
  match find t h with None => 0 | Some i => refs (t !!! i) e end.

Lemma pty_references_range (t : list Pty) h e : inv t -> 0 <= references t h e <= 65535.
Proof.
  intros Hinv. unfold references. destruct (find t h) as [i|] eqn:Hf; [|lia].
  unfold PtyTable.find in Hf. destruct (TableCapacity <=? slot h) eqn:Hs; [done|].
  destruct (decide (i < length t)%nat) as [Hi|Hi].
  - destruct (inv_lookup_total _ _ t i Hinv Hi) as [_ Hok]. pose proof (pty_refs_in_u _ _ e Hok). unfold in_u in *. lia.
  - rewrite -> list_lookup_total_alt, lookup_ge_None_2 by lia. destruct e; simpl; lia.
Qed.

(** Replacing the entry of one slot. *)
Lemma references_insert (t : list Pty) h i (p p' : Pty) :
  inv t -> handle_ok h -> i = Z.to_nat (slot h) -> t !! i = Some p ->
  (used p = true -> pgeneration p = generation h) -> pgeneration p' = generation h ->
  (used p' = false -> masters p' = 0 /\ slaves p' = 0) ->
  forall h' e', handle_ok h' ->
    references (<[i := p']> t) h' e' = if decide (h' = h) then refs p' e' else references t h' e'.
Proof.
  intros Hinv Hh -> Hp Hg Hg' Hfree h' e' Hh'. pose proof (lookup_lt_Some _ _ _ Hp) as Hlt.
  pose proof (inv_length _ _ t Hinv) as Hlen. destruct Hh as [_ Hs], Hh' as [_ Hs'].
  unfold references, PtyTable.find. destruct (decide (slot h' = slot h)) as [E|E].
  - rw E. rewrite -> (proj2 (Z.leb_gt TableCapacity (slot h))) by word.
    rewrite -> !list_lookup_total_insert_eq, (list_lookup_total_correct _ _ _ Hp) by done. rw Hg'.
    destruct (decide (h' = h)) as [->|Hne].
    + rewrite -> Z.eqb_refl, andb_true_r. destruct (used p') eqn:Hu.
      * by rewrite -> list_lookup_total_insert_eq.
      * destruct e'; simpl; destruct (Hfree eq_refl); lia.
    + assert (generation h' <> generation h) as Hgen by (destruct h, h'; simpl in *; congruence).
      rewrite -> (proj2 (Z.eqb_neq (generation h) (generation h'))), andb_false_r by lia.
      destruct (used p) eqn:Hu; [|done].
      rewrite -> (proj2 (Z.eqb_neq (pgeneration p) (generation h'))) by (rewrite -> Hg by done; lia). done.
  - rewrite -> decide_False by congruence. destruct (TableCapacity <=? slot h') eqn:Hc; [done|].
    rewrite -> !list_lookup_total_insert_ne by word. destruct (_ && _); [|done].
    by rewrite -> list_lookup_total_insert_ne by word.
Qed.

Lemma refs_set (p : Pty) e n e' : refs (set_refs p e n) e' = (if decide (e' = e) then n else refs p e').
Proof. by destruct e, e'. Qed.

(** An end of a live entry counted anew; the entry is freed with its last one. *)
Lemma references_set (t : list Pty) h i e n (p' : Pty) :
  inv t -> handle_ok h -> find t h = Some i ->
  pgeneration p' = pgeneration (t !!! i) -> (forall e', refs p' e' = if decide (e' = e) then n else refs (t !!! i) e') ->
  (used p' = false -> masters p' = 0 /\ slaves p' = 0) ->
  forall h' e', handle_ok h' ->
    references (<[i := p']> t) h' e' = if decide (h' = h /\ e' = e) then n else references t h' e'.
Proof.
  intros Hinv Hh Hf Hg Hn Hfree h' e' Hh'.
  destruct (pty_find_live _ _ Htable t h i Hinv Hh Hf) as (Hok & Hu & Hgen & Hlt & Hi).
  rewrite -> (references_insert t h i (t !!! i)) by (done || congruence || by apply list_lookup_lookup_total_lt).
  destruct (decide (h' = h)) as [->|]; [|rewrite -> (decide_False (P := h' = h /\ _)) by naive_solver; done].
  rewrite -> Hn. unfold references. rw Hf. repeat case_decide; naive_solver.
Qed.

Lemma pty_retain_count (t : list Pty) h e : inv t -> handle_ok h ->
  let '(t', r) := retain TableCapacity t h e in
  inv t' /\
  (forall h' e', handle_ok h' ->
     references t' h' e' = references t h' e' + one (r = success /\ h' = h /\ e' = e)) /\
  (0 < references t h e < 65535 -> r = success).
Proof.
  intros Hinv Hh. pose proof (retain_inv _ _ Htable t h e Hinv Hh) as Hinv'. unfold retain in *.
  assert (references t h e = match find t h with None => 0 | Some i => refs (t !!! i) e end) as -> by done.
  destruct (find t h) as [i|] eqn:Hf; [|split_and!; [done|intros; simpl; lia|lia]].
  destruct (pty_find_live _ _ Htable t h i Hinv Hh Hf) as (Hok & Hu & _). pose proof (pty_refs_in_u _ _ e Hok) as Hr.
  destruct (refs (t !!! i) e =? 0) eqn:H0; [split_and!; [done|intros; simpl; lia|lia]|].
  destruct (refs (t !!! i) e =? 65535) eqn:H1; [split_and!; [done|intros; simpl; lia|lia]|].
  split_and!; [done| |done]. intros h' e' Hh'. rewrite -> wrap_small by word.
  rewrite -> (references_set t h i e (refs (t !!! i) e + 1)); [|done..| | | |done].
  - destruct (decide (h' = h /\ e' = e)) as [[-> ->]|]; [|rewrite -> decide_False by naive_solver; lia].
    rewrite -> decide_True by done. unfold references. by rw Hf.
  - by destruct e.
  - intros e2. apply refs_set.
  - destruct e; simpl; congruence.
Qed.

Lemma pty_release_count (t : list Pty) h e : inv t -> handle_ok h -> 0 < references t h e ->
  let t' := (release TableCapacity t h e).1 in
  inv t' /\
  (forall h' e', handle_ok h' -> references t' h' e' = references t h' e' - one (h' = h /\ e' = e)).
Proof.
  intros Hinv Hh Hpos t'. pose proof (release_inv _ _ Htable t h e Hinv Hh) as Hinv'. fold t' in Hinv'. split; [done|].
  unfold references in Hpos. destruct (find t h) as [i|] eqn:Hf; [|lia].
  destruct (pty_find_live _ _ Htable t h i Hinv Hh Hf) as (Hok & Hu & _). pose proof (pty_refs_in_u _ _ e Hok) as Hr.
  subst t'. unfold release. rw Hf. rewrite -> (proj2 (Z.eqb_neq (refs (t !!! i) e) 0)) by lia.
  rewrite -> wrap_small by word. cbn [fst]. set (p1 := set_refs (t !!! i) e (refs (t !!! i) e - 1)).
  assert (pgeneration p1 = pgeneration (t !!! i)) as Hg1 by by destruct e.
  assert (used p1 = true) as Hu1 by by destruct e.
  intros h' e' Hh'. rewrite -> (references_set t h i e (refs (t !!! i) e - 1)); [|done..| | | |done].
  - destruct (decide (h' = h /\ e' = e)) as [[-> ->]|]; [|lia]. unfold references. by rw Hf.
  - by case_match.
  - intros e2. rewrite <- refs_set. fold p1. destruct ((masters p1 =? 0) && (slaves p1 =? 0)) eqn:Hz; [|done].
    destruct e2; simpl; lia.
  - case_match; [done|congruence].
Qed.

Lemma pty_open_master_count (t : list Pty) : inv t ->
  let '(t', r) := open_master t in
  inv t' /\ (or_status r = success -> handle_ok (or_handle r)) /\
  (forall h' e', handle_ok h' -> references t' h' e' =
     references t h' e' + one (or_status r = success /\ h' = or_handle r /\ e' = master)).
Proof.
  intros Hinv. pose proof (open_master_inv _ _ t Hinv) as Hinv'. pose proof (inv_length _ _ t Hinv) as Hlen.
  unfold open_master in *. destruct (first_slot _ t) as [i|] eqn:Hf; [|by split_and!; [| |intros; simpl; lia]].
  apply first_slot_Some in Hf as (p & Hi & Hu%negb_true_iff & _).
  rewrite -> (list_lookup_total_correct _ _ _ Hi) in *. pose proof (lookup_lt_Some _ _ _ Hi) as Hlt.
  pose proof (inv_ptys _ _ t Hinv _ _ Hi) as Hok. destruct (ok_free _ _ Hok Hu) as (Hm & Hs & _).
  rewrite -> (wrap_small 8) in * by word.
  set (g := if u16 (pgeneration p + 1) =? 0 then 1 else u16 (pgeneration p + 1)) in *.
  assert (in_u 16 g) as Hg by (subst g; case_match; word).
  assert (handle_ok (mkHandle g (Z.of_nat i))) as Hh by (split; simpl; [done|word]).
  split_and!; [done|done|]. cbn [or_status or_handle]. intros h' e' Hh'.
  rewrite -> (references_insert t (mkHandle g (Z.of_nat i)) i p); try done; [|simpl; lia|congruence].
  destruct (decide (h' = mkHandle g (Z.of_nat i))) as [->|]; [|rewrite -> decide_False by naive_solver; lia].
  assert (references t (mkHandle g (Z.of_nat i)) e' = 0) as ->.
  { unfold references, PtyTable.find. cbn [slot generation]. rewrite -> Nat2Z.id, (list_lookup_total_correct _ _ _ Hi).
    rw Hu. by destruct (_ <=? _). }
  destruct e'; simpl; repeat case_decide; naive_solver lia.
Qed.

Lemma attach_slave_count (t : list Pty) i : inv t -> (i < length t)%nat -> used (t !!! i) = true ->
  let '(t', r) := attach_slave t i in
  inv t' /\ (or_status r = success -> handle_ok (or_handle r)) /\
  (forall h' e', handle_ok h' -> references t' h' e' =
     references t h' e' + one (or_status r = success /\ h' = or_handle r /\ e' = slave)).
Proof.
  intros Hinv Hi Hu. pose proof (attach_slave_inv _ _ Htable t i Hinv Hi Hu) as Hinv'. pose proof (inv_length _ _ t Hinv) as Hlen.
  unfold attach_slave in *. destruct (locked (t !!! i)); [by split_and!; [| |intros; simpl; lia]|].
  destruct (slaves (t !!! i) =? 65535) eqn:Hn; [by split_and!; [| |intros; simpl; lia]|].
  destruct (inv_lookup_total _ _ t i Hinv Hi) as [_ Hok]. pose proof (pty_refs_in_u _ _ slave Hok) as Hr. simpl in Hr.
  rewrite -> (wrap_small 8), (wrap_small 16) in * by word. set (h := mkHandle (pgeneration (t !!! i)) (Z.of_nat i)).
  assert (handle_ok h) as Hh by (split; simpl; [apply Hok|word]).
  assert (find t h = Some i) as Hf.
  { unfold PtyTable.find, h. cbn [slot generation]. rewrite -> (proj2 (Z.leb_gt TableCapacity (Z.of_nat i))) by word.
    rewrite -> Nat2Z.id. rw Hu Z.eqb_refl. done. }
  split_and!; [done|done|]. cbn [or_status or_handle]. intros h' e' Hh'.
  rewrite -> (references_set t h i slave (slaves (t !!! i) + 1)); [|done..| |simpl; congruence|done].
  - destruct (decide (h' = h /\ e' = slave)) as [[-> ->]|]; [|rewrite -> decide_False by naive_solver; lia].
    rewrite -> decide_True by done. unfold references. by rw Hf.
  - intros e2. by destruct e2.
Qed.

(** What opening a slave adds. *)
Definition opened_slave (t : list Pty) (out : list Pty * OpenResult) : Prop :=
  let '(t', r) := out in
  inv t' /\ (or_status r = success -> handle_ok (or_handle r)) /\
  (forall h' e', handle_ok h' -> references t' h' e' =
     references t h' e' + one (or_status r = success /\ h' = or_handle r /\ e' = slave)).

Lemma opened_slave_failed t s : inv t -> s <> success -> opened_slave t (t, open_result s no_handle).
Proof. intros Hinv Hs. split_and!; [done|done|]. intros h' e' _. cbn. rewrite -> decide_False by naive_solver. lia. Qed.

Lemma pty_open_slave_count (t : list Pty) n : inv t -> in_u 8 n -> opened_slave t (open_slave TableCapacity t n).
Proof.
  intros Hinv Hn. unfold open_slave. case_match eqn:Hc; [by apply opened_slave_failed|].
  apply orb_false_iff in Hc as [Hlt Hu%negb_false_iff]. pose proof (inv_length _ _ t Hinv) as Hlen.
  apply attach_slave_count; [done|word|done].
Qed.

Lemma pty_open_controlling_count (t : list Pty) s : inv t -> opened_slave t (open_controlling_slave t s).
Proof.
  intros Hinv. unfold open_controlling_slave. case_match; [by apply opened_slave_failed|].
  destruct (first_slot _ t) as [i|] eqn:Hf; [|by apply opened_slave_failed].
  apply first_slot_Some in Hf as (p & Hi & [Hu _]%andb_true_iff & _).
  apply attach_slave_count; [done|by eapply lookup_lt_Some|]. by rw (list_lookup_total_correct _ _ _ Hi).
Qed.

(** The operations that neither open nor close an end. *)
Definition counts (o : op) : bool :=
  match o with OOpenMaster | OOpenSlave _ | OOpenControlling _ | ORetain _ _ | ORelease _ _ => true | _ => false end.

Lemma references_keep (t : list Pty) h i p' : inv t -> handle_ok h -> find t h = Some i ->
  pgeneration p' = pgeneration (t !!! i) -> masters p' = masters (t !!! i) -> slaves p' = slaves (t !!! i) ->
  used p' = used (t !!! i) ->
  forall h' e', handle_ok h' -> references (<[i := p']> t) h' e' = references t h' e'.
Proof.
  intros Hinv Hh Hf Hg Hm Hs Hu h' e' Hh'. destruct (pty_find_live _ _ Htable t h i Hinv Hh Hf) as (_ & Hu' & _).
  rewrite -> (references_set t h i e' (refs (t !!! i) e')); [|done..| |congruence|done].
  - case_decide as E; [|done]. destruct E as [-> _]. unfold references. by rw Hf.
  - intros e2. assert (refs p' e2 = refs (t !!! i) e2) as -> by by destruct e2. case_decide as E; [by subst|done].
Qed.

Lemma pty_write_count (t : list Pty) h e input : inv t -> handle_ok h -> Z.of_nat (length input) < 2 ^ 32 ->
  forall h' e', handle_ok h' ->
    references (write TableCapacity t h e input (Z.of_nat (length input))).1 h' e' = references t h' e'.
Proof.
  intros Hinv Hh Hl h' e' Hh'. unfold write. destruct (find t h) as [i|] eqn:Hf; [|done].
  destruct (pty_find_live _ _ Htable t h i Hinv Hh Hf) as (Hok & _).
  destruct (refs (t !!! i) e =? 0); [done|]. destruct (Z.of_nat (length input) =? 0); [done|].
  destruct (peer_closed (t !!! i) e); [done|]. destruct e.
  - pose proof (master_loop_spec TableCapacity BufferCapacity Htable (take (Z.to_nat (Z.of_nat (length input))) input) (t !!! i) 0 0) as L.
    destruct (master_loop _ _ _ _) as [[p' consumed] generated].
    destruct L as (_ & _ & (_ & _ & _ & _ & Hg & Hm & Hs & _ & Hu & _) & _); [apply Hok..|lia|rewrite -> length_take; lia|].
    cbn [fst]. by apply (references_keep t h i).
  - destruct (slave_loop _ _ _ _) as [ring consumed]. by apply (references_keep t h i).
Qed.

Lemma pty_step_count (t : list Pty) o : inv t -> op_ok o -> counts o = false ->
  forall h' e', handle_ok h' -> references (step TableCapacity t o) h' e' = references t h' e'.
Proof.
  intros Hinv Ho Hc h' e' Hh'.
  destruct o as [|h ?|n|s|h e|h e|h e n|h e input|h pid g s force|h s|h s g|h v|h v|n m]; try done;
    cbn [step op_ok] in *.
  all: try (unfold set_locked, read, acquire_controlling_terminal, detach, set_foreground_group, set_termios, set_window;
    destruct (find t h) as [i|] eqn:Hf; [|done]; repeat (case_match; try done); cbn [fst];
    (apply (references_keep t h i); [done|naive_solver|done..|done])).
  - destruct Ho. by apply pty_write_count.
  - unfold set_mode. destruct (active TableCapacity t n) eqn:Ha; [|done]. apply andb_true_iff in Ha as [Hlt Hu].
    cbn [negb fst]. pose proof (inv_length _ _ t Hinv) as Hlen.
    destruct (inv_lookup_total _ _ t (Z.to_nat n) Hinv) as [_ Hok]; [word|].
    apply (references_keep t (mkHandle (pgeneration (t !!! Z.to_nat n)) n)); try done.
    + split; simpl; [apply Hok|word].
    + unfold PtyTable.find. cbn [slot generation]. rewrite -> (proj2 (Z.leb_gt TableCapacity n)) by lia.
      rw Hu Z.eqb_refl. done.
Qed.
End ptys.
End PtyCount.
