(* ===== verification/Descriptor.v ===== *)
(** * [kernel/syscall.cpp]: file descriptors

    A descriptor designates a node of a file system, the terminal, a socket or
    one end of a pipe or pseudo-terminal.  The kernel keeps one array of them
    for the running process and one for each process that is suspended; the
    ends that all these arrays name are what the reference counts of the pipes
    and pseudo-terminals count. *)

From S2P Require Import Prelude ByteQueue Pipe Pty Ethernet Timing Interface Socket Tcp Stack Filesystem Ext4 PseudoFs.
Local Open Scope Z_scope.

Module Descriptor.

(** ** Nodes and descriptors *)

Module Kind.
Inductive t := none | standard_input | standard_output | filesystem | pseudo | network_socket | pipe | pty.
#[global] Instance eq_dec : EqDecision t.
Proof. solve_decision. Defined.
End Kind.

Record Node := mkNode { kind : Kind.t; file : Ext4.Node; pseudo_node : PseudoFs.Node.node; pty_number : Z }.
#[global] Instance node_eta : Eta Node := fun n => mkNode (kind n) (file n) (pseudo_node n) (pty_number n).
(** The constructors of [Node]. *)
Definition node_of_kind (k : Kind.t) : Node := mkNode k Ext4.node_default PseudoFs.Node.none 0xff.
Definition node_none : Node := node_of_kind Kind.none.
Definition node_pty (number : Z) : Node := node_of_kind Kind.pty <| pty_number := number |>.
Definition node_file (f : Ext4.Node) : Node := node_of_kind Kind.filesystem <| file := f |>.
Definition node_pseudo (n : PseudoFs.Node.node) : Node := node_of_kind Kind.pseudo <| pseudo_node := n |>.
(** [node == Node::k], through the conversion to [Kind]. *)
Definition is_kind (n : Node) (k : Kind.t) : bool := bool_decide (kind n = k).

Record Descriptor := mkDescriptor {
  node : Node; offset : Z; flags : Z; socket : Socket.SocketHandle;
  pipe : PipeTable.PipeHandle; pipe_end : PipeTable.PipeEnd;
  pty : PtyTable.PtyHandle; pty_end : PtyTable.PtyEnd; path : list Z;
}.
#[global] Instance descriptor_eta : Eta Descriptor := fun d =>
  mkDescriptor (node d) (offset d) (flags d) (socket d) (pipe d) (pipe_end d) (pty d) (pty_end d) (path d).
(** [Descriptor{}]. *)
Definition descriptor_none : Descriptor :=
  mkDescriptor node_none 0 0 Socket.invalid_socket PipeTable.no_handle PipeTable.end_read
    PtyTable.no_handle PtyTable.master [].
#[global] Instance descriptor_inhabited : Inhabited Descriptor := populate descriptor_none.

(** The arrays [X_descriptors[13]] and [X_standard_redirects[3]] of one process. *)
Record Saved := mkSaved { descriptors : list Descriptor; standard_redirects : list Descriptor }.
#[global] Instance saved_eta : Eta Saved := fun s => mkSaved (descriptors s) (standard_redirects s).
Definition saved_none : Saved := mkSaved (replicate 13 descriptor_none) (replicate 3 descriptor_none).
#[global] Instance saved_inhabited : Inhabited Saved := populate saved_none.
Definition entries (s : Saved) : list Descriptor := descriptors s ++ standard_redirects s.

Definition pipe_capacity := 8.
Definition pty_capacity := 4.
Definition atomic_capacity := 4096.
Definition nested_ancestor_capacity := 32.

Section files.
Context {Q : Type} `{!ByteQueue Q}.
Context {W : Type} {machine : Machine W}.

(** What descriptors refer to: [pipes], [ptys] and the sockets of the stack. *)
Record Tables := mkTables {
  pipes : list (PipeTable.Pipe (Q := Q));
  ptys : list (PtyTable.Pty (Q := Q));
  network : Stack.BootstrapStack (W := W);
}.
#[global] Instance tables_eta : Eta Tables := fun t => mkTables (pipes t) (ptys t) (network t).

Definition retain_descriptor (t : Tables) (d : Descriptor) : Tables * bool :=
  match kind (node d) with
  | Kind.network_socket =>
      let '(n, r) := Stack.socket_retain (network t) (socket d) in
      (t <| network := n |>, bool_decide (r = Socket.Result.success))
  | Kind.pipe =>
      let '(p, r) := PipeTable.retain pipe_capacity (pipes t) (pipe d) (pipe_end d) in
      (t <| pipes := p |>, bool_decide (r = PipeTable.success))
  | Kind.pty =>
      let '(p, r) := PtyTable.retain pty_capacity (ptys t) (pty d) (pty_end d) in
      (t <| ptys := p |>, bool_decide (r = PtyTable.success))
  | _ => (t, true)
  end.

(** The descriptor itself is reset to [Descriptor{}]. *)
Definition release_descriptor (t : Tables) (d : Descriptor) : Tables :=
  match kind (node d) with
  | Kind.network_socket => t <| network ::= fun n => (Stack.socket_close n (socket d)).1 |>
  | Kind.pipe => t <| pipes ::= fun p => (PipeTable.release pipe_capacity p (pipe d) (pipe_end d)).1 |>
  | Kind.pty => t <| ptys ::= fun p => (PtyTable.release pty_capacity p (pty d) (pty_end d)).1 |>
  | _ => t
  end.

(** [for (auto& d : ds) release_descriptor(d)]. *)
Fixpoint release_all (t : Tables) (ds : list Descriptor) : Tables * list Descriptor :=
  match ds with
  | [] => (t, [])
  | d :: ds => let '(t, ds) := release_all (release_descriptor t d) ds in (t, descriptor_none :: ds)
  end.

(** The copying loop of [save_parent_descriptors]: the array it fills and how
    many entries it has retained when it stops. *)
Fixpoint retain_all (t : Tables) (from to : list Descriptor) : Tables * list Descriptor * nat :=
  match from, to with
  | d :: from, x :: to =>
      match retain_descriptor t d with
      | (t, true) => let '(t, to, n) := retain_all t from to in (t, d :: to, S n)
      | (t, false) => (t, x :: to, 0%nat)
      end
  | _, _ => (t, to, 0%nat)
  end.

(** ** The descriptors of the running and the suspended processes *)

Record Files := mkFiles {
  tables : Tables;
  active : Saved;
  parent : Saved;
  background : Saved;
  nested_ancestors : list Saved;
  interactive_child : Saved;
  interactive_parent : Saved;
}.
#[global] Instance files_eta : Eta Files := fun f =>
  mkFiles (tables f) (active f) (parent f) (background f) (nested_ancestors f) (interactive_child f)
    (interactive_parent f).

Definition release_saved (t : Tables) (s : Saved) : Tables * Saved :=
  let '(t, ds) := release_all t (descriptors s) in
  let '(t, rs) := release_all t (standard_redirects s) in
  (t, mkSaved ds rs).

Definition reset_descriptors (f : Files) : Files :=
  let '(t, s) := release_saved (tables f) (active f) in f <| tables := t |> <| active := s |>.

Definition discard_parent_descriptors (f : Files) : Files :=
  let '(t, s) := release_saved (tables f) (parent f) in f <| tables := t |> <| parent := s |>.

(** The first [n] entries released, the others as they are. *)
Definition release_first (t : Tables) (ds : list Descriptor) (n : nat) : Tables * list Descriptor :=
  let '(t, front) := release_all t (take n ds) in (t, front ++ drop n ds).

Definition save_parent_descriptors (f : Files) : Files * bool :=
  let '(t, s) := release_saved (tables f) (parent f) in
  let '(t, ds, copied) := retain_all t (descriptors (active f)) (descriptors s) in
  if negb (Nat.eqb copied 13) then
    let '(t, ds) := release_first t ds copied in
    (f <| tables := t |> <| parent := mkSaved ds (standard_redirects s) |>, false)
  else
    let '(t, rs, copied) := retain_all t (standard_redirects (active f)) (standard_redirects s) in
    if negb (Nat.eqb copied 3) then
      let '(t, ds) := release_all t ds in
      let '(t, rs) := release_first t rs copied in
      (f <| tables := t |> <| parent := mkSaved ds rs |>, false)
    else (f <| tables := t |> <| parent := mkSaved ds rs |>, true).

Definition restore_parent_descriptors (f : Files) : Files :=
  let f := reset_descriptors f in
  f <| active := parent f |> <| parent := saved_none |>.

(** The two moves; the caller stores the arrays they return through its
    pointers. *)
Definition move_active_descriptors (f : Files) : Files * Saved := (f <| active := saved_none |>, active f).
Definition move_saved_descriptors (f : Files) (saved : Saved) : Files * Saved :=
  let f := reset_descriptors f in (f <| active := saved |>, saved_none).

(** The descriptor halves of parking, stacking and their inverses. *)
Definition park_background_descriptors (f : Files) : Files :=
  let '(f, saved) := move_active_descriptors f in f <| background := saved |>.
Definition resume_background_descriptors (f : Files) : Files :=
  let '(f, saved) := move_saved_descriptors f (background f) in f <| background := saved |>.
Definition park_interactive_descriptors (f : Files) : Files :=
  let '(f, saved) := move_active_descriptors f in f <| interactive_child := saved |>.
Definition resume_interactive_descriptors (f : Files) : Files :=
  let '(f, saved) := move_saved_descriptors f (interactive_child f) in f <| interactive_child := saved |>.
Definition stack_descriptors (f : Files) (level : nat) : Files :=
  f <| nested_ancestors ::= <[level := parent f]> |> <| parent := saved_none |>.
Definition unstack_descriptors (f : Files) (level : nat) : Files :=
  f <| parent := nested_ancestors f !!! level |> <| nested_ancestors ::= <[level := saved_none]> |>.
(** [interactive_parent_descriptors[i] = parent_descriptors[i]] and back. *)
Definition relay_descriptors (f : Files) : Files :=
  f <| interactive_parent := parent f |> <| parent := saved_none |>.
Definition unrelay_descriptors (f : Files) : Files :=
  f <| parent := interactive_parent f |> <| interactive_parent := saved_none |>.

(** ** Which process owns a pseudo-terminal's master *)

Definition names_master (h : PtyTable.PtyHandle) (d : Descriptor) : bool :=
  is_kind (node d) Kind.pty && bool_decide (pty d = h) && bool_decide (pty_end d = PtyTable.master).
Definition owns_pty_master (s : Saved) (h : PtyTable.PtyHandle) : bool :=
  existsb (names_master h) (descriptors s) || existsb (names_master h) (standard_redirects s).
Definition parent_owns_pty_master (f : Files) (h : PtyTable.PtyHandle) : bool := owns_pty_master (parent f) h.
Definition nearest_ancestor_owns_pty_master (f : Files) (depth : Z) (h : PtyTable.PtyHandle) : bool :=
  if depth =? 0 then false
  else owns_pty_master (nested_ancestors f !!! Z.to_nat (depth - 1)) h.
End files.
#[global] Arguments Tables Q W : clear implicits.
#[global] Arguments Files Q W : clear implicits.
End Descriptor.
