(* ===== verification/DescriptorLaws.v ===== *)
(** * References and descriptors

    The kernel keeps the reference count of each end of each pipe and
    pseudo-terminal equal to the number of descriptors, of whatever process,
    that name it.  Here is what each operation on descriptors does to that
    balance; [DescriptorCounts] puts them together. *)

From S2P Require Import Prelude ByteQueue Pipe Pty Ethernet Timing Interface Socket Tcp Stack Filesystem Ext4 PseudoFs.
From S2P Require Import Counts Descriptor.
Import Descriptor.
Local Open Scope Z_scope.

Module DescriptorLaws.

(** An end that a descriptor can name. *)
Inductive End := pipe_of (h : PipeTable.PipeHandle) (e : PipeTable.PipeEnd)
               | pty_of (h : PtyTable.PtyHandle) (e : PtyTable.PtyEnd).
#[global] Instance end_eq_dec : EqDecision End.
Proof. solve_decision. Defined.

Definition end_ok (x : End) : Prop :=
  match x with pipe_of h _ => PipeTable.handle_ok h | pty_of h _ => PtyTable.handle_ok h end.

Definition names (d : Descriptor) : option End :=
  match kind (node d) with
  | Kind.pipe => Some (pipe_of (pipe d) (pipe_end d))
  | Kind.pty => Some (pty_of (pty d) (pty_end d))
  | _ => None
  end.
Definition named_ok (d : Descriptor) : Prop := forall x, names d = Some x -> end_ok x.

(** How many descriptors of a list name an end. *)
Definition weight (d : Descriptor) (x : End) : Z := one (names d = Some x).
Definition weights (l : list Descriptor) (x : End) : Z := foldr (fun d n => weight d x + n) 0 l.
Definition tally (s : Saved) (x : End) : Z := weights (descriptors s) x + weights (standard_redirects s) x.
Definition tallies (l : list Saved) (x : End) : Z := foldr (fun s n => tally s x + n) 0 l.

Record saved_ok (s : Saved) : Prop := {
  saved_descriptors : length (descriptors s) = 13%nat;
  saved_redirects : length (standard_redirects s) = 3%nat;
  saved_named : Forall named_ok (descriptors s);
  saved_redirects_named : Forall named_ok (standard_redirects s);
}.

Lemma weight_range d x : 0 <= weight d x <= 1.
Proof. unfold weight. case_decide; lia. Qed.

Lemma weights_cons d l x : weights (d :: l) x = weight d x + weights l x.
Proof. done. Qed.

Lemma weights_app l1 l2 x : weights (l1 ++ l2) x = weights l1 x + weights l2 x.
Proof. induction l1 as [|d l1 IH]; simpl; [done|]. rw IH. lia. Qed.

Lemma weights_nonneg l x : 0 <= weights l x.
Proof. induction l as [|d l IH]; simpl; [done|]. pose proof (weight_range d x). lia. Qed.

Lemma weights_bound l x : weights l x <= Z.of_nat (length l).
Proof. induction l as [|d l IH]; simpl; [done|]. pose proof (weight_range d x). lia. Qed.

Lemma weights_none n x : weights (replicate n descriptor_none) x = 0.
Proof. induction n as [|n IH]; simpl; [done|]. rw IH. done. Qed.

Lemma weights_insert l i d x :
  (i < length l)%nat -> weights (<[i := d]> l) x = weights l x - weight (l !!! i) x + weight d x.
Proof.
  revert i. induction l as [|a l IH]; intros [|i] Hi; simpl in *; [lia..| |]; [lia|]. rw IH; lia.
Qed.

Lemma weights_lookup l i d x : l !! i = Some d -> weight d x <= weights l x.
Proof.
  revert i. induction l as [|a l IH]; intros [|i]; simpl; [done..| |].
  - intros [= <-]. pose proof (weights_nonneg l x). lia.
  - intros Hi. specialize (IH i Hi). pose proof (weight_range a x). lia.
Qed.

Lemma weights_take_drop n l x : weights l x = weights (take n l) x + weights (drop n l) x.
Proof. by rewrite <- weights_app, take_drop. Qed.

Lemma tally_none x : tally saved_none x = 0.
Proof. reflexivity. Qed.

Lemma tally_nonneg s x : 0 <= tally s x.
Proof. unfold tally. pose proof (weights_nonneg (descriptors s) x). pose proof (weights_nonneg (standard_redirects s) x). lia. Qed.

Lemma tally_bound s x : saved_ok s -> tally s x <= 16.
Proof.
  intros [H1 H2 _ _]. unfold tally. pose proof (weights_bound (descriptors s) x).
  pose proof (weights_bound (standard_redirects s) x). lia.
Qed.

Lemma tallies_nonneg l x : 0 <= tallies l x.
Proof. induction l as [|s l IH]; simpl; [done|]. pose proof (tally_nonneg s x). lia. Qed.

Lemma tallies_bound l x : Forall saved_ok l -> tallies l x <= 16 * Z.of_nat (length l).
Proof.
  induction 1 as [|s l Hs Hl IH]; [done|]. cbn [tallies foldr length]. fold (tallies l x).
  pose proof (tally_bound s x Hs). lia.
Qed.

Lemma tallies_insert l i s x :
  (i < length l)%nat -> tallies (<[i := s]> l) x = tallies l x - tally (l !!! i) x + tally s x.
Proof.
  revert i. induction l as [|a l IH]; intros [|i] Hi; simpl in *; [lia..| |]; [lia|]. rw IH; lia.
Qed.

Lemma tallies_none n x : tallies (replicate n saved_none) x = 0.
Proof. induction n as [|n IH]; simpl; [done|]. rw IH. done. Qed.

Lemma named_none : named_ok descriptor_none.
Proof. by intros x. Qed.

Lemma saved_none_ok : saved_ok saved_none.
Proof. split; [done..| |]; apply Forall_replicate, named_none. Qed.

(** ** Balanced tables *)

Section tables.
Context {Q : Type} `{!ByteQueue Q} `{!ByteQueueLaws Q 4096}.
Context {W : Type} {machine : Machine W}.
Abbreviation Tables := (Tables Q W).

Lemma pipe_table : 0 < pipe_capacity <= 255.
Proof. unfold pipe_capacity. lia. Qed.
Lemma pty_table : 0 < pty_capacity <= 255.
Proof. unfold pty_capacity. lia. Qed.

Definition references (t : Tables) (x : End) : Z :=
  match x with
  | pipe_of h e => PipeTable.references pipe_capacity (pipes t) h e
  | pty_of h e => PtyCount.references pty_capacity (ptys t) h e
  end.

(** The tables are valid and every end has the number of references [c] says. *)
Record balanced (t : Tables) (c : End -> Z) : Prop := {
  balanced_pipes : PipeTable.inv pipe_capacity 4096 (pipes t);
  balanced_ptys : PtyTable.inv pty_capacity 4096 (ptys t);
  balanced_count x : end_ok x -> references t x = c x;
}.

Lemma balanced_ext t c c' : balanced t c -> (forall x, c' x = c x) -> balanced t c'.
Proof. intros [H1 H2 H3] E. split; [done..|]. intros x Hx. by rewrite -> E, H3. Qed.

Lemma balanced_network t c n : balanced t c -> balanced (t <| network := n |>) c.
Proof. by intros [H1 H2 H3]. Qed.

Lemma retain_balanced t c d : balanced t c -> named_ok d ->
  let '(t', ok) := retain_descriptor t d in
  balanced t' (fun x => if ok then c x + weight d x else c x) /\
  (forall x, names d = Some x -> 0 < c x < 65535 -> ok = true).
Proof.
  intros [Hpi Hpt Hc] Hd. unfold retain_descriptor, weight, named_ok in *. destruct d as [[k ? ? ?] ? ? ? h e h' e' ?].
  destruct k; cbn [kind node names pipe pipe_end pty pty_end] in *;
    try (split; [split; [done..|intros x Hx; cbv beta; rewrite -> Hc by done; case_decide; [done|lia]]|done]).
  - destruct (Stack.socket_retain (network t) _) as [n r]. split; [|done]. split; [done..|].
    intros x Hx. specialize (Hc x Hx). destruct x; cbn in *; rw Hc; destruct (bool_decide _); try case_decide; done || lia.
  - specialize (Hd _ eq_refl). pose proof (PipeCount.pipe_retain_count _ pipe_table _ h e Hpi Hd) as L.
    destruct (PipeTable.retain _ (pipes t) _ _) as [p r]. destruct L as (Hpi' & Hcount & Hok). split.
    + split; [done..|]. intros [h2 e2|h2 e2] Hx.
      * specialize (Hc _ Hx). simpl in *. rewrite -> Hcount, Hc by done. case_bool_decide; repeat case_decide; naive_solver lia.
      * specialize (Hc _ Hx). simpl in *. rewrite -> Hc. case_bool_decide; repeat case_decide; naive_solver lia.
    + intros x [= <-] Hr. apply bool_decide_eq_true_2, Hok. specialize (Hc (pipe_of h e) Hd). simpl in Hc. lia.
  - specialize (Hd _ eq_refl). pose proof (PtyCount.pty_retain_count _ pty_table _ h' e' Hpt Hd) as L.
    destruct (PtyTable.retain _ (ptys t) _ _) as [p r]. destruct L as (Hpt' & Hcount & Hok). split.
    + split; [done..|]. intros [h2 e2|h2 e2] Hx.
      * specialize (Hc _ Hx). simpl in *. rewrite -> Hc. case_bool_decide; repeat case_decide; naive_solver lia.
      * specialize (Hc _ Hx). simpl in *. rewrite -> Hcount, Hc by done. case_bool_decide; repeat case_decide; naive_solver lia.
    + intros x [= <-] Hr. apply bool_decide_eq_true_2, Hok. specialize (Hc (pty_of h' e') Hd). simpl in Hc. lia.
Qed.

Lemma release_balanced t c d : balanced t c -> named_ok d -> (forall x, names d = Some x -> 0 < c x) ->
  balanced (release_descriptor t d) (fun x => c x - weight d x).
Proof.
  intros [Hpi Hpt Hc] Hd Hpos. unfold release_descriptor, weight, named_ok in *.
  destruct d as [[k ? ? ?] ? ? ? h e h' e' ?].
  destruct k; cbn [kind node names pipe pipe_end pty pty_end] in *;
    try (split; [done..|intros x Hx; specialize (Hc x Hx); destruct x; cbn in *; rw Hc; case_decide; done || lia]).
  - specialize (Hd _ eq_refl). specialize (Hpos _ eq_refl). pose proof (Hc _ Hd) as Hh. simpl in Hh.
    destruct (PipeCount.pipe_release_count _ pipe_table _ h e Hpi Hd) as [Hpi' Hcount]; [lia|].
    split; [done..|]. intros [h2 e2|h2 e2] Hx; specialize (Hc _ Hx); simpl in *.
    + rewrite -> Hcount, Hc by done. repeat case_decide; naive_solver lia.
    + rewrite -> Hc. repeat case_decide; naive_solver lia.
  - specialize (Hd _ eq_refl). specialize (Hpos _ eq_refl). pose proof (Hc _ Hd) as Hh. simpl in Hh.
    destruct (PtyCount.pty_release_count _ pty_table _ h' e' Hpt Hd) as [Hpt' Hcount]; [lia|].
    split; [done..|]. intros [h2 e2|h2 e2] Hx; specialize (Hc _ Hx); simpl in *.
    + rewrite -> Hc. repeat case_decide; naive_solver lia.
    + rewrite -> Hcount, Hc by done. repeat case_decide; naive_solver lia.
Qed.

(** ** Whole arrays *)

Lemma release_all_balanced ds : forall t c,
  (forall x, 0 <= c x) -> Forall named_ok ds -> balanced t (fun x => weights ds x + c x) ->
  let '(t', ds') := release_all t ds in balanced t' c /\ ds' = replicate (length ds) descriptor_none.
Proof.
  induction ds as [|d ds IH]; intros t c Hc Hok Hb; cbn [release_all].
  { split; [by eapply balanced_ext|done]. }
  apply Forall_cons in Hok as [Hd Hok].
  assert (balanced (release_descriptor t d) (fun x => weights ds x + c x)) as Hb1.
  { eapply balanced_ext; [apply (release_balanced t _ d Hb Hd)|].
    - intros x Hx. cbv beta. rewrite -> weights_cons. unfold weight at 1. rewrite -> decide_True by done. pose proof (weights_nonneg ds x). specialize (Hc x). lia.
    - intros x. cbv beta. rewrite -> weights_cons. lia. }
  specialize (IH _ c Hc Hok Hb1). destruct (release_all _ ds) as [t' ds']. destruct IH as [Hb' ->]. done.
Qed.

Lemma retain_all_balanced from : forall to t c,
  length to = length from -> Forall named_ok from -> balanced t c ->
  let '(t', to', n) := retain_all t from to in
  to' = take n from ++ drop n to /\ (n <= length from)%nat /\
  balanced t' (fun x => weights (take n from) x + c x).
Proof.
  induction from as [|d from IH]; intros to t c Hl Hok Hb; destruct to as [|a to]; try done; cbn [retain_all].
  apply Forall_cons in Hok as [Hd Hok]. pose proof (retain_balanced t c d Hb Hd) as L.
  destruct (retain_descriptor t d) as [t1 [|]]; destruct L as [Hb1 _].
  - specialize (IH to t1 _ ltac:(simpl in Hl; lia) Hok Hb1). destruct (retain_all t1 from to) as [[t' to'] n].
    destruct IH as (-> & Hn & Hb'). split; [done|]. split; [simpl; lia|]. eapply balanced_ext; [exact Hb'|].
    intros x. cbn [take]. cbv beta. rewrite -> weights_cons. lia.
  - split; [done|]. split; [simpl; lia|]. by eapply balanced_ext.
Qed.

Lemma release_saved_balanced t s c :
  (forall x, 0 <= c x) -> saved_ok s -> balanced t (fun x => tally s x + c x) ->
  let '(t', s') := release_saved t s in balanced t' c /\ s' = saved_none.
Proof.
  intros Hc [H1 H2 H3 H4] Hb. unfold release_saved.
  pose proof (release_all_balanced (descriptors s) t (fun x => weights (standard_redirects s) x + c x)) as L.
  destruct (release_all t _) as [t1 ds]. destruct L as [Hb1 ->]; [|done|eapply balanced_ext; [exact Hb|]|].
  { intros x. pose proof (weights_nonneg (standard_redirects s) x). specialize (Hc x). lia. }
  { intros x. unfold tally. lia. }
  pose proof (release_all_balanced (standard_redirects s) t1 c Hc H4 Hb1) as L.
  destruct (release_all t1 _) as [t2 rs]. destruct L as [Hb2 ->]. split; [done|]. by rw H1 H2.
Qed.

(** Undoing the first [n] copies. *)
Lemma release_first_balanced t from n c :
  (forall x, 0 <= c x) -> Forall named_ok from -> (n <= length from)%nat ->
  balanced t (fun x => weights (take n from) x + c x) ->
  let '(t', ds) := release_first t (take n from ++ drop n (replicate (length from) descriptor_none)) n in
  balanced t' c /\ ds = replicate (length from) descriptor_none.
Proof.
  intros Hc Hok Hn Hb. unfold release_first. assert (length (take n from) = n) as Hl by (rw length_take; lia).
  rewrite -> (take_app_length' (take n from)), (drop_app_length' (take n from)) by done.
  pose proof (release_all_balanced (take n from) t c Hc ltac:(by apply Forall_take) Hb) as L.
  destruct (release_all t _) as [t' ds]. destruct L as [Hb' ->]. split; [done|].
  rewrite -> Hl, drop_replicate, <- replicate_add. f_equal. lia.
Qed.
End tables.
End DescriptorLaws.
