(* ===== verification/FileCalls.v ===== *)
(** * [kernel/syscall.cpp]: the system calls on descriptors

    Closing, duplicating and creating descriptors, and the socket calls.  A
    [Descriptor*] is the number of the descriptor it points to; an [i32] result
    is the integer, negative for an error.  The calls that block are in
    [Blocking]: here are the attempts their loops make. *)

From stdpp Require Import strings.
From S2P Require Import Prelude ByteQueue Pipe Pty Ethernet Timing Interface Socket Tcp Stack Filesystem Ext4 PseudoFs.
From S2P Require Import Base Abi Memory Path Descriptor.
Import Descriptor Memory.
Local Open Scope Z_scope.

Module FileCalls.
Import Abi.Errno.

Definition nonblock := 0x800.
Definition cloexec := 0x80000.

Section calls.
Context {Q : Type} `{!ByteQueue Q}.
Context {W : Type} {machine : Machine W}.

Abbreviation Files := (Files Q W).

(** ** Slots *)

(** [descriptors[descriptor - 3]]. *)
Definition at_slot (f : Files) (descriptor : Z) : Descriptor :=
  descriptors (active f) !!! Z.to_nat (descriptor - 3).
Definition redirect (f : Files) (descriptor : Z) : Descriptor :=
  standard_redirects (active f) !!! Z.to_nat descriptor.
Definition set_slot (descriptor : Z) (d : Descriptor) (f : Files) : Files :=
  f <| active ::= fun s => s <| descriptors ::= <[Z.to_nat (descriptor - 3) := d]> |> |>.
Definition set_redirect (descriptor : Z) (d : Descriptor) (f : Files) : Files :=
  f <| active ::= fun s => s <| standard_redirects ::= <[Z.to_nat descriptor := d]> |> |>.

Definition is_none (d : Descriptor) : bool := is_kind (node d) Kind.none.

Definition descriptor_slot (f : Files) (descriptor : Z) : option Descriptor :=
  if descriptor <? 3
  then if is_none (redirect f descriptor) then None else Some (redirect f descriptor)
  else if descriptor <? 16 then Some (at_slot f descriptor) else None.

(** [*slot = d] through a pointer that [descriptor_slot] returned. *)
Definition set_descriptor (descriptor : Z) (d : Descriptor) (f : Files) : Files :=
  if descriptor <? 3 then set_redirect descriptor d f else set_slot descriptor d f.

Definition descriptor_open (f : Files) (descriptor : Z) : bool :=
  (descriptor <? 3) || ((descriptor <? 16) && negb (is_none (at_slot f descriptor))).

(** The first free number of [from..15]; 16 when there is none. *)
Definition free_from (f : Files) (from : Z) : Z :=
  match first_slot is_none (drop (Z.to_nat (from - 3)) (descriptors (active f))) with
  | Some i => from + Z.of_nat i
  | None => 16
  end.

Definition directory (n : Node) : bool :=
  (is_kind n Kind.filesystem && Ext4.directory (file n)) ||
  (is_kind n Kind.pseudo && PseudoFs.directory (pseudo_node n)).

(** ** Readiness *)

Definition descriptor_read_ready (uart_ready : bool) (f : Files) (descriptor : Z) : bool :=
  if (descriptor =? 0) && is_none (redirect f 0) then uart_ready else
  match descriptor_slot f descriptor with
  | None => false
  | Some slot =>
      match kind (node slot) with
      | Kind.network_socket => Stack.socket_readable (network (tables f)) (socket slot)
      | Kind.pipe => bool_decide (pipe_end slot = PipeTable.end_read) &&
                     PipeTable.readable pipe_capacity (pipes (tables f)) (pipe slot)
      | Kind.pty => PtyTable.readable pty_capacity (ptys (tables f)) (pty slot) (pty_end slot)
      | Kind.standard_input => uart_ready
      | Kind.filesystem | Kind.pseudo => negb (directory (node slot))
      | Kind.none | Kind.standard_output => false
      end
  end.

Definition descriptor_write_ready (f : Files) (descriptor : Z) : bool :=
  if ((descriptor =? 1) || (descriptor =? 2)) && is_none (redirect f descriptor) then true else
  match descriptor_slot f descriptor with
  | None => false
  | Some slot =>
      match kind (node slot) with
      | Kind.network_socket => Stack.socket_writable (network (tables f)) (socket slot)
      | Kind.pipe => bool_decide (pipe_end slot = PipeTable.end_write) &&
                     PipeTable.writable pipe_capacity (pipes (tables f)) (pipe slot)
      | Kind.pty => PtyTable.writable pty_capacity (ptys (tables f)) (pty slot) (pty_end slot)
      | Kind.standard_output => true
      | Kind.filesystem => negb (directory (node slot)) && negb (Z.land (flags slot) 3 =? 0)
      | Kind.none | Kind.standard_input | Kind.pseudo => false
      end
  end.

Definition descriptor_error_ready (f : Files) (descriptor : Z) : bool :=
  match descriptor_slot f descriptor with
  | None => false
  | Some slot =>
      match kind (node slot) with
      | Kind.pipe => PipeTable.hung_up pipe_capacity (pipes (tables f)) (pipe slot) (pipe_end slot)
      | Kind.network_socket =>
          match Socket.slot (Stack.sockets (network (tables f))) (socket slot) with
          | Some s => bool_decide (Socket.state s = Socket.State.reset)
          | None => false
          end
      | _ => false
      end
  end.

(** ** Closing, duplicating, creating *)

Definition close (f : Files) (descriptor : Z) : Files * Z :=
  if descriptor <? 3 then
    (set_redirect descriptor descriptor_none
       (f <| tables ::= fun t => release_descriptor t (redirect f descriptor) |>), 0)
  else if (16 <=? descriptor) || is_none (at_slot f descriptor) then (f, Abi.error bad_file_descriptor)
  else (set_slot descriptor descriptor_none
          (f <| tables ::= fun t => release_descriptor t (at_slot f descriptor) |>), 0).

(** The descriptor [duplicate_to] copies: the terminal for 0, 1 and 2. *)
Definition duplicate_source (f : Files) (old_descriptor : Z) : option Descriptor :=
  if old_descriptor =? 0 then Some (descriptor_none <| node := node_of_kind Kind.standard_input |>)
  else if (old_descriptor =? 1) || (old_descriptor =? 2)
  then Some (descriptor_none <| node := node_of_kind Kind.standard_output |>)
  else if is_none (at_slot f old_descriptor) then None else Some (at_slot f old_descriptor).

(** Both branches of [duplicate_to] retain the copy, release what the new number
    named and store. *)
Definition duplicate_to (f : Files) (old_descriptor new_descriptor flags : Z) : Files * Z :=
  if negb (flags =? 0) || (16 <=? old_descriptor) || (16 <=? new_descriptor) || (old_descriptor =? new_descriptor)
  then (f, Abi.error invalid_argument) else
  match duplicate_source f old_descriptor with
  | None => (f, Abi.error bad_file_descriptor)
  | Some source =>
      match retain_descriptor (tables f) source with
      | (t, false) => (f <| tables := t |>, Abi.error bad_file_descriptor)
      | (t, true) =>
          let f := f <| tables := t |> in
          if new_descriptor <? 3 then
            (set_redirect new_descriptor source
               (f <| tables ::= fun t => release_descriptor t (redirect f new_descriptor) |>), new_descriptor)
          else
            (set_slot new_descriptor source
               (f <| tables ::= fun t => release_descriptor t (at_slot f new_descriptor) |>), new_descriptor)
      end
  end.

Definition fcntl (f : Files) (descriptor command argument : Z) : Files * Z :=
  if (command =? 1) || (command =? 2) then
    (f, if descriptor_open f descriptor then 0 else Abi.error bad_file_descriptor)
  else if command =? 3 then
    (f, if descriptor <? 3 then (if descriptor =? 0 then 0 else 1)
        else if (descriptor <? 16) && negb (is_none (at_slot f descriptor))
        then i32 (flags (at_slot f descriptor)) else Abi.error bad_file_descriptor)
  else if command =? 4 then
    if descriptor <? 3 then (f, 0) else
    if (16 <=? descriptor) || is_none (at_slot f descriptor) then (f, Abi.error bad_file_descriptor)
    else (set_slot descriptor (at_slot f descriptor <| flags := argument |>) f, 0)
  else if negb (command =? 0) && negb (command =? 1030) then (f, Abi.error invalid_argument)
  else if negb (descriptor_open f descriptor) then (f, Abi.error bad_file_descriptor)
  else
    let target := if argument <? 3 then 3 else argument in
    let target := if target <? 16 then free_from f target else 16 in
    if target <? 16 then duplicate_to f descriptor target 0 else (f, Abi.error no_memory).

(** [lseek] sets the offset to its argument, whatever the origin asked for. *)
Definition lseek (f : Files) (descriptor offset_ : Z) : Files * Z :=
  if (descriptor <? 3) || (16 <=? descriptor) || is_none (at_slot f descriptor)
  then (f, Abi.error bad_file_descriptor)
  else (set_slot descriptor (at_slot f descriptor <| offset := offset_ |>) f, i32 offset_).

(** A free slot given a new content: [slot.node = ...; slot.flags = ...]. *)
Definition fill (descriptor : Z) (g : Descriptor -> Descriptor) (f : Files) : Files :=
  set_slot descriptor (g (at_slot f descriptor)) f.

Definition pipe_descriptor (flags_ : Z) (handle : PipeTable.PipeHandle) (e : PipeTable.PipeEnd) (d : Descriptor) : Descriptor :=
  d <| node := node_of_kind Kind.pipe |> <| flags := flags_ |> <| pipe := handle |> <| pipe_end := e |>.

Definition pipe2 (f : Files) (m : Memory) (address flags_ : Z) : Files * Memory * Z :=
  if negb (Z.land flags_ (u32 (Z.lnot (Z.lor nonblock cloexec))) =? 0) then (f, m, Abi.error invalid_argument)
  else if negb (contains address 8) || negb (aligned address 4) then (f, m, Abi.error bad_address)
  else
    let first := free_from f 3 in
    let second := if first <? 15 then free_from f (first + 1) else 16 in
    if 16 <=? second then (f, m, Abi.error no_memory) else
    let '(p, created) := PipeTable.create (pipes (tables f)) in
    let f := f <| tables ::= fun t => t <| pipes := p |> |> in
    if negb (bool_decide (PipeTable.cr_status created = PipeTable.success)) then (f, m, Abi.error no_memory) else
    let handle := PipeTable.cr_handle created in
    let f := fill second (pipe_descriptor flags_ handle PipeTable.end_write)
      (fill first (pipe_descriptor flags_ handle PipeTable.end_read) f) in
    (f, store_u32 (address + 4) second (store_u32 address first m), 0).

(** ** Pseudo-terminals: the branch of [openat] for their paths *)

Definition dev_ptmx : list Z := PseudoFs.text "/dev/ptmx".
Definition dev_tty : list Z := PseudoFs.text "/dev/tty".
Definition dev_pts : list Z := PseudoFs.text "/dev/pts/".

(** Whether the path is one of them; then the table call it makes and the end it
    opens. *)
Definition pty_target (canonical : list Z) (session : Z)
    : option ((list (PtyTable.Pty (Q := Q)) -> list (PtyTable.Pty (Q := Q)) * PtyTable.OpenResult) * PtyTable.PtyEnd) :=
  if bool_decide (canonical = dev_tty)
  then Some (fun p => PtyTable.open_controlling_slave p session, PtyTable.slave)
  else if bool_decide (canonical = dev_ptmx) then Some (PtyTable.open_master, PtyTable.master)
  else
    let number := Path.numbered_suffix (Some canonical) (Some dev_pts) 4 in
    if number =? Path.invalid_number then None
    else Some (fun p => PtyTable.open_slave pty_capacity p (u8 number), PtyTable.slave).

Definition open_pty (f : Files) (canonical : list Z) (flags_ : Z)
    (open : list (PtyTable.Pty (Q := Q)) -> list (PtyTable.Pty (Q := Q)) * PtyTable.OpenResult)
    (e : PtyTable.PtyEnd) : Files * Z :=
  let descriptor := free_from f 3 in
  if descriptor =? 16 then (f, Abi.error no_memory) else
  let '(p, opened) := open (ptys (tables f)) in
  let f := f <| tables ::= fun t => t <| ptys := p |> |> in
  match PtyTable.or_status opened with
  | PtyTable.success =>
      (fill descriptor (fun d => d <| node := node_of_kind Kind.pty |> <| flags := flags_ |>
         <| pty := PtyTable.or_handle opened |> <| pty_end := e |> <| path := canonical |>) f, descriptor)
  | PtyTable.no_space => (f, Abi.error no_memory)
  | PtyTable.locked_status => (f, Abi.error access_denied)
  | _ => (f, Abi.error no_entry)
  end.

(** The tail of [openat]: a descriptor for a file or a virtual file. *)
Definition open_node (f : Files) (n : Node) (canonical : list Z) (flags_ size : Z) : Files * Z :=
  let descriptor := free_from f 3 in
  if descriptor =? 16 then (f, Abi.error no_memory) else
  (fill descriptor (fun d => d <| node := n |>
     <| offset := if negb (Z.land flags_ 0x400 =? 0) then size else 0 |>
     <| flags := Z.land flags_ (Z.lor 3 0x400) |> <| path := canonical |>) f, descriptor).

(** ** Sockets *)

Definition socket_error (result : Socket.Result.SocketResult) : Z :=
  match result with
  | Socket.Result.success | Socket.Result.end_of_file => 0
  | Socket.Result.bad_handle => Abi.error bad_file_descriptor
  | Socket.Result.wrong_type => Abi.error operation_not_supported
  | Socket.Result.invalid_argument => Abi.error invalid_argument
  | Socket.Result.address_in_use => Abi.error address_in_use
  | Socket.Result.not_bound | Socket.Result.not_listening => Abi.error invalid_argument
  | Socket.Result.would_block => Abi.error try_again
  | Socket.Result.not_connected => Abi.error not_connected
  | Socket.Result.no_space => Abi.error no_memory
  | Socket.Result.reset => Abi.error io
  | Socket.Result.timed_out => Abi.error timed_out
  end.

Definition with_network (f : Files) (n : Stack.BootstrapStack (W := W)) : Files :=
  f <| tables ::= fun t => t <| network := n |> |>.
(** A call of the stack on behalf of a descriptor. *)
Definition on_network {A} (f : Files) (call : Stack.BootstrapStack (W := W) -> Stack.BootstrapStack (W := W) * A) : Files * A :=
  let '(n, r) := call (network (tables f)) in (with_network f n, r).

Definition socket_descriptor (flags_ : Z) (handle : Socket.SocketHandle) (d : Descriptor) : Descriptor :=
  d <| node := node_of_kind Kind.network_socket |> <| flags := flags_ |> <| Descriptor.socket := handle |>.

Definition socket (f : Files) (domain type protocol : Z) : Files * Z :=
  match SocketAbi.validate domain type protocol with
  | SocketAbi.address_family_not_supported => (f, Abi.error address_family_not_supported)
  | SocketAbi.socket_type_not_supported => (f, Abi.error operation_not_supported)
  | SocketAbi.protocol_not_supported => (f, Abi.error protocol_not_supported)
  | SocketAbi.success =>
      let '(f, opened) := on_network f (fun n => Stack.socket_open n (SocketAbi.type type)) in
      if negb (bool_decide (Socket.open_result opened = Socket.Result.success)) then (f, Abi.error no_memory) else
      let descriptor := free_from f 3 in
      if descriptor <? 16
      then (fill descriptor (socket_descriptor (Z.land type SocketAbi.sock_nonblock) (Socket.open_handle opened)) f, descriptor)
      else
        let '(f, _) := on_network f (fun n => Stack.socket_close n (Socket.open_handle opened)) in
        (f, Abi.error no_memory)
  end.

Definition network_descriptor (f : Files) (descriptor : Z) : option Descriptor :=
  match descriptor_slot f descriptor with
  | Some value => if is_kind (node value) Kind.network_socket then Some value else None
  | None => None
  end.

(** [SockaddrIn] is its sixteen bytes. *)
Definition read_sockaddr (m : Memory) (address size : Z) : option Socket.Endpoint :=
  if (size <? 16) || negb (contains address 16) then None else
  let value := load m address 16 in
  if negb (Fs.little_u16 value 0 =? SocketAbi.af_inet) then None
  else Some (Socket.mkEndpoint (Ethernet.mkIpv4 (slice value 4 4)) (Ethernet.net16 (Fs.little_u16 value 2))).

Definition encode_sockaddr (endpoint : Socket.Endpoint) : list Z :=
  Fs.bytes16 SocketAbi.af_inet ++ Fs.bytes16 (Ethernet.net16 (Socket.port endpoint)) ++
  Ethernet.ip_octet (Socket.endpoint_address endpoint) ++ replicate 8 0.

Definition sockaddr_output_valid (address length_address : Z) : bool :=
  if address =? 0 then true
  else negb (length_address =? 0) && contains length_address 4 && contains address 16.

Definition write_sockaddr (m : Memory) (endpoint : Socket.Endpoint) (address length_address : Z) : Memory * Z :=
  if address =? 0 then (m, 0) else
  if negb (sockaddr_output_valid address length_address) then (m, Abi.error bad_address) else
  if load_u32 m length_address <? 16 then (m, Abi.error invalid_argument) else
  (store_u32 length_address 16 (store address (encode_sockaddr endpoint) m), 0).

Definition bind (f : Files) (m : Memory) (descriptor address size : Z) : Files * Z :=
  match network_descriptor f descriptor with
  | None => (f, Abi.error bad_file_descriptor)
  | Some slot =>
      match read_sockaddr m address size with
      | None => (f, Abi.error invalid_argument)
      | Some endpoint =>
          let '(f, result) := on_network f (fun n => Stack.socket_bind n (Descriptor.socket slot) endpoint) in
          (f, socket_error result)
      end
  end.

Definition listen (f : Files) (descriptor backlog : Z) : Files * Z :=
  match network_descriptor f descriptor with
  | None => (f, Abi.error bad_file_descriptor)
  | Some slot =>
      let '(f, result) := on_network f (fun n => Stack.socket_listen n (Descriptor.socket slot) backlog) in
      (f, socket_error result)
  end.

(** The checks of [accept] before its loop: the listening descriptor and the
    number of the new one. *)
Definition accept_check (f : Files) (descriptor address length_address flags_ : Z) : Descriptor * Z + Z :=
  if negb (Z.land flags_ (u32 (Z.lnot (Z.lor SocketAbi.sock_nonblock SocketAbi.sock_cloexec))) =? 0)
  then inr (Abi.error invalid_argument) else
  match network_descriptor f descriptor with
  | None => inr (Abi.error bad_file_descriptor)
  | Some listening =>
      if negb (sockaddr_output_valid address length_address) then inr (Abi.error bad_address) else
      let accepted := free_from f 3 in
      if accepted =? 16 then inr (Abi.error no_memory) else inl (listening, accepted)
  end.

(** What follows the loop. *)
Definition accept_finish (f : Files) (m : Memory) (accepted : Socket.AcceptResult)
    (accepted_descriptor address length_address flags_ : Z) : Files * Memory * Z :=
  if negb (bool_decide (Socket.accept_result accepted = Socket.Result.success))
  then (f, m, socket_error (Socket.accept_result accepted)) else
  let '(m, address_result) := write_sockaddr m (Socket.accept_peer accepted) address length_address in
  if negb (address_result =? 0) then
    let '(f, _) := on_network f (fun n => Stack.socket_close n (Socket.accept_handle accepted)) in
    (f, m, address_result)
  else
    (fill accepted_descriptor (socket_descriptor (Z.land flags_ SocketAbi.sock_nonblock) (Socket.accept_handle accepted)) f,
     m, accepted_descriptor).

Definition socket_name (f : Files) (m : Memory) (descriptor address length_address : Z) (peer : bool) : Memory * Z :=
  match network_descriptor f descriptor with
  | None => (m, Abi.error bad_file_descriptor)
  | Some slot =>
      match Socket.slot (Stack.sockets (network (tables f))) (Descriptor.socket slot) with
      | None => (m, Abi.error bad_file_descriptor)
      | Some s =>
          if peer && (negb (Socket.is_connection (Socket.state s)) ||
                      bool_decide (Socket.state s = Socket.State.syn_received))
          then (m, Abi.error not_connected)
          else write_sockaddr m (if peer then Socket.remote s else Socket.local s) address length_address
      end
  end.

Definition setsockopt (f : Files) (descriptor value_address value_size : Z) : Z :=
  match network_descriptor f descriptor with
  | None => Abi.error bad_file_descriptor
  | Some _ => if negb (value_size =? 0) && negb (contains value_address value_size) then Abi.error bad_address else 0
  end.

Definition shutdown_socket (f : Files) (descriptor how : Z) : Files * Z :=
  match network_descriptor f descriptor with
  | None => (f, Abi.error bad_file_descriptor)
  | Some slot =>
      let '(f, result) := on_network f (fun n => Stack.socket_shutdown n (Descriptor.socket slot) how) in
      (f, socket_error result)
  end.
End calls.
End FileCalls.
