(* ===== verification/DescriptorCounts.v ===== *)
(** * Every end has as many references as descriptors name it

    The invariant of the descriptor arrays of all processes, kept by every
    system call on descriptors and by every move between the arrays. *)

From S2P Require Import Prelude ByteQueue Pipe Pty Ethernet Timing Interface Socket Tcp Stack Filesystem Ext4 PseudoFs.
From S2P Require Import RingBuffer StackSend Counts Base Abi Memory Path Descriptor DescriptorLaws FileCalls.
Import Descriptor DescriptorLaws FileCalls.
Local Open Scope Z_scope.

Module DescriptorCounts.
Section files.
Context {Q : Type} `{!ByteQueue Q} `{!ByteQueueLaws Q 4096}.
Context {W : Type} {machine : Machine W}.
Abbreviation Tables := (Tables Q W).
Abbreviation Files := (Files Q W).

(** The descriptors of every process that name an end. *)
Definition total (f : Files) (x : End) : Z :=
  tally (active f) x + tally (parent f) x + tally (background f) x + tallies (nested_ancestors f) x +
  tally (interactive_child f) x + tally (interactive_parent f) x.

Record shape (f : Files) : Prop := {
  shape_active : saved_ok (active f);
  shape_parent : saved_ok (parent f);
  shape_background : saved_ok (background f);
  shape_nested : Forall saved_ok (nested_ancestors f);
  shape_depth : length (nested_ancestors f) = 32%nat;
  shape_interactive_child : saved_ok (interactive_child f);
  shape_interactive_parent : saved_ok (interactive_parent f);
}.

Record files_ok (f : Files) : Prop := {
  ok_shape : shape f;
  ok_balanced : balanced (tables f) (total f);
}.

(** The kernel's tables before the first system call. *)
Definition initial (n : Stack.BootstrapStack) : Files :=
  mkFiles (mkTables (PipeTable.initial pipe_capacity) (PtyTable.initial pty_capacity) n)
    saved_none saved_none saved_none (replicate 32 saved_none) saved_none saved_none.

Lemma total_range (f : Files) x : shape f -> 0 <= total f x <= 592.
Proof.
  intros [H1 H2 H3 H4 H5 H6 H7]. unfold total.
  pose proof (tally_nonneg (active f) x). pose proof (tally_bound _ x H1).
  pose proof (tally_nonneg (parent f) x). pose proof (tally_bound _ x H2).
  pose proof (tally_nonneg (background f) x). pose proof (tally_bound _ x H3).
  pose proof (tallies_nonneg (nested_ancestors f) x). pose proof (tallies_bound _ x H4).
  pose proof (tally_nonneg (interactive_child f) x). pose proof (tally_bound _ x H6).
  pose proof (tally_nonneg (interactive_parent f) x). pose proof (tally_bound _ x H7). lia.
Qed.

Lemma initial_files_ok n : files_ok (initial n).
Proof.
  split.
  - split; cbn -[replicate]; try apply saved_none_ok; [apply Forall_replicate, saved_none_ok|done].
  - split; cbn [initial tables pipes ptys].
    + apply PipeTable.pipe_initial_inv.
    + apply PtyTable.pty_initial_inv.
    + intros x _. unfold total. cbn [initial active parent background nested_ancestors interactive_child interactive_parent].
      rewrite -> tallies_none, !tally_none. destruct x as [h e|h e]; cbn -[Z.to_nat].
      * unfold PipeTable.references. destruct (PipeTable.find _ _ h) as [i|] eqn:E; [|done].
        unfold PipeTable.find in E. case_match; [done|]. unfold PipeTable.initial in E.
        rewrite -> list_lookup_total_alt, lookup_replicate_2 in E by (unfold pipe_capacity in *; lia). done.
      * unfold PtyCount.references. destruct (PtyTable.find _ _ h) as [i|] eqn:E; [|done].
        unfold PtyTable.find in E. case_match; [done|]. unfold PtyTable.initial in E.
        rewrite -> list_lookup_total_alt, lookup_replicate_2 in E by (unfold pty_capacity in *; lia). done.
Qed.

(** ** One descriptor *)

Lemma at_slot_lookup f d : shape f -> 3 <= d < 16 -> descriptors (active f) !! Z.to_nat (d - 3) = Some (at_slot f d).
Proof.
  intros Hf Hd. apply list_lookup_lookup_total_lt. rw (saved_descriptors _ (shape_active _ Hf)). lia.
Qed.

Lemma redirect_lookup f d : shape f -> 0 <= d < 3 -> standard_redirects (active f) !! Z.to_nat d = Some (redirect f d).
Proof.
  intros Hf Hd. apply list_lookup_lookup_total_lt. rw (saved_redirects _ (shape_active _ Hf)). lia.
Qed.

Lemma at_slot_named f d : shape f -> 3 <= d < 16 -> named_ok (at_slot f d).
Proof.
  intros Hf Hd. eapply Forall_lookup_1; [apply (saved_named _ (shape_active _ Hf))|by apply at_slot_lookup].
Qed.

Lemma redirect_named f d : shape f -> 0 <= d < 3 -> named_ok (redirect f d).
Proof.
  intros Hf Hd. eapply Forall_lookup_1; [apply (saved_redirects_named _ (shape_active _ Hf))|by apply redirect_lookup].
Qed.

Lemma total_active f x : shape f -> tally (active f) x <= total f x.
Proof.
  intros Hf. unfold total. pose proof (tally_nonneg (parent f) x). pose proof (tally_nonneg (background f) x).
  pose proof (tallies_nonneg (nested_ancestors f) x). pose proof (tally_nonneg (interactive_child f) x).
  pose proof (tally_nonneg (interactive_parent f) x). lia.
Qed.

Lemma at_slot_total f d x : shape f -> 3 <= d < 16 -> weight (at_slot f d) x <= total f x.
Proof.
  intros Hf Hd. pose proof (weights_lookup _ _ _ x (at_slot_lookup f d Hf Hd)). pose proof (total_active f x Hf).
  unfold tally in *. pose proof (weights_nonneg (standard_redirects (active f)) x). lia.
Qed.

Lemma redirect_total f d x : shape f -> 0 <= d < 3 -> weight (redirect f d) x <= total f x.
Proof.
  intros Hf Hd. pose proof (weights_lookup _ _ _ x (redirect_lookup f d Hf Hd)). pose proof (total_active f x Hf).
  unfold tally in *. pose proof (weights_nonneg (descriptors (active f)) x). lia.
Qed.

(** Storing a descriptor over tables that are balanced for the result. *)
Lemma set_slot_ok f d v t :
  shape f -> 3 <= d < 16 -> named_ok v ->
  balanced t (fun x => total f x - weight (at_slot f d) x + weight v x) ->
  files_ok (set_slot d v (f <| tables := t |>)).
Proof.
  intros Hf Hd Hv Hb. pose proof (shape_active _ Hf) as [H1 H2 H3 H4]. split.
  - destruct Hf. split; try done. split; cbn; [by rw length_insert|done|by apply Forall_insert|done].
  - eapply balanced_ext; [exact Hb|]. intros x. unfold total, tally. cbn -[weights tallies insert].
    rewrite -> weights_insert by lia. fold (at_slot f d). lia.
Qed.

Lemma set_redirect_ok f d v t :
  shape f -> 0 <= d < 3 -> named_ok v ->
  balanced t (fun x => total f x - weight (redirect f d) x + weight v x) ->
  files_ok (set_redirect d v (f <| tables := t |>)).
Proof.
  intros Hf Hd Hv Hb. pose proof (shape_active _ Hf) as [H1 H2 H3 H4]. split.
  - destruct Hf. split; try done. split; cbn; [done|by rw length_insert|done|by apply Forall_insert].
  - eapply balanced_ext; [exact Hb|]. intros x. unfold total, tally. cbn -[weights tallies insert].
    rewrite -> weights_insert by lia. fold (redirect f d). lia.
Qed.

Lemma tables_ok f t : files_ok f -> balanced t (total f) -> files_ok (f <| tables := t |>).
Proof. intros [[] _] Hb. by split. Qed.

Lemma weight_none x : weight descriptor_none x = 0.
Proof. done. Qed.

Lemma is_none_names d : is_none d = true -> names d = None.
Proof. unfold is_none, is_kind, names. intros H%bool_decide_eq_true. by rw H. Qed.

Lemma names_none_weight d x : names d = None -> weight d x = 0.
Proof. unfold weight. intros ->. by case_decide. Qed.

Lemma close_ok f d : files_ok f -> 0 <= d -> files_ok (close f d).1.
Proof.
  intros [Hf Hb] Hd. unfold close. destruct (d <? 3) eqn:Hlt; cbn [fst].
  - apply (set_redirect_ok f d descriptor_none (release_descriptor (tables f) (redirect f d))); [done|lia|apply named_none|].
    pose proof (fun x => redirect_total f d x Hf ltac:(lia)) as Ht.
    eapply balanced_ext; [apply (release_balanced _ _ _ Hb); [apply redirect_named; [done|lia]|]|].
    + intros x Hx. specialize (Ht x). unfold weight in Ht. rewrite -> decide_True in Ht by done. lia.
    + intros x. rewrite -> weight_none. lia.
  - destruct ((16 <=? d) || is_none (at_slot f d)) eqn:Hc; [done|]. apply orb_false_iff in Hc as [Hc _].
    apply (set_slot_ok f d descriptor_none (release_descriptor (tables f) (at_slot f d))); [done|lia|apply named_none|].
    pose proof (fun x => at_slot_total f d x Hf ltac:(lia)) as Ht.
    eapply balanced_ext; [apply (release_balanced _ _ _ Hb); [apply at_slot_named; [done|lia]|]|].
    + intros x Hx. specialize (Ht x). unfold weight in Ht. rewrite -> decide_True in Ht by done. lia.
    + intros x. rewrite -> weight_none. lia.
Qed.

Lemma duplicate_source_named f old v :
  shape f -> 0 <= old < 16 -> duplicate_source f old = Some v -> named_ok v.
Proof.
  intros Hf Hd. unfold duplicate_source. case_match; [by intros [= <-]|]. case_match; [by intros [= <-]|].
  case_match; [done|]. intros [= <-]. apply at_slot_named; [done|lia].
Qed.

Lemma duplicate_to_ok f old new fl : files_ok f -> 0 <= old -> 0 <= new -> files_ok (duplicate_to f old new fl).1.
Proof.
  intros [Hf Hb] Hold Hnew. unfold duplicate_to. case_match eqn:Hc; [done|].
  apply orb_false_iff in Hc as [Hc _]. apply orb_false_iff in Hc as [Hc Hn]. apply orb_false_iff in Hc as [_ Ho].
  destruct (duplicate_source f old) as [v|] eqn:Hs; [|done].
  pose proof (duplicate_source_named f old v Hf ltac:(lia) Hs) as Hv.
  pose proof (retain_balanced (tables f) _ v Hb Hv) as L. destruct (retain_descriptor (tables f) v) as [t [|]];
    destruct L as [Hb1 _]; [|by apply tables_ok].
  destruct (new <? 3) eqn:Hlt; cbn [fst].
  - apply (set_redirect_ok f new v (release_descriptor t (redirect f new))); [done|lia|done|].
    pose proof (fun x => redirect_total f new x Hf ltac:(lia)) as Ht.
    eapply balanced_ext; [apply (release_balanced _ _ _ Hb1); [apply redirect_named; [done|lia]|]|].
    + intros x Hx. specialize (Ht x). unfold weight at 1 in Ht. rewrite -> decide_True in Ht by done.
      pose proof (weight_range v x). lia.
    + intros x. cbv beta. lia.
  - apply (set_slot_ok f new v (release_descriptor t (at_slot f new))); [done|lia|done|].
    pose proof (fun x => at_slot_total f new x Hf ltac:(lia)) as Ht.
    eapply balanced_ext; [apply (release_balanced _ _ _ Hb1); [apply at_slot_named; [done|lia]|]|].
    + intros x Hx. specialize (Ht x). unfold weight at 1 in Ht. rewrite -> decide_True in Ht by done.
      pose proof (weight_range v x). lia.
    + intros x. cbv beta. lia.
Qed.

(** A descriptor rewritten without changing what it names. *)
Lemma rewrite_slot_ok f d v : files_ok f -> 3 <= d < 16 -> names v = names (at_slot f d) -> files_ok (set_slot d v f).
Proof.
  intros [Hf Hb] Hd Hn. replace f with (f <| tables := tables f |>) at 1 by by destruct f. apply set_slot_ok; [done..| |].
  - intros x. rewrite -> Hn. by apply at_slot_named.
  - eapply balanced_ext; [exact Hb|]. intros x. unfold weight. rw Hn. lia.
Qed.

Lemma free_from_spec f from : shape f -> 3 <= from < 16 ->
  from <= free_from f from <= 16 /\ (free_from f from < 16 -> is_none (at_slot f (free_from f from)) = true).
Proof.
  intros Hf Hd. unfold free_from. destruct (first_slot _ _) as [i|] eqn:E; [|lia].
  apply first_slot_Some in E as (v & Hi & Hv & _). rewrite -> lookup_drop in Hi.
  pose proof (lookup_lt_Some _ _ _ Hi) as Hlt. rw (saved_descriptors _ (shape_active _ Hf)) in Hlt.
  split; [lia|]. intros _. unfold at_slot. rewrite -> list_lookup_total_alt.
  by replace (Z.to_nat (from + Z.of_nat i - 3)) with (Z.to_nat (from - 3) + i)%nat by lia; rw Hi.
Qed.

Lemma fcntl_ok f d c a : files_ok f -> 0 <= d -> files_ok (fcntl f d c a).1.
Proof.
  intros Hok Hd. unfold fcntl. case_match; [done|]. case_match; [done|]. case_match.
  { case_match; [done|]. case_match eqn:Hc; [done|]. apply orb_false_iff in Hc as [Hc _].
    apply rewrite_slot_ok; [done|lia|done]. }
  case_match; [done|]. case_match; [done|].
  set (target := if a <? 3 then 3 else a).
  assert (3 <= target) as Ht by (subst target; case_match; lia).
  destruct (target <? 16) eqn:Hlt; [|done].
  destruct (free_from_spec f target (ok_shape _ Hok) ltac:(lia)) as [Hr _]. case_match; [|done].
  apply duplicate_to_ok; [done|lia|lia].
Qed.

Lemma lseek_ok f d o : files_ok f -> 0 <= d -> files_ok (lseek f d o).1.
Proof.
  intros Hok Hd. unfold lseek. case_match eqn:Hc; [done|]. apply orb_false_iff in Hc as [Hc _].
  apply rewrite_slot_ok; [done|lia|done].
Qed.

(** A free slot filled over tables that count what it now names. *)
Lemma fill_ok f d g t c :
  shape f -> 3 <= d < 16 -> is_none (at_slot f d) = true -> named_ok (g (at_slot f d)) ->
  balanced t c -> (forall x, c x = total f x + weight (g (at_slot f d)) x) ->
  files_ok (fill d g (f <| tables := t |>)).
Proof.
  intros Hf Hd Hn Hv Hb Hc. apply (set_slot_ok f d (g (at_slot f d)) t); [done..|].
  eapply balanced_ext; [exact Hb|]. intros x. rewrite -> Hc, (names_none_weight (at_slot f d)); [lia|].
  by apply is_none_names.
Qed.

Lemma open_pty_ok f canonical fl session open e : files_ok f ->
  pty_target canonical session = Some (open, e) -> files_ok (open_pty f canonical fl open e).1.
Proof.
  intros [Hf Hb] Ht. unfold open_pty. destruct (free_from_spec f 3 Hf ltac:(lia)) as [Hr Hnone].
  destruct (free_from f 3 =? 16) eqn:Hfull; [done|].
  assert (let '(p, r) := open (ptys (tables f)) in PtyTable.inv pty_capacity 4096 p /\
    (PtyTable.or_status r = PtyTable.success -> PtyTable.handle_ok (PtyTable.or_handle r)) /\
    (forall h' e', PtyTable.handle_ok h' -> PtyCount.references pty_capacity p h' e' =
       PtyCount.references pty_capacity (ptys (tables f)) h' e' +
       one (PtyTable.or_status r = PtyTable.success /\ h' = PtyTable.or_handle r /\ e' = e))) as L.
  { pose proof (balanced_ptys _ _ Hb) as Hinv. unfold pty_target in Ht. case_match.
    - injection Ht as <- <-. by apply PtyCount.pty_open_controlling_count.
    - case_match; [injection Ht as <- <-; by apply (PtyCount.pty_open_master_count _ pty_table)|].
      case_match; [done|]. injection Ht as <- <-. apply (PtyCount.pty_open_slave_count _ pty_table); [done|].
      by apply wrap_in_u. }
  destruct (open (ptys (tables f))) as [p r]. destruct L as (Hp & Hh & Hcount).
  assert (forall x, end_ok x -> references (tables f <| ptys := p |>) x =
    total f x + one (PtyTable.or_status r = PtyTable.success /\ x = pty_of (PtyTable.or_handle r) e)) as Href.
  { intros x Hx. pose proof (balanced_count _ _ Hb x Hx) as Hc. destruct x as [h2 e2|h2 e2].
    - rewrite -> decide_False by naive_solver. cbn in *. lia.
    - cbn [end_ok references ptys] in *. rewrite -> Hcount, Hc by done. repeat case_decide; naive_solver lia. }
  destruct (PtyTable.or_status r) eqn:Hst; try (apply tables_ok; [by split|]; split; [apply Hb|done|];
    intros x Hx; rewrite -> Href, decide_False by naive_solver; lia).
  eapply (fill_ok f (free_from f 3) _ (tables f <| ptys := p |>)
    (fun x => total f x + one (x = pty_of (PtyTable.or_handle r) e))); [done|lia|apply Hnone; lia| | |].
  - intros x [= <-]. by apply Hh.
  - split; [apply Hb|done|]. intros x Hx. rewrite -> Href by done. repeat case_decide; naive_solver lia.
  - intros x. unfold weight. cbn. repeat case_decide; naive_solver lia.
Qed.

Lemma set_slot_shape f d v : shape f -> named_ok v -> shape (set_slot d v f).
Proof.
  intros Hf Hv. pose proof (shape_active _ Hf) as [H1 H2 H3 H4]. destruct Hf. split; try done.
  split; cbn; [by rw length_insert|done|by apply Forall_insert|done].
Qed.

Lemma set_slot_total f d v x : shape f -> 3 <= d < 16 ->
  total (set_slot d v f) x = total f x - weight (at_slot f d) x + weight v x.
Proof.
  intros Hf Hd. pose proof (saved_descriptors _ (shape_active _ Hf)). unfold total, tally. cbn -[weights tallies insert].
  rewrite -> weights_insert by lia. fold (at_slot f d). lia.
Qed.

Lemma at_set_slot (f : Files) d v d' : 3 <= d < 16 -> 3 <= d' < 16 -> d <> d' -> at_slot (set_slot d v f) d' = at_slot f d'.
Proof. intros Hd Hd' Hne. unfold at_slot. cbn -[insert]. rewrite -> list_lookup_total_insert_ne by lia. done. Qed.

Lemma pipe2_ok (f : Files) m a fl : files_ok f -> files_ok (pipe2 f m a fl).1.1.
Proof.
  intros [Hf Hb]. unfold pipe2. case_match; [done|]. case_match; [done|].
  destruct (free_from_spec f 3 Hf ltac:(lia)) as [Hr1 Hn1]. set (d1 := free_from f 3) in *.
  set (d2 := if d1 <? 15 then free_from f (d1 + 1) else 16).
  assert (16 <= d2 \/ d1 < d2 < 16 /\ is_none (at_slot f d1) = true /\ is_none (at_slot f d2) = true) as Hd2.
  { subst d2. case_match; [|lia]. destruct (free_from_spec f (d1 + 1) Hf ltac:(lia)) as [Hr2 Hn2].
    destruct (decide (16 <= free_from f (d1 + 1))); [by left|right]. split; [lia|]. split; [apply Hn1; lia|apply Hn2; lia]. }
  destruct (16 <=? d2) eqn:Hfull; [done|]. destruct Hd2 as [|(Hd & Hz1%is_none_names & Hz2%is_none_names)]; [lia|].
  pose proof (PipeCount.pipe_create_count _ pipe_table (pipes (tables f)) (balanced_pipes _ _ Hb)) as L.
  destruct (PipeTable.create _) as [p r]. destruct L as (Hp & Hh & Hcount).
  case_bool_decide as Hs; cbn [negb fst].
  - set (h := PipeTable.cr_handle r) in *. set (f0 := f <| tables ::= fun t => t <| pipes := p |> |>).
    assert (shape f0) as Hf0 by by destruct Hf.
    assert (forall e d, named_ok (pipe_descriptor fl h e d)) as Hv by (intros e d x [= <-]; by apply Hh).
    assert (forall e d x, weight (pipe_descriptor fl h e d) x = one (pipe_of h e = x)) as Hw.
    { intros e d x. unfold weight. cbn. repeat case_decide; naive_solver. }
    unfold fill. rewrite -> at_set_slot by lia. pose proof (set_slot_shape f0 d1 _ Hf0 (Hv PipeTable.end_read (at_slot f0 d1))) as Hf1.
    split; [by apply set_slot_shape|]. split; [exact Hp|apply Hb|]. intros x Hx.
    rewrite -> set_slot_total, at_set_slot, set_slot_total, !Hw by (done || lia).
    rewrite -> (names_none_weight (at_slot f0 d1)), (names_none_weight (at_slot f0 d2)) by done.
    pose proof (balanced_count _ _ Hb x Hx) as Hc. change (total f0 x) with (total f x).
    destruct x as [h2 e|h2 e]; cbn -[PipeTable.references PtyCount.references total] in *.
    + rewrite -> Hcount, Hc by done. destruct e; repeat case_decide; naive_solver lia.
    + rewrite -> Hc. repeat case_decide; naive_solver lia.
  - apply (tables_ok f (tables f <| pipes := p |>)); [by split|]. split; [done|apply Hb|]. intros x Hx.
    pose proof (balanced_count _ _ Hb x Hx) as Hc. destruct x as [h e|h e]; [|done].
    cbn [references pipes]. cbn in Hc. rewrite -> Hcount, Hc, decide_False by (done || naive_solver). lia.
Qed.

Lemma open_node_ok f n canonical fl size : files_ok f -> kind n <> Kind.pipe -> kind n <> Kind.pty ->
  files_ok (open_node f n canonical fl size).1.
Proof.
  intros [Hf Hb] Hpipe Hpty. unfold open_node. destruct (free_from_spec f 3 Hf ltac:(lia)) as [Hr Hnone].
  destruct (free_from f 3 =? 16) eqn:Hfull; [done|]. cbn [fst]. unfold fill. set (v := _ <| path := _ |>).
  assert (names v = None) as Hv by (unfold names, v; cbn; by destruct (kind n)).
  apply rewrite_slot_ok; [by split|lia|]. rewrite -> Hv. symmetry. apply is_none_names, Hnone. lia.
Qed.

Lemma network_ok f n : files_ok f -> files_ok (with_network f n).
Proof. intros Hok. apply tables_ok; [done|]. apply balanced_network, Hok. Qed.

(** Sockets are not counted here: a descriptor for one names no end. *)
Lemma fill_socket_ok f fl h : files_ok f -> free_from f 3 < 16 ->
  files_ok (fill (free_from f 3) (socket_descriptor fl h) f).
Proof.
  intros Hok Hlt. destruct (free_from_spec f 3 (ok_shape _ Hok) ltac:(lia)) as [Hr Hnone].
  apply rewrite_slot_ok; [done|lia|]. symmetry. cbn. by apply is_none_names, Hnone.
Qed.

Lemma socket_ok f domain type protocol : files_ok f -> files_ok (FileCalls.socket f domain type protocol).1.
Proof.
  intros Hok. unfold FileCalls.socket, on_network. case_match; try done.
  destruct (Stack.socket_open _ _) as [n r]. case_match; [by apply network_ok|].
  case_match eqn:Hlt; [|destruct (Stack.socket_close _ _); by apply network_ok, network_ok].
  apply fill_socket_ok; [by apply network_ok|cbn in *; lia].
Qed.

Lemma accept_finish_ok f m accepted d a la fl : files_ok f -> 3 <= d < 16 -> is_none (at_slot f d) = true ->
  files_ok (accept_finish f m accepted d a la fl).1.1.
Proof.
  intros Hok Hd Hn. unfold accept_finish, on_network. case_match; [done|]. destruct (write_sockaddr _ _ _ _) as [m' r].
  case_match; [destruct (Stack.socket_close _ _); by apply network_ok|]. apply rewrite_slot_ok; [done..|]. symmetry. by apply is_none_names.
Qed.

(** ** Whole arrays *)

Ltac move_shape := split; cbn [active parent background nested_ancestors interactive_child interactive_parent tables set];
  first [done | apply saved_none_ok | idtac].

Lemma reset_files_ok f : files_ok f ->
  files_ok (reset_descriptors f) /\ active (reset_descriptors f) = saved_none /\
  parent (reset_descriptors f) = parent f /\ background (reset_descriptors f) = background f /\
  nested_ancestors (reset_descriptors f) = nested_ancestors f /\
  interactive_child (reset_descriptors f) = interactive_child f /\
  interactive_parent (reset_descriptors f) = interactive_parent f.
Proof.
  intros [Hf Hb]. unfold reset_descriptors.
  pose proof (release_saved_balanced (tables f) (active f) (fun x => total f x - tally (active f) x)) as L.
  destruct (release_saved _ _) as [t s]. destruct L as [Hb' ->]; [|apply Hf|eapply balanced_ext; [exact Hb|intros x; lia]|].
  { intros x. pose proof (total_active f x Hf). lia. }
  split; [|by split_and!]. split; [destruct Hf; by move_shape|]. eapply balanced_ext; [exact Hb'|].
  intros x. unfold total. cbn -[tally tallies]. rewrite -> tally_none. lia.
Qed.

Lemma discard_ok f : files_ok f ->
  files_ok (discard_parent_descriptors f) /\ parent (discard_parent_descriptors f) = saved_none /\
  active (discard_parent_descriptors f) = active f.
Proof.
  intros [Hf Hb]. unfold discard_parent_descriptors.
  pose proof (release_saved_balanced (tables f) (parent f) (fun x => total f x - tally (parent f) x)) as L.
  destruct (release_saved _ _) as [t s]. destruct L as [Hb' ->]; [|apply Hf|eapply balanced_ext; [exact Hb|intros x; lia]|].
  { intros x. unfold total. pose proof (tally_nonneg (active f) x). pose proof (tally_nonneg (background f) x).
    pose proof (tallies_nonneg (nested_ancestors f) x). pose proof (tally_nonneg (interactive_child f) x).
    pose proof (tally_nonneg (interactive_parent f) x). lia. }
  split; [|done]. split; [destruct Hf; by move_shape|]. eapply balanced_ext; [exact Hb'|].
  intros x. unfold total. cbn -[tally tallies]. rewrite -> tally_none. lia.
Qed.

(** The descriptors of the processes other than the suspended parent. *)
Definition rest (f : Files) (x : End) : Z := total f x - tally (parent f) x.

Lemma rest_nonneg f x : 0 <= rest f x.
Proof.
  unfold rest, total. pose proof (tally_nonneg (active f) x). pose proof (tally_nonneg (background f) x).
  pose proof (tallies_nonneg (nested_ancestors f) x). pose proof (tally_nonneg (interactive_child f) x).
  pose proof (tally_nonneg (interactive_parent f) x). lia.
Qed.

Lemma with_parent_ok f t s : shape f -> saved_ok s -> balanced t (fun x => tally s x + rest f x) ->
  files_ok (f <| tables := t |> <| parent := s |>).
Proof.
  intros Hf Hs Hb. split; [destruct Hf; by move_shape|]. eapply balanced_ext; [exact Hb|].
  intros x. unfold rest, total. cbn -[tally tallies]. lia.
Qed.

Lemma without_parent_ok f t : shape f -> balanced t (rest f) -> files_ok (f <| tables := t |> <| parent := saved_none |>).
Proof.
  intros Hf Hb. apply with_parent_ok; [done|apply saved_none_ok|]. eapply balanced_ext; [exact Hb|].
  intros x. by rewrite -> tally_none.
Qed.

(** The outcome of [save_parent_descriptors]: a full copy or none. *)
Record parent_saved (f f' : Files) (copied : bool) : Prop := {
  parent_saved_ok : files_ok f';
  parent_saved_copy : parent f' = if copied then active f else saved_none;
  parent_saved_active : active f' = active f;
  parent_saved_background : background f' = background f;
  parent_saved_nested : nested_ancestors f' = nested_ancestors f;
  parent_saved_child : interactive_child f' = interactive_child f;
  parent_saved_parent : interactive_parent f' = interactive_parent f;
}.

Lemma save_parent_ok f : files_ok f ->
  let '(f', copied) := save_parent_descriptors f in parent_saved f f' copied.
Proof.
  intros [Hf Hb]. pose proof (shape_active _ Hf) as [H1 H2 H3 H4]. unfold save_parent_descriptors.
  pose proof (rest_nonneg f) as Hpos.
  pose proof (release_saved_balanced (tables f) (parent f) (rest f) Hpos (shape_parent _ Hf)) as L.
  destruct (release_saved _ _) as [t s]. destruct L as [Hb1 ->];
    [eapply balanced_ext; [exact Hb|intros x; unfold rest; lia]|].
  cbn [descriptors standard_redirects saved_none].
  pose proof (retain_all_balanced (descriptors (active f)) (replicate 13 descriptor_none) t (rest f)
    ltac:(by rw length_replicate H1) H3 Hb1) as L.
  destruct (retain_all _ _ _) as [[t1 ds] n]. destruct L as (-> & Hn & Hb2). rw H1 in Hn.
  destruct (Nat.eqb n 13) eqn:En; cbn [negb].
  - apply Nat.eqb_eq in En as ->. rewrite -> take_ge, drop_ge, app_nil_r in * by (rewrite -> ?length_replicate; lia).
    pose proof (retain_all_balanced (standard_redirects (active f)) (replicate 3 descriptor_none) t1 _
      ltac:(by rw length_replicate H2) H4 Hb2) as L.
    destruct (retain_all _ _ _) as [[t2 rs] n]. destruct L as (-> & Hn2 & Hb3). rw H2 in Hn2.
    destruct (Nat.eqb n 3) eqn:En; cbn [negb].
    + apply Nat.eqb_eq in En as ->. rewrite -> take_ge, drop_ge, app_nil_r in * by (rewrite -> ?length_replicate; lia).
      split; try done; [|cbn; by destruct (active f)]. apply with_parent_ok; [done|by split|].
      eapply balanced_ext; [exact Hb3|]. intros x. unfold tally. cbn -[weights]. lia.
    + pose proof (release_all_balanced (descriptors (active f)) t2
        (fun x => weights (take n (standard_redirects (active f))) x + rest f x)) as L.
      destruct (release_all t2 _) as [t3 ds]. destruct L as [Hb4 ->]; [|done|eapply balanced_ext; [exact Hb3|intros x; cbn; lia]|].
      { intros x. specialize (Hpos x). pose proof (weights_nonneg (take n (standard_redirects (active f))) x). lia. }
      pose proof (release_first_balanced t3 (standard_redirects (active f)) n (rest f) Hpos H4 ltac:(lia) Hb4) as L.
      rw H2 in L. destruct (release_first t3 _ n) as [t4 rs]. destruct L as [Hb5 ->]. rw H1.
      split; try done. by apply without_parent_ok.
  - pose proof (release_first_balanced t1 (descriptors (active f)) n (rest f) Hpos H3 ltac:(lia) Hb2) as L.
    rw H1 in L. destruct (release_first t1 _ n) as [t2 ds]. destruct L as [Hb3 ->].
    split; try done. by apply without_parent_ok.
Qed.

Lemma restore_parent_ok f : files_ok f ->
  files_ok (restore_parent_descriptors f) /\ active (restore_parent_descriptors f) = parent f /\
  parent (restore_parent_descriptors f) = saved_none.
Proof.
  intros Hok. destruct (reset_files_ok f Hok) as ([Hf Hb] & Ha & Hp & _). unfold restore_parent_descriptors.
  rewrite -> Hp. split; [|done]. split.
  - destruct Hf. move_shape. rw -Hp. done.
  - eapply balanced_ext; [exact Hb|]. intros x. unfold total. cbn -[tally tallies reset_descriptors].
    rewrite -> Hp, Ha, !tally_none. lia.
Qed.

(** Moving one process's descriptors into an empty place. *)
Ltac moved Hf Hb :=
  split; [destruct Hf; by move_shape
         |eapply balanced_ext; [exact Hb|intros x; unfold total; cbn -[tally tallies]]].

Lemma park_background_ok f : files_ok f -> background f = saved_none -> files_ok (park_background_descriptors f).
Proof.
  intros [Hf Hb] He. unfold park_background_descriptors, move_active_descriptors. moved Hf Hb.
  rewrite -> He, !tally_none. lia.
Qed.

Lemma park_interactive_ok f : files_ok f -> interactive_child f = saved_none -> files_ok (park_interactive_descriptors f).
Proof.
  intros [Hf Hb] He. unfold park_interactive_descriptors, move_active_descriptors. moved Hf Hb.
  rewrite -> He, !tally_none. lia.
Qed.

Lemma relay_ok f : files_ok f -> interactive_parent f = saved_none -> files_ok (relay_descriptors f).
Proof. intros [Hf Hb] He. unfold relay_descriptors. moved Hf Hb. rewrite -> He, !tally_none. lia. Qed.

Lemma unrelay_ok f : files_ok f -> parent f = saved_none -> files_ok (unrelay_descriptors f).
Proof. intros [Hf Hb] He. unfold unrelay_descriptors. moved Hf Hb. rewrite -> He, !tally_none. lia. Qed.

Lemma resume_background_ok f : files_ok f ->
  files_ok (resume_background_descriptors f) /\ active (resume_background_descriptors f) = background f.
Proof.
  intros Hok. destruct (reset_files_ok f Hok) as ([Hf Hb] & Ha & _ & Hbg & _). unfold resume_background_descriptors, move_saved_descriptors.
  split; [|done]. split.
  - destruct Hf. move_shape. by rw -Hbg.
  - eapply balanced_ext; [exact Hb|]. intros x. unfold total. cbn -[tally tallies reset_descriptors].
    rewrite -> Hbg, Ha, !tally_none. lia.
Qed.

Lemma resume_interactive_ok f : files_ok f ->
  files_ok (resume_interactive_descriptors f) /\ active (resume_interactive_descriptors f) = interactive_child f.
Proof.
  intros Hok. destruct (reset_files_ok f Hok) as ([Hf Hb] & Ha & _ & _ & _ & Hic & _).
  unfold resume_interactive_descriptors, move_saved_descriptors. split; [|done]. split.
  - destruct Hf. move_shape. by rw -Hic.
  - eapply balanced_ext; [exact Hb|]. intros x. unfold total. cbn -[tally tallies reset_descriptors].
    rewrite -> Hic, Ha, !tally_none. lia.
Qed.

Lemma stack_ok f level : files_ok f -> (level < 32)%nat -> nested_ancestors f !!! level = saved_none ->
  files_ok (stack_descriptors f level).
Proof.
  intros [Hf Hb] Hl He. unfold stack_descriptors. pose proof (shape_depth _ Hf). split.
  - destruct Hf. move_shape; [by apply Forall_insert|by rw length_insert].
  - eapply balanced_ext; [exact Hb|]. intros x. unfold total. cbn -[tally tallies insert].
    rewrite -> tallies_insert, He, !tally_none by lia. lia.
Qed.

Lemma unstack_ok f level : files_ok f -> (level < 32)%nat -> parent f = saved_none ->
  files_ok (unstack_descriptors f level).
Proof.
  intros [Hf Hb] Hl He. unfold unstack_descriptors. pose proof (shape_depth _ Hf). split.
  - destruct Hf. move_shape; [|apply Forall_insert; [done|apply saved_none_ok]|by rw length_insert].
    eapply Forall_lookup_1; [done|apply list_lookup_lookup_total_lt; lia].
  - eapply balanced_ext; [exact Hb|]. intros x. unfold total. cbn -[tally tallies insert].
    rewrite -> tallies_insert, He, !tally_none by lia. lia.
Qed.

(** ** Every sequence of operations *)

Inductive op :=
| OClose (d : Z)
| ODuplicate (old new fl : Z)
| OFcntl (d command argument : Z)
| OLseek (d o : Z)
| OPipe2 (m : Memory.Memory) (a fl : Z)
| OOpenPty (canonical : list Z) (session fl : Z)
| OOpenNode (n : Node) (canonical : list Z) (fl size : Z)
| OSocket (domain type protocol : Z)
| OAccept (m : Memory.Memory) (accepted : Socket.AcceptResult) (a la fl : Z)
| ONetwork (n : Stack.BootstrapStack (W := W))
| OPipeRead (h : PipeTable.PipeHandle) (n : Z)
| OPipeWrite (h : PipeTable.PipeHandle) (input : list Z)
| OPty (o : PtyTable.op)
| OReset | OSaveParent | ORestoreParent | ODiscardParent
| OParkBackground | OResumeBackground | OParkInteractive | OResumeInteractive
| OStack (level : nat) | OUnstack (level : nat) | ORelay | OUnrelay.

Definition with_pipes (f : Files) p : Files := f <| tables ::= fun t => t <| pipes := p |> |>.
Definition with_ptys (f : Files) p : Files := f <| tables ::= fun t => t <| ptys := p |> |>.

Definition step (f : Files) (o : op) : Files :=
  match o with
  | OClose d => (close f d).1
  | ODuplicate old new fl => (duplicate_to f old new fl).1
  | OFcntl d c a => (fcntl f d c a).1
  | OLseek d o => (lseek f d o).1
  | OPipe2 m a fl => (pipe2 f m a fl).1.1
  | OOpenPty canonical session fl =>
      match pty_target canonical session with
      | Some (open, e) => (open_pty f canonical fl open e).1
      | None => f
      end
  | OOpenNode n canonical fl size => (open_node f n canonical fl size).1
  | OSocket domain type protocol => (FileCalls.socket f domain type protocol).1
  | OAccept m accepted a la fl => (accept_finish f m accepted (free_from f 3) a la fl).1.1
  | ONetwork n => with_network f n
  | OPipeRead h n => with_pipes f (PipeTable.read pipe_capacity (pipes (tables f)) h n).1.1
  | OPipeWrite h input =>
      with_pipes f (PipeTable.write pipe_capacity atomic_capacity (pipes (tables f)) h input (Z.of_nat (length input))).1
  | OPty o => with_ptys f (PtyTable.step pty_capacity (ptys (tables f)) o)
  | OReset => reset_descriptors f
  | OSaveParent => (save_parent_descriptors f).1
  | ORestoreParent => restore_parent_descriptors f
  | ODiscardParent => discard_parent_descriptors f
  | OParkBackground => park_background_descriptors f
  | OResumeBackground => resume_background_descriptors f
  | OParkInteractive => park_interactive_descriptors f
  | OResumeInteractive => resume_interactive_descriptors f
  | OStack level => stack_descriptors f level
  | OUnstack level => unstack_descriptors f level
  | ORelay => relay_descriptors f
  | OUnrelay => unrelay_descriptors f
  end.

(** Descriptor numbers are unsigned; a file that is opened is no pipe and no
    terminal; a move goes to a place that is free. *)
Definition allowed (f : Files) (o : op) : Prop :=
  match o with
  | OClose d | OFcntl d _ _ | OLseek d _ => 0 <= d
  | ODuplicate old new _ => 0 <= old /\ 0 <= new
  | OOpenNode n _ _ _ => kind n <> Kind.pipe /\ kind n <> Kind.pty
  | OAccept _ _ _ _ _ => free_from f 3 < 16
  | OPipeRead h n => PipeTable.handle_ok h /\ in_u 32 n
  | OPipeWrite h input => PipeTable.handle_ok h /\ Z.of_nat (length input) < 2 ^ 32
  | OPty o => PtyTable.op_ok o /\ PtyCount.counts o = false
  | OParkBackground => background f = saved_none
  | OParkInteractive => interactive_child f = saved_none
  | OStack level => (level < 32)%nat /\ nested_ancestors f !!! level = saved_none
  | OUnstack level => (level < 32)%nat /\ parent f = saved_none
  | ORelay => interactive_parent f = saved_none
  | OUnrelay => parent f = saved_none
  | _ => True
  end.

Inductive reachable : Files -> Prop :=
| reachable_initial n : reachable (initial n)
| reachable_step f o : reachable f -> allowed f o -> reachable (step f o).

(** Tables in which nothing but data moved. *)
Lemma with_pipes_ok f p : files_ok f ->
  PipeTable.inv pipe_capacity 4096 p /\
  (forall h e, PipeTable.handle_ok h ->
     PipeTable.references pipe_capacity p h e = PipeTable.references pipe_capacity (pipes (tables f)) h e) ->
  files_ok (with_pipes f p).
Proof.
  intros [Hf Hb] [Hi Hc]. apply tables_ok; [by split|]. split; [done|apply Hb|]. intros x Hx.
  pose proof (balanced_count _ _ Hb x Hx) as H. destruct x as [h e|h e]; [|exact H].
  cbn [references pipes] in *. by rewrite -> Hc.
Qed.

Lemma with_ptys_ok f p : files_ok f ->
  PtyTable.inv pty_capacity 4096 p /\
  (forall h e, PtyTable.handle_ok h ->
     PtyCount.references pty_capacity p h e = PtyCount.references pty_capacity (ptys (tables f)) h e) ->
  files_ok (with_ptys f p).
Proof.
  intros [Hf Hb] [Hi Hc]. apply tables_ok; [by split|]. split; [apply Hb|done|]. intros x Hx.
  pose proof (balanced_count _ _ Hb x Hx) as H. destruct x as [h e|h e]; [exact H|].
  cbn [references ptys] in *. by rewrite -> Hc.
Qed.

Lemma step_ok f o : files_ok f -> allowed f o -> files_ok (step f o).
Proof.
  intros Hok Ho. destruct o; cbn [step allowed] in *; try (by destruct Ho; auto using duplicate_to_ok, open_node_ok, stack_ok, unstack_ok);
    auto using close_ok, fcntl_ok, lseek_ok, pipe2_ok, socket_ok, network_ok, park_background_ok, park_interactive_ok, relay_ok, unrelay_ok.
  - destruct (pty_target canonical session) as [[open e]|] eqn:E; [by eapply open_pty_ok|done].
  - destruct (free_from_spec f 3 (ok_shape _ Hok) ltac:(lia)) as [Hr Hn]. apply accept_finish_ok; [done|lia|by apply Hn].
  - destruct Ho as [Hh Hn]. apply with_pipes_ok; [done|].
    apply (PipeCount.pipe_read_count _ pipe_table); [apply Hok|done..].
  - destruct Ho as [Hh Hn]. apply with_pipes_ok; [done|].
    apply (PipeCount.pipe_write_count _ pipe_table); [unfold atomic_capacity; lia|apply Hok|done..].
  - destruct Ho as [Ho Hn]. apply with_ptys_ok; [done|]. split.
    + apply PtyTable.pty_step_inv; [apply pty_table|apply Hok|done].
    + apply (PtyCount.pty_step_count _ pty_table); [apply Hok|done..].
  - by apply reset_files_ok.
  - pose proof (save_parent_ok f Hok) as L. destruct (save_parent_descriptors f). by destruct L.
  - by apply restore_parent_ok.
  - by apply discard_ok.
  - by apply resume_background_ok.
  - by apply resume_interactive_ok.
Qed.

Lemma reachable_files_ok f : reachable f -> files_ok f.
Proof. induction 1; [apply initial_files_ok|by apply step_ok]. Qed.


(** The end at the other side of a pipe. *)
Definition peer (e : PipeTable.PipeEnd) : PipeTable.PipeEnd :=
  match e with PipeTable.end_read => PipeTable.end_write | PipeTable.end_write => PipeTable.end_read end.

(** A descriptor of the running process for one end of a pipe polls as hung
    up exactly when no process has a descriptor for the other end. *)
Theorem pipe_hang_up_spec f d v :
  reachable f -> 0 <= d < 16 -> descriptor_slot f d = Some v -> kind (node v) = Kind.pipe ->
  descriptor_error_ready f d = bool_decide (total f (pipe_of (pipe v) (peer (pipe_end v))) = 0).
Proof.
  intros [Hf Hb]%reachable_files_ok Hd Hs Hk. unfold descriptor_error_ready. rw Hs Hk.
  assert (names v = Some (pipe_of (pipe v) (pipe_end v))) as Hn by (unfold names; by rw Hk).
  assert (end_ok (pipe_of (pipe v) (pipe_end v)) /\ 0 < total f (pipe_of (pipe v) (pipe_end v))) as [Hx Hpos].
  { unfold descriptor_slot in Hs. assert (weight v (pipe_of (pipe v) (pipe_end v)) = 1) as Hw by (unfold weight; by rewrite -> decide_True).
    destruct (d <? 3) eqn:Hlt.
    - case_match; [done|]. injection Hs as <-. pose proof (redirect_total f d (pipe_of (pipe (redirect f d)) (pipe_end (redirect f d))) Hf).
      split; [by apply (redirect_named f d Hf ltac:(lia))|lia].
    - case_match; [|done]. injection Hs as <-. pose proof (at_slot_total f d (pipe_of (pipe (at_slot f d)) (pipe_end (at_slot f d))) Hf).
      split; [by apply (at_slot_named f d Hf ltac:(lia))|lia]. }
  pose proof (balanced_count _ _ Hb _ Hx) as H1. cbn in Hx.
  pose proof (balanced_count _ _ Hb (pipe_of (pipe v) (peer (pipe_end v))) Hx) as H2.
  cbn [references] in H1, H2. rewrite <- H2. rewrite <- H1 in Hpos.
  unfold PipeTable.references, PipeTable.hung_up in *. destruct (PipeTable.find _ _ _) as [i|]; [|lia].
  destruct (pipe_end v); cbn; case_bool_decide; lia.
Qed.

(** ** Errors *)

(** The number names nothing: a free slot or none at all. *)
Definition closed (f : Files) (d : Z) : Prop := 3 <= d < 16 /\ is_none (at_slot f d) = true \/ 16 <= d.

Lemma closed_not_open f d : closed f d -> descriptor_open f d = false.
Proof.
  unfold closed, descriptor_open. intros [[Hd Hn]|Hd].
  - rewrite -> (proj2 (Z.ltb_ge d 3)), (proj2 (Z.ltb_lt d 16)), Hn by lia. done.
  - rewrite -> (proj2 (Z.ltb_ge d 3)), (proj2 (Z.ltb_ge d 16)) by lia. done.
Qed.

Lemma closed_network f d : closed f d -> network_descriptor f d = None.
Proof.
  unfold closed, network_descriptor, descriptor_slot. intros [[Hd Hn]|Hd].
  - rewrite -> (proj2 (Z.ltb_ge d 3)), (proj2 (Z.ltb_lt d 16)) by lia. unfold is_none, is_kind in *.
    apply bool_decide_eq_true in Hn. by rw Hn.
  - by rewrite -> (proj2 (Z.ltb_ge d 3)), (proj2 (Z.ltb_ge d 16)) by lia.
Qed.

End files.

(** ** A concrete kernel

    The ring buffers of the kernel and a machine that does nothing: a process
    opens a pipe (descriptors 3 and 4), makes the read end its standard input
    and forks. *)

#[local] Instance kernel_ring : ByteQueue RingBuffer.Ring.RingBuffer := RingBuffer.Ring.ring_queue 4096.
#[local] Instance kernel_ring_laws : ByteQueueLaws RingBuffer.Ring.RingBuffer 4096.
Proof. apply RingBuffer.Ring.ring_queue_laws. lia. Defined.
#[local] Instance kernel_machine : Machine StackSend.Logger := StackSend.logger.

Definition example_ops : list (op (W := StackSend.Logger)) :=
  [OPipe2 (fun _ => 0) Abi.user_begin 0; ODuplicate 3 0 0; OSaveParent; OClose 4].
Definition example_files : Files RingBuffer.Ring.RingBuffer StackSend.Logger :=
  fold_left step example_ops (initial (Stack.boot (StackSend.mkLogger 0 []))).
Definition example_end (e : PipeTable.PipeEnd) : End := pipe_of (PipeTable.mkHandle 1 0) e.

Lemma example_files_reachable : reachable example_files.
Proof. repeat apply (reachable_step _ _); try apply reachable_initial; cbn; lia. Qed.

Lemma example_end_ok e : end_ok (example_end e).
Proof. split; cbn; word. Qed.


Definition example_closed : Files RingBuffer.Ring.RingBuffer StackSend.Logger :=
  step (step example_files ORestoreParent) (OClose 4).

Lemma example_closed_reachable : reachable example_closed.
Proof.
  apply (reachable_step _ (OClose 4)); [|exact (Zle_0_pos 4)].
  apply (reachable_step _ ORestoreParent); [apply example_files_reachable|exact I].
Qed.

Lemma pipe_hang_up_spec_witness :
  descriptor_error_ready example_files 0 = false /\ descriptor_error_ready example_closed 0 = true.
Proof.
  split.
  - rewrite (pipe_hang_up_spec example_files 0 (redirect example_files 0) example_files_reachable
      ltac:(lia) ltac:(vm_compute; reflexivity) ltac:(vm_compute; reflexivity)). vm_compute. reflexivity.
  - rewrite (pipe_hang_up_spec example_closed 0 (redirect example_closed 0) example_closed_reachable
      ltac:(lia) ltac:(vm_compute; reflexivity) ltac:(vm_compute; reflexivity)). vm_compute. reflexivity.
Defined.

End DescriptorCounts.
