(* ===== verification/Context.v ===== *)
(** * [kernel/syscall.cpp]: forks, exits and parked processes

    All processes share one flat address space, so only one is in memory.  A
    fork saves the parent: its registers, its bookkeeping, its descriptors, and
    the bytes of its writable segment, its mappings and its stack in a block of
    the snapshot arena.  The child then runs in place and its exit brings the
    parent back.  A child that forks stacks its suspended parent; a service
    that waits for a connection and a shell that waits for its terminal are
    parked the same way. *)

From stdpp Require Import strings.
From S2P Require Import Prelude ByteQueue Base Filesystem Signal Pipe Pty Process SnapshotArena Ethernet Timing Interface Socket Tcp Stack.
From S2P Require Import Abi Memory PseudoFs Descriptor.
Local Open Scope Z_scope.

(** What [restore_executable_image] of kernel/main.cpp promises: it loads the
    segments of the file named by a path. *)
Class ImageLoader (E : Type) := restore_executable_image : E -> Memory.Memory -> list Z -> E * Memory.Memory * bool.
(** A loader writes nothing outside the memory of the program. *)
Class ImageLoaderLaws (E : Type) `{ImageLoader E} := restore_image_outside (e : E) m path a :
  ~ (Abi.user_begin <= a < Abi.user_end) -> (restore_executable_image e m path).1.2 a = m a.

(** [__fork_snapshot_arena_begin]; the linker script puts the end of the arena
    at the beginning of user memory. *)
Class LinkerScript := fork_snapshot_arena_begin : Z.

(** A call returns, or the machine is shut down. *)
Inductive outcome (A : Type) := Returned (a : A) | Shutdown (code : Z).
#[global] Arguments Returned {A} a.
#[global] Arguments Shutdown {A} code.
#[global] Instance outcome_bind : MBind outcome := fun A B f o =>
  match o with Returned a => f a | Shutdown code => Shutdown code end.

Module Context.
Import Memory Abi.Errno.

Module BackgroundWait.
Inductive t := none | socket_read.
#[global] Instance eq_dec : EqDecision t.
Proof. solve_decision. Defined.
End BackgroundWait.

Record ActiveSignalFrame := mkSignalFrame { saved_frame : Abi.TrapFrame; saved_blocked : Z; signal_active : bool }.
#[global] Instance signal_frame_eta : Eta ActiveSignalFrame := fun s =>
  mkSignalFrame (saved_frame s) (saved_blocked s) (signal_active s).
Definition signal_frame_default : ActiveSignalFrame := mkSignalFrame Abi.frame_default 0 false.

(** The fields that [SuspendedParent], [ParkedBackground] and
    [ParkedInteractiveChild] share. *)
Record Context := mkContext {
  frame : Abi.TrapFrame;
  brk : Z; mmap_begin : Z; mmap_cursor : Z; mutable_begin : Z; stack_begin : Z;
  mutable_size : Z; mmap_size : Z; stack_size : Z;
  pid : Z; parent_pid : Z; process_group : Z; session : Z; image : Z; child_tid_address : Z;
  signals : Signal.SignalState; signal_frame : ActiveSignalFrame; file_creation_mask : Z;
  current_directory : list Z; executable_path : list Z;
  snapshot : SnapshotArena.SnapshotAllocation;
}.
#[global] Instance context_eta : Eta Context := fun c =>
  mkContext (frame c) (brk c) (mmap_begin c) (mmap_cursor c) (mutable_begin c) (stack_begin c)
    (mutable_size c) (mmap_size c) (stack_size c) (pid c) (parent_pid c) (process_group c) (session c)
    (image c) (child_tid_address c) (signals c) (signal_frame c) (file_creation_mask c)
    (current_directory c) (executable_path c) (snapshot c).
Definition context_default : Context :=
  mkContext Abi.frame_default 0 0 0 0 0 0 0 0 0 0 0 0 0 0 Signal.initial signal_frame_default 0 [] []
    SnapshotArena.no_allocation.

Record SuspendedParent := mkSuspended {
  context : Context; child_status : Z; child_pid : Z; child_process_group : Z;
  active : bool; memory_saved : bool; child_waitable : bool;
}.
#[global] Instance suspended_eta : Eta SuspendedParent := fun p =>
  mkSuspended (context p) (child_status p) (child_pid p) (child_process_group p) (active p) (memory_saved p)
    (child_waitable p).
Definition suspended_default : SuspendedParent := mkSuspended context_default 0 0 0 false false false.
#[global] Instance suspended_inhabited : Inhabited SuspendedParent := populate suspended_default.

Record ParkedBackground := mkParkedBackground {
  background_context : Context; wait_socket : Socket.SocketHandle; wait : BackgroundWait.t; background_used : bool;
}.
#[global] Instance parked_background_eta : Eta ParkedBackground := fun b =>
  mkParkedBackground (background_context b) (wait_socket b) (wait b) (background_used b).
Definition background_default : ParkedBackground :=
  mkParkedBackground context_default Socket.invalid_socket BackgroundWait.none false.

Record ParkedInteractiveChild := mkParkedChild {
  child_context : Context; wait_pty : PtyTable.PtyHandle; wait_end : PtyTable.PtyEnd; child_used : bool;
}.
#[global] Instance parked_child_eta : Eta ParkedInteractiveChild := fun c =>
  mkParkedChild (child_context c) (wait_pty c) (wait_end c) (child_used c).
Definition interactive_default : ParkedInteractiveChild :=
  mkParkedChild context_default PtyTable.no_handle PtyTable.slave false.

Record WaitableChild := mkWaitable {
  w_pid : Z; w_parent_pid : Z; w_process_group : Z; status : Z; used : bool;
}.
#[global] Instance waitable_eta : Eta WaitableChild := fun w =>
  mkWaitable (w_pid w) (w_parent_pid w) (w_process_group w) (status w) (used w).
Definition waitable_default : WaitableChild := mkWaitable 0 0 0 0 false.
#[global] Instance waitable_inhabited : Inhabited WaitableChild := populate waitable_default.

Definition process_context_capacity := 32.
Definition arena_extents := 64.

Section kernel.
Context {Q : Type} `{!ByteQueue Q}.
Context {W : Type} {machine : Machine W}.
Context {E : Type} {loader : ImageLoader E}.
Context {linker : LinkerScript}.

(** The globals of the file, the memory, and the trap frame that the calls get
    by reference. *)
Record Kernel := mkKernel {
  memory : Memory;
  executables : E;
  process : Abi.Process;
  trap_frame : Abi.TrapFrame;
  parent : SuspendedParent;
  nested_ancestors : list SuspendedParent;
  nested_ancestor_depth : Z;
  waitable_children : list WaitableChild;
  creation_mask : Z;
  tid_address : Z;
  signal_state : Signal.SignalState;
  active_signal_frame : ActiveSignalFrame;
  snapshot_arena : SnapshotArena.SnapshotArena;
  snapshot_arena_initialized : bool;
  background : ParkedBackground;
  interactive_child : ParkedInteractiveChild;
  interactive_parent : SuspendedParent;
  interactive_relay_service_pid : Z;
  next_pid : Z;
  files : Descriptor.Files Q W;
}.
#[global] Instance kernel_eta : Eta Kernel := fun k =>
  mkKernel (memory k) (executables k) (process k) (trap_frame k) (parent k) (nested_ancestors k)
    (nested_ancestor_depth k) (waitable_children k) (creation_mask k) (tid_address k) (signal_state k)
    (active_signal_frame k) (snapshot_arena k) (snapshot_arena_initialized k) (background k)
    (interactive_child k) (interactive_parent k) (interactive_relay_service_pid k) (next_pid k) (files k).

(** ** Children to wait for *)

Definition waitable_space (k : Kernel) : bool := existsb (fun c => negb (used c)) (waitable_children k).

Definition publish_child_exit (p parent_p group status_ : Z) (k : Kernel) : Kernel :=
  match first_slot (fun c => negb (used c)) (waitable_children k) with
  | Some i =>
      k <| waitable_children ::= <[i := mkWaitable p parent_p group status_ true]> |>
        <| parent ::= fun s => s <| child_waitable := true |> |>
  | None => k
  end.

Definition refresh_child_waitable (k : Kernel) : Kernel :=
  k <| parent ::= fun s => s <| child_waitable := existsb used (waitable_children k) |> |>.

(** ** Snapshots *)

Definition ensure_snapshot_arena (k : Kernel) : Kernel * bool :=
  if snapshot_arena_initialized k then (k, true) else
  let '(a, st) := SnapshotArena.initialize arena_extents (snapshot_arena k) fork_snapshot_arena_begin Abi.user_begin in
  let ready := bool_decide (st = SnapshotArena.success) in
  (k <| snapshot_arena := a |> <| snapshot_arena_initialized := ready |>, ready).

(** The allocation it hands out; [None] when the arena cannot be set up and the
    caller's variable stays as it is. *)
Definition allocate_snapshot (k : Kernel) (size : Z) : Kernel * option SnapshotArena.SnapshotAllocation :=
  let '(k, ready) := ensure_snapshot_arena k in
  if negb ready then (k, None) else
  let '(a, allocation) := SnapshotArena.allocate (snapshot_arena k) size in
  (k <| snapshot_arena := a |>, Some allocation).

Definition release_snapshot (k : Kernel) (c : Context) : outcome (Kernel * Context) :=
  if negb (SnapshotArena.valid (snapshot c)) then Returned (k, c) else
  match SnapshotArena.release arena_extents (snapshot_arena k) (snapshot c) with
  | (a, SnapshotArena.success) =>
      Returned (k <| snapshot_arena := a |>, c <| snapshot := SnapshotArena.no_allocation |>)
  | _ => Shutdown 9
  end.

Definition with_sizes (c : Context) : Context :=
  c <| mutable_size := u32 (brk c - mutable_begin c) |>
    <| mmap_size := u32 (mmap_cursor c - mmap_begin c) |>
    <| stack_size := u32 (Abi.user_stack_top - stack_begin c) |>.

Definition inverted (c : Context) : bool :=
  (brk c <? mutable_begin c) || (mmap_cursor c <? mmap_begin c) || (Abi.user_stack_top <? stack_begin c).

Definition copy (to from size : Z) (m : Memory) : Memory := store to (load m from (Z.to_nat size)) m.

(** The three [memcpy] into the snapshot and the three out of it. *)
Definition copy_out (c : Context) (m : Memory) : Memory :=
  let at_ := SnapshotArena.address (snapshot c) in
  let m := copy at_ (mutable_begin c) (mutable_size c) m in
  let m := copy (at_ + mutable_size c) (mmap_begin c) (mmap_size c) m in
  copy (at_ + (mutable_size c + mmap_size c)) (stack_begin c) (stack_size c) m.
Definition copy_in (c : Context) (m : Memory) : Memory :=
  let at_ := SnapshotArena.address (snapshot c) in
  let m := copy (mutable_begin c) at_ (mutable_size c) m in
  let m := copy (mmap_begin c) (at_ + mutable_size c) (mmap_size c) m in
  copy (stack_begin c) (at_ + (mutable_size c + mmap_size c)) (stack_size c) m.

(** The part that [save_parent_memory], [save_interactive_child_memory] and
    [save_background_memory] share: an allocation of the exact size and the
    copy into it. *)
Definition save_regions (k : Kernel) (c : Context) : Kernel * Context * bool :=
  let total := mutable_size c + mmap_size c + stack_size c in
  if 2 ^ 32 - 1 <? total then (k, c, false) else
  match allocate_snapshot k total with
  | (k, None) => (k, c, false)
  | (k, Some allocation) =>
      let c := c <| snapshot := allocation |> in
      if negb (SnapshotArena.valid allocation) then (k, c, false)
      else (k <| memory ::= copy_out c |>, c, true)
  end.

Definition save_parent_memory (k : Kernel) : Kernel * bool :=
  if memory_saved (parent k) then (k, true) else
  if inverted (context (parent k)) then (k, false) else
  let '(k, c, saved) := save_regions k (with_sizes (context (parent k))) in
  (k <| parent ::= fun s => s <| context := c |> <| memory_saved := saved |> |>, saved).

(** The other two compute the sizes before they look at the bounds. *)
Definition save_parked_memory (k : Kernel) (c : Context) : Kernel * Context * bool :=
  let c := with_sizes c in if inverted c then (k, c, false) else save_regions k c.

(** ** Registers and bookkeeping *)

(** The assignments to a context before a switch: everything but the sizes and
    the snapshot. *)
Definition capture (k : Kernel) (stack : Z) (c : Context) : Context :=
  let p := process k in
  mkContext (trap_frame k) (Abi.brk p) (Abi.mmap_begin p) (Abi.mmap_cursor p) (Abi.mutable_begin p) stack
    (mutable_size c) (mmap_size c) (stack_size c)
    (Abi.pid p) (Abi.parent_pid p) (Abi.process_group p) (Abi.session p) (Abi.image p) (tid_address k)
    (signal_state k) (active_signal_frame k) (creation_mask k) (Abi.current_directory p) (Abi.executable_path p)
    (snapshot c).

Definition stack_of (k : Kernel) : Z := Base.align_down 32 (Abi.reg (trap_frame k) 2) 16.

(** The assignments that bring a context back; [frame] is the registers it gets. *)
Definition reload (c : Context) (f : Abi.TrapFrame) (k : Kernel) : Kernel :=
  k <| trap_frame := f |>
    <| process ::= fun p =>
         Abi.mkProcess (brk c) (mmap_begin c) (mmap_cursor c) (mutable_begin c) (Abi.exit_code p) (image c)
           (pid c) (parent_pid c) (process_group c) (session c) (current_directory c) (executable_path c) true |>
    <| tid_address := child_tid_address c |>
    <| signal_state := signals c |>
    <| active_signal_frame := signal_frame c |>
    <| creation_mask := file_creation_mask c |>.

Definition load_image (path : list Z) (k : Kernel) : outcome Kernel :=
  match restore_executable_image (executables k) (memory k) path with
  | (e, m, true) => Returned (k <| executables := e |> <| memory := m |>)
  | (_, _, false) => Shutdown 9
  end.

(** [frame.x[10] = value; frame.mepc += 4]. *)
Definition return_from (value : Z) (f : Abi.TrapFrame) : Abi.TrapFrame :=
  Abi.set_reg 10 value f <| Abi.mepc ::= fun pc => u32 (pc + 4) |>.

(** ** Stacking a suspended parent *)

Definition stack_suspended_ancestor (k : Kernel) : Kernel * bool :=
  if negb (active (parent k)) || negb (memory_saved (parent k)) ||
     negb (SnapshotArena.valid (snapshot (context (parent k)))) ||
     SnapshotArena.valid (snapshot (background_context (background k))) ||
     (nested_ancestor_depth k =? Descriptor.nested_ancestor_capacity)
  then (k, false) else
  let level := Z.to_nat (nested_ancestor_depth k) in
  (k <| nested_ancestors ::= <[level := parent k]> |>
     <| files ::= fun f => Descriptor.stack_descriptors f level |>
     <| parent := suspended_default |>
     <| background := background_default |>
     <| nested_ancestor_depth ::= fun d => u32 (d + 1) |>, true).

Definition capture_background (wait_socket_ : Socket.SocketHandle) (k : Kernel) : Kernel :=
  k <| background ::= fun b =>
         mkParkedBackground (capture k (stack_of k) (background_context b)) wait_socket_
           BackgroundWait.socket_read true |>.

(** [parent = nested_ancestors[--nested_ancestor_depth]] with its descriptors. *)
Definition unstack_ancestor (k : Kernel) : Kernel :=
  let depth := u32 (nested_ancestor_depth k - 1) in
  let level := Z.to_nat depth in
  k <| nested_ancestor_depth := depth |>
    <| parent := nested_ancestors k !!! level |>
    <| nested_ancestors ::= <[level := suspended_default]> |>
    <| files ::= fun f => Descriptor.unstack_descriptors f level |>.

Definition reinstate_suspended_ancestor (k : Kernel) : Kernel :=
  if nested_ancestor_depth k =? 0 then k else
  unstack_ancestor (capture_background Socket.invalid_socket k <| background ::= fun b => b <| wait := BackgroundWait.none |> |>).

(** ** Back to the parent *)

Definition resume_parent (k : Kernel) (status_ : Z) (child_completed return_from_clone : bool) : outcome Kernel :=
  let child_group := Abi.process_group (process k) in
  k ← (if Abi.image (process k) =? image (context (parent k)) then Returned k
       else load_image (executable_path (context (parent k))) k);
  k ← (if memory_saved (parent k) then
         '(k, c) ← release_snapshot (k <| memory ::= copy_in (context (parent k)) |>) (context (parent k));
         Returned (k <| parent ::= fun s => s <| context := c |> |>)
       else Returned k);
  let c := context (parent k) in
  let k := reload c (if return_from_clone then return_from (child_pid (parent k)) (frame c) else frame c) k in
  let k :=
    if child_completed then
      let k := k <| parent ::= fun s => s <| child_status := status_ |> <| child_process_group := child_group |> |> in
      publish_child_exit (child_pid (parent k)) (pid c) child_group status_ k
        <| signal_state ::= fun s => (Signal.queue s Signal.signal_child).1 |>
    else k in
  Returned (k <| parent ::= fun s => s <| active := false |> <| memory_saved := false |> |>
              <| files ::= Descriptor.restore_parent_descriptors |>).

Definition restore_parent (k : Kernel) (status_ : Z) : outcome Kernel := resume_parent k status_ true true.

(** ** [clone] *)

Definition signal_mask := 0xff.
Definition clone_vm := 0x100.
Definition clone_vfork := 0x4000.
Definition clone_child_cleartid := 0x00200000.
Definition clone_child_settid := 0x01000000.

(** The condition under which [clone] refuses its arguments. *)
Definition clone_invalid (flags stack_pointer child_tid : Z) : bool :=
  let behavior := Z.land flags (u32 (Z.lnot signal_mask)) in
  let ordinary_fork :=
    Z.land behavior (u32 (Z.lnot (Z.lor clone_child_cleartid clone_child_settid))) =? 0 in
  let vfork := behavior =? Z.lor clone_vm clone_vfork in
  (negb ordinary_fork && negb vfork) || negb (Z.land flags signal_mask =? Signal.signal_child) ||
  negb (contains stack_pointer 1) ||
  (negb (Z.land flags (Z.lor clone_child_settid clone_child_cleartid) =? 0) &&
   (negb (contains child_tid 4) || negb (aligned child_tid 4))).

(** The assignments to [parent] that [clone] and the two resumptions share; the
    child that will run has the number [child]. *)
Definition suspend (stack child : Z) (k : Kernel) : Kernel :=
  k <| parent ::= fun s => s <| context ::= capture k stack |> <| child_pid := child |>
         <| active := true |> <| memory_saved := false |> |>.

Definition clone (k : Kernel) (flags stack child_tid : Z) : Kernel * Z :=
  let child_stack := if stack =? 0 then Abi.reg (trap_frame k) 2 else stack in
  let nested := active (parent k) && (Abi.pid (process k) =? child_pid (parent k)) in
  if clone_invalid flags child_stack child_tid then (k, Abi.error invalid_argument) else
  if active (parent k) && negb nested then (k, Abi.error invalid_argument) else
  if (nested && (nested_ancestor_depth k =? Descriptor.nested_ancestor_capacity)) || negb (waitable_space k)
  then (k, Abi.error no_memory) else
  let '(k, stacked) := if nested then stack_suspended_ancestor k else (k, true) in
  if negb stacked then (k, Abi.error no_memory) else
  let '(f, copied) := Descriptor.save_parent_descriptors (files k) in
  let k := k <| files := f |> in
  if negb copied then (reinstate_suspended_ancestor k, Abi.error no_memory) else
  let k := suspend (Base.align_down 32 child_stack 16) (next_pid k) k <| next_pid ::= fun n => u32 (n + 1) |> in
  let '(k, saved) := save_parent_memory k in
  if negb saved then
    (reinstate_suspended_ancestor
       (k <| parent ::= fun s => s <| active := false |> |> <| files ::= Descriptor.discard_parent_descriptors |>),
     Abi.error no_memory)
  else
    let lineage := Process.fork_lineage
      (Process.mkLineage (pid (context (parent k))) (parent_pid (context (parent k)))) (child_pid (parent k)) in
    let k := k <| process ::= fun p => p <| Abi.pid := Process.l_pid lineage |>
                                          <| Abi.parent_pid := Process.l_parent_pid lineage |> |>
               <| tid_address := if Z.land flags clone_child_cleartid =? 0 then 0 else child_tid |> in
    (k <| memory ::= if Z.land flags clone_child_settid =? 0 then id else store_u32 child_tid (Abi.pid (process k)) |>, 0).

(** ** The exit of a child: the first branch of [exit] in [dispatch_syscall] *)

Definition clear_tid (k : Kernel) : Kernel :=
  (if negb (tid_address k =? 0) && contains (tid_address k) 4
   then k <| memory ::= store_u32 (tid_address k) 0 |> else k) <| tid_address := 0 |>.

Definition exit_child (k : Kernel) (status_ : Z) : outcome (Kernel * Z) :=
  let restored_child_pid := child_pid (parent k) in
  let k := clear_tid k in
  let k :=
    if background_used (background k) && (Abi.pid (process k) =? pid (background_context (background k)))
    then k <| background ::= fun b => b <| background_used := false |> <| wait := BackgroundWait.none |> |>
    else k in
  k ← restore_parent k status_;
  Returned (reinstate_suspended_ancestor k, i32 restored_child_pid).

(** ** A service that waits for a connection *)

(** [parent.frame.x[17] == clone]: the parent is still in the fork that made
    the process that parks. *)
Definition first_park (k : Kernel) : bool :=
  Abi.reg (frame (context (parent k))) 17 =? Abi.syscall_number Abi.Syscall.clone.

(** [park_background], without the hold of connected sockets in the interactive
    build.  The timer flag it sets belongs to the hardware. *)
Definition park_background (k : Kernel) (wait_socket_ : Socket.SocketHandle) : outcome (Kernel * bool) :=
  if negb (active (parent k)) then Returned (k, false) else
  if background_used (background k) && negb (Abi.pid (process k) =? pid (background_context (background k)))
  then Returned (k, false) else
  let k := capture_background wait_socket_ k in
  let '(k, c, saved) := save_parked_memory k (background_context (background k)) in
  let k := k <| background ::= fun b => b <| background_context := c |> |> in
  if negb saved then Returned (k <| background ::= fun b => b <| background_used := false |> |>, false) else
  let k := k <| files ::= Descriptor.park_background_descriptors |> in
  k ← resume_parent k 0 false (first_park k);
  Returned (k, true).

Definition background_ready (k : Kernel) : bool :=
  let b := background k in
  background_used b && bool_decide (wait b = BackgroundWait.socket_read) &&
  negb (bool_decide (wait_socket b = Socket.invalid_socket)) &&
  Stack.socket_readable (Descriptor.network (Descriptor.tables (files k))) (wait_socket b).

(** What both resumptions do with the memory, the registers and the bookkeeping
    of a parked context: the context comes back without its snapshot. *)
Definition bring_back (k : Kernel) (c : Context) (f : Abi.TrapFrame) : outcome (Kernel * Context) :=
  '(k, c) ← release_snapshot (k <| memory ::= copy_in c |>) c;
  Returned (reload c f k, c).

(** The running process becomes the suspended parent of [child]. *)
Definition suspend_running (k : Kernel) (child : Z) : Kernel * bool :=
  let k := suspend (stack_of k) child k in
  let '(k, saved) := save_parent_memory k in
  if saved then (k, true) else
  (k <| parent ::= fun s => s <| active := false |> |> <| files ::= Descriptor.discard_parent_descriptors |>, false).

Definition resume_background_if_ready (k : Kernel) : outcome (Kernel * bool) :=
  if negb (background_ready k) || active (parent k) then Returned (k, false) else
  let '(f, copied) := Descriptor.save_parent_descriptors (files k) in
  let k := k <| files := f |> in
  if negb copied then Returned (k, false) else
  let '(k, suspended) := suspend_running k (pid (background_context (background k))) in
  if negb suspended then Returned (k, false) else
  let k := k <| files ::= Descriptor.reset_descriptors |> in
  let c := background_context (background k) in
  k ← load_image (executable_path c) k;
  '(k, c) ← bring_back k c (frame c);
  Returned (k <| files ::= Descriptor.resume_background_descriptors |>
              <| background ::= fun b => b <| background_context := c |> <| wait := BackgroundWait.none |> |>, true).

(** ** A program that waits for its terminal *)

Definition capture_interactive_child (h : PtyTable.PtyHandle) (e : PtyTable.PtyEnd) (k : Kernel) : Kernel :=
  k <| interactive_child ::= fun c => mkParkedChild (capture k (stack_of k) (child_context c)) h e true |>.

Definition park_interactive_child (k : Kernel) (h : PtyTable.PtyHandle) (e : PtyTable.PtyEnd) : outcome (Kernel * bool) :=
  if negb (Process.pty_child_can_park (child_used (interactive_child k)) (active (parent k))
             (bool_decide (e = PtyTable.slave)))
  then Returned (k, false) else
  let direct := Descriptor.parent_owns_pty_master (files k) h in
  let relay := negb direct && negb (active (interactive_parent k)) &&
               Descriptor.nearest_ancestor_owns_pty_master (files k) (nested_ancestor_depth k) h in
  if negb direct && negb relay then Returned (k, false) else
  let k := capture_interactive_child h e k in
  let '(k, c, saved) := save_parked_memory k (child_context (interactive_child k)) in
  let k := k <| interactive_child ::= fun i => i <| child_context := c |> |> in
  if negb saved then Returned (k <| interactive_child := interactive_default |>, false) else
  let k := k <| files ::= Descriptor.park_interactive_descriptors |> in
  let k :=
    if relay then
      let k := k <| interactive_parent := parent k |> <| files ::= Descriptor.relay_descriptors |> in
      let k := unstack_ancestor k in
      k <| interactive_relay_service_pid := pid (context (parent k)) |>
    else k in
  k ← resume_parent k 0 false (first_park k);
  Returned (k, true).

(** [frame.x[10] = -EINTR; frame.mepc += 4] when a signal ends the wait. *)
Definition resumed_frame (interrupted_ : bool) (f : Abi.TrapFrame) : Abi.TrapFrame :=
  if interrupted_ then return_from (u32 (Abi.error interrupted)) f else f.

Definition resume_interactive_child_if_ready (k : Kernel) : outcome (Kernel * bool) :=
  let i := interactive_child k in
  let slave_readable := child_used i &&
    PtyTable.readable Descriptor.pty_capacity (Descriptor.ptys (Descriptor.tables (files k))) (wait_pty i) (wait_end i) in
  let wait_interrupted := child_used i && Signal.has_deliverable (signals (child_context i)) in
  let relayed := active (interactive_parent k) in
  if negb (Process.pty_child_can_resume (child_used i) (Abi.pid (process k)) (parent_pid (child_context i))
             (active (parent k)) slave_readable wait_interrupted
             (if relayed then interactive_relay_service_pid k else Process.invalid_pid)) ||
     (relayed && (nested_ancestor_depth k =? Descriptor.nested_ancestor_capacity))
  then Returned (k, false) else
  let '(f, copied) := Descriptor.save_parent_descriptors (files k) in
  let k := k <| files := f |> in
  if negb copied then Returned (k, false) else
  let '(k, suspended) :=
    suspend_running k (if relayed then pid (context (interactive_parent k)) else pid (child_context i)) in
  if negb suspended then Returned (k, false) else
  k ← (if relayed then
         let '(k, stacked) := stack_suspended_ancestor k in
         if negb stacked then Shutdown 9 else
         Returned (k <| parent := interactive_parent k |> <| interactive_parent := suspended_default |>
                     <| files ::= Descriptor.unrelay_descriptors |> <| interactive_relay_service_pid := 0 |>)
       else Returned k);
  let c := child_context (interactive_child k) in
  let k := k <| files ::= Descriptor.reset_descriptors |> in
  k ← (if Abi.image (process k) =? image c then Returned k else load_image (executable_path c) k);
  '(k, _) ← bring_back k c (resumed_frame wait_interrupted (frame c));
  Returned (k <| files ::= Descriptor.resume_interactive_descriptors |> <| interactive_child := interactive_default |>, true).
End kernel.
#[global] Arguments Kernel Q W E : clear implicits.
End Context.
