(* ===== verification/ContextLaws.v ===== *)
(** * Forks and exits: the lemmas

    The bytes a snapshot holds, what allocating and releasing one does to the
    arena and to the other snapshots, and what a switch does to the
    descriptors. *)

From S2P Require Import Prelude ByteQueue Base Filesystem Signal Pipe Pty Process SnapshotArena Ethernet Timing Interface Socket Tcp Stack.
From S2P Require Import Abi Memory PseudoFs Descriptor DescriptorLaws Path FileCalls DescriptorCounts Context.
Local Open Scope Z_scope.

Module ContextLaws.
Import Memory Context.

(** ** Copies *)

Lemma copy_at to from size m a : 0 <= size ->
  copy to from size m a = if decide (to <= a < to + size) then m (from + (a - to)) else m a.
Proof.
  intros Hs. unfold copy, store. rewrite -> length_load. rewrite -> Z2Nat.id by done.
  case_decide; [|done]. unfold load. apply list_lookup_total_correct.
  rewrite -> Fs.lookup_bytes_at by lia. do 2 f_equal. lia.
Qed.

(** The regions of a context and the place of its snapshot. *)
Definition in_region (c : Context) (a : Z) : Prop :=
  mutable_begin c <= a < mutable_begin c + mutable_size c \/
  mmap_begin c <= a < mmap_begin c + mmap_size c \/
  stack_begin c <= a < stack_begin c + stack_size c.

Definition snapshot_bytes (c : Context) : Z := mutable_size c + mmap_size c + stack_size c.

(** The snapshot of [c] in the memory [m] holds the regions as they were in [m0]. *)
Definition holds (c : Context) (m m0 : Memory) : Prop :=
  let at_ := SnapshotArena.address (snapshot c) in
  (forall i, 0 <= i < mutable_size c -> m (at_ + i) = m0 (mutable_begin c + i)) /\
  (forall i, 0 <= i < mmap_size c -> m (at_ + mutable_size c + i) = m0 (mmap_begin c + i)) /\
  (forall i, 0 <= i < stack_size c -> m (at_ + (mutable_size c + mmap_size c) + i) = m0 (stack_begin c + i)).

(** Sizes are not negative; the regions lie in user memory, the snapshot below. *)
Record placed (c : Context) : Prop := {
  placed_sizes : 0 <= mutable_size c /\ 0 <= mmap_size c /\ 0 <= stack_size c;
  placed_regions : Abi.user_begin <= mutable_begin c /\ Abi.user_begin <= mmap_begin c /\ Abi.user_begin <= stack_begin c;
  placed_snapshot : SnapshotArena.address (snapshot c) + snapshot_bytes c <= Abi.user_begin;
}.

Ltac copies := rewrite -> ?copy_at by lia; repeat (case_decide; try lia); try (f_equal; lia); try done.

Lemma copy_out_holds c m : placed c -> holds c (copy_out c m) m.
Proof.
  intros [(H1 & H2 & H3) (H4 & H5 & H6) H7]. unfold snapshot_bytes in H7. unfold holds, copy_out.
  split_and!; intros i Hi; copies.
Qed.

Lemma copy_out_outside c m a : placed c ->
  ~ (SnapshotArena.address (snapshot c) <= a < SnapshotArena.address (snapshot c) + snapshot_bytes c) ->
  copy_out c m a = m a.
Proof.
  intros [(H1 & H2 & H3) _ _] Ha. unfold snapshot_bytes in Ha. unfold copy_out. copies.
Qed.

Lemma copy_in_region c m m0 a : placed c -> holds c m m0 -> in_region c a -> copy_in c m a = m0 a.
Proof.
  intros [(H1 & H2 & H3) (H4 & H5 & H6) H7] (Ha & Hb & Hc) Hr. unfold snapshot_bytes in H7. unfold copy_in.
  rewrite -> !copy_at by lia.
  destruct (decide (stack_begin c <= a < stack_begin c + stack_size c)) as [Hs|Hs].
  { rewrite -> !decide_False by lia. rewrite -> Hc by lia. f_equal. lia. }
  destruct (decide (mmap_begin c <= a < mmap_begin c + mmap_size c)) as [Hm|Hm].
  { rewrite -> decide_False by lia. rewrite -> Hb by lia. f_equal. lia. }
  destruct Hr as [Hr|[Hr|Hr]]; [|done..]. rewrite -> decide_True by done. rewrite -> Ha by lia. f_equal. lia.
Qed.

Lemma copy_in_outside c m a : placed c -> ~ in_region c a -> copy_in c m a = m a.
Proof. intros [(H1 & H2 & H3) _ _] Ha. unfold in_region in Ha. unfold copy_in. copies. Qed.

Lemma holds_ext c m m' m0 : placed c -> holds c m m0 ->
  (forall a, SnapshotArena.address (snapshot c) <= a < SnapshotArena.address (snapshot c) + snapshot_bytes c -> m' a = m a) ->
  holds c m' m0.
Proof.
  intros [(H1 & H2 & H3) _ _] (Ha & Hb & Hc) He. unfold snapshot_bytes in He. unfold holds.
  split_and!; intros i Hi; rewrite -> He by lia; auto.
Qed.

(** ** The arena and its live snapshots *)

Section kernel.
Context {Q : Type} `{!ByteQueue Q} `{!ByteQueueLaws Q 4096}.
Context {W : Type} {machine : Machine W}.
Context {E : Type} {loader : ImageLoader E}.
Context {linker : LinkerScript}.
Abbreviation Kernel := (Kernel Q W E).

(** The linker's place for the arena, and the arena with its live allocations. *)
Definition linked : Prop := 0 <= fork_snapshot_arena_begin < Abi.user_begin.

Lemma extents_bound : 1 <= arena_extents < 2 ^ 31.
Proof. by unfold arena_extents. Qed.

Record arena_ok (k : Kernel) (live : list SnapshotArena.SnapshotAllocation) : Prop := {
  arena_fresh : snapshot_arena_initialized k = false -> live = [];
  arena_ledger : snapshot_arena_initialized k = true ->
    SnapshotArena.ledger arena_extents (snapshot_arena k) live /\
    SnapshotArena.end_ (snapshot_arena k) <= Abi.user_begin;
}.


(** [k'] differs from [k] in the arena only. *)
Record arena_only (k k' : Kernel) : Prop := {
  arena_only_eq : k' = k <| snapshot_arena := snapshot_arena k' |> <| snapshot_arena_initialized := snapshot_arena_initialized k' |>;
}.

Lemma arena_only_refl k : arena_only k k.
Proof. split. by destruct k. Qed.

(** A block is no part of the live ones. *)
Definition apart (r : SnapshotArena.SnapshotAllocation) (live : list SnapshotArena.SnapshotAllocation) : Prop :=
  forall d a, d ∈ live -> SnapshotArena.hit d a = 1 -> SnapshotArena.hit r a = 0.

Lemma initialize_ok k :
  linked -> arena_ok k [] -> snapshot_arena_initialized k = false ->
  let '(k', ready) := ensure_snapshot_arena k in
  arena_only k k' /\ arena_ok k' [] /\ snapshot_arena_initialized k' = ready.
Proof.
  intros Hl Ha Hi. unfold ensure_snapshot_arena. rw Hi.
  destruct (SnapshotArena.initialize _ _ _ _) as [a st] eqn:Hin.
  assert (arena_only k (k <| snapshot_arena := a |> <| snapshot_arena_initialized := bool_decide (st = SnapshotArena.success) |>)) as Hs by by split.
  case_bool_decide as Hst; [subst st|by repeat split].
  split; [exact Hs|]. split; [|done]. split; [done|]. intros _. cbn.
  destruct (SnapshotArena.initialize_effect arena_extents extents_bound (snapshot_arena k) fork_snapshot_arena_begin Abi.user_begin a ltac:(unfold linked, Abi.user_begin in *; word) ltac:(unfold Abi.user_begin; word) Hin) as (Hinv & Hal & Hex).
  pose proof (SnapshotArena.inv_region _ _ Hinv) as [? ?].
  split.
  - split; [done|by intros r ?%elem_of_nil|by rw Hal|]. intros x. rw Hex. cbn. unfold SnapshotArena.hit. cbn. repeat case_decide; lia.
  - unfold SnapshotArena.initialize in Hin. case_match; [done|]. injection Hin as <-. reflexivity.
Qed.

Lemma ensure_ok k live :
  linked -> arena_ok k live ->
  let '(k', ready) := ensure_snapshot_arena k in
  arena_only k k' /\ arena_ok k' live /\ snapshot_arena_initialized k' = ready.
Proof.
  intros Hl Ha. destruct (snapshot_arena_initialized k) eqn:Hi.
  - unfold ensure_snapshot_arena. rw Hi. split; [apply arena_only_refl|done].
  - pose proof (arena_fresh _ _ Ha Hi) as ->. by apply initialize_ok.
Qed.

(** What [allocate_snapshot] hands out: nothing, or a block below user memory
    that is apart from the live ones. *)
Lemma allocate_snapshot_ok k live n k' r :
  linked -> arena_ok k live -> in_u 32 n -> allocate_snapshot k n = (k', r) ->
  arena_only k k' /\
  match r with
  | Some a =>
      if SnapshotArena.valid a then
        arena_ok k' (a :: live) /\ n <= SnapshotArena.size a /\ apart a live /\
        SnapshotArena.address a + SnapshotArena.size a <= Abi.user_begin
      else arena_ok k' live
  | None => arena_ok k' live
  end.
Proof.
  intros Hl Ha Hn. unfold allocate_snapshot. pose proof (ensure_ok k live Hl Ha) as He.
  destruct (ensure_snapshot_arena k) as [k1 ready]. destruct He as (He & Ha1 & Hi).
  destruct ready; cbn [negb]; [|by intros [= <- <-]].
  destruct (arena_ledger _ _ Ha1 Hi) as [Hled Hend].
  pose proof (SnapshotArena.ledger_step arena_extents extents_bound _ live (SnapshotArena.CAllocate n) Hled Hn) as Hstep.
  pose proof (SnapshotArena.allocate_effect arena_extents extents_bound (snapshot_arena k1) n (SnapshotArena.ledger_inv _ _ _ Hled) Hn) as Heff.
  cbn in Hstep. destruct (SnapshotArena.allocate _ _) as [a al]. cbn in Hstep. intros [= <- <-].
  assert (arena_only k (k1 <| snapshot_arena := a |>)) as Hs.
  { destruct He as [He]. split. rw He. cbn. reflexivity. }
  split; [exact Hs|].
  assert (SnapshotArena.end_ a = SnapshotArena.end_ (snapshot_arena k1)) as Hend'.
  { destruct Heff as [(-> & _)|(_ & _ & _ & _ & He' & _)]; done. }
  destruct (SnapshotArena.valid al) eqn:Hv.
  - destruct Heff as [(_ & -> & _)|(_ & _ & Hinv & _ & _ & Hok & Hsz & _ & Hcov)]; [done|]. split_and!.
    + split; cbn; [by rw Hi|]. intros _. split; [exact Hstep|lia].
    + lia.
    + intros d x Hd Hx. pose proof (SnapshotArena.ledger_cover _ _ _ Hled x) as Hc. pose proof (Hcov x) as Hcx.
      pose proof (SnapshotArena.cover_elem live d x Hd). pose proof (SnapshotArena.cover_nonneg (SnapshotArena.extents a) x).
      pose proof (SnapshotArena.hit_range al x). case_decide; lia.
    + destruct Hok as (_ & _ & Hle & _). lia.
  - split; cbn; [by rw Hi|]. intros _. split; [exact Hstep|lia].
Qed.

Lemma live_valid k live r : arena_ok k live -> r ∈ live -> SnapshotArena.valid r = true.
Proof.
  intros Ha Hr. destruct (snapshot_arena_initialized k) eqn:Hi.
  - destruct (arena_ledger _ _ Ha Hi) as [Hled _]. destruct (SnapshotArena.ledger_ok _ _ _ Hled r Hr) as (? & ? & _).
    pose proof (SnapshotArena.inv_region _ _ (SnapshotArena.ledger_inv _ _ _ Hled)). unfold SnapshotArena.valid.
    apply andb_true_iff. split; apply negb_true_iff, Z.eqb_neq; lia.
  - rw (arena_fresh _ _ Ha Hi) in Hr. by apply elem_of_nil in Hr.
Qed.

Lemma release_snapshot_ok k live c k' c' :
  arena_ok k (snapshot c :: live) -> release_snapshot k c = Returned (k', c') ->
  arena_only k k' /\ arena_ok k' live /\ c' = c <| snapshot := SnapshotArena.no_allocation |>.
Proof.
  intros Ha. unfold release_snapshot.
  rewrite -> (live_valid k _ (snapshot c) Ha ltac:(by left)). cbn [negb].
  destruct (snapshot_arena_initialized k) eqn:Hi; [|by pose proof (arena_fresh _ _ Ha Hi)].
  destruct (arena_ledger _ _ Ha Hi) as [Hled Hend].
  destruct (SnapshotArena.release _ _ _) as [a st] eqn:Hrel.
  destruct (SnapshotArena.ledger_release arena_extents extents_bound _ _ 0 _ a st Hled eq_refl Hrel) as [[-> ->]|[-> Hled']]; [done|].
  intros [= <- <-]. split; [by split|]. split; [|done]. split; cbn; [by rw Hi|]. intros _. split; [exact Hled'|].
  destruct (SnapshotArena.ok_in_u arena_extents _ _ (SnapshotArena.ledger_inv _ _ _ Hled) (SnapshotArena.ledger_ok _ _ _ Hled (snapshot c) ltac:(by left))) as [Hu1 Hu2].
  destruct (SnapshotArena.release_effect arena_extents extents_bound _ _ _ _ (SnapshotArena.ledger_inv _ _ _ Hled) Hu1 Hu2 Hrel) as [(? & _)|[(? & _)|(_ & _ & _ & -> & _)]]; done.
Qed.

Lemma arena_ok_ext k k' live : arena_ok k live ->
  snapshot_arena k' = snapshot_arena k -> snapshot_arena_initialized k' = snapshot_arena_initialized k -> arena_ok k' live.
Proof. intros [H1 H2] Ha Hi. split; rewrite -> ?Ha, Hi; done. Qed.

(** ** Saving a context's regions *)

(** [k'] differs from [k] in the arena and the memory only. *)
Definition arena_memory_only (k k' : Kernel) : Prop :=
  k' = k <| snapshot_arena := snapshot_arena k' |>
         <| snapshot_arena_initialized := snapshot_arena_initialized k' |> <| memory := memory k' |>.

Lemma arena_only_memory k k' : arena_only k k' -> arena_memory_only k k' /\ memory k' = memory k.
Proof. intros [H]. unfold arena_memory_only. rw H. split; reflexivity. Qed.

(** The regions of a context are sized and lie in user memory. *)
Record regions_ok (c : Context) : Prop := {
  regions_sizes : 0 <= mutable_size c /\ 0 <= mmap_size c /\ 0 <= stack_size c;
  regions_user : Abi.user_begin <= mutable_begin c /\ Abi.user_begin <= mmap_begin c /\ Abi.user_begin <= stack_begin c;
}.

(** A saved context: where its snapshot is and what it holds. *)
Record saved_ok (live : list SnapshotArena.SnapshotAllocation) (k k' : Kernel) (c c' : Context) : Prop := {
  saved_context : c' = c <| snapshot := snapshot c' |>;
  saved_placed : placed c';
  saved_room : snapshot_bytes c' <= SnapshotArena.size (snapshot c');
  saved_arena : arena_ok k' (snapshot c' :: live);
  saved_apart : apart (snapshot c') live;
  saved_memory : memory k' = copy_out c' (memory k);
}.

Lemma save_regions_ok k live c k' c' saved :
  linked -> arena_ok k live -> regions_ok c -> save_regions k c = (k', c', saved) ->
  arena_memory_only k k' /\
  if saved then saved_ok live k k' c c' else arena_ok k' live /\ memory k' = memory k.
Proof.
  intros Hl Ha [Hs Hr]. unfold save_regions. destruct (_ <? _) eqn:Ht.
  { intros [= <- <- <-]. split; [apply arena_only_memory, arena_only_refl|done]. }
  destruct (allocate_snapshot _ _) as [k1 r] eqn:Hal.
  destruct (allocate_snapshot_ok k live (mutable_size c + mmap_size c + stack_size c) k1 r Hl Ha ltac:(unfold in_u; lia) Hal) as [Hk Hr1].
  destruct (arena_only_memory _ _ Hk) as [Hk1 Hm].
  destruct r as [a|]; [|intros [= <- <- <-]; done].
  destruct (SnapshotArena.valid a) eqn:Hv; cbn [negb]; [|intros [= <- <- <-]; done].
  destruct Hr1 as (Ha1 & Hsz & Hap & Hend). intros [= <- <- <-]. split.
  - unfold arena_memory_only in *. rw Hk1. reflexivity.
  - split; try done; cbn -[copy_out].
    + split; cbn; [done|done|unfold snapshot_bytes; cbn; lia].
    + by eapply arena_ok_ext.
    + by rw Hm.
Qed.

Lemma with_sizes_regions c :
  inverted c = false -> Abi.user_begin <= mutable_begin c < 2 ^ 32 -> Abi.user_begin <= mmap_begin c < 2 ^ 32 ->
  Abi.user_begin <= stack_begin c < 2 ^ 32 -> in_u 32 (brk c) -> in_u 32 (mmap_cursor c) ->
  regions_ok (with_sizes c) /\ mutable_size (with_sizes c) = brk c - mutable_begin c /\
  mmap_size (with_sizes c) = mmap_cursor c - mmap_begin c /\
  stack_size (with_sizes c) = Abi.user_stack_top - stack_begin c.
Proof.
  unfold inverted, with_sizes. intros [[H1 H7]%orb_false_iff H8]%orb_false_iff H2 H3 H4 H5 H6. cbn.
  unfold Abi.user_stack_top, Abi.user_begin in *. apply Z.ltb_ge in H1, H7, H8.
  assert (Hm : u32 (brk c - mutable_begin c) = brk c - mutable_begin c) by word.
  assert (Hp : u32 (mmap_cursor c - mmap_begin c) = mmap_cursor c - mmap_begin c) by word.
  assert (Hs : u32 (0x81fff000 - stack_begin c) = 0x81fff000 - stack_begin c) by word.
  split; [|done]. split; cbn; rewrite -> ?Hm, ?Hp, ?Hs; unfold Abi.user_begin; lia.
Qed.
End kernel.
End ContextLaws.
