(* ===== verification/ContextSpec.v ===== *)
(** * Forks and exits: what they preserve

    The suspended processes form a stack.  A fork pushes the running process
    and an exit pops it; whatever the child and its descendants do in between,
    the parent comes back as it was. *)

From S2P Require Import Prelude ByteQueue Base Filesystem Signal Pipe Pty Process SnapshotArena Ethernet Timing Interface Socket Tcp Stack.
From S2P Require Import RingBuffer StackSend Abi Memory PseudoFs Counts Descriptor DescriptorLaws Path FileCalls DescriptorCounts Context ContextLaws.
Local Open Scope Z_scope.

Module ContextSpec.
Import Memory Context ContextLaws.

Section kernel.
Context {Q : Type} `{!ByteQueue Q} `{!ByteQueueLaws Q 4096}.
Context {W : Type} {machine : Machine W}.
Context {E : Type} {loader : ImageLoader E} {loader_laws : ImageLoaderLaws E}.
Context {linker : LinkerScript}.
Abbreviation Kernel := (Kernel Q W E).

Definition level (k : Kernel) : nat := Z.to_nat (nested_ancestor_depth k).

(** The suspended processes, the parent of the running one first, and their
    descriptors. *)
Definition stack_with {A} (top : A) (k : Kernel) (nested : list A) : list A :=
  (if active (parent k) then [top] else []) ++ reverse (take (level k) nested).
Definition suspended (k : Kernel) : list SuspendedParent := stack_with (parent k) k (nested_ancestors k).
Definition saved_files (k : Kernel) : list Descriptor.Saved :=
  stack_with (Descriptor.parent (files k)) k (Descriptor.nested_ancestors (files k)).

Definition snapshots (l : list SuspendedParent) : list SnapshotArena.SnapshotAllocation := snapshot ∘ context <$> l.

Record suspended_ok (p : SuspendedParent) : Prop := {
  suspended_active : active p = true;
  suspended_saved : memory_saved p = true;
  suspended_placed : placed (context p);
  suspended_room : snapshot_bytes (context p) <= SnapshotArena.size (snapshot (context p));
}.

Record process_ok (p : Abi.Process) : Prop := {
  process_mutable : Abi.user_begin <= Abi.mutable_begin p < 2 ^ 32;
  process_mmap : Abi.user_begin <= Abi.mmap_begin p < 2 ^ 32;
  process_brk : in_u 32 (Abi.brk p);
  process_cursor : in_u 32 (Abi.mmap_cursor p);
}.

(** The bookkeeping of the kernel is sound; [others] are snapshots that belong
    to no suspended parent. *)
Record wf (k : Kernel) (others : list SnapshotArena.SnapshotAllocation) : Prop := {
  wf_process : process_ok (process k);
  wf_frame : Abi.frame_ok (trap_frame k);
  wf_suspended : Forall suspended_ok (suspended k);
  wf_top : active (parent k) = true -> child_pid (parent k) = Abi.pid (process k);
  wf_arena : arena_ok k (snapshots (suspended k) ++ others);
  wf_depth : 0 <= nested_ancestor_depth k <= 32;
  wf_nested : length (nested_ancestors k) = 32%nat;
  wf_deep : 0 < nested_ancestor_depth k -> active (parent k) = true;
  wf_files : DescriptorCounts.files_ok (files k);
  wf_next : in_u 32 (next_pid k);
  wf_tid : in_u 32 (tid_address k);
  wf_levels : forall i, (level k <= i < 32)%nat -> Descriptor.nested_ancestors (files k) !!! i = Descriptor.saved_none;
}.

(** ** Pushing the running process *)

(** What concerns the running process is the same in both. *)
Record same_running (k k' : Kernel) : Prop := {
  same_memory : memory k' = memory k;
  same_process : process k' = process k;
  same_frame : trap_frame k' = trap_frame k;
  same_waitable : waitable_children k' = waitable_children k;
  same_mask : creation_mask k' = creation_mask k;
  same_tid : tid_address k' = tid_address k;
  same_signals : signal_state k' = signal_state k;
  same_signal_frame : active_signal_frame k' = active_signal_frame k;
  same_arena : snapshot_arena k' = snapshot_arena k;
  same_initialized : snapshot_arena_initialized k' = snapshot_arena_initialized k;
  same_next_pid : next_pid k' = next_pid k;
  same_descriptors : Descriptor.active (files k') = Descriptor.active (files k);
}.

Lemma same_running_refl k : same_running k k.
Proof. by split. Qed.

(** No parent: its place is free and the stack is [S] with the descriptors [F]. *)
Record idle (k : Kernel) (S : list SuspendedParent) (F : list Descriptor.Saved) : Prop := {
  idle_inactive : active (parent k) = false;
  idle_suspended : reverse (take (level k) (nested_ancestors k)) = S;
  idle_files : reverse (take (level k) (Descriptor.nested_ancestors (files k))) = F;
  idle_depth : 0 <= nested_ancestor_depth k <= 32;
  idle_nested : length (nested_ancestors k) = 32%nat;
  idle_files_ok : DescriptorCounts.files_ok (files k);
  idle_levels : forall i, (level k <= i < 32)%nat ->
    Descriptor.nested_ancestors (files k) !!! i = Descriptor.saved_none;
}.

Lemma take_insert_here {A} (l : list A) i x : (i < length l)%nat -> take (S i) (<[i := x]> l) = take i l ++ [x].
Proof.
  intros Hi. rewrite -> (take_S_r _ _ x) by (by rewrite -> list_lookup_insert_eq by done).
  by rewrite -> take_insert_ge by lia.
Qed.

(** ** Pushing the parent *)

Lemma stack_idle k others k' :
  wf k others -> active (parent k) = true -> stack_suspended_ancestor k = (k', true) ->
  same_running k k' /\ idle k' (suspended k) (saved_files k).
Proof.
  intros Hwf Ha. unfold stack_suspended_ancestor. destruct (_ || _) eqn:Hc; [done|]. intros [= <-].
  apply orb_false_iff in Hc as [_ Hd]. unfold Descriptor.nested_ancestor_capacity in Hd.
  pose proof (wf_depth _ _ Hwf). pose proof (wf_nested _ _ Hwf) as Hn.
  pose proof (DescriptorCounts.shape_depth _ (DescriptorCounts.ok_shape _ (wf_files _ _ Hwf))) as Hfn.
  assert (Z.to_nat (u32 (nested_ancestor_depth k + 1)) = S (level k)) as Hl by (unfold level; word).
  assert (level k < 32)%nat as Hlt by (unfold level; lia). split; [by split|].
  split; cbn -[Descriptor.stack_descriptors insert take reverse]; unfold level in *; cbn [nested_ancestor_depth];
    cbn -[insert take reverse]; rewrite -> ?Hl.
  - done.
  - unfold suspended, stack_with, level. rw Ha. rewrite -> take_insert_here, reverse_app by lia. done.
  - unfold saved_files, stack_with, level. rw Ha. rewrite -> take_insert_here, reverse_app by lia. done.
  - word.
  - by rw length_insert.
  - apply DescriptorCounts.stack_ok; [apply Hwf|done|]. apply (wf_levels _ _ Hwf). unfold level. lia.
  - intros i Hi. rewrite -> list_lookup_total_insert_ne by lia. apply (wf_levels _ _ Hwf). unfold level. lia.
Qed.

(** The first steps of [clone]. *)
Lemma push_idle k others k' :
  wf k others ->
  (if active (parent k) && (Abi.pid (process k) =? child_pid (parent k)) then stack_suspended_ancestor k else (k, true)) = (k', true) ->
  same_running k k' /\ idle k' (suspended k) (saved_files k).
Proof.
  intros Hwf. destruct (active (parent k)) eqn:Ha.
  - rewrite -> (wf_top _ _ Hwf Ha), Z.eqb_refl. cbn [andb]. by eapply stack_idle.
  - cbn [andb]. intros [= <-]. split; [by split|]. split; try apply Hwf; [done|..].
    + unfold suspended, stack_with. by rw Ha.
    + unfold saved_files, stack_with. by rw Ha.
Qed.

(** ** Popping the stack *)

Lemma idle_shallow k S F : idle k S F -> nested_ancestor_depth k = 0 -> S = [] /\ F = [] /\ level k = 0%nat.
Proof. intros Hi Hd. unfold level. rw Hd. rw -(idle_suspended _ _ _ Hi) -(idle_files _ _ _ Hi). unfold level. by rw Hd. Qed.

Lemma reverse_take_S {A} `{!Inhabited A} (l : list A) n : (n < length l)%nat ->
  reverse (take (S n) l) = l !!! n :: reverse (take n l).
Proof. intros Hn. rewrite -> (take_S_r _ _ (l !!! n)) by (by apply list_lookup_lookup_total_lt). by rewrite -> reverse_app. Qed.

Lemma reinstate_wf k S F others :
  idle k S F -> Forall suspended_ok S -> Descriptor.parent (files k) = Descriptor.saved_none ->
  process_ok (process k) -> Abi.frame_ok (trap_frame k) -> in_u 32 (next_pid k) -> in_u 32 (tid_address k) ->
  arena_ok k (snapshots S ++ others) ->
  (forall p S', S = p :: S' -> child_pid p = Abi.pid (process k)) ->
  let k' := reinstate_suspended_ancestor k in
  wf k' others /\ suspended k' = S /\ saved_files k' = F /\ same_running k k'.
Proof.
  intros Hi Hs Hp Hpr Hf Hnp Htid Ha Ht. cbn zeta. unfold reinstate_suspended_ancestor.
  destruct (Z.eqb_spec (nested_ancestor_depth k) 0) as [Hd|Hd].
  { destruct (idle_shallow _ _ _ Hi Hd) as (-> & -> & Hl).
    assert (suspended k = []) as Hsu by (unfold suspended, stack_with; by rw (idle_inactive _ _ _ Hi) Hl).
    split_and!; [|done|unfold saved_files, stack_with; by rw (idle_inactive _ _ _ Hi) Hl|by split].
    split; try done; rewrite -> ?Hsu; try done; try apply Hi.
    - intros H. by rw (idle_inactive _ _ _ Hi) in H.
    - lia. }
  pose proof (idle_depth _ _ _ Hi). assert (Z.to_nat (u32 (nested_ancestor_depth k - 1)) = (level k - 1)%nat) as Hl by (unfold level; word).
  assert (level k = Datatypes.S (level k - 1)) as Hl1 by (unfold level; lia). set (n := (level k - 1)%nat) in *.
  assert (n < 32)%nat as Hn by (unfold level in *; lia).
  pose proof (DescriptorCounts.shape_depth _ (DescriptorCounts.ok_shape _ (idle_files_ok _ _ _ Hi))) as Hfn.
  pose proof (idle_nested _ _ _ Hi) as Hnn.
  pose proof (idle_suspended _ _ _ Hi) as HS. rewrite -> Hl1, reverse_take_S in HS by lia.
  pose proof (idle_files _ _ _ Hi) as HF. rewrite -> Hl1, reverse_take_S in HF by lia.
  assert (active (nested_ancestors k !!! n) = true) as Hact.
  { rewrite <- HS in Hs. apply Forall_cons in Hs as [Hs _]. apply Hs. }
  set (k' := unstack_ancestor _).
  assert (parent k' = nested_ancestors k !!! n) as Hpar by (unfold k', unstack_ancestor; cbn -[lookup_total]; by rw Hl).
  assert (level k' = n) as Hlev by (unfold level, k', unstack_ancestor; cbn; done).
  assert (nested_ancestors k' = <[n := suspended_default]> (nested_ancestors k)) as Hnes by (unfold k', unstack_ancestor; cbn -[insert]; by rw Hl).
  assert (files k' = Descriptor.unstack_descriptors (files k) n) as Hfil by (unfold k', unstack_ancestor; cbn -[Descriptor.unstack_descriptors]; by rw Hl).
  assert (suspended k' = S) as Hsu.
  { unfold suspended, stack_with. rw Hpar Hact Hlev Hnes. rewrite -> take_insert_ge by lia. exact HS. }
  assert (same_running k k') as Hsame by by split.
  split_and!; [|done| |done].
  - split; rewrite -> ?Hsu; try done.
    + rw Hpar. intros _. symmetry in HS. exact (Ht _ _ HS).
    + by eapply arena_ok_ext.
    + change (0 <= u32 (nested_ancestor_depth k - 1) <= 32). clear -H Hd. word.
    + by rw Hnes length_insert.
    + by rw Hpar.
    + rw Hfil. apply DescriptorCounts.unstack_ok; [apply Hi|done|done].
    + rw Hlev Hfil. intros i Hii. cbn -[insert]. destruct (decide (i = n)) as [->|Hne].
      * rewrite -> list_lookup_total_insert_eq by lia. done.
      * rewrite -> list_lookup_total_insert_ne by done. apply (idle_levels _ _ _ Hi). lia.
  - unfold saved_files, stack_with. rw Hpar Hact Hlev Hfil. cbn -[insert lookup_total]. rewrite -> take_insert_ge by lia. exact HF.
Qed.

(** ** Suspending the running process *)

(** What the running process leaves in [parent]: its context at the moment, the
    registers and the bookkeeping of [k], and a snapshot with its regions. *)
Record suspended_as (k k' : Kernel) (stack child : Z) : Prop := {
  as_context : context (parent k') =
    with_sizes (capture k stack context_default) <| snapshot := snapshot (context (parent k')) |>;
  as_upright : inverted (context (parent k')) = false;
  as_ok : suspended_ok (parent k');
  as_child : child_pid (parent k') = child;
  as_holds : holds (context (parent k')) (memory k') (memory k);
}.

(** The live snapshots are untouched. *)
Definition live_kept (live : list SnapshotArena.SnapshotAllocation) (k k' : Kernel) : Prop :=
  forall r a, r ∈ live -> SnapshotArena.hit r a = 1 -> memory k' a = memory k a.

Lemma hit_in r a : SnapshotArena.address r <= a < SnapshotArena.address r + SnapshotArena.size r -> SnapshotArena.hit r a = 1.
Proof. intros H. unfold SnapshotArena.hit. by rewrite -> decide_True by done. Qed.

Lemma saved_live_kept live k k' c c' : saved_ok live k k' c c' -> live_kept live k k'.
Proof.
  intros [_ Hp Hr _ Hap Hm] r a Hra Ha. rw Hm. apply copy_out_outside; [done|]. intros Hin.
  pose proof (Hap _ _ Hra Ha) as Hz. rewrite -> hit_in in Hz by lia. done.
Qed.

Lemma suspend_save_ok k live stack child k' saved :
  linked -> arena_ok k live -> process_ok (process k) -> Abi.user_begin <= stack < 2 ^ 32 ->
  save_parent_memory (suspend stack child k) = (k', saved) ->
  k' = k <| memory := memory k' |> <| snapshot_arena := snapshot_arena k' |>
         <| snapshot_arena_initialized := snapshot_arena_initialized k' |> <| parent := parent k' |> /\
  live_kept live k k' /\
  if saved then suspended_as k k' stack child /\ arena_ok k' (snapshot (context (parent k')) :: live)
  else arena_ok k' live.
Proof.
  intros Hl Ha [Hp1 Hp2 Hp3 Hp4] Hst. unfold save_parent_memory. change (memory_saved (parent (suspend stack child k))) with false. cbn iota.
  assert (arena_ok (suspend stack child k) live) as Ha' by by eapply arena_ok_ext.
  set (c0 := context (parent (suspend stack child k))).
  assert (c0 = capture k stack (context (parent k))) as Hc0 by reflexivity.
  destruct (inverted c0) eqn:Hinv; [intros [= <- <-]; split_and!; [reflexivity|by intros ?|exact Ha']|].
  destruct (with_sizes_regions c0 Hinv) as (Hreg & _); [rw Hc0; done..|].
  destruct (save_regions _ _) as [[k1 c1] sv] eqn:Hsave.
  destruct (save_regions_ok _ live _ _ _ _ Hl Ha' Hreg Hsave) as [Hk1 Hsv]. unfold arena_memory_only in Hk1.
  intros [= <- <-]. split; [cbn; rw Hk1; reflexivity|]. destruct sv.
  - split; [exact (saved_live_kept _ _ _ _ _ Hsv)|]. destruct Hsv as [Hc Hpl Hrm Har Hap Hm]. split.
    + assert (c1 = with_sizes (capture k stack context_default) <| snapshot := snapshot c1 |>) as Hc1 by (rw {1}Hc; rw Hc0; reflexivity).
      split; cbn -[copy_out with_sizes inverted]; [exact Hc1| |..].
      * rw Hc. exact Hinv.
      * split; cbn; try done. by rw Hk1.
      * by rw Hk1.
      * rw Hm. by apply copy_out_holds.
    + by eapply arena_ok_ext.
  - destruct Hsv as [Har Hm]. split; [intros ? ? ? ?; cbn; by rw Hm|by eapply arena_ok_ext].
Qed.

(** ** [clone] *)

(** Where the stack region of the parent begins. *)
Definition stack_start (k : Kernel) (stack : Z) : Z :=
  Base.align_down 32 (if stack =? 0 then Abi.reg (trap_frame k) 2 else stack) 16.

(** A fork: the child [k1] of [k]. *)
Record forked (k k1 : Kernel) (others : list SnapshotArena.SnapshotAllocation) (stack : Z) : Prop := {
  forked_wf : wf k1 others;
  forked_stack : suspended k1 = parent k1 :: suspended k;
  forked_files : saved_files k1 = Descriptor.active (files k) :: saved_files k;
  forked_parent : suspended_as k k1 stack (next_pid k);
  forked_bounds : Abi.user_begin <= stack < 2 ^ 32;
  forked_live : live_kept (snapshots (suspended k) ++ others) k k1;
  forked_pid : Abi.pid (process k1) = next_pid k;
  forked_waitable : waitable_children k1 = waitable_children k;
  forked_descriptors : Descriptor.active (files k1) = Descriptor.active (files k);
}.

Lemma child_stack_bounds sp : in_u 32 sp -> contains sp 1 = true -> Abi.user_begin <= Base.align_down 32 sp 16 < 2 ^ 32.
Proof.
  intros Hs Hc. apply user_contains_spec in Hc; [|done|lia]. unfold Abi.user_begin, Abi.user_end in *.
  pose proof (Base.align_down_spec 32 4 sp ltac:(lia) Hs) as Hd. change (2 ^ 4) with 16 in Hd. word.
Qed.

Lemma suspended_push (k1 : Kernel) S :
  active (parent k1) = true -> reverse (take (level k1) (nested_ancestors k1)) = S -> suspended k1 = parent k1 :: S.
Proof. intros Ha <-. unfold suspended, stack_with. by rw Ha. Qed.

Lemma live_kept_trans live (k k1 k2 : Kernel) : live_kept live k k1 -> live_kept live k1 k2 -> live_kept live k k2.
Proof. intros H1 H2 r a Hr Ha. by rewrite -> (H2 r a Hr Ha), (H1 r a Hr Ha). Qed.

Lemma live_kept_outside live (k k' : Kernel) :
  (forall r, r ∈ live -> SnapshotArena.address r + SnapshotArena.size r <= Abi.user_begin) ->
  (forall a, ~ (Abi.user_begin <= a < Abi.user_end) -> memory k' a = memory k a) -> live_kept live k k'.
Proof.
  intros Hb Hm r a Hr Ha. apply Hm. unfold SnapshotArena.hit in Ha. case_decide; [|done]. specialize (Hb r Hr). lia.
Qed.

Lemma arena_below (k : Kernel) live r : arena_ok k live -> r ∈ live -> SnapshotArena.address r + SnapshotArena.size r <= Abi.user_begin.
Proof.
  intros Ha Hr. destruct (snapshot_arena_initialized k) eqn:Hi.
  - destruct (arena_ledger _ _ Ha Hi) as [Hled Hend]. destruct (SnapshotArena.ledger_ok _ _ _ Hled r Hr) as (_ & _ & ? & _). lia.
  - rw (arena_fresh _ _ Ha Hi) in Hr. by apply elem_of_nil in Hr.
Qed.

Lemma user_store_outside a l m b : Abi.user_begin <= a -> a + Z.of_nat (length l) <= Abi.user_end ->
  ~ (Abi.user_begin <= b < Abi.user_end) -> store a l m b = m b.
Proof. intros H1 H2 Hb. unfold store. by rewrite -> decide_False by lia. Qed.

(** The child's own copy of what [clone] leaves: its numbers, its thread
    address and the word at that address. *)
Lemma fork_finish (k2 : Kernel) S others child tid unset address :
  active (parent k2) = true -> reverse (take (level k2) (nested_ancestors k2)) = S ->
  suspended_ok (parent k2) -> Forall suspended_ok S -> process_ok (process k2) -> Abi.frame_ok (trap_frame k2) -> in_u 32 (next_pid k2) -> in_u 32 address ->
  arena_ok k2 (snapshots (parent k2 :: S) ++ others) -> 0 <= nested_ancestor_depth k2 <= 32 ->
  length (nested_ancestors k2) = 32%nat -> DescriptorCounts.files_ok (files k2) ->
  (forall i, (level k2 <= i < 32)%nat -> Descriptor.nested_ancestors (files k2) !!! i = Descriptor.saved_none) ->
  child_pid (parent k2) = child ->
  (unset = false -> Abi.user_begin <= tid /\ tid + 4 <= Abi.user_end) ->
  let k3 := k2 <| process ::= fun p => p <| Abi.pid := child |> <| Abi.parent_pid := pid (context (parent k2)) |> |> <| tid_address := address |>
               <| memory ::= if unset then id else store_u32 tid child |> in
  wf k3 others /\ suspended k3 = parent k3 :: S /\ live_kept (snapshots (parent k2 :: S) ++ others) k2 k3.
Proof.
  intros Ha HS Hp HSok [Hp1 Hp2 Hp3 Hp4] Hf Hnp Hadr Har Hd Hn Hfl Hl Hc Ht k3.
  assert (suspended k3 = parent k2 :: S) as Hsu by exact (suspended_push k2 S Ha HS).
  split_and!; [|done|].
  - split; rewrite -> ?Hsu; try done; [by constructor|by eapply arena_ok_ext].
  - apply live_kept_outside; [intros r Hr; exact (arena_below k2 _ r Har Hr)|]. intros a Hout. unfold k3. cbn. destruct unset; [done|].
    apply user_store_outside; [lia|cbn; lia|done].
Qed.

Lemma capture_same k k' stack c : same_running k k' -> capture k' stack c = capture k stack c.
Proof. intros [? Hp Hf ? Hm Ht Hs Hg ? ? ?]. unfold capture. by rewrite -> Hp, Hf, Hm, Ht, Hs, Hg. Qed.

Lemma land_lor_zero f a b : Z.land f (Z.lor a b) = 0 -> Z.land f a = 0.
Proof.
  intros H. replace a with (Z.land (Z.lor a b) a) by (apply Z.bits_inj'; intros n _; rewrite -> Z.land_spec, Z.lor_spec; by destruct (Z.testbit a n), (Z.testbit b n)).
  by rewrite -> Z.land_assoc, H.
Qed.

(** Setting the child's thread number writes to user memory. *)
Lemma settid_in_user flags tid : in_u 32 tid ->
  negb (Z.land flags (Z.lor clone_child_settid clone_child_cleartid) =? 0) && (negb (contains tid 4) || negb (aligned tid 4)) = false ->
  (Z.land flags clone_child_settid =? 0) = false -> Abi.user_begin <= tid /\ tid + 4 <= Abi.user_end.
Proof.
  intros Ht Hc Hs. apply Z.eqb_neq in Hs. destruct (Z.eqb_spec (Z.land flags (Z.lor clone_child_settid clone_child_cleartid)) 0) as [Hz|Hz].
  { by apply land_lor_zero in Hz. }
  cbn [negb andb] in Hc. apply orb_false_iff in Hc as [Hc%negb_false_iff _]. by apply user_contains_spec in Hc; [|done|lia].
Qed.

Lemma holds_kept c live k k' m0 : placed c -> snapshot_bytes c <= SnapshotArena.size (snapshot c) -> snapshot c ∈ live ->
  live_kept live k k' -> holds c (memory k) m0 -> holds c (memory k') m0.
Proof.
  intros Hp Hr Hin Hk Hh. eapply holds_ext; [done|exact Hh|]. intros a Ha. apply (Hk _ _ Hin). apply hit_in. lia.
Qed.

Lemma clone_ok k others flags stack tid k1 :
  linked -> wf k others -> in_u 32 stack -> in_u 32 tid -> clone k flags stack tid = (k1, 0) -> forked k k1 others (stack_start k stack).
Proof.
  intros Hl Hwf Hst Htid. unfold clone. set (sp := if stack =? 0 then _ else stack).
  destruct (clone_invalid flags sp tid) eqn:Hinv; [done|]. destruct (_ && negb _); [done|]. destruct (_ || negb _); [done|].
  destruct (if _ && _ then _ else _) as [k0 pushed] eqn:Hpush. destruct pushed; cbn [negb]; [|done].
  destruct (push_idle _ _ _ Hwf Hpush) as [Hsame Hidle].
  pose proof (DescriptorCounts.save_parent_ok _ (idle_files_ok _ _ _ Hidle)) as Hsave.
  destruct (Descriptor.save_parent_descriptors _) as [f copied]. destruct copied; cbn [negb]; [|done].
  set (ks := suspend _ _ _ <| next_pid ::= _ |>).
  assert (in_u 32 sp) as Hsp.
  { unfold sp. destruct (_ =? 0); [|done]. destruct (wf_frame _ _ Hwf) as [Hlen Hw _]. unfold Abi.reg.
    eapply Forall_lookup_1; [exact Hw|]. apply list_lookup_lookup_total_lt. lia. }
  unfold clone_invalid in Hinv. rewrite -> !orb_false_iff, negb_false_iff in Hinv. destruct Hinv as [[_ Hsp1%negb_false_iff] Hset].
  pose proof (child_stack_bounds sp Hsp Hsp1) as Hstk.
  set (k2 := k0 <| files := f |> <| next_pid ::= fun n => u32 (n + 1) |>).
  change ks with (suspend (Base.align_down 32 sp 16) (next_pid k0) k2). clear ks.
  assert (arena_ok k2 (snapshots (suspended k) ++ others)) as Har.
  { eapply arena_ok_ext; [apply Hwf|apply Hsame|apply Hsame]. }
  assert (process_ok (process k2)) as Hpr by (change (process k2) with (process k0); rewrite -> (same_process _ _ Hsame); apply Hwf).
  destruct (save_parent_memory _) as [k3 saved] eqn:Hmem. destruct saved; cbn [negb]; [|done].
  destruct (suspend_save_ok _ _ _ _ _ _ Hl Har Hpr Hstk Hmem) as (Hk3 & Hlive & Has & Har3).
  destruct Has as [Hctx Hup Hok Hch Hho].
  assert (child_pid (parent k3) = next_pid k) as Hcp by (rewrite -> Hch; apply Hsame).
  destruct (fork_finish k3 (suspended k) others (child_pid (parent k3)) tid (Z.land flags clone_child_settid =? 0)
    (if Z.land flags clone_child_cleartid =? 0 then 0 else tid)) as (Hwf3 & Hsu3 & Hlive3); try done.
  - apply Hok.
  - rw Hk3. apply (idle_suspended _ _ _ Hidle).
  - apply Hwf.
  - by rw Hk3.
  - assert (trap_frame k3 = trap_frame k) as -> by (rw Hk3; apply Hsame). apply Hwf.
  - assert (next_pid k3 = u32 (next_pid k0 + 1)) as -> by (rw Hk3; done). word.
  - destruct (Z.land flags clone_child_cleartid =? 0); [word|done].
  - rw Hk3. apply (idle_depth _ _ _ Hidle).
  - rw Hk3. apply (idle_nested _ _ _ Hidle).
  - rw Hk3. apply Hsave.
  - rw Hk3. intros i Hi. cbn. rewrite -> (DescriptorCounts.parent_saved_nested _ _ _ Hsave). by apply (idle_levels _ _ _ Hidle).
  - by apply settid_in_user.
  - set (kf := k3 <| process ::= _ |> <| tid_address := _ |> <| memory ::= _ |>) in *.
    intros Hret. assert (k1 = kf) as -> by (injection Hret as <-; reflexivity).
    assert (live_kept (snapshots (suspended k) ++ others) k3 kf) as Hlive4 by (intros r a Hr; apply Hlive3; by right).
    split; try done.
    + unfold saved_files, stack_with. change (active (parent kf)) with (active (parent k3)). rewrite -> (suspended_active _ Hok).
      change (files kf) with (files k3). change (level kf) with (level k3).
      assert (files k3 = f /\ level k3 = level k0) as [-> ->] by (rw Hk3; done).
      rewrite -> (DescriptorCounts.parent_saved_nested _ _ _ Hsave), (DescriptorCounts.parent_saved_copy _ _ _ Hsave), (idle_files _ _ _ Hidle).
      by rewrite -> (same_descriptors _ _ Hsame).
    + change (stack_start k stack) with (Base.align_down 32 sp 16).
      assert (capture k2 (Base.align_down 32 sp 16) context_default = capture k (Base.align_down 32 sp 16) context_default) as Hcap.
      { rewrite <- (capture_same k k0) by done. reflexivity. }
      rw Hcap in Hctx. split; try done.
      eapply (holds_kept _ _ k3 kf); [apply Hok|apply Hok| |exact Hlive3|].
      * by left.
      * change (memory k2) with (memory k0) in Hho. by rewrite -> (same_memory _ _ Hsame) in Hho.
    + eapply live_kept_trans; [|exact Hlive4]. intros r a Hr Ha. rewrite -> (Hlive r a Hr Ha). change (memory k2) with (memory k0). by rewrite -> (same_memory _ _ Hsame).
    + change (waitable_children kf) with (waitable_children k3). assert (waitable_children k3 = waitable_children k0) as -> by (rw Hk3; done). apply Hsame.
    + change (files kf) with (files k3). assert (files k3 = f) as -> by (rw Hk3; done).
      rewrite -> (DescriptorCounts.parent_saved_active _ _ _ Hsave). apply Hsame.
Qed.

(** ** What a process does between its fork and its exit *)

(** The parent is the same but for signals sent to it and what it knows of its
    children. *)
Record up_to_signals (p p' : SuspendedParent) : Prop := {
  up_context : context p' = context p <| signals := signals (context p') |>;
  up_child : child_pid p' = child_pid p;
  up_active : active p' = active p;
  up_saved : memory_saved p' = memory_saved p;
}.

(** Anything in user mode, and any system call that neither forks nor exits nor
    parks: its own memory, registers, bookkeeping and descriptors change. *)
Record own_step (k k' : Kernel) : Prop := {
  own_memory a : ~ (Abi.user_begin <= a < Abi.user_end) -> memory k' a = memory k a;
  own_process : process_ok (process k');
  own_frame : Abi.frame_ok (trap_frame k');
  own_pid : Abi.pid (process k') = Abi.pid (process k);
  own_parent : active (parent k') = active (parent k) /\ (active (parent k) = true -> up_to_signals (parent k) (parent k'));
  own_nested : Forall2 up_to_signals (nested_ancestors k) (nested_ancestors k');
  own_depth : nested_ancestor_depth k' = nested_ancestor_depth k;
  own_arena : snapshot_arena k' = snapshot_arena k /\ snapshot_arena_initialized k' = snapshot_arena_initialized k;
  own_next : next_pid k' = next_pid k;
  own_tid : in_u 32 (tid_address k');
  own_files_ok : DescriptorCounts.files_ok (files k');
  own_parent_files : Descriptor.parent (files k') = Descriptor.parent (files k);
  own_nested_files : Descriptor.nested_ancestors (files k') = Descriptor.nested_ancestors (files k);
}.

(** Such steps and whole lives of children, in any order. *)
Inductive runs : Kernel -> Kernel -> Prop :=
| runs_done k : runs k k
| runs_own k k1 k2 : own_step k k1 -> runs k1 k2 -> runs k k2
| runs_child k flags stack tid k1 k2 status_ k3 z k4 :
    in_u 32 stack -> in_u 32 tid -> clone k flags stack tid = (k1, 0) -> runs k1 k2 ->
    exit_child k2 status_ = Returned (k3, z) -> runs k3 k4 -> runs k k4.

(** What all of it leaves alone. *)
Record resumes (k k' : Kernel) (others : list SnapshotArena.SnapshotAllocation) : Prop := {
  resumes_wf : wf k' others;
  resumes_stack : Forall2 up_to_signals (suspended k) (suspended k');
  resumes_files : saved_files k' = saved_files k;
  resumes_live : live_kept (snapshots (suspended k) ++ others) k k';
  resumes_pid : Abi.pid (process k') = Abi.pid (process k);
}.

Lemma up_to_refl p : up_to_signals p p.
Proof. split; try done. by destruct p as [[] ? ? ? ? ? ?]. Qed.

Lemma up_to_all_refl l : Forall2 up_to_signals l l.
Proof. induction l; constructor; [apply up_to_refl|done]. Qed.

Lemma up_to_trans p q r : up_to_signals p q -> up_to_signals q r -> up_to_signals p r.
Proof. intros [H1 H2 H3 H4] [G1 G2 G3 G4]. split; [rw {1}G1; rw H1; done|congruence..]. Qed.

Lemma up_to_all_trans l1 l2 l3 : Forall2 up_to_signals l1 l2 -> Forall2 up_to_signals l2 l3 -> Forall2 up_to_signals l1 l3.
Proof.
  intros H. revert l3. induction H as [|p q l1 l2 Hp _ IH]; intros l3 H3; inversion H3; subst; constructor; auto.
  by eapply up_to_trans.
Qed.

Lemma up_to_snapshots l l' : Forall2 up_to_signals l l' -> snapshots l' = snapshots l.
Proof. induction 1 as [|p p' l l' [H _ _ _] _ IH]; [done|]. cbn. f_equal; [by rw H|exact IH]. Qed.

Lemma up_to_ok p p' : up_to_signals p p' -> suspended_ok p -> suspended_ok p'.
Proof.
  intros [Hc _ Ha Hm] [Ha' Hm' [H1 H2 H3] Hr]. unfold snapshot_bytes in *.
  split; [by rw Ha|by rw Hm|split|]; unfold snapshot_bytes; rw Hc; done.
Qed.

Lemma resumes_refl k others : wf k others -> resumes k k others.
Proof. intros Hwf. split; try done. apply up_to_all_refl. Qed.

Lemma resumes_trans k k1 k2 others : resumes k k1 others -> resumes k1 k2 others -> resumes k k2 others.
Proof.
  intros [H1 H2 H3 H4 H5] [G1 G2 G3 G4 G5]. split; [done| |congruence| |congruence].
  - by eapply up_to_all_trans.
  - eapply live_kept_trans; [exact H4|]. by rewrite -> (up_to_snapshots _ _ H2) in G4.
Qed.

Lemma own_suspended k k' : own_step k k' -> Forall2 up_to_signals (suspended k) (suspended k') /\ saved_files k' = saved_files k.
Proof.
  intros []. assert (level k' = level k) as Hl by (unfold level; congruence). destruct own_parent0 as [Ha Hp].
  unfold suspended, saved_files, stack_with. rewrite -> Hl, Ha, own_parent_files0, own_nested_files0. split; [|done].
  apply Forall2_app; [|by apply Forall2_reverse, Forall2_take]. destruct (active (parent k)); [|constructor]. constructor; [auto|constructor].
Qed.

Lemma suspended_top k p S : suspended k = p :: S -> 0 <= nested_ancestor_depth k ->
  (0 < nested_ancestor_depth k -> active (parent k) = true) -> active (parent k) = true /\ p = parent k.
Proof.
  unfold suspended, stack_with. intros Hs Hd Hdeep. destruct (active (parent k)) eqn:Ha; [by injection Hs as <- _|].
  destruct (decide (0 < nested_ancestor_depth k)) as [H|H]; [by specialize (Hdeep H)|].
  unfold level in Hs. by replace (nested_ancestor_depth k) with 0 in Hs by lia.
Qed.

Lemma own_resumes k k' others : wf k others -> own_step k k' -> resumes k k' others.
Proof.
  intros Hwf Hown. destruct (own_suspended _ _ Hown) as [Hsu Hsf]. pose proof (up_to_snapshots _ _ Hsu) as Hsn.
  assert (wf k' others) as Hwf'.
  { pose proof Hown as []. destruct own_parent0 as [Ha Hp]. destruct own_arena0 as [Ha1 Ha2]. split; try done.
    - apply Forall_lookup. intros i p' Hi. destruct (Forall2_lookup_r _ _ _ _ _ Hsu Hi) as (p & Hi' & Hup).
      eapply up_to_ok; [exact Hup|]. eapply Forall_lookup_1; [apply (wf_suspended _ _ Hwf)|exact Hi'].
    - rw Ha. intros Hact. destruct (Hp Hact) as [_ -> _ _]. rw own_pid0. by apply (wf_top _ _ Hwf).
    - rw Hsn. eapply arena_ok_ext; [apply Hwf|done|done].
    - rw own_depth0. apply Hwf.
    - rewrite <- (wf_nested _ _ Hwf). symmetry. by eapply Forall2_length.
    - rw own_depth0 Ha. apply Hwf.
    - rw own_next0. apply Hwf.
    - unfold level. rw own_depth0 own_nested_files0. apply (wf_levels _ _ Hwf). }
  split; try done; [|apply Hown].
  apply live_kept_outside; [intros r Hr; exact (arena_below k _ r (wf_arena _ _ Hwf) Hr)|apply Hown].
Qed.

(** ** Popping: the parent comes back *)

(** The list of children after [publish_child_exit]. *)
Definition published (l : list WaitableChild) (w : WaitableChild) : list WaitableChild :=
  match first_slot (fun c => negb (used c)) l with Some i => <[i := w]> l | None => l end.

Lemma publish_fields p pp g st (k : Kernel) :
  publish_child_exit p pp g st k =
  k <| waitable_children := published (waitable_children k) (mkWaitable p pp g st true) |>
    <| parent := parent (publish_child_exit p pp g st k) |> /\
  context (parent (publish_child_exit p pp g st k)) = context (parent k) /\
  child_pid (parent (publish_child_exit p pp g st k)) = child_pid (parent k).
Proof. unfold publish_child_exit, published. destruct (first_slot _ _); split_and!; try done; by destruct k. Qed.

(** The image of the parent is loaded again unless it is still in memory. *)
Lemma load_image_ok (k : Kernel) path k' : load_image path k = Returned k' ->
  k' = k <| memory := memory k' |> <| executables := executables k' |> /\
  forall a, ~ (Abi.user_begin <= a < Abi.user_end) -> memory k' a = memory k a.
Proof.
  unfold load_image. pose proof (restore_image_outside (executables k) (memory k) path) as Hout.
  destruct (restore_executable_image _ _ _) as [[e m] ok]. destruct ok; [|done]. intros [= <-]. split; [reflexivity|exact Hout].
Qed.

Definition resumed_process (c : Context) (code : Z) : Abi.Process :=
  Abi.mkProcess (brk c) (mmap_begin c) (mmap_cursor c) (mutable_begin c) code (image c)
    (pid c) (parent_pid c) (process_group c) (session c) (current_directory c) (executable_path c) true.

(** [k'] is [k] with the parent resumed. *)
Record resumed (k k' : Kernel) (status_ : Z) (completed returning : bool) : Prop := {
  resumed_regions m0 a : holds (context (parent k)) (memory k) m0 -> in_region (context (parent k)) a -> memory k' a = m0 a;
  resumed_below a : a < Abi.user_begin -> memory k' a = memory k a;
  resumed_registers : trap_frame k' =
    if returning then return_from (child_pid (parent k)) (frame (context (parent k))) else frame (context (parent k));
  resumed_bookkeeping : process k' = resumed_process (context (parent k)) (Abi.exit_code (process k));
  resumed_tid : tid_address k' = child_tid_address (context (parent k));
  resumed_mask : creation_mask k' = file_creation_mask (context (parent k));
  resumed_signal_frame : active_signal_frame k' = signal_frame (context (parent k));
  resumed_signals : signal_state k' =
    if completed then (Signal.queue (signals (context (parent k))) Signal.signal_child).1 else signals (context (parent k));
  resumed_waitable : waitable_children k' =
    if completed
    then published (waitable_children k)
           (mkWaitable (child_pid (parent k)) (pid (context (parent k))) (Abi.process_group (process k)) status_ true)
    else waitable_children k;
  resumed_inactive : active (parent k') = false;
  resumed_files : files k' = Descriptor.restore_parent_descriptors (files k);
  resumed_nested : nested_ancestors k' = nested_ancestors k;
  resumed_depth : nested_ancestor_depth k' = nested_ancestor_depth k;
  resumed_next : next_pid k' = next_pid k;
}.

(** [resume_parent] after the memory is back. *)
Definition resume_tail (k : Kernel) (group status_ : Z) (completed returning : bool) : Kernel :=
  let c := context (parent k) in
  let k := reload c (if returning then return_from (child_pid (parent k)) (frame c) else frame c) k in
  let k :=
    if completed then
      let k := k <| parent ::= fun s => s <| child_status := status_ |> <| child_process_group := group |> |> in
      publish_child_exit (child_pid (parent k)) (pid c) group status_ k
        <| signal_state ::= fun s => (Signal.queue s Signal.signal_child).1 |>
    else k in
  k <| parent ::= fun s => s <| active := false |> <| memory_saved := false |> |>
    <| files ::= Descriptor.restore_parent_descriptors |>.

Lemma resume_tail_ok (k : Kernel) group status_ completed returning :
  let c := context (parent k) in let k' := resume_tail k group status_ completed returning in
  memory k' = memory k /\ snapshot_arena k' = snapshot_arena k /\ snapshot_arena_initialized k' = snapshot_arena_initialized k /\
  trap_frame k' = (if returning then return_from (child_pid (parent k)) (frame c) else frame c) /\
  process k' = resumed_process c (Abi.exit_code (process k)) /\
  tid_address k' = child_tid_address c /\ creation_mask k' = file_creation_mask c /\ active_signal_frame k' = signal_frame c /\
  signal_state k' = (if completed then (Signal.queue (signals c) Signal.signal_child).1 else signals c) /\
  waitable_children k' =
    (if completed then published (waitable_children k) (mkWaitable (child_pid (parent k)) (pid c) group status_ true)
     else waitable_children k) /\
  active (parent k') = false /\ files k' = Descriptor.restore_parent_descriptors (files k) /\
  nested_ancestors k' = nested_ancestors k /\ nested_ancestor_depth k' = nested_ancestor_depth k /\ next_pid k' = next_pid k.
Proof.
  cbn zeta. unfold resume_tail. cbn zeta. destruct completed; [|split_and!; done].
  set (kr := reload _ _ _ <| parent ::= _ |>).
  destruct (publish_fields (child_pid (parent kr)) (pid (context (parent k))) group status_ kr) as (Hk & _ & _).
  rw Hk. split_and!; done.
Qed.

Lemma resume_parent_ok k live status_ completed returning k' :
  suspended_ok (parent k) -> arena_ok k (snapshot (context (parent k)) :: live) ->
  resume_parent k status_ completed returning = Returned k' ->
  arena_ok k' live /\ resumed k k' status_ completed returning.
Proof.
  intros [Ha Hm Hpl Hr] Har. unfold resume_parent.
  set (loaded := if _ =? _ then Returned k else _). destruct loaded as [k1|] eqn:Hload; [|done]. cbn [mbind outcome_bind].
  assert (k1 = k <| memory := memory k1 |> <| executables := executables k1 |> /\
          forall a, ~ (Abi.user_begin <= a < Abi.user_end) -> memory k1 a = memory k a) as [Hk1 Hout].
  { unfold loaded in Hload. destruct (_ =? _); [|by apply load_image_ok in Hload]. injection Hload as <-. by destruct k. }
  clear Hload loaded. assert (parent k1 = parent k) as Hp by (rw Hk1; done). rewrite -> Hp, Hm.
  destruct (release_snapshot _ _) as [[k2 c2]|] eqn:Hrel; [|done]. cbn [mbind outcome_bind].
  assert (arena_ok (k1 <| memory ::= copy_in (context (parent k)) |>) (snapshot (context (parent k)) :: live)) as Har1.
  { eapply arena_ok_ext; [exact Har|by rw Hk1..]. }
  destruct (release_snapshot_ok _ _ _ _ _ Har1 Hrel) as ([Hk2] & Har2 & ->).
  assert (forall a, a < Abi.user_begin -> copy_in (context (parent k)) (memory k1) a = memory k a) as Hbelow.
  { intros a Hlow. rewrite -> copy_in_outside; [apply Hout; lia|done|]. destruct Hpl as [_ Hreg _]. unfold in_region. lia. }
  assert (forall m0 a, holds (context (parent k)) (memory k) m0 -> in_region (context (parent k)) a ->
            copy_in (context (parent k)) (memory k1) a = m0 a) as Hregions.
  { intros m0 a Hh Hin. apply copy_in_region; [done| |done]. eapply holds_ext; [done|exact Hh|].
    intros b Hb. apply Hout. pose proof (placed_snapshot _ Hpl). unfold Abi.user_begin in *. lia. }
  set (k3 := k2 <| parent ::= fun s => s <| context := context (parent k) <| snapshot := SnapshotArena.no_allocation |> |> |>).
  intros Hret. assert (k' = resume_tail k3 (Abi.process_group (process k)) status_ completed returning) as -> by (injection Hret as <-; reflexivity).
  clear Hret. pose proof (resume_tail_ok k3 (Abi.process_group (process k)) status_ completed returning) as Ht. cbn zeta in Ht.
  destruct Ht as (Hmem & Hsa & Hsi & Hfr & Hpr & Htid & Hmk & Hsf & Hsg & Hw & Hin & Hfi & Hne & Hde & Hnx).
  assert (memory k3 = copy_in (context (parent k)) (memory k1)) as Hm3 by (unfold k3; rw Hk2; done).
  split; [eapply arena_ok_ext; [exact Har2|exact Hsa|exact Hsi]|].
  assert (parent k3 = parent k <| context := context (parent k) <| snapshot := SnapshotArena.no_allocation |> |>) as Hp3 by (unfold k3; rw Hk2; cbn; by rw Hp).
  assert (k2 = k <| memory := memory k2 |> <| executables := executables k2 |> <| snapshot_arena := snapshot_arena k2 |>
                 <| snapshot_arena_initialized := snapshot_arena_initialized k2 |>) as Hk2' by (rw Hk2 Hk1; done).
  rw Hp3 in Hfr. rw Hp3 in Hpr. rw Hp3 in Htid. rw Hp3 in Hmk. rw Hp3 in Hsf. rw Hp3 in Hsg. rw Hp3 in Hw.
  assert (forall T (g : Kernel -> T), (forall m e a b p, g (k <| memory := m |> <| executables := e |> <| snapshot_arena := a |> <| snapshot_arena_initialized := b |> <| parent := p |>) = g k) -> g k3 = g k) as Hsame.
  { intros T g Hg. unfold k3. rw Hk2'. apply Hg. }
  split; try done; rewrite -> ?Hmem, ?Hm3; auto.
  - rw Hpr. by rewrite -> (Hsame _ (fun k => Abi.exit_code (process k))) by done.
  - rw Hw. by rewrite -> (Hsame _ waitable_children) by done.
  - rw Hfi. by rewrite -> (Hsame _ files) by done.
  - rw Hne. by rewrite -> (Hsame _ nested_ancestors) by done.
  - rw Hde. by rewrite -> (Hsame _ nested_ancestor_depth) by done.
  - rw Hnx. by rewrite -> (Hsame _ next_pid) by done.
Qed.

(** ** The exit of a child *)

(** The writable segment, the mappings and the stack of the running process. *)
Definition own_region (k : Kernel) (stack a : Z) : Prop :=
  Abi.mutable_begin (process k) <= a < Abi.brk (process k) \/
  Abi.mmap_begin (process k) <= a < Abi.mmap_cursor (process k) \/ stack <= a < Abi.user_stack_top.

(** The process of [k] is back in [k3] from the fork whose child ended in [k2]. *)
Record came_back (k k2 k3 : Kernel) (stack status_ : Z) : Prop := {
  back_registers : trap_frame k3 = return_from (next_pid k) (trap_frame k);
  back_process : process k3 = process k <| Abi.exit_code := Abi.exit_code (process k2) |> <| Abi.image_replaced := true |>;
  back_tid : tid_address k3 = tid_address k;
  back_mask : creation_mask k3 = creation_mask k;
  back_signal_frame : active_signal_frame k3 = active_signal_frame k;
  back_signals : signal_state k3 = (Signal.queue (signals (context (parent k2))) Signal.signal_child).1;
  back_descriptors : Descriptor.active (files k3) = Descriptor.active (files k);
  back_memory a : own_region k stack a -> memory k3 a = memory k a;
  back_child : waitable_children k3 =
    published (waitable_children k2)
      (mkWaitable (next_pid k) (Abi.pid (process k)) (Abi.process_group (process k2)) status_ true);
}.

Lemma return_from_ok v f : in_u 32 v -> Abi.frame_ok f -> Abi.frame_ok (return_from v f).
Proof.
  intros Hv [Hl Hw Hm]. split; cbn -[insert]; [by rw length_insert|by apply Forall_insert|word].
Qed.

(** The first steps of [exit_child] touch user memory and the background's flags. *)
Definition prepared (k : Kernel) : Kernel :=
  let k := clear_tid k in
  if background_used (background k) && (Abi.pid (process k) =? pid (background_context (background k)))
  then k <| background ::= fun b => b <| background_used := false |> <| wait := BackgroundWait.none |> |>
  else k.

Lemma prepared_ok (k : Kernel) : in_u 32 (tid_address k) ->
  prepared k = k <| memory := memory (prepared k) |> <| tid_address := 0 |> <| background := background (prepared k) |> /\
  forall a, ~ (Abi.user_begin <= a < Abi.user_end) -> memory (prepared k) a = memory k a.
Proof.
  intros Ht. assert (clear_tid k = k <| memory := memory (clear_tid k) |> <| tid_address := 0 |> /\
    forall a, ~ (Abi.user_begin <= a < Abi.user_end) -> memory (clear_tid k) a = memory k a) as [Hc Hm].
  { unfold clear_tid. destruct (_ && _) eqn:Hc; [|split; [by destruct k|done]]. split; [by destruct k|].
    apply andb_true_iff in Hc as [_ Hc]. apply user_contains_spec in Hc; [|done|lia].
    intros a Ha. cbn. unfold store_u32. apply user_store_outside; [lia|cbn; lia|done]. }
  unfold prepared. cbn zeta. set (kc := clear_tid k) in *. clearbody kc.
  assert (background kc = background k) as Hb by (rw Hc; done).
  destruct (_ && _); (split; [|exact Hm]); rw {1}Hc; cbn; by rw Hb.
Qed.

(** The suspended parent when the child ends. *)
Record parent_kept (k k2 : Kernel) (others : list SnapshotArena.SnapshotAllocation) (stack : Z) (S2 : list SuspendedParent) : Prop := {
  parent_context : exists a s, context (parent k2) = with_sizes (capture k stack context_default) <| snapshot := a |> <| signals := s |>;
  parent_child : child_pid (parent k2) = next_pid k;
  parent_holds : holds (context (parent k2)) (memory k2) (memory k);
  parent_regions a : own_region k stack a -> in_region (context (parent k2)) a;
  parent_ok : suspended_ok (parent k2);
  parent_arena : arena_ok k2 (snapshot (context (parent k2)) :: snapshots S2 ++ others);
  parent_live : live_kept (snapshots (suspended k) ++ others) k k2;
  parent_below : Forall suspended_ok S2;
  parent_rest : Forall2 up_to_signals (suspended k) S2;
  parent_nested : reverse (take (level k2) (nested_ancestors k2)) = S2;
  parent_files : Descriptor.parent (files k2) = Descriptor.active (files k);
  parent_nested_files : reverse (take (level k2) (Descriptor.nested_ancestors (files k2))) = saved_files k;
}.

Lemma regions_of k stack c a : process_ok (process k) -> Abi.user_begin <= stack < 2 ^ 32 ->
  inverted c = false -> (exists p s, c = with_sizes (capture k stack context_default) <| snapshot := p |> <| signals := s |>) ->
  own_region k stack a -> in_region c a.
Proof.
  intros [H1 H2 H3 H4] Hs Hinv (p & s & ->) Ha.
  destruct (with_sizes_regions (capture k stack context_default) Hinv H1 H2 Hs H3 H4) as (_ & E1 & E2 & E3).
  unfold in_region. cbn [mutable_begin mmap_begin stack_begin mutable_size mmap_size stack_size].
  unfold own_region in Ha.
  change (mutable_size (with_sizes (capture k stack context_default) <| snapshot := p |> <| signals := s |>)) with (mutable_size (with_sizes (capture k stack context_default))).
  change (mmap_size (with_sizes (capture k stack context_default) <| snapshot := p |> <| signals := s |>)) with (mmap_size (with_sizes (capture k stack context_default))).
  change (stack_size (with_sizes (capture k stack context_default) <| snapshot := p |> <| signals := s |>)) with (stack_size (with_sizes (capture k stack context_default))).
  rewrite -> E1, E2, E3. cbn. lia.
Qed.

Lemma parent_is_kept k k1 k2 others stack : wf k others -> forked k k1 others stack -> resumes k1 k2 others ->
  exists S2, parent_kept k k2 others stack S2.
Proof.
  intros Hwf Hfork Hres. pose proof (resumes_stack _ _ _ Hres) as Hst. rewrite -> (forked_stack _ _ _ _ Hfork) in Hst.
  inversion Hst as [|p p2 S S2 Hup Hrest Hp Hs2]. subst p S. symmetry in Hs2. exists S2.
  pose proof (resumes_wf _ _ _ Hres) as Hwf2.
  destruct (suspended_top _ _ _ Hs2 ltac:(apply Hwf2) (wf_deep _ _ Hwf2)) as [Hact ->].
  assert (reverse (take (level k2) (nested_ancestors k2)) = S2) as HS2.
  { unfold suspended, stack_with in Hs2. rw Hact in Hs2. by injection Hs2. }
  pose proof (resumes_files _ _ _ Hres) as HF. rewrite -> (forked_files _ _ _ _ Hfork) in HF.
  unfold saved_files at 1, stack_with in HF. rw Hact in HF. injection HF as HF1 HF2.
  pose proof (wf_suspended _ _ Hwf2) as Hok2. rewrite -> Hs2 in Hok2. apply Forall_cons in Hok2 as [Hpok HSok].
  destruct (forked_parent _ _ _ _ Hfork) as [Hctx Hupr Hok1 Hchild Hholds].
  assert (exists a s, context (parent k2) = with_sizes (capture k stack context_default) <| snapshot := a |> <| signals := s |>) as Hc2.
  { exists (snapshot (context (parent k1))), (signals (context (parent k2))). rw {1}(up_context _ _ Hup). by rw {1}Hctx. }
  pose proof (resumes_live _ _ _ Hres) as Hlive. rewrite -> (forked_stack _ _ _ _ Hfork) in Hlive.
  split; try done.
  - by rewrite -> (up_child _ _ Hup).
  - rw (up_context _ _ Hup). change (holds (context (parent k1)) (memory k2) (memory k)).
    eapply (holds_kept _ _ k1 k2); [apply Hok1|apply Hok1| |exact Hlive|exact Hholds]. by left.
  - intros a. apply regions_of; [apply Hwf|apply Hfork| |exact Hc2]. rw (up_context _ _ Hup). exact Hupr.
  - pose proof (wf_arena _ _ Hwf2) as Har. by rewrite -> Hs2 in Har.
  - eapply live_kept_trans; [apply (forked_live _ _ _ _ Hfork)|]. intros r a Hr. apply Hlive. by right.
Qed.

Lemma exit_ok k k1 k2 others stack status_ k3 z :
  wf k others -> forked k k1 others stack -> resumes k1 k2 others ->
  exit_child k2 status_ = Returned (k3, z) ->
  z = i32 (next_pid k) /\ resumes k k3 others /\ came_back k k2 k3 stack status_.
Proof.
  intros Hwf Hfork Hres. destruct (parent_is_kept _ _ _ _ _ Hwf Hfork Hres) as (S2 & Hpk).
  pose proof (resumes_wf _ _ _ Hres) as Hwf2. destruct (prepared_ok k2 (wf_tid _ _ Hwf2)) as [Hkp Hout].
  change (exit_child k2 status_) with
    (k ← restore_parent (prepared k2) status_; Returned (reinstate_suspended_ancestor k, i32 (child_pid (parent k2)))).
  destruct (restore_parent (prepared k2) status_) as [kr|] eqn:Hresume; [|done]. cbn [mbind outcome_bind]. intros [= <- <-].
  split; [by rewrite -> (parent_child _ _ _ _ _ Hpk)|].
  assert (parent (prepared k2) = parent k2 /\ files (prepared k2) = files k2 /\ process (prepared k2) = process k2 /\
    next_pid (prepared k2) = next_pid k2 /\ nested_ancestors (prepared k2) = nested_ancestors k2 /\
    nested_ancestor_depth (prepared k2) = nested_ancestor_depth k2 /\ waitable_children (prepared k2) = waitable_children k2)
    as (Ep & Ef & Eq & En & Ea & Ed & Ew) by (rw Hkp; done).
  destruct (resume_parent_ok (prepared k2) (snapshots S2 ++ others) status_ true true kr) as [Har Hrd]; [rw Ep; apply Hpk| |done|].
  { rw Ep. eapply arena_ok_ext; [apply Hpk|rw Hkp; done..]. }
  destruct (wf_process _ _ Hwf) as [Hp1 Hp2 Hp3 Hp4].
  destruct (parent_context _ _ _ _ _ Hpk) as (sa & sg & Hctx).
  pose proof (resumed_bookkeeping _ _ _ _ _ Hrd) as Hproc. rewrite -> Ep, Eq, Hctx in Hproc.
  pose proof (resumed_registers _ _ _ _ _ Hrd) as Hregs. rewrite -> Ep, (parent_child _ _ _ _ _ Hpk), Hctx in Hregs. cbn in Hregs.
  destruct (DescriptorCounts.restore_parent_ok (files k2) (wf_files _ _ Hwf2)) as (Hf1 & Hf2 & Hf3).
  destruct (DescriptorCounts.reset_files_ok (files k2) (wf_files _ _ Hwf2)) as (_ & _ & _ & _ & Hf4 & _).
  pose proof (resumed_files _ _ _ _ _ Hrd) as Hfiles. rewrite -> Ef in Hfiles.
  assert (level kr = level k2) as Hlv by (unfold level; by rewrite -> (resumed_depth _ _ _ _ _ Hrd), Ed).
  assert (idle kr S2 (saved_files k)) as Hidle.
  { split; rewrite -> ?Hlv, ?Hfiles, ?(resumed_depth _ _ _ _ _ Hrd), ?(resumed_nested _ _ _ _ _ Hrd), ?Ed, ?Ea; try done; try apply Hwf2; try apply Hpk; [apply Hrd|..].
    - change (Descriptor.nested_ancestors (Descriptor.restore_parent_descriptors (files k2))) with (Descriptor.nested_ancestors (Descriptor.reset_descriptors (files k2))).
      rw Hf4. apply Hpk.
    - change (Descriptor.nested_ancestors (Descriptor.restore_parent_descriptors (files k2))) with (Descriptor.nested_ancestors (Descriptor.reset_descriptors (files k2))).
      rw Hf4. apply (wf_levels _ _ Hwf2). }
  destruct (reinstate_wf kr S2 (saved_files k) others Hidle) as (Hwf3 & Hsu3 & Hsf3 & Hsame); [apply Hpk|by rw Hfiles| | | | |done| |].
  - rw Hproc. by split.
  - rw Hregs. apply return_from_ok; apply Hwf.
  - rewrite -> (resumed_next _ _ _ _ _ Hrd), En. apply Hwf2.
  - rewrite -> (resumed_tid _ _ _ _ _ Hrd), Ep, Hctx. apply (wf_tid _ _ Hwf).
  - intros p S' ->. pose proof (parent_rest _ _ _ _ _ Hpk) as Hrest. inversion Hrest as [|q p' S S'' Hup _ Hq Hp']. subst p' S''. symmetry in Hq.
    destruct (suspended_top _ _ _ Hq ltac:(apply Hwf) (wf_deep _ _ Hwf)) as [Hact ->].
    rewrite -> (up_child _ _ Hup), (wf_top _ _ Hwf Hact). by rw Hproc.
  - set (k3 := reinstate_suspended_ancestor kr) in *. destruct Hsame. split.
    + split; try done.
      * rw Hsu3. apply Hpk.
      * eapply live_kept_trans; [apply (parent_live _ _ _ _ _ Hpk)|]. intros r a Hr Ha. rewrite -> same_memory0.
        assert (SnapshotArena.address r + SnapshotArena.size r <= Abi.user_begin) as Hlow by exact (arena_below k _ r (wf_arena _ _ Hwf) Hr).
        unfold SnapshotArena.hit in Ha. case_decide; [|done].
        rewrite -> (resumed_below _ _ _ _ _ Hrd) by lia. apply Hout. lia.
      * by rewrite -> same_process0, Hproc.
    + split.
      * by rewrite -> same_frame0, Hregs.
      * rewrite -> same_process0, Hproc. reflexivity.
      * rewrite -> same_tid0, (resumed_tid _ _ _ _ _ Hrd), Ep, Hctx. done.
      * rewrite -> same_mask0, (resumed_mask _ _ _ _ _ Hrd), Ep, Hctx. done.
      * rewrite -> same_signal_frame0, (resumed_signal_frame _ _ _ _ _ Hrd), Ep, Hctx. done.
      * rewrite -> same_signals0, (resumed_signals _ _ _ _ _ Hrd), Ep. done.
      * rewrite -> same_descriptors0, Hfiles, Hf2. apply Hpk.
      * intros a Ha. rewrite -> same_memory0. apply (resumed_regions _ _ _ _ _ Hrd); rw Ep.
        -- eapply holds_ext; [apply Hpk|apply Hpk|]. intros b Hb. apply Hout.
           pose proof (placed_snapshot _ (suspended_placed _ (parent_ok _ _ _ _ _ Hpk))). lia.
        -- by apply (parent_regions _ _ _ _ _ Hpk).
      * rewrite -> same_waitable0, (resumed_waitable _ _ _ _ _ Hrd), Ep, Ew, Eq, (parent_child _ _ _ _ _ Hpk), Hctx. done.
Qed.

(** ** Well-nested runs *)

Lemma runs_resumes others k k' : linked -> wf k others ->
  runs k k' -> resumes k k' others.
Proof.
  intros Hl Hwf Hruns. revert Hwf. induction Hruns as [k|k k1 k2 Hown _ IH|k flags stack tid k1 k2 st k3 z k4 Hst Htid Hc H1 IH1 He H3 IH3]; intros Hwf.
  - by apply resumes_refl.
  - pose proof (own_resumes _ _ _ Hwf Hown) as H1. eapply resumes_trans; [exact H1|]. apply IH, H1.
  - pose proof (clone_ok _ _ _ _ _ _ Hl Hwf Hst Htid Hc) as Hf. pose proof (IH1 (forked_wf _ _ _ _ Hf)) as Hr1.
    destruct (exit_ok _ _ _ _ _ _ _ _ Hwf Hf Hr1 He) as (_ & Hr3 & _).
    eapply resumes_trans; [exact Hr3|]. apply IH3, Hr3.
Qed.

(** A write to user memory is a step of the running process. *)
Lemma user_write_own k others a l : wf k others -> Abi.user_begin <= a -> a + Z.of_nat (length l) <= Abi.user_end ->
  own_step k (k <| memory ::= store a l |>).
Proof.
  intros [] H1 H2. split; try done.
  - intros b Hb. by apply user_store_outside.
  - split; [done|intros _; apply up_to_refl].
  - apply up_to_all_refl.
Qed.

End kernel.

(** ** A concrete kernel

    A process with sixteen bytes of data and sixteen of stack forks; the child
    overwrites the data and exits with status 7. *)

#[local] Instance example_ring : ByteQueue RingBuffer.Ring.RingBuffer := RingBuffer.Ring.ring_queue 4096.
#[local] Instance example_ring_laws : ByteQueueLaws RingBuffer.Ring.RingBuffer 4096.
Proof. apply RingBuffer.Ring.ring_queue_laws. lia. Defined.
#[local] Instance example_machine : Machine StackSend.Logger := StackSend.logger.
#[local] Instance example_loader : ImageLoader unit := fun e m _ => (e, m, true).
#[local] Instance example_loader_laws : ImageLoaderLaws unit.
Proof. by intros e m path a _. Defined.
#[local] Instance example_linker : LinkerScript := 0x80800000.

Abbreviation Example_kernel := (Kernel RingBuffer.Ring.RingBuffer StackSend.Logger unit).

Definition example_process : Abi.Process :=
  Abi.mkProcess 0x81010010 0x81800000 0x81800000 0x81010000 0 0 1 0 1 1 [47] [47; 115; 104] false.
Definition example_frame : Abi.TrapFrame :=
  Abi.set_reg 2 0x81ffeff0 Abi.frame_default <| Abi.mepc := 0x81000100 |>.

Definition example_kernel : Example_kernel :=
  mkKernel (fun a => a mod 251) tt example_process example_frame suspended_default (replicate 32 suspended_default) 0
    (replicate 32 waitable_default) 18 0 Signal.initial signal_frame_default (SnapshotArena.initial arena_extents) false
    background_default interactive_default suspended_default 0 2
    (DescriptorCounts.initial (Stack.boot (StackSend.mkLogger 0 []))).

Definition example_child : Example_kernel := (clone example_kernel 17 0 0).1.
Definition example_changed : Example_kernel := example_child <| memory ::= store 0x81010000 [1; 2; 3; 4] |>.
Definition example_back : Example_kernel :=
  match exit_child example_changed 7 with Returned (k, _) => k | Shutdown _ => example_changed end.

Lemma example_kernel_wf : wf example_kernel [].
Proof.
  split.
  - split; vm_compute; by split.
  - split; [reflexivity| |vm_compute; by split].
    assert (forallb (fun x => bool_decide (in_u 32 x)) (Abi.x example_frame) = true) as Hall by (vm_compute; reflexivity).
    rewrite -> forallb_forall in Hall. apply Forall_forall. intros x Hx%list_elem_of_In. apply Hall in Hx. by apply bool_decide_eq_true in Hx.
  - constructor.
  - done.
  - by split.
  - cbn. lia.
  - reflexivity.
  - cbn. lia.
  - exact (DescriptorCounts.initial_files_ok (Stack.boot (StackSend.mkLogger 0 []))).
  - cbn. word.
  - cbn. word.
  - intros i Hi. change (replicate 32 Descriptor.saved_none !!! i = Descriptor.saved_none).
    apply list_lookup_total_correct, lookup_replicate_2. unfold level in Hi. lia.
Qed.

Lemma example_linked : linked.
Proof. unfold linked, fork_snapshot_arena_begin, example_linker, Abi.user_begin. lia. Qed.

Lemma example_clone : clone example_kernel 17 0 0 = (example_child, 0).
Proof.
  unfold example_child. assert ((clone example_kernel 17 0 0).2 = 0) as H by (vm_compute; reflexivity).
  revert H. destruct (clone example_kernel 17 0 0) as [k z]. cbn. by intros ->.
Qed.

Lemma example_child_wf : wf example_child [].
Proof. exact (forked_wf _ _ _ _ (clone_ok example_kernel [] 17 0 0 example_child example_linked example_kernel_wf ltac:(word) ltac:(word) example_clone)). Qed.

Lemma example_runs : runs example_child example_changed.
Proof.
  refine (runs_own _ _ _ (user_write_own _ [] 0x81010000 [1; 2; 3; 4] example_child_wf _ _) (runs_done _));
    cbn [length]; unfold Abi.user_begin, Abi.user_end; lia.
Qed.

Lemma example_exit : exists z, exit_child example_changed 7 = Returned (example_back, z).
Proof.
  unfold example_back. assert ((if exit_child example_changed 7 then true else false) = true) as H by (vm_compute; reflexivity).
  revert H. destruct (exit_child example_changed 7) as [[k z]|]; [|done]. by exists z.
Qed.


(** ** A parked service is lost

    A process forked by the shell forks a service, which parks while it waits
    for a connection; the process forks again.  When that child exits,
    [reinstate_suspended_ancestor] takes the process itself for the parked
    service: the record of the service (number 3) is overwritten with that of
    the process (number 2), and nothing refers to its snapshot by its own number
    any more. *)
Definition forked_once (k : Example_kernel) : Example_kernel := (clone k 17 0 0).1.
Definition service_parked : outcome (Example_kernel * bool) :=
  park_background (forked_once (forked_once example_kernel)) 0%nat.
Definition service_overwritten : outcome (Example_kernel * Z) :=
  '(k, _) ← service_parked; exit_child (forked_once k) 0.

Example parked_service_lost :
  (match service_parked with
   | Returned (k, parked) => (parked, pid (background_context (background k)), background_used (background k))
   | Shutdown _ => (false, 0, false)
   end,
   match service_overwritten with
   | Returned (k, _) => (pid (background_context (background k)), Abi.pid (process k),
                         SnapshotArena.valid (snapshot (background_context (background k))))
   | Shutdown _ => (0, 0, false)
   end) = ((true, 3, true), (2, 2, true)).
Proof. vm_compute. reflexivity. Qed.
End ContextSpec.
