(* ===== verification/SignalCalls.v ===== *)
(** * [kernel/syscall.cpp]: signals

    Delivery builds a frame on the stack of the program with its registers and
    its mask and enters the handler; [rt_sigreturn] takes them back.  Sending a
    signal reaches the running process, its parent, or the processes of a
    group, wherever they are suspended. *)

From stdpp Require Import strings.
From S2P Require Import Prelude ByteQueue Base Filesystem Signal Pipe Pty Process SnapshotArena Ethernet Timing Interface Socket Tcp Stack.
From S2P Require Import RingBuffer StackSend Abi Memory PseudoFs Descriptor Context ContextSpec.
Local Open Scope Z_scope.

Module SignalCalls.
Import Memory Context Abi.Errno.

(** ** The frame on the stack: [SignalFrame32] *)

Definition frame_size := 960.
Definition context_offset := 128.
Definition mask_offset := 148.
Definition registers_offset := 288.
Definition trampoline_offset := 944.

(** [context.general_registers[i] = frame.x[i]] for 1 to 31. *)
Definition store_registers (base : Z) (f : Abi.TrapFrame) (m : Memory) : Memory :=
  foldl (fun m i => store_u32 (base + 4 * Z.of_nat i) (Abi.reg f i) m) m (seq 1 31).

Definition write_frame (address signal blocked : Z) (f : Abi.TrapFrame) (m : Memory) : Memory :=
  let m := store address (replicate 960 0) m in
  let m := store_u32 address signal m in
  let m := store_u64 (address + mask_offset) blocked m in
  let m := store_u32 (address + registers_offset) (Abi.mepc f) m in
  let m := store_registers (address + registers_offset) f m in
  let m := store_u32 (address + trampoline_offset) 0x08b00893 m in
  store_u32 (address + trampoline_offset + 4) 0x00000073 m.

(** [restored.x[i] = registers[i]] for 1 to 31. *)
Definition load_registers (base : Z) (m : Memory) (f : Abi.TrapFrame) : Abi.TrapFrame :=
  foldl (fun f i => Abi.set_reg i (load_u32 m (base + 4 * Z.of_nat i)) f) f (seq 1 31).

Definition signal_ignore := 1.
Definition signal_action_siginfo := 4.
Definition signal_action_nodefer := 0x40000000.

(** The registers with which the handler starts. *)
Definition handler_frame (action : Signal.SignalAction) (signal address : Z) (f : Abi.TrapFrame) : Abi.TrapFrame :=
  let f := Abi.set_reg 10 signal (Abi.set_reg 2 address (Abi.set_reg 1 (address + trampoline_offset) f)) in
  let f := if Z.land (Signal.flags action) signal_action_siginfo =? 0 then f
           else Abi.set_reg 12 (address + context_offset) (Abi.set_reg 11 address f) in
  f <| Abi.mepc := Signal.handler action |>.

Definition handler_mask (action : Signal.SignalAction) (signal blocked : Z) : Z :=
  let mask := Z.lor blocked (Signal.mask action) in
  if Z.land (Signal.flags action) signal_action_nodefer =? 0 then Z.lor mask (Signal.bit signal) else mask.

Section kernel.
Context {Q : Type} `{!ByteQueue Q}.
Context {W : Type} {machine : Machine W}.
Context {E : Type} {loader : ImageLoader E}.
Abbreviation Kernel := (Kernel Q W E).

(** Where the frame goes, if there is room. *)
Definition frame_address (f : Abi.TrapFrame) : option Z :=
  if Abi.reg f 2 <? frame_size then None else
  let address := Base.align_down 32 (u32 (Abi.reg f 2 - frame_size)) 16 in
  if contains address frame_size then Some address else None.

Definition deliver_pending_signal (k : Kernel) : outcome Kernel :=
  if signal_active (active_signal_frame k) then Returned k else
  let '(s, signal) := Signal.next (signal_state k) in
  let k := k <| signal_state := s |> in
  if signal =? 0 then Returned k else
  let action := Signal.action_of s signal in
  let default := Signal.handler action =? 0 in
  if (Signal.handler action =? signal_ignore) ||
     (default && (match Signal.default_for signal with Signal.ignore => true | _ => false end)) then Returned k else
  if default then Shutdown (128 + signal) else
  match frame_address (trap_frame k) with
  | None => Shutdown (128 + signal)
  | Some address =>
      let blocked := Signal.blocked_ s in
      Returned (k <| memory ::= write_frame address signal blocked (trap_frame k) |>
                  <| active_signal_frame := mkSignalFrame (trap_frame k) blocked true |>
                  <| signal_state := (Signal.change_mask s Signal.op_set (handler_mask action signal blocked)).1.1 |>
                  <| trap_frame ::= handler_frame action signal address |>)
  end.

Definition rt_sigreturn (k : Kernel) : Kernel * Z :=
  let address := Abi.reg (trap_frame k) 2 in
  if negb (signal_active (active_signal_frame k)) || negb (contains address frame_size)
  then (k, Abi.error bad_address) else
  let restored := saved_frame (active_signal_frame k) <| Abi.mepc := load_u32 (memory k) (address + registers_offset) |> in
  let restored := load_registers (address + registers_offset) (memory k) restored in
  let mask := load_u64 (memory k) (address + mask_offset) in
  (k <| signal_state ::= fun s => (Signal.change_mask s Signal.op_set mask).1.1 |>
     <| active_signal_frame := signal_frame_default |>
     <| trap_frame := restored |>
     <| process ::= fun p => p <| Abi.image_replaced := true |> |>, i32 (Abi.reg restored 10)).

(** ** Actions and masks *)

(** [SignalAction32] is sixteen bytes. *)
Definition encode_action (a : Signal.SignalAction) : list Z :=
  Fs.bytes32 (Signal.handler a) ++ Fs.bytes32 (Signal.flags a) ++ bytes64 (Signal.mask a).
Definition read_action (m : Memory) (address : Z) : Signal.SignalAction :=
  Signal.mkAction (load_u32 m address) (load_u32 m (address + 4)) (load_u64 m (address + 8)).

Definition rt_sigaction (k : Kernel) (signal action_address old_address set_size : Z) : Kernel * Z :=
  if negb (set_size =? 8) || (Signal.signal_max <? signal) then (k, Abi.error invalid_argument) else
  if negb (old_address =? 0) && negb (contains old_address 16) then (k, Abi.error bad_address) else
  let k := if old_address =? 0 then k
           else k <| memory ::= store old_address (encode_action (Signal.action_of (signal_state k) signal)) |> in
  if action_address =? 0 then (k, 0) else
  if negb (contains action_address 16) then (k, Abi.error bad_address) else
  match Signal.set_action (signal_state k) signal (read_action (memory k) action_address) with
  | (s, Signal.success, _) => (k <| signal_state := s |>, 0)
  | (s, _, _) => (k <| signal_state := s |>, Abi.error invalid_argument)
  end.

Definition mask_operation (operation : Z) : option Signal.SignalMaskOperation :=
  if operation =? 0 then Some Signal.op_block
  else if operation =? 1 then Some Signal.op_unblock
  else if operation =? 2 then Some Signal.op_set else None.

Definition rt_sigprocmask (k : Kernel) (operation set_address old_address set_size : Z) : Kernel * Z :=
  if negb (set_size =? 8) then (k, Abi.error invalid_argument) else
  if negb (old_address =? 0) && negb (contains old_address 8) then (k, Abi.error bad_address) else
  let k := if old_address =? 0 then k
           else k <| memory ::= store_u64 old_address (Signal.blocked_ (signal_state k)) |> in
  if set_address =? 0 then (k, 0) else
  if negb (contains set_address 8) then (k, Abi.error bad_address) else
  match mask_operation operation with
  | None => (k, Abi.error invalid_argument)
  | Some selected =>
      match Signal.change_mask (signal_state k) selected (load_u64 (memory k) set_address) with
      | (s, Signal.success, _) => (k <| signal_state := s |>, 0)
      | (s, _, _) => (k <| signal_state := s |>, Abi.error invalid_argument)
      end
  end.

(** ** Sending *)

(** What a call reports for [queue]. *)
Definition queued (st : Signal.SignalStatus) : Z :=
  match st with Signal.success => 0 | _ => Abi.error invalid_argument end.

Definition send_signal (k : Kernel) (p signal : Z) : Kernel * Z :=
  if Signal.signal_max <? signal then (k, Abi.error invalid_argument) else
  let current := (p =? 0) || (p =? Abi.pid (process k)) || (p =? 2 ^ 32 - 1) in
  let suspended_parent := active (parent k) && (p =? pid (context (parent k))) in
  if negb current && negb suspended_parent then (k, Abi.error no_entry) else
  if signal =? 0 then (k, 0) else
  if suspended_parent then
    let '(s, st) := Signal.queue (signals (context (parent k))) signal in
    (k <| parent ::= fun p => p <| context ::= fun c => c <| signals := s |> |> |>,
     queued st)
  else
    let '(s, st) := Signal.queue (signal_state k) signal in
    (k <| signal_state := s |>, queued st).

(** The lambda of [queue_process_group_signal]: the numbers that have been
    reached and the state of the process, with the signal if it is its turn. *)
Definition queue_member (process_group signal : Z) (p group : Z) (delivered : list Z) (s : Signal.SignalState)
    : list Z * Signal.SignalState :=
  if (p =? 0) || negb (group =? process_group) || existsb (Z.eqb p) delivered then (delivered, s) else
  match Signal.queue s signal with
  | (s, Signal.success) => (delivered ++ [p], s)
  | (s, _) => (delivered, s)
  end.

Definition queue_context (process_group signal : Z) (delivered : list Z) (c : Context) : list Z * Context :=
  let '(delivered, s) := queue_member process_group signal (pid c) (Context.process_group c) delivered (signals c) in
  (delivered, c <| signals := s |>).

Definition queue_suspended (process_group signal : Z) (delivered : list Z) (p : SuspendedParent)
    : list Z * SuspendedParent :=
  if active p then
    let '(delivered, c) := queue_context process_group signal delivered (context p) in
    (delivered, p <| context := c |>)
  else (delivered, p).

Fixpoint queue_ancestors (process_group signal : Z) (delivered : list Z) (l : list SuspendedParent)
    : list Z * list SuspendedParent :=
  match l with
  | [] => (delivered, [])
  | p :: l =>
      let '(delivered, p) := queue_suspended process_group signal delivered p in
      let '(delivered, l) := queue_ancestors process_group signal delivered l in
      (delivered, p :: l)
  end.

(** The numbers of the processes that the signal has been queued in; the code
    returns how many. *)
Definition queue_process_group_signal (k : Kernel) (process_group signal : Z) : Kernel * list Z :=
  if (process_group =? 0) || negb (Signal.valid signal) then (k, []) else
  let '(delivered, s) := queue_member process_group signal (Abi.pid (process k)) (Abi.process_group (process k)) []
                           (signal_state k) in
  let k := k <| signal_state := s |> in
  let '(delivered, p) := queue_suspended process_group signal delivered (parent k) in
  let k := k <| parent := p |> in
  let '(delivered, l) := queue_ancestors process_group signal delivered (nested_ancestors k) in
  let k := k <| nested_ancestors := l |> in
  let '(delivered, k) :=
    if child_used (interactive_child k) then
      let '(delivered, c) := queue_context process_group signal delivered (child_context (interactive_child k)) in
      (delivered, k <| interactive_child ::= fun i => i <| child_context := c |> |>)
    else (delivered, k) in
  let '(delivered, k) :=
    if background_used (background k) then
      let '(delivered, c) := queue_context process_group signal delivered (background_context (background k)) in
      (delivered, k <| background ::= fun b => b <| background_context := c |> |>)
    else (delivered, k) in
  (k, delivered).

(** ** The words of the frame *)

Lemma store_u32_outside a v m b n : b + Z.of_nat n <= a \/ a + 4 <= b -> load (store_u32 a v m) b n = load m b n.
Proof. intros H. apply load_store_apart. cbn. lia. Qed.

Lemma load_u32_ext m m' a : load m a 4 = load m' a 4 -> load_u32 m a = load_u32 m' a.
Proof. intros H. unfold load_u32. by rw H. Qed.

Lemma stores_outside base f m l b n : (forall i, i ∈ l -> b + Z.of_nat n <= base + 4 * Z.of_nat i \/ base + 4 * Z.of_nat i + 4 <= b) ->
  load (foldl (fun m i => store_u32 (base + 4 * Z.of_nat i) (Abi.reg f i) m) m l) b n = load m b n.
Proof.
  revert m. induction l as [|i l IH]; intros m H; [done|]. cbn [foldl]. rw IH; [intros j Hj; apply H; by right|].
  apply store_u32_outside. apply H. by left.
Qed.

Lemma stores_inside base f m n : forall s i, (s <= i < s + n)%nat ->
  load_u32 (foldl (fun m i => store_u32 (base + 4 * Z.of_nat i) (Abi.reg f i) m) m (seq s n)) (base + 4 * Z.of_nat i) = u32 (Abi.reg f i).
Proof.
  revert m. induction n as [|n IH]; intros m s i Hi; [lia|]. cbn [seq foldl].
  destruct (decide (i = s)) as [->|Hne]; [|apply IH; lia].
  rewrite -> (load_u32_ext _ (store_u32 (base + 4 * Z.of_nat s) (Abi.reg f s) m)); [apply load_u32_store|].
  apply stores_outside. intros j [Hj Hj2]%elem_of_seq. lia.
Qed.

Lemma load_part m m' a n o k : load m a n = load m' a n -> 0 <= o -> o + Z.of_nat k <= Z.of_nat n -> load m (a + o) k = load m' (a + o) k.
Proof.
  intros H Ho Hk. unfold load in *. replace o with (Z.of_nat (Z.to_nat o)) by lia.
  rewrite <- (Fs.bytes_at_slice m a n), <- (Fs.bytes_at_slice m' a n) by lia. by rw H.
Qed.

(** The bytes of the frame that [rt_sigreturn] reads. *)
Lemma write_frame_registers address signal blocked f m i : (1 <= i < 32)%nat ->
  load_u32 (write_frame address signal blocked f m) (address + registers_offset + 4 * Z.of_nat i) = u32 (Abi.reg f i).
Proof.
  intros Hi. unfold write_frame, registers_offset, trampoline_offset, store_registers.
  erewrite load_u32_ext; [|rewrite -> !store_u32_outside by lia; reflexivity].
  apply stores_inside. lia.
Qed.

Lemma write_frame_mepc address signal blocked f m :
  load_u32 (write_frame address signal blocked f m) (address + registers_offset) = u32 (Abi.mepc f).
Proof.
  unfold write_frame, registers_offset, trampoline_offset, store_registers.
  erewrite load_u32_ext; [|rewrite -> !store_u32_outside by lia; rw stores_outside; [|reflexivity]]; [apply load_u32_store|].
  intros j [Hj Hj2]%elem_of_seq. lia.
Qed.

Lemma write_frame_mask address signal blocked f m : in_u 64 blocked ->
  load_u64 (write_frame address signal blocked f m) (address + mask_offset) = blocked.
Proof.
  intros Hb. unfold write_frame, registers_offset, trampoline_offset, mask_offset, store_registers.
  transitivity (load_u64 (store_u64 (address + 148) blocked (store_u32 address signal (store address (replicate 960 0) m))) (address + 148));
    [|by apply load_u64_store].
  unfold load_u64. f_equal. rewrite -> !store_u32_outside by lia. rw stores_outside; [intros j [Hj Hj2]%elem_of_seq; lia|].
  by rewrite -> store_u32_outside by lia.
Qed.

Lemma write_frame_outside address signal blocked f m a :
  ~ (address <= a < address + frame_size) -> write_frame address signal blocked f m a = m a.
Proof.
  intros Ha. assert (load (write_frame address signal blocked f m) a 1 = load m a 1) as H.
  { unfold write_frame, registers_offset, trampoline_offset, mask_offset, store_registers, frame_size in *.
    rewrite -> !store_u32_outside by lia. rw stores_outside; [intros j [Hj Hj2]%elem_of_seq; lia|].
    rewrite -> store_u32_outside by lia. unfold store_u64. rewrite -> load_store_apart by (cbn; lia).
    rewrite -> store_u32_outside by lia. apply load_store_apart. rw length_replicate. lia. }
  unfold load, Fs.bytes_at in H. cbn in H. injection H as H. by rewrite -> Z.add_0_r in H.
Qed.

Lemma load_registers_id base m f : length (Abi.x f) = 32%nat ->
  (forall i, (1 <= i < 32)%nat -> load_u32 m (base + 4 * Z.of_nat i) = Abi.reg f i) -> load_registers base m f = f.
Proof.
  intros Hlen H. unfold load_registers.
  assert (forall l, (forall i, i ∈ l -> (1 <= i < 32)%nat) -> foldl (fun f i => Abi.set_reg i (load_u32 m (base + 4 * Z.of_nat i)) f) f l = f) as Hl.
  { induction l as [|i l IH]; intros Hin; [done|]. cbn [foldl].
    assert (Abi.set_reg i (load_u32 m (base + 4 * Z.of_nat i)) f = f) as ->; [|apply IH; intros j Hj; apply Hin; by right].
    specialize (Hin i ltac:(by left)). rewrite -> H by done. unfold Abi.set_reg, Abi.reg. destruct f as [x ? ? ? ?]. cbn in *. f_equal.
    apply list_insert_id. apply list_lookup_lookup_total_lt. lia. }
  apply Hl. intros i [Hi Hi2]%elem_of_seq. lia.
Qed.

(** ** Delivery and return *)

(** Entering a handler. *)
Record entered (k k1 : Kernel) (signal address : Z) : Prop := {
  entered_signal : Signal.next (signal_state k) = ((Signal.next (signal_state k)).1, signal) /\ signal <> 0;
  entered_frame : trap_frame k1 = handler_frame (Signal.action_of (signal_state k) signal) signal address (trap_frame k);
  entered_memory : memory k1 = write_frame address signal (Signal.blocked_ (signal_state k)) (trap_frame k) (memory k);
  entered_saved : active_signal_frame k1 = mkSignalFrame (trap_frame k) (Signal.blocked_ (signal_state k)) true;
  entered_address : address mod 16 = 0 /\ Abi.user_begin <= address /\ address + frame_size <= Abi.reg (trap_frame k) 2;
  entered_room : contains address frame_size = true;
}.

Lemma next_keeps s : Signal.actions_ (Signal.next s).1 = Signal.actions_ s /\ Signal.blocked_ (Signal.next s).1 = Signal.blocked_ s.
Proof. unfold Signal.next. by destruct (first_slot _ _). Qed.

Lemma frame_address_ok f address : Abi.frame_ok f -> frame_address f = Some address ->
  address mod 16 = 0 /\ Abi.user_begin <= address /\ address + frame_size <= Abi.reg f 2 /\ contains address frame_size = true /\ in_u 32 address.
Proof.
  intros [Hl Hw _]. unfold frame_address, frame_size. destruct (_ <? _) eqn:Hlt; [done|].
  assert (in_u 32 (Abi.reg f 2)) as Hr.
  { eapply Forall_lookup_1; [exact Hw|]. apply list_lookup_lookup_total_lt. lia. }
  set (a := Base.align_down _ _ _). destruct (contains a 960) eqn:Hc; [|done]. intros [= <-].
  pose proof (Base.align_down_spec 32 4 (u32 (Abi.reg f 2 - 960)) ltac:(lia) ltac:(word)) as Hd. change (2 ^ 4) with 16 in Hd. fold a in Hd.
  assert (in_u 32 a) as Ha by (rw Hd; word). apply user_contains_spec in Hc as Hc'; [|done|lia].
  split_and!; [rw Hd; word|lia|rw Hd; word|done|done].
Qed.

Lemma deliver_entered k k1 : Abi.frame_ok (trap_frame k) ->
  signal_active (active_signal_frame k) = false -> deliver_pending_signal k = Returned k1 ->
  signal_active (active_signal_frame k1) = true ->
  exists signal address, entered k k1 signal address.
Proof.
  intros Hf Hi. unfold deliver_pending_signal. rw Hi. destruct (Signal.next (signal_state k)) as [s signal] eqn:Hn.
  pose proof (next_keeps (signal_state k)) as [Hact Hbl]. rw Hn in Hact. rw Hn in Hbl. cbn in Hact, Hbl.
  assert (Signal.action_of s signal = Signal.action_of (signal_state k) signal) as Ha by (unfold Signal.action_of; by rw Hact).
  destruct (signal =? 0) eqn:Hz; [intros [= <-]; cbn; by rw Hi|].
  destruct (_ || _); [intros [= <-]; cbn; by rw Hi|].
  destruct (Signal.handler (Signal.action_of s signal) =? 0); [done|].
  change (trap_frame (k <| signal_state := s |>)) with (trap_frame k).
  destruct (frame_address (trap_frame k)) as [address|] eqn:Hfa; [|done].
  destruct (frame_address_ok _ _ Hf Hfa) as (H1 & H2 & H3 & H4 & H5). intros [= <-] _. exists signal, address.
  split; cbn -[write_frame handler_frame]; rewrite -> ?Hn, ?Hbl, ?Ha; try done. split; [done|lia].
Qed.

(** The registers the frame holds are those of the interrupted program. *)
Lemma saved_registers k k1 signal address m : Abi.frame_ok (trap_frame k) -> entered k k1 signal address ->
  load m address 960 = load (memory k1) address 960 ->
  load_u32 m (address + registers_offset) = Abi.mepc (trap_frame k) /\
  (forall i, (1 <= i < 32)%nat -> load_u32 m (address + registers_offset + 4 * Z.of_nat i) = Abi.reg (trap_frame k) i).
Proof.
  intros [Hl Hw Hm] He Hload.
  assert (forall o, 0 <= o <= 956 -> load_u32 m (address + o) = load_u32 (memory k1) (address + o)) as Hin.
  { intros o Ho. apply load_u32_ext. apply (load_part _ _ address 960 o 4); [done|lia|lia]. }
  split.
  - rewrite -> (Hin registers_offset) by (unfold registers_offset; lia). rw (entered_memory _ _ _ _ He).
    rewrite -> (write_frame_mepc address signal (Signal.blocked_ (signal_state k)) (trap_frame k) (memory k)). unfold in_u in Hm. word.
  - intros i Hi. rewrite <- Z.add_assoc, Hin by (unfold registers_offset; lia). rw (entered_memory _ _ _ _ He). rewrite -> Z.add_assoc.
    rewrite -> (write_frame_registers address signal (Signal.blocked_ (signal_state k)) (trap_frame k) (memory k) i Hi).
    assert (in_u 32 (Abi.reg (trap_frame k) i)) as Hr; [|unfold in_u in Hr; word].
    eapply Forall_lookup_1; [exact Hw|]. apply list_lookup_lookup_total_lt. lia.
Qed.

Lemma handler_frame_stack action signal address f : length (Abi.x f) = 32%nat -> Abi.reg (handler_frame action signal address f) 2 = address.
Proof.
  intros Hl. unfold handler_frame. destruct (_ =? 0); unfold Abi.set_reg, Abi.reg; cbn -[insert];
    rewrite -> !list_lookup_total_insert_ne by done; by rewrite -> list_lookup_total_insert_eq by (rewrite -> ?length_insert; lia).
Qed.

Lemma handler_frame_signal action signal address f : length (Abi.x f) = 32%nat -> Abi.reg (handler_frame action signal address f) 10 = signal.
Proof.
  intros Hl. unfold handler_frame. destruct (_ =? 0); unfold Abi.set_reg, Abi.reg; cbn -[insert];
    rewrite -> ?(list_lookup_total_insert_ne _ 12), ?(list_lookup_total_insert_ne _ 11) by done;
    by rewrite -> list_lookup_total_insert_eq by (rewrite -> ?length_insert; lia).
Qed.

(** Setting the mask to one that spares SIGKILL and SIGSTOP. *)
Lemma mask_idempotent m : Signal.spares_uncatchable m -> Z.land m (Signal.not64 Signal.uncatchable_mask) = m.
Proof.
  intros (Hu & Hk & Hst). apply Z.bits_inj'. intros n Hn.
  destruct (Z.lt_ge_cases n 64) as [Hlt|Hge].
  - pose proof (Signal.mem_land m (Signal.not64 Signal.uncatchable_mask) (n + 1)) as Hl.
    rewrite -> Signal.mem_not64, Signal.mem_uncatchable in Hl by lia. unfold Signal.mem in Hl, Hk, Hst.
    replace (n + 1 - 1) with n in Hl by lia. rw Hl.
    destruct (Z.eqb_spec (n + 1) Signal.signal_kill) as [He|_]; [replace n with (Signal.signal_kill - 1) by lia; by rw Hk|].
    destruct (Z.eqb_spec (n + 1) Signal.signal_stop) as [He|_]; [replace n with (Signal.signal_stop - 1) by lia; by rw Hst|].
    by rewrite -> andb_true_r.
  - rewrite -> Z.land_spec. enough (Z.testbit m n = false) as -> by done.
    unfold in_u in Hu. rewrite <- (Z.mod_small m (2 ^ 64)) by lia. by apply Z.mod_pow2_bits_high; lia.
Qed.

(** C3: A signal handler runs between two halves that fit: delivery puts the
    frame on a 16-byte boundary below the program's stack, touches nothing else,
    and enters the handler with the signal in a0; when the handler returns with its frame and stack pointer
    as it found them, [rt_sigreturn] brings back every register of the
    interrupted program, where it was, and its mask. *)
Theorem signal_round_trip k k1 k2 :
  Abi.frame_ok (trap_frame k) -> Signal.inv (signal_state k) -> signal_active (active_signal_frame k) = false ->
  deliver_pending_signal k = Returned k1 -> signal_active (active_signal_frame k1) = true ->
  let address := Abi.reg (trap_frame k1) 2 in
  active_signal_frame k2 = active_signal_frame k1 -> Abi.reg (trap_frame k2) 2 = address ->
  load (memory k2) address 960 = load (memory k1) address 960 ->
  let signal := Abi.reg (trap_frame k1) 10 in
  let action := Signal.action_of (signal_state k) signal in
  signal = (Signal.next (signal_state k)).2 /\ Abi.mepc (trap_frame k1) = Signal.handler action /\
  address mod 16 = 0 /\ address + frame_size <= Abi.reg (trap_frame k) 2 /\
  (forall a, ~ (address <= a < address + frame_size) -> memory k1 a = memory k a) /\
  let '(k3, a0) := rt_sigreturn k2 in
  trap_frame k3 = trap_frame k /\ a0 = i32 (Abi.reg (trap_frame k) 10) /\
  Signal.blocked_ (signal_state k3) = Signal.blocked_ (signal_state k) /\
  signal_active (active_signal_frame k3) = false /\ Abi.image_replaced (process k3) = true /\ memory k3 = memory k2.
Proof.
  intros Hf Hs Hi Hd Ha address Hfr Hsp Hload signal action.
  destruct (deliver_entered _ _ Hf Hi Hd Ha) as (sg & ad & He).
  pose proof (entered_frame _ _ _ _ He) as Hfk. pose proof (Abi.frame_length _ Hf) as Hlen.
  assert (address = ad) as Had by (unfold address; rw Hfk; by apply handler_frame_stack).
  assert (signal = sg) as Hsg by (unfold signal; rw Hfk; by apply handler_frame_signal).
  rewrite -> Had in *. unfold action. rewrite -> Hsg in *. clear Had Hsg.
  destruct (entered_signal _ _ _ _ He) as [Hn _]. destruct (entered_address _ _ _ _ He) as (H1 & H2 & H3).
  split; [by rw Hn|]. split; [by rw Hfk|]. split_and!; [done|done|intros a Hout; rw (entered_memory _ _ _ _ He); by apply write_frame_outside|].
  unfold rt_sigreturn. rewrite -> Hfr, Hsp, (entered_saved _ _ _ _ He), (entered_room _ _ _ _ He). cbn [signal_active saved_frame negb orb].
  destruct (saved_registers _ _ _ _ (memory k2) Hf He Hload) as [Hpc Hregs].
  rewrite -> Hpc. assert (trap_frame k <| Abi.mepc := Abi.mepc (trap_frame k) |> = trap_frame k) as -> by (by destruct (trap_frame k)).
  rewrite -> (load_registers_id (ad + registers_offset) (memory k2) (trap_frame k) Hlen Hregs).
  assert (load_u64 (memory k2) (ad + mask_offset) = Signal.blocked_ (signal_state k)) as ->.
  { destruct (Signal.inv_blocked _ Hs) as [Hu _].
    rewrite <- (write_frame_mask ad sg (Signal.blocked_ (signal_state k)) (trap_frame k) (memory k) Hu), <- (entered_memory _ _ _ _ He).
    unfold load_u64. f_equal. apply (load_part _ _ ad 960 mask_offset 8); [done|by unfold mask_offset|unfold mask_offset; lia]. }
  split_and!; try done. cbn. by rewrite -> !(mask_idempotent (Signal.blocked_ (signal_state k))) by apply Hs.
Qed.

(** ** The processes of a group *)

(** A process the kernel represents: its number, its group and its signals. *)
Definition member : Type := Z * Z * Signal.SignalState.
Definition member_of (c : Context) : member := (pid c, Context.process_group c, signals c).

(** All of them, in the order in which a group is searched. *)
Definition members (k : Kernel) : list member :=
  (Abi.pid (process k), Abi.process_group (process k), signal_state k) ::
  (member_of ∘ context <$> filter (fun p => active p = true) (parent k :: nested_ancestors k)) ++
  (if child_used (interactive_child k) then [member_of (child_context (interactive_child k))] else []) ++
  (if background_used (background k) then [member_of (background_context (background k))] else []).

(** One pass over a list of processes. *)
Fixpoint visit (group signal : Z) (delivered : list Z) (l : list member) : list Z * list member :=
  match l with
  | [] => (delivered, [])
  | (p, g, s) :: l =>
      let '(delivered, s) := queue_member group signal p g delivered s in
      let '(delivered, l) := visit group signal delivered l in
      (delivered, (p, g, s) :: l)
  end.

Lemma visit_app group signal l1 l2 : forall d,
  visit group signal d (l1 ++ l2) =
  let '(d, l1') := visit group signal d l1 in let '(d, l2') := visit group signal d l2 in (d, l1' ++ l2').
Proof.
  induction l1 as [|[[p g] s] l1 IH]; intros d; cbn; [by destruct (visit _ _ d l2)|].
  destruct (queue_member _ _ _ _ _ _) as [d1 s1]. rw IH. destruct (visit _ _ d1 l1) as [d2 l1'].
  by destruct (visit _ _ d2 l2).
Qed.

Lemma queue_context_visit group signal d c :
  let '(d', c') := queue_context group signal d c in visit group signal d [member_of c] = (d', [member_of c']).
Proof. unfold queue_context. cbn. by destruct (queue_member _ _ _ _ _ _). Qed.

Lemma queue_ancestors_visit group signal l : forall d,
  let '(d', l') := queue_ancestors group signal d l in
  visit group signal d (member_of ∘ context <$> filter (fun p => active p = true) l) =
    (d', member_of ∘ context <$> filter (fun p => active p = true) l').
Proof.
  induction l as [|p l IH]; intros d; cbn [queue_ancestors]; [done|]. unfold queue_suspended.
  destruct (active p) eqn:Ha.
  - pose proof (queue_context_visit group signal d (context p)) as Hc.
    destruct (queue_context _ _ _ _) as [d1 c]. specialize (IH d1). destruct (queue_ancestors _ _ _ _) as [d2 l'].
    rewrite -> filter_cons_True by done. rewrite -> filter_cons_True by done.
    change (visit group signal d ([member_of (context p)] ++ (member_of ∘ context <$> filter (fun p => active p = true) l)) = (d2, [member_of c] ++ (member_of ∘ context <$> filter (fun p => active p = true) l'))).
    by rewrite -> visit_app, Hc, IH.
  - specialize (IH d). destruct (queue_ancestors _ _ _ _) as [d2 l'].
    rewrite -> filter_cons_False by (by rw Ha). by rewrite -> filter_cons_False by (by rw Ha).
Qed.

Lemma group_visit k group signal : group <> 0 -> Signal.valid signal = true ->
  let '(k', d) := queue_process_group_signal k group signal in visit group signal [] (members k) = (d, members k').
Proof.
  intros Hg Hv. unfold queue_process_group_signal. rewrite -> (proj2 (Z.eqb_neq group 0) Hg), Hv. cbn [negb orb].
  unfold members at 1. cbn [visit]. destruct (queue_member _ _ _ _ _ _) as [d1 s1].
  pose proof (queue_ancestors_visit group signal (parent k :: nested_ancestors k) d1) as H. cbn [queue_ancestors] in H.
  change (parent (k <| signal_state := s1 |>)) with (parent k). destruct (queue_suspended _ _ _ _) as [d2 p].
  change (nested_ancestors (k <| signal_state := s1 |> <| parent := p |>)) with (nested_ancestors k).
  destruct (queue_ancestors _ _ _ _) as [d3 l]. rewrite -> !visit_app, H. clear H.
  set (k3 := k <| signal_state := s1 |> <| parent := p |> <| nested_ancestors := l |>).
  change (child_used (interactive_child k3)) with (child_used (interactive_child k)).
  change (interactive_child k3) with (interactive_child k).
  pose proof (queue_context_visit group signal d3 (child_context (interactive_child k))) as H1.
  destruct (queue_context group signal d3 (child_context (interactive_child k))) as [d4 c1].
  set (k4 := k3 <| interactive_child ::= fun i => i <| child_context := c1 |> |>).
  set (d5 := if child_used (interactive_child k) then d4 else d3).
  pose proof (queue_context_visit group signal d5 (background_context (background k))) as H2.
  destruct (child_used (interactive_child k)) eqn:Hu; destruct (background_used (background k)) eqn:Hb; subst d5;
    change (background k4) with (background k); change (background k3) with (background k); rewrite -> Hb;
    destruct (queue_context _ _ _ (background_context (background k))) as [d6 c2];
    rewrite -> ?app_nil_l, ?app_nil_r, ?visit_app, ?H1, ?H2; unfold members; cbn -[filter fmap list_fmap list_filter]; rewrite -> ?Hu, ?Hb; reflexivity.
Qed.

(** Who is reached. *)
Lemma visit_delivered group signal l : forall d,
  Signal.valid signal = true -> NoDup d ->
  let '(d', l') := visit group signal d l in
  NoDup d' /\ (length d' <= length d + length l)%nat /\
  (forall p, p ∈ d' <-> p ∈ d \/ p <> 0 /\ exists s, (p, group, s) ∈ l) /\
  Forall2 (fun m m' => m'.1 = m.1 /\ (m'.2 = m.2 \/ m'.2 = (Signal.queue m.2 signal).1)) l l'.
Proof.
  induction l as [|[[p g] s] l IH]; intros d Hv Hd; cbn [visit].
  { split_and!; [done|lia| |constructor]. intros p. split; [by left|]. intros [H|[_ [s H%elem_of_nil]]]; done. }
  unfold queue_member. destruct ((p =? 0) || negb (g =? group) || existsb (Z.eqb p) d) eqn:Hc.
  - specialize (IH d Hv Hd). destruct (visit _ _ d l) as [d' l']. destruct IH as (H1 & H2 & H3 & H4).
    split_and!; [done|cbn; lia| |by constructor; [auto|]]. intros q. rw H3. split.
    + intros [H|(Hq & s' & Hs)]; [by left|right]. split; [done|]. exists s'. by right.
    + intros [H|(Hq & s' & [Heq|Hs]%elem_of_cons)]; [by left| |right; eauto].
      injection Heq as -> -> ->. left. rewrite -> Z.eqb_refl in Hc. cbn [negb] in Hc. rewrite -> orb_false_r in Hc.
      apply orb_true_iff in Hc as [?%Z.eqb_eq|He]; [done|]. apply existsb_exists in He as (x & Hx & ->%Z.eqb_eq). by apply list_elem_of_In.
  - apply orb_false_iff in Hc as [[Hp Hg%negb_false_iff]%orb_false_iff He]. apply Z.eqb_neq in Hp. apply Z.eqb_eq in Hg as ->.
    assert (p ∉ d) as Hnd.
    { intros Hin. apply list_elem_of_In in Hin. assert (existsb (Z.eqb p) d = true); [|congruence].
      apply existsb_exists. exists p. split; [done|apply Z.eqb_refl]. }
    unfold Signal.queue at 1. rw Hv. cbn [negb].
    specialize (IH (d ++ [p]) Hv). destruct (visit _ _ (d ++ [p]) l) as [d' l']. destruct IH as (H1 & H2 & H3 & H4).
    { apply NoDup_app. split_and!; [done|intros x Hx ->%list_elem_of_singleton; done|apply NoDup_singleton]. }
    rewrite -> length_app in H2. cbn [length] in H2. split_and!; [done|cbn; lia| |].
    + intros q. rw H3. rewrite -> elem_of_app, list_elem_of_singleton. split.
      * intros [[H| ->]|(Hq & s' & Hs)]; [by left|right|right]; (split; [done|]); [exists s; by left|exists s'; by right].
      * intros [H|(Hq & s' & [Heq|Hs]%elem_of_cons)]; [by left; left| |right; eauto]. injection Heq as ->. by left; right.
    + constructor; [|done]. cbn. split; [done|]. right. unfold Signal.queue. by rw Hv.
Qed.

End kernel.

(** ** Concrete signals *)

(** The process of [ContextSpec.example_kernel] handles signal 10, which is pending. *)
Definition example_signals : Signal.SignalState :=
  Signal.step (Signal.step Signal.initial (Signal.OSetAction 10 (Signal.mkAction 0x81000200 0 0))) (Signal.OQueue 10).
Definition example_pending : ContextSpec.Example_kernel := ContextSpec.example_kernel <| signal_state := example_signals |>.
Definition example_handler : ContextSpec.Example_kernel :=
  match deliver_pending_signal example_pending with Returned k => k | Shutdown _ => example_pending end.

Lemma example_delivery : deliver_pending_signal example_pending = Returned example_handler.
Proof.
  unfold example_handler. assert ((if deliver_pending_signal example_pending then true else false) = true) as H by (vm_compute; reflexivity).
  revert H. by destruct (deliver_pending_signal example_pending).
Qed.

Lemma example_signals_inv : Signal.inv example_signals.
Proof.
  apply Signal.signal_step_inv; [apply Signal.signal_step_inv; [apply Signal.signal_initial_inv|]|]; cbn; [split; word|word].
Qed.

Lemma signal_round_trip_witness :
  Abi.mepc (trap_frame example_handler) = 0x81000200 /\
  trap_frame (rt_sigreturn example_handler).1 = ContextSpec.example_frame.
Proof.
  pose proof (signal_round_trip example_pending example_handler example_handler
    (ContextSpec.wf_frame _ _ ContextSpec.example_kernel_wf) example_signals_inv eq_refl example_delivery
    ltac:(vm_compute; reflexivity) eq_refl eq_refl eq_refl) as H. cbn zeta in H.
  destruct H as (_ & _ & _ & _ & _ & H). destruct (rt_sigreturn example_handler) as [k3 a0].
  split; [vm_compute; reflexivity|exact (proj1 H)].
Defined.

End SignalCalls.
