(* ===== verification/Loader.v ===== *)
(** * [kernel/main.cpp]: loading an executable

    An ELF file is checked completely before the memory of the running program
    is overwritten; its segments are read from the root file system or copied
    from an image inside the kernel; the arguments, the environment and the
    auxiliary vector are laid out on the new stack. *)

From stdpp Require Import strings.
From S2P Require Import Prelude ByteQueue Base Filesystem Ext4 Root Ethernet Timing Interface Socket Tcp Stack.
From S2P Require Import Abi Memory Runtime PseudoFs Descriptor Context.
Local Open Scope Z_scope.

(** What the linker and the build put into the kernel: the addresses of the
    embedded executables, and whether this is the interactive build. *)
Class Build := mkBuild { interactive : bool; embedded_busybox : Z * Z; embedded_dropbear : Z * Z }.

(** What a file transfer that fails halfway leaves in its destination. *)
Class TornRead (E : Type) := torn_read : E -> Ext4.Node -> Z -> Z -> list Z.

Module Loader.
Import Memory Context.

(** ** The structures of an ELF file *)

Record ElfHeader := mkHeader {
  ident : list Z; type : Z; machine : Z; version : Z; entry : Z; program_offset : Z; section_offset : Z;
  flags : Z; header_size : Z; program_entry_size : Z; program_count : Z; section_entry_size : Z;
  section_count : Z; section_names : Z;
}.
Definition header_bytes := 52.
(** The bytes of the packed struct. *)
Definition decode_header (l : list Z) : ElfHeader :=
  mkHeader (slice l 0 16) (Fs.little_u16 l 16) (Fs.little_u16 l 18) (Fs.little_u32 l 20) (Fs.little_u32 l 24)
    (Fs.little_u32 l 28) (Fs.little_u32 l 32) (Fs.little_u32 l 36) (Fs.little_u16 l 40) (Fs.little_u16 l 42)
    (Fs.little_u16 l 44) (Fs.little_u16 l 46) (Fs.little_u16 l 48) (Fs.little_u16 l 50).

Record ProgramHeader := mkSegment {
  seg_type : Z; seg_offset : Z; virtual_address : Z; physical_address : Z; file_size : Z; memory_size : Z;
  seg_flags : Z; alignment : Z;
}.
Definition segment_bytes := 32.
Definition decode_segment (l : list Z) : ProgramHeader :=
  mkSegment (Fs.little_u32 l 0) (Fs.little_u32 l 4) (Fs.little_u32 l 8) (Fs.little_u32 l 12) (Fs.little_u32 l 16)
    (Fs.little_u32 l 20) (Fs.little_u32 l 24) (Fs.little_u32 l 28).

Record Image := mkImage { image_entry : Z; program_headers : Z; image_program_count : Z; image_brk : Z; image_mutable_begin : Z }.

Definition valid_elf (header : ElfHeader) (size : Z) : bool :=
  bool_decide (take 6 (ident header) = [0x7f; 69; 76; 70; 1; 1]) && (type header =? 2) && (machine header =? 243) &&
  contains (entry header) 1 && (program_entry_size header =? segment_bytes) && (program_offset header <=? size) &&
  (program_count header <=? (size - program_offset header) / segment_bytes).

(** ** Checking the segments *)

Definition interpreter := 3.
Definition load_type := 1.
Definition writable := 2.

(** The three variables of the first loop. *)
Record Scan := mkScan { image_end : Z; mutable_begin : Z; headers_address : Z }.
Definition scan_start : Scan := mkScan Abi.user_begin Abi.user_end 0.

Definition segment_at (header : ElfHeader) (i : Z) : Z := u32 (program_offset header + i * segment_bytes).

Definition scan_segment (header : ElfHeader) (size : Z) (s : ProgramHeader) (v : Scan) : option Scan :=
  if seg_type s =? interpreter then None else
  if negb (seg_type s =? load_type) then Some v else
  if (memory_size s <? file_size s) || (size <? seg_offset s) || (size - seg_offset s <? file_size s) ||
     negb (contains (virtual_address s) (memory_size s)) then None else
  let table := u32 (program_count header * segment_bytes) in
  let headers :=
    if (seg_offset s <=? program_offset header) && (table <=? file_size s) &&
       (program_offset header - seg_offset s <=? file_size s - table)
    then u32 (virtual_address s + program_offset header - seg_offset s) else headers_address v in
  let end_ := u32 (virtual_address s + memory_size s) in
  Some (mkScan (if image_end v <? end_ then end_ else image_end v)
          (if negb (Z.land (seg_flags s) writable =? 0) && (virtual_address s <? mutable_begin v)
           then virtual_address s else mutable_begin v) headers).

(** ** Copying a segment from the image inside the kernel *)

(** [for (byte = file_size; byte != 0; --byte) destination[byte - 1] = source[byte - 1]]. *)
Fixpoint copy_backwards (n : nat) (destination source : Z) (m : Memory) : Memory :=
  match n with
  | O => m
  | S n => copy_backwards n destination source (Runtime.copy_byte (destination + Z.of_nat n) (source + Z.of_nat n) m)
  end.

Definition copy_preloaded (s : ProgramHeader) (base : Z) (m : Memory) : Memory :=
  let source := u32 (base + seg_offset s) in
  if virtual_address s =? source then m else
  if (source <? virtual_address s) && (virtual_address s <? u32 (source + file_size s))
  then copy_backwards (Z.to_nat (file_size s)) (virtual_address s) source m
  else Runtime.memcpy (virtual_address s) source (file_size s) m.

Section image.
Context {E : Type}.

(** A reader gets an offset and a size; it gives the bytes and whether all of
    them have arrived. *)
Definition Reader := E -> Memory -> Z -> Z -> E * list Z * bool.

Section reader.
Variable read : Reader.

Fixpoint scan_loop (e : E) (m : Memory) (header : ElfHeader) (size i : Z) (n : nat) (v : Scan) : E * option Scan :=
  match n with
  | O => (e, Some v)
  | S n =>
      match read e m (segment_at header i) segment_bytes with
      | (e, l, true) =>
          match scan_segment header size (decode_segment l) v with
          | Some v => scan_loop e m header size (i + 1) n v
          | None => (e, None)
          end
      | (e, _, false) => (e, None)
      end
  end.

Definition load_segment (e : E) (m : Memory) (s : ProgramHeader) (preloaded_base : Z) : E * Memory * bool :=
  let clear := Runtime.memset (virtual_address s + file_size s) 0 (memory_size s - file_size s) in
  if negb (preloaded_base =? 0) then (e, clear (copy_preloaded s preloaded_base m), true) else
  match read e m (seg_offset s) (file_size s) with
  | (e, l, true) => (e, clear (store (virtual_address s) l m), true)
  | (e, l, false) => (e, store (virtual_address s) l m, false)
  end.

Fixpoint load_loop (e : E) (m : Memory) (header : ElfHeader) (writable_only : bool) (preloaded_base i : Z) (n : nat)
    : E * Memory * bool :=
  match n with
  | O => (e, m, true)
  | S n =>
      match read e m (segment_at header i) segment_bytes with
      | (e, l, true) =>
          let s := decode_segment l in
          if negb (seg_type s =? load_type) || (writable_only && (Z.land (seg_flags s) writable =? 0))
          then load_loop e m header writable_only preloaded_base (i + 1) n else
          match load_segment e m s preloaded_base with
          | (e, m, true) => load_loop e m header writable_only preloaded_base (i + 1) n
          | (e, m, false) => (e, m, false)
          end
      | (e, _, false) => (e, m, false)
      end
  end.

Definition load_image_from (e : E) (m : Memory) (size : Z) (writable_only : bool) (preloaded_base : Z)
    : E * Memory * option Image :=
  if size <? header_bytes then (e, m, None) else
  match read e m 0 header_bytes with
  | (e, l, true) =>
      let header := decode_header l in
      if negb (valid_elf header size) then (e, m, None) else
      let n := Z.to_nat (program_count header) in
      match scan_loop e m header size 0 n scan_start with
      | (e, Some v) =>
          if headers_address v =? 0 then (e, m, None) else
          match load_loop e m header writable_only preloaded_base 0 n with
          | (e, m, true) =>
              (e, m, Some (mkImage (entry header) (headers_address v) (program_count header)
                             (Base.align_up 32 (image_end v) 4096) (mutable_begin v)))
          | (e, m, false) => (e, m, None)
          end
      | (e, None) => (e, m, None)
      end
  | (e, _, false) => (e, m, None)
  end.
End reader.
End image.
#[global] Arguments Reader E : clear implicits.

(** ** The stack of a new program *)

Definition copy_string_down (cursor : Z) (text : list Z) (m : Memory) : Z * Memory :=
  let cursor := u32 (cursor - (Z.of_nat (length text) + 1)) in (cursor, store cursor (text ++ [0]) m).

(** [for (i = count; i != 0; --i) addresses[i - 1] = cursor = copy_string_down(cursor, strings[i - 1])]:
    the addresses in the order of the strings. *)
Fixpoint copy_strings (cursor : Z) (strings : list (list Z)) (m : Memory) : Z * list Z * Memory :=
  match strings with
  | [] => (cursor, [], m)
  | text :: strings =>
      let '(cursor, addresses, m) := copy_strings cursor strings m in
      let '(cursor, m) := copy_string_down cursor text m in (cursor, cursor :: addresses, m)
  end.

(** The sixteen bytes behind [AT_RANDOM]. *)
Definition random_bytes : list Z := (fun i => u8 (Z.lxor 0xa5 (u8 (i * 29)))) <$> seqZ 0 16.

Definition auxiliary (image : Image) (random argument : Z) : list (Z * Z) := [
  (3, program_headers image); (4, segment_bytes); (5, image_program_count image); (6, 4096); (7, 0); (8, 0);
  (9, image_entry image); (11, 0); (12, 0); (13, 0); (14, 0); (16, 0); (17, 100); (23, 0); (25, random);
  (31, argument); (0, 0)].

Definition stack_words (image : Image) (random : Z) (arguments environment : list Z) : list Z :=
  Z.of_nat (length arguments) :: arguments ++ [0] ++ environment ++ [0] ++
  concat ((fun p => [p.1; p.2]) <$> auxiliary image random (default 0 (head arguments))).

Definition max_arguments := 16%nat.

Definition make_initial_stack (image : Image) (arguments environment : list (list Z)) (m : Memory)
    : outcome (Z * Memory) :=
  if Nat.eqb (length arguments) 0 || (max_arguments <? length arguments)%nat ||
     (max_arguments <? length environment)%nat then Shutdown 6 else
  let '(cursor, environment_addresses, m) := copy_strings Abi.user_stack_top environment m in
  let '(cursor, argument_addresses, m) := copy_strings cursor arguments m in
  let random := u32 (cursor - 16) in
  let m := store random random_bytes m in
  let words := stack_words image random argument_addresses environment_addresses in
  let stack := Base.align_down 32 (u32 (random - Z.of_nat (length words) * 4)) 16 in
  Returned (stack, store stack (concat (Fs.bytes32 <$> words)) m).

(** [copy_path]: at most 255 characters. *)
Definition copy_path (input : list Z) : list Z := take 255 input.

(** ** Executables in the root file system *)

Section files.
Context {D : Type} {device : Fs.Device D} {start : RootDevice D} {torn : TornRead D}.
Context {build : Build}.
Abbreviation RootFilesystem := (Root.RootFilesystem D).

(** [read_file]: [size] bytes or a failure. *)
Definition read_file (file : Ext4.Node) : Reader RootFilesystem := fun e m offset size =>
  match Root.read file offset false size e with
  | (e, Fs.expected l) => (e, l, bool_decide (Z.of_nat (length l) = size))
  | (e, Fs.unexpected _) => (e, take (Z.to_nat size) (torn_read (Ext4.device_ (Root.volume e)) file offset size), false)
  end.

(** A regular file that fits 32 bits. *)
Definition loadable (file : Ext4.Node) : bool :=
  bool_decide (Ext4.type file = Ext4.Type_.regular) && (Ext4.size file <=? 2 ^ 32 - 1).

Definition load_image (file : Ext4.Node) (writable_only : bool) (e : RootFilesystem) (m : Memory)
    : RootFilesystem * Memory * option Image :=
  if negb (loadable file) then (e, m, None)
  else load_image_from (read_file file) e m (Ext4.size file) writable_only 0.

(** The reader over an image at [begin]. *)
Definition read_preloaded (begin : Z) : Reader RootFilesystem := fun e m offset size =>
  (e, load m (begin + offset) (Z.to_nat size), true).

Definition load_preloaded_image (file : Ext4.Node) (begin end_ : Z) (e : RootFilesystem) (m : Memory)
    : RootFilesystem * Memory * option Image :=
  if negb (bool_decide (Ext4.type file = Ext4.Type_.regular)) || (2 ^ 32 - 1 <? begin) || (end_ <? begin) ||
     negb (Ext4.size file =? end_ - begin) || (2 ^ 32 - 1 <? Ext4.size file)
  then (e, m, None)
  else load_image_from (read_preloaded begin) e m (Ext4.size file) false begin.

Definition load_preloaded_busybox (file : Ext4.Node) := load_preloaded_image file embedded_busybox.1 embedded_busybox.2.
Definition load_preloaded_dropbear (file : Ext4.Node) := load_preloaded_image file embedded_dropbear.1 embedded_dropbear.2.

Definition bin_busybox : list Z := PseudoFs.text "/bin/busybox".
Definition usr_sbin_dropbear : list Z := PseudoFs.text "/usr/sbin/dropbear".

(** [root::lookup(path)] as an optional node. *)
Definition lookup_node (path : list Z) (e : RootFilesystem) : RootFilesystem * option Ext4.Node :=
  match Root.lookup path e with
  | (e, Fs.expected node) => (e, Some node)
  | (e, Fs.unexpected _) => (e, None)
  end.

(** Whether the path names the same file as [node]. *)
Definition same_file (path : list Z) (node : Ext4.Node) (e : RootFilesystem) : RootFilesystem * bool :=
  let '(e, other) := lookup_node path e in
  (e, match other with Some other => Ext4.inode other =? Ext4.inode node | None => false end).

Definition required_image (path : list Z) (writable_only preloaded_busybox : bool) (e : RootFilesystem) (m : Memory)
    : outcome (RootFilesystem * Memory * Image) :=
  let '(e, node) := lookup_node path e in
  match node with
  | None => Shutdown 1
  | Some node =>
      if preloaded_busybox && negb interactive then Shutdown 1 else
      match (if preloaded_busybox then load_preloaded_busybox node e m else load_image node writable_only e m) with
      | (e, m, Some image) => Returned (e, m, image)
      | (_, _, None) => Shutdown 1
      end
  end.

(** [restore_executable_image]: the loader that [Context] takes as given. *)
#[global] Instance root_image_loader : ImageLoader RootFilesystem := fun e m path =>
  let '(e, node) := lookup_node path e in
  match node with
  | None => (e, m, false)
  | Some node =>
      let '(e, dropbear) := if interactive then same_file usr_sbin_dropbear node e else (e, false) in
      match (if dropbear then load_preloaded_dropbear node e m else load_image node false e m) with
      | (e, m, Some _) => (e, m, true)
      | (e, m, None) => (e, m, false)
      end
  end.

(** ** Replacing the running program *)

Section kernel.
Context {Q : Type} `{!ByteQueue Q}.
Context {W : Type} {stack_machine : Machine W}.
Abbreviation Kernel := (Kernel Q W RootFilesystem).

Definition busybox_mmap_begin := 0x81800000.
Definition heap_reserve := 512 * 1024.
(** [mode & 0111]. *)
Definition executable (node : Ext4.Node) : bool := negb (Z.land (Ext4.mode node) 0x49 =? 0).

(** Everything before the new image is recorded: the node, whether it is
    busybox, and the image. *)
Definition load_executable (k : Kernel) (path : list Z) : Kernel * option (bool * Image) :=
  let '(e, node) := lookup_node path (executables k) in
  let k := k <| executables := e |> in
  match node with
  | None => (k, None)
  | Some node =>
      if negb (bool_decide (Ext4.type node = Ext4.Type_.regular)) || negb (executable node) then (k, None) else
      let '(e, busybox) := same_file bin_busybox node e in
      let '(e, dropbear) := if interactive then same_file usr_sbin_dropbear node e else (e, false) in
      let '(e, m, image) :=
        if dropbear then load_preloaded_dropbear node e (memory k) else load_image node busybox e (memory k) in
      (k <| executables := e |> <| memory := m |>, (fun i => (busybox, i)) <$> image)
  end.

Definition replace_with_executable (k : Kernel) (path : list Z) (arguments environment : list (list Z))
    : outcome (Kernel * bool) :=
  if Nat.eqb (length arguments) 0 || (max_arguments <? length arguments)%nat ||
     (max_arguments <? length environment)%nat then Returned (k, false) else
  let '(k, loaded) := load_executable k path in
  match loaded with
  | None => Returned (k, false)
  | Some (busybox, image_) =>
      let k := k <| process ::= fun p => p <| Abi.brk := image_brk image_ |> <| Abi.mutable_begin := image_mutable_begin image_ |> |> in
      if negb busybox && (Abi.user_stack_top - heap_reserve <? image_brk image_) then Returned (k, false) else
      let mmap := if busybox then busybox_mmap_begin
                  else Base.align_up 32 (u32 (image_brk image_ + heap_reserve)) 4096 in
      '(stack, m) ← make_initial_stack image_ arguments environment (memory k);
      Returned (k <| memory := m |>
                  <| trap_frame ::= fun f => Abi.set_reg 2 stack (f <| Abi.x := replicate 32 0 |>) <| Abi.mepc := image_entry image_ |> |>
                  <| process ::= fun p => p <| Abi.mmap_begin := mmap |> <| Abi.mmap_cursor := mmap |>
                       <| Abi.image := if busybox then 0 else 1 |> <| Abi.executable_path := copy_path path |>
                       <| Abi.image_replaced := true |> |>, true)
  end.
End kernel.
End files.
End Loader.
