(* ===== verification/LoaderLaws.v ===== *)
(** * Loading an executable: the image that comes out

    A reader is trusted to give the bytes of one file whenever it succeeds.
    [layout] is what the loadable segments of the file make of a memory;
    [load_image_from] computes it after checks that keep it inside the memory
    of the program. *)

From stdpp Require Import strings.
From S2P Require Import Prelude ByteQueue Base Filesystem Ext4 Ext4Image Ext4Laws Ext4Mount Ext4Map Ext4Read Root.
From S2P Require Import Ethernet Timing Interface Socket Tcp Stack.
From S2P Require Import Abi Memory Runtime PseudoFs Descriptor Context Loader.
Local Open Scope Z_scope.

(** The bytes a reader gives when it succeeds are those of [data]; while it is
    reliable it does succeed. *)
Class ReaderLaws {E : Type} (read : Loader.Reader E) (data : list Z) := {
  holds : E -> Prop;
  reliable_reader : E -> Prop;
  reader_law e m offset size :
    holds e -> 0 <= offset -> 0 <= size -> offset + size <= Z.of_nat (length data) ->
    let '(e', l, ok) := read e m offset size in
    holds e' /\ Z.of_nat (length l) <= size /\ (ok = true -> l = slice data (Z.to_nat offset) (Z.to_nat size)) /\
    (reliable_reader e -> ok = true /\ reliable_reader e');
}.

Module LoaderLaws.
Import Memory Loader.

(** ** The file as its header and segments *)

Definition file_header (data : list Z) : ElfHeader := decode_header (slice data 0 52).
Definition file_segment (data : list Z) (i : Z) : ProgramHeader :=
  decode_segment (slice data (Z.to_nat (segment_at (file_header data) i)) 32).
Definition file_segments (data : list Z) : list ProgramHeader :=
  file_segment data <$> seqZ 0 (program_count (file_header data)).

(** The segments that are loaded. *)
Definition selected (writable_only : bool) (s : ProgramHeader) : bool :=
  (seg_type s =? load_type) && negb (writable_only && (Z.land (seg_flags s) writable =? 0)).

(** One segment in memory: its bytes of the file, then zeros. *)
Definition place (data : list Z) (m : Memory) (s : ProgramHeader) : Memory :=
  Runtime.memset (virtual_address s + file_size s) 0 (memory_size s - file_size s)
    (store (virtual_address s) (slice data (Z.to_nat (seg_offset s)) (Z.to_nat (file_size s))) m).
Definition layout (data : list Z) (writable_only : bool) (l : list ProgramHeader) (m : Memory) : Memory :=
  foldl (place data) m (filter (fun s => selected writable_only s = true) l).

(** A loadable segment that has passed the checks. *)
Definition fits (size : Z) (s : ProgramHeader) : Prop :=
  0 <= seg_offset s /\ 0 <= file_size s <= memory_size s /\ seg_offset s + file_size s <= size /\
  Abi.user_begin <= virtual_address s /\ virtual_address s + memory_size s <= Abi.user_end.

Definition segment_words (s : ProgramHeader) : Prop :=
  in_u 32 (seg_offset s) /\ in_u 32 (virtual_address s) /\ in_u 32 (file_size s) /\ in_u 32 (memory_size s).

Lemma decode_segment_words l : bytes_ok l -> segment_words (decode_segment l).
Proof. intros H. split_and!; by apply Fs.little_u32_in_u. Qed.

(** ** The checks *)

Fixpoint scan_list (header : ElfHeader) (size : Z) (l : list ProgramHeader) (v : Scan) : option Scan :=
  match l with
  | [] => Some v
  | s :: l => match scan_segment header size s v with Some v => scan_list header size l v | None => None end
  end.

(** What [v] knows about the segments behind it. *)
Record scanned (header : ElfHeader) (size : Z) (l : list ProgramHeader) (v : Scan) : Prop := {
  scan_fits s : s ∈ l -> seg_type s = load_type -> fits size s;
  scan_static s : s ∈ l -> seg_type s <> interpreter;
  scan_end s : s ∈ l -> seg_type s = load_type -> virtual_address s + memory_size s <= image_end v;
  scan_range : Abi.user_begin <= image_end v <= Abi.user_end;
  scan_writable s : s ∈ l -> seg_type s = load_type -> Z.land (seg_flags s) writable <> 0 -> mutable_begin v <= virtual_address s;
  scan_headers : headers_address v <> 0 ->
    exists s, s ∈ l /\ seg_type s = load_type /\
      seg_offset s <= program_offset header /\
      program_offset header - seg_offset s + program_count header * segment_bytes <= file_size s /\
      headers_address v = virtual_address s + (program_offset header - seg_offset s);
}.

Lemma scanned_start header size : scanned header size [] scan_start.
Proof.
  constructor; [intros s Hs; by apply elem_of_nil in Hs..| |intros s Hs; by apply elem_of_nil in Hs|done].
  all: by unfold scan_start, Abi.user_begin, Abi.user_end.
Qed.

Lemma scan_segment_ok header size s l v v' :
  segment_words s -> in_u 32 (program_offset header) -> 0 <= program_count header < 2 ^ 16 ->
  scanned header size l v -> scan_segment header size s v = Some v' -> scanned header size (l ++ [s]) v'.
Proof.
  intros (Ho & Hv & Hf & Hm) Hp Hc H. unfold scan_segment.
  destruct (Z.eqb_spec (seg_type s) interpreter) as [?|Hi]; [done|].
  destruct (Z.eqb_spec (seg_type s) load_type) as [Ht|Ht]; cbn [negb].
  2: { intros [= <-]. destruct H. constructor; [| | |done| |].
       - intros s' [Hs| ->%list_elem_of_singleton]%elem_of_app; [by auto|done].
       - intros s' [Hs| ->%list_elem_of_singleton]%elem_of_app; [by auto|done].
       - intros s' [Hs| ->%list_elem_of_singleton]%elem_of_app; [by auto|done].
       - intros s' [Hs| ->%list_elem_of_singleton]%elem_of_app; [by auto|done].
       - intros Hne. destruct (scan_headers0 Hne) as (s' & ? & ?). exists s'. by rewrite -> elem_of_app; auto. }
  destruct (_ || _) eqn:E; [done|]. rewrite -> !orb_false_iff in E. destruct E as [[[E1 E2] E3] E4].
  apply negb_false_iff, (user_contains_spec (virtual_address s) (memory_size s) Hv ltac:(word)) in E4 as [E4 E5].
  assert (fits size s) as Hfit by (unfold in_u in *; split_and!; lia).
  assert (u32 (virtual_address s + memory_size s) = virtual_address s + memory_size s) as Hend
    by (apply wrap_small; unfold Abi.user_begin, Abi.user_end, in_u in *; lia).
  rewrite -> Hend. intros [= <-]. destruct H. constructor; cbn [image_end mutable_begin headers_address].
  - intros s' [Hs| ->%list_elem_of_singleton]%elem_of_app; auto.
  - intros s' [Hs| ->%list_elem_of_singleton]%elem_of_app; auto.
  - intros s' [Hs| ->%list_elem_of_singleton]%elem_of_app Hs'; [pose proof (scan_end0 s' Hs Hs')|]; case_match; lia.
  - case_match; unfold Abi.user_begin, Abi.user_end, in_u in *; lia.
  - intros s' [Hs| ->%list_elem_of_singleton]%elem_of_app Hs' Hw; [pose proof (scan_writable0 s' Hs Hs' Hw); case_match; lia|].
    rewrite -> (proj2 (Z.eqb_neq _ 0) Hw). cbn [negb andb]. case_match; lia.
  - assert (u32 (program_count header * segment_bytes) = program_count header * segment_bytes) as Ht32
      by (apply wrap_small; unfold segment_bytes, in_u; lia).
    rewrite -> Ht32. destruct (_ && _) eqn:E.
    + rewrite -> !andb_true_iff, !Z.leb_le in E. intros _. exists s. rewrite -> elem_of_app, list_elem_of_singleton.
      split_and!; [by right|done|lia|lia|]. rewrite -> wrap_small; unfold Abi.user_begin, Abi.user_end, in_u in *; unfold segment_bytes in *; lia.
    + intros Hne. destruct (scan_headers0 Hne) as (s' & ? & ?). exists s'. by rewrite -> elem_of_app; auto.
Qed.

Lemma scan_list_ok header size l2 : forall l1 v v',
  Forall segment_words l2 -> in_u 32 (program_offset header) -> 0 <= program_count header < 2 ^ 16 ->
  scanned header size l1 v -> scan_list header size l2 v = Some v' -> scanned header size (l1 ++ l2) v'.
Proof.
  induction l2 as [|s l2 IH]; intros l1 v v' Hw Hp Hc H; cbn [scan_list].
  { intros [= <-]. by rewrite -> app_nil_r. }
  apply Forall_cons in Hw as [Hs Hw]. destruct (scan_segment header size s v) as [v1|] eqn:E; [|done].
  intros Hl. replace (l1 ++ s :: l2) with ((l1 ++ [s]) ++ l2) by (by rewrite <- app_assoc).
  eapply IH; [done..| |done]. by eapply scan_segment_ok.
Qed.

(** ** The two loops *)

Lemma store_outside a l m b : ~ (a <= b < a + Z.of_nat (length l)) -> store a l m b = m b.
Proof. intros H. unfold store. by rewrite -> decide_False. Qed.

Section reader.
Context {E : Type} (read : Reader E) (data : list Z) {laws : ReaderLaws read data}.
Hypothesis data_ok : bytes_ok data.
Hypothesis data_size : Z.of_nat (length data) < 2 ^ 32.
Let size := Z.of_nat (length data).
Let header := file_header data.
Hypothesis header_valid : valid_elf header size = true.

Lemma elf_header_count : 0 <= program_count header < 2 ^ 16.
Proof. apply Fs.little_u16_in_u. by apply bytes_ok_slice. Qed.
Lemma header_offset : in_u 32 (program_offset header).
Proof. apply Fs.little_u32_in_u. by apply bytes_ok_slice. Qed.

Lemma header_table : contains (entry header) 1 = true /\ program_offset header + program_count header * segment_bytes <= size.
Proof.
  pose proof header_valid as H. unfold valid_elf in H. rewrite -> !andb_true_iff, !Z.leb_le in H.
  destruct H as [[[[_ H2] _] H3] H4]. split; [done|]. unfold segment_bytes in *.
  pose proof (Z.mul_div_le (size - program_offset header) 32 ltac:(lia)). lia.
Qed.

Lemma segment_at_small i : 0 <= i < program_count header -> segment_at header i = program_offset header + i * segment_bytes.
Proof.
  intros Hi. pose proof header_table as [_ H]. pose proof header_offset as Hp. unfold segment_at, segment_bytes, in_u in *.
  apply wrap_small. unfold in_u, size in *. lia.
Qed.

Lemma read_segment e m i : holds e -> 0 <= i < program_count header ->
  let '(e', l, ok) := read e m (segment_at header i) segment_bytes in
  holds e' /\ (ok = true -> decode_segment l = file_segment data i) /\ (reliable_reader e -> ok = true /\ reliable_reader e').
Proof.
  intros He Hi. pose proof (segment_at_small i Hi) as Hs. pose proof header_table as [_ Ht]. pose proof header_offset as Hp.
  unfold segment_bytes, in_u in *.
  pose proof (reader_law e m (segment_at header i) 32 He ltac:(lia) ltac:(lia) ltac:(unfold size in Ht; lia)) as H.
  destruct (read e m (segment_at header i) 32) as [[e' l] ok]. destruct H as (H1 & _ & H2 & H3).
  split_and!; [done| |done]. intros Hok. unfold file_segment. fold header. by rewrite -> (H2 Hok).
Qed.

Lemma file_segment_words i : segment_words (file_segment data i).
Proof. apply decode_segment_words. by apply bytes_ok_slice. Qed.

Lemma scan_loop_spec n : forall e m i v, holds e -> 0 <= i -> i + Z.of_nat n <= program_count header ->
  let '(e', r) := scan_loop read e m header size i n v in
  holds e' /\ (reliable_reader e -> reliable_reader e') /\
  match r with
  | Some v' => scan_list header size (file_segment data <$> seqZ i (Z.of_nat n)) v = Some v'
  | None => reliable_reader e -> scan_list header size (file_segment data <$> seqZ i (Z.of_nat n)) v = None
  end.
Proof.
  induction n as [|n IH]; intros e m i v He Hi Hn; cbn [scan_loop]; [done|].
  rewrite -> seqZ_cons by lia. cbn [fmap list_fmap scan_list]. replace (Z.pred (Z.of_nat (S n))) with (Z.of_nat n) by lia.
  pose proof (read_segment e m i He ltac:(lia)) as H. destruct (read e m (segment_at header i) segment_bytes) as [[e1 l] ok].
  destruct H as (H1 & H2 & H3). destruct ok; [rewrite -> H2 by done|].
  - destruct (scan_segment header size (file_segment data i) v) as [v1|]; [|split_and!; [done| |done]; intros; by apply H3].
    specialize (IH e1 m (i + 1) v1 H1 ltac:(lia) ltac:(lia)). replace (Z.succ i) with (i + 1) by lia.
    destruct (scan_loop read e1 m header size (i + 1) n v1) as [e2 r]. destruct IH as (I1 & I2 & I3).
    split_and!; [done|intros; apply I2; by apply H3|]. destruct r; [done|]. intros; apply I3. by apply H3.
  - split_and!; [done|intros Hr; by apply H3 in Hr as [? _]|intros Hr; by apply H3 in Hr as [? _]].
Qed.

(** A segment that fits is placed inside the memory of the program, whether or
    not its transfer succeeds. *)
Lemma load_segment_spec e m s : holds e -> fits size s ->
  let '(e', m', ok) := load_segment read e m s 0 in
  holds e' /\ (reliable_reader e -> ok = true /\ reliable_reader e') /\
  (forall a, ~ (virtual_address s <= a < virtual_address s + memory_size s) -> m' a = m a) /\
  (ok = true -> m' = place data m s).
Proof.
  intros He (Ho & Hf & Hs & Hv). unfold load_segment. cbn [Z.eqb negb].
  pose proof (reader_law e m (seg_offset s) (file_size s) He Ho ltac:(lia) Hs) as H.
  destruct (read e m (seg_offset s) (file_size s)) as [[e' l] ok]. destruct H as (H1 & H2 & H3 & H4).
  destruct ok.
  - rewrite -> H3 in * by done. split_and!; [done..| |done]. intros a Ha.
    rewrite -> Runtime.memset_filled by lia. unfold Runtime.filled. rewrite -> decide_False by lia. apply store_outside. lia.
  - split_and!; [done| |intros a Ha; apply store_outside; lia|done]. intros Hr. by apply H4 in Hr as [? _].
Qed.

Lemma load_loop_spec wo n : forall e m i, holds e -> 0 <= i -> i + Z.of_nat n <= program_count header ->
  (forall s, s ∈ file_segment data <$> seqZ i (Z.of_nat n) -> seg_type s = load_type -> fits size s) ->
  let '(e', m', ok) := load_loop read e m header wo 0 i n in
  holds e' /\ (reliable_reader e -> ok = true /\ reliable_reader e') /\
  (forall a, ~ (Abi.user_begin <= a < Abi.user_end) -> m' a = m a) /\
  (ok = true -> m' = layout data wo (file_segment data <$> seqZ i (Z.of_nat n)) m).
Proof.
  induction n as [|n IH]; intros e m i He Hi Hn Hfit; cbn [load_loop]; [done|].
  revert Hfit. rewrite -> seqZ_cons by lia. cbn [fmap list_fmap]. replace (Z.pred (Z.of_nat (S n))) with (Z.of_nat n) by lia.
  replace (Z.succ i) with (i + 1) by lia. intros Hfit.
  pose proof (read_segment e m i He ltac:(lia)) as H. destruct (read e m (segment_at header i) segment_bytes) as [[e1 l] ok].
  destruct H as (H1 & H2 & H3). destruct ok; cbn [list_fmap].
  2: { split_and!; [done|intros Hr; by apply H3 in Hr as [? _]|done|done]. }
  rewrite -> H2 by done. set (s := file_segment data i) in *. unfold layout.
  assert (negb (seg_type s =? load_type) || (wo && (Z.land (seg_flags s) writable =? 0)) = negb (selected wo s)) as Hsel
    by (unfold selected; by destruct (seg_type s =? load_type), wo, (Z.land (seg_flags s) writable =? 0)).
  rw Hsel. destruct (selected wo s) eqn:Esel; cbn [negb].
  - rewrite -> filter_cons_True by done. cbn [foldl].
    assert (fits size s) as Hs by (apply Hfit; [by left|]; unfold selected in Esel; apply andb_true_iff in Esel as [Es _]; lia).
    pose proof (load_segment_spec e1 m s H1 Hs) as L. destruct (load_segment read e1 m s 0) as [[e2 m2] ok].
    destruct L as (L1 & L2 & L3 & L4). destruct Hs as (_ & _ & _ & Hu).
    destruct ok; [|split_and!; [done|intros Hr; apply H3 in Hr as [_ Hr]; by apply L2 in Hr as [? _]|intros a Ha; apply L3; lia|done]].
    specialize (IH e2 m2 (i + 1) L1 ltac:(lia) ltac:(lia) ltac:(intros s' Hs'; apply Hfit; by right)).
    destruct (load_loop read e2 m2 header wo 0 (i + 1) n) as [[e3 m3] ok]. destruct IH as (I1 & I2 & I3 & I4).
    split_and!; [done|intros Hr; apply I2, L2, H3, Hr|intros a Ha; rewrite -> I3 by done; apply L3; lia|].
    intros Hok. rewrite -> I4 by done. unfold layout. by rewrite -> L4.
  - rewrite -> filter_cons_False by congruence.
    specialize (IH e1 m (i + 1) H1 ltac:(lia) ltac:(lia) ltac:(intros s' Hs'; apply Hfit; by right)).
    destruct (load_loop read e1 m header wo 0 (i + 1) n) as [[e3 m3] ok]. destruct IH as (I1 & I2 & I3 & I4).
    split_and!; [done|intros Hr; apply I2, H3, Hr|done|done].
Qed.
End reader.

(** ** What the layout holds *)

Definition apart (s t : ProgramHeader) : Prop :=
  virtual_address s + memory_size s <= virtual_address t \/ virtual_address t + memory_size t <= virtual_address s.
Definition disjoint (l : list ProgramHeader) : Prop :=
  forall i j s t, l !! i = Some s -> l !! j = Some t -> (i < j)%nat -> apart s t.
Definition chosen (writable_only : bool) (l : list ProgramHeader) : list ProgramHeader :=
  filter (fun s => selected writable_only s = true) l.

Definition present (data : list Z) (m : Memory) (s : ProgramHeader) : Prop :=
  load m (virtual_address s) (Z.to_nat (file_size s)) = slice data (Z.to_nat (seg_offset s)) (Z.to_nat (file_size s)) /\
  load m (virtual_address s + file_size s) (Z.to_nat (memory_size s - file_size s)) =
    replicate (Z.to_nat (memory_size s - file_size s)) 0.

Lemma place_outside data size s m a : fits size s -> Z.of_nat (length data) = size ->
  ~ (virtual_address s <= a < virtual_address s + memory_size s) -> place data m s a = m a.
Proof.
  intros (Ho & Hf & Hs & Hv) Hl Ha. unfold place. rewrite -> Runtime.memset_filled by lia. unfold Runtime.filled.
  rewrite -> decide_False by lia. apply store_outside. rewrite -> length_slice by lia. lia.
Qed.

Lemma place_present data size s m : fits size s -> Z.of_nat (length data) = size -> present data (place data m s) s.
Proof.
  intros (Ho & Hf & Hs & Hv) Hl. unfold present, place. split.
  - rewrite -> (load_ext _ (store (virtual_address s) (slice data (Z.to_nat (seg_offset s)) (Z.to_nat (file_size s))) m)).
    + apply memory_load_store. rewrite -> length_slice by lia. done.
    + intros b Hb. rewrite -> Runtime.memset_filled by lia. unfold Runtime.filled. by rewrite -> decide_False by lia.
  - apply list_eq_same_length with (Z.to_nat (memory_size s - file_size s)); [apply length_replicate|apply length_load|].
    intros i x y Hi Hx Hy. apply lookup_replicate in Hy as [-> _]. unfold load in Hx. rewrite -> Fs.lookup_bytes_at in Hx by done.
    injection Hx as <-. rewrite -> Runtime.memset_filled by lia. unfold Runtime.filled. by rewrite -> decide_True by lia.
Qed.

Lemma present_frame data size s t m : fits size s -> fits size t -> Z.of_nat (length data) = size -> apart s t ->
  present data m s -> present data (place data m t) s.
Proof.
  intros Hs Ht Hl Ha [H1 H2]. unfold present. pose proof Hs as (_ & Hf & _). destruct Ha.
  all: split; [rewrite <- H1|rewrite <- H2]; apply load_ext; intros b Hb; apply (place_outside data size); unfold apart in *; try done; lia.
Qed.

Lemma layout_outside data size l : forall m a, Z.of_nat (length data) = size -> Forall (fits size) l ->
  (forall s, s ∈ l -> ~ (virtual_address s <= a < virtual_address s + memory_size s)) -> foldl (place data) m l a = m a.
Proof.
  induction l as [|s l IH]; intros m a Hl Hf Ha; cbn [foldl]; [done|]. apply Forall_cons in Hf as [Hs Hf].
  rw IH; [done|done|intros t Ht; apply Ha; by right|]. apply (place_outside data size); [done|done|apply Ha; by left].
Qed.

Lemma layout_kept data size l : forall m s, Z.of_nat (length data) = size -> fits size s -> Forall (fits size) l ->
  Forall (apart s) l -> present data m s -> present data (foldl (place data) m l) s.
Proof.
  induction l as [|t l IH]; intros m s Hl Hs Hf Ha Hp; cbn [foldl]; [done|].
  apply Forall_cons in Hf as [Ht Hf]. apply Forall_cons in Ha as [Hat Ha]. apply IH; [done..|]. by eapply present_frame.
Qed.

Lemma layout_present data size l : forall m, Z.of_nat (length data) = size -> Forall (fits size) l -> disjoint l ->
  Forall (present data (foldl (place data) m l)) l.
Proof.
  induction l as [|s l IH]; intros m Hl Hf Hd; [constructor|]. apply Forall_cons in Hf as [Hs Hf]. cbn [foldl]. constructor.
  - apply (layout_kept data size); [done|done|done| |by apply (place_present data size)].
    apply Forall_forall. intros t Ht. apply list_elem_of_lookup in Ht as [j Hj]. apply (Hd 0%nat (S j)); [done|done|lia].
  - apply IH; [done|done|]. intros i j t u Hi Hj Hij. apply (Hd (S i) (S j)); [done|done|lia].
Qed.

(** ** The theorem *)

(** What [load_image] promises about an image it returns. *)
Record image_ok (data : list Z) (writable_only : bool) (m m' : Memory) (i : Image) : Prop := {
  image_entry_ok : contains (image_entry i) 1 = true;
  image_segments s : s ∈ file_segments data -> seg_type s = load_type ->
    fits (Z.of_nat (length data)) s /\ virtual_address s + memory_size s <= image_brk i /\
    (Z.land (seg_flags s) writable <> 0 -> image_mutable_begin i <= virtual_address s);
  image_brk_page : image_brk i mod 4096 = 0 /\ image_brk i <= Abi.user_end;
  image_frame a : (forall s, s ∈ chosen writable_only (file_segments data) ->
    ~ (virtual_address s <= a < virtual_address s + memory_size s)) -> m' a = m a;
  image_present : disjoint (chosen writable_only (file_segments data)) ->
    Forall (present data m') (chosen writable_only (file_segments data));
  image_headers : disjoint (chosen false (file_segments data)) -> writable_only = false ->
    let n := Z.to_nat (image_program_count i * segment_bytes) in
    load m' (program_headers i) n = slice data (Z.to_nat (program_offset (file_header data))) n;
}.

Lemma layout_headers data m s n o : Z.of_nat (length data) <= 2 ^ 32 -> fits (Z.of_nat (length data)) s -> present data m s ->
  seg_offset s <= o -> 0 <= n -> o - seg_offset s + n <= file_size s ->
  load m (virtual_address s + (o - seg_offset s)) (Z.to_nat n) = slice data (Z.to_nat o) (Z.to_nat n).
Proof.
  intros Hl (Ho & Hf & Hs & Hv) [Hp _] H1 H2 H3. unfold load in *.
  replace (o - seg_offset s) with (Z.of_nat (Z.to_nat (o - seg_offset s))) by lia.
  rewrite <- (Fs.bytes_at_slice m (virtual_address s) (Z.to_nat (file_size s))), Hp by lia.
  unfold slice. rewrite -> skipn_firstn_comm, take_take, drop_drop. f_equal; [lia|f_equal; lia].
Qed.

Lemma image_made data wo m (v : Scan) : bytes_ok data -> Z.of_nat (length data) < 2 ^ 32 ->
  let header := file_header data in
  valid_elf header (Z.of_nat (length data)) = true -> headers_address v <> 0 ->
  scanned header (Z.of_nat (length data)) (file_segments data) v ->
  image_ok data wo m (layout data wo (file_segments data) m)
    (mkImage (entry header) (headers_address v) (program_count header) (Base.align_up 32 (image_end v) 4096) (mutable_begin v)).
Proof.
  intros Hok Hlen header Hve Hne Hsc.
  assert (Forall (fits (Z.of_nat (length data))) (chosen wo (file_segments data))) as Hall.
  { apply Forall_forall. intros s [Hs Hin]%list_elem_of_filter. apply (scan_fits _ _ _ _ Hsc s Hin).
    unfold selected in Hs. apply andb_true_iff in Hs as [Hs _]. lia. }
  destruct (header_table data Hve) as [Hentry _]. pose proof (elf_header_count data Hok) as Hcount.
  pose proof (scan_range _ _ _ _ Hsc) as Hr. unfold Abi.user_begin, Abi.user_end in Hr.
  pose proof (Base.align_up_spec 32 12 (image_end v) ltac:(lia) ltac:(word) ltac:(word)) as [Hb1 Hb2].
  change (2 ^ 12) with 4096 in Hb1, Hb2. constructor; cbn [image_entry program_headers image_program_count image_brk image_mutable_begin].
  - done.
  - intros s Hs Ht. split_and!; [by apply (scan_fits _ _ _ _ Hsc)| |intros Hw; by apply (scan_writable _ _ _ _ Hsc)].
    pose proof (scan_end _ _ _ _ Hsc s Hs Ht). lia.
  - split; [done|]. unfold Abi.user_end. assert (Base.align_up 32 (image_end v) 4096 < 0x82000000 + 4096) by lia.
    Z.to_euclidean_division_equations. lia.
  - intros a Ha. by apply (layout_outside data (Z.of_nat (length data))).
  - intros Hd. by apply (layout_present data (Z.of_nat (length data))).
  - intros Hd ->. destruct (scan_headers _ _ _ _ Hsc Hne) as (s & Hs & Ht & H1 & H2 & ->). subst header.
    apply layout_headers; [lia|by apply (scan_fits _ _ _ _ Hsc)| |done|unfold segment_bytes; lia|unfold segment_bytes in *; lia].
    pose proof (layout_present data _ _ m eq_refl Hall Hd) as Hp. rewrite -> Forall_forall in Hp. apply Hp.
    apply list_elem_of_filter. split; [|done]. unfold selected. by rewrite -> Ht.
Qed.

(** Whatever the file holds and whichever transfer fails, nothing outside the
    memory of the program is written; a file that is refused leaves all of
    memory alone. *)
Lemma load_image_from_ok {E} (read : Reader E) data {laws : ReaderLaws read data} e m writable_only :
  bytes_ok data -> Z.of_nat (length data) < 2 ^ 32 -> holds e ->
  let '(e', m', image) := load_image_from read e m (Z.of_nat (length data)) writable_only 0 in
  holds e' /\ (forall a, ~ (Abi.user_begin <= a < Abi.user_end) -> m' a = m a) /\
  match image with
  | None => reliable_reader e -> m' = m
  | Some i => image_ok data writable_only m m' i
  end.
Proof.
  intros Hok Hlen He. unfold load_image_from. destruct (Z.ltb_spec (Z.of_nat (length data)) header_bytes) as [|E0]; [done|]. unfold header_bytes in *.
  pose proof (reader_law e m 0 52 He ltac:(lia) ltac:(lia) ltac:(lia)) as H0.
  destruct (read e m 0 52) as [[e1 l] ok]. destruct H0 as (H1 & _ & H2 & H3). destruct ok; [|done].
  rewrite -> H2 by done. change (decode_header _) with (file_header data).
  destruct (valid_elf _ _) eqn:Hve; cbn [negb]; [|done].
  pose proof (elf_header_count data Hok) as Hcount. pose proof (header_offset data Hok) as Hoff.
  pose proof (scan_loop_spec read data Hok Hlen Hve (Z.to_nat (program_count (file_header data))) e1 m 0 scan_start H1 ltac:(lia) ltac:(lia)) as S.
  destruct (scan_loop _ _ _ _ _ _ _ _) as [e2 r]. destruct S as (S1 & S2 & S3). destruct r as [v|]; [|done].
  rewrite -> Z2Nat.id in S3 by lia. change (file_segment data <$> _) with (file_segments data) in S3.
  assert (scanned (file_header data) (Z.of_nat (length data)) (file_segments data) v) as Hsc.
  { apply (scan_list_ok _ _ _ [] scan_start); [|done|done|apply scanned_start|done]. apply Forall_fmap, Forall_forall. intros; by apply file_segment_words. }
  destruct (Z.eqb_spec (headers_address v) 0) as [?|Hne]; [done|].
  pose proof (load_loop_spec read data Hok Hlen Hve writable_only (Z.to_nat (program_count (file_header data))) e2 m 0 S1 ltac:(lia) ltac:(lia)) as L.
  rewrite -> Z2Nat.id in L by lia. change (file_segment data <$> _) with (file_segments data) in L.
  specialize (L (fun s Hs Ht => scan_fits _ _ _ _ Hsc s Hs Ht)).
  destruct (load_loop _ _ _ _ _ _ _ _) as [[e3 m3] ok]. destruct L as (L1 & L2 & L3 & L4).
  destruct ok; (split; [done|split; [done|]]).
  - rewrite -> L4 by done. by apply image_made.
  - intros Hr. apply H3 in Hr as [_ Hr]. by destruct (L2 (S2 Hr)) as [? _].
Qed.

(** ** Files of the root file system *)

(** The device started, the volume [v] mounted. *)
Definition mounted_root {D} (v : Ext4.Volume D) : Root.RootFilesystem D := Root.mkRoot v true.

Section files.
Context {D : Type} {device : Fs.Device D} {device_laws : Fs.DeviceLaws D} {start : RootDevice D} {torn : TornRead D}.

(** The contents of a file whose blocks the extent tree [t] gives. *)
Definition file_data (v : Ext4.Volume D) (file : Ext4.Node) (depth : nat) (t : Ext4Map.tree depth) : list Z :=
  Fs.bytes_at (Ext4Read.file_byte (Ext4Laws.bytes v) (Ext4.geometry_ v) (Ext4Map.find depth t)) 0 (Z.to_nat (Ext4.size file)).

Lemma file_data_ok v file depth (t : Ext4Map.tree depth) : Ext4Laws.volume_ok v -> bytes_ok (file_data v file depth t).
Proof.
  intros Hv. apply Fs.bytes_at_ok. intros o. unfold Ext4Read.file_byte. case_match; [word|].
  apply Fs.contents_byte. apply Hv.
Qed.

Lemma length_file_data v file depth (t : Ext4Map.tree depth) : 0 <= Ext4.size file ->
  Z.of_nat (length (file_data v file depth t)) = Ext4.size file.
Proof. intros H. unfold file_data. rewrite -> Fs.length_bytes_at. lia. Qed.

(** The reader over such a file gives its contents. *)
Program Definition file_reader_laws v file depth (t : Ext4Map.tree depth) (Hv : Ext4Laws.volume_ok v)
    (Hf : Ext4Map.extent_file v file depth t) (Ht : Ext4.type file = Ext4.Type_.regular) (Hs : 0 <= Ext4.size file < 2 ^ 32)
    : ReaderLaws (read_file file) (file_data v file depth t) := {|
  holds e := Root.ready e = true /\ Ext4Laws.reads_only v (Root.volume e);
  reliable_reader e := Fs.reliable (Ext4.device_ (Root.volume e));
|}.
Next Obligation.
  intros v file depth t Hv Hf Ht Hs e m offset size [Hr Hro] Ho Hz Hsz. rewrite -> length_file_data in Hsz by lia.
  pose proof (Ext4Laws.reads_only_ok _ _ Hro Hv) as Hv'. pose proof (Ext4Laws.block_size_range _ _ (Ext4Laws.volume_geometry _ Hv')) as Hbs.
  pose proof (Ext4Map.maps_reads_only _ _ file _ (Ext4Map.extent_file_maps v file depth t Hv Hf) Hro) as Hm.
  assert (Ext4Read.block_ok (Ext4.geometry_ (Root.volume e)) (Ext4Map.find depth t)) as Hb
    by (rewrite -> (Ext4Laws.reads_only_geometry _ _ Hro); intros l _; destruct Hf as (_ & _ & _ & Henc); by eapply Ext4Read.find_ok).
  pose proof (Ext4Read.file_read (Root.volume e) file (Ext4Map.find depth t) offset size Hv' Hm Hb Ht (proj1 Hf) ltac:(lia) Ho ltac:(lia)) as L.
  unfold Fs.wp, Ext4Read.reads in L. unfold read_file, Root.read, Root.guarded. rw Hr. cbn [negb].
  destruct (Ext4.read file offset false size (Root.volume e)) as [v' r]. destruct L as [Hro' L].
  assert (Ext4Laws.reads_only v v') as Hro2 by (by eapply Ext4Laws.reads_only_trans).
  destruct r as [l|err].
  - assert (l = slice (file_data v file depth t) (Z.to_nat offset) (Z.to_nat size)) as ->.
    { rewrite -> L. cbn [app]. unfold file_data. rewrite -> Fs.bytes_at_slice by lia.
      replace (0 + Z.of_nat (Z.to_nat offset)) with offset by lia. replace (Z.max 0 (Z.min size (Ext4.size file - offset))) with size by lia.
      rewrite -> (Ext4Laws.reads_only_geometry _ _ Hro). apply Fs.bytes_at_ext. intros i _. apply Ext4Read.file_byte_ext.
      intros o. by apply Ext4Laws.reads_only_bytes. }
    assert (length (slice (file_data v file depth t) (Z.to_nat offset) (Z.to_nat size)) = Z.to_nat size) as Hl
      by (apply length_slice; pose proof (length_file_data v file depth t); lia).
    rewrite -> Hl. split_and!; [done|done|lia|done|]. intros Hrel. split; [apply bool_decide_eq_true; lia|].
    by apply (Ext4Laws.reads_only_reliable _ _ Hro').
  - destruct L as [_ L]. split_and!; [done|done|rewrite -> length_take; lia|done|done].
Qed.

(** C36: executing a regular file of a mounted ext4 volume, through the root
    file system and the extent tree.  Whatever the file holds and whichever
    transfer fails, nothing outside the memory of the program is written and
    nothing on the device; a file that is refused leaves all of memory alone.
    When an image comes back its entry is in user memory, every loadable segment
    has been checked, lies below the new break and, when it is writable, above
    the beginning of what a fork saves; segments that do not overlap are in
    memory with their bytes of the file and zeros behind them, and the table of
    program headers is where the image says it is. *)
Theorem elf_load_spec v file depth (t : Ext4Map.tree depth) m writable_only :
  Ext4Laws.volume_ok v -> Ext4Map.extent_file v file depth t -> Ext4.type file = Ext4.Type_.regular ->
  0 <= Ext4.size file < 2 ^ 32 ->
  let '(e', m', image) := load_image file writable_only (mounted_root v) m in
  Root.ready e' = true /\ Ext4Laws.reads_only v (Root.volume e') /\
  (forall a, ~ (Abi.user_begin <= a < Abi.user_end) -> m' a = m a) /\
  match image with
  | None => Fs.reliable (Ext4.device_ v) -> m' = m
  | Some i => image_ok (file_data v file depth t) writable_only m m' i
  end.
Proof.
  intros Hv Hf Ht Hs. unfold load_image, loadable. rewrite -> bool_decide_true, (proj2 (Z.leb_le _ _)) by (done || lia). cbn [andb negb].
  pose proof (@load_image_from_ok _ _ _ (file_reader_laws v file depth t Hv Hf Ht Hs) (mounted_root v) m writable_only
    (file_data_ok v file depth t Hv)) as L. rewrite -> (length_file_data v file depth t) in L by lia.
  specialize (L ltac:(lia) (conj eq_refl (Ext4Laws.reads_only_refl v (Ext4Laws.volume_good v Hv)))).
  destruct (load_image_from _ _ _ _ _ _) as [[e' m'] image]. destruct L as ([H1 H2] & H3 & H4). done.
Qed.
End files.

(** ** A small executable on a small volume *)

(** One segment at 0x81001000 that holds the whole file of 116 bytes and 12
    more in memory. *)
Definition example_elf : list Z :=
  [0x7f; 69; 76; 70; 1; 1] ++ replicate 10 0 ++ Fs.bytes16 2 ++ Fs.bytes16 243 ++ Fs.bytes32 1 ++ Fs.bytes32 0x81001054 ++
  Fs.bytes32 52 ++ Fs.bytes32 0 ++ Fs.bytes32 0 ++ Fs.bytes16 52 ++ Fs.bytes16 32 ++ Fs.bytes16 1 ++ replicate 6 0 ++
  Fs.bytes32 1 ++ Fs.bytes32 0 ++ Fs.bytes32 0x81001000 ++ Fs.bytes32 0x81001000 ++ Fs.bytes32 116 ++ Fs.bytes32 128 ++
  Fs.bytes32 7 ++ Fs.bytes32 4096 ++
  replicate 32 0x13.
Definition example_volume : Ext4.Volume (list Z) :=
  Ext4Image.mounted.1 <| Ext4.device_ := patch (patch Ext4Image.image (9 * 1024) Ext4Map.example_leaf) (10 * 1024) example_elf |>.
Definition example_executable : Ext4.Node :=
  Ext4Map.example_file <| Ext4.type := Ext4.Type_.regular |> <| Ext4.size := 116 |>.
#[local] Instance example_torn : TornRead (list Z) := fun _ _ _ _ => [].

Lemma example_executable_volume : Ext4Laws.volume_ok example_volume.
Proof.
  apply Ext4Laws.volume_ok_device; [exact Ext4Mount.image_ok| |vm_compute; reflexivity].
  split; [apply Ethernet.bytes_ok_check; vm_compute; reflexivity|vm_compute; reflexivity].
Qed.

Lemma example_executable_file : Ext4Map.extent_file example_volume example_executable 1 Ext4Map.example_tree.
Proof.
  split; [reflexivity|]. split; [reflexivity|]. split; [lia|]. cbn [Ext4Map.encoded Ext4Map.example_tree length].
  assert (Ext4Map.header (Ext4.block_data example_executable) 60 1 1) as Hh by (unfold Ext4Map.header; vm_compute; repeat split; discriminate).
  split; [exact Hh|]. split; [by split|]. intros i first child t Hi.
  destruct i as [|i]; [|by destruct i]. injection Hi as <- <- <-. split; [vm_compute; reflexivity|].
  split; [vm_compute; reflexivity|]. split; [lia|]. split; [vm_compute; reflexivity|].
  split; [unfold Ext4Map.header; vm_compute; repeat split; discriminate|].
  split; [split; [|split; [|exact I]]; unfold Ext4Map.extent_ok; vm_compute; repeat split; discriminate|].
  intros j e Hj. destruct j as [|[|j]]; [injection Hj as <-..|by destruct j]; vm_compute; repeat split.
Qed.

(** Its image: entry, headers, break. *)
Example example_executable_image :
  (load_image example_executable false (mounted_root example_volume) (fun _ => 0xaa)).2 =
  Some (mkImage 0x81001054 0x81001034 1 0x81002000 0x81001000).
Proof. vm_compute. reflexivity. Qed.

Lemma elf_load_spec_witness :
  let '(e', m', image) := load_image example_executable false (mounted_root example_volume) (fun _ => 0xaa) in
  image_ok (file_data example_volume example_executable 1 Ext4Map.example_tree) false (fun _ => 0xaa) m'
    (mkImage 0x81001054 0x81001034 1 0x81002000 0x81001000).
Proof.
  pose proof (elf_load_spec example_volume example_executable 1 Ext4Map.example_tree (fun _ => 0xaa) false
    example_executable_volume example_executable_file eq_refl ltac:(vm_compute; split; [discriminate|reflexivity])) as L.
  pose proof example_executable_image as Hi.
  destruct (load_image example_executable false (mounted_root example_volume) (fun _ => 0xaa)) as [[e' m'] image].
  cbn [snd] in Hi. rewrite -> Hi in L. exact (proj2 (proj2 (proj2 L))).
Defined.
End LoaderLaws.
