(* ===== verification/LoaderStack.v ===== *)
(** * The stack of a new program

    [make_initial_stack] lays out what the program's start-up code reads: the
    argument count, the pointers to the arguments and to the environment, the
    auxiliary vector, and the strings behind the pointers. *)

From stdpp Require Import strings.
From S2P Require Import Prelude ByteQueue Base Filesystem Ext4 Root Ethernet Timing Interface Socket Tcp Stack.
From S2P Require Import Abi Memory Runtime PseudoFs Descriptor Context Loader.
Local Open Scope Z_scope.

Module LoaderStack.
Import Memory Loader.

(** A string with its NUL at an address, and words from an address on. *)
Definition string_at (m : Memory) (a : Z) (s : list Z) : Prop := load m a (length s + 1) = s ++ [0].
Definition words_at (m : Memory) (a : Z) (l : list Z) : Prop :=
  forall i w, l !! i = Some w -> load_u32 m (a + 4 * Z.of_nat i) = u32 w.

(** The bytes the strings take. *)
Definition strings_size (l : list (list Z)) : Z := foldr (fun s n => Z.of_nat (length s) + 1 + n) 0 l.

Lemma strings_size_nonneg l : 0 <= strings_size l.
Proof. unfold strings_size. induction l as [|s l IH]; cbn [foldr]; lia. Qed.

Lemma string_at_frame m m' a s : (forall b, a <= b < a + Z.of_nat (length s) + 1 -> m' b = m b) -> string_at m a s -> string_at m' a s.
Proof. intros H Hs. unfold string_at in *. rewrite <- Hs. apply load_ext. intros b Hb. apply H. lia. Qed.

Lemma words_at_frame m m' a l : (forall b, a <= b < a + 4 * Z.of_nat (length l) -> m' b = m b) -> words_at m a l -> words_at m' a l.
Proof.
  intros H Hw i w Hi. rewrite <- (Hw i w Hi). pose proof (lookup_lt_Some _ _ _ Hi). unfold load_u32. f_equal.
  apply load_ext. intros b Hb. apply H. lia.
Qed.

Lemma words_at_app m a l1 l2 : words_at m a (l1 ++ l2) <-> words_at m a l1 /\ words_at m (a + 4 * Z.of_nat (length l1)) l2.
Proof.
  split.
  - intros H. split; intros i w Hi.
    + apply H. by apply lookup_app_l_Some.
    + replace (a + 4 * Z.of_nat (length l1) + 4 * Z.of_nat i) with (a + 4 * Z.of_nat (length l1 + i)) by lia. apply H.
      rewrite -> lookup_app_r by lia. rewrite <- Hi. f_equal. lia.
  - intros [H1 H2] i w [Hi|[Hl Hi]]%lookup_app_Some; [by apply H1|].
    replace (a + 4 * Z.of_nat i) with (a + 4 * Z.of_nat (length l1) + 4 * Z.of_nat (i - length l1)) by lia. by apply H2.
Qed.

Lemma length_words (l : list Z) : length (concat (Fs.bytes32 <$> l)) = (4 * length l)%nat.
Proof. induction l as [|w l IH]; [done|]. cbn [fmap list_fmap concat]. rewrite -> length_app, IH. cbn. lia. Qed.

Lemma store_words a l m : words_at (store a (concat (Fs.bytes32 <$> l)) m) a l.
Proof.
  intros i w Hi. apply list_elem_of_split_length in Hi as (l1 & l2 & -> & ->). unfold load_u32.
  rewrite -> load_store_within by (rewrite -> ?length_words, ?length_app; cbn [length]; lia).
  rewrite -> fmap_app, concat_app. cbn [fmap list_fmap concat].
  replace (Z.to_nat (a + 4 * Z.of_nat (length l1) - a)) with (length (concat (Fs.bytes32 <$> l1))) by (rewrite -> length_words; lia).
  rewrite -> (slice_app_mid _ (Fs.bytes32 w)) by done. apply (Fs.little_u32_bytes _ 0); [apply Fs.bytes32_ok|done].
Qed.

(** ** The strings *)

Lemma copy_strings_spec strings : forall cursor m,
  0 <= cursor - strings_size strings -> cursor < 2 ^ 32 ->
  let '(cursor', addresses, m') := copy_strings cursor strings m in
  cursor' = cursor - strings_size strings /\ length addresses = length strings /\
  (forall i s, strings !! i = Some s -> exists a, addresses !! i = Some a /\ in_u 32 a /\
     cursor' <= a /\ a + Z.of_nat (length s) + 1 <= cursor /\ string_at m' a s) /\
  (forall b, ~ (cursor' <= b < cursor) -> m' b = m b).
Proof.
  induction strings as [|s strings IH]; intros cursor m Hc Hlt; cbn [copy_strings strings_size foldr] in *.
  { split_and!; [lia|done|done|done]. }
  fold (strings_size strings) in *. pose proof (strings_size_nonneg strings) as Hn.
  specialize (IH cursor m ltac:(lia) Hlt). destruct (copy_strings cursor strings m) as [[c1 addresses] m1].
  destruct IH as (-> & Hl & Ha & Ho). unfold copy_string_down.
  assert (u32 (cursor - strings_size strings - (Z.of_nat (length s) + 1)) = cursor - (Z.of_nat (length s) + 1 + strings_size strings)) as ->
    by (rewrite -> wrap_small by (unfold in_u; lia); lia).
  set (c2 := cursor - (Z.of_nat (length s) + 1 + strings_size strings)). split_and!; [done|cbn; lia| |].
  - intros [|i] s' Hs'; cbn [lookup list_lookup] in Hs'.
    + injection Hs' as <-. exists c2. split_and!; [done|unfold in_u, c2; lia|lia|unfold c2; lia|].
      unfold string_at. apply memory_load_store. rewrite -> length_app. cbn. lia.
    + destruct (Ha i s' Hs') as (a & H1 & H2 & H3 & H4 & H5). exists a. split_and!; [done|done|unfold c2; lia|done|].
      eapply string_at_frame; [|exact H5]. intros b Hb. unfold store. rewrite -> decide_False; [done|]. rewrite -> length_app. cbn. unfold c2. lia.
  - intros b Hb. unfold store. rewrite -> decide_False by (rewrite -> length_app; cbn; unfold c2 in *; lia). apply Ho. unfold c2 in *. lia.
Qed.

(** ** The whole stack *)

(** A string with its NUL between the stack pointer and the top of the stack. *)
Definition above (sp a : Z) (s : list Z) : Prop := sp < a /\ a + Z.of_nat (length s) + 1 <= Abi.user_stack_top.

(** What the start-up code of a program finds at its stack pointer. *)
Record initial_stack (image : Image) (arguments environment : list (list Z)) (m : Memory) (sp : Z) : Prop := {
  stack_aligned : sp mod 16 = 0;
  stack_argc : load_u32 m sp = Z.of_nat (length arguments);
  stack_argv i s : arguments !! i = Some s -> above sp (load_u32 m (sp + 4 * (1 + Z.of_nat i))) s /\
    string_at m (load_u32 m (sp + 4 * (1 + Z.of_nat i))) s;
  stack_argv_end : load_u32 m (sp + 4 * (1 + Z.of_nat (length arguments))) = 0;
  stack_envp i s : environment !! i = Some s -> above sp (load_u32 m (sp + 4 * (2 + Z.of_nat (length arguments) + Z.of_nat i))) s /\
    string_at m (load_u32 m (sp + 4 * (2 + Z.of_nat (length arguments) + Z.of_nat i))) s;
  stack_envp_end : load_u32 m (sp + 4 * (2 + Z.of_nat (length arguments) + Z.of_nat (length environment))) = 0;
  stack_auxiliary : exists random,
    load m random 16 = random_bytes /\ sp < random < Abi.user_stack_top /\
    let at_ := sp + 4 * (3 + Z.of_nat (length arguments) + Z.of_nat (length environment)) in
    forall i p, auxiliary image random (load_u32 m (sp + 4)) !! i = Some p ->
      load_u32 m (at_ + 8 * Z.of_nat i) = p.1 /\ load_u32 m (at_ + 8 * Z.of_nat i + 4) = u32 p.2;
}.

Lemma pairs_at m a (l : list (Z * Z)) : words_at m a (concat ((fun p => [p.1; p.2]) <$> l)) ->
  forall i p, l !! i = Some p -> load_u32 m (a + 8 * Z.of_nat i) = u32 p.1 /\ load_u32 m (a + 8 * Z.of_nat i + 4) = u32 p.2.
Proof.
  revert a. induction l as [|q l IH]; intros a H i p Hi; [done|]. cbn [fmap list_fmap concat] in H.
  apply (words_at_app m a [q.1; q.2]) in H as [H1 H2]. destruct i as [|i]; cbn in Hi.
  - injection Hi as <-. split.
    + rewrite <- (H1 0%nat q.1 eq_refl). f_equal.
    + rewrite <- (H1 1%nat q.2 eq_refl). f_equal. lia.
  - destruct (IH _ H2 i p Hi) as [E1 E2]. cbn [length] in *. split; [rewrite <- E1|rewrite <- E2]; f_equal; lia.
Qed.

Lemma auxiliary_keys image random a i p : auxiliary image random a !! i = Some p -> u32 p.1 = p.1.
Proof. unfold auxiliary. do 17 (destruct i as [|i]; [intros [= <-]; reflexivity|]). done. Qed.

(** The words and the strings around them are the stack. *)
Lemma stack_found image arguments environment aa ea random m sp :
  sp mod 16 = 0 -> length aa = length arguments -> length ea = length environment -> (0 < length arguments)%nat ->
  (length arguments <= 16)%nat -> words_at m sp (stack_words image random aa ea) ->
  (forall i s, arguments !! i = Some s -> exists a, aa !! i = Some a /\ in_u 32 a /\ above sp a s /\ string_at m a s) ->
  (forall i s, environment !! i = Some s -> exists a, ea !! i = Some a /\ in_u 32 a /\ above sp a s /\ string_at m a s) ->
  load m random 16 = random_bytes -> sp < random < Abi.user_stack_top ->
  initial_stack image arguments environment m sp.
Proof.
  intros Hal Hla Hle Hpos H16 Hw Ha He Hr Hsp. unfold stack_words in Hw.
  change (?x :: ?l) with ([x] ++ l) in Hw.
  apply (words_at_app m sp [Z.of_nat (length aa)]) in Hw as [H1 Hw]. apply words_at_app in Hw as [H2 Hw]. apply words_at_app in Hw as [H3 Hw].
  apply words_at_app in Hw as [H4 Hw]. apply words_at_app in Hw as [H5 H6]. cbn [length] in *. rewrite -> Hla, Hle in *.
  assert (head aa = Some (load_u32 m (sp + 4))) as Hhead.
  { destruct aa as [|a0 aa]; [cbn in Hla; lia|]. cbn. f_equal. destruct arguments as [|s0 arguments]; [cbn in Hpos; lia|].
    destruct (Ha 0%nat s0 eq_refl) as (a & [= ->] & Hin & _). rewrite <- (wrap_small 32 a Hin), <- (H2 0%nat a eq_refl). f_equal. lia. }
  constructor.
  - done.
  - replace sp with (sp + 4 * Z.of_nat 0) by lia. rewrite -> (H1 0%nat _ eq_refl). apply wrap_small. unfold in_u. lia.
  - intros i s Hi. destruct (Ha i s Hi) as (a & Hai & Hin & Hs).
    replace (sp + 4 * (1 + Z.of_nat i)) with (sp + 4 * Z.of_nat 1 + 4 * Z.of_nat i) by lia. rewrite -> (H2 i a Hai), wrap_small by done. done.
  - change 0 with (u32 0). rewrite <- (H3 0%nat 0 eq_refl). f_equal. lia.
  - intros i s Hi. destruct (He i s Hi) as (a & Hai & Hin & Hs). rewrite <- (wrap_small 32 a Hin), <- (H4 i a Hai) in Hs.
    revert Hs. match goal with |- context [above sp ?x _] =>
      replace x with (load_u32 m (sp + 4 * (2 + Z.of_nat (length arguments) + Z.of_nat i))) by (f_equal; lia) end. done.
  - change 0 with (u32 0). rewrite <- (H5 0%nat 0 eq_refl). f_equal. lia.
  - exists random. split; [done|]. split; [done|]. intros at_ i p Hp. rewrite -> Hhead in H6. cbn [default] in H6.
    destruct (pairs_at _ _ _ H6 i p Hp) as [E1 E2]. rewrite <- (auxiliary_keys _ _ _ _ _ Hp), <- E1, <- E2. unfold at_. split; f_equal; lia.
Qed.

Lemma length_stack_words image random aa ea : length (stack_words image random aa ea) = (37 + length aa + length ea)%nat.
Proof. unfold stack_words. cbn [length]. rewrite -> !length_app. cbn. lia. Qed.

Lemma initial_stack_made image arguments environment m :
  (0 < length arguments <= 16)%nat -> (length environment <= 16)%nat ->
  strings_size arguments + strings_size environment <= 2 ^ 20 ->
  exists sp m', make_initial_stack image arguments environment m = Context.Returned (sp, m') /\
    Abi.user_stack_top - 2 ^ 21 <= sp /\ initial_stack image arguments environment m' sp /\
    (forall b, ~ (sp <= b < Abi.user_stack_top) -> m' b = m b).
Proof.
  intros Ha He Hsize. pose proof (strings_size_nonneg arguments) as Hna. pose proof (strings_size_nonneg environment) as Hne.
  unfold make_initial_stack, max_arguments.
  rewrite -> (proj2 (Nat.eqb_neq _ _)), (proj2 (Nat.ltb_ge _ _)), (proj2 (Nat.ltb_ge _ _)) by lia. cbn [orb].
  unfold Abi.user_stack_top. set (top := 0x81fff000) in *.
  pose proof (copy_strings_spec environment top m ltac:(unfold top; lia) ltac:(done)) as E.
  destruct (copy_strings top environment m) as [[c1 ea] m1]. destruct E as (-> & Le & Ee & Oe).
  pose proof (copy_strings_spec arguments (top - strings_size environment) m1 ltac:(unfold top; lia) ltac:(unfold top; lia)) as A.
  destruct (copy_strings (top - strings_size environment) arguments m1) as [[c2 aa] m2]. destruct A as (-> & La & Ea & Oa).
  set (c := top - strings_size environment - strings_size arguments) in *. assert (top - 2 ^ 20 <= c <= top) as Hc by lia.
  assert (u32 (c - 16) = c - 16) as -> by (apply wrap_small; unfold in_u, top in *; lia).
  set (words := stack_words image (c - 16) aa ea).
  assert (length words = (37 + length aa + length ea)%nat) as Hwl by apply length_stack_words.
  assert (u32 (c - 16 - Z.of_nat (length words) * 4) = c - 16 - Z.of_nat (length words) * 4) as ->
    by (apply wrap_small; unfold in_u, top in *; lia).
  set (raw := c - 16 - Z.of_nat (length words) * 4). set (sp := raw - raw mod 2 ^ 4).
  assert (Base.align_down 32 raw 16 = sp) as -> by (apply (Base.align_down_spec 32 4); unfold in_u, raw, top in *; lia).
  pose proof (Z.mod_pos_bound raw (2 ^ 4) ltac:(lia)) as Hmod.
  exists sp, (store sp (concat (Fs.bytes32 <$> words)) (store (c - 16) random_bytes m2)).
  assert (length random_bytes = 16%nat) as Hrl by reflexivity.
  assert (forall b, ~ (sp <= b < c) -> store sp (concat (Fs.bytes32 <$> words)) (store (c - 16) random_bytes m2) b = m2 b) as Hout.
  { intros b Hb. unfold store. rewrite -> !decide_False; [done|rewrite -> Hrl; unfold sp, raw in *; lia|rewrite -> length_words; unfold sp, raw in *; lia]. }
  split; [done|]. split; [unfold sp, raw in *; lia|]. split.
  - apply (stack_found _ _ _ aa ea (c - 16)); [|done|done|lia|lia|apply store_words| | | |unfold sp, raw, Abi.user_stack_top in *; lia].
    + unfold sp. change (2 ^ 4) with 16. Z.to_euclidean_division_equations. lia.
    + intros i s Hi. destruct (Ea i s Hi) as (a & H1 & H2 & H3 & H4 & H5). exists a. split_and!; [done|done|split; unfold sp, raw, Abi.user_stack_top, top in *; lia|].
      eapply string_at_frame; [|exact H5]. intros b Hb. apply Hout. lia.
    + intros i s Hi. destruct (Ee i s Hi) as (a & H1 & H2 & H3 & H4 & H5). exists a. split_and!; [done|done|split; unfold sp, raw, Abi.user_stack_top, top in *; lia|].
      eapply string_at_frame; [|exact H5]. intros b Hb. rewrite -> Hout by lia. apply Oa. lia.
    + rewrite -> load_store_apart by (rewrite -> length_words; unfold sp, raw in *; lia). by apply memory_load_store.
  - intros b Hb. rewrite -> Hout by lia. rewrite -> Oa by lia. apply Oe. lia.
Qed.

(** C37: the stack of a new program.  For at most sixteen arguments and sixteen
    strings of environment, whose characters and NULs fit the room above
    user memory's beginning, the start-up code of the program finds at a stack
    pointer on a 16-byte boundary the number of arguments, then pointers to
    exactly these strings, a null pointer, pointers to the environment, a null
    pointer and the auxiliary vector with the entry and the program headers of
    the image; nothing is written below the stack pointer or above the top of
    the stack. *)
Theorem initial_stack_spec image arguments environment m :
  (0 < length arguments <= 16)%nat -> (length environment <= 16)%nat ->
  strings_size arguments + strings_size environment <= 2 ^ 20 ->
  exists sp m', make_initial_stack image arguments environment m = Context.Returned (sp, m') /\
    Abi.user_stack_top - 2 ^ 21 <= sp /\ initial_stack image arguments environment m' sp /\
    (forall b, ~ (sp <= b < Abi.user_stack_top) -> m' b = m b).
Proof. apply initial_stack_made. Qed.

Lemma initial_stack_spec_witness :
  exists sp m', make_initial_stack (mkImage 0x81001054 0x81001034 1 0x81002000 0x81001000) [[115; 104]; [45; 99]] [[80; 61; 49]] (fun _ => 0)
      = Context.Returned (sp, m') /\
    string_at m' (load_u32 m' (sp + 8)) [45; 99].
Proof.
  destruct (initial_stack_spec (mkImage 0x81001054 0x81001034 1 0x81002000 0x81001000) [[115; 104]; [45; 99]] [[80; 61; 49]] (fun _ => 0)
    ltac:(cbn; lia) ltac:(cbn; lia) ltac:(cbn; lia)) as (sp & m' & H1 & _ & H2 & _).
  exists sp, m'. split; [exact H1|]. exact (proj2 (stack_argv _ _ _ _ _ H2 1%nat [45; 99] eq_refl)).
Defined.
End LoaderStack.
