(* ===== verification/PathCalls.v ===== *)
(** * [kernel/syscall.cpp]: the system calls on paths and directories

    A path is copied from the program, made absolute, and looked up among the
    pseudo-terminals, in the pseudo file system and in the root file system, in
    this order.  The state behind the executables of [Context] is the root file
    system. *)

From stdpp Require Import strings.
From S2P Require Import Prelude ByteQueue Base Filesystem Ext4 Root Pipe Pty Ethernet Timing Interface Socket Tcp Stack TcpTable.
From S2P Require Import Abi Memory Path PseudoFs Descriptor FileCalls Context Loader.
Local Open Scope Z_scope.

(** The build option of the four-core target. *)
Class Multicore := multicore : bool.

Module PathCalls.
Import Memory Abi.Errno Descriptor FileCalls Context.

(** The characters of a buffer up to its NUL. *)
Fixpoint c_text (buffer : list Z) : list Z :=
  match buffer with [] => [] | c :: buffer => if c =? 0 then [] else c :: c_text buffer end.

Definition at_current_working_directory := 2 ^ 32 - 100.
Definition slash := 47.

(** Bits of [openat]. *)
Definition create_flag := 0x40.
Definition exclusive := 0x80.
Definition truncate_flag := 0x200.
Definition require_directory := 0x10000.
Definition has (flags bit : Z) : bool := negb (Z.land flags bit =? 0).

Definition filesystem_error (e : Fs.Error) : Z :=
  match e with
  | Fs.Error.none => 0
  | Fs.Error.not_found => Abi.error no_entry
  | Fs.Error.not_directory => Abi.error not_directory
  | Fs.Error.already_exists => Abi.error file_exists
  | Fs.Error.no_space => Abi.error no_space
  | Fs.Error.invalid_argument => Abi.error invalid_argument
  | Fs.Error.unsupported => Abi.error read_only_filesystem
  | _ => Abi.error io
  end.

Definition result_error {A} (r : Fs.Result A) : Fs.Error :=
  match r with Fs.expected _ => Fs.Error.none | Fs.unexpected e => e end.
(** [result == Error::none ? 0 : error(Errno::io)]. *)
Definition io_error (e : Fs.Error) : Z := if bool_decide (e = Fs.Error.none) then 0 else Abi.error io.

(** [static_cast<u32>(node.kind)]. *)
Definition kind_number (k : Kind.t) : Z :=
  match k with
  | Kind.none => 0 | Kind.standard_input => 1 | Kind.standard_output => 2 | Kind.filesystem => 3
  | Kind.pseudo => 4 | Kind.network_socket => 5 | Kind.pipe => 6 | Kind.pty => 7
  end.

(** ** Directory entries *)

(** The record of an entry, its name with the NUL rounded up to eight bytes. *)
Definition dirent (inode offset type : Z) (name : list Z) : list Z :=
  let name_size := Z.of_nat (length name) + 1 in
  let record_size := Base.align_up 32 (19 + name_size) 8 in
  bytes64 inode ++ bytes64 offset ++ Fs.bytes16 record_size ++ [u8 type] ++ name ++
  replicate (Z.to_nat (record_size - 19 - Z.of_nat (length name))) 0.

Definition emit_dirent (m : Memory) (address capacity inode offset type : Z) (name : list Z) : Memory * Z :=
  let record := dirent inode offset type name in
  if capacity <? Z.of_nat (length record) then (m, 0)
  else (store address record m, Z.of_nat (length record)).

Record DirectoryState := mkDirectory {
  dir_address : Z; dir_capacity : Z; dir_start : Z; dir_cursor : Z; dir_next : Z; dir_total : Z; dir_root : bool; dir_full : bool;
}.
#[global] Instance directory_state_eta : Eta DirectoryState := fun s =>
  mkDirectory (dir_address s) (dir_capacity s) (dir_start s) (dir_cursor s) (dir_next s) (dir_total s) (dir_root s) (dir_full s).

(** [DT_DIR], [DT_REG] and the like. *)
Definition entry_type (t : Ext4.Type_.t) : Z :=
  match t with
  | Ext4.Type_.directory => 4 | Ext4.Type_.regular => 8 | Ext4.Type_.symbolic_link => 10 | Ext4.Type_.other => 0
  end.

Definition proc_name : list Z := PseudoFs.text "proc".
Definition sys_name : list Z := PseudoFs.text "sys".

(** The visitor of an ext4 directory; the memory it writes is part of its state. *)
Definition emit_ext4_directory_entry (context : DirectoryState * Memory) (entry : Ext4.Entry) : (DirectoryState * Memory) * bool :=
  let '(state, m) := context in
  let index := dir_cursor state in
  let state := state <| dir_cursor := u32 (index + 1) |> in
  if index <? dir_start state then (state, m, true) else
  if dir_root state && (Fs.equals (Ext4.entry_name entry) (Some proc_name) false || Fs.equals (Ext4.entry_name entry) (Some sys_name) false)
  then (state <| dir_next := u32 (index + 1) |>, m, true) else
  let '(m, result) := emit_dirent m (dir_address state + dir_total state) (dir_capacity state - dir_total state)
    (Ext4.inode (Ext4.entry_node entry)) (u32 (index + 1)) (entry_type (Ext4.type (Ext4.entry_node entry))) (c_text (Ext4.entry_name entry)) in
  if result =? 0 then (state <| dir_full := true |>, m, false)
  else (state <| dir_total ::= fun t => u32 (t + result) |> <| dir_next := u32 (index + 1) |>, m, true).

Definition overlay_start := 0xfffffff0.
Definition end_of_directory := 0xffffffff.
Definition overlays : list (list Z * PseudoFs.Node.node) := [(proc_name, PseudoFs.Node.proc); (sys_name, PseudoFs.Node.sys)].

(** [while (offset - overlay_start < 2)]: offset, memory and total; two rounds at most. *)
Fixpoint overlay_loop (n : nat) (m : Memory) (address size offset total : Z) : Memory * Z * Z :=
  match n with
  | O => (m, offset, total)
  | S n =>
      match overlays !! Z.to_nat (offset - overlay_start) with
      | Some (name, node) =>
          let '(m, emitted) := emit_dirent m (address + total) (size - total) (PseudoFs.inode node) (u32 (offset + 1)) 4 name in
          if emitted =? 0 then (m, offset, total) else overlay_loop n m address size (u32 (offset + 1)) (u32 (total + emitted))
      | None => (m, offset, total)
      end
  end.

(** The loop over a pseudo directory. *)
Fixpoint pseudo_loop (n : nat) (node : PseudoFs.Node.node) (m : Memory) (address size offset total : Z) : Memory * Z * Z :=
  match n with
  | O => (m, offset, total)
  | S n =>
      if PseudoFs.entry_count node <=? offset then (m, offset, total) else
      let entry := PseudoFs.entry node offset in
      let type := if bool_decide (PseudoFs.entry_type entry = PseudoFs.Type_.directory) then 4 else 8 in
      let '(m, result) := emit_dirent m (address + total) (size - total) (PseudoFs.inode (PseudoFs.entry_node entry)) (u32 (offset + 1))
        type (default [] (PseudoFs.entry_name entry)) in
      if result =? 0 then (m, offset, total) else pseudo_loop n node m address size (u32 (offset + 1)) (u32 (total + result))
  end.

(** ** What [fstat64] and [statx] write *)

Definition directory_mode := 0x41ed.
Definition regular_mode := 0x8124.
Definition character_kind := 0x2000.
Definition fifo_mode := 0x11b6.

Definition stat64 (inode mode links size : Z) : list Z :=
  bytes64 0 ++ bytes64 inode ++ Fs.bytes32 mode ++ Fs.bytes32 links ++ Fs.bytes32 0 ++ Fs.bytes32 0 ++ bytes64 0 ++ bytes64 0 ++
  bytes64 size ++ Fs.bytes32 4096 ++ Fs.bytes32 0 ++ bytes64 ((size + 511) / 512) ++ replicate 56 0.
Definition statx_bytes (inode mode links size : Z) : list Z :=
  Fs.bytes32 0x7ff ++ Fs.bytes32 4096 ++ bytes64 0 ++ Fs.bytes32 links ++ Fs.bytes32 0 ++ Fs.bytes32 0 ++ Fs.bytes16 mode ++ Fs.bytes16 0 ++
  bytes64 inode ++ bytes64 size ++ bytes64 ((size + 511) / 512) ++ bytes64 0 ++ replicate 192 0.

Section kernel.
Context {Q : Type} `{!ByteQueue Q}.
Context {W : Type} {stack_machine : Machine W}.
Context {D : Type} {device : Fs.Device D} {build : Build} {cores : Multicore}.
Abbreviation Kernel := (Kernel Q W (Root.RootFilesystem D)).

(** A call of the root file system. *)
Definition on_root {A} (k : Kernel) (call : Root.RootFilesystem D -> Root.RootFilesystem D * A) : Kernel * A :=
  let '(e, r) := call (executables k) in (k <| executables := e |>, r).
Definition with_files (k : Kernel) (f : Files Q W) : Kernel := k <| files := f |>.

(** ** From a path to a node *)

(** What is left in the output buffer, and whether it is the path. *)
Definition canonicalize (base user_path : list Z) : list Z * bool :=
  match Path.canonicalize (Some base) (Some user_path) (Some (replicate 256 0)) 256 with
  | Some (ok, Some out) => (c_text out, ok)
  | _ => ([], false)
  end.
Definition canonicalize_path (k : Kernel) (address : Z) (base : list Z) : list Z * bool :=
  match copy_user_string (memory k) address 256 with
  | None => ([], false)
  | Some user_path => canonicalize base user_path
  end.

Definition lookup_path (k : Kernel) (path : list Z) : Kernel * Node :=
  let number := Path.numbered_suffix (Some path) (Some dev_pts) 4 in
  if negb (number =? Path.invalid_number) && PtyTable.active pty_capacity (ptys (tables (files k))) (u8 number)
  then (k, node_pty (u8 number)) else
  let pseudo := PseudoFs.lookup (Some path) in
  if negb (bool_decide (pseudo = PseudoFs.Node.none)) then (k, node_pseudo pseudo) else
  let '(k, result) := on_root k (Root.lookup path) in
  (k, match result with Fs.expected node => node_file node | Fs.unexpected _ => node_none end).

(** The node and the canonical path. *)
Definition path_node_from (k : Kernel) (address : Z) (base : list Z) : Kernel * Node * list Z :=
  match canonicalize_path k address base with
  | (canonical, true) => let '(k, n) := lookup_path k canonical in (k, n, canonical)
  | (canonical, false) => (k, node_none, canonical)
  end.

Definition path_node (k : Kernel) (address : Z) : Kernel * Node * list Z :=
  path_node_from k address (Abi.current_directory (process k)).

Definition path_node_at (k : Kernel) (descriptor address : Z) : Kernel * Node * list Z :=
  match copy_user_string (memory k) address 256 with
  | None => (k, node_none, [])
  | Some raw =>
      if bool_decide (head raw = Some slash) || (descriptor =? at_current_working_directory) then path_node k address else
      if (descriptor <? 3) || (16 <=? descriptor) then (k, node_none, []) else
      let slot := at_slot (files k) descriptor in
      if negb (directory (node slot)) then (k, node_none, []) else path_node_from k address (Descriptor.path slot)
  end.

(** ** Contents and sizes *)

Definition proc_pid2_dropbear (k : Kernel) : bool :=
  interactive && background_used (Context.background k) && (pid (background_context (Context.background k)) =? 2) &&
  bool_decide (executable_path (background_context (Context.background k)) = Loader.usr_sbin_dropbear).
Definition dropbear_stat : list Z := PseudoFs.text
  "2 (dropbear) S 1 1 1 0 0 0 0 0 0 0 2 1 0 0 20 0 1 0 1 2600000 144 0 0 0 0 0 0 0 0 0 0 0 0 0 0 0 0 0 0" ++ [10].
(** The array with its explicit and its implicit NUL. *)
Definition dropbear_command : list Z := Loader.usr_sbin_dropbear ++ [0; 0].

Definition node_contents (k : Kernel) (n : Node) : option (list Z) :=
  if negb (is_kind n Kind.pseudo) then None else
  if bool_decide (pseudo_node n = PseudoFs.Node.proc_net_tcp) then Some (TcpTable.tcp_table (network (tables (files k)))) else
  if proc_pid2_dropbear k && bool_decide (pseudo_node n = PseudoFs.Node.proc_pid2_stat) then Some dropbear_stat else
  if proc_pid2_dropbear k && bool_decide (pseudo_node n = PseudoFs.Node.proc_pid2_cmdline) then Some dropbear_command else
  PseudoFs.contents multicore (pseudo_node n).

Definition node_size (k : Kernel) (n : Node) : Z :=
  match kind n with
  | Kind.filesystem => if 2 ^ 32 - 1 <? Ext4.size (file n) then 2 ^ 32 - 1 else Ext4.size (file n)
  | Kind.pseudo =>
      if bool_decide (pseudo_node n = PseudoFs.Node.proc_net_tcp)
      then PseudoFs.text_size (Some (TcpTable.tcp_table (network (tables (files k))))) else
      if bool_decide (pseudo_node n = PseudoFs.Node.proc_pid2_cmdline) && proc_pid2_dropbear k
      then Z.of_nat (length Loader.usr_sbin_dropbear) + 1 else
      if bool_decide (pseudo_node n = PseudoFs.Node.proc_pid2_stat) then PseudoFs.text_size (node_contents k n)
      else PseudoFs.size multicore (pseudo_node n)
  | _ => 0
  end.

(** ** The calls *)

(** The directory a relative path starts from, in [mkdirat]. *)
Definition mkdir_base (k : Kernel) (directory_descriptor : Z) (raw : list Z) : list Z + Z :=
  if bool_decide (head raw = Some slash) || (directory_descriptor =? at_current_working_directory)
  then inl (Abi.current_directory (process k)) else
  if (directory_descriptor <? 3) || (16 <=? directory_descriptor) || is_none (at_slot (files k) directory_descriptor)
  then inr (Abi.error bad_file_descriptor) else
  let slot := at_slot (files k) directory_descriptor in
  if negb (directory (node slot)) then inr (Abi.error not_directory) else inl (Descriptor.path slot).

Definition mkdirat (k : Kernel) (directory_descriptor address mode : Z) : Kernel * Z :=
  match copy_user_string (memory k) address 256 with
  | None => (k, Abi.error bad_address)
  | Some raw =>
      match mkdir_base k directory_descriptor raw with
      | inr e => (k, e)
      | inl base =>
          match canonicalize base raw with
          | (_, false) => (k, Abi.error invalid_argument)
          | (canonical, true) =>
              if PseudoFs.mounted (Some canonical) then (k, Abi.error read_only_filesystem) else
              let '(k, r) := on_root k (Root.mkdir canonical (u16 (Z.land (Z.land mode 0xfff) (u32 (Z.lnot (creation_mask k)))))) in
              (k, filesystem_error (result_error r))
          end
      end
  end.

Definition umask (k : Kernel) (mask : Z) : Kernel * Z :=
  (k <| creation_mask := Z.land mask 0x1ff |>, i32 (creation_mask k)).

Definition with_ptys (k : Kernel) (p : list (PtyTable.Pty (Q := Q))) : Kernel :=
  with_files k (files k <| tables ::= fun t => t <| ptys := p |> |>).

Definition fchmodat (k : Kernel) (directory_descriptor address mode : Z) : Kernel * Z :=
  let '(k, n, _) := path_node_at k directory_descriptor address in
  if is_kind n Kind.none then (k, Abi.error no_entry) else
  if negb (is_kind n Kind.pty) || (pty_number n =? 0xff) then (k, Abi.error read_only_filesystem) else
  let '(p, st) := PtyTable.set_mode pty_capacity (ptys (tables (files k))) (pty_number n) (u16 mode) in
  (with_ptys k p, if bool_decide (st = PtyTable.success) then 0 else Abi.error no_entry).

(** The part of [openat] that creates a missing file. *)
Definition open_create (k : Kernel) (n : Node) (canonical : list Z) (flags_ : Z) : Kernel * (Node + Z) :=
  if is_kind n Kind.none && has flags_ create_flag then
    if PseudoFs.mounted (Some canonical) then (k, inr (Abi.error read_only_filesystem)) else
    let '(k, r) := on_root k (Root.create canonical None 0) in
    if negb (bool_decide (result_error r = Fs.Error.none)) then (k, inr (Abi.error io)) else
    let '(k, created) := on_root k (Root.lookup canonical) in
    (k, inl (match created with Fs.expected node => node_file node | Fs.unexpected _ => n end))
  else if negb (is_kind n Kind.none) && has flags_ create_flag && has flags_ exclusive then (k, inr (Abi.error access_denied))
  else (k, inl n).

(** Its truncation. *)
Definition open_truncate (k : Kernel) (n : Node) : Kernel * (Node + Z) :=
  if is_kind n Kind.pseudo then (k, inr (Abi.error read_only_filesystem)) else
  if negb (is_kind n Kind.filesystem) || directory n then (k, inr (Abi.error is_directory)) else
  let '(e, f, r) := Root.truncate (file n) 0 (executables k) in
  let k := k <| executables := e |> in
  if negb (bool_decide (r = Fs.Error.none)) then (k, inr (Abi.error io)) else (k, inl (n <| file := f |>)).

Definition open_file (k : Kernel) (n : Node) (canonical : list Z) (flags_ : Z) : Kernel * Z :=
  match open_create k n canonical flags_ with
  | (k, inr e) => (k, e)
  | (k, inl n) =>
      if is_kind n Kind.none then (k, Abi.error no_entry) else
      if has flags_ require_directory && negb (directory n) then (k, Abi.error not_directory) else
      match (if has flags_ truncate_flag then open_truncate k n else (k, inl n)) with
      | (k, inr e) => (k, e)
      | (k, inl n) => let '(f, r) := open_node (files k) n canonical flags_ (node_size k n) in (with_files k f, r)
      end
  end.

Definition openat (k : Kernel) (directory_descriptor path_ flags_ : Z) : Kernel * Z :=
  let '(k, n, canonical) := path_node_at k directory_descriptor path_ in
  match pty_target canonical (Abi.session (process k)) with
  | Some (open, e) => let '(f, r) := open_pty (files k) canonical flags_ open e in (with_files k f, r)
  | None => open_file k n canonical flags_
  end.

Definition faccessat (k : Kernel) (directory_descriptor address : Z) : Kernel * Z :=
  let '(k, n, _) := path_node_at k directory_descriptor address in
  (k, if is_kind n Kind.none then Abi.error no_entry else 0).

Definition unlinkat (k : Kernel) (directory_descriptor path_address flags_ : Z) : Kernel * Z :=
  if negb (flags_ =? 0) then (k, Abi.error invalid_argument) else
  let '(k, n, canonical) := path_node_at k directory_descriptor path_address in
  if is_kind n Kind.none then (k, Abi.error no_entry) else
  if is_kind n Kind.pseudo then (k, Abi.error read_only_filesystem) else
  let '(k, r) := on_root k (Root.remove canonical) in (k, io_error (result_error r)).

(** The directory a relative destination of [renameat] starts from. *)
Definition rename_base (k : Kernel) (new_directory : Z) (raw : list Z) : list Z + Z :=
  if bool_decide (head raw = Some slash) || (new_directory =? at_current_working_directory)
  then inl (Abi.current_directory (process k)) else
  if (new_directory <? 3) || (16 <=? new_directory) || negb (directory (node (at_slot (files k) new_directory)))
  then inr (Abi.error bad_file_descriptor) else inl (Descriptor.path (at_slot (files k) new_directory)).

Definition renameat (k : Kernel) (old_directory old_path new_directory new_path : Z) : Kernel * Z :=
  let '(k, source_node, source) := path_node_at k old_directory old_path in
  if is_kind source_node Kind.none then (k, Abi.error no_entry) else
  if is_kind source_node Kind.pseudo then (k, Abi.error read_only_filesystem) else
  match copy_user_string (memory k) new_path 256 with
  | None => (k, Abi.error bad_address)
  | Some raw =>
      match rename_base k new_directory raw with
      | inr e => (k, e)
      | inl base =>
          match canonicalize base raw with
          | (_, false) => (k, Abi.error invalid_argument)
          | (destination, true) =>
              if PseudoFs.mounted (Some destination) then (k, Abi.error read_only_filesystem) else
              let '(k, r) := on_root k (Root.move source destination) in (k, io_error (result_error r))
          end
      end
  end.

Definition ftruncate (k : Kernel) (descriptor size : Z) : Kernel * Z :=
  if (descriptor <? 3) || (16 <=? descriptor) then (k, Abi.error bad_file_descriptor) else
  let slot := at_slot (files k) descriptor in
  if negb (is_kind (node slot) Kind.filesystem) || (Z.land (flags slot) 3 =? 0) then (k, Abi.error bad_file_descriptor) else
  let '(e, f, r) := Root.truncate (file (node slot)) size (executables k) in
  (with_files (k <| executables := e |>) (set_slot descriptor (slot <| node ::= fun n => n <| file := f |> |>) (files k)), io_error r).

Definition truncate_path (k : Kernel) (path_address size : Z) : Kernel * Z :=
  let '(k, n, _) := path_node k path_address in
  if is_kind n Kind.none then (k, Abi.error no_entry) else
  if is_kind n Kind.pseudo then (k, Abi.error read_only_filesystem) else
  if negb (is_kind n Kind.filesystem) || directory n then (k, Abi.error is_directory) else
  let '(e, _, r) := Root.truncate (file n) size (executables k) in (k <| executables := e |>, io_error r).

Definition chdir (k : Kernel) (path_ : Z) : Kernel * Z :=
  let '(k, n, canonical) := path_node k path_ in
  if is_kind n Kind.none then (k, Abi.error no_entry) else
  if negb (directory n) then (k, Abi.error not_directory) else
  (k <| process ::= fun p => p <| Abi.current_directory := canonical |> |>, 0).

Definition sync (k : Kernel) : Kernel * Z := let '(k, r) := on_root k Root.sync in (k, io_error (result_error r)).
Definition fsync (k : Kernel) (descriptor : Z) : Kernel * Z :=
  if (descriptor <? 3) || (16 <=? descriptor) || is_none (at_slot (files k) descriptor)
  then (k, Abi.error bad_file_descriptor) else sync k.

(** ** Names behind [/proc/self] *)

Definition proc_self_exe : list Z := PseudoFs.text "/proc/self/exe".
Definition proc_self_fd : list Z := PseudoFs.text "/proc/self/fd/".

Definition link_target (k : Kernel) (canonical : list Z) : option (list Z) :=
  if bool_decide (canonical = proc_self_exe) then Some (Abi.executable_path (process k)) else
  let descriptor := Path.numbered_suffix (Some canonical) (Some proc_self_fd) 16 in
  if descriptor =? Path.invalid_number then None else
  match descriptor_slot (files k) descriptor with
  | None => None
  | Some slot => if is_none slot || bool_decide (Descriptor.path slot = []) then None else Some (Descriptor.path slot)
  end.

Definition readlinkat (k : Kernel) (directory_descriptor path_ address size : Z) : Kernel * Z :=
  let '(k, _, canonical) := path_node_at k directory_descriptor path_ in
  match link_target k canonical with
  | None => (k, Abi.error no_entry)
  | Some target =>
      let count := Z.min size (Z.of_nat (length target)) in
      if negb (contains address count) then (k, Abi.error bad_address)
      else (k <| memory ::= store address (take (Z.to_nat count) target) |>, count)
  end.

(** ** Status of a file *)

Definition character_mode (k : Kernel) (n : Node) : Z :=
  Z.lor character_kind (if pty_number n =? 0xff then 0x1b6 else PtyTable.mode pty_capacity (ptys (tables (files k))) (pty_number n)).
Definition stat_inode (n : Node) : Z :=
  match kind n with
  | Kind.filesystem => Ext4.inode (file n)
  | Kind.pseudo => PseudoFs.inode (pseudo_node n)
  | k => kind_number k
  end.
Definition stat_links (n : Node) : Z := if directory n then 2 else 1.
Definition stat_mode (k : Kernel) (n : Node) : Z :=
  match kind n with
  | Kind.none | Kind.pty => character_mode k n
  | Kind.pipe => fifo_mode
  | Kind.filesystem => Ext4.mode (file n)
  | _ => if directory n then directory_mode else regular_mode
  end.
Definition statx_mode (k : Kernel) (n : Node) : Z :=
  match kind n with
  | Kind.pty => u16 (character_mode k n)
  | Kind.filesystem => Ext4.mode (file n)
  | _ => if directory n then directory_mode else regular_mode
  end.

Definition write_stat (k : Kernel) (n : Node) (address : Z) : Kernel * Z :=
  if negb (contains address 128) then (k, Abi.error bad_address)
  else (k <| memory ::= store address (stat64 (stat_inode n) (stat_mode k n) (stat_links n) (node_size k n)) |>, 0).

Definition fstat64 (k : Kernel) (descriptor address : Z) : Kernel * Z :=
  if descriptor <? 3 then write_stat k node_none address else
  if (16 <=? descriptor) || is_none (at_slot (files k) descriptor) then (k, Abi.error bad_file_descriptor) else
  let slot := at_slot (files k) descriptor in
  let n := if is_kind (node slot) Kind.pty then node slot <| pty_number := PtyTable.slot (pty slot) |> else node slot in
  write_stat k n address.

Definition write_statx (k : Kernel) (n : Node) (address : Z) : Kernel * Z :=
  if is_kind n Kind.none then (k, Abi.error no_entry) else
  if negb (contains address 256) then (k, Abi.error bad_address)
  else (k <| memory ::= store address (statx_bytes (stat_inode n) (statx_mode k n) (stat_links n) (node_size k n)) |>, 0).

(** ** Listing a directory *)

(** [root::for_each] with the visitor's state kept when a transfer fails. *)
Definition for_each_entry (k : Kernel) (n : Ext4.Node) (state : DirectoryState) : Kernel * DirectoryState * Fs.Error :=
  if negb (Root.ready (executables k)) then (k, state, Fs.Error.invalid_argument) else
  let '(v, (state, m), r) := Ext4.for_each n emit_ext4_directory_entry (Root.volume (executables k), (state, memory k)) in
  (k <| executables ::= fun e => e <| Root.volume := v |> |> <| memory := m |>, state, result_error r).

Definition set_offset (k : Kernel) (descriptor offset_ : Z) : Kernel :=
  with_files k (set_slot descriptor (at_slot (files k) descriptor <| offset := offset_ |>) (files k)).

(** The entries of the pseudo file systems at the end of the root directory. *)
Definition getdents_overlay (k : Kernel) (descriptor address size offset_ total : Z) : Kernel * Z :=
  let '(m, o, total) := overlay_loop 2 (memory k) address size offset_ total in
  let k := k <| memory := m |> in
  (set_offset k descriptor (if o - overlay_start =? 2 then end_of_directory else o), i32 total).

Definition getdents_file (k : Kernel) (descriptor address size : Z) : Kernel * Z :=
  let slot := at_slot (files k) descriptor in
  if offset slot =? end_of_directory then (k, 0) else
  let root := bool_decide (Descriptor.path slot = [slash]) in
  if offset slot <? overlay_start then
    match for_each_entry k (file (node slot)) (mkDirectory address size (offset slot) 0 (offset slot) 0 root false) with
    | (k, state, Fs.Error.none) =>
        if dir_full state then (set_offset k descriptor (dir_next state), i32 (dir_total state)) else
        if root then getdents_overlay k descriptor address size overlay_start (dir_total state)
        else (set_offset k descriptor end_of_directory, i32 (dir_total state))
    | (k, _, _) => (k, Abi.error io)
    end
  else if root then getdents_overlay k descriptor address size (offset slot) 0
  else (k, 0).

Definition getdents64 (k : Kernel) (descriptor address size : Z) : Kernel * Z :=
  if (descriptor <? 3) || (16 <=? descriptor) || negb (contains address size) then (k, Abi.error bad_file_descriptor) else
  let slot := at_slot (files k) descriptor in
  if negb (directory (node slot)) then (k, Abi.error bad_file_descriptor) else
  if is_kind (node slot) Kind.filesystem then getdents_file k descriptor address size else
  let n := pseudo_node (node slot) in
  let '(m, o, total) := pseudo_loop (Z.to_nat (PseudoFs.entry_count n)) n (memory k) address size (offset slot) 0 in
  (set_offset (k <| memory := m |>) descriptor o, i32 total).
End kernel.
End PathCalls.
