(* ===== verification/DataCalls.v ===== *)
(** * [kernel/syscall.cpp]: the system calls that move data

    [read], [write] and [writev] on the terminal, sockets, pipes,
    pseudo-terminals and files, and [ioctl].  A call that waits for the world
    goes round its loop at most [spins] times; [None] is a call that still
    waits. *)

From stdpp Require Import strings.
From S2P Require Import Prelude ByteQueue Base Filesystem Ext4 Root Signal Pipe Pty Process Ethernet Timing Interface Socket Tcp Stack TcpTable.
From S2P Require Import Abi Memory Path PseudoFs Descriptor FileCalls Context SignalCalls Loader PathCalls.
Local Open Scope Z_scope.

(** [drivers::uart]. *)
Class Uart (W : Type) := {
  uart_ready : W -> bool;
  uart_receive : W -> W * option Z;
  put : W -> Z -> W;
}.

Module DataCalls.
Import Memory Abi.Errno Descriptor FileCalls Context PathCalls.

#[local] Instance stack_eta {W} : Eta (Stack.BootstrapStack (W := W)) := fun s =>
  Stack.mkStack (Stack.world s) (Stack.state_ s) (Stack.sockets s) (Stack.transmissions s) (Stack.next_sequence s)
    (Stack.next_identification s) (Stack.now s) (Stack.challenge_epoch s) (Stack.challenges s) (Stack.retry_cursor s)
    (Stack.initialized s) (Stack.arp_replied s) (Stack.echo_replied s).

(** ** [scatter_write] *)

Record Iovec32 := mkIovec { iov_base : Z; iov_size : Z }.

(** The sum of the sizes, when it fits 31 bits. *)
Fixpoint requested_size (vectors : list Iovec32) (requested : Z) : option Z :=
  match vectors with
  | [] => Some requested
  | v :: vectors => if 0x7fffffff - requested <? iov_size v then None else requested_size vectors (requested + iov_size v)
  end.

Section scatter.
Context {S : Type} (write : S -> Z -> Z -> S * Z) (invalid_argument_ : Z).

Fixpoint scatter_loop (vectors : list Iovec32) (total : Z) (s : S) : S * Z :=
  match vectors with
  | [] => (s, i32 total)
  | v :: vectors =>
      if iov_size v =? 0 then scatter_loop vectors total s else
      let '(s, result) := write s (iov_base v) (iov_size v) in
      if result <? 0 then (s, if total =? 0 then result else i32 total) else
      if iov_size v <? result then (s, invalid_argument_) else
      if result <? iov_size v then (s, i32 (u32 (total + result))) else scatter_loop vectors (u32 (total + result)) s
  end.

Definition scatter_write (vectors : list Iovec32) (s : S) : S * Z :=
  match requested_size vectors 0 with
  | None => (s, invalid_argument_)
  | Some _ => scatter_loop vectors 0 s
  end.
End scatter.

Definition read_iovec (m : Memory) (address : Z) (i : Z) : Iovec32 :=
  mkIovec (load_u32 m (address + 8 * i)) (load_u32 m (address + 8 * i + 4)).

(** ** Terminal settings *)

Definition tcgets := 0x5401.
Definition tcsets := 0x5402.
Definition tcsetsw := 0x5403.
Definition tcsetsf := 0x5404.
Definition tcgets2 := 0x802c542a.
Definition tcsets2 := 0x402c542b.
Definition tcsetsw2 := 0x402c542c.
Definition tcsetsf2 := 0x402c542d.
Definition tiocsctty := 0x540e.
Definition tiocgpgrp := 0x540f.
Definition tiocspgrp := 0x5410.
Definition tiocgwinsz := 0x5413.
Definition tiocswinsz := 0x5414.
Definition tiocnotty := 0x5422.
Definition tiocgptn := 0x80045430.
Definition tiocsptlck := 0x40045431.

(** [Termios32] is 36 bytes, [Termios2] eight more, [Winsize] eight. *)
Definition encode_termios (t : PtyTable.TermiosState) : list Z :=
  Fs.bytes32 (PtyTable.input_flags t) ++ Fs.bytes32 (PtyTable.output_flags t) ++ Fs.bytes32 (PtyTable.control_flags t) ++
  Fs.bytes32 (PtyTable.local_flags t) ++ [u8 (PtyTable.line t)] ++ PtyTable.control t.
Definition decode_termios (l : list Z) : PtyTable.TermiosState :=
  PtyTable.mkTermios (Fs.little_u32 l 0) (Fs.little_u32 l 4) (Fs.little_u32 l 8) (Fs.little_u32 l 12) (Fs.byte l 16) (slice l 17 19).
Definition speeds : list Z := Fs.bytes32 38400 ++ Fs.bytes32 38400.
Definition encode_window (w : PtyTable.WindowSize) : list Z :=
  Fs.bytes16 (PtyTable.rows w) ++ Fs.bytes16 (PtyTable.columns w) ++ Fs.bytes16 (PtyTable.horizontal_pixels w) ++
  Fs.bytes16 (PtyTable.vertical_pixels w).
Definition decode_window (l : list Z) : PtyTable.WindowSize :=
  PtyTable.mkWindow (Fs.little_u16 l 0) (Fs.little_u16 l 2) (Fs.little_u16 l 4) (Fs.little_u16 l 6).

Section kernel.
Context {Q : Type} `{!ByteQueue Q}.
Context {W : Type} {stack_machine : Machine W} {uart : Uart W}.
Context {D : Type} {device : Fs.Device D} {start : RootDevice D} {torn : TornRead D} {build : Build} {linker : LinkerScript} {cores : Multicore}.
Abbreviation Kernel := (Kernel Q W (Root.RootFilesystem D)).

(** ** The terminal and the network *)

Definition world (k : Kernel) : W := Stack.world (network (tables (files k))).
Definition set_world (w : W) (k : Kernel) : Kernel :=
  k <| files ::= fun f => f <| tables ::= fun t => t <| network ::= fun n => n <| Stack.world := w |> |> |> |>.

(** A new line starts with a carriage return on the interactive terminal. *)
Definition uart_put (w : W) (value : Z) : W := put (if interactive && (value =? 10) then put w 13 else w) value.
Definition uart_write (data : list Z) (k : Kernel) : Kernel := set_world (foldl uart_put (world k) data) k.

Definition network_poll (k : Kernel) : Kernel := with_files k (with_network (files k) (Stack.poll (network (tables (files k))))).

(** The hold of a connected socket in the interactive build: poll until it is
    readable or, with no suspended ancestors, a key is pressed.  [Some true]:
    readable. *)
Fixpoint hold_connection (spins : nat) (k : Kernel) (socket_ : Socket.SocketHandle) : Kernel * option bool :=
  let readable := Stack.socket_readable (network (tables (files k))) socket_ in
  if readable || (Process.connection_wait_can_yield_to_uart (nested_ancestor_depth k) && uart_ready (world k))
  then (k, Some readable) else
  match spins with O => (k, None) | S spins => hold_connection spins (network_poll k) socket_ end.

(** [park_background] with its hold; [None] is a hold that goes on. *)
Definition park_socket (spins : nat) (k : Kernel) (socket_ : Socket.SocketHandle) : outcome (Kernel * option bool) :=
  let held := match Socket.slot (Stack.sockets (network (tables (files k)))) socket_ with
              | Some waiting => active (Context.parent k) && interactive && match Socket.state waiting with Socket.State.listening => false | _ => true end
              | None => false end in
  let '(k, readable) := if held then hold_connection spins k socket_ else (k, Some false) in
  match readable with
  | None => Returned (k, None)
  | Some true => Returned (k, Some false)
  | Some false => '(k, parked) ← park_background k socket_; Returned (k, Some parked)
  end.

(** The value a call returns after a switch to another process. *)
Definition switched (k : Kernel) : Z := i32 (Abi.reg (trap_frame k) 10).

Definition user_store (address : Z) (data : list Z) (k : Kernel) : Kernel := k <| memory ::= store address data |>.

(** ** [read] *)

Fixpoint read_socket (spins : nat) (k : Kernel) (slot : Descriptor) (address size : Z) : outcome (Kernel * option Z) :=
  let '(n, result, output) := Stack.socket_read (network (tables (files k))) (Descriptor.socket slot) size in
  let k := with_files k (with_network (files k) n) in
  match Socket.read_result result with
  | Socket.Result.success => Returned (user_store address output k, Some (i32 (Socket.read_size result)))
  | Socket.Result.end_of_file => Returned (k, Some 0)
  | Socket.Result.would_block =>
      if negb (Z.land (flags slot) SocketAbi.sock_nonblock =? 0) then Returned (k, Some (Abi.error try_again)) else
      '(k, parked) ← park_socket spins k (Descriptor.socket slot);
      match parked with
      | None => Returned (k, None)
      | Some true => Returned (k, Some (switched k))
      | Some false =>
          '(k, resumed) ← resume_interactive_child_if_ready (network_poll k);
          if resumed : bool then Returned (k, Some (switched k)) else
          match spins with O => Returned (k, None) | S spins => read_socket spins k slot address size end
      end
  | e => Returned (k, Some (socket_error e))
  end.

Definition read_pipe (k : Kernel) (slot : Descriptor) (address size : Z) : Kernel * Z :=
  if negb (bool_decide (pipe_end slot = PipeTable.end_read)) then (k, Abi.error bad_file_descriptor) else
  let '(p, result, output) := PipeTable.read pipe_capacity (pipes (tables (files k))) (pipe slot) size in
  let k := with_files k (files k <| tables ::= fun t => t <| pipes := p |> |>) in
  match PipeTable.io_status result with
  | PipeTable.success => (user_store address output k, i32 (PipeTable.io_size result))
  | PipeTable.end_of_file => (k, 0)
  | PipeTable.would_block => (k, Abi.error try_again)
  | _ => (k, Abi.error bad_file_descriptor)
  end.

Definition read_pty (k : Kernel) (slot : Descriptor) (address size : Z) : outcome (Kernel * Z) :=
  let '(p, result, output) := PtyTable.read pty_capacity (ptys (tables (files k))) (pty slot) (pty_end slot) size in
  let k := with_ptys k p in
  match PtyTable.io_status result with
  | PtyTable.success => Returned (user_store address output k, i32 (PtyTable.io_size result))
  | PtyTable.end_of_file => Returned (k, 0)
  | PtyTable.would_block =>
      if Z.land (flags slot) nonblock =? 0 then
        '(k, parked) ← park_interactive_child k (pty slot) (pty_end slot);
        Returned (k, if parked : bool then switched k else Abi.error try_again)
      else Returned (k, Abi.error try_again)
  | PtyTable.io_error => Returned (k, Abi.error io)
  | _ => Returned (k, Abi.error bad_file_descriptor)
  end.

(** The tail of [read_virtual]: files and virtual files. *)
Definition read_node (k : Kernel) (descriptor : Z) (slot : Descriptor) (address size : Z) : Kernel * Z :=
  let available := node_size k (node slot) in
  if available <=? offset slot then (k, 0) else
  let count := Z.min (available - offset slot) size in
  let advance count k := with_files k (set_descriptor descriptor (slot <| offset := u32 (offset slot + count) |>) (files k)) in
  if is_kind (node slot) Kind.filesystem then
    match on_root k (Root.read (file (node slot)) (offset slot) false count) with
    | (k, Fs.expected data) =>
        (advance (Z.of_nat (length data)) (user_store address data k), i32 (Z.of_nat (length data)))
    | (k, Fs.unexpected _) =>
        (user_store address (take (Z.to_nat count) (torn_read (Ext4.device_ (Root.volume (executables k))) (file (node slot)) (offset slot) count)) k,
         Abi.error io)
    end
  else
    match node_contents k (node slot) with
    | None => (k, Abi.error bad_file_descriptor)
    | Some contents =>
        (advance count (user_store address (slice (contents ++ [0]) (Z.to_nat (offset slot)) (Z.to_nat count)) k), i32 count)
    end.

Definition read_virtual (spins : nat) (k : Kernel) (descriptor address size : Z) : outcome (Kernel * option Z) :=
  match descriptor_slot (files k) descriptor with
  | None => Returned (k, Some (Abi.error bad_file_descriptor))
  | Some slot =>
      if directory (node slot) then Returned (k, Some (Abi.error is_directory)) else
      if negb (contains address size) then Returned (k, Some (Abi.error bad_address)) else
      match kind (node slot) with
      | Kind.network_socket => if size =? 0 then Returned (k, Some 0) else read_socket spins k slot address size
      | Kind.pipe => let '(k, r) := read_pipe k slot address size in Returned (k, Some r)
      | Kind.pty => '(k, r) ← read_pty k slot address size; Returned (k, Some r)
      | _ => let '(k, r) := read_node k descriptor slot address size in Returned (k, Some r)
      end
  end.

(** The characters that are there, [n] at most. *)
Fixpoint receive_more (n : nat) (w : W) : W * list Z :=
  match n with
  | O => (w, [])
  | S n =>
      match uart_receive w with
      | (w, Some data) => let '(w, rest) := receive_more n w in (w, data :: rest)
      | (w, None) => (w, [])
      end
  end.

(** The loop of [read] on the terminal. *)
Fixpoint read_uart (spins : nat) (k : Kernel) (address size : Z) : outcome (Kernel * option Z) :=
  match uart_receive (world k) with
  | (w, Some data) =>
      let '(w, rest) := receive_more (Z.to_nat (size - 1)) w in
      Returned (user_store address (data :: rest) (set_world w k), Some (i32 (Z.of_nat (S (length rest)))))
  | (w, None) =>
      '(k, resumed) ← resume_interactive_child_if_ready (network_poll (set_world w k));
      if resumed : bool then Returned (k, Some (switched k)) else
      '(k, resumed) ← resume_background_if_ready k;
      if resumed : bool then Returned (k, Some (switched k)) else
      match spins with O => Returned (k, None) | S spins => read_uart spins k address size end
  end.

Definition read (spins : nat) (k : Kernel) (descriptor address size : Z) : outcome (Kernel * option Z) :=
  if (3 <=? descriptor) || negb (is_none (redirect (files k) descriptor)) then read_virtual spins k descriptor address size else
  if negb (descriptor =? 0) then Returned (k, Some (Abi.error bad_file_descriptor)) else
  if negb (contains address size) then Returned (k, Some (Abi.error bad_address)) else
  if size =? 0 then Returned (k, Some 0) else read_uart spins k address size.

(** ** [write] *)

Definition write_pipe (k : Kernel) (slot : Descriptor) (address size : Z) : Kernel * Z :=
  if negb (bool_decide (pipe_end slot = PipeTable.end_write)) then (k, Abi.error bad_file_descriptor) else
  let '(p, result) := PipeTable.write pipe_capacity atomic_capacity (pipes (tables (files k))) (pipe slot) (load (memory k) address (Z.to_nat size)) size in
  (with_files k (files k <| tables ::= fun t => t <| pipes := p |> |>),
   match PipeTable.io_status result with
   | PipeTable.success => i32 (PipeTable.io_size result)
   | PipeTable.broken_pipe => Abi.error broken_pipe
   | PipeTable.would_block => Abi.error try_again
   | _ => Abi.error bad_file_descriptor
   end).

(** The signals that control characters generate go to the foreground group. *)
Definition deliver_generated (generated group : Z) (k : Kernel) : Kernel :=
  foldl (fun k signal => if Z.land generated (Signal.bit signal) =? 0 then k
                         else (SignalCalls.queue_process_group_signal k group signal).1) k (seqZ 1 Signal.signal_max).

Definition write_pty (k : Kernel) (slot : Descriptor) (address size : Z) : Kernel * Z :=
  let '(p, result) := PtyTable.write pty_capacity (ptys (tables (files k))) (pty slot) (pty_end slot) (load (memory k) address (Z.to_nat size)) size in
  let k := with_ptys k p in
  let k := if bool_decide (pty_end slot = PtyTable.master) && negb (PtyTable.generated_signals result =? 0)
           then deliver_generated (PtyTable.generated_signals result) (PtyTable.foreground_group pty_capacity p (pty slot)) k else k in
  (k, match PtyTable.io_status result with
      | PtyTable.success => i32 (PtyTable.io_size result)
      | PtyTable.would_block => Abi.error try_again
      | PtyTable.end_of_file | PtyTable.io_error => Abi.error io
      | _ => Abi.error bad_file_descriptor
      end).

Definition write_file (k : Kernel) (descriptor : Z) (slot : Descriptor) (address size : Z) : Kernel * Z :=
  let start := if Z.land (flags slot) 0x400 =? 0 then offset slot else node_size k (node slot) in
  let '(e, f, result) := Root.write (file (node slot)) start (Some (load (memory k) address (Z.to_nat size))) size (executables k) in
  let written := match result with Fs.expected n => n | Fs.unexpected _ => 0 end in
  let slot := slot <| node ::= fun n => n <| file := f |> |> <| offset := u32 (start + written) |> in
  (with_files (k <| executables := e |>) (set_descriptor descriptor slot (files k)),
   match result with Fs.expected n => i32 n | Fs.unexpected _ => Abi.error io end).

Definition write (k : Kernel) (descriptor address size : Z) : Kernel * Z :=
  if negb (contains address size) then (k, Abi.error bad_address) else
  let data := load (memory k) address (Z.to_nat size) in
  if ((descriptor =? 1) || (descriptor =? 2)) && is_none (redirect (files k) descriptor) then (uart_write data k, i32 size) else
  match descriptor_slot (files k) descriptor with
  | None => (k, Abi.error bad_file_descriptor)
  | Some slot =>
      match kind (node slot) with
      | Kind.standard_output => (uart_write data k, i32 size)
      | Kind.network_socket =>
          if size =? 0 then (k, 0) else
          let '(f, result) := on_network (files k) (fun n => Stack.socket_write n (Descriptor.socket slot) data) in
          (with_files k f, if bool_decide (Socket.read_result result = Socket.Result.success) then i32 (Socket.read_size result)
                           else socket_error (Socket.read_result result))
      | Kind.pipe => write_pipe k slot address size
      | Kind.pty => write_pty k slot address size
      | _ =>
          if is_kind (node slot) Kind.pseudo && bool_decide (pseudo_node (node slot) = PseudoFs.Node.dev_null) then (k, i32 size) else
          if negb (is_kind (node slot) Kind.filesystem) || directory (node slot) || (Z.land (flags slot) 3 =? 0)
          then (k, Abi.error bad_file_descriptor) else write_file k descriptor slot address size
      end
  end.

Definition writev (k : Kernel) (descriptor address count : Z) : Kernel * Z :=
  if (1024 <? count) || negb (contains address (count * 8)) || negb (aligned address 1) then (k, Abi.error bad_address) else
  let vectors := read_iovec (memory k) address <$> seqZ 0 count in
  scatter_write (fun k base size => write k descriptor base size) (Abi.error invalid_argument) vectors k.

(** ** [ioctl] *)

Definition uart_ioctl (k : Kernel) (descriptor request address : Z) : Kernel * Z :=
  if 2 <? descriptor then (k, Abi.error bad_file_descriptor) else
  if request =? tcgets then
    if negb (contains address 36) then (k, Abi.error bad_address)
    else (user_store address (encode_termios PtyTable.termios_default) k, 0)
  else if request =? tcgets2 then
    if negb (contains address 44) then (k, Abi.error bad_address)
    else (user_store address (encode_termios PtyTable.termios_default ++ speeds) k, 0)
  else if (request =? tcsets) || (request =? tcsetsw) || (request =? tcsetsf) then
    (k, if contains address 36 then 0 else Abi.error bad_address)
  else if (request =? tcsets2) || (request =? tcsetsw2) || (request =? tcsetsf2) then
    (k, if contains address 44 then 0 else Abi.error bad_address)
  else if request =? tiocgwinsz then
    if negb (contains address 8) then (k, Abi.error bad_address)
    else (user_store address (encode_window PtyTable.window_default) k, 0)
  else (k, Abi.error not_a_tty).

(** A call of the pseudo-terminals that succeeds or fails with [e]. *)
Definition pty_result (k : Kernel) (r : list (PtyTable.Pty (Q := Q)) * PtyTable.PtyStatus) (e : errno) : Kernel * Z :=
  (with_ptys k r.1, if bool_decide (r.2 = PtyTable.success) then 0 else Abi.error e).

Definition set_window (k : Kernel) (slot : Descriptor) (address : Z) : Kernel * Z :=
  let '(p, result, changed) := PtyTable.set_window pty_capacity (ptys (tables (files k))) (pty slot) (decode_window (load (memory k) address 8)) in
  let k := with_ptys k p in
  let k := if default false changed && negb (PtyTable.foreground_group pty_capacity p (pty slot) =? 0)
           then k <| signal_state ::= fun s => (Signal.queue s Signal.signal_window_change).1 |> else k in
  (k, if bool_decide (result = PtyTable.success) then 0 else Abi.error bad_file_descriptor).

Definition pty_ioctl (k : Kernel) (slot : Descriptor) (request address : Z) : Kernel * Z :=
  let t := ptys (tables (files k)) in
  let master := bool_decide (pty_end slot = PtyTable.master) in
  if request =? tiocgptn then
    if negb master || negb (contains address 4) then (k, Abi.error bad_address)
    else (user_store address (Fs.bytes32 (PtyTable.slot (pty slot))) k, 0)
  else if request =? tiocsptlck then
    if negb master || negb (contains address 4) then (k, Abi.error bad_address)
    else pty_result k (PtyTable.set_locked pty_capacity t (pty slot) (negb (load_u32 (memory k) address =? 0))) bad_file_descriptor
  else if request =? tcgets then
    match PtyTable.termios pty_capacity t (pty slot) with
    | Some state => if negb (contains address 36) then (k, Abi.error bad_address) else (user_store address (encode_termios state) k, 0)
    | None => (k, Abi.error bad_address)
    end
  else if request =? tcgets2 then
    match PtyTable.termios pty_capacity t (pty slot) with
    | Some state => if negb (contains address 44) then (k, Abi.error bad_address)
                    else (user_store address (encode_termios state ++ speeds) k, 0)
    | None => (k, Abi.error bad_address)
    end
  else if (request =? tcsets) || (request =? tcsetsw) || (request =? tcsetsf) then
    if negb (contains address 36) then (k, Abi.error bad_address)
    else pty_result k (PtyTable.set_termios pty_capacity t (pty slot) (decode_termios (load (memory k) address 36))) bad_file_descriptor
  else if (request =? tcsets2) || (request =? tcsetsw2) || (request =? tcsetsf2) then
    if negb (contains address 44) then (k, Abi.error bad_address)
    else pty_result k (PtyTable.set_termios pty_capacity t (pty slot) (decode_termios (load (memory k) address 36))) bad_file_descriptor
  else if request =? tiocgwinsz then
    match PtyTable.window pty_capacity t (pty slot) with
    | Some window => if negb (contains address 8) then (k, Abi.error bad_address) else (user_store address (encode_window window) k, 0)
    | None => (k, Abi.error bad_address)
    end
  else if request =? tiocswinsz then
    if negb (contains address 8) then (k, Abi.error bad_address) else set_window k slot address
  else if request =? tiocsctty then
    if master then (k, Abi.error not_a_tty)
    else pty_result k (PtyTable.acquire_controlling_terminal pty_capacity t (pty slot) (Abi.pid (process k)) (Abi.process_group (process k))
                         (Abi.session (process k)) (negb (address =? 0))) access_denied
  else if request =? tiocnotty then pty_result k (PtyTable.detach pty_capacity t (pty slot) (Abi.session (process k))) access_denied
  else if request =? tiocgpgrp then
    if negb (contains address 4) then (k, Abi.error bad_address)
    else (user_store address (Fs.bytes32 (PtyTable.foreground_group pty_capacity t (pty slot))) k, 0)
  else if request =? tiocspgrp then
    if negb (contains address 4) then (k, Abi.error bad_address)
    else pty_result k (PtyTable.set_foreground_group pty_capacity t (pty slot) (Abi.session (process k)) (load_u32 (memory k) address)) access_denied
  else (k, Abi.error not_a_tty).

Definition read_ifreq (m : Memory) (address : Z) : Interface.Ifreq32 :=
  Interface.mkIfreq (load m address 16) (load m (address + 16) 16).
Definition encode_ifreq (r : Interface.Ifreq32) : list Z := Interface.name r ++ Interface.value r.

Definition interface_call (k : Kernel) (request : Z) (r : Interface.Ifreq32)
    : Kernel * Interface.Ifreq32 * Interface.InterfaceControlResult :=
  let '(n, r, result) := Stack.ioctl (network (tables (files k))) request r in
  (with_files k (with_network (files k) n), r, result).

(** [siocgifconf]: the one interface the system has. *)
Definition interface_configuration (k : Kernel) (address : Z) : Kernel * Z :=
  if negb (contains address 8) then (k, Abi.error bad_address) else
  let length_ := i32 (load_u32 (memory k) address) in
  let buffer := load_u32 (memory k) (address + 4) in
  if length_ <? 0 then (k, Abi.error invalid_argument) else
  if buffer =? 0 then (user_store address (Fs.bytes32 32) k, 0) else
  if length_ <? 32 then (user_store address (Fs.bytes32 0) k, 0) else
  if negb (contains buffer 32) then (k, Abi.error bad_address) else
  let '(k, r, result) := interface_call k Interface.siocgifaddr (Interface.mkIfreq Interface.write_interface_name (replicate 16 0)) in
  match result with
  | Interface.success => (user_store address (Fs.bytes32 32) (user_store buffer (encode_ifreq r) k), 0)
  | _ => (k, Abi.error no_device)
  end.

Definition network_ioctl (k : Kernel) (descriptor request address : Z) : Kernel * Z :=
  if (descriptor <? 3) || (16 <=? descriptor) || is_none (at_slot (files k) descriptor) then (k, Abi.error bad_file_descriptor) else
  if negb (is_kind (node (at_slot (files k) descriptor)) Kind.network_socket) then (k, Abi.error not_a_tty) else
  if request =? Interface.siocgifconf then interface_configuration k address else
  if negb (contains address 32) then (k, Abi.error bad_address) else
  let '(k, r, result) := interface_call k request (read_ifreq (memory k) address) in
  match result with
  | Interface.success => (user_store address (encode_ifreq r) k, 0)
  | Interface.no_device => (k, Abi.error no_device)
  | Interface.invalid_argument => (k, Abi.error invalid_argument)
  | Interface.unsupported => (k, Abi.error operation_not_supported)
  end.

Definition ioctl (k : Kernel) (descriptor request address : Z) : Kernel * Z :=
  if interactive && (descriptor <=? 2) && is_none (redirect (files k) descriptor) then uart_ioctl k descriptor request address else
  match descriptor_slot (files k) descriptor with
  | Some slot => if is_kind (node slot) Kind.pty then pty_ioctl k slot request address else network_ioctl k descriptor request address
  | None => network_ioctl k descriptor request address
  end.
End kernel.
End DataCalls.
