(* ===== verification/ProcessCalls.v ===== *)
(** * [kernel/syscall.cpp]: processes, time and memory

    The calls that wait for children, name processes and groups, tell the
    time, map memory and replace the running program. *)

From stdpp Require Import strings.
From S2P Require Import Prelude ByteQueue Base Filesystem Ext4 Root Signal Pipe Pty Process Ethernet Timing Interface Socket Tcp Stack TcpTable.
From S2P Require Import Abi Memory Path Runtime PseudoFs Descriptor FileCalls Context Loader PathCalls DataCalls.
Local Open Scope Z_scope.

Module ProcessCalls.
Import Memory Abi.Errno Context PathCalls DataCalls.

(** ** [tick_time]: a division by shifting, in two words *)

Definition ticks_per_second := 10000000.

Record Ticks := mkTicks { quotient_low : Z; quotient_high : Z; remainder : Z }.

Definition tick_step (low high : Z) (t : Ticks) (bit : Z) : Ticks :=
  let source := if 32 <? bit then Z.shiftr high (bit - 33) else Z.shiftr low (bit - 1) in
  let remainder_ := Z.lor (u32 (Z.shiftl (remainder t) 1)) (Z.land source 1) in
  if ticks_per_second <=? remainder_ then
    if 32 <? bit
    then mkTicks (quotient_low t) (Z.lor (quotient_high t) (Z.shiftl 1 (bit - 33))) (remainder_ - ticks_per_second)
    else mkTicks (Z.lor (quotient_low t) (Z.shiftl 1 (bit - 1))) (quotient_high t) (remainder_ - ticks_per_second)
  else mkTicks (quotient_low t) (quotient_high t) remainder_.

(** Seconds and nanoseconds. *)
Definition ticks_to_time (ticks : Z) : Z * Z :=
  let t := foldl (tick_step (u32 ticks) (u32 (Z.shiftr ticks 32))) (mkTicks 0 0 0) (reverse (seqZ 1 64)) in
  (Z.lor (Z.shiftl (quotient_high t) 32) (quotient_low t), u32 (remainder t * 100)).

(** ** The generator of [getrandom] *)

Definition random_start := 0x6d696b6f.
Definition random_step (state : Z) : Z :=
  let state := Z.lxor state (u32 (Z.shiftl state 13)) in
  let state := Z.lxor state (Z.shiftr state 17) in
  Z.lxor state (u32 (Z.shiftl state 5)).
Fixpoint random_loop (n : nat) (state : Z) : Z * list Z :=
  match n with
  | O => (state, [])
  | S n => let state := random_step state in let '(last, rest) := random_loop n state in (last, u8 state :: rest)
  end.

(** ** Texts of the program *)

(** [user_string_is]; [expected] has its NUL. *)
Fixpoint user_string_loop (m : Memory) (address i : Z) (expected : list Z) (n : nat) : bool :=
  match n, expected with
  | S n, c :: expected =>
      if (Abi.user_end - i <? address) || negb (contains (u32 (address + i)) 1) then false else
      let actual := m (u32 (address + i)) in
      if negb (actual =? c) then false else if actual =? 0 then true else user_string_loop m address (i + 1) expected n
  | _, _ => false
  end.
Definition user_string_is (m : Memory) (address : Z) (expected : list Z) : bool :=
  user_string_loop m address 0 (expected ++ [0]) 64.

(** The strings behind a vector of pointers, up to its null pointer or to [n];
    [None] is a bad address. *)
Definition max_argument_size := 128%nat.
Fixpoint copy_vector (m : Memory) (vector count : Z) (n : nat) : option (list (list Z)) :=
  match n with
  | O => Some []
  | S n =>
      let slot := u32 (vector + count * 4) in
      if negb (contains slot 4) then None else
      let address := load_u32 m slot in
      if address =? 0 then Some [] else
      text ← copy_user_string m address max_argument_size; rest ← copy_vector m vector (count + 1) n; Some (text :: rest)
  end.

(** ** What the calls write *)

Definition no_hang := 1.
Definition nowait := 0x01000000.
Definition child_siginfo (c : WaitableChild) : list Z :=
  Fs.bytes32 17 ++ Fs.bytes32 0 ++ Fs.bytes32 1 ++ Fs.bytes32 (w_pid c) ++ Fs.bytes32 0 ++ Fs.bytes32 (status c) ++
  Fs.bytes32 0 ++ Fs.bytes32 0 ++ replicate 96 0.

Definition field_size := 65%nat.
Definition uname_fields : list (list Z) :=
  PseudoFs.text <$> ["Mikos"; "mikos"; "0.1"; "rv32-flat"; "riscv32"; ""]%string.
Definition uname_bytes : list Z := concat ((fun f => f ++ replicate (field_size - length f) 0) <$> uname_fields).

(** Words 0, 4, 5 and 13 of sixteen, and the half word at 40. *)
Definition sysinfo_bytes (seconds : Z) : list Z :=
  Fs.bytes32 seconds ++ replicate 12 0 ++ Fs.bytes32 (16 * 1024 * 1024) ++ Fs.bytes32 (4 * 1024 * 1024) ++
  replicate 16 0 ++ Fs.bytes16 1 ++ replicate 10 0 ++ Fs.bytes32 1 ++ replicate 8 0.

Section kernel.
Context {Q : Type} `{!ByteQueue Q}.
Context {W : Type} {stack_machine : Machine W}.
Context {D : Type} {device : Fs.Device D} {start : RootDevice D} {torn : TornRead D} {build : Build} {linker : LinkerScript}.
Abbreviation Kernel := (Kernel Q W (Root.RootFilesystem D)).

(** ** Waiting for children *)

Definition wait4_selects (k : Kernel) (selector : Z) (c : WaitableChild) : bool :=
  used c && (w_parent_pid c =? Abi.pid (process k)) &&
  ((selector =? -1) || ((0 <? selector) && (w_pid c =? u32 selector)) ||
   ((selector =? 0) && (w_process_group c =? Abi.process_group (process k))) ||
   ((selector <? -1) && (w_process_group c =? u32 (- selector)))).

(** The entry [i] and its child. *)
Definition find_child (k : Kernel) (selects : WaitableChild -> bool) : option (nat * WaitableChild) :=
  (fun i => (i, waitable_children k !!! i)) <$> first_slot selects (waitable_children k).

Definition waitable_for_wait4 (k : Kernel) (pid_ : Z) := find_child k (wait4_selects k (i32 pid_)).

(** [*child = {}; refresh_child_waitable()]. *)
Definition consume_child (i : nat) (k : Kernel) : Kernel :=
  refresh_child_waitable (k <| waitable_children ::= <[i := waitable_default]> |>).

Definition wait4 (k : Kernel) (pid_ status_ : Z) : Kernel * Z :=
  match waitable_for_wait4 k pid_ with
  | None => (k, Abi.error no_child)
  | Some (i, child) =>
      if negb (status_ =? 0) && negb (contains status_ 4) then (k, Abi.error bad_address) else
      let k := if status_ =? 0 then k else k <| memory ::= store_u32 status_ (u32 (Z.shiftl (status child) 8)) |> in
      (consume_child i k, i32 (w_pid child))
  end.

Definition waitid_selects (k : Kernel) (which pid_ : Z) (c : WaitableChild) : bool :=
  used c && (w_parent_pid c =? Abi.pid (process k)) &&
  ((which =? 0) || ((which =? 1) && (w_pid c =? pid_)) ||
   ((which =? 2) && (w_process_group c =? (if pid_ =? 0 then Abi.process_group (process k) else pid_)))).

Definition waitid (k : Kernel) (which pid_ address options : Z) : Kernel * Z :=
  if negb (which =? 0) && negb (which =? 1) && negb (which =? 2) then (k, Abi.error invalid_argument) else
  match find_child k (waitid_selects k which pid_) with
  | None =>
      if negb (Z.land options no_hang =? 0) && contains address 128
      then (user_store address (replicate 128 0) k, 0) else (k, Abi.error no_child)
  | Some (i, child) =>
      if negb (contains address 128) then (k, Abi.error bad_address) else
      let k := user_store address (child_siginfo child) k in
      (if Z.land options nowait =? 0 then consume_child i k else k, 0)
  end.

(** ** Process groups and sessions *)

Definition own_child (k : Kernel) (pid_ : Z) (c : WaitableChild) : bool :=
  used c && (w_parent_pid c =? Abi.pid (process k)) && (w_pid c =? pid_).

Definition setpgid (k : Kernel) (pid_ group : Z) : Kernel * Z :=
  match find_child k (own_child k pid_) with
  | Some (i, child) =>
      let chosen := if group =? 0 then pid_ else group in
      let k := k <| waitable_children ::= <[i := child <| w_process_group := chosen |>]> |> in
      (if pid_ =? child_pid (parent k) then k <| parent ::= fun s => s <| child_process_group := chosen |> |> else k, 0)
  | None =>
      let p := process k in
      if negb (pid_ =? 0) && negb (pid_ =? Abi.pid p) then (k, Abi.error no_entry) else
      let selected := if group =? 0 then Abi.pid p else group in
      if Abi.session p =? Abi.pid p then (k, Abi.error access_denied) else
      if negb (selected =? Abi.pid p) && negb (selected =? Abi.process_group p) &&
         negb (active (parent k) && (selected =? Context.process_group (context (parent k))) &&
               (Abi.session p =? Context.session (context (parent k))))
      then (k, Abi.error access_denied)
      else (k <| process ::= fun p => p <| Abi.process_group := selected |> |>, 0)
  end.

Definition getpgid (k : Kernel) (pid_ : Z) (session_ : bool) : Z :=
  let p := process k in
  let c := context (parent k) in
  if (pid_ =? 0) || (pid_ =? Abi.pid p) then i32 (if session_ then Abi.session p else Abi.process_group p) else
  if active (parent k) && (pid_ =? Context.pid c) then i32 (if session_ then Context.session c else Context.process_group c) else
  match find_child k (own_child k pid_) with
  | Some (_, child) => i32 (if session_ then Context.session c else w_process_group child)
  | None => Abi.error no_entry
  end.

Definition setsid (k : Kernel) : Kernel * Z :=
  let p := process k in
  if Abi.process_group p =? Abi.pid p then (k, Abi.error access_denied)
  else (k <| process ::= fun p => p <| Abi.process_group := Abi.pid p |> <| Abi.session := Abi.pid p |> |>, i32 (Abi.pid p)).

(** ** Time and the machine *)

Definition read_ticks (k : Kernel) : Kernel * Z := let '(w, ticks) := time_ticks (world k) in (set_world w k, ticks).
Definition tick_time (k : Kernel) : Kernel * (Z * Z) := let '(k, ticks) := read_ticks k in (k, ticks_to_time ticks).

Definition clock_gettime (k : Kernel) (address : Z) (time64 : bool) : Kernel * Z :=
  let '(k, (seconds, nanoseconds)) := tick_time k in
  if time64 then
    if negb (contains address 16) then (k, Abi.error bad_address)
    else (user_store address (bytes64 seconds ++ bytes64 nanoseconds) k, 0)
  else if negb (contains address 8) then (k, Abi.error bad_address)
  else (user_store address (Fs.bytes32 (u32 seconds) ++ Fs.bytes32 nanoseconds) k, 0).

Definition gettimeofday (k : Kernel) (address : Z) : Kernel * Z :=
  if address =? 0 then (k, 0) else
  if negb (contains address 8) then (k, Abi.error bad_address) else
  let '(k, (seconds, nanoseconds)) := tick_time k in
  (user_store address (Fs.bytes32 (u32 seconds) ++ Fs.bytes32 (nanoseconds / 1000)) k, 0).

Definition uname (k : Kernel) (address : Z) : Kernel * Z :=
  if negb (contains address 390) then (k, Abi.error bad_address) else (user_store address uname_bytes k, 0).

Definition sysinfo (k : Kernel) (address : Z) : Kernel * Z :=
  if negb (contains address 64) then (k, Abi.error bad_address) else
  let '(k, (seconds, _)) := tick_time k in (user_store address (sysinfo_bytes (u32 seconds)) k, 0).

(** One of the two results of [getcpu]. *)
Definition getcpu_word (address : Z) (k : Kernel) : Kernel * bool :=
  if address =? 0 then (k, true) else
  if negb (contains address 4) then (k, false) else (k <| memory ::= store_u32 address 0 |>, true).
Definition getcpu (k : Kernel) (cpu node_ : Z) : Kernel * Z :=
  match getcpu_word cpu k with
  | (k, false) => (k, Abi.error bad_address)
  | (k, true) => let '(k, ok) := getcpu_word node_ k in (k, if ok : bool then 0 else Abi.error bad_address)
  end.

Definition getcwd (k : Kernel) (address size : Z) : Kernel * Z :=
  let path := Abi.current_directory (process k) in
  let required := Z.of_nat (length path) + 1 in
  if (size <? required) || negb (contains address size) then (k, Abi.error bad_address)
  else (user_store address (path ++ [0]) k, i32 required).

(** [state] is the static variable of the generator. *)
Definition getrandom (k : Kernel) (state address size : Z) : Kernel * Z * Z :=
  if negb (contains address size) then (k, state, Abi.error bad_address) else
  let '(state, output) := random_loop (Z.to_nat size) state in (user_store address output k, state, i32 size).

(** ** Memory *)

Definition map_fixed := 0x10.

Definition mmap (k : Kernel) (address size flags : Z) : Kernel * Z :=
  if size =? 0 then (k, Abi.error invalid_argument) else
  let rounded := Base.align_up 32 size 4096 in
  if rounded <? size then (k, Abi.error no_memory) else
  if negb (Z.land flags map_fixed =? 0) then
    (k, if contains address rounded then i32 address else Abi.error no_memory)
  else
    let result := Abi.mmap_cursor (process k) in
    if negb (contains result rounded) || (Abi.user_stack_top <=? result) || (Abi.user_stack_top - result <? rounded)
    then (k, Abi.error no_memory)
    else (k <| process ::= fun p => p <| Abi.mmap_cursor := u32 (result + rounded) |> |>
            <| memory ::= Runtime.memset result 0 rounded |>, i32 result).

Definition brk (k : Kernel) (address : Z) : Kernel * Z :=
  let k := if negb (address =? 0) && (Abi.user_begin <=? address) && (address <? Abi.mmap_cursor (process k))
           then k <| process ::= fun p => p <| Abi.brk := address |> |> else k in
  (k, i32 (Abi.brk (process k))).

Definition prlimit (k : Kernel) (old_limit : Z) : Kernel * Z :=
  if old_limit =? 0 then (k, 0) else
  if negb (contains old_limit 16) then (k, Abi.error bad_address) else (user_store old_limit (replicate 16 255) k, 0).

Definition protect_or_unmap (address size : Z) : Z := if contains address size then 0 else Abi.error no_memory.

Definition futex (k : Kernel) (address operation expected : Z) : Z :=
  if negb (contains address 4) || negb (aligned address 4) then Abi.error bad_address else
  let command := Z.land operation 0x7f in
  if (command =? 0) || (command =? 9) then
    if negb (load_u32 (memory k) address =? expected) then Abi.error try_again else 0
  else if (command =? 1) || (command =? 10) then 0 else Abi.error no_syscall.

(** ** [execve] *)

(** The node and the path, with [/proc/self/exe] replaced by the program's own. *)
Definition exec_node (k : Kernel) (path_ : Z) : Kernel * Descriptor.Node * list Z :=
  let '(k, n, canonical) := path_node k path_ in
  if bool_decide (canonical = proc_self_exe) then
    let canonical := take 255 (Abi.executable_path (process k)) in
    let '(k, found) := on_root k (Root.lookup canonical) in
    (k, match found with Fs.expected node => Descriptor.node_file node | Fs.unexpected _ => Descriptor.node_none end, canonical)
  else (k, n, canonical).

(** The checks before anything is copied. *)
Definition exec_refused (k : Kernel) (n : Descriptor.Node) (canonical : list Z) (argv envp : Z) : option Z :=
  if negb (aligned argv 4) || (negb (envp =? 0) && negb (aligned envp 4)) then Some (Abi.error invalid_argument) else
  if negb (Descriptor.is_kind n Descriptor.Kind.filesystem) || negb (bool_decide (Ext4.type (Descriptor.file n) = Ext4.Type_.regular))
  then Some (Abi.error no_entry) else
  if negb (Loader.executable (Descriptor.file n)) then Some (Abi.error access_denied) else
  if interactive && background_used (background k) &&
     bool_decide (canonical = Context.executable_path (background_context (background k)))
  then Some (Abi.error text_file_busy) else None.

Definition execve (k : Kernel) (path_ argv envp : Z) : outcome (Kernel * Z) :=
  let '(k, n, canonical) := exec_node k path_ in
  match exec_refused k n canonical argv envp with
  | Some e => Returned (k, e)
  | None =>
      match copy_vector (memory k) argv 0 Loader.max_arguments with
      | None => Returned (k, Abi.error bad_address)
      | Some arguments =>
          let count := length arguments in
          if Nat.eqb count 0 || Nat.eqb count Loader.max_arguments then Returned (k, Abi.error no_memory) else
          let '(k, saved) := if active (parent k) then save_parent_memory k else (k, true) in
          if negb saved then Returned (k, Abi.error no_memory) else
          match (if envp =? 0 then Some [] else copy_vector (memory k) envp 0 Loader.max_arguments) with
          | None => Returned (k, Abi.error bad_address)
          | Some environment =>
              if Nat.eqb (length environment) Loader.max_arguments then Returned (k, Abi.error no_memory) else
              '(k, replaced) ← Loader.replace_with_executable k canonical arguments environment;
              Returned (k, if replaced : bool then 0 else Abi.error exec_format)
          end
      end
  end.
End kernel.
End ProcessCalls.
