(* ===== verification/ProcessLaws.v ===== *)
(** * What the process and time calls promise *)

From S2P Require Import Prelude Base Filesystem Memory Runtime ProcessCalls.
Local Open Scope Z_scope.

Module ProcessLaws.
Import ProcessCalls.

(** ** The clock *)

Lemma source_bit x k : 0 <= k -> Z.land (Z.shiftr x k) 1 = x / 2 ^ k mod 2.
Proof. intros Hk. rewrite -> Z.shiftr_div_pow2 by done. exact (Z.land_ones _ 1 ltac:(lia)). Qed.

(** The bit of the counter that a round takes, from either word. *)
Lemma tick_source t bit : in_u 64 t -> 1 <= bit <= 64 ->
  Z.land (if 32 <? bit then Z.shiftr (u32 (Z.shiftr t 32)) (bit - 33) else Z.shiftr (u32 t) (bit - 1)) 1 = t / 2 ^ (bit - 1) mod 2.
Proof.
  intros Ht Hb. unfold in_u in Ht. destruct (Z.ltb_spec 32 bit); rewrite -> source_bit by lia.
  - rewrite -> Z.shiftr_div_pow2 by lia. rewrite -> wrap_small by (split; [apply Z.div_pos; lia|apply Z.div_lt_upper_bound; lia]).
    rewrite -> Z.div_div by lia. rewrite <- Z.pow_add_r by lia. do 3 f_equal. lia.
  - unfold wrap. replace (2 ^ 32) with (2 ^ (bit - 1) * 2 ^ (33 - bit)) by (rewrite <- Z.pow_add_r by lia; f_equal; lia).
    assert (2 ^ (33 - bit) = 2 * 2 ^ (32 - bit)) as Hp by (rewrite <- Z.pow_succ_r by lia; f_equal; lia).
    rewrite -> Z.rem_mul_r by lia. rewrite -> (Z.mul_comm (2 ^ (bit - 1))), Z.div_add by lia.
    rewrite -> (Z.div_small (t mod 2 ^ (bit - 1))), Z.add_0_l by (apply Z.mod_pos_bound; lia).
    rewrite -> Hp, Z.rem_mul_r by lia. rewrite -> (Z.mul_comm 2), Z.mod_add by lia. apply Z.mod_mod. lia.
Qed.

Lemma set_low_bit x k : 0 <= k -> Z.lor (x * 2 ^ (k + 1)) (Z.shiftl 1 k) = x * 2 ^ (k + 1) + 2 ^ k.
Proof.
  intros Hk. assert (0 <= 2 ^ k < 2 ^ (k + 1)) as Hb.
  { split; [apply Z.pow_nonneg; lia|apply Z.pow_lt_mono_r; lia]. }
  pose proof (lor_shiftl x (2 ^ k) (k + 1) ltac:(lia) Hb) as H.
  rewrite -> (Z.shiftl_mul_pow2 x) in H by lia. by rewrite -> Z.shiftl_mul_pow2, Z.mul_1_l by lia.
Qed.

(** The two words of the quotient after the bits from [b] on: the quotient of the
    prefix, moved to its place. *)
Definition ticks_at (t b : Z) (s : Ticks) : Prop :=
  let q := t / 2 ^ b / ticks_per_second in
  remainder s = t / 2 ^ b mod ticks_per_second /\
  quotient_high s = q * 2 ^ b / 2 ^ 32 /\ quotient_low s = q * 2 ^ b mod 2 ^ 32.

(** Appending a binary digit to the quotient. *)
Lemma place_upper q b : 32 <= b -> q * 2 ^ b / 2 ^ 32 = q * 2 ^ (b - 32) /\ q * 2 ^ b mod 2 ^ 32 = 0.
Proof.
  intros Hb. replace (q * 2 ^ b) with (q * 2 ^ (b - 32) * 2 ^ 32)
    by (rewrite <- Z.mul_assoc, <- Z.pow_add_r by lia; do 2 f_equal; lia).
  split; [apply Z.div_mul; lia|apply Z.mod_mul; lia].
Qed.

Lemma place_lower q b : 0 <= b <= 32 ->
  q * 2 ^ b / 2 ^ 32 = q / 2 ^ (32 - b) /\ q * 2 ^ b mod 2 ^ 32 = (q mod 2 ^ (32 - b)) * 2 ^ b.
Proof.
  intros Hb. replace (2 ^ 32) with (2 ^ (32 - b) * 2 ^ b) by (rewrite <- Z.pow_add_r by lia; f_equal; lia).
  split; [apply Z.div_mul_cancel_r; lia|apply Z.mul_mod_distr_r; lia].
Qed.

Lemma double_digit q d k : 0 <= d < 2 -> 1 <= k -> (2 * q + d) / 2 ^ k = q / 2 ^ (k - 1) /\
  (2 * q + d) mod 2 ^ k = 2 * (q mod 2 ^ (k - 1)) + d.
Proof.
  intros Hd Hk. assert (2 ^ k = 2 * 2 ^ (k - 1)) as Hp by (rewrite <- Z.pow_succ_r by lia; f_equal; lia).
  pose proof (Z.div_mod q (2 ^ (k - 1)) ltac:(lia)). pose proof (Z.mod_pos_bound q (2 ^ (k - 1)) ltac:(lia)). split.
  - symmetry. apply (Z.div_unique _ _ _ (2 * (q mod 2 ^ (k - 1)) + d)); lia.
  - symmetry. apply (Z.mod_unique _ _ (q / 2 ^ (k - 1))); lia.
Qed.

Lemma tick_step_ok t bit s : in_u 64 t -> 1 <= bit <= 64 -> ticks_at t bit s ->
  ticks_at t (bit - 1) (tick_step (u32 t) (u32 (Z.shiftr t 32)) s bit).
Proof.
  intros Ht Hb (Hr & Hh & Hl). unfold tick_step. rewrite -> tick_source by done. cbv zeta.
  set (d := t / 2 ^ (bit - 1) mod 2). assert (0 <= d < 2) as Hd by (apply Z.mod_pos_bound; lia).
  set (p := t / 2 ^ bit) in *.
  assert (t / 2 ^ (bit - 1) = 2 * p + d) as Hp.
  { unfold p, d. replace (2 ^ bit) with (2 ^ (bit - 1) * 2) by (rewrite -> Z.mul_comm, <- Z.pow_succ_r by lia; f_equal; lia).
    rewrite <- Z.div_div by lia. apply Z.div_mod. lia. }
  set (q := p / ticks_per_second) in *. set (r := remainder s) in *.
  pose proof (Z.mod_pos_bound p ticks_per_second ltac:(done)) as Hrb. rewrite <- Hr in Hrb.
  pose proof (Z.div_mod p ticks_per_second ltac:(done)) as Hdm. fold q in Hdm. rewrite <- Hr in Hdm.
  unfold ticks_per_second in Hrb, Hdm.
  rewrite -> Z.shiftl_mul_pow2, wrap_small by (unfold in_u; lia).
  assert (Z.lor (r * 2 ^ 1) d = 2 * r + d) as ->.
  { rewrite <- Z.shiftl_mul_pow2, lor_shiftl by lia. lia. }
  unfold ticks_at. rewrite -> Hp. unfold ticks_per_second.
  destruct (Z.leb_spec 10000000 (2 * r + d)) as [Hc|Hc].
  - assert ((2 * p + d) / 10000000 = 2 * q + 1 /\ (2 * p + d) mod 10000000 = 2 * r + d - 10000000) as [-> ->].
    { split; symmetry; [apply (Z.div_unique _ _ _ (2 * r + d - 10000000)); lia|apply (Z.mod_unique _ _ (2 * q + 1)); lia]. }
    destruct (Z.ltb_spec 32 bit); cbn [remainder quotient_high quotient_low]; (split; [done|]); rewrite -> Hh, Hl.
    + destruct (place_upper q bit) as [-> ->]; [lia|]. destruct (place_upper (2 * q + 1) (bit - 1)) as [-> ->]; [lia|].
      split; [|done]. replace (bit - 32) with (bit - 33 + 1) by lia. rewrite -> set_low_bit by lia.
      replace (bit - 1 - 32) with (bit - 33) by lia. rewrite -> Z.pow_add_r by lia. lia.
    + destruct (place_lower q bit) as [-> ->]; [lia|]. destruct (place_lower (2 * q + 1) (bit - 1)) as [-> ->]; [lia|].
      destruct (double_digit q 1 (32 - (bit - 1))) as [-> ->]; [lia|lia|]. replace (32 - (bit - 1) - 1) with (32 - bit) by lia.
      split; [done|]. pose proof (set_low_bit (q mod 2 ^ (32 - bit)) (bit - 1) ltac:(lia)) as Hs.
      replace (bit - 1 + 1) with bit in Hs by lia. rewrite -> Hs.
      replace (2 ^ bit) with (2 * 2 ^ (bit - 1)) by (rewrite <- Z.pow_succ_r by lia; f_equal; lia). lia.
  - assert ((2 * p + d) / 10000000 = 2 * q + 0 /\ (2 * p + d) mod 10000000 = 2 * r + d) as [-> ->].
    { split; symmetry; [apply (Z.div_unique _ _ _ (2 * r + d)); lia|apply (Z.mod_unique _ _ (2 * q)); lia]. }
    cbn [remainder quotient_high quotient_low]. split; [done|]. rewrite -> Hh, Hl.
    replace ((2 * q + 0) * 2 ^ (bit - 1)) with (q * 2 ^ bit); [done|].
    replace (2 ^ bit) with (2 * 2 ^ (bit - 1)) by (rewrite <- Z.pow_succ_r by lia; f_equal; lia). lia.
Qed.

Lemma tick_rounds t n : in_u 64 t -> (n <= 64)%nat ->
  ticks_at t (64 - Z.of_nat n) (foldl (tick_step (u32 t) (u32 (Z.shiftr t 32))) (mkTicks 0 0 0) (take n (reverse (seqZ 1 64)))).
Proof.
  intros Ht. induction n as [|n IH]; intros Hn.
  { unfold in_u in Ht. unfold ticks_at. cbn [take foldl remainder quotient_high quotient_low].
    rewrite -> (Z.div_small t) by (cbn; lia). done. }
  assert (reverse (seqZ 1 64) !! n = Some (64 - Z.of_nat n)) as Hl.
  { rewrite -> reverse_lookup by (rewrite -> length_seqZ; lia). rewrite -> length_seqZ. apply lookup_seqZ. lia. }
  rewrite -> (take_S_r _ _ _ Hl), foldl_snoc. replace (64 - Z.of_nat (S n)) with (64 - Z.of_nat n - 1) by lia.
  apply tick_step_ok; [done|lia|]. apply IH. lia.
Qed.

(** C40: the clock of the kernel divides the 64-bit counter of ten million ticks
    a second exactly, in two words and without a division: whole seconds, and
    the rest in nanoseconds below a second. *)
Theorem ticks_to_time_spec t : in_u 64 t ->
  let '(seconds, nanoseconds) := ticks_to_time t in
  seconds = t / ticks_per_second /\ nanoseconds = t mod ticks_per_second * 100 /\ 0 <= nanoseconds < 10 ^ 9 /\
  seconds * 10 ^ 9 + nanoseconds = t * 100.
Proof.
  intros Ht. unfold ticks_to_time. pose proof (tick_rounds t 64 Ht ltac:(lia)) as H.
  rewrite -> take_ge in H by (rewrite -> length_reverse, length_seqZ; lia).
  destruct H as (Hr & Hh & Hl). change (2 ^ (64 - Z.of_nat 64)) with 1 in *. rewrite -> Z.div_1_r, Z.mul_1_r in *.
  rewrite -> Hr, Hh, Hl, lor_shiftl by (try lia; apply Z.mod_pos_bound; lia).
  pose proof (Z.mod_pos_bound t ticks_per_second ltac:(done)) as Hb. pose proof (Z.div_mod t ticks_per_second ltac:(done)) as Hd.
  rewrite -> wrap_small by (unfold in_u, ticks_per_second in *; lia).
  rewrite -> (Z.mul_comm (_ / 2 ^ 32)), <- Z.div_mod by lia. unfold ticks_per_second in *. lia.
Qed.

Lemma ticks_to_time_spec_witness :
  ticks_to_time 12345678901234567890 = (1234567890123, 456789000) /\
  1234567890123 * 10 ^ 9 + 456789000 = 12345678901234567890 * 100.
Proof.
  pose proof (ticks_to_time_spec 12345678901234567890 ltac:(split; lia)) as H.
  replace (ticks_to_time 12345678901234567890) with (1234567890123, 456789000) in * by (vm_compute; reflexivity).
  split; [reflexivity|apply H].
Defined.
End ProcessLaws.
