(* ===== verification/WaitCalls.v ===== *)
(** * [kernel/syscall.cpp]: the calls that wait for descriptors

    [accept], [ppoll] and [pselect6].  As in [DataCalls], a loop that waits for
    the world goes round at most [spins] times, and [None] is a call that still
    waits. *)

From S2P Require Import Prelude ByteQueue Base Filesystem Ext4 Root Signal Pipe Pty Process Ethernet Timing Interface Socket Tcp Stack TcpTable.
From S2P Require Import Abi Memory Path PseudoFs Descriptor FileCalls Context Loader PathCalls DataCalls ProcessCalls.
Local Open Scope Z_scope.

Module WaitCalls.
Import Memory Abi.Errno Descriptor FileCalls Context PathCalls DataCalls ProcessCalls.

Definition poll_input := 1.
Definition poll_output := 4.
Definition poll_error := 8.
Definition poll_invalid := 0x20.
Definition forever := 2 ^ 64 - 1.

Section kernel.
Context {Q : Type} `{!ByteQueue Q}.
Context {W : Type} {stack_machine : Machine W} {uart : Uart W}.
Context {D : Type} {device : Fs.Device D} {start : RootDevice D} {torn : TornRead D} {build : Build} {linker : LinkerScript}.
Abbreviation Kernel := (Kernel Q W (Root.RootFilesystem D)).

(** ** [accept] *)

(** The loop: what was accepted, or the value the call returns. *)
Fixpoint accept_loop (spins : nat) (k : Kernel) (listening : Descriptor) (flags_ : Z)
    : outcome (Kernel * option (Socket.AcceptResult + Z)) :=
  let '(n, accepted) := Stack.socket_accept (network (tables (files k))) (Descriptor.socket listening) in
  let k := with_files k (with_network (files k) n) in
  match Socket.accept_result accepted with
  | Socket.Result.would_block =>
      if negb (Z.land (flags listening) SocketAbi.sock_nonblock =? 0) || negb (Z.land flags_ SocketAbi.sock_nonblock =? 0)
      then Returned (k, Some (inr (Abi.error try_again))) else
      '(k, parked) ← park_socket spins k (Descriptor.socket listening);
      match parked with
      | None => Returned (k, None)
      | Some true => Returned (k, Some (inr (switched k)))
      | Some false =>
          match spins with O => Returned (k, None) | S spins => accept_loop spins (network_poll k) listening flags_ end
      end
  | _ => Returned (k, Some (inl accepted))
  end.

Definition accept (spins : nat) (k : Kernel) (descriptor address length_address flags_ : Z) : outcome (Kernel * option Z) :=
  match accept_check (files k) descriptor address length_address flags_ with
  | inr e => Returned (k, Some e)
  | inl (listening, accepted_descriptor) =>
      '(k, accepted) ← accept_loop spins k listening flags_;
      match accepted with
      | None => Returned (k, None)
      | Some (inr value) => Returned (k, Some value)
      | Some (inl accepted) =>
          let '(f, m, r) := accept_finish (files k) (memory k) accepted accepted_descriptor address length_address flags_ in
          Returned (with_files k f <| memory := m |>, Some r)
      end
  end.

(** ** Deadlines *)

(** The deadline, or the error of a bad timeout. *)
Definition deadline_of (k : Kernel) (timeout_address : Z) (time64 : bool) : Kernel * (Z + Z) :=
  if timeout_address =? 0 then (k, inl forever) else
  let m := memory k in
  if time64 then
    if negb (contains timeout_address 16) then (k, inr (Abi.error bad_address)) else
    let '(k, now) := read_ticks k in
    (k, inl (u64 (now + load_u64 m timeout_address * ticks_per_second + u32 (load_u64 m (timeout_address + 8)) / 100)))
  else
    if negb (contains timeout_address 8) then (k, inr (Abi.error bad_address)) else
    let seconds := i32 (load_u32 m timeout_address) in
    let nanoseconds := i32 (load_u32 m (timeout_address + 4)) in
    if (seconds <? 0) || (nanoseconds <? 0) then (k, inr (Abi.error invalid_argument)) else
    let '(k, now) := read_ticks k in (k, inl (u64 (now + seconds * ticks_per_second + nanoseconds / 100))).

(** [arch::time_ticks() >= deadline]. *)
Definition expired (k : Kernel) (deadline : Z) : Kernel * bool :=
  let '(k, now) := read_ticks k in (k, deadline <=? now).

(** What every round of the two loops begins with; [true] is a switch to
    another process. *)
Definition serve (k : Kernel) : outcome (Kernel * bool) :=
  '(k, resumed) ← resume_interactive_child_if_ready (network_poll k);
  if resumed : bool then Returned (k, true) else resume_background_if_ready k.

(** What they do with a descriptor that is waited for. *)
Definition park_on (spins : nat) (k : Kernel) (descriptor : Z) : outcome (Kernel * option bool) :=
  match descriptor_slot (files k) descriptor with
  | None => Returned (k, Some false)
  | Some slot =>
      if is_kind (node slot) Kind.network_socket then park_socket spins k (Descriptor.socket slot) else
      if is_kind (node slot) Kind.pty then
        '(k, parked) ← park_interactive_child k (pty slot) (pty_end slot); Returned (k, Some parked)
      else Returned (k, Some false)
  end.

(** The second loop of a round: over the descriptors that [wanted] selects. *)
Fixpoint park_pass (spins : nat) (wanted : Kernel -> Z -> option Z) (k : Kernel) (l : list Z) : outcome (Kernel * option bool) :=
  match l with
  | [] => Returned (k, Some false)
  | i :: l =>
      match wanted k i with
      | None => park_pass spins wanted k l
      | Some descriptor =>
          '(k, parked) ← park_on spins k descriptor;
          match parked with Some false => park_pass spins wanted k l | other => Returned (k, other) end
      end
  end.

(** ** [ppoll] *)

(** [Pollfd32] is eight bytes: descriptor, events, returned events. *)
Definition poll_descriptor (m : Memory) (address i : Z) : Z := i32 (load_u32 m (address + 8 * i)).
Definition poll_events (m : Memory) (address i : Z) : Z := load_u16 m (address + 8 * i + 4).

Definition returned_events (ready : bool) (f : Files Q W) (descriptor events : Z) : Z :=
  if descriptor <? 0 then 0 else
  if (16 <=? descriptor) ||
     (match descriptor_slot f descriptor with None => true | Some _ => false end && negb (descriptor =? 0) && negb (descriptor =? 1) && negb (descriptor =? 2))
  then poll_invalid else
  Z.lor (Z.lor (if negb (Z.land events poll_input =? 0) && descriptor_read_ready ready f descriptor then poll_input else 0)
               (if negb (Z.land events poll_output =? 0) && descriptor_write_ready f descriptor then poll_output else 0))
        (if descriptor_error_ready f descriptor then poll_error else 0).

Definition poll_one (address : Z) (state : Kernel * Z) (i : Z) : Kernel * Z :=
  let '(k, ready_count) := state in
  let m := memory k in
  let returned := returned_events (uart_ready (world k)) (files k) (poll_descriptor m address i) (poll_events m address i) in
  (user_store (address + 8 * i + 6) (Fs.bytes16 returned) k, if returned =? 0 then ready_count else ready_count + 1).

Definition poll_wanted (address : Z) (k : Kernel) (i : Z) : option Z :=
  let descriptor := poll_descriptor (memory k) address i in
  if (descriptor <? 0) || (16 <=? descriptor) || (Z.land (poll_events (memory k) address i) poll_input =? 0)
  then None else Some descriptor.

Fixpoint ppoll_loop (spins : nat) (k : Kernel) (address count deadline : Z) : outcome (Kernel * option Z) :=
  '(k, served) ← serve k;
  if served : bool then Returned (k, Some (switched k)) else
  let '(k, ready_count) := foldl (poll_one address) (k, 0) (seqZ 0 count) in
  let '(k, late) := if ready_count =? 0 then expired k deadline else (k, true) in
  if late : bool then Returned (k, Some ready_count) else
  '(k, parked) ← park_pass spins (poll_wanted address) k (seqZ 0 count);
  match parked with
  | None => Returned (k, None)
  | Some true => Returned (k, Some (switched k))
  | Some false => match spins with O => Returned (k, None) | S spins => ppoll_loop spins k address count deadline end
  end.

Definition ppoll (spins : nat) (k : Kernel) (address count timeout_address : Z) (time64 : bool) : outcome (Kernel * option Z) :=
  if (16 <? count) || negb (contains address (count * 8)) then Returned (k, Some (Abi.error bad_address)) else
  match deadline_of k timeout_address time64 with
  | (k, inr e) => Returned (k, Some e)
  | (k, inl deadline) => ppoll_loop spins k address count deadline
  end.

(** ** [pselect6] *)

Definition bit_of (descriptor : Z) : Z := Z.shiftl 1 descriptor.

(** The three sets and the count; [requested] are the three sets asked for. *)
Definition select_one (ready : bool) (f : Files Q W) (requested : Z * Z * Z) (state : Z * Z * Z * Z) (descriptor : Z) : Z * Z * Z * Z :=
  let '(read_, write_, error_) := requested in
  let '(ready_read, ready_write, ready_error, ready_count) := state in
  let bit := bit_of descriptor in
  let r := negb (Z.land read_ bit =? 0) && descriptor_read_ready ready f descriptor in
  let w := negb (Z.land write_ bit =? 0) && descriptor_write_ready f descriptor in
  let e := negb (Z.land error_ bit =? 0) && descriptor_error_ready f descriptor in
  (if r then Z.lor ready_read bit else ready_read, if w then Z.lor ready_write bit else ready_write,
   if e then Z.lor ready_error bit else ready_error, if r || w || e then ready_count + 1 else ready_count).

Definition select_pass (ready : bool) (f : Files Q W) (requested : Z * Z * Z) (count : Z) : Z * Z * Z * Z :=
  foldl (select_one ready f requested) (0, 0, 0, 0) (seqZ 0 count).

Definition select_wanted (requested_read : Z) (_ : Kernel) (descriptor : Z) : option Z :=
  if Z.land requested_read (bit_of descriptor) =? 0 then None else Some descriptor.

Definition store_set (address value : Z) (k : Kernel) : Kernel :=
  if address =? 0 then k else k <| memory ::= store_u32 address value |>.

Fixpoint pselect_loop (spins : nat) (k : Kernel) (count : Z) (addresses requested : Z * Z * Z) (deadline : Z)
    : outcome (Kernel * option Z) :=
  '(k, served) ← serve k;
  if served : bool then Returned (k, Some (switched k)) else
  let '(ready_read, ready_write, ready_error, ready_count) := select_pass (uart_ready (world k)) (files k) requested count in
  let '(k, late) := if ready_count =? 0 then expired k deadline else (k, true) in
  if late : bool then
    let '(read_address, write_address, error_address) := addresses in
    Returned (store_set error_address ready_error (store_set write_address ready_write (store_set read_address ready_read k)),
              Some ready_count)
  else
  '(k, parked) ← park_pass spins (select_wanted requested.1.1) k (seqZ 0 count);
  match parked with
  | None => Returned (k, None)
  | Some true => Returned (k, Some (switched k))
  | Some false => match spins with O => Returned (k, None) | S spins => pselect_loop spins k count addresses requested deadline end
  end.

Definition requested_set (m : Memory) (address : Z) : Z := if address =? 0 then 0 else load_u32 m address.

Definition pselect6 (spins : nat) (k : Kernel) (count read_address write_address error_address timeout_address : Z) (time64 : bool)
    : outcome (Kernel * option Z) :=
  if 16 <? count then Returned (k, Some (Abi.error invalid_argument)) else
  if existsb (fun address => negb (address =? 0) && negb (contains address 4)) [read_address; write_address; error_address]
  then Returned (k, Some (Abi.error bad_address)) else
  let requested := (requested_set (memory k) read_address, requested_set (memory k) write_address, requested_set (memory k) error_address) in
  match deadline_of k timeout_address time64 with
  | (k, inr e) => Returned (k, Some e)
  | (k, inl deadline) => pselect_loop spins k count (read_address, write_address, error_address) requested deadline
  end.
End kernel.
End WaitCalls.
