(* ===== verification/Dispatch.v ===== *)
(** * [dispatch_syscall] and [trap_handler]

    Which call a trap makes, what becomes of its result, and the atomic
    instructions that the kernel carries out for a core without them.  The
    state is the one of [Context] with the static variables of the two files
    and the scheduler. *)

From stdpp Require Import strings.
From S2P Require Import Prelude ByteQueue Base Filesystem Ext4 Root Signal Pipe Pty Process Ethernet Timing Interface Socket Tcp Stack TcpTable.
From S2P Require Import Abi Memory Runtime Path PseudoFs Descriptor FileCalls Context SignalCalls Loader PathCalls DataCalls ProcessCalls WaitCalls.
Local Open Scope Z_scope.

(** Whether the kernel is built for the Tribe board. *)
Class Board := tribe : bool.

(** ** [include/mikos/scheduler.hpp] *)
Module Scheduler.
Record Scheduler := mkScheduler {
  next_entry : Z; next_stack : Z; timer_traps : Z; user_preemptions : Z; contract_violations : Z; start_pending : bool;
}.
#[global] Instance scheduler_eta : Eta Scheduler := fun s =>
  mkScheduler (next_entry s) (next_stack s) (timer_traps s) (user_preemptions s) (contract_violations s) (start_pending s).
Definition initial : Scheduler := mkScheduler 0 0 0 0 0 false.

Definition start_next_on_timer (entry stack : Z) (s : Scheduler) : Scheduler :=
  s <| next_entry := entry |> <| next_stack := stack |> <| start_pending := true |>.

Definition mstatus_mpp := Z.shiftl 3 11.

Definition on_timer (s : Scheduler) (frame : Abi.TrapFrame) (kernel_mie_clear : bool) : Scheduler * Abi.TrapFrame :=
  let s := s <| timer_traps ::= fun n => u32 (n + 1) |> in
  if negb kernel_mie_clear || negb (Z.land (Abi.mstatus frame) mstatus_mpp =? 0)
  then (s <| contract_violations ::= fun n => u32 (n + 1) |>, frame) else
  let s := s <| user_preemptions ::= fun n => u32 (n + 1) |> in
  if negb (start_pending s) then (s, frame) else
  (s <| start_pending := false |>,
   Abi.set_reg 2 (next_stack s) (frame <| Abi.x := replicate 32 0 |>) <| Abi.mepc := next_entry s |>).
End Scheduler.

Module Dispatch.
Import Memory Abi.Errno Descriptor FileCalls Context PathCalls DataCalls ProcessCalls WaitCalls.

(** ** Atomic instructions *)

Definition amo_opcode := 0x2f.
(** Where the fields of an instruction are. *)
Definition opcode (i : Z) : Z := Z.land i 0x7f.
Definition function3 (i : Z) : Z := Z.land (Z.shiftr i 12) 7.
Definition destination (i : Z) : nat := Z.to_nat (Z.land (Z.shiftr i 7) 31).
Definition source1 (i : Z) : nat := Z.to_nat (Z.land (Z.shiftr i 15) 31).
Definition source2 (i : Z) : nat := Z.to_nat (Z.land (Z.shiftr i 20) 31).
Definition operation (i : Z) : Z := Z.shiftr i 27.

(** What the operations that always write put into memory. *)
Definition amo_result (operation old value : Z) : option Z :=
  match operation with
  | 0x00 => Some (u32 (old + value))
  | 0x01 => Some value
  | 0x04 => Some (Z.lxor old value)
  | 0x08 => Some (Z.lor old value)
  | 0x0c => Some (Z.land old value)
  | 0x10 => Some (if i32 old <? i32 value then old else value)
  | 0x14 => Some (if i32 value <? i32 old then old else value)
  | 0x18 => Some (if old <? value then old else value)
  | 0x1c => Some (if value <? old then old else value)
  | _ => None
  end.

(** The address of the reservation, when there is one; the registers, the memory
    and the result for the destination. *)
Record Atomic := mkAtomic { atomic_memory : Memory; atomic_reservation : option Z; atomic_result : Z }.

Definition atomic (operation address value : Z) (reservation_ : option Z) (m : Memory) : option Atomic :=
  let old := load_u32 m address in
  if operation =? 0x02 then Some (mkAtomic m (Some address) old) else
  if operation =? 0x03 then
    if bool_decide (reservation_ = Some address)
    then Some (mkAtomic (store_u32 address value m) None 0) else Some (mkAtomic m None 1)
  else (fun result => mkAtomic (store_u32 address result m) None old) <$> amo_result operation old value.

Section kernel.
Context {Q : Type} `{!ByteQueue Q}.
Context {W : Type} {stack_machine : Machine W} {uart : Uart W}.
Context {D : Type} {device : Fs.Device D} {start : RootDevice D} {torn : TornRead D}.
Context {build : Build} {linker : LinkerScript} {cores : Multicore} {board : Board}.
Abbreviation Kernel := (Kernel Q W (Root.RootFilesystem D)).

(** The kernel with the state of [getrandom], the reservation and the scheduler. *)
Record System := mkSystem { kernel : Kernel; random_state : Z; reservation : option Z; scheduler : Scheduler.Scheduler }.
#[global] Instance system_eta : Eta System := fun s =>
  mkSystem (kernel s) (random_state s) (reservation s) (scheduler s).

(** ** [start_stress_ng] and the end of the first program *)

Definition stress_ng : list Z := PseudoFs.text "/bin/stress-ng".
Definition stress_arguments : list (list Z) :=
  PseudoFs.text <$> ["stress-ng"; "--cpu"; "1"; "--cpu-method"; "loop"; "--cpu-ops"; "4"; "--verify"; "--metrics-brief"]%string.

Definition start_stress_ng (k : Kernel) : outcome Kernel :=
  '(k, started) ← Loader.replace_with_executable k stress_ng stress_arguments [];
  if started : bool then Returned k else Shutdown 6.

(** [exit] and [exit_group]. *)
Definition exit (k : Kernel) (status_ : Z) : outcome (Kernel * Z) :=
  if active (parent k) then exit_child k status_ else
  if Abi.image (process k) =? 0 then
    if negb (status_ =? 0) then Shutdown status_ else
    if tribe then Shutdown 0 else
    k ← start_stress_ng k; Returned (k, 0)
  else Shutdown status_.

(** ** Calls that [dispatch_syscall] carries out itself *)

Definition getrusage (k : Kernel) (address : Z) : Kernel * Z :=
  if negb (contains address 72) then (k, Abi.error bad_address) else (user_store address (replicate 72 0) k, 0).

Definition sched_getaffinity (k : Kernel) (size address : Z) : Kernel * Z :=
  if (size =? 0) || negb (contains address size) then (k, Abi.error bad_address)
  else (k <| memory ::= fun m => store address [1] (Runtime.memset address 0 size m) |>, 4).

(** [user_string_is(a1, "") && a0 >= 3 && a0 < 16]. *)
Definition descriptor_path (k : Kernel) (descriptor path_ : Z) : bool :=
  user_string_is (memory k) path_ [] && (3 <=? descriptor) && (descriptor <? 16).

Definition statx (k : Kernel) (descriptor path_ address : Z) : Kernel * Z :=
  if descriptor_path k descriptor path_ then
    if FileCalls.is_none (at_slot (files k) descriptor) then (k, Abi.error bad_file_descriptor)
    else write_statx k (node (at_slot (files k) descriptor)) address
  else let '(k, n, _) := path_node_at k descriptor path_ in write_statx k n address.

Definition fstatat64 (k : Kernel) (descriptor path_ address : Z) : Kernel * Z :=
  let '(k, n) := if descriptor_path k descriptor path_ then (k, node (at_slot (files k) descriptor))
                 else let '(k, n, _) := path_node_at k descriptor path_ in (k, n) in
  if is_kind n Kind.none then (k, Abi.error no_entry) else write_stat k n address.

(** [unknown], without its message. *)
Definition unknown : Z := Abi.error no_syscall.

(** ** [dispatch_syscall] *)

Definition on_files (k : Kernel) (r : Files Q W * Z) : Kernel * Z := (with_files k r.1, r.2).
Definition on_memory (k : Kernel) (r : Memory * Z) : Kernel * Z := (k <| memory := r.1 |>, r.2).

(** The calls that return at once and leave the registers to the trap handler. *)
Definition dispatch_plain (c : Abi.Syscall.syscall) (k : Kernel) (a0 a1 a2 a3 a4 : Z) : option (Kernel * Z) :=
  let f := files k in
  let value z := Some (k, z) in
  match c with
  | Abi.Syscall.getcwd => Some (getcwd k a0 a1)
  | Abi.Syscall.dup3 => Some (on_files k (duplicate_to f a0 a1 a2))
  | Abi.Syscall.fcntl => Some (on_files k (fcntl f a0 a1 a2))
  | Abi.Syscall.mkdirat => Some (mkdirat k a0 a1 a2)
  | Abi.Syscall.unlinkat => Some (unlinkat k a0 a1 a2)
  | Abi.Syscall.renameat => Some (renameat k a0 a1 a2 a3)
  | Abi.Syscall.renameat2 => if a4 =? 0 then Some (renameat k a0 a1 a2 a3) else value (Abi.error invalid_argument)
  | Abi.Syscall.truncate => Some (truncate_path k a0 a1)
  | Abi.Syscall.ftruncate => Some (ftruncate k a0 a1)
  | Abi.Syscall.write => Some (write k a0 a1 a2)
  | Abi.Syscall.writev => Some (writev k a0 a1 a2)
  | Abi.Syscall.sync => Some (sync k)
  | Abi.Syscall.fsync | Abi.Syscall.fdatasync => Some (fsync k a0)
  | Abi.Syscall.chdir => Some (chdir k a0)
  | Abi.Syscall.faccessat => Some (faccessat k a0 a1)
  | Abi.Syscall.fchmodat => Some (fchmodat k a0 a1 a2)
  | Abi.Syscall.openat => Some (openat k a0 a1 a2)
  | Abi.Syscall.close => Some (on_files k (close f a0))
  | Abi.Syscall.pipe2 => let '(f, m, r) := pipe2 f (memory k) a0 a1 in Some (with_files k f <| memory := m |>, r)
  | Abi.Syscall.getdents64 => Some (getdents64 k a0 a1 a2)
  | Abi.Syscall.lseek => Some (on_files k (lseek f a0 a1))
  | Abi.Syscall.waitid => Some (waitid k a0 a1 a2 a3)
  | Abi.Syscall.set_tid_address => Some (k <| tid_address := a0 |>, i32 (Abi.pid (process k)))
  | Abi.Syscall.futex | Abi.Syscall.futex_time64 => value (futex k a0 a1 a2)
  | Abi.Syscall.set_robust_list => value 0
  | Abi.Syscall.rseq => value (Abi.error no_syscall)
  | Abi.Syscall.getpid | Abi.Syscall.gettid => value (i32 (Abi.pid (process k)))
  | Abi.Syscall.getppid => value (i32 (Abi.parent_pid (process k)))
  | Abi.Syscall.getuid | Abi.Syscall.geteuid | Abi.Syscall.getgid | Abi.Syscall.getegid => value 0
  | Abi.Syscall.brk => Some (brk k a0)
  | Abi.Syscall.clone => Some (clone k a0 a1 a4)
  | Abi.Syscall.wait4 => Some (wait4 k a0 a1)
  | Abi.Syscall.mmap2 => Some (mmap k a0 a1 a3)
  | Abi.Syscall.munmap | Abi.Syscall.mprotect => value (protect_or_unmap a0 a1)
  | Abi.Syscall.riscv_hwprobe => value (Abi.error no_syscall)
  | Abi.Syscall.statx => Some (statx k a0 a1 a4)
  | Abi.Syscall.clock_gettime32 => Some (clock_gettime k a1 false)
  | Abi.Syscall.clock_gettime64 => Some (clock_gettime k a1 true)
  | Abi.Syscall.clock_nanosleep64 | Abi.Syscall.prctl => value (if interactive then 0 else unknown)
  | Abi.Syscall.gettimeofday => Some (gettimeofday k a0)
  | Abi.Syscall.uname => Some (uname k a0)
  | Abi.Syscall.umask => Some (umask k a0)
  | Abi.Syscall.getcpu => Some (getcpu k a0 a1)
  | Abi.Syscall.sysinfo => Some (sysinfo k a0)
  | Abi.Syscall.socket => Some (on_files k (socket f a0 a1 a2))
  | Abi.Syscall.bind => Some (on_files k (bind f (memory k) a0 a1 a2))
  | Abi.Syscall.listen => Some (on_files k (listen f a0 a1))
  | Abi.Syscall.getsockname => Some (on_memory k (socket_name f (memory k) a0 a1 a2 false))
  | Abi.Syscall.getpeername => Some (on_memory k (socket_name f (memory k) a0 a1 a2 true))
  | Abi.Syscall.setsockopt => value (setsockopt f a0 a3 a4)
  | Abi.Syscall.shutdown => Some (on_files k (shutdown_socket f a0 a1))
  | Abi.Syscall.getrusage => Some (getrusage k a1)
  | Abi.Syscall.sched_getaffinity => Some (sched_getaffinity k a1 a2)
  | Abi.Syscall.prlimit64 => Some (prlimit k a3)
  | Abi.Syscall.ioctl => Some (ioctl k a0 a1 a2)
  | Abi.Syscall.rt_sigaction => Some (SignalCalls.rt_sigaction k a0 a1 a2 a3)
  | Abi.Syscall.rt_sigprocmask => Some (SignalCalls.rt_sigprocmask k a0 a1 a2 a3)
  | Abi.Syscall.sigaltstack => value 0
  | Abi.Syscall.kill => Some (SignalCalls.send_signal k a0 a1)
  | Abi.Syscall.tgkill => if a0 =? Abi.pid (process k) then Some (SignalCalls.send_signal k a1 a2) else value (Abi.error no_entry)
  | Abi.Syscall.rt_sigreturn => Some (SignalCalls.rt_sigreturn k)
  | Abi.Syscall.setpgid => Some (setpgid k a0 a1)
  | Abi.Syscall.getpgid => value (getpgid k a0 false)
  | Abi.Syscall.getsid => value (getpgid k a0 true)
  | Abi.Syscall.setsid => Some (setsid k)
  | Abi.Syscall.statfs64 => value unknown
  | Abi.Syscall.readlinkat => Some (readlinkat k a0 a1 a2 a3)
  | Abi.Syscall.fstatat64 => Some (fstatat64 k a0 a1 a2)
  | Abi.Syscall.fstat64 => Some (fstat64 k a0 a1)
  | _ => None
  end.

(** The calls that may wait, switch to another process or end the machine. *)
Definition dispatch_waiting (spins : nat) (c : Abi.Syscall.syscall) (k : Kernel) (a0 a1 a2 a3 a4 : Z) : outcome (Kernel * option Z) :=
  let finish (o : outcome (Kernel * Z)) := '(k, r) ← o; Returned (k, Some r) in
  match c with
  | Abi.Syscall.pselect6 => if interactive then pselect6 spins k a0 a1 a2 a3 a4 false else Returned (k, Some unknown)
  | Abi.Syscall.pselect6_time64 => if interactive then pselect6 spins k a0 a1 a2 a3 a4 true else Returned (k, Some unknown)
  | Abi.Syscall.ppoll => if interactive then ppoll spins k a0 a1 a2 false else Returned (k, Some unknown)
  | Abi.Syscall.ppoll64 => if interactive then ppoll spins k a0 a1 a2 true else Returned (k, Some unknown)
  | Abi.Syscall.read => read spins k a0 a1 a2
  | Abi.Syscall.accept => accept spins k a0 a1 a2 0
  | Abi.Syscall.accept4 => accept spins k a0 a1 a2 a3
  | Abi.Syscall.exit | Abi.Syscall.exit_group => finish (exit k a0)
  | Abi.Syscall.execve => finish (execve k a0 a1 a2)
  | _ => Returned (k, Some unknown)
  end.

Definition dispatch_syscall (spins : nat) (s : System) : outcome (System * option Z) :=
  let k := kernel s in
  let frame := trap_frame k in
  let a0 := Abi.reg frame 10 in let a1 := Abi.reg frame 11 in let a2 := Abi.reg frame 12 in
  let a3 := Abi.reg frame 13 in let a4 := Abi.reg frame 14 in
  match Abi.syscall_of (Abi.reg frame 17) with
  | None => Returned (s, Some unknown)
  | Some Abi.Syscall.getrandom =>
      let '(k, state, r) := getrandom k (random_state s) a0 a1 in
      Returned (s <| kernel := k |> <| random_state := state |>, Some r)
  | Some c =>
      match dispatch_plain c k a0 a1 a2 a3 a4 with
      | Some (k, r) => Returned (s <| kernel := k |>, Some r)
      | None => '(k, r) ← dispatch_waiting spins c k a0 a1 a2 a3 a4; Returned (s <| kernel := k |>, r)
      end
  end.

(** ** [trap_handler] *)

Definition user_ecall := 8.
Definition illegal_instruction := 2.
Definition scheduler_timer_cause := 0x80000007.
Definition tribe_user_timer_cause := 0x80000005.

(** The atomic instruction that trapped, when the kernel handles it. *)
Definition emulate_atomic (s : System) : option System :=
  let k := kernel s in
  let frame := trap_frame k in
  let i := Abi.mtval frame in
  if negb ((opcode i =? amo_opcode) && (function3 i =? 2)) then None else
  let address := Abi.reg frame (source1 i) in
  if negb (contains address 4 && aligned address 4) then None else
  a ← atomic (operation i) address (Abi.reg frame (source2 i)) (reservation s) (memory k);
  let frame := if Nat.eqb (destination i) 0 then frame else Abi.set_reg (destination i) (atomic_result a) frame in
  Some (s <| kernel := k <| memory := atomic_memory a |> <| trap_frame := frame <| Abi.mepc ::= fun pc => u32 (pc + 4) |> |> |>
          <| reservation := atomic_reservation a |>).

(** After the call: the result, the next instruction unless another context is
    in the frame, and a signal. *)
Definition finish_syscall (s : System) (r : Z) : outcome System :=
  let k := kernel s <| trap_frame ::= Abi.set_reg 10 (u32 r) |> in
  let k := if Abi.image_replaced (process k)
           then k <| process ::= fun p => p <| Abi.image_replaced := false |> |>
           else k <| trap_frame ::= fun f => f <| Abi.mepc ::= fun pc => u32 (pc + 4) |> |> in
  k ← SignalCalls.deliver_pending_signal k; Returned (s <| kernel := k |>).

(** [kernel_mie_clear] is what [on_timer] is told about [mstatus]; [false] in the
    result is a call that still waits. *)
Definition trap_handler (spins : nat) (kernel_mie_clear : bool) (s : System) : outcome (System * bool) :=
  let s := if interactive then s <| kernel ::= network_poll |> else s in
  let frame := trap_frame (kernel s) in
  match (if tribe && (Abi.mcause frame =? illegal_instruction) then emulate_atomic s else None) with
  | Some s => Returned (s, true)
  | None =>
      if (Abi.mcause frame =? scheduler_timer_cause) || (interactive && (Abi.mcause frame =? tribe_user_timer_cause)) then
        if interactive then Returned (s, true) else
        let '(sched, frame) := Scheduler.on_timer (scheduler s) frame kernel_mie_clear in
        Returned (s <| scheduler := sched |> <| kernel ::= fun k => k <| trap_frame := frame |> |>, true)
      else if Abi.mcause frame =? user_ecall then
        '(s, r) ← dispatch_syscall spins s;
        match r with
        | None => Returned (s, false)
        | Some r => s ← finish_syscall s r; Returned (s, true)
        end
      else Shutdown 127
  end.
End kernel.
#[global] Arguments System Q W D : clear implicits.
End Dispatch.
