(* ===== verification/Examples.v ===== *)
(** * A concrete kernel

    A machine with a terminal that keeps what is typed and printed, and a kernel
    on it that runs one program, with the small ext4 volume of [LoaderLaws] as
    its root file system.  The witnesses of the theorems on system calls run on
    it. *)

From stdpp Require Import strings.
From S2P Require Import Prelude ByteQueue RingBuffer Base Filesystem Ext4 Ext4Image Root Signal Pipe Pty SnapshotArena Process Ethernet Timing Socket Stack StackSend.
From S2P Require Import Abi Memory PseudoFs Descriptor FileCalls DescriptorCounts Context ContextSpec Loader LoaderLaws PathCalls DataCalls.
Local Open Scope Z_scope.

Module Examples.
Import Memory Context.

Record Console := mkConsole { board : StackSend.Logger; printed : list Z; typed : list Z }.
#[export] Instance console_machine : Machine Console := {|
  nic_initialize w := (w, true);
  nic_mac_address w := Ethernet.mkMac [2; 0; 0; 0; 0; 2];
  nic_receive w := (w, None);
  nic_transmit w frame := (w, true);
  time_ticks w := let '(b, t) := @time_ticks _ StackSend.logger (board w) in (mkConsole b (printed w) (typed w), t);
  write_text w text := mkConsole (board w) (printed w ++ text) (typed w);
|}.
#[export] Instance console_uart : Uart Console := {|
  uart_ready w := match typed w with [] => false | _ => true end;
  uart_receive w := match typed w with
                    | [] => (w, None)
                    | c :: rest => (mkConsole (board w) (printed w) rest, Some c)
                    end;
  put w c := mkConsole (board w) (printed w ++ [c]) (typed w);
|}.
#[export] Instance ring_queue : ByteQueue RingBuffer.Ring.RingBuffer := RingBuffer.Ring.ring_queue 4096.
#[export] Instance ring_laws : ByteQueueLaws RingBuffer.Ring.RingBuffer 4096.
Proof. apply RingBuffer.Ring.ring_queue_laws. lia. Defined.
#[export] Instance start_device : RootDevice (list Z) := fun d => (d, true).
#[export] Instance torn_nothing : TornRead (list Z) := fun _ _ _ _ => [].
#[export] Instance plain_build : Build := mkBuild false (0, 0) (0, 0).
#[export] Instance arena_begin : LinkerScript := 0x80800000.
#[export] Instance single_core : Multicore := false.

Definition root_file_system : Root.RootFilesystem (list Z) := LoaderLaws.mounted_root LoaderLaws.example_volume.

Abbreviation Kernel := (Kernel RingBuffer.Ring.RingBuffer Console (Root.RootFilesystem (list Z))).

Definition machine_start : Console := mkConsole (StackSend.mkLogger 1000 []) [] (PseudoFs.text "ls").
Definition program : Abi.Process :=
  Abi.mkProcess 0x81010010 0x81800000 0x81800000 0x81010000 0 0 1 0 1 1 [47] (PseudoFs.text "/bin/sh") false.
Definition frame_of (number a0 a1 a2 : Z) : Abi.TrapFrame :=
  Abi.set_reg 17 number (Abi.set_reg 12 a2 (Abi.set_reg 11 a1 (Abi.set_reg 10 a0 (Abi.set_reg 2 0x81ffeff0 Abi.frame_default))))
    <| Abi.mepc := 0x81000100 |> <| Abi.mcause := 8 |>.

(** The program's memory holds [m]; it makes the call in [frame]. *)
Definition kernel (frame_ : Abi.TrapFrame) (m : Memory) : Kernel :=
  mkKernel m root_file_system program frame_ suspended_default (replicate 32 suspended_default) 0
    (replicate 32 waitable_default) 18 0 Signal.initial signal_frame_default (SnapshotArena.initial arena_extents) false
    background_default interactive_default suspended_default 0 2
    (DescriptorCounts.initial (Stack.boot machine_start)).
End Examples.
