(* ===== verification/DataLaws.v ===== *)
(** * What the data calls promise

    [writev] is [write] of the concatenation of its buffers; a file opened on a
    pseudo-terminal gives back the settings that were stored into it. *)

From stdpp Require Import strings.
From S2P Require Import Prelude ByteQueue Base Filesystem Ext4 Root Signal Pipe Pty Process Ethernet Timing Interface Socket Tcp Stack TcpTable.
From S2P Require Import Abi Memory Path PseudoFs Descriptor FileCalls Context SignalCalls Loader PathCalls DataCalls Examples.
Local Open Scope Z_scope.

(** What has gone into a place that data is written to. *)
Class Sink (S : Type) := {
  wrote : S -> list Z -> S -> Prop;
  wrote_nil s : wrote s [] s;
  wrote_app s d s' d' s'' : wrote s d s' -> wrote s' d' s'' -> wrote s (d ++ d') s'';
}.

Module DataLaws.
Import Memory FileCalls Context PathCalls DataCalls.

Lemma store_bytes_ok address l m : bytes_ok l -> (forall a, in_u 8 (m a)) -> forall a, in_u 8 (store address l m a).
Proof.
  intros Hl Hm a. unfold store. case_decide as Hd; [|done].
  destruct (lookup_lt_is_Some_2 l (Z.to_nat (a - address))) as [b Hb]; [lia|].
  rewrite -> (list_lookup_total_correct _ _ _ Hb). exact (proj1 (Forall_forall _ _) Hl b (list_elem_of_lookup_2 _ _ _ Hb)).
Qed.

(** A number that fits 32 bits with a sign is itself. *)
Lemma i32_small z : - 2 ^ 31 <= z < 2 ^ 31 -> i32 z = z.
Proof. intros H. unfold i32. rewrite -> Z.mod_small by lia. lia. Qed.

Section scatter.
Context {S : Type} {sink : Sink S}.
Context (m : Memory) (write : S -> Z -> Z -> S * Z) (invalid_argument_ : Z) (ready : S -> Prop).

(** A writer that is ready writes a beginning of its buffer or fails without
    writing, and is ready again. *)
Definition writer_ok : Prop := forall s base size, ready s -> 0 <= size -> let '(s', r) := write s base size in
  ready s' /\ ((r < 0 /\ wrote s [] s') \/ (0 <= r <= size /\ wrote s (take (Z.to_nat r) (load m base (Z.to_nat size))) s')).

Definition gather (vectors : list Iovec32) : list Z :=
  concat ((fun v => load m (iov_base v) (Z.to_nat (iov_size v))) <$> vectors).
Definition total_size (vectors : list Iovec32) : Z := foldr (fun v n => iov_size v + n) 0 vectors.
Definition vectors_ok (vectors : list Iovec32) : Prop := Forall (fun v => 0 <= iov_size v) vectors.

#[local] Arguments total_size : simpl never.
Lemma total_cons v l : total_size (v :: l) = iov_size v + total_size l.
Proof. done. Qed.
Lemma total_size_nonneg vectors : vectors_ok vectors -> 0 <= total_size vectors.
Proof. induction 1; [done|]. rewrite -> total_cons. lia. Qed.
Lemma gather_cons v l : gather (v :: l) = load m (iov_base v) (Z.to_nat (iov_size v)) ++ gather l.
Proof. done. Qed.

Lemma length_gather vectors : vectors_ok vectors -> Z.of_nat (length (gather vectors)) = total_size vectors.
Proof.
  induction 1 as [|v l Hv Hl IH]; [done|]. rewrite -> gather_cons, total_cons.
  rewrite -> length_app, length_load, Nat2Z.inj_add, IH, Z2Nat.id by done. done.
Qed.

Lemma requested_size_spec vectors requested : vectors_ok vectors -> 0 <= requested <= 0x7fffffff ->
  requested_size vectors requested =
    if decide (requested + total_size vectors <= 0x7fffffff) then Some (requested + total_size vectors) else None.
Proof.
  intros Hv. revert requested. induction Hv as [|v l Hv Hl IH]; intros requested Hr; cbn [requested_size].
  { change (total_size []) with 0. rewrite -> decide_True by lia. f_equal. lia. }
  rewrite -> total_cons.
  pose proof (total_size_nonneg l Hl) as Ht. destruct (Z.ltb_spec (0x7fffffff - requested) (iov_size v)).
  - rewrite -> decide_False by lia. done.
  - rewrite -> IH by lia. rewrite -> (Z.add_assoc requested). done.
Qed.

Lemma scatter_loop_spec vectors total s : writer_ok -> ready s -> vectors_ok vectors ->
  0 <= total -> total + total_size vectors <= 0x7fffffff ->
  let '(s', r) := scatter_loop write invalid_argument_ vectors total s in
  (r < 0 /\ total = 0 /\ wrote s [] s') \/
  (total <= r <= total + total_size vectors /\ wrote s (take (Z.to_nat (r - total)) (gather vectors)) s').
Proof.
  intros Hw Hready Hv. revert total s Hready. induction Hv as [|v l Hv Hl IH]; intros total s Hready H0 Ht; cbn [scatter_loop]; [|rewrite -> total_cons in *].
  { right. change (total_size []) with 0 in *. rewrite -> i32_small by lia. split; [lia|]. rewrite -> Z.sub_diag. apply wrote_nil. }
  pose proof (total_size_nonneg l Hl) as Hn. destruct (Z.eqb_spec (iov_size v) 0) as [Hz|Hz].
  { rewrite -> gather_cons, Hz in *. apply IH; [done|lia|lia]. }
  pose proof (Hw s (iov_base v) (iov_size v) Hready Hv) as Hone. destruct (write s (iov_base v) (iov_size v)) as [s1 r].
  destruct Hone as [Hready1 [[Hr Hs]|[Hr Hs]]].
  { rewrite -> (proj2 (Z.ltb_lt _ _)) by lia. destruct (Z.eqb_spec total 0) as [->|Hp].
    - left. split; [lia|]. by split.
    - right. rewrite -> i32_small by lia. split; [lia|]. rewrite -> Z.sub_diag. done. }
  rewrite -> (proj2 (Z.ltb_ge r 0)), (proj2 (Z.ltb_ge (iov_size v) r)) by lia.
  rewrite -> (wrap_small 32 (total + r)) by (unfold in_u; lia).
  rewrite -> gather_cons.
  assert (forall n, (n <= Z.to_nat (iov_size v))%nat -> take n (load m (iov_base v) (Z.to_nat (iov_size v)) ++ gather l) =
            take n (load m (iov_base v) (Z.to_nat (iov_size v)))) as Hpre
    by (intros n Hle; apply take_app_le; by rewrite -> length_load).
  destruct (Z.ltb_spec r (iov_size v)) as [Hlt|Hge].
  { right. rewrite -> i32_small by lia. split; [lia|].
    replace (total + r - total) with r by lia. rewrite -> Hpre by lia. done. }
  assert (r = iov_size v) as -> by lia. specialize (IH (total + iov_size v) s1 Hready1 ltac:(lia) ltac:(lia)).
  destruct (scatter_loop write invalid_argument_ l (total + iov_size v) s1) as [s2 r2].
  destruct IH as [(_ & Habs & _)|[Hr2 Hs2]]; [lia|]. right. split; [lia|].
  replace (Z.to_nat (r2 - total)) with (Z.to_nat (iov_size v) + Z.to_nat (r2 - (total + iov_size v)))%nat by lia.
  rewrite <- (length_load m (iov_base v) (Z.to_nat (iov_size v))) at 1. rewrite -> take_app_add.
  rewrite -> take_ge in Hs by (rewrite -> length_load; lia). eapply wrote_app; [exact Hs|exact Hs2].
Qed.

(** A writer that takes every buffer whole. *)
Lemma scatter_loop_all vectors total s : writer_ok -> ready s -> vectors_ok vectors ->
  Forall (fun v => forall s, ready s -> (write s (iov_base v) (iov_size v)).2 = iov_size v) vectors ->
  0 <= total -> total + total_size vectors <= 0x7fffffff ->
  (scatter_loop write invalid_argument_ vectors total s).2 = total + total_size vectors.
Proof.
  intros Hw Hready Hv. revert total s Hready. induction Hv as [|v l Hv Hl IH]; intros total s Hready Hall H0 Ht; cbn [scatter_loop].
  { change (total_size []) with 0 in *. cbn [snd]. rewrite -> i32_small by lia. lia. }
  rewrite -> total_cons in *. pose proof (total_size_nonneg l Hl) as Hn. apply Forall_cons in Hall as [Hone Hall].
  destruct (Z.eqb_spec (iov_size v) 0) as [Hz|Hz]; [rewrite -> IH by (done || lia); lia|].
  pose proof (Hw s (iov_base v) (iov_size v) Hready Hv) as Hok. specialize (Hone s Hready).
  destruct (write s (iov_base v) (iov_size v)) as [s1 r]. cbn in Hone. subst r. destruct Hok as [Hready1 _].
  rewrite -> (proj2 (Z.ltb_ge _ 0)), Z.ltb_irrefl by lia. rewrite -> wrap_small by (unfold in_u; lia).
  rewrite -> IH by (done || lia). lia.
Qed.

Lemma scatter_write_ok vectors s : writer_ok -> ready s -> vectors_ok vectors -> total_size vectors <= 0x7fffffff ->
  let '(s', r) := scatter_write write invalid_argument_ vectors s in
  ((r < 0 /\ wrote s [] s') \/ (0 <= r <= total_size vectors /\ wrote s (take (Z.to_nat r) (gather vectors)) s')) /\
  (Forall (fun v => forall s, ready s -> (write s (iov_base v) (iov_size v)).2 = iov_size v) vectors -> r = total_size vectors).
Proof.
  intros Hw Hs Hv Ht. unfold scatter_write. rewrite -> requested_size_spec, decide_True by (done || lia).
  pose proof (scatter_loop_spec vectors 0 s Hw Hs Hv ltac:(lia) ltac:(lia)) as L.
  pose proof (scatter_loop_all vectors 0 s Hw Hs Hv) as A.
  destruct (scatter_loop write invalid_argument_ vectors 0 s) as [s' r]. split; [|intros Hall; apply A; [done|lia|lia]].
  destruct L as [(? & _ & ?)|[? L]]; [by left|right]. rewrite -> Z.sub_0_r in L. split; [lia|done].
Qed.
End scatter.

Section kernel.
Context {Q : Type} `{!ByteQueue Q}.
Context {W : Type} {stack_machine : Machine W} {uart : Uart W}.
Context {D : Type} {device : Fs.Device D} {start : RootDevice D} {torn : TornRead D} {build : Build} {linker : LinkerScript} {cores : Multicore}.
Abbreviation Kernel := (Kernel Q W (Root.RootFilesystem D)).

(** The terminal: the characters go out one by one. *)
Lemma uart_write_app a b (k : Kernel) : uart_write (a ++ b) k = uart_write b (uart_write a k).
Proof. unfold uart_write. by rewrite -> foldl_app. Qed.
Lemma uart_write_nil (k : Kernel) : set_world (world k) k = k.
Proof. by destruct k as [? ? ? ? ? ? ? ? ? ? ? ? ? ? ? ? ? ? ? [[? ? []] ? ? ? ? ? ?]]. Qed.

#[local] Program Instance terminal_sink : Sink Kernel := { wrote k d k' := k' = uart_write d k }.
Next Obligation. intros k. symmetry. apply uart_write_nil. Qed.
Next Obligation. intros k d k' d' k'' -> ->. symmetry. apply uart_write_app. Qed.

(** A descriptor of the terminal. *)
Definition on_terminal (k : Kernel) (descriptor : Z) : Prop :=
  (descriptor = 1 \/ descriptor = 2) /\ FileCalls.is_none (redirect (files k) descriptor) = true.

Lemma write_terminal (k : Kernel) descriptor base size : on_terminal k descriptor -> 0 <= size ->
  write k descriptor base size =
    if contains base size then (uart_write (load (memory k) base (Z.to_nat size)) k, i32 size) else (k, Abi.error Abi.Errno.bad_address).
Proof.
  intros [Hd Hr] Hs. unfold write. destruct (contains base size); [|done]. cbn [negb].
  rewrite -> Hr. by destruct Hd as [-> | ->].
Qed.

Lemma contains_fits base size : contains base size = true -> 0 <= size -> size <= 0x7fffffff.
Proof.
  unfold contains, Base.contains. rewrite -> !andb_true_iff, !Z.leb_le. unfold Abi.user_memory, Abi.user_begin, Abi.user_end, wrap in *. cbn [Base.begin Base.end_].
  intros [[H1 H2] H3] H. rewrite -> Z.mod_small in H3 by lia. lia.
Qed.

Lemma terminal_writer m descriptor :
  writer_ok m (fun (k : Kernel) base size => write k descriptor base size) (fun k => memory k = m /\ on_terminal k descriptor).
Proof.
  intros s base size [<- Ht] Hs. rewrite -> write_terminal by done.
  destruct (contains base size) eqn:Hc; [|by split; [|left; split; [|symmetry; apply uart_write_nil]]].
  split; [by split|right]. pose proof (contains_fits _ _ Hc Hs). rewrite -> i32_small by lia. split; [lia|].
  by rewrite -> take_ge by (rewrite -> length_load; lia).
Qed.

Lemma aligned_byte address : aligned address 1 = true.
Proof. unfold aligned, Base.aligned. change (1 - 1) with 0. cbn. by rewrite -> !Z.land_0_r. Qed.

(** The vectors that [writev] finds in memory. *)
Definition vectors_at (m : Memory) (address count : Z) : list Iovec32 := read_iovec m address <$> seqZ 0 count.

Lemma vectors_at_ok m address count : (forall a, in_u 8 (m a)) -> vectors_ok (vectors_at m address count).
Proof.
  intros Hm. unfold vectors_ok, vectors_at. apply Forall_fmap, Forall_true. intros i. cbn.
  apply Fs.little_u32_in_u. by apply Fs.bytes_at_ok.
Qed.

(** C38: [writev] on the terminal is one write of the concatenation of the buffers:
    what the call returns, when it is not an error, is how many characters of
    the concatenation went out, in order and each exactly once; an error went
    out with nothing; and when every buffer is in user memory all of it went
    out. *)
Theorem writev_terminal_spec (k : Kernel) descriptor address count :
  (forall a, in_u 8 (memory k a)) -> on_terminal k descriptor -> 0 <= count <= 1024 -> contains address (count * 8) = true ->
  total_size (vectors_at (memory k) address count) <= 0x7fffffff ->
  let data := gather (memory k) (vectors_at (memory k) address count) in
  let '(k', r) := writev k descriptor address count in
  r <= Z.of_nat (length data) /\ k' = uart_write (take (Z.to_nat r) data) k /\
  (Forall (fun v => contains (iov_base v) (iov_size v) = true) (vectors_at (memory k) address count) -> r = Z.of_nat (length data)).
Proof.
  intros Hm Ht Hc Hcontains Htotal data. unfold writev. rewrite -> (proj2 (Z.ltb_ge 1024 count)), Hcontains by lia.
  rewrite -> aligned_byte. cbn [negb orb].
  pose proof (vectors_at_ok (memory k) address count Hm) as Hv.
  pose proof (scatter_write_ok (memory k) _ (Abi.error Abi.Errno.invalid_argument) _ _ k (terminal_writer (memory k) descriptor) (conj eq_refl Ht) Hv Htotal) as L.
  pose proof (length_gather (memory k) _ Hv) as Hl. fold data in L, Hl.
  unfold vectors_at in L at 1. destruct (scatter_write _ _ _ k) as [k' r]. destruct L as [L A]. rewrite -> Hl.
  split; [pose proof (total_size_nonneg _ Hv); destruct L; lia|]. split.
  - destruct L as [[Hr L]|[_ L]]; cbn [wrote terminal_sink] in L; [|done]. by replace (Z.to_nat r) with 0%nat by lia.
  - intros Hall. apply A. unfold vectors_ok in Hv. rewrite -> Forall_forall in Hall, Hv |- *. intros v Hmem s [Hms Hts].
    pose proof (Hall v Hmem) as Hin. pose proof (Hv v Hmem) as Hsize. rewrite -> write_terminal, Hin by done. cbn [snd].
    apply i32_small. pose proof (contains_fits _ _ Hin Hsize). lia.
Qed.
End kernel.

(** ** Two buffers printed *)

Section example.
Import Examples.

Definition example_vectors : Memory :=
  store 0x81010000 (Fs.bytes32 0x81010100 ++ Fs.bytes32 4 ++ Fs.bytes32 0x81010200 ++ Fs.bytes32 3)
    (store 0x81010100 (PseudoFs.text "port") (store 0x81010200 (PseudoFs.text "ing") (fun _ => 0))).
Definition example_writer : Kernel := kernel (frame_of 66 1 0x81010000 2) example_vectors.

Lemma example_vectors_bytes a : in_u 8 (memory example_writer a).
Proof.
  cbn [memory example_writer kernel]. unfold example_vectors.
  repeat (apply store_bytes_ok; [apply Ethernet.bytes_ok_check; vm_compute; reflexivity|clear a; intros a]). split; lia.
Qed.

Lemma writev_terminal_spec_witness :
  printed (world example_writer) = [] /\
  (writev example_writer 1 0x81010000 2).2 = 7 /\
  printed (world (writev example_writer 1 0x81010000 2).1) = PseudoFs.text "porting" /\
  (writev example_writer 1 0x81010000 2).1 = uart_write (PseudoFs.text "porting") example_writer.
Proof.
  pose proof (writev_terminal_spec example_writer 1 0x81010000 2 example_vectors_bytes
    ltac:(split; [by left|reflexivity]) ltac:(lia) ltac:(reflexivity) ltac:(vm_compute; discriminate)) as H.
  cbv zeta in H. replace (gather (memory example_writer) (vectors_at (memory example_writer) 0x81010000 2)) with (PseudoFs.text "porting") in H
    by (vm_compute; reflexivity).
  assert ((writev example_writer 1 0x81010000 2).2 = 7) as Hr by (vm_compute; reflexivity).
  destruct (writev example_writer 1 0x81010000 2) as [k' r]. cbn [fst snd] in *. subst r. destruct H as (_ & -> & _).
  split; [reflexivity|]. split; [reflexivity|]. split; [vm_compute; reflexivity|reflexivity].
Defined.
End example.
End DataLaws.
