(* ===== verification/Confined.v ===== *)
(** * System calls stay in user memory

    The kernel reaches the memory of the program through addresses that the
    program chooses.  A call that does not switch to another process writes no
    byte outside user memory, whatever its number and its arguments. *)

From stdpp Require Import strings.
From S2P Require Import Prelude ByteQueue Base Filesystem Ext4 Root Signal Pipe Pty Process Ethernet Timing Interface Socket Tcp Stack TcpTable.
From S2P Require Import Abi Memory Runtime Path PseudoFs Descriptor FileCalls Context SignalCalls Loader PathCalls DataCalls ProcessCalls WaitCalls Dispatch Examples DataLaws.
Local Open Scope Z_scope.

Module Confined.
Import Memory Descriptor FileCalls Context PathCalls DataCalls ProcessCalls Dispatch.

Definition confined (m m' : Memory) : Prop := forall a, a < Abi.user_begin \/ Abi.user_end <= a -> m' a = m a.

Lemma confined_refl m : confined m m.
Proof. done. Qed.
Lemma confined_trans m m1 m2 : confined m m1 -> confined m1 m2 -> confined m m2.
Proof. intros H1 H2 a Ha. by rewrite -> H2, H1. Qed.

Lemma confined_store m address l n : in_u 32 address -> contains address n = true -> Z.of_nat (length l) <= n ->
  confined m (store address l m).
Proof.
  intros Ha Hc Hl a Hout. apply user_contains_spec in Hc; [|done|lia]. unfold store. apply decide_False. lia.
Qed.

Lemma confined_within m address l : Abi.user_begin <= address -> address + Z.of_nat (length l) <= Abi.user_end ->
  confined m (store address l m).
Proof. intros H1 H2 a Hout. unfold store. apply decide_False. lia. Qed.

Lemma contains_range address n : in_u 32 address -> 0 <= n -> contains address n = true ->
  Abi.user_begin <= address /\ address + n <= Abi.user_end.
Proof. intros Ha Hn Hc. by apply user_contains_spec in Hc. Qed.

(** ** Listing a directory *)

(** A listing has filled [total] bytes of the buffer. *)
Definition listing (m0 : Memory) (size : Z) (m : Memory) (total : Z) : Prop := confined m0 m /\ 0 <= total <= size.

Lemma emit_listing m0 address size m total inode offset type name :
  in_u 32 address -> 0 <= size -> contains address size = true -> listing m0 size m total ->
  let '(m', r) := emit_dirent m (address + total) (size - total) inode offset type name in
  listing m0 size m' (u32 (total + r)).
Proof.
  intros Ha Hs Hc [Hm Ht]. apply contains_range in Hc as [H1 H2]; [|done|done].
  unfold emit_dirent. set (record := dirent inode offset type name). cbv zeta.
  pose proof (Z.ltb_spec (size - total) (Z.of_nat (length record))) as Hl.
  unfold Abi.user_begin, Abi.user_end in *. destruct (_ <? _); inversion Hl as [Hl'|Hl']; clear Hl.
  - rewrite -> Z.add_0_r, wrap_small by (unfold in_u; lia). by split.
  - rewrite -> wrap_small by (unfold in_u; lia). split; [|lia].
    eapply confined_trans; [exact Hm|]. apply confined_within; unfold Abi.user_begin, Abi.user_end; lia.
Qed.

Lemma overlay_loop_listing n m0 address size m offset total :
  in_u 32 address -> 0 <= size -> contains address size = true -> listing m0 size m total ->
  let '(m', _, total') := overlay_loop n m address size offset total in listing m0 size m' total'.
Proof.
  intros Ha Hs Hc. revert m offset total. induction n as [|n IH]; intros m offset total Hl; cbn [overlay_loop]; [done|].
  destruct (overlays !! _) as [[name node]|]; [|done].
  pose proof (emit_listing m0 address size m total (PseudoFs.inode node) (u32 (offset + 1)) 4 name Ha Hs Hc Hl) as He.
  destruct (emit_dirent _ _ _ _ _ _ _) as [m' r]. destruct (Z.eqb_spec r 0) as [->|]; [|by apply IH].
  rewrite -> Z.add_0_r in He. destruct Hl as [? Hl]. split; [apply He|done].
Qed.

Lemma pseudo_loop_listing n node m0 address size m offset total :
  in_u 32 address -> 0 <= size -> contains address size = true -> listing m0 size m total ->
  let '(m', _, total') := pseudo_loop n node m address size offset total in listing m0 size m' total'.
Proof.
  intros Ha Hs Hc. revert m offset total. induction n as [|n IH]; intros m offset total Hl; cbn [pseudo_loop]; [done|].
  destruct (_ <=? offset); [done|]. cbv zeta.
  match goal with |- context [emit_dirent ?a ?b ?c ?d ?e ?f ?g] =>
    pose proof (emit_listing m0 address size m total d e f g Ha Hs Hc Hl) as He; destruct (emit_dirent a b c d e f g) as [m' r] end.
  destruct (Z.eqb_spec r 0) as [->|]; [|by apply IH].
  rewrite -> Z.add_0_r in He. destruct Hl as [? Hl]. split; [apply He|done].
Qed.

(** The state of the visitor that writes entries. *)
Definition visiting (m0 : Memory) (address size : Z) (s : DirectoryState * Memory) : Prop :=
  dir_address s.1 = address /\ dir_capacity s.1 = size /\ listing m0 size s.2 (dir_total s.1).

Lemma emit_entry_visiting m0 address size s entry :
  in_u 32 address -> 0 <= size -> contains address size = true -> visiting m0 address size s ->
  visiting m0 address size (emit_ext4_directory_entry s entry).1.
Proof.
  intros Ha Hs Hc. destruct s as [d m]. intros (H1 & H2 & Hl). cbn [fst snd] in *. unfold emit_ext4_directory_entry. cbv zeta.
  destruct (_ <? _); [by split|]. destruct (_ && _); [by split|].
  match goal with |- context [emit_dirent _ _ _ ?i ?o ?t ?n] =>
    pose proof (emit_listing m0 address size m (dir_total d) i o t n Ha Hs Hc Hl) as He;
    change (emit_dirent m _ _ i o t n) with (emit_dirent m (dir_address d + dir_total d) (dir_capacity d - dir_total d) i o t n);
    rewrite -> H1, H2; destruct (emit_dirent m (address + dir_total d) (size - dir_total d) i o t n) as [m' r] end.
  destruct (Z.eqb_spec r 0) as [->|]; cbn [fst]; (split; [done|split; [done|]]); [|done].
  rewrite -> Z.add_0_r in He. destruct Hl as [? Hl]. split; [apply He|done].
Qed.

(** A visitor that preserves a property of its state preserves it in
    [for_each], whatever the volume holds. *)
Section visitor.
Import Fs.
Context {D : Type} {device : Device D} {A : Type} (n : Ext4.Node) (visitor : A -> Ext4.Entry -> A * bool) (P : A -> Prop).
Hypothesis visitor_keeps : forall a entry, P a -> P (visitor a entry).1.

Definition preserves {X} (m : io (Ext4.Volume D * A) X) : Prop := forall s, P s.2 -> wp m s (fun s _ => P s.2).

Lemma preserves_bind {X Y} (m : io (Ext4.Volume D * A) X) (k : X -> io (Ext4.Volume D * A) Y) :
  preserves m -> (forall x, preserves (k x)) -> preserves (m ≫= k).
Proof.
  intros Hm Hk s Hs. apply wp_bind. eapply wp_mono; [by apply Hm|]. intros s' [x|e] Hs'; [by apply Hk|done].
Qed.
Lemma preserves_ret {X} (x : X) : preserves (mret x).
Proof. by intros s Hs. Qed.
Lemma preserves_stop b e : preserves (stop_if b e).
Proof. intros s Hs. by apply wp_stop_if. Qed.
Lemma preserves_gets {X} (f : Ext4.Volume D * A -> X) : preserves (gets f).
Proof. by intros s Hs. Qed.
Lemma preserves_lift {X} (m : io (Ext4.Volume D) X) : preserves (Ext4.lift m).
Proof. intros [v a] Ha. unfold wp, Ext4.lift. by destruct (m v). Qed.
Lemma preserves_visit entry : preserves (Ext4.visit visitor entry).
Proof.
  intros [v a] Ha. unfold wp, Ext4.visit. pose proof (visitor_keeps a entry Ha) as H. by destruct (visitor a entry).
Qed.

Ltac preserve := repeat first
  [ apply preserves_ret | apply preserves_stop | apply preserves_gets | apply preserves_lift | apply preserves_visit
  | apply preserves_bind; [|intros ?] | case_match ].

Lemma preserves_records fuel block block_bytes offset : preserves (Ext4.record_loop visitor fuel block block_bytes offset).
Proof. revert offset. induction fuel as [|fuel IH]; intros offset; cbn [Ext4.record_loop]; preserve; apply IH. Qed.
Lemma preserves_blocks m logical : preserves (Ext4.block_loop n visitor m logical).
Proof. revert logical. induction m as [|m IH]; intros logical; cbn [Ext4.block_loop]; preserve; first [apply IH|apply preserves_records]. Qed.
Lemma preserves_for_each : preserves (Ext4.for_each n visitor).
Proof. unfold Ext4.for_each. preserve. apply preserves_blocks. Qed.
End visitor.

Section kernel.
Context {Q : Type} `{!ByteQueue Q}.
Context {W : Type} {stack_machine : Machine W} {uart : Uart W}.
Context {D : Type} {device : Fs.Device D} {start : RootDevice D} {torn : TornRead D}.
Context {build : Build} {linker : LinkerScript} {cores : Multicore} {board : Board}.
Abbreviation Kernel := (Kernel Q W (Root.RootFilesystem D)).

(** ** Calls that leave memory alone *)

Class Keeps {A} (r : Kernel * A) (k : Kernel) := keeps_memory : memory r.1 = memory k.
Class KeepsPath {A B} (r : Kernel * A * B) (k : Kernel) := keeps_path_memory : memory r.1.1 = memory k.

(** Follows a call through its branches. *)
Ltac keeps :=
  unfold Keeps, KeepsPath; cbv zeta; repeat (case_match; simplify_eq); simplify_eq; cbn [fst snd]; try done;
  repeat match goal with
  | |- memory (fst (fst ?op)) = _ => rewrite -> (keeps_path_memory (r := op))
  | |- memory (fst ?op) = _ => rewrite -> (keeps_memory (r := op))
  | K : ?op = (?k', _, _) |- memory _ = ?m => change (memory k' = m);
      let E := fresh in pose proof (keeps_path_memory (r := op)) as E; rewrite -> K in E; cbn [fst] in E; rewrite -> E; clear E K
  | K : ?op = (?k', _) |- memory _ = ?m => change (memory k' = m);
      let E := fresh in pose proof (keeps_memory (r := op)) as E; rewrite -> K in E; cbn [fst] in E; rewrite -> E; clear E K
  end; try done.

#[local] Instance keeps_on_root {A} (k : Kernel) (call : Root.RootFilesystem D -> Root.RootFilesystem D * A) : Keeps (on_root k call) k.
Proof. unfold on_root. keeps. Qed.
#[local] Instance keeps_lookup_path (k : Kernel) path : Keeps (lookup_path k path) k.
Proof. unfold lookup_path. keeps. Qed.
#[local] Instance keeps_path_node_from (k : Kernel) address base : KeepsPath (path_node_from k address base) k.
Proof. unfold path_node_from. keeps. Qed.
#[local] Instance keeps_path_node (k : Kernel) address : KeepsPath (path_node k address) k.
Proof. unfold path_node. apply _. Qed.
#[local] Instance keeps_path_node_at (k : Kernel) descriptor address : KeepsPath (path_node_at k descriptor address) k.
Proof. unfold path_node_at. keeps. Qed.

#[local] Instance keeps_mkdirat (k : Kernel) d a m : Keeps (mkdirat k d a m) k.
Proof. unfold mkdirat. keeps. Qed.
#[local] Instance keeps_umask (k : Kernel) m : Keeps (umask k m) k.
Proof. done. Qed.
#[local] Instance keeps_fchmodat (k : Kernel) d a m : Keeps (fchmodat k d a m) k.
Proof. unfold fchmodat. keeps. Qed.
#[local] Instance keeps_open_create (k : Kernel) n c f : Keeps (open_create k n c f) k.
Proof. unfold open_create. keeps. Qed.
#[local] Instance keeps_open_truncate (k : Kernel) n : Keeps (open_truncate k n) k.
Proof. unfold open_truncate. keeps. Qed.
#[local] Instance keeps_open_file (k : Kernel) n c f : Keeps (open_file k n c f) k.
Proof. unfold open_file. keeps. Qed.
#[local] Instance keeps_openat (k : Kernel) d p f : Keeps (openat k d p f) k.
Proof. unfold openat. keeps. Qed.
#[local] Instance keeps_faccessat (k : Kernel) d a : Keeps (faccessat k d a) k.
Proof. unfold faccessat. keeps. Qed.
#[local] Instance keeps_unlinkat (k : Kernel) d p f : Keeps (unlinkat k d p f) k.
Proof. unfold unlinkat. keeps. Qed.
#[local] Instance keeps_renameat (k : Kernel) d p d' p' : Keeps (renameat k d p d' p') k.
Proof. unfold renameat. keeps. Qed.
#[local] Instance keeps_ftruncate (k : Kernel) d n : Keeps (ftruncate k d n) k.
Proof. unfold ftruncate. keeps. Qed.
#[local] Instance keeps_truncate_path (k : Kernel) p n : Keeps (truncate_path k p n) k.
Proof. unfold truncate_path. keeps. Qed.
#[local] Instance keeps_chdir (k : Kernel) p : Keeps (chdir k p) k.
Proof. unfold chdir. keeps. Qed.
#[local] Instance keeps_sync (k : Kernel) : Keeps (sync k) k.
Proof. unfold sync. keeps. Qed.
#[local] Instance keeps_fsync (k : Kernel) d : Keeps (fsync k d) k.
Proof. unfold fsync. keeps. Qed.

(** The calls on descriptors, in [FileCalls], have no memory to write. *)
#[local] Instance keeps_on_files (k : Kernel) f : Keeps (on_files k f) k.
Proof. done. Qed.

(** ** Data *)

#[local] Instance keeps_write_pipe (k : Kernel) s a n : Keeps (write_pipe k s a n) k.
Proof. unfold write_pipe. keeps. Qed.

#[local] Instance keeps_queue_process_group_signal (k : Kernel) g n : Keeps (SignalCalls.queue_process_group_signal k g n) k.
Proof. unfold SignalCalls.queue_process_group_signal. keeps. Qed.

Lemma deliver_generated_memory generated group (k : Kernel) : memory (deliver_generated generated group k) = memory k.
Proof.
  unfold deliver_generated. generalize (seqZ 1 Signal.signal_max). intros l. revert k.
  induction l as [|x l IH]; intros k; [done|]. cbn [foldl]. rewrite -> IH. case_match; [done|apply keeps_memory].
Qed.

#[local] Instance keeps_write_pty (k : Kernel) s a n : Keeps (write_pty k s a n) k.
Proof.
  unfold Keeps, write_pty. destruct (PtyTable.write _ _ _ _ _ _) as [p r]. cbv zeta. cbn [fst].
  destruct (_ && _); [by rewrite -> deliver_generated_memory|done].
Qed.
#[local] Instance keeps_write_file (k : Kernel) d s a n : Keeps (write_file k d s a n) k.
Proof. unfold write_file. keeps. Qed.
#[local] Instance keeps_write (k : Kernel) d a n : Keeps (write k d a n) k.
Proof. unfold write. keeps. Qed.

Lemma scatter_loop_memory d e l t (k : Kernel) : memory (scatter_loop (fun k base size => write k d base size) e l t k).1 = memory k.
Proof.
  revert t k. induction l as [|v l IH]; intros t k; [done|]. cbn [scatter_loop]. destruct (_ =? 0); [done|].
  pose proof (keeps_write k d (iov_base v) (iov_size v)) as H. unfold Keeps in H. destruct (write _ _ _ _) as [k' r]. cbn [fst] in H.
  repeat case_match; cbn [fst]; try done. by rewrite -> IH.
Qed.
#[local] Instance keeps_writev (k : Kernel) d a n : Keeps (writev k d a n) k.
Proof.
  unfold Keeps, writev. destruct (_ || _ || _); [done|]. cbv zeta. unfold scatter_write. case_match; [apply scatter_loop_memory|done].
Qed.

(** ** Signals, groups, sessions *)

#[local] Instance keeps_send_signal (k : Kernel) p n : Keeps (SignalCalls.send_signal k p n) k.
Proof. unfold SignalCalls.send_signal. keeps. Qed.
#[local] Instance keeps_rt_sigreturn (k : Kernel) : Keeps (SignalCalls.rt_sigreturn k) k.
Proof. unfold SignalCalls.rt_sigreturn. keeps. Qed.
#[local] Instance keeps_setpgid (k : Kernel) p g : Keeps (setpgid k p g) k.
Proof. unfold setpgid. keeps. Qed.
#[local] Instance keeps_setsid (k : Kernel) : Keeps (setsid k) k.
Proof. unfold setsid. keeps. Qed.
#[local] Instance keeps_brk (k : Kernel) a : Keeps (brk k a) k.
Proof. unfold brk. keeps. Qed.

(** ** Calls that store their result *)

Definition Confines {A} (r : Kernel * A) (k : Kernel) : Prop := confined (memory k) (memory r.1).

Lemma keeps_confines {A} (r : Kernel * A) k : Keeps r k -> Confines r k.
Proof. unfold Keeps, Confines. by intros ->. Qed.

Lemma confines_after {A} (k k' : Kernel) (r : Kernel * A) : memory k' = memory k -> Confines r k' -> Confines r k.
Proof. unfold Confines. by intros ->. Qed.

(** A store into a buffer that was checked. *)
Ltac stored := eapply confined_store; [eassumption|eassumption|first [done|lia|vm_compute; discriminate]].
Ltac confines :=
  unfold Confines; cbv zeta; repeat (case_match; simplify_eq); cbn [fst]; rewrite -> ?negb_false_iff in *;
  first [done|apply confined_refl|stored].

Lemma confines_getcwd (k : Kernel) a n : in_u 32 a -> Confines (getcwd k a n) k.
Proof.
  intros Ha. unfold Confines, getcwd. cbv zeta. destruct (_ || _) eqn:Hc; [done|]. apply orb_false_iff in Hc as [Hn Hc].
  apply Z.ltb_ge in Hn. apply negb_false_iff in Hc. eapply confined_store; [done|done|]. rewrite -> length_app. cbn [length]. lia.
Qed.

Lemma confines_write_stat (k : Kernel) n a : in_u 32 a -> Confines (write_stat k n a) k.
Proof. intros Ha. unfold write_stat. confines. Qed.
Lemma confines_write_statx (k : Kernel) n a : in_u 32 a -> Confines (write_statx k n a) k.
Proof. intros Ha. unfold write_statx. confines. Qed.
Lemma confines_fstat64 (k : Kernel) d a : in_u 32 a -> Confines (fstat64 k d a) k.
Proof. intros Ha. unfold fstat64. cbv zeta. repeat case_match; first [by apply confines_write_stat|done]. Qed.
Lemma confines_statx (k : Kernel) d p a : in_u 32 a -> Confines (statx k d p a) k.
Proof.
  intros Ha. unfold statx. destruct (descriptor_path k d p).
  - destruct (is_none _); [done|by apply confines_write_statx].
  - pose proof (keeps_path_node_at k d p) as H. unfold KeepsPath in H. destruct (path_node_at k d p) as [[k' n] l]. cbn [fst] in H.
    apply (confines_after _ k'); [done|]. by apply confines_write_statx.
Qed.
Lemma confines_fstatat64 (k : Kernel) d p a : in_u 32 a -> Confines (fstatat64 k d p a) k.
Proof.
  intros Ha. unfold fstatat64. destruct (descriptor_path k d p).
  - destruct (is_kind _ _); [done|by apply confines_write_stat].
  - pose proof (keeps_path_node_at k d p) as H. unfold KeepsPath in H. destruct (path_node_at k d p) as [[k' n] l]. cbn [fst] in H.
    apply (confines_after _ k'); [done|]. destruct (is_kind _ _); [done|by apply confines_write_stat].
Qed.
Lemma confines_readlinkat (k : Kernel) d p a n : in_u 32 a -> in_u 32 n -> Confines (readlinkat k d p a n) k.
Proof.
  intros Ha Hn. unfold in_u in Hn. unfold readlinkat.
  pose proof (keeps_path_node_at k d p) as H. unfold KeepsPath in H. destruct (path_node_at k d p) as [[k' n'] l]. cbn [fst] in H.
  apply (confines_after _ k'); [done|]. destruct (link_target k' l) as [target|]; [|done]. cbv zeta.
  destruct (contains a _) eqn:Hc; [|done]. unfold Confines. cbn [negb fst].
  eapply confined_store; [done|exact Hc|]. rewrite -> length_take. lia.
Qed.

#[local] Instance keeps_read_ticks (k : Kernel) : Keeps (read_ticks k) k.
Proof. unfold read_ticks. keeps. Qed.
#[local] Instance keeps_tick_time (k : Kernel) : Keeps (tick_time k) k.
Proof. unfold tick_time. keeps. Qed.
Ltac after_clock k := let H := fresh in pose proof (keeps_tick_time k) as H; unfold Keeps in H; destruct (tick_time k) as [? [? ?]]; cbn [fst] in H;
  apply (confines_after _ _ _ H).
Lemma confines_clock_gettime (k : Kernel) a b : in_u 32 a -> Confines (clock_gettime k a b) k.
Proof. intros Ha. unfold clock_gettime. after_clock k. confines. Qed.
Lemma confines_gettimeofday (k : Kernel) a : in_u 32 a -> Confines (gettimeofday k a) k.
Proof. intros Ha. unfold gettimeofday. destruct (_ =? _); [done|]. destruct (contains a 8) eqn:Hc; [|done]. cbn [negb]. after_clock k. confines. Qed.
Lemma confines_sysinfo (k : Kernel) a : in_u 32 a -> Confines (sysinfo k a) k.
Proof. intros Ha. unfold sysinfo. destruct (contains a 64) eqn:Hc; [|done]. cbn [negb]. after_clock k. confines. Qed.
Lemma confines_uname (k : Kernel) a : in_u 32 a -> Confines (uname k a) k.
Proof. intros Ha. unfold uname. confines. Qed.
Lemma confines_getrusage (k : Kernel) a : in_u 32 a -> Confines (getrusage k a) k.
Proof. intros Ha. unfold getrusage. confines. Qed.
Lemma confines_prlimit (k : Kernel) a : in_u 32 a -> Confines (prlimit k a) k.
Proof. intros Ha. unfold prlimit. confines. Qed.
Lemma confines_getcpu_word (k : Kernel) a : in_u 32 a -> Confines (getcpu_word a k) k.
Proof. intros Ha. unfold getcpu_word. confines. Qed.
Lemma confines_getcpu (k : Kernel) a b : in_u 32 a -> in_u 32 b -> Confines (getcpu k a b) k.
Proof.
  intros Ha Hb. unfold getcpu, Confines. pose proof (confines_getcpu_word k a Ha) as H1. unfold Confines in H1.
  destruct (getcpu_word a k) as [k1 []]; [|done]. cbn [fst] in H1.
  pose proof (confines_getcpu_word k1 b Hb) as H2. unfold Confines in H2. destruct (getcpu_word b k1) as [k2 ok]. cbn [fst] in H2 |- *.
  by eapply confined_trans.
Qed.

Lemma confines_wait4 (k : Kernel) p a : in_u 32 a -> Confines (wait4 k p a) k.
Proof.
  intros Ha. unfold wait4, Confines. destruct (waitable_for_wait4 k p) as [[i child]|]; [|done].
  destruct (a =? 0); [done|]. destruct (contains a 4) eqn:Hc; [|done]. cbn [negb andb fst]. stored.
Qed.
Lemma confines_waitid (k : Kernel) w p a o : in_u 32 a -> Confines (waitid k w p a o) k.
Proof.
  intros Ha. unfold waitid, Confines. destruct (_ && _ && _); [done|]. destruct (find_child _ _) as [[i child]|].
  - destruct (contains a 128) eqn:Hc; [|done]. cbn [negb]. cbv zeta. cbn [fst].
    assert (confined (memory k) (store a (child_siginfo child) (memory k))) as H by stored.
    by destruct (_ =? 0).
  - destruct (_ && _) eqn:Hc; [|done]. apply andb_true_iff in Hc as [_ Hc]. cbn [fst]. stored.
Qed.

Lemma confines_rt_sigaction (k : Kernel) n a o z : in_u 32 o -> Confines (SignalCalls.rt_sigaction k n a o z) k.
Proof.
  intros Ho. unfold SignalCalls.rt_sigaction, Confines. destruct (_ || _); [done|].
  destruct (negb (o =? 0) && negb (contains o 16)) eqn:Hc; [done|]. cbv zeta.
  match goal with |- context [if o =? 0 then k else ?x] => set (k1 := if o =? 0 then k else x) end.
  assert (confined (memory k) (memory k1)) as H1.
  { unfold k1. destruct (o =? 0); [done|]. cbn [negb andb] in Hc. apply negb_false_iff in Hc. stored. }
  repeat case_match; cbn [fst]; done.
Qed.
Lemma confines_rt_sigprocmask (k : Kernel) n a o z : in_u 32 o -> Confines (SignalCalls.rt_sigprocmask k n a o z) k.
Proof.
  intros Ho. unfold SignalCalls.rt_sigprocmask, Confines. destruct (negb (z =? 8)); [done|].
  destruct (negb (o =? 0) && negb (contains o 8)) eqn:Hc; [done|]. cbv zeta.
  match goal with |- context [if o =? 0 then k else ?x] => set (k1 := if o =? 0 then k else x) end.
  assert (confined (memory k) (memory k1)) as H1.
  { unfold k1. destruct (o =? 0); [done|]. cbn [negb andb] in Hc. apply negb_false_iff in Hc. stored. }
  repeat case_match; cbn [fst]; done.
Qed.

(** ** Several stores *)

Lemma confines_mmap (k : Kernel) a n f : in_u 32 n -> in_u 32 (Abi.mmap_cursor (process k)) -> Confines (mmap k a n f) k.
Proof.
  intros Hn Hm. unfold mmap, Confines. destruct (n =? 0); [done|]. cbv zeta. destruct (_ <? _); [done|].
  destruct (negb (Z.land f map_fixed =? 0)); [done|]. set (size := Base.align_up 32 n 4096).
  destruct (contains (Abi.mmap_cursor (process k)) size) eqn:Hc; [|done]. cbn [negb orb]. destruct (_ || _); [done|]. cbn [fst].
  assert (in_u 32 size) as Hs by (unfold size, Base.align_up; apply wrap_in_u; lia).
  apply contains_range in Hc as [H1 H2]; [|done|apply Hs]. intros b Hb.
  change (Runtime.memset (Abi.mmap_cursor (process k)) 0 size (memory k) b = memory k b).
  unfold in_u in Hs. rewrite -> Runtime.memset_filled by lia. unfold Runtime.filled. apply decide_False. lia.
Qed.

Lemma confines_sched_getaffinity (k : Kernel) n a : in_u 32 n -> in_u 32 a -> Confines (sched_getaffinity k n a) k.
Proof.
  intros Hn Ha. unfold sched_getaffinity, Confines. destruct (Z.eqb_spec n 0) as [|Hz]; [done|]. cbn [orb].
  destruct (contains a n) eqn:Hc; [|done]. cbn [negb fst]. unfold in_u in Hn.
  apply contains_range in Hc as [H1 H2]; [|done|lia]. intros b Hb.
  change (store a [1] (Runtime.memset a 0 n (memory k)) b = memory k b). unfold store. cbn [length].
  rewrite -> decide_False by lia. rewrite -> Runtime.memset_filled by lia. unfold Runtime.filled. apply decide_False. lia.
Qed.

Lemma confines_pipe2 (f : Files Q W) m a g : in_u 32 a -> confined m (pipe2 f m a g).1.2.
Proof.
  intros Ha. unfold pipe2. destruct (negb (_ =? 0)); [done|]. destruct (contains a 8) eqn:Hc; [|done]. cbn [negb orb].
  destruct (negb (aligned a 4)); [done|]. cbv zeta. destruct (16 <=? _); [done|].
  destruct (PipeTable.create _) as [p created]. destruct (negb _); [done|]. cbn [fst snd].
  apply contains_range in Hc as [H1 H2]; [|done|lia].
  eapply confined_trans; apply confined_within; change (Z.of_nat (length (Fs.bytes32 _))) with 4; lia.
Qed.

(** ** Directories *)

Lemma for_each_entry_listing (k : Kernel) n address size offset root :
  in_u 32 address -> 0 <= size -> contains address size = true ->
  let '(k', state, _) := for_each_entry k n (mkDirectory address size offset 0 offset 0 root false) in
  listing (memory k) size (memory k') (dir_total state).
Proof.
  intros Ha Hs Hc. unfold for_each_entry. destruct (negb _); [by split; [|cbn; lia]|].
  pose proof (preserves_for_each n emit_ext4_directory_entry (visiting (memory k) address size)
    (fun a entry => emit_entry_visiting _ _ _ a entry Ha Hs Hc)
    (Root.volume (executables k), (mkDirectory address size offset 0 offset 0 root false, memory k))) as H.
  unfold Fs.wp in H. destruct (Ext4.for_each _ _ _) as [[v [state m]] r]. cbn [fst snd] in H.
  destruct H as (_ & _ & H); [|exact H]. split; [done|split; [done|]]. split; [done|cbn; lia].
Qed.

Lemma confines_getdents64 (k : Kernel) d a n : in_u 32 a -> in_u 32 n -> Confines (getdents64 k d a n) k.
Proof.
  intros Ha [Hn _]. unfold getdents64, Confines. destruct (contains a n) eqn:Hc; [|by rewrite -> !orb_true_r].
  destruct (_ || _ || _); [done|]. cbv zeta. destruct (negb _); [done|]. destruct (is_kind _ _).
  - unfold getdents_file. cbv zeta. destruct (_ =? _); [done|]. destruct (_ <? overlay_start).
    + pose proof (for_each_entry_listing k (file (node (at_slot (files k) d))) a n (offset (at_slot (files k) d))
        (bool_decide (Descriptor.path (at_slot (files k) d) = [slash])) Ha Hn Hc) as H.
      destruct (for_each_entry _ _ _) as [[k' state] e]. destruct e; try apply H. destruct (dir_full state); [apply H|].
      destruct (bool_decide _); [|apply H]. unfold getdents_overlay.
      pose proof (overlay_loop_listing 2 (memory k) a n (memory k') overlay_start (dir_total state) Ha Hn Hc H) as Ho.
      destruct (overlay_loop _ _ _ _ _ _) as [[m o] t]. apply Ho.
    + destruct (bool_decide _); [|done]. unfold getdents_overlay.
      pose proof (overlay_loop_listing 2 (memory k) a n (memory k) (offset (at_slot (files k) d)) 0 Ha Hn Hc ltac:(by split; [|lia])) as Ho.
      destruct (overlay_loop _ _ _ _ _ _) as [[m o] t]. apply Ho.
  - match goal with |- context [pseudo_loop ?c ?x _ _ _ ?o _] =>
      pose proof (pseudo_loop_listing c x (memory k) a n (memory k) o 0 Ha Hn Hc ltac:(by split; [|lia])) as Hp;
      destruct (pseudo_loop c x (memory k) a n o 0) as [[m o'] t] end.
    apply Hp.
Qed.

(** ** Records of fixed size *)

Definition interface_ok (s : Interface.InterfaceState) : Prop :=
  length (Ethernet.mac_octet (Interface.mac s)) = 6%nat /\ length (Ethernet.ip_octet (Interface.address s)) = 4%nat /\
  length (Ethernet.ip_octet (Interface.netmask s)) = 4%nat /\ length (Ethernet.ip_octet (Interface.broadcast s)) = 4%nat.
Definition endpoint_ok (e : Socket.Endpoint) : Prop := length (Ethernet.ip_octet (Socket.endpoint_address e)) = 4%nat.

Lemma length_encode_sockaddr e : endpoint_ok e -> Z.of_nat (length (encode_sockaddr e)) = 16.
Proof.
  unfold endpoint_ok, encode_sockaddr. destruct (Socket.endpoint_address e) as [octets]. cbn [Ethernet.ip_octet]. intros H.
  generalize (Ethernet.net16 (Socket.port e)). intros p. rewrite -> !length_app, H, length_replicate. done.
Qed.

(** The arrays of the tables have the lengths they are declared with. *)
Record arrays_ok (k : Kernel) : Prop := {
  ok_bytes a : in_u 8 (memory k a);
  ok_controls : Forall (fun p => length (PtyTable.control (PtyTable.termios_ p)) = 19%nat) (ptys (tables (files k)));
  ok_interface : interface_ok (Stack.state_ (network (tables (files k))));
  ok_endpoints h s : Socket.slot (Stack.sockets (network (tables (files k)))) h = Some s ->
    endpoint_ok (Socket.local s) /\ endpoint_ok (Socket.remote s);
  ok_cursor : in_u 32 (Abi.mmap_cursor (process k));
}.

Lemma interface_ioctl_lengths s request r : interface_ok s -> length (Interface.name r) = 16%nat -> length (Interface.value r) = 16%nat ->
  let r' := (Interface.apply_interface_ioctl s request r).1.2 in
  length (Interface.name r') = 16%nat /\ length (Interface.value r') = 16%nat.
Proof.
  intros (H1 & H2 & H3 & H4) Hn Hv. unfold Interface.apply_interface_ioctl.
  repeat (case_match; cbn [fst snd]; try done).
  all: split; [done|].
  all: try (etrans; [refine (length_patch (Interface.value r) 0 _ _); rewrite -> Hv; cbn; lia|exact Hv]).
  all: unfold Interface.set_address, Interface.write_sockaddr_ipv4; cbn.
  all: rewrite -> ?length_app; cbn; rewrite -> ?length_app, ?H1, ?H2, ?H3, ?H4; done.
Qed.

Lemma interface_call_ok (k : Kernel) request r : arrays_ok k -> length (Interface.name r) = 16%nat -> length (Interface.value r) = 16%nat ->
  let '(k', r', _) := interface_call k request r in memory k' = memory k /\ Z.of_nat (length (encode_ifreq r')) = 32.
Proof.
  intros Hk Hn Hv. unfold interface_call, Stack.ioctl. destruct (negb _).
  - split; [done|]. unfold encode_ifreq. rewrite -> length_app. lia.
  - pose proof (interface_ioctl_lengths _ request r (ok_interface _ Hk) Hn Hv) as H. cbv zeta in H.
    destruct (Interface.apply_interface_ioctl _ _ _) as [[st r'] result]. cbn [fst snd] in H.
    split; [done|]. unfold encode_ifreq. rewrite -> length_app. lia.
Qed.

Lemma confines_network_ioctl (k : Kernel) d request a : arrays_ok k -> in_u 32 a -> Confines (network_ioctl k d request a) k.
Proof.
  intros Hk Ha. unfold network_ioctl, Confines. destruct (_ || _ || _); [done|]. destruct (negb _); [done|].
  destruct (request =? _).
  - unfold interface_configuration. destruct (contains a 8) eqn:Hc; [|done]. cbn [negb]. cbv zeta.
    set (buffer := load_u32 (memory k) (a + 4)).
    assert (in_u 32 buffer) as Hb by (apply Fs.little_u32_in_u, Fs.bytes_at_ok; intros; by apply (ok_bytes _ Hk)).
    assert (forall m v, confined m (store a (Fs.bytes32 v) m)) as Hlength by (intros m v; stored).
    destruct (_ <? 0); [done|]. destruct (buffer =? 0); [apply Hlength|]. destruct (_ <? 32); [apply Hlength|].
    destruct (contains buffer 32) eqn:Hcb; [|done]. cbn [negb].
    pose proof (interface_call_ok k Interface.siocgifaddr (Interface.mkIfreq Interface.write_interface_name (replicate 16 0)) Hk eq_refl eq_refl) as H.
    destruct (interface_call _ _ _) as [[k' r'] result]. destruct H as [Hm Hl].
    assert (confined (memory k) (memory k')) as H' by by rewrite -> Hm.
    destruct result; [|exact H'..]. cbn [fst]. eapply confined_trans; [exact H'|]. eapply confined_trans; [|apply Hlength]. stored.
  - destruct (contains a 32) eqn:Hc; [|done]. cbn [negb].
    pose proof (interface_call_ok k request (read_ifreq (memory k) a) Hk (length_load _ _ _) (length_load _ _ _)) as H.
    destruct (interface_call _ _ _) as [[k' r'] result]. destruct H as [Hm Hl].
    assert (confined (memory k) (memory k')) as H' by by rewrite -> Hm.
    destruct result; [|exact H'..]. cbn [fst]. eapply confined_trans; [exact H'|]. stored.
Qed.

Lemma length_encode_termios t : length (PtyTable.control t) = 19%nat -> Z.of_nat (length (encode_termios t)) = 36.
Proof. intros H. unfold encode_termios. rewrite -> !length_app, H. done. Qed.

Lemma pty_termios_control (k : Kernel) h t : arrays_ok k ->
  PtyTable.termios pty_capacity (ptys (tables (files k))) h = Some t -> length (PtyTable.control t) = 19%nat.
Proof.
  intros Hk. unfold PtyTable.termios. intros (i & _ & ->)%fmap_Some. rewrite -> list_lookup_total_alt.
  destruct (ptys (tables (files k)) !! i) as [p|] eqn:Hp; [|done].
  exact (proj1 (Forall_lookup _ _) (ok_controls _ Hk) i p Hp).
Qed.

#[local] Instance keeps_pty_result (k : Kernel) r e : Keeps (pty_result k r e) k.
Proof. done. Qed.
#[local] Instance keeps_set_window (k : Kernel) s a : Keeps (set_window k s a) k.
Proof. unfold set_window. keeps. Qed.

Lemma confines_pty_ioctl (k : Kernel) s request a : arrays_ok k -> in_u 32 a -> Confines (pty_ioctl k s request a) k.
Proof.
  intros Hk Ha. unfold pty_ioctl. cbv zeta.
  repeat (match goal with |- Confines (if request =? ?x then _ else _) _ => destruct (request =? x) | |- Confines (if _ then _ else _) _ => case_match end);
    try (apply keeps_confines, _); try done;
    try (match goal with H : (_ || _) = false |- _ => apply orb_false_iff in H as [_ H]; apply negb_false_iff in H end);
    try (match goal with H : negb _ = false |- _ => apply negb_false_iff in H end);
    try (unfold Confines; cbn [fst]; stored).
  all: match goal with |- context [match ?x with Some _ => _ | None => _ end] => destruct x as [t|] eqn:Ht; [|done] end.
  all: match goal with |- context [negb (contains ?b ?n)] => destruct (contains b n) eqn:Hc; [|done] end; unfold Confines; cbn [negb fst].
  - apply pty_termios_control in Ht; [|done]. eapply confined_store; [done|exact Hc|]. rewrite -> length_encode_termios; done.
  - apply pty_termios_control in Ht; [|done]. eapply confined_store; [done|exact Hc|].
    rewrite -> length_app, Nat2Z.inj_add, length_encode_termios; done.
  - stored.
Qed.

Lemma confines_uart_ioctl (k : Kernel) d request a : in_u 32 a -> Confines (uart_ioctl k d request a) k.
Proof.
  intros Ha. unfold uart_ioctl. repeat (match goal with |- Confines (if _ then _ else _) _ => case_match end);
    try (match goal with H : negb (contains _ _) = false |- _ => apply negb_false_iff in H end); try done; unfold Confines; cbn [fst]; stored.
Qed.

Lemma confines_ioctl (k : Kernel) d request a : arrays_ok k -> in_u 32 a -> Confines (ioctl k d request a) k.
Proof. intros Hk Ha. unfold ioctl. repeat case_match; by eauto using confines_uart_ioctl, confines_pty_ioctl, confines_network_ioctl. Qed.

Lemma confines_socket_name (k : Kernel) d a n b : arrays_ok k -> in_u 32 a -> in_u 32 n ->
  confined (memory k) (socket_name (files k) (memory k) d a n b).1.
Proof.
  intros Hk Ha Hn. unfold socket_name. destruct (network_descriptor _ _) as [slot|]; [|done].
  destruct (Socket.slot _ _) as [sk|] eqn:Hs; [|done]. apply (ok_endpoints _ Hk) in Hs as [Hl Hr].
  destruct (_ && _); [done|]. set (e := if b then Socket.remote sk else Socket.local sk).
  assert (endpoint_ok e) as He by by unfold e; destruct b. unfold write_sockaddr.
  destruct (Z.eqb_spec a 0) as [|Hz]; [done|]. unfold sockaddr_output_valid. rewrite -> (proj2 (Z.eqb_neq a 0) Hz).
  destruct (negb (n =? 0) && contains n 4 && contains a 16) eqn:Hc; [|done]. cbn [negb].
  apply andb_true_iff in Hc as [[_ Hcn]%andb_true_iff Hca]. destruct (_ <? 16); [done|]. cbn [fst].
  eapply confined_trans.
  - eapply confined_store; [exact Ha|exact Hca|]. rewrite -> length_encode_sockaddr; done.
  - stored.
Qed.

Lemma confines_getrandom (k : Kernel) state a n : in_u 32 a -> in_u 32 n -> confined (memory k) (memory (getrandom k state a n).1.1).
Proof.
  intros Ha [Hn _]. unfold getrandom. destruct (contains a n) eqn:Hc; [|done]. cbn [negb].
  assert (forall n state, length (random_loop n state).2 = n) as Hl.
  { clear. intros n. induction n as [|n IH]; intros state; [done|]. cbn [random_loop]. specialize (IH (random_step state)).
    destruct (random_loop n (random_step state)) as [last rest]. cbn [snd length] in *. by rewrite -> IH. }
  specialize (Hl (Z.to_nat n) state). destruct (random_loop (Z.to_nat n) state) as [last l]. cbn [fst snd] in *.
  eapply confined_store; [exact Ha|exact Hc|]. lia.
Qed.

(** ** [dispatch_syscall] *)

(** The calls that may put another process into memory, or another program. *)
Definition switching (c : Abi.Syscall.syscall) : bool :=
  match c with
  | Abi.Syscall.clone | Abi.Syscall.exit | Abi.Syscall.exit_group | Abi.Syscall.execve | Abi.Syscall.read
  | Abi.Syscall.accept | Abi.Syscall.accept4 | Abi.Syscall.ppoll | Abi.Syscall.ppoll64
  | Abi.Syscall.pselect6 | Abi.Syscall.pselect6_time64 => true
  | _ => false
  end.

Lemma plain_confined c (k k' : Kernel) a0 a1 a2 a3 a4 r : switching c = false -> arrays_ok k ->
  in_u 32 a0 -> in_u 32 a1 -> in_u 32 a2 -> in_u 32 a3 -> in_u 32 a4 ->
  dispatch_plain c k a0 a1 a2 a3 a4 = Some (k', r) -> confined (memory k) (memory k').
Proof.
  intros Hc Hk H0 H1 H2 H3 H4 He.
  assert (forall x, Some x = Some (k', r) -> Confines x k -> confined (memory k) (memory k')) as Hend by by intros x [= ->].
  destruct c; try discriminate Hc; cbn [dispatch_plain] in He; try (by apply Hend in He; [|apply keeps_confines, _]);
    try (by apply Hend in He; [|eauto using confines_getcwd, confines_getdents64, confines_waitid, confines_wait4, confines_mmap,
      confines_statx, confines_fstatat64, confines_fstat64, confines_clock_gettime, confines_gettimeofday, confines_uname,
      confines_getcpu, confines_sysinfo, confines_getrusage, confines_sched_getaffinity, confines_prlimit, confines_ioctl,
      confines_rt_sigaction, confines_rt_sigprocmask, confines_readlinkat, ok_cursor]).
  - pose proof (confines_pipe2 (files k) (memory k) a0 a1 H0) as H. destruct (pipe2 _ _ _ _) as [[f m] z]. by injection He as <- _.
  - destruct (a0 =? Abi.pid (process k)); apply Hend in He; try done; apply keeps_confines, _.
  - injection He as <- _. by apply confines_socket_name.
  - injection He as <- _. by apply confines_socket_name.
  - done.
  - destruct (a4 =? 0); apply Hend in He; try done; apply keeps_confines, _.
Qed.

Lemma reg_in_u f i : Abi.frame_ok f -> (i < 32)%nat -> in_u 32 (Abi.reg f i).
Proof.
  intros Hf Hi. destruct (lookup_lt_is_Some_2 (Abi.x f) i) as [v Hv]; [by rewrite -> (Abi.frame_length _ Hf)|].
  unfold Abi.reg. rewrite -> (list_lookup_total_correct _ _ _ Hv). exact (proj1 (Forall_lookup _ _) (Abi.frame_words _ Hf) i v Hv).
Qed.


End kernel.

(** ** [getcwd] on the concrete kernel *)

Section example.
Import Examples.
#[local] Instance plain_board : Board := false.

Definition example_system : System RingBuffer.Ring.RingBuffer Console (list Z) :=
  mkSystem (Examples.kernel (frame_of 17 0x81010000 64 0) DataLaws.example_vectors) random_start None Scheduler.initial.

Lemma example_frame_ok number a0 a1 a2 : in_u 32 number -> in_u 32 a0 -> in_u 32 a1 -> in_u 32 a2 -> Abi.frame_ok (frame_of number a0 a1 a2).
Proof.
  intros Hn H0 H1 H2. split; [reflexivity| |vm_compute; by split].
  change (Abi.x (frame_of number a0 a1 a2)) with
    (<[17%nat := number]> (<[12%nat := a2]> (<[11%nat := a1]> (<[10%nat := a0]> (<[2%nat := 0x81ffeff0]> (replicate 32 0)))))).
  do 4 (apply Forall_insert; [|done]). apply Forall_insert; [apply Forall_replicate; word|word].
Qed.

Lemma example_arrays_ok frame : arrays_ok (Examples.kernel frame DataLaws.example_vectors).
Proof.
  split.
  - exact DataLaws.example_vectors_bytes.
  - apply Forall_replicate. reflexivity.
  - by repeat split.
  - intros h sk. change (Socket.slot Socket.initial h = Some sk -> endpoint_ok (Socket.local sk) /\ endpoint_ok (Socket.remote sk)).
    unfold Socket.slot. destruct (Socket.slots Socket.initial !! h) as [v|] eqn:Hv; [|done].
    apply lookup_replicate in Hv as [-> _]. by rewrite -> bool_decide_false by (intros H; by apply H).
  - vm_compute. by split.
Qed.

Definition example_after : System RingBuffer.Ring.RingBuffer Console (list Z) :=
  match dispatch_syscall 0 example_system with Returned (s, _) => s | Shutdown _ => example_system end.
Lemma example_getcwd : dispatch_syscall 0 example_system = Returned (example_after, Some 2).
Proof.
  unfold example_after. assert (match dispatch_syscall 0 example_system with Returned (_, r) => r | Shutdown _ => None end = Some 2) as H
    by (vm_compute; reflexivity).
  revert H. destruct (dispatch_syscall 0 example_system) as [[s r]|]; [by intros ->|done].
Qed.

End example.
End Confined.
