(* ===== verification/ExecLaws.v ===== *)
(** * Arguments through [execve]

    A program that hands its own argument and environment vectors on, as its
    start-up code found them on its stack, starts the next program with exactly
    these strings. *)

From stdpp Require Import strings.
From S2P Require Import Prelude ByteQueue Base Filesystem Ext4 Ext4Image Root Ethernet Timing Interface Socket Tcp Stack.
From S2P Require Import Abi Memory Runtime PseudoFs Descriptor FileCalls Context Loader LoaderLaws LoaderStack PathCalls DataCalls ProcessCalls Examples Confined.
Local Open Scope Z_scope.

Module ExecLaws.
Import Memory Context Loader LoaderStack PathCalls ProcessCalls.

(** ** Reading the strings back *)

Definition no_nul (s : list Z) : Prop := Forall (fun c => c <> 0) s.
(** A string that [copy_user_string] takes whole. *)
Definition argument (s : list Z) : Prop := no_nul s /\ (length s < max_argument_size)%nat.

Lemma user_within a n : Abi.user_begin <= a -> 0 <= n -> a + n <= Abi.user_end -> u32 a = a /\ contains a n = true.
Proof.
  intros Ha Hn He. assert (in_u 32 a) by (unfold in_u, Abi.user_begin, Abi.user_end in *; lia).
  split; [by apply wrap_small|by apply user_contains_spec].
Qed.

Lemma copy_string_found m a s : no_nul s -> forall i n, (length s < n)%nat -> 0 <= i ->
  Abi.user_begin <= a -> a + i + Z.of_nat (length s) + 1 <= Abi.user_end ->
  (forall j c, (s ++ [0]) !! j = Some c -> m (a + i + Z.of_nat j) = c) -> copy_string_loop m a i n = Some s.
Proof.
  intros Hs. induction Hs as [|c s Hc Hs IH]; intros i n Hn Hi Ha Hend Hl.
  all: destruct n as [|n]; [cbn in Hn; lia|]; cbn [copy_string_loop length] in *.
  all: destruct (user_within (a + i) 1) as [-> ->]; [lia..|]; cbn [negb].
  all: pose proof (Hl 0%nat _ eq_refl) as H0; rewrite -> Z.add_0_r in H0; rewrite -> H0.
  - done.
  - rewrite -> (proj2 (Z.eqb_neq _ _)) by done. rewrite -> (IH (i + 1)); [done|lia..|].
    intros j d Hj. replace (a + (i + 1) + Z.of_nat j) with (a + i + Z.of_nat (S j)) by lia. by apply Hl.
Qed.

Lemma copy_user_string_found m sp a s : argument s -> Abi.user_begin <= sp -> above sp a s -> string_at m a s ->
  copy_user_string m a max_argument_size = Some s.
Proof.
  intros [Hs Hlen] Hsp [H1 H2] Hat. unfold copy_user_string, Abi.user_stack_top, Abi.user_begin in *.
  rewrite -> (proj2 (Z.eqb_neq _ _)) by lia. cbn [orb Z.eqb Z.of_nat max_argument_size].
  apply copy_string_found; [done|done|lia|unfold Abi.user_begin; lia|unfold Abi.user_end; lia|].
  intros j c Hj. rewrite <- Hat in Hj. pose proof (lookup_lt_Some _ _ _ Hj) as Hlt. rewrite -> length_load in Hlt.
  unfold load in Hj. rewrite -> Fs.lookup_bytes_at in Hj by done. injection Hj as <-. f_equal. lia.
Qed.

Lemma copy_vector_found m sp vector strings : Forall argument strings -> Abi.user_begin <= sp -> sp <= vector ->
  forall count n, (length strings < n)%nat -> 0 <= count ->
  vector + (count + Z.of_nat (length strings) + 1) * 4 <= Abi.user_end ->
  (forall i s, strings !! i = Some s -> above sp (load_u32 m (vector + (count + Z.of_nat i) * 4)) s /\
     string_at m (load_u32 m (vector + (count + Z.of_nat i) * 4)) s) ->
  load_u32 m (vector + (count + Z.of_nat (length strings)) * 4) = 0 ->
  copy_vector m vector count n = Some strings.
Proof.
  intros Hs Hsp Hv. induction Hs as [|s strings Hs Hss IH]; intros count n Hn Hc Hend Hat Hz.
  all: destruct n as [|n]; [cbn in Hn; lia|]; cbn [copy_vector length] in *.
  all: destruct (user_within (vector + count * 4) 4) as [-> ->]; [lia..|]; cbn [negb].
  - rewrite -> Z.add_0_r in Hz. by rewrite -> Hz.
  - destruct (Hat 0%nat s eq_refl) as [H1 H2]. rewrite -> Z.add_0_r in H1, H2.
    rewrite -> (proj2 (Z.eqb_neq _ _)) by (destruct H1; unfold Abi.user_begin in *; lia).
    rewrite -> (copy_user_string_found m sp _ s) by done. cbn [mbind option_bind].
    rewrite -> (IH (count + 1)); [done|lia..| |].
    + intros i t Hi. replace (count + 1 + Z.of_nat i) with (count + Z.of_nat (S i)) by lia. by apply Hat.
    + rewrite <- Hz. f_equal. lia.
Qed.

(** ** From the stack of a program *)

Definition argv_of (sp : Z) : Z := sp + 4.
Definition envp_of (sp : Z) (arguments : list (list Z)) : Z := sp + 4 * (2 + Z.of_nat (length arguments)).

Lemma vectors_found image arguments environment m sp : initial_stack image arguments environment m sp ->
  Abi.user_begin <= sp -> sp + 256 <= Abi.user_end ->
  (length arguments < max_arguments)%nat -> (length environment < max_arguments)%nat ->
  Forall argument arguments -> Forall argument environment ->
  copy_vector m (argv_of sp) 0 max_arguments = Some arguments /\
  copy_vector m (envp_of sp arguments) 0 max_arguments = Some environment.
Proof.
  intros H Hsp He La Le Ha Hen. unfold argv_of, envp_of. pose proof La as La'. pose proof Le as Le'. unfold max_arguments in La', Le'.
  split; (apply (copy_vector_found _ sp); [done|done|lia|done|lia|lia| |]).
  - intros i s Hi. pose proof (stack_argv _ _ _ _ _ H i s Hi) as Hs.
    by replace (sp + 4 + (0 + Z.of_nat i) * 4) with (sp + 4 * (1 + Z.of_nat i)) by lia.
  - etrans; [|exact (stack_argv_end _ _ _ _ _ H)]. f_equal. lia.
  - intros i s Hi. pose proof (stack_envp _ _ _ _ _ H i s Hi) as Hs.
    by replace (sp + 4 * (2 + Z.of_nat (length arguments)) + (0 + Z.of_nat i) * 4)
      with (sp + 4 * (2 + Z.of_nat (length arguments) + Z.of_nat i)) by lia.
  - etrans; [|exact (stack_envp_end _ _ _ _ _ H)]. f_equal. lia.
Qed.

Lemma argument_sizes strings : Forall argument strings -> strings_size strings <= 128 * Z.of_nat (length strings).
Proof.
  intros H. induction H as [|s strings [_ Hs] _ IH]; [done|]. unfold max_argument_size in Hs. cbn [strings_size foldr length].
  fold (strings_size strings). lia.
Qed.

Section kernel.
Context {Q : Type} `{!ByteQueue Q}.
Context {W : Type} {stack_machine : Machine W}.
Context {D : Type} {device : Fs.Device D} {start : RootDevice D} {torn : TornRead D} {build : Build} {linker : LinkerScript}.
Abbreviation Kernel := (Kernel Q W (Root.RootFilesystem D)).

(** The running program has these strings on its stack, the way
    [make_initial_stack] leaves them. *)
Record started (image : Image) (arguments environment : list (list Z)) (k : Kernel) (sp : Z) : Prop := {
  started_room : Abi.user_stack_top - 2 ^ 21 <= sp;
  started_stack : initial_stack image arguments environment (memory k) sp;
  started_arguments : Forall argument arguments;
  started_environment : Forall argument environment;
  started_counts : (0 < length arguments < max_arguments)%nat /\ (length environment < max_arguments)%nat;
}.

Lemma exec_node_memory (k k1 : Kernel) path n canonical : exec_node k path = (k1, n, canonical) -> memory k1 = memory k.
Proof.
  unfold exec_node. destruct (path_node k path) as [[k0 n0] c0] eqn:E.
  assert (memory k0 = memory k) as H0 by (pose proof (Confined.keeps_path_node k path) as H; unfold Confined.KeepsPath in H; by rewrite -> E in H).
  case_bool_decide; [|by intros [= <- <- <-]]. unfold on_root. destruct (Root.lookup _ _) as [e r]. by intros [= <- <- <-].
Qed.

Lemma started_vectors image arguments environment (k : Kernel) sp : started image arguments environment k sp ->
  copy_vector (memory k) (argv_of sp) 0 max_arguments = Some arguments /\
  copy_vector (memory k) (envp_of sp arguments) 0 max_arguments = Some environment /\ envp_of sp arguments <> 0.
Proof.
  intros [H1 H2 H3 H4 [H5 H6]]. unfold Abi.user_stack_top in *.
  assert (sp < Abi.user_stack_top) as Hsp.
  { destruct arguments as [|s arguments]; [cbn in H5; lia|]. destruct (stack_argv _ _ _ _ _ H2 0%nat s eq_refl) as [[A B] _]. lia. }
  unfold Abi.user_stack_top in *.
  destruct (vectors_found image arguments environment (memory k) sp) as [V1 V2];
    [done|unfold Abi.user_begin; lia|unfold Abi.user_end; lia|lia|lia|done|done|].
  split; [done|]. split; [done|]. unfold envp_of. lia.
Qed.

(** What the loader and the new stack make of the kernel. *)
Lemma replaced (k k2 : Kernel) path arguments environment busybox image :
  Forall argument arguments -> Forall argument environment ->
  (0 < length arguments < max_arguments)%nat -> (length environment < max_arguments)%nat ->
  load_executable k path = (k2, Some (busybox, image)) ->
  busybox = true \/ image_brk image <= Abi.user_stack_top - heap_reserve ->
  exists k3, replace_with_executable k path arguments environment = Returned (k3, true) /\
    let sp := Abi.reg (trap_frame k3) 2 in
    started image arguments environment k3 sp /\ Abi.mepc (trap_frame k3) = image_entry image /\
    Abi.image_replaced (process k3) = true /\ forall b, ~ (sp <= b < Abi.user_stack_top) -> memory k3 b = memory k2 b.
Proof.
  intros Ha He [La0 La] Le Hload Hroom. unfold replace_with_executable.
  pose proof (argument_sizes _ Ha) as Sa. pose proof (argument_sizes _ He) as Se. unfold max_arguments in La, Le.
  rewrite -> (proj2 (Nat.eqb_neq _ _)), (proj2 (Nat.ltb_ge _ _)), (proj2 (Nat.ltb_ge _ _)) by (unfold max_arguments; lia). cbn [orb].
  rewrite -> Hload. assert (negb busybox && (Abi.user_stack_top - heap_reserve <? image_brk image) = false) as ->.
  { destruct Hroom as [->|H]; [done|]. rewrite -> (proj2 (Z.ltb_ge _ _)) by lia. by rewrite -> andb_false_r. }
  destruct (initial_stack_made image arguments environment (memory k2)) as (sp & m & E & Hsp & Hst & Hm); [lia|lia|lia|].
  match goal with |- context [make_initial_stack image arguments environment ?m0] => change m0 with (memory k2) end. rewrite -> E.
  eexists. split; [reflexivity|]. cbn. split; [|done]. split; [done|done|done|done|unfold max_arguments; lia].
Qed.

End kernel.

(** ** A shell that starts itself again *)
Import Examples.

(** The small executable as "/sh", its mode made executable. *)
Definition path_sh : list Z := [47; 115; 104].
Definition created : Ext4.Volume (list Z) := (Ext4.create (Some path_sh) (Some LoaderLaws.example_elf) 116 Ext4Image.mounted.1).1.
Definition inode_of_sh : Z := match (Ext4.lookup_path (Some path_sh) created).2 with Fs.expected node => Ext4.inode node | _ => 0 end.
Definition shell_volume : Ext4.Volume (list Z) :=
  created <| Ext4.device_ ::= fun d => patch d (Z.to_nat (Ext4Image.table + 128 * (inode_of_sh - 1))) (Fs.bytes16 0x81ed) |>.

Definition shell_arguments : list (list Z) := [path_sh; [45; 99]].
Definition shell_environment : list (list Z) := [[80; 61; 49]].
Definition shell_image : Image := mkImage 0x81001054 0x81001034 1 0x81002000 0x81001000.
Definition shell_stack : Z * Memory :=
  match make_initial_stack shell_image shell_arguments shell_environment (fun _ => 0) with Returned r => r | _ => (0, fun _ => 0) end.
Definition shell : Examples.Kernel :=
  Examples.kernel (Examples.frame_of 221 (load_u32 shell_stack.2 (shell_stack.1 + 4)) (argv_of shell_stack.1) (envp_of shell_stack.1 shell_arguments))
    shell_stack.2 <| executables := LoaderLaws.mounted_root shell_volume |>.
Definition shell_path : Z := load_u32 shell_stack.2 (shell_stack.1 + 4).

Lemma shell_started : started shell_image shell_arguments shell_environment shell shell_stack.1.
Proof.
  destruct (initial_stack_made shell_image shell_arguments shell_environment (fun _ => 0)) as (sp & m & E & Hsp & Hst & _); [cbn; lia..|].
  assert (shell_stack = (sp, m)) as Hs by (unfold shell_stack; by rewrite -> E).
  split.
  - by rewrite -> Hs.
  - change (memory shell) with shell_stack.2. by rewrite -> Hs.
  - repeat constructor; try discriminate; cbn; unfold max_argument_size; lia.
  - repeat constructor; try discriminate; cbn; unfold max_argument_size; lia.
  - cbn. unfold max_arguments. lia.
Qed.
Example shell_node : (exec_node shell shell_path).2 = path_sh.
Proof. vm_compute. reflexivity. Qed.
Example shell_not_refused :
  exec_refused (exec_node shell shell_path).1.1 (exec_node shell shell_path).1.2 path_sh (argv_of shell_stack.1) (envp_of shell_stack.1 shell_arguments) = None.
Proof. vm_compute. reflexivity. Qed.
Example shell_loads : (load_executable (exec_node shell shell_path).1.1 path_sh).2 = Some (false, shell_image).
Proof. vm_compute. reflexivity. Qed.

End ExecLaws.
