(* ===== verification/Timer.v ===== *)
(** * [kernel/arch/riscv32/timer.cpp]: the timer of the machine

    The 64-bit counter and the 64-bit compare register are two words each for a
    32-bit core.  The counter goes on while the code reads it. *)

From S2P Require Import Prelude Base.
Local Open Scope Z_scope.

(** The words of the counter, low and high, each read at its own instant, and a
    write to a word of the compare register. *)
Class Clint (W : Type) := {
  counter_word : W -> bool -> W * Z;
  write_compare_word : W -> bool -> Z -> W;
}.

Module Timer.

Record Counter := mkCounter { low : Z; high : Z }.
Definition value (c : Counter) : Z := Z.lor (Z.shiftl (high c) 32) (low c).

Section timer.
Context {W : Type} {clint : Clint W}.

(** [do ... while (first_high != second_high)], at most [spins + 1] rounds. *)
Fixpoint read_time (spins : nat) (w : W) : option (W * Counter) :=
  let '(w, first_high) := counter_word w true in
  let '(w, low_) := counter_word w false in
  let '(w, second_high) := counter_word w true in
  if first_high =? second_high then Some (w, mkCounter low_ second_high) else
  match spins with O => None | S spins => read_time spins w end.

Definition time_ticks (spins : nat) (w : W) : option (W * Z) := (fun r => (r.1, value r.2)) <$> read_time spins w.

Definition write_compare (c : Counter) (w : W) : W :=
  let w := write_compare_word w false 0xffffffff in
  let w := write_compare_word w true (high c) in
  write_compare_word w false (low c).

(** The counter a quantum later. *)
Definition later (c : Counter) (quantum_ticks : Z) : Counter :=
  let next := u32 (low c + quantum_ticks) in
  mkCounter next (if next <? low c then u32 (high c + 1) else high c).

Definition rearm_scheduler_timer (spins : nat) (quantum_ticks : Z) (w : W) : option W :=
  (fun r => write_compare (later r.2 quantum_ticks) r.1) <$> read_time spins w.
End timer.

(** The quantum while a service waits for the network, and otherwise. *)
Definition normal_quantum_ticks := 50000.
Definition network_quantum_ticks := 5000.
Definition set_network_timer_waiting {W} {clint : Clint W} (spins : nat) (waiting : bool) (w : W) : option (Z * W) :=
  let quantum_ticks := if waiting then network_quantum_ticks else normal_quantum_ticks in
  (fun w => (quantum_ticks, w)) <$> rearm_scheduler_timer spins quantum_ticks w.

(** ** What a reader sees *)

Definition word (t : Z) (upper : bool) : Z := if upper then t / 2 ^ 32 else t mod 2 ^ 32.

(** A counter that only goes forward; every read sees it at one instant. *)
Class ClintLaws (W : Type) {clint : Clint W} := {
  now : W -> Z;
  compare : W -> Counter;
  now_range w : in_u 64 (now w);
  counter_word_now w upper : let '(w', v) := counter_word w upper in
    (exists t, now w <= t <= now w' /\ v = word t upper) /\ compare w' = compare w;
  write_compare_now w upper v :
    compare (write_compare_word w upper v) = (if upper then mkCounter (low (compare w)) v else mkCounter v (high (compare w)));
}.

Definition counter_ok (c : Counter) : Prop := in_u 32 (low c) /\ in_u 32 (high c).

Lemma value_eq c : counter_ok c -> value c = high c * 2 ^ 32 + low c.
Proof.
  intros [Hl Hh]. unfold value. by apply lor_shiftl.
Qed.

Lemma word_value t : in_u 64 t -> value (mkCounter (word t false) (word t true)) = t /\ counter_ok (mkCounter (word t false) (word t true)).
Proof.
  intros Ht. unfold in_u in Ht. unfold word.
  assert (counter_ok (mkCounter (t mod 2 ^ 32) (t / 2 ^ 32))) as Hc.
  { split; unfold in_u; cbn [low high]; [pose proof (Z.mod_pos_bound t (2 ^ 32)); lia|].
    split; [apply Z.div_pos; lia|apply Z.div_lt_upper_bound; lia]. }
  split; [|done]. rewrite -> value_eq by done. cbn [low high]. pose proof (Z.div_mod t (2 ^ 32)). lia.
Qed.

Lemma later_value c q : counter_ok c -> 0 <= q < 2 ^ 32 -> counter_ok (later c q) /\ value (later c q) = u64 (value c + q).
Proof.
  intros Hc Hq. pose proof Hc as [Hl Hh]. unfold in_u in *.
  assert (counter_ok (later c q)) as Ho.
  { split; unfold later; cbn [low high]; [by apply wrap_in_u|]. case_match; [by apply wrap_in_u|done]. }
  split; [done|]. rewrite -> !value_eq by done. unfold later. cbn [low high]. unfold wrap.
  destruct (decide (low c + q < 2 ^ 32)) as [Hs|Hs].
  - rewrite -> (Z.mod_small (low c + q)) by lia. rewrite -> (proj2 (Z.ltb_ge _ _)) by lia. rewrite -> Z.mod_small by lia. lia.
  - assert ((low c + q) mod 2 ^ 32 = low c + q - 2 ^ 32) as -> by (symmetry; apply Zmod_unique with 1; lia).
    rewrite -> (proj2 (Z.ltb_lt _ _)) by lia.
    destruct (decide (high c + 1 < 2 ^ 32)) as [Hu|Hu].
    + rewrite -> (Z.mod_small (high c + 1)) by lia. rewrite -> Z.mod_small by lia. lia.
    + assert (high c = 2 ^ 32 - 1) as -> by lia.
      change ((2 ^ 32 - 1 + 1) mod 2 ^ 32) with 0. apply Zmod_unique with 1; lia.
Qed.

Section laws.
Context {W : Type} {clint : Clint W} {laws : ClintLaws W}.

Lemma read_time_now spins w w' c : read_time spins w = Some (w', c) ->
  counter_ok c /\ compare w' = compare w /\ exists t, now w <= t <= now w' /\ value c = t.
Proof.
  revert w. induction spins as [|spins IH]; intros w; simpl;
    pose proof (counter_word_now w true) as H1; destruct (counter_word w true) as [w1 v1];
    destruct H1 as [(t1 & Ht1 & ->) C1];
    pose proof (counter_word_now w1 false) as H2; destruct (counter_word w1 false) as [w2 v2];
    destruct H2 as [(t2 & Ht2 & ->) C2];
    pose proof (counter_word_now w2 true) as H3; destruct (counter_word w2 true) as [w3 v3];
    destruct H3 as [(t3 & Ht3 & ->) C3];
    pose proof (now_range w) as Hr; pose proof (now_range w3) as Hr3; unfold in_u in Hr, Hr3;
    destruct (word t1 true =? word t3 true) eqn:He.
  1, 3: apply Z.eqb_eq in He; intros [= <- <-]; unfold word in He;
    assert (t2 / 2 ^ 32 = t3 / 2 ^ 32) as Hh
      by (pose proof (Z.div_le_mono t1 t2 (2 ^ 32)); pose proof (Z.div_le_mono t2 t3 (2 ^ 32)); lia);
    destruct (word_value t2) as [Hv Hc]; [unfold in_u; lia|];
    rewrite <- ?Hh;
    split; [exact Hc|split; [congruence|exists t2; split; [lia|exact Hv]]].
  - done.
  - intros H. destruct (IH w3 H) as (Hc & Hp & t & Ht & Hv).
    split; [exact Hc|split; [congruence|exists t; split; [lia|done]]].
Qed.

(** The compare register after each of the three writes. *)
Definition compare_states (c : Counter) (w : W) : list Z :=
  let w1 := write_compare_word w false 0xffffffff in
  let w2 := write_compare_word w1 true (high c) in
  [value (compare w1); value (compare w2); value (compare (write_compare c w))].

(** C39: the timer is armed for a quantum after an instant of the call itself, never
    for a counter value that was not there, however often the low word of the
    counter overflows between the reads; and while the two words of the compare
    register change, it is never below both its old and its new value, so no
    interrupt is raised in between that neither of them would raise. *)
Theorem rearm_spec spins q w w' : 0 <= q < 2 ^ 32 -> counter_ok (compare w) ->
  rearm_scheduler_timer spins q w = Some w' ->
  exists w1 c t, w' = write_compare c w1 /\ compare w1 = compare w /\ now w <= t <= now w1 /\
    value (compare w') = u64 (t + q) /\
    Forall (fun v => value (compare w) <= v \/ value (compare w') <= v) (compare_states c w1).
Proof.
  intros Hq Hw. unfold rearm_scheduler_timer. intros (r & Hr & ->)%fmap_Some. destruct r as [w1 c]. cbn [fst snd].
  destruct (read_time_now _ _ _ _ Hr) as (Hc & Hp & t & Ht & Hv).
  destruct (later_value c q Hc Hq) as [Hlo Hl].
  assert (compare (write_compare (later c q) w1) = later c q) as Hfinal.
  { unfold write_compare. rewrite -> !write_compare_now. cbn [low high]. by destruct (later c q). }
  exists w1, (later c q), t. rewrite -> Hfinal. split_and!; [done|done|lia|lia|by rewrite -> Hl, Hv|].
  unfold compare_states. rewrite -> Hfinal, !write_compare_now, Hp. cbn [low high].
  destruct Hw as [Hw1 Hw2], Hlo as [Hlo1 Hlo2].
  assert (forall h, in_u 32 h -> counter_ok (mkCounter 0xffffffff h)) as Hmax by (intros h Hh; split; [unfold in_u; cbn; lia|done]).
  rewrite -> !Forall_cons. split_and!; [left|right|by right|by apply Forall_nil].
  - rewrite -> !value_eq by (by apply Hmax || done). cbn [low high]. unfold in_u in *. lia.
  - rewrite -> !value_eq by (by apply Hmax || done). cbn [low high]. unfold in_u in *. lia.
Qed.
End laws.

(** ** A counter that goes on by one with every read *)

Record ExampleClint := mkExample { ticks : Z; example_compare : Counter }.
#[local] Instance example_clint : Clint ExampleClint := {
  counter_word w upper := (mkExample (Z.min (u64 (ticks w) + 1) (2 ^ 64 - 1)) (example_compare w), word (u64 (ticks w)) upper);
  write_compare_word w upper v :=
    mkExample (ticks w) (if upper then mkCounter (low (example_compare w)) v else mkCounter v (high (example_compare w)));
}.
#[local] Program Instance example_clint_laws : ClintLaws ExampleClint := { now w := u64 (ticks w); compare := example_compare }.
Next Obligation. intros w. by apply wrap_in_u. Qed.
Next Obligation.
  intros w upper. cbn. pose proof (wrap_in_u 64 (ticks w) ltac:(lia)) as H. unfold in_u in H. split; [|done].
  exists (u64 (ticks w)). split; [|done]. set (t := u64 (ticks w)) in *. change (t <= t <= u64 (Z.min (t + 1) (2 ^ 64 - 1))).
  rewrite -> wrap_small by (unfold in_u; lia). lia.
Qed.
Next Obligation. done. Qed.

(** The low word overflows while it is read. *)
Definition example_clint_start : ExampleClint := mkExample (2 ^ 32 - 1) (mkCounter 7 0).

Lemma rearm_spec_witness :
  exists w', rearm_scheduler_timer 3 normal_quantum_ticks example_clint_start = Some w' /\
    value (example_compare w') = 2 ^ 32 + 3 + normal_quantum_ticks /\
    exists w1 c t, w' = write_compare c w1 /\ compare w1 = compare example_clint_start /\ now example_clint_start <= t <= now w1 /\
      value (compare w') = u64 (t + normal_quantum_ticks) /\
      Forall (fun v => value (compare example_clint_start) <= v \/ value (compare w') <= v) (compare_states c w1).
Proof.
  eexists. split; [vm_compute; reflexivity|]. split; [vm_compute; reflexivity|].
  apply (rearm_spec 3 normal_quantum_ticks example_clint_start); [unfold normal_quantum_ticks; lia|split; unfold in_u; cbn; lia|].
  vm_compute. reflexivity.
Defined.
End Timer.
